(* ===== verification/_CoqProject ===== *)
-Q . S2P
Prelude.v
GoStrings.v
GoErrors.v
GoFloat.v
GoFloatOrder.v
GoJson.v
GoTime.v
Fitness.v
HistoryEvent.v
Metrics.v
State.v
RepoLock.v
RateLimit.v
RepoName.v
GoGlob.v
GovConfig.v
Scoring.v
ContentScoring.v
Report.v
GoNet.v
Auth.v
GoOS.v
GoJsonPrint.v
HistoryIpc.v
HistoryIpcProofs.v
GoProc.v
HistoryService.v
HistoryServiceProofs.v
Hooks.v
HooksText.v
HooksProofs.v
HooksSettings.v
HooksExamples.v
GoFS.v
GoFSTree.v
CertMaterial.v
CertStore.v
CertPublish.v
CertRecover.v
CertFrame.v
CertSafety.v
CertJournal.v
CertExamples.v
CertManaged.v
CertManagedProofs.v
CertManagedExamples.v
ManagedRuntime.v
ManagedRuntimeProofs.v
ConfigStore.v
Governance.v
Scaffold.v
ScaffoldProofs.v
Baseline.v
BaselineProofs.v
Wizard.v
WizardProofs.v
Checker.v
CheckerProofs.v
CsprojProofs.v
Server.v
ServerProofs.v
Sarif.v
Client.v
ClientProofs.v
Restart.v
RestartLock.v
RestartProofs.v
RestartIdentity.v
RestartExamples.v
Onboard.v
OnboardProofs.v
OnboardExamples.v
Installer.v
InstallerFrame.v
InstallerPaths.v
InstallerProofs.v
InstallerRollback.v
InstallerExamples.v
