(* ===== verification/Prelude.v ===== *)
(** * Verification of agent-fitness-functions

    The program is a governance daemon and its command line tools.  An agent that
    is about to write a source file asks the daemon whether the new content keeps
    the fitness functions of the repository; the daemon analyses the content,
    builds a CALM architecture document, validates it against a pattern, scores
    the metrics and the text, and answers pass, block or advisory.  The development
    models this core, the configuration and identity it depends on, the
    publication of the certificates the daemon serves with, the service that
    receives and stores the history of validations, the client that asks, with
    the hooks it installs into a repository and the onboarding of a repository, and
    the installer that puts a release into its place.

    ** Parts and files

    Foundations, which model the Go language and library the code uses:
    - [Prelude]: results, notation, automation, sorting.
    - [GoStrings], [GoErrors], [GoFloat], [GoGlob], [GoNet]: strings as bytes with
      UTF-8 and package [path/filepath]; errors with wrapping and [errors.Is];
      binary64 through [SpecFloat]; [filepath.Match]; addresses and host names.
    - [GoJson], [GoJsonPrint]: the JSON parser and decoders, and the printers with
      their round trip.
    - [GoOS]: the effect monad.  A computation runs over a world (own state, files,
      directories, step counter) and returns, panics or blocks; the clock, the
      faults of every call and the interference of other goroutines are functions
      of the step, so that theorems hold for every failure and every interleaving
      at the granularity of the critical sections.  It has invariants ([keeps]),
      frames ([transits]) and weakest preconditions ([wp]).
    - [GoTime]: instants, the calendar and RFC 3339, with their round trip.
    - [GoProc]: goroutines as programs of atomic actions, choices and jumps, an
      interleaving step relation, and the logic of ghost tokens the service is
      verified with.
    - [GoFloatOrder]: the order of binary64 numbers the baselines are compared with.
    - [GoFS]: a file tree with modes, links and inodes, in which every call may also
      be the point where the process dies; [GoFSTree]: what its calls do to the
      names below a directory.

    The program, with the sources under src/internal:
    - [Fitness] (fitness/contract.go, calm/pattern.go): requests, verdicts, rules.
    - [Metrics] (analyzer/analyzer.go): analysis results and module aggregation.
    - [State] (server/state.go): the violation blackboard, the warm-up slots and the
      ledger; [RepoLock] (server/state.go): the repository semaphores as a heap of
      locks and a step relation over goroutines; [RateLimit] (server/ratelimit.go).
    - [RepoName] (server/config.go, register.go): names of repositories;
      [GovConfig] (govconfig): the governance configuration.
    - [Scoring] (server/checker.go) and [ContentScoring] (server/content_scoring.go):
      metric and text scorers; [Report] (report/architecture.go): the document.
    - [Auth] (server/auth.go): callers, policy, authorization.
    - [ConfigStore] (server/configstore.go, configstore_register.go, register.go):
      the configurations served, with reloads, debounce and registration.
    - [Governance] (patterns/embed.go): the pattern that is shipped.
    - [Checker], [CheckerProofs], [CsprojProofs] (server/checker.go,
      calm/validator.go, analyzer/csproj.go): the check.
    - [Server], [ServerProofs] (server/server.go, functions.go, register.go): every
      route of the daemon and the validation of its options.
    - [CertMaterial], [CertStore], [CertPublish], [CertRecover] (devcerts/publish.go,
      lock.go, transaction.go, state.go, lifecycle.go): the development
      certificates, their publication under a lock with a journal, and recovery;
      [CertFrame], [CertSafety], [CertJournal], [CertExamples]: what holds of it.
    - [CertManaged], [CertManagedProofs], [CertManagedExamples] (devcerts/managed.go):
      the material of one side, read with its fingerprints; [ManagedRuntime],
      [ManagedRuntimeProofs] (server/runtime.go): the record the daemon publishes of
      the certificates it runs with.
    - [HistoryEvent] (history/event.go): events and their validation; [HistoryIpc],
      [HistoryIpcProofs] (historyipc/protocol.go): frames and messages;
      [HistoryService], [HistoryServiceProofs] (historyipc/receive.go,
      historyservice/service.go): the receiver with its slots, byte budget and
      queue, and the goroutines of the writer.
    - [Hooks] (client/client.go from RunInstallHooks, client/native_extensions.go):
      install-hooks, the text of host hooks and the settings of the agents;
      [HooksText], [HooksProofs], [HooksSettings], [HooksExamples]: what holds of it.
    - [Scaffold], [ScaffoldProofs] (client/functions.go, the rendering of
      client/onboard.go): the configuration and the caller policy as text, and their
      update in place; [Wizard], [WizardProofs] (client/wizard.go, client/picker.go):
      the questions; [Onboard], [OnboardProofs], [OnboardExamples] (client/onboard.go):
      bindings under their lock, registration, and the files that are staged.
    - [Baseline], [BaselineProofs] (analyzer/baseline.go, analyzer/onboarding.go): the
      distribution of metrics and the thresholds recommended from it.
    - [Installer] (installer/installer.go, installer/runtime_reconcile.go): archives,
      versions, the links to them, rollback and removal; [InstallerFrame],
      [InstallerPaths], [InstallerProofs], [InstallerRollback], [InstallerExamples]:
      what holds of it.
    - [Sarif] (sarif/sarif.go): verdicts as SARIF; [Client], [ClientProofs]
      (client/client.go from RunCheck, client/failure.go, client/daemon.go):
      addresses, TLS modes, finding or starting the daemon, and the request.
    - [Restart] (client/daemonstatus.go, client/restart.go): the identity of a daemon,
      its staleness, and the engine that replaces a stale one; [RestartLock]: its lock
      between processes; [RestartProofs], [RestartIdentity], [RestartExamples]: what
      holds of it.

    Go structs are Records with prefixed fields, string enumerations are strings or
    Inductive types, maps are [gmap]s where order cannot be observed and sorted
    lists where it is, a nil map or pointer is [None], fallible functions return
    [result goerror], and stateful ones are in the monad [M].  Loops over data are
    Fixpoints on that data.

    ** How the parts interact

    A request enters [Server.NewHandlerWithOptions], is authenticated ([Auth]) and
    authorized against the policy that the [ConfigStore] serves, takes a slot of
    the repository's semaphore ([State], [RepoLock]), looks up its configuration
    and runs [Checker.Check]; that uses the analyzers and the validator (external
    parameters), [Scoring] and [ContentScoring], and updates the ledger.  File
    events reload the [ConfigStore] concurrently; deferred checks run after the
    answer.  [Client.RunCheck] is the other end: it sends the request that
    [Server] decodes and turns the verdict into output and an exit; the hooks that
    [Hooks] installs are what runs it.

    ** What the theorems show

    - Check: the verdict of a check equals a direct specification over the scores
      ([Check_reference]); a pass of a blocking configuration means there was no
      violation ([Check_pass_means_clean]); a dry run predicts the real run
      and changes nothing ([Check_dry_run]); temporary files are removed and the
      ledger kept on every failing path ([Check_restores_files],
      [Check_keeps_ledger]); deferred checks end their warm-up whatever happens.
    - State: the nested maps refine a set of violations per file; the semaphores
      never admit more than their width, in every reachable state.
    - Server: only authenticated callers get past the daemon's guarded routes,
      administrators alone past /configs and /shutdown, every answered check is
      authorized by the policy and justified under the configuration of the store that
      was served, which [served] follows through the actions of other goroutines, a refused one changes
      nothing, and slots are always returned; preflight agrees with check.
    - Configuration: what is served is well-formed in every interleaving, reloads
      fail closed, registration round-trips and never replaces a configuration.
    - Scoring, reporting, names, limits: each scorer equals its reference, the
      document is referentially sound, name resolution is total, the rate limit
      bounds every window.
    - Certificates: whatever fails and wherever the process dies, in any sequence
      of attempts, [current] stays as it was or points to complete material
      ([publication_crash_safe]); success means published; the journal written is
      the journal read; a live lock is never taken; the generator and the
      recognizer agree.
    - Managed certificates: two processes that load a version as client and as daemon
      trust the same authority and hold leaves it signed ([managed_sides_agree]),
      what a publication leaves is loaded by both ([managed_material_loads]), and the record of the runtime is replaced as a
      whole or not at all ([publishManagedRuntime_atomic]).
    - Onboarding: what onboarding writes, with the answers of the wizard too, is
      accepted by the daemon's decoder ([onboarded_config_accepted],
      [wizard_config_accepted]); a tracked configuration is kept
      unless the run may rewrite it, and the shared one agrees with it afterwards
      ([scaffoldConfig_sync]); the binding that is written lets the caller in
      ([ensureCallerBinding_grants]); the daemon reads
      the registration that was sent ([remote_registration]), and waiting for it ends
      with its acknowledgement or an error ([awaitRegistration_acknowledged]).
    - Baselines: the recommendation counts the violations that the scorers of the
      check report, wide interfaces once per file ([recommendation_predicts]); a row that asks for a looser
      threshold has violations or no measurement ([looser_explained]).
    - Installer: wherever an upgrade fails or dies, the version in use stays or is
      the complete new one ([upgrade_crash_safe]); success of an upgrade to another
      version means that it is in use and one predecessor is retained
      ([upgrade_success]), and a rollback gives that back, also where its runtimes are
      pinned ([upgrade_then_rollback]); an archive writes below its directory only
      ([extractArchive_confined]), and removal touches owned names only
      ([uninstall_confined]).
    - History: a frame is accepted exactly when it is one bounded payload and the
      end of the stream ([DecodeFrame_exact]) and an event survives it
      ([validation_roundtrip]); in every interleaving of the goroutines the writer
      keeps its limits ([service_bounded]), stores events in order and at most once
      ([service_order]), is never stuck before it returns ([service_never_stuck])
      and gives everything back ([service_returns_clean]).
    - Client: success means that the daemon answered the very request and what is
      printed is its answer, and a failure prints no verdict ([RunCheck_explained]);
      every request stays on the host that was named ([RunCheck_stays]), and the
      daemon reads the request that was sent ([request_understood]).
    - Restart: success is the observation of a current daemon
      ([ensureCurrentDaemon_current]); remote and foreign listeners are left alone
      ([ensureCurrentDaemon_spares]); every wait ends ([ensureCurrentDaemon_returns])
      and the lock is given back ([restart_releases_lock]); the lock is exclusive
      unless a holder dies ([restart_lock_exclusive], [stale_lock_reaped_twice]); the
      daemon that is started is recognized ([started_daemon_current]).
    - Hooks: a hook that is not ours is never replaced without consent
      ([RunInstallHooks_refuses_foreign]); composing keeps the host's script and
      adds one call ([host_hook_composed]); installing twice is installing once
      ([installGitHook_idempotent]); settings keep what other tools wrote
      ([upsertClaudeHook_spec], [applyCodexHook_stable]).

    ** Bounds

    [json_fuel] is twice the length of the text plus two; the round trip shows it
    enough for every printed document.  [nearest_csproj] recurs on the length of the path; the search is
    shown to end with it.  [lock_fuel] is 256 attempts: the wait is 10 s in steps
    of 100 ms, so that about 101 attempts fit; a wait that uses it up is [Blocked],
    and no theorem relies on its returning.  [poll_fuel] is the number of pauses
    that fit into a wait of the client, plus two: [ensureCurrentDaemon_returns] shows
    that it is never used up.  [maxNameAttempts] is the code's
    own 16, and so are [mkdirTempAttempts] (10000, package os) and
    [runtimeNameAttempts] (16).  The lock of the bindings and the registration wait
    with [poll_fuel] as well.  [remove_fuel] is 4096 levels of directories, as many
    as a path may have bytes; a removal that uses it up is [Blocked].  [write_all] is bounded by the bytes to write.  [observe_tree] is bounded by the number of inodes.

    ** Abstractions

    Other goroutines act on the state that is shared, between the atomic accesses to
    it; configuration files do not change while one event is handled
    ([ConfigStore.store_step]), and a walk over the certificate root is one read
    ([observeManagedTree]), after which modification times may agree or not.  A link in
    the middle of a path is not followed by [GoFS]: a call that meets one fails.

    ** Not modelled

    The analyzers for Go, Python and C# (go/ast, radon, Roslyn) and their helpers:
    parameters of the check.  Listeners, TLS handshakes and the process identity
    of the health answer.  The client's diagnosis (doctor), the migration of its
    legacy state, the order of the steps of onboarding as one run, the reports that
    baselines are written to and the walk over the repository that feeds them, the
    flag parsing, the capture of history events and the spawning of the daemon,
    the modes of hook files, the database and the socket files of the history, the
    provisioning of managed runtimes by npm, pip and dotnet, the verification of
    renames, build information and the command line: not yet or, where
    they only move bytes between processes, not at all.  X.509, PEM and SHA-256
    are parameters with the laws that [CertMaterial.X509Laws] states; net/url is
    the parameter [Client.URLPackage] with [Client.URLLaws]. *)

(** Shared notation, automation and generic lemmas. *)

From stdpp Require Import base gmap strings list sorting.
From Stdlib Require Import ZArith Lia.

Set Default Goal Selector "!".
#[export] Set Warnings "-clear-no-such-hyp".
#[export] Set Warnings "-register-all".

(** ** Results of fallible operations *)

(** A Go function that returns [(T, error)] and whose value is the zero value
    whenever the error is non-nil. *)
Inductive result (E A : Type) : Type :=
| Ok (a : A)
| Err (e : E).

Arguments Ok {E A} _.
Arguments Err {E A} _.

Declare Scope go_scope.
Delimit Scope go_scope with go.

Notation "'let?' x ':=' c 'in' k" :=
  (match c with Ok x => k | Err e => Err e end)
  (at level 10, x pattern, c at level 100, k at level 200) : go_scope.
Open Scope go_scope.

Definition is_ok {E A} (r : result E A) : bool :=
  match r with Ok _ => true | Err _ => false end.

(** ** Tactics *)

(** Case analysis on every [match]/[if] of the goal, or of a hypothesis, keeping
    the equations; contradictory branches are closed. *)
Ltac case_goal :=
  repeat (case_match; simplify_eq/=; try done).

Ltac case_hyp H :=
  repeat (match type of H with
          | context [match ?x with _ => _ end] =>
              let E := fresh "E" in destruct x eqn:E; simplify_eq/=; try done
          end).

Create HintDb governance discriminated.

(** ** Byte-string order *)

(** Go compares strings bytewise; so does [String.compare]. *)
Definition string_leb (s t : string) : bool := String.leb s t.

Lemma string_leb_refl s : string_leb s s = true.
Proof. apply Is_true_true. reflexivity. Qed.

Lemma string_leb_trans s t u :
  string_leb s t = true → string_leb t u = true → string_leb s u = true.
Proof.
  rewrite <-!Is_true_true. intros H1 H2.
  exact (transitivity (R := String.le) H1 H2).
Qed.

Lemma string_leb_antisym s t :
  string_leb s t = true → string_leb t s = true → s = t.
Proof. intros. by apply String.leb_antisym. Qed.

Lemma string_leb_total s t : string_leb s t = true ∨ string_leb t s = true.
Proof. apply String.leb_total. Qed.

Lemma string_ltb_leb s t : String.ltb s t = negb (string_leb t s).
Proof.
  unfold string_leb, String.ltb, String.leb. rewrite (String.compare_antisym t s).
  by destruct (s ?= t)%string.
Qed.

(** ** Stable sorting by a key

    [sort.SliceStable] with a comparison that is a strict weak order yields the
    unique permutation that is sorted and keeps equal elements in their input
    order.  [stable_sort] computes it, and [stable_sort_ext] is that uniqueness:
    the result depends only on the subsequences of equal key. *)

Section stable_sort.
Context {A K : Type} `{!EqDecision K} (key : A → K) (kleb : K → K → bool).

(** [x] precedes the elements of [l] in the input, so it goes before the ones
    that are not strictly smaller. *)
Fixpoint stable_insert (x : A) (l : list A) : list A :=
  match l with
  | [] => [x]
  | y :: l' => if kleb (key x) (key y) then x :: l else y :: stable_insert x l'
  end.

Definition stable_sort (l : list A) : list A := foldr stable_insert [] l.

Context (kleb_total : ∀ a b, kleb a b = true ∨ kleb b a = true)
        (kleb_trans : ∀ a b c, kleb a b = true → kleb b c = true → kleb a c = true)
        (kleb_antisym : ∀ a b, kleb a b = true → kleb b a = true → a = b).

Local Abbreviation key_le := (λ x y, kleb (key x) (key y) = true).

Lemma stable_insert_perm x l : stable_insert x l ≡ₚ x :: l.
Proof.
  induction l as [|y l IH]; simpl; [done|].
  case_match; [done|]. rewrite IH. apply Permutation_swap.
Qed.

Lemma stable_sort_perm l : stable_sort l ≡ₚ l.
Proof. induction l as [|x l IH]; simpl; [done|]. by rewrite stable_insert_perm, IH. Qed.

Lemma stable_insert_sorted x l :
  StronglySorted key_le l → StronglySorted key_le (stable_insert x l).
Proof.
  intros Hl. induction Hl as [|y l Hl IH Hy]; simpl; [repeat constructor|].
  destruct (kleb (key x) (key y)) eqn:Hxy.
  - constructor; [by constructor|]. constructor; [done|].
    eapply Forall_impl; [exact Hy|]. simpl; eauto.
  - constructor; [done|]. rewrite stable_insert_perm. constructor; [|done].
    destruct (kleb_total (key y) (key x)) as [?|?]; congruence.
Qed.

Lemma stable_sort_sorted l : StronglySorted key_le (stable_sort l).
Proof. induction l; simpl; [constructor|]. by apply stable_insert_sorted. Qed.

Lemma stable_insert_filter k x l :
  StronglySorted key_le l →
  filter (λ y, key y = k) (stable_insert x l) = filter (λ y, key y = k) (x :: l).
Proof.
  intros Hl. induction Hl as [|y l Hl IH Hy]; simpl; [done|].
  destruct (kleb (key x) (key y)) eqn:Hxy; [done|].
  rewrite !filter_cons. rewrite IH, filter_cons.
  repeat case_decide; subst; try done.
  destruct (kleb_total (key y) (key y)); congruence.
Qed.

Lemma stable_sort_filter k l :
  filter (λ y, key y = k) (stable_sort l) = filter (λ y, key y = k) l.
Proof.
  induction l as [|x l IH]; simpl; [done|].
  rewrite stable_insert_filter by apply stable_sort_sorted.
  rewrite !filter_cons. by rewrite IH.
Qed.

Lemma sorted_filter_ext l1 l2 :
  StronglySorted key_le l1 → StronglySorted key_le l2 →
  (∀ k, filter (λ y, key y = k) l1 = filter (λ y, key y = k) l2) → l1 = l2.
Proof.
  intros H1. revert l2. induction H1 as [|x l1 H1 IH Hx]; intros l2 H2 Hf.
  - destruct l2 as [|y l2]; [done|]. specialize (Hf (key y)).
    rewrite filter_cons_True in Hf by done. done.
  - destruct H2 as [|y l2 H2 Hy].
    { specialize (Hf (key x)). rewrite filter_cons_True in Hf by done. done. }
    assert (x ∈ y :: l2) as Hxin.
    { apply (list_elem_of_filter (λ z, key z = key x)). rewrite <-Hf.
      apply list_elem_of_filter; split; [done|left]. }
    assert (y ∈ x :: l1) as Hyin.
    { apply (list_elem_of_filter (λ z, key z = key y)). rewrite Hf.
      apply list_elem_of_filter; split; [done|left]. }
    assert (key x = key y) as Hk.
    { apply kleb_antisym.
      - apply elem_of_cons in Hyin as [->|Hyin].
        + destruct (kleb_total (key x) (key x)); done.
        + rewrite Forall_forall in Hx. by apply Hx.
      - apply elem_of_cons in Hxin as [->|Hxin].
        + destruct (kleb_total (key y) (key y)); done.
        + rewrite Forall_forall in Hy. by apply Hy. }
    pose proof (Hf (key x)) as Hfx.
    rewrite !filter_cons_True in Hfx by done. injection Hfx as -> Htail.
    f_equal. apply IH; [done|]. intros k. specialize (Hf k).
    rewrite !filter_cons in Hf. case_decide; [by injection Hf|done].
Qed.

Lemma stable_sort_ext l1 l2 :
  (∀ k, filter (λ y, key y = k) l1 = filter (λ y, key y = k) l2) →
  stable_sort l1 = stable_sort l2.
Proof.
  intros Hf. apply sorted_filter_ext; try apply stable_sort_sorted.
  intros k. by rewrite !stable_sort_filter.
Qed.

Lemma stable_sort_id l : StronglySorted key_le l → stable_sort l = l.
Proof.
  intros Hl. apply sorted_filter_ext; [apply stable_sort_sorted|done|].
  intros k. apply stable_sort_filter.
Qed.
End stable_sort.

(** [sort.Strings]: the strings in byte order. *)
Definition sort_strings (l : list string) : list string :=
  stable_sort id string_leb l.

Lemma sort_strings_perm l : sort_strings l ≡ₚ l.
Proof. apply stable_sort_perm. Qed.

(** ** Lexicographic order on pairs *)

Section lex.
Context {A B : Type} `{!EqDecision A} (leA : A → A → bool) (leB : B → B → bool).

Definition lex_leb (x y : A * B) : bool :=
  if decide (x.1 = y.1) then leB x.2 y.2 else leA x.1 y.1.

Lemma lex_leb_total :
  (∀ a b, leA a b = true ∨ leA b a = true) → (∀ a b, leB a b = true ∨ leB b a = true) →
  ∀ x y, lex_leb x y = true ∨ lex_leb y x = true.
Proof.
  intros HA HB [a b] [a' b']. unfold lex_leb. simpl. repeat case_decide; simplify_eq/=; eauto.
Qed.

Lemma lex_leb_antisym :
  (∀ a b, leA a b = true → leA b a = true → a = b) →
  (∀ a b, leB a b = true → leB b a = true → a = b) →
  ∀ x y, lex_leb x y = true → lex_leb y x = true → x = y.
Proof.
  intros HA HB [a b] [a' b']. unfold lex_leb. simpl. intros H1 H2.
  destruct (decide (a = a')) as [<-|Hne].
  - rewrite decide_True in H2 by done. f_equal; auto.
  - rewrite decide_False in H2 by done. exfalso; eauto.
Qed.

Lemma lex_leb_trans :
  (∀ a b c, leA a b = true → leA b c = true → leA a c = true) →
  (∀ a b, leA a b = true → leA b a = true → a = b) →
  (∀ a b c, leB a b = true → leB b c = true → leB a c = true) →
  ∀ x y z, lex_leb x y = true → lex_leb y z = true → lex_leb x z = true.
Proof.
  intros HA HAa HB [a b] [a' b'] [a'' b'']. unfold lex_leb. simpl. intros H1 H2.
  repeat case_decide; simplify_eq/=; eauto.
Qed.
End lex.

(** ** Generic list lemmas *)

Lemma filter_none {A} (P : A → Prop) `{!∀ x, Decision (P x)} (l : list A) :
  (∀ x, x ∈ l → ¬ P x) → filter P l = [].
Proof.
  induction l as [|x l IH]; intros Hl; [done|]. rewrite filter_cons_False.
  - apply IH. intros y Hy. apply Hl. by right.
  - apply Hl. left.
Qed.

Lemma filter_bind {A B} (P : B → Prop) `{!∀ x, Decision (P x)} (f : A → list B) (l : list A) :
  filter P (l ≫= f) = l ≫= (λ x, filter P (f x)).
Proof. induction l as [|x l IH]; [done|]. by rewrite !bind_cons, filter_app, IH. Qed.

(** Concatenating lists indexed by distinct keys, when only the list of key [k]
    contributes. *)
Lemma bind_single {K A} `{!EqDecision K} (f : K → list A) (k : K) (ks : list K) :
  NoDup ks → (∀ k', k' ≠ k → f k' = []) →
  ks ≫= f = if decide (k ∈ ks) then f k else [].
Proof.
  intros Hnd Hf. induction Hnd as [|k' ks Hk' Hnd IH].
  { rewrite decide_False; [done|]. by intros ?%not_elem_of_nil. }
  rewrite bind_cons, IH. destruct (decide (k' = k)) as [->|Hne].
  - rewrite decide_False by done. rewrite decide_True by left. apply app_nil_r.
  - rewrite (Hf k') by done. rewrite app_nil_l. repeat case_decide; try done; set_solver.
Qed.

Lemma exists_elem_cons {A} (P : A → Prop) x l :
  (∃ y, y ∈ x :: l ∧ P y) ↔ P x ∨ ∃ y, y ∈ l ∧ P y.
Proof.
  split.
  - intros (y & [->|Hy]%elem_of_cons & HP); eauto.
  - intros [HP|(y & Hy & HP)]; [exists x|exists y]; split; [left|done|by right|done].
Qed.
