(* ===== verification/GoStrings.v ===== *)
(** * Go strings: bytes, UTF-8, and the parts of [strings], [unicode/utf8],
    [strconv] and [path/filepath] (Unix) that the sources use.

    A Go string is a sequence of bytes, here a [string] (a list of 8-bit
    [ascii]); a rune is a [Z].  The Unicode tables behind [unicode.ToLower] and
    [strconv.IsPrint] are data of the Go distribution: they are the class
    [UnicodeTables], whose laws state what the documentation fixes for ASCII. *)

From stdpp Require Import base gmap strings list pretty.
From Stdlib Require Import ZArith Lia Ascii.
From S2P Require Import Prelude.
Set Default Goal Selector "!".

(** ** Bytes *)

Definition byte_val (a : ascii) : Z := Z.of_N (N_of_ascii a).
Definition byte_of (z : Z) : ascii := ascii_of_N (Z.to_N z).

Lemma byte_val_bound a : (0 ≤ byte_val a < 256)%Z.
Proof. unfold byte_val. pose proof (N_ascii_bounded a). lia. Qed.

Lemma byte_of_val a : byte_of (byte_val a) = a.
Proof. unfold byte_of, byte_val. rewrite N2Z.id. apply ascii_N_embedding. Qed.

Lemma byte_val_of z : (0 ≤ z < 256)%Z → byte_val (byte_of z) = z.
Proof. intros. unfold byte_val, byte_of. rewrite N_ascii_embedding by lia. lia. Qed.

Lemma byte_val_inj a b : byte_val a = byte_val b → a = b.
Proof. intros H. by rewrite <-(byte_of_val a), H, byte_of_val. Qed.

(** The bytes of a string, and back. *)
Definition bytes (s : string) : list ascii := String.list_ascii_of_string s.
Definition of_bytes (l : list ascii) : string := String.string_of_list_ascii l.

Lemma of_bytes_bytes s : of_bytes (bytes s) = s.
Proof. apply String.string_of_list_ascii_of_string. Qed.

Lemma bytes_of_bytes l : bytes (of_bytes l) = l.
Proof. apply String.list_ascii_of_string_of_list_ascii. Qed.

Lemma string_app_cons a (s t : string) : String a s +:+ t = String a (s +:+ t).
Proof. reflexivity. Qed.

Lemma bytes_app s t : bytes (s +:+ t) = bytes s ++ bytes t.
Proof. induction s as [|a s IH]; [done|]. rewrite string_app_cons. cbn. by f_equal. Qed.

Lemma string_app_cons_bytes a l (t : string) :
  of_bytes (a :: l) +:+ t = String a (of_bytes l +:+ t).
Proof. reflexivity. Qed.

Lemma of_bytes_app l k : of_bytes (l ++ k) = of_bytes l +:+ of_bytes k.
Proof. induction l as [|a l IH]; [done|].
  rewrite string_app_cons_bytes, <-IH. reflexivity.
Qed.

Lemma bytes_inj s t : bytes s = bytes t → s = t.
Proof. intros H. by rewrite <-(of_bytes_bytes s), H, of_bytes_bytes. Qed.

Lemma string_app_assoc (s t u : string) : s +:+ (t +:+ u) = (s +:+ t) +:+ u.
Proof. apply bytes_inj. by rewrite !bytes_app, (assoc_L (++)). Qed.

Lemma string_app_nil_r (s : string) : s +:+ "" = s.
Proof. apply bytes_inj. rewrite bytes_app. apply app_nil_r. Qed.

Lemma length_bytes s : length (bytes s) = String.length s.
Proof. induction s; [done|]. unfold bytes in *; simpl. by f_equal. Qed.

(** ** [strings]: byte-level functions *)

(** [strings.HasPrefix], [strings.HasSuffix]. *)
Definition has_prefix (s p : string) : bool := String.prefix p s.
Definition has_suffix (s p : string) : bool :=
  (String.length p <=? String.length s)%nat &&
  String.eqb (of_bytes (drop (String.length s - String.length p) (bytes s))) p.

(** [strings.Contains]. *)
Fixpoint contains (s sub : string) : bool :=
  has_prefix s sub || match s with String _ s' => contains s' sub | EmptyString => false end.

(** [strings.IndexByte(s, b) >= 0]; for the runes below 0x80 the sources pass
    ([ContainsRune(s, 0)], [Contains(s, "/")]) rune and byte search agree. *)
Definition contains_byte (s : string) (b : ascii) : bool :=
  existsb (Ascii.eqb b) (bytes s).

(** [strings.ReplaceAll] for a one-byte pattern and a one-byte replacement. *)
Definition replace_byte (old new : ascii) (s : string) : string :=
  of_bytes ((λ a, if Ascii.eqb a old then new else a) <$> bytes s).

Fixpoint drop_while {A} (p : A → bool) (l : list A) : list A :=
  match l with
  | [] => []
  | x :: l' => if p x then drop_while p l' else l
  end.

Definition drop_while_end {A} (p : A → bool) (l : list A) : list A :=
  rev (drop_while p (rev l)).

(** [strings.TrimLeft], [strings.TrimRight], [strings.Trim] for ASCII cutsets. *)
Definition trim_left (s cutset : string) : string :=
  of_bytes (drop_while (contains_byte cutset) (bytes s)).
Definition trim_right (s cutset : string) : string :=
  of_bytes (drop_while_end (contains_byte cutset) (bytes s)).
Definition trim (s cutset : string) : string := trim_right (trim_left s cutset) cutset.

(** [strings.TrimSuffix]. *)
Definition trim_suffix (s suffix : string) : string :=
  if has_suffix s suffix
  then of_bytes (take (String.length s - String.length suffix) (bytes s)) else s.

(** [strings.Join]. *)
Fixpoint join (l : list string) (sep : string) : string :=
  match l with
  | [] => ""
  | [s] => s
  | s :: l' => s +:+ sep +:+ join l' sep
  end.

(** [strings.Split] for a one-byte separator: always at least one piece. *)
Fixpoint split_bytes (sep : ascii) (cur : list ascii) (l : list ascii) : list string :=
  match l with
  | [] => [of_bytes (rev cur)]
  | a :: l' =>
      if Ascii.eqb a sep then of_bytes (rev cur) :: split_bytes sep [] l'
      else split_bytes sep (a :: cur) l'
  end.
Definition split (s : string) (sep : ascii) : list string := split_bytes sep [] (bytes s).

(** [s[:n]] for [n <= len(s)]. *)
Definition str_take (n : nat) (s : string) : string := of_bytes (take n (bytes s)).

(** ** UTF-8 *)

Definition RuneError : Z := 0xFFFD.
Definition MaxRune : Z := 0x10FFFF.

(** Size of the encoding a leading byte announces and the admissible range of
    the byte that follows it ([utf8.first] and [acceptRanges]). *)
Definition utf8_first (b : Z) : option (nat * Z * Z) :=
  (if (0xC2 <=? b) && (b <=? 0xDF) then Some (2%nat, 0x80, 0xBF)
   else if b =? 0xE0 then Some (3%nat, 0xA0, 0xBF)
   else if (0xE1 <=? b) && (b <=? 0xEC) then Some (3%nat, 0x80, 0xBF)
   else if b =? 0xED then Some (3%nat, 0x80, 0x9F)
   else if (0xEE <=? b) && (b <=? 0xEF) then Some (3%nat, 0x80, 0xBF)
   else if b =? 0xF0 then Some (4%nat, 0x90, 0xBF)
   else if (0xF1 <=? b) && (b <=? 0xF3) then Some (4%nat, 0x80, 0xBF)
   else if b =? 0xF4 then Some (4%nat, 0x80, 0x8F)
   else None)%Z.

Definition is_cont (b : Z) : bool := ((0x80 <=? b) && (b <=? 0xBF))%Z.

(** [utf8.DecodeRune]: the first rune and its width; invalid input is
    [RuneError] with width 1, the empty string [RuneError] with width 0. *)
Definition decode_rune (l : list ascii) : Z * nat :=
  match l with
  | [] => (RuneError, 0%nat)
  | a0 :: rest =>
      let b0 := byte_val a0 in
      if (b0 <? 0x80)%Z then (b0, 1%nat)
      else match utf8_first b0 with
      | None => (RuneError, 1%nat)
      | Some (size, lo, hi) =>
          match rest with
          | [] => (RuneError, 1%nat)
          | a1 :: rest1 =>
              let b1 := byte_val a1 in
              if ((b1 <? lo) || (hi <? b1))%Z then (RuneError, 1%nat)
              else if (size =? 2)%nat then
                (Z.lor (Z.shiftl (Z.land b0 0x1F) 6) (Z.land b1 0x3F), 2%nat)
              else match rest1 with
              | [] => (RuneError, 1%nat)
              | a2 :: rest2 =>
                  let b2 := byte_val a2 in
                  if negb (is_cont b2) then (RuneError, 1%nat)
                  else if (size =? 3)%nat then
                    (Z.lor (Z.shiftl (Z.land b0 0x0F) 12)
                       (Z.lor (Z.shiftl (Z.land b1 0x3F) 6) (Z.land b2 0x3F)), 3%nat)
                  else match rest2 with
                  | [] => (RuneError, 1%nat)
                  | a3 :: _ =>
                      let b3 := byte_val a3 in
                      if negb (is_cont b3) then (RuneError, 1%nat)
                      else (Z.lor (Z.shiftl (Z.land b0 0x07) 18)
                              (Z.lor (Z.shiftl (Z.land b1 0x3F) 12)
                                 (Z.lor (Z.shiftl (Z.land b2 0x3F) 6) (Z.land b3 0x3F))), 4%nat)
                  end
              end
          end
      end
  end.

(** [utf8.AppendRune]. *)
Definition encode_rune (r : Z) : list ascii :=
  (let three r := [byte_of (Z.lor 0xE0 (Z.shiftr r 12));
                   byte_of (Z.lor 0x80 (Z.land (Z.shiftr r 6) 0x3F));
                   byte_of (Z.lor 0x80 (Z.land r 0x3F))] in
   if r <? 0 then three RuneError
   else if r <=? 0x7F then [byte_of r]
   else if r <=? 0x7FF then
     [byte_of (Z.lor 0xC0 (Z.shiftr r 6)); byte_of (Z.lor 0x80 (Z.land r 0x3F))]
   else if (MaxRune <? r) || ((0xD800 <=? r) && (r <=? 0xDFFF)) then three RuneError
   else if r <=? 0xFFFF then three r
   else [byte_of (Z.lor 0xF0 (Z.shiftr r 18));
         byte_of (Z.lor 0x80 (Z.land (Z.shiftr r 12) 0x3F));
         byte_of (Z.lor 0x80 (Z.land (Z.shiftr r 6) 0x3F));
         byte_of (Z.lor 0x80 (Z.land r 0x3F))])%Z.

(** The runes of a string with the bytes each was decoded from, as [range] over
    a string visits them.  [skip] counts the bytes still owned by the rune last
    decoded. *)
Fixpoint segments_go (skip : nat) (l : list ascii) : list (Z * list ascii) :=
  match l with
  | [] => []
  | _ :: l' =>
      match skip with
      | S k => segments_go k l'
      | O => let '(r, w) := decode_rune l in (r, take w l) :: segments_go (pred w) l'
      end
  end.
Definition segments (s : string) : list (Z * list ascii) := segments_go 0 (bytes s).

(** [[]rune(s)], and the conversion back. *)
Definition runes (s : string) : list Z := (segments s).*1.
Definition of_runes (l : list Z) : string := of_bytes (l ≫= encode_rune).

(** [unicode.IsSpace]: the White_Space property. *)
Definition is_space (r : Z) : bool :=
  ((0x09 <=? r) && (r <=? 0x0D) || (r =? 0x20) || (r =? 0x85) || (r =? 0xA0)
   || (r =? 0x1680) || (0x2000 <=? r) && (r <=? 0x200A) || (r =? 0x2028)
   || (r =? 0x2029) || (r =? 0x202F) || (r =? 0x205F) || (r =? 0x3000))%Z.

(** [strings.TrimSpace]. *)
Definition trim_space (s : string) : string :=
  of_bytes (concat (snd <$> drop_while_end (λ p, is_space p.1)
                              (drop_while (λ p, is_space p.1) (segments s)))).

(** [strings.Fields]. *)
Fixpoint fields_go (cur : list ascii) (l : list (Z * list ascii)) : list string :=
  match l with
  | [] => if decide (cur = []) then [] else [of_bytes cur]
  | (r, bs) :: l' =>
      if is_space r
      then (if decide (cur = []) then [] else [of_bytes cur]) ++ fields_go [] l'
      else fields_go (cur ++ bs) l'
  end.
Definition fields (s : string) : list string := fields_go [] (segments s).

(** ** Unicode tables *)

Class UnicodeTables := {
  unicode_to_lower : Z → Z;
  unicode_is_print : Z → bool;
}.

Definition ascii_lower (r : Z) : Z := if ((65 <=? r) && (r <=? 90))%Z then (r + 32)%Z else r.

Class UnicodeLaws (U : UnicodeTables) : Prop := {
  to_lower_ascii r : (0 ≤ r < 128)%Z → unicode_to_lower r = ascii_lower r;
  is_print_ascii r : (0 ≤ r < 128)%Z → unicode_is_print r = ((32 <=? r) && (r <=? 126))%Z;
}.

(** The tables restricted to ASCII, with the two runes outside ASCII whose lower
    case is an ASCII letter (U+0130 and the Kelvin sign U+212A). *)
Definition basic_unicode : UnicodeTables := {|
  unicode_to_lower r :=
    (if r =? 0x130 then 0x69 else if r =? 0x212A then 0x6B else ascii_lower r)%Z;
  unicode_is_print r := ((32 <=? r) && (r <=? 126))%Z;
|}.

Lemma basic_unicode_laws : UnicodeLaws basic_unicode.
Proof.
  split; intros r Hr; simpl; [|done].
  destruct (Z.eqb_spec r 0x130), (Z.eqb_spec r 0x212A); lia || done.
Qed.

Section unicode.
Context {U : UnicodeTables}.

(** [strings.ToLower]: [strings.Map(unicode.ToLower, s)]. *)
Definition to_lower (s : string) : string := of_runes (unicode_to_lower <$> runes s).

(** Lower-case hexadecimal digits of [z], [n] of them. *)
Definition hex_digit (z : Z) : ascii :=
  byte_of (if (z <? 10)%Z then 48 + z else 87 + z)%Z.
Fixpoint hex (n : nat) (z : Z) : list ascii :=
  match n with
  | O => []
  | S n' => hex n' (z / 16)%Z ++ [hex_digit (z mod 16)%Z]
  end.

(** One rune of [strconv.Quote]; [bs] are the bytes it was decoded from. *)
Definition quote_segment (p : Z * list ascii) : list ascii :=
  (let '(r, bs) := p in
   let esc c := [byte_of 92; byte_of c] in
   if (r =? RuneError) && (length bs =? 1)%nat then
     match bs with
     | b :: _ => esc 120 ++ hex 2 (byte_val b)
     | [] => []
     end
   else if (r =? 34) || (r =? 92) then [byte_of 92; byte_of r]
   else if unicode_is_print r then encode_rune r
   else if r =? 7 then esc 97
   else if r =? 8 then esc 98
   else if r =? 12 then esc 102
   else if r =? 10 then esc 110
   else if r =? 13 then esc 114
   else if r =? 9 then esc 116
   else if r =? 11 then esc 118
   else if (r <? 32) || (r =? 127) then esc 120 ++ hex 2 r
   else if r <? 0x10000 then esc 117 ++ hex 4 r
   else esc 85 ++ hex 8 r)%Z.

(** [%q]. *)
Definition quote (s : string) : string :=
  of_bytes (byte_of 34 :: (segments s ≫= quote_segment) ++ [byte_of 34]).
End unicode.

(** [%d]. *)
Definition itoa (z : Z) : string := pretty z.

(** ** [path/filepath] on Unix *)

Definition slash : ascii := "/"%char.

(** [filepath.IsAbs]. *)
Definition is_abs (p : string) : bool := has_prefix p "/".

(** [filepath.Base]. *)
Definition path_base (p : string) : string :=
  if String.eqb p "" then "." else
  let stripped := trim_right p "/" in
  match last (split stripped slash) with
  | Some b => if String.eqb b "" then "/" else b
  | None => "/"
  end.

(** [filepath.Ext]: from the last dot of the final element. *)
Fixpoint ext_go (acc : list ascii) (l : list ascii) : list ascii :=
  match l with
  | [] => []
  | a :: l' =>
      if Ascii.eqb a slash then []
      else if Ascii.eqb a "."%char then a :: acc
      else ext_go (a :: acc) l'
  end.
Definition path_ext (p : string) : string := of_bytes (ext_go [] (rev (bytes p))).

(** [filepath.Clean]: the stack of elements kept so far, newest first. *)
Definition clean_push (rooted : bool) (stack : list string) (e : string) : list string :=
  if String.eqb e "" || String.eqb e "." then stack
  else if String.eqb e ".." then
    match stack with
    | top :: stack' => if String.eqb top ".." then e :: stack else stack'
    | [] => if rooted then [] else [e]
    end
  else e :: stack.
Definition clean_elems (p : string) : list string :=
  rev (foldl (clean_push (is_abs p)) [] (split p slash)).
Definition path_clean (p : string) : string :=
  let body := join (clean_elems p) "/" in
  if is_abs p then "/" +:+ body
  else if String.eqb body "" then "." else body.

(** [filepath.Join]: leading empty elements are ignored, the result is cleaned. *)
Definition path_join (l : list string) : string :=
  match drop_while (λ e, String.eqb e "") l with
  | [] => ""
  | l' => path_clean (join l' "/")
  end.

(** [filepath.Dir]. *)
Definition path_dir (p : string) : string :=
  path_clean (of_bytes (drop_while_end (λ a, negb (Ascii.eqb a slash)) (bytes p))).

(** ** ASCII strings *)

(** The components [filepath.Rel] walks in a clean path. *)
Definition rel_parts (p : string) : list string :=
  if String.eqb p "." || String.eqb p "" then []
  else if String.eqb p "/" then [""] else split p slash.

(** Drop the common leading components. *)
Fixpoint strip_common (b t : list string) : list string * list string :=
  match b, t with
  | x :: b', y :: t' => if String.eqb x y then strip_common b' t' else (b, t)
  | _, _ => (b, t)
  end.

(** [filepath.Rel]; [None] is its error. *)
Definition path_rel (basepath targpath : string) : option string :=
  let base := path_clean basepath in
  let targ := path_clean targpath in
  if String.eqb targ base then Some "."
  else if negb (Bool.eqb (is_abs base) (is_abs targ)) then None
  else
    let '(b, t) := strip_common (rel_parts base) (rel_parts targ) in
    match b, t with
    | [], _ => Some (join t "/")
    | x :: _, _ :: _ => if String.eqb x ".." then None
                        else Some (join (((λ _, "..") <$> b) ++ t) "/")
    | _, [] => Some (join ((λ _, "..") <$> b) "/")
    end.


Definition is_ascii (a : ascii) : Prop := (byte_val a < 128)%Z.

Lemma encode_rune_ascii r : (0 ≤ r < 128)%Z → encode_rune r = [byte_of r].
Proof. intros Hr. unfold encode_rune. destruct (Z.ltb_spec r 0), (Z.leb_spec r 0x7F); lia || done. Qed.

Lemma segments_ascii s :
  Forall is_ascii (bytes s) → segments s = (λ a, (byte_val a, [a])) <$> bytes s.
Proof.
  unfold segments. intros Hs. induction Hs as [|a l Ha Hl IH]; [done|].
  cbn. unfold is_ascii in Ha. destruct (Z.ltb_spec (byte_val a) 0x80); [|lia].
  cbn. by rewrite IH.
Qed.

Lemma runes_ascii s : Forall is_ascii (bytes s) → runes s = byte_val <$> bytes s.
Proof.
  intros Hs. unfold runes. rewrite segments_ascii by done.
  by rewrite <-list_fmap_compose.
Qed.

Lemma of_runes_ascii l :
  Forall (λ r, 0 ≤ r < 128)%Z l → of_runes l = of_bytes (byte_of <$> l).
Proof.
  intros Hl. unfold of_runes. f_equal. induction Hl as [|r l Hr Hl IH]; [done|].
  rewrite bind_cons, fmap_cons, encode_rune_ascii, IH by done. done.
Qed.

Lemma to_lower_ascii_string {U : UnicodeTables} {UL : UnicodeLaws U} s :
  Forall is_ascii (bytes s) →
  to_lower s = of_bytes ((λ a, byte_of (ascii_lower (byte_val a))) <$> bytes s).
Proof.
  intros Hs. unfold to_lower. rewrite runes_ascii by done.
  rewrite of_runes_ascii.
  - f_equal. rewrite <-!list_fmap_compose. apply list_fmap_ext. intros i a Ha. simpl.
    rewrite to_lower_ascii; [done|]. pose proof (byte_val_bound a).
    rewrite Forall_lookup in Hs. specialize (Hs _ _ Ha). unfold is_ascii in Hs. lia.
  - rewrite <-list_fmap_compose, Forall_fmap. eapply Forall_impl; [exact Hs|].
    intros a Ha. unfold compose, is_ascii in *. pose proof (byte_val_bound a).
    rewrite to_lower_ascii by lia. unfold ascii_lower.
    destruct (Z.leb_spec 65 (byte_val a)), (Z.leb_spec (byte_val a) 90); simpl; lia.
Qed.

Lemma contains_byte_false s b :
  contains_byte s b = false ↔ Forall (λ a, a ≠ b) (bytes s).
Proof.
  unfold contains_byte. rewrite Forall_forall. split.
  - intros H a Ha ->. assert (existsb (Ascii.eqb b) (bytes s) = true); [|congruence].
    apply existsb_exists. exists b. rewrite <-list_elem_of_In. split; [done|]. apply Ascii.eqb_refl.
  - intros H. apply not_true_is_false. intros (a & Ha & Hab)%existsb_exists.
    rewrite <-list_elem_of_In in Ha. apply Ascii.eqb_eq in Hab. subst. by apply (H a).
Qed.

Lemma has_suffix_spec s p : has_suffix s p = true ↔ ∃ q, s = q +:+ p.
Proof.
  unfold has_suffix. rewrite andb_true_iff, Nat.leb_le. split.
  - intros [Hl He%String.eqb_eq]. exists (of_bytes (take (String.length s - String.length p) (bytes s))).
    apply bytes_inj. rewrite bytes_app, bytes_of_bytes. rewrite <-He at 2.
    by rewrite bytes_of_bytes, take_drop.
  - intros [q ->]. rewrite <-!length_bytes, bytes_app, length_app. split; [lia|].
    apply String.eqb_eq, bytes_inj. rewrite bytes_of_bytes.
    by rewrite Nat.add_sub, drop_app_length.
Qed.

Lemma Forall_drop_while {A} (P : A → Prop) p l : Forall P l → Forall P (drop_while p l).
Proof. induction 1 as [|x l Hx Hl IH]; simpl; [constructor|]. case_match; auto. Qed.

Lemma drop_while_head {A} (p : A → bool) l x l' : drop_while p l = x :: l' → p x = false.
Proof. induction l as [|y l IH]; simpl; [done|]. case_match; [done|]. by intros [= <- _]. Qed.
