(* ===== verification/GoErrors.v ===== *)
(** * Go errors

    The error values the server produces, as a tree: [errors.New]/[fmt.Errorf],
    wrapping with [%w], the sentinel errors of [os], [os/exec], [context], [io] and [net],
    [*os.PathError], [errors.Join], the errors of [net], [crypto/tls] and
    [crypto/x509], the typed [*CheckError] and [*registerConflictError] of
    [internal/server] and the typed errors of [internal/client].  [errors_is],
    [errors_as_*] follow the depth-first search of package [errors]. *)

From stdpp Require Import base strings list sets.
From Stdlib Require Import Ascii ZArith.
From S2P Require Import Prelude GoStrings.
Set Default Goal Selector "!".


(** [ErrorKind] of [checker.go]. *)
Inductive ErrorKind :=
| ErrorKindInput
| ErrorKindInfrastructure
| ErrorKindNotFound
| ErrorKindTimeout.

#[export] Instance ErrorKind_eq_dec : EqDecision ErrorKind.
Proof. solve_decision. Defined.

(** Sentinel values compared with [errors.Is]. *)
Inductive sentinel :=
| ErrNotExist
| ErrPermission
| ErrExist
| ErrNotFoundExec
| Canceled
| DeadlineExceeded
| EOF
| ErrUnexpectedEOF
| NetErrClosed
| ErrSchemeMismatch.

#[export] Instance sentinel_eq_dec : EqDecision sentinel.
Proof. solve_decision. Defined.

Definition sentinel_text (s : sentinel) : string :=
  match s with
  | ErrNotExist => "file does not exist"
  | ErrPermission => "permission denied"
  | ErrExist => "file already exists"
  | ErrNotFoundExec => "executable file not found in $PATH"
  | Canceled => "context canceled"
  | DeadlineExceeded => "context deadline exceeded"
  | EOF => "EOF"
  | ErrUnexpectedEOF => "unexpected EOF"
  | NetErrClosed => "use of closed network connection"
  | ErrSchemeMismatch => "http: server gave HTTP response to HTTPS client"
  end.

(** [ErrNet] is an error of the network stack: whether it is a [net.Error] and then
    what its [Timeout()] is, whether it is one of the TLS and certificate errors, and
    its text.  The last five constructors are [usageError], [transportError],
    [httpStatusError], [daemonConflictError] and [infraError] of [internal/client]. *)
Inductive goerror :=
| ErrNew (message : string)
| ErrWrap (before : string) (inner : goerror) (after : string)
| ErrSentinel (s : sentinel)
| ErrPath (op path : string) (inner : goerror)
| CheckError (Kind : ErrorKind) (Message : string) (inner : option goerror)
| ErrConflict (repo : string)
| ErrJoin (es : list goerror)
| ErrNet (timeout : option bool) (tls : bool) (message : string) (inner : option goerror)
| UsageError (inner : goerror)
| TransportError (inner : goerror)
| HttpStatusError (status : Z) (body : string)
| DaemonConflictError (addr : string) (cause : goerror) (schemeMismatch : bool)
| InfraError (kind message remediation : string)
| ShutdownRejectedError (status : Z) (body : string).

(** The texts of [daemonConflictError.Error]. *)
Definition scheme_conflict_text : string :=
  " is already owned by a listener this client cannot speak to on either scheme, "
  +:+ "so no daemon can be started there: stop whatever holds the port "
  +:+ "(most likely a governance daemon from an earlier listen-mode generation), "
  +:+ "run `agent-fitness-functions client onboard` to restart it in the current listen mode, "
  +:+ "or rerun with a distinct --addr (".
Definition trust_conflict_text : string :=
  " is already serving TLS that this client does not trust: "
  +:+ "either this repository is presenting stale repo-local certs left over from before "
  +:+ "the shared governance root (the daemon itself may be healthy) "
  +:+ "or a stale daemon started before that migration still owns the port "
  +:+ "— another repository's local daemon is possible but no longer expected now that repos share one root — "
  +:+ "run `agent-fitness-functions doctor` to tell them apart, then rerun `client onboard` "
  +:+ "to re-register against the shared governance root, stop the conflicting daemon, "
  +:+ "or rerun with a distinct --addr (".

(** [err.Error()]; the conflict error quotes its repository name. *)
Fixpoint error_string {U : UnicodeTables} (e : goerror) : string :=
  match e with
  | ErrNew m => m
  | ErrWrap a e' b => a +:+ error_string e' +:+ b
  | ErrSentinel s => sentinel_text s
  | ErrPath op p e' => op +:+ " " +:+ p +:+ ": " +:+ error_string e'
  | CheckError _ m None => m
  | CheckError _ m (Some e') => m +:+ ": " +:+ error_string e'
  | ErrConflict repo =>
      "repository " +:+ quote repo +:+ " is already registered with a different configuration"
  | ErrJoin es => join (map error_string es) (String "010"%char "")
  | ErrNet _ _ m _ => m
  | UsageError e' | TransportError e' => error_string e'
  | HttpStatusError status "" => "check failed with HTTP " +:+ itoa status
  | HttpStatusError status body => "check failed with HTTP " +:+ itoa status +:+ ": " +:+ body
  | DaemonConflictError addr cause schemeMismatch =>
      addr +:+ (if schemeMismatch then scheme_conflict_text else trust_conflict_text)
      +:+ error_string cause +:+ ")"
  | InfraError _ m _ => m
  | ShutdownRejectedError status "" => "POST /shutdown returned HTTP " +:+ itoa status
  | ShutdownRejectedError status body => "POST /shutdown returned HTTP " +:+ itoa status +:+ ": " +:+ body
  end.

(** [errors.Is(e, s)]. *)
Fixpoint errors_is (e : goerror) (s : sentinel) : bool :=
  match e with
  | ErrSentinel s' => bool_decide (s = s')
  | ErrWrap _ e' _ | ErrPath _ _ e' | CheckError _ _ (Some e') | ErrNet _ _ _ (Some e')
  | UsageError e' | TransportError e' | DaemonConflictError _ e' _ => errors_is e' s
  | ErrJoin es => existsb (λ e', errors_is e' s) es
  | _ => false
  end.

(** The first match of a depth-first search over a list of subtrees. *)
Definition first_some {A B} (f : A → option B) : list A → option B :=
  fix go l := match l with
              | [] => None
              | x :: l' => match f x with Some y => Some y | None => go l' end
              end.

(** [errors.As(e, *CheckError)]: the kind and message of the first one. *)
Fixpoint errors_as_check (e : goerror) : option (ErrorKind * string * option goerror) :=
  match e with
  | CheckError k m e' => Some (k, m, e')
  | ErrWrap _ e' _ | ErrPath _ _ e' | ErrNet _ _ _ (Some e')
  | UsageError e' | TransportError e' | DaemonConflictError _ e' _ => errors_as_check e'
  | ErrJoin es => first_some errors_as_check es
  | _ => None
  end.

(** [errors.As(e, *os.PathError)]. *)
Fixpoint errors_as_path (e : goerror) : bool :=
  match e with
  | ErrPath _ _ _ => true
  | ErrWrap _ e' _ | CheckError _ _ (Some e') | ErrNet _ _ _ (Some e')
  | UsageError e' | TransportError e' | DaemonConflictError _ e' _ => errors_as_path e'
  | ErrJoin es => existsb errors_as_path es
  | _ => false
  end.

(** [errors.As(e, *registerConflictError)]. *)
Fixpoint errors_as_conflict (e : goerror) : option string :=
  match e with
  | ErrConflict repo => Some repo
  | ErrWrap _ e' _ | ErrPath _ _ e' | CheckError _ _ (Some e') | ErrNet _ _ _ (Some e')
  | UsageError e' | TransportError e' | DaemonConflictError _ e' _ => errors_as_conflict e'
  | ErrJoin es => first_some errors_as_conflict es
  | _ => None
  end.

(** [errors.As(e, &target)] for the type of error that [pick] recognizes. *)
Fixpoint errors_as {A} (pick : goerror → option A) (e : goerror) : option A :=
  match pick e with
  | Some a => Some a
  | None =>
      match e with
      | ErrWrap _ e' _ | ErrPath _ _ e' | CheckError _ _ (Some e') | ErrNet _ _ _ (Some e')
      | UsageError e' | TransportError e' | DaemonConflictError _ e' _ => errors_as pick e'
      | ErrJoin es => first_some (errors_as pick) es
      | _ => None
      end
  end.

(** [errors.Join]: nil operands are dropped, and no error is left when all are. *)
Definition errors_join (es : list (option goerror)) : option goerror :=
  match omap id es with
  | [] => None
  | es' => Some (ErrJoin es')
  end.

(** Constructors of [checker.go]. *)
Definition inputError (message : string) (err : option goerror) : goerror :=
  CheckError ErrorKindInput message err.
Definition infrastructureError (message : string) (err : option goerror) : goerror :=
  CheckError ErrorKindInfrastructure message err.
Definition notFoundError (message : string) (err : option goerror) : goerror :=
  CheckError ErrorKindNotFound message err.
Definition timeoutError (message : string) (err : option goerror) : goerror :=
  CheckError ErrorKindTimeout message err.

(** The kind an error carries for its HTTP status, if any. *)
Definition error_kind (e : goerror) : option ErrorKind :=
  match errors_as_check e with Some (k, _, _) => Some k | None => None end.

Lemma errors_join_singleton e : errors_join [Some e; None] = Some (ErrJoin [e]).
Proof. reflexivity. Qed.

Lemma errors_join_is_some es : is_Some (errors_join es) ↔ ∃ e, Some e ∈ es.
Proof.
  unfold errors_join. split.
  - destruct (omap id es) as [|e l] eqn:E; [by intros [? ?]|]. intros _.
    exists e. assert (e ∈ omap id es) as He by (rewrite E; left).
    apply list_elem_of_omap in He as (x & Hx & Heq). unfold id in Heq. by subst x.
  - intros [e He].
    assert (e ∈ omap id es) by (apply list_elem_of_omap; eauto).
    destruct (omap id es); [set_solver|eauto].
Qed.

(** Joining more errors after one that carries a kind keeps that kind. *)
Lemma error_kind_join e es k :
  error_kind e = Some k → error_kind (ErrJoin (e :: es)) = Some k.
Proof. unfold error_kind. simpl. by destruct (errors_as_check e). Qed.
