(* ===== verification/GoFloat.v ===== *)
(** * Go float64

    IEEE 754 binary64 through the executable [SpecFloat] of the standard
    library, and the fixed-point formatting verbs the messages use. *)

From stdpp Require Import base strings list pretty.
From Stdlib Require Import ZArith Lia SpecFloat Ascii.
From S2P Require Import Prelude GoStrings.
Set Default Goal Selector "!".

Abbreviation float64 := spec_float.

Definition f64_prec : Z := 53.
Definition f64_emax : Z := 1024.

#[export] Instance float64_eq_dec : EqDecision float64.
Proof. solve_decision. Defined.

(** [float64(n)]. *)
Definition f64_of_int (z : Z) : float64 := binary_normalize f64_prec f64_emax z 0 false.

Definition f64_div (x y : float64) : float64 := SFdiv f64_prec f64_emax x y.
Definition f64_sub (x y : float64) : float64 := SFsub f64_prec f64_emax x y.

(** Go comparison operators; all are false on NaN. *)
Definition f64_le (x y : float64) : bool := SFleb x y.
Definition f64_lt (x y : float64) : bool := SFltb x y.
Definition f64_ge (x y : float64) : bool := SFleb y x.
Definition f64_eq (x y : float64) : bool := SFeqb x y.

Definition f64_zero : float64 := S754_zero false.
Definition f64_one : float64 := f64_of_int 1.

(** The double nearest to the decimal [n / 10^k]: the literal syntax of the
    governance pattern. *)
Definition f64_of_decimal (n : Z) (k : nat) : float64 :=
  match n with
  | Z0 => S754_zero false
  | Zpos m =>
      let '(mz, ez, lz) :=
        SFdiv_core_binary f64_prec f64_emax (Zpos m) 0 (10 ^ Z.of_nat k) 0 in
      binary_round_aux f64_prec f64_emax false mz ez lz
  | Zneg m =>
      let '(mz, ez, lz) :=
        SFdiv_core_binary f64_prec f64_emax (Zpos m) 0 (10 ^ Z.of_nat k) 0 in
      binary_round_aux f64_prec f64_emax true mz ez lz
  end.

(** [|x| * 10^p] rounded to an integer, ties to even, from the exact binary
    value. *)
Definition scaled_digits (m : positive) (e : Z) (p : nat) : Z :=
  let n := (Zpos m * 10 ^ Z.of_nat p)%Z in
  if (0 <=? e)%Z then (n * 2 ^ e)%Z
  else
    let d := (2 ^ (- e))%Z in
    let q := (n / d)%Z in
    let r := (2 * (n mod d))%Z in
    if (d <? r)%Z || ((r =? d)%Z && Z.odd q) then (q + 1)%Z else q.

(** Decimal digits of a non-negative integer, at least [width] of them. *)
Definition padded_digits (width : nat) (z : Z) : string :=
  let s := itoa z in
  of_bytes (replicate (width - String.length s) "0"%char) +:+ s.

(** [%.<p>f]. *)
Definition format_f (p : nat) (x : float64) : string :=
  match x with
  | S754_nan => "NaN"
  | S754_infinity false => "+Inf"
  | S754_infinity true => "-Inf"
  | S754_zero s | S754_finite s _ _ =>
      let z := match x with S754_finite _ m e => scaled_digits m e p | _ => 0%Z end in
      let digits := padded_digits (S p) z in
      let n := (String.length digits - p)%nat in
      (if s then "-" else "") +:+ str_take n digits +:+
      (match p with O => "" | _ => "." +:+ of_bytes (drop n (bytes digits)) end)
  end.

Example f64_governance_thresholds :
  format_f 3 (f64_of_decimal 722 3) = "0.722" ∧
  format_f 3 (f64_of_decimal 8 1) = "0.800" ∧
  format_f 0 (f64_of_int 9) = "9" ∧
  format_f 0 (f64_of_decimal 25 1) = "2" ∧
  f64_le (f64_of_int 9) (f64_of_int 9) = true ∧
  f64_le (f64_of_int 10) (f64_of_int 9) = false ∧
  f64_div (f64_of_int 8) (f64_of_int 10) = f64_of_decimal 8 1.
Proof. vm_compute. done. Qed.
