(* ===== verification/GoFloatOrder.v ===== *)
(** * Order of float64

    Comparisons of doubles, and of integers as doubles: up to 2^53 the conversion
    keeps the order. *)

From stdpp Require Import base strings list.
From Stdlib Require Import ZArith Lia SpecFloat.
From S2P Require Import Prelude GoStrings GoFloat.
Set Default Goal Selector "!".

(** ** Comparisons *)

Definition f64_nan (x : float64) : bool := match x with S754_nan => true | _ => false end.

Lemma SFcompare_opp x y : SFcompare y x = CompOpp <$> SFcompare x y.
Proof.
  destruct x as [sx|sx| |sx mx ex], y as [sy|sy| |sy my ey]; cbn; try done; try (by destruct sx); try (by destruct sy); try (by destruct sx, sy).
  f_equal. change (Pos.compare_cont Eq ?a ?b) with (Pos.compare a b). rewrite (Z.compare_antisym ex ey), (Pos.compare_antisym mx my).
  destruct sx, sy; try done; destruct (ex ?= ey)%Z, (mx ?= my)%positive; done.
Qed.
Lemma SFcompare_total x y : f64_nan x = false → f64_nan y = false → ∃ c, SFcompare x y = Some c.
Proof. destruct x, y; cbn; try done; eauto. Qed.
(** Without NaN, one of the two comparisons holds. *)
Lemma f64_lt_le x y : f64_nan x = false → f64_nan y = false → f64_lt y x = negb (f64_le x y).
Proof.
  intros Hx Hy. unfold f64_lt, f64_le, SFltb, SFleb. rewrite (SFcompare_opp x y).
  destruct (SFcompare_total x y Hx Hy) as [c ->]. by destruct c.
Qed.

(** ** Integers as doubles *)

Lemma digits2_bounds p : (2 ^ (Zpos (digits2_pos p) - 1) ≤ Zpos p < 2 ^ Zpos (digits2_pos p))%Z.
Proof.
  assert (∀ d : positive, 2 ^ Zpos (Pos.succ d) = 2 * 2 ^ Zpos d ∧ 2 ^ (Zpos (Pos.succ d) - 1) = 2 * 2 ^ (Zpos d - 1))%Z as Hs.
  { intros d. rewrite Pos2Z.inj_succ, Z.pow_succ_r by lia. split; [done|].
    replace (Z.succ (Zpos d) - 1)%Z with (Z.succ (Zpos d - 1)) by lia. by rewrite Z.pow_succ_r by lia. }
  induction p as [p IH|p IH|]; cbn [digits2_pos]; [..|done]; destruct (Hs (digits2_pos p)) as [-> ->]; lia.
Qed.
Lemma digits2_mono p q : (Zpos p ≤ Zpos q)%Z → (Zpos (digits2_pos p) ≤ Zpos (digits2_pos q))%Z.
Proof.
  intros Hle. pose proof (digits2_bounds p). pose proof (digits2_bounds q).
  destruct (Z.le_gt_cases (Zpos (digits2_pos p)) (Zpos (digits2_pos q))) as [|Hgt]; [done|].
  pose proof (Z.pow_le_mono_r 2 (Zpos (digits2_pos q)) (Zpos (digits2_pos p) - 1)). lia.
Qed.

Definition shifted (p k : positive) : positive := Pos.iter xO p k.
Lemma shifted_digits p k : Zpos (digits2_pos (shifted p k)) = (Zpos (digits2_pos p) + Zpos k)%Z.
Proof.
  unfold shifted. revert p. induction k as [|k IH] using Pos.peano_ind; intros p; [cbn [Pos.iter digits2_pos]; lia|].
  rewrite Pos.iter_succ. cbn [digits2_pos]. rewrite Pos2Z.inj_succ, IH. lia.
Qed.
Lemma shifted_mono p q k : (p ≤ q)%positive → (shifted p k ≤ shifted q k)%positive.
Proof. unfold shifted. induction k as [|k IH] using Pos.peano_ind; [cbn; lia|]. rewrite !Pos.iter_succ. lia. Qed.

(** The mantissa of a small integer, scaled to 53 digits. *)
Definition mantissa (p : positive) : positive :=
  match (53 - Zpos (digits2_pos p))%Z with Zpos k => shifted p k | _ => p end.
Lemma mantissa_digits p : (Zpos (digits2_pos p) ≤ 53)%Z → Zpos (digits2_pos (mantissa p)) = 53%Z.
Proof. intros H. unfold mantissa. destruct (53 - _)%Z as [|k|k] eqn:Hk; [lia|rewrite shifted_digits; lia|lia]. Qed.

Lemma f64_of_int_pos p : (Zpos (digits2_pos p) ≤ 53)%Z →
  f64_of_int (Zpos p) = S754_finite false (mantissa p) (Zpos (digits2_pos p) - 53).
Proof.
  intros Hd. unfold f64_of_int, binary_normalize, binary_round.
  assert (shl_align p 0 (fexp f64_prec f64_emax (Zpos (digits2_pos p) + 0)) = (mantissa p, (Zpos (digits2_pos p) - 53)%Z)) as ->.
  { unfold fexp, emin, f64_prec, f64_emax, shl_align, mantissa, shifted.
    rewrite Z.max_l by lia. destruct (Zpos (digits2_pos p) + 0 - 53 - 0)%Z as [|k|k] eqn:Hk; [|lia|].
    - assert (53 - Zpos (digits2_pos p) = 0)%Z as -> by lia. f_equal; lia.
    - assert (53 - Zpos (digits2_pos p) = Zpos k)%Z as -> by lia. f_equal; lia. }
  unfold binary_round_aux, shr_fexp. cbn [shr_record_of_loc]. cbn [Zdigits2]. rewrite mantissa_digits by done.
  assert (fexp f64_prec f64_emax (53 + (Zpos (digits2_pos p) - 53)) - (Zpos (digits2_pos p) - 53) = 0)%Z as Hz.
  { unfold fexp, emin, f64_prec, f64_emax. rewrite Z.max_l; lia. }
  rewrite Hz. cbn [shr shr_m loc_of_shr_record shr_r shr_s round_nearest_even Zdigits2]. rewrite mantissa_digits by done.
  rewrite Hz. cbn [shr shr_m]. destruct (Z.leb_spec (Zpos (digits2_pos p) - 53) (f64_emax - f64_prec)) as [|H]; [done|].
  unfold f64_emax, f64_prec in H. lia.
Qed.

(** A bound on an integer bounds the smaller ones. *)
Lemma f64_le_int a b t : (0 ≤ a ≤ b)%Z → (b < 2 ^ 53)%Z → f64_le (f64_of_int b) t = true → f64_le (f64_of_int a) t = true.
Proof.
  intros Hab Hb. destruct b as [|q|q]; [by assert (a = 0%Z) as -> by lia| |lia].
  assert (Zpos (digits2_pos q) ≤ 53)%Z as Hq.
  { pose proof (digits2_bounds q). destruct (Z.le_gt_cases (Zpos (digits2_pos q)) 53) as [|Hgt]; [done|].
    pose proof (Z.pow_le_mono_r 2 53 (Zpos (digits2_pos q) - 1)). lia. }
  rewrite (f64_of_int_pos q Hq). destruct a as [|p|p]; [|..|lia].
  { unfold f64_le, SFleb. destruct t as [|[]| |[]]; cbn; try done. }
  pose proof (digits2_mono p q ltac:(lia)) as Hpq. rewrite f64_of_int_pos by lia.
  unfold f64_le, SFleb. destruct t as [s|s| |s m e]; cbn [SFcompare]; try done. destruct s; [done|].
  destruct (Z.compare_spec (Zpos (digits2_pos q) - 53) e) as [He|He|He]; [|intros _|done].
  - destruct (Z.compare_spec (Zpos (digits2_pos p) - 53) e) as [He'|He'|He']; [|done|lia].
    assert (mantissa p ≤ mantissa q)%positive as Hm.
    { unfold mantissa. assert (Zpos (digits2_pos p) = Zpos (digits2_pos q)) as -> by lia. 
      destruct (53 - _)%Z; [lia|apply shifted_mono; lia|lia]. }
    change (Pos.compare_cont Eq ?x ?y) with (Pos.compare x y). 
    destruct (Pos.compare_spec (mantissa q) m), (Pos.compare_spec (mantissa p) m); try done; lia.
  - destruct (Z.compare_spec (Zpos (digits2_pos p) - 53) e); [lia|done|lia].
Qed.
