(* ===== verification/GoJson.v ===== *)
(** * encoding/json

    The JSON values and decoding rules behind [json.Unmarshal] as the sources
    use it: a parser for the strict grammar of [encoding/json], struct fields
    matched exactly or else case-insensitively, later duplicates decoded over
    earlier ones, [null] leaving a field untouched, and a type mismatch failing
    the call.  The text of an [encoding/json] error is not modelled: it is the
    class [JsonErrorText]. *)

From stdpp Require Import base gmap strings list.
From Stdlib Require Import ZArith Lia Ascii SpecFloat.
From S2P Require Import Prelude GoStrings GoErrors GoFloat.
Set Default Goal Selector "!".

Inductive json :=
| JNull
| JBool (b : bool)
| JNum (literal : list ascii)
| JStr (s : string)
| JArr (l : list json)
| JObj (fields : list (string * json)).

Class JsonErrorText := json_error_text : string → string.

(** ** Lexical helpers *)

Definition is_json_space (a : ascii) : bool :=
  let b := byte_val a in ((b =? 32) || (b =? 9) || (b =? 10) || (b =? 13))%Z.

Definition skip_space (l : list ascii) : list ascii := drop_while is_json_space l.

Definition is_digit (a : ascii) : bool :=
  let b := byte_val a in ((48 <=? b) && (b <=? 57))%Z.

(** Longest prefix satisfying [p], and the rest. *)
Fixpoint span {A} (p : A → bool) (l : list A) : list A * list A :=
  match l with
  | [] => ([], [])
  | x :: l' => if p x then let '(a, b) := span p l' in (x :: a, b) else ([], l)
  end.

Definition hex_val (a : ascii) : option Z :=
  let b := byte_val a in
  (if (48 <=? b) && (b <=? 57) then Some (b - 48)
   else if (97 <=? b) && (b <=? 102) then Some (b - 87)
   else if (65 <=? b) && (b <=? 70) then Some (b - 55)
   else None)%Z.

Definition hex4 (a b c d : ascii) : option Z :=
  match hex_val a, hex_val b, hex_val c, hex_val d with
  | Some w, Some x, Some y, Some z => Some (((w * 16 + x) * 16 + y) * 16 + z)%Z
  | _, _, _, _ => None
  end.

(** ** Strings: the characters after the opening quote *)

(** The escape [\u] with the surrogate rule of [encoding/json]: a high surrogate
    followed by an escaped low surrogate is one rune, any other surrogate is the
    replacement character.  Returns the rune and whether the second escape was
    consumed. *)
Definition surrogate (r : Z) (next : option Z) : Z * bool :=
  (if (0xD800 <=? r) && (r <=? 0xDBFF) then
     match next with
     | Some r2 =>
         if (0xDC00 <=? r2) && (r2 <=? 0xDFFF)
         then (0x10000 + Z.shiftl (r - 0xD800) 10 + (r2 - 0xDC00), true)
         else (RuneError, false)
     | None => (RuneError, false)
     end
   else if (0xDC00 <=? r) && (r <=? 0xDFFF) then (RuneError, false)
   else (r, false))%Z.

(** One simple escape character. *)
Definition simple_escape (a : ascii) : option Z :=
  let b := byte_val a in
  (if (b =? 34) || (b =? 92) || (b =? 47) then Some b
   else if b =? 98 then Some 8
   else if b =? 102 then Some 12
   else if b =? 110 then Some 10
   else if b =? 114 then Some 13
   else if b =? 116 then Some 9
   else None)%Z.

(** The bytes of the string literal, decoded, and the input after the closing
    quote.  Fuel bounds the number of characters read. *)
Fixpoint parse_string (fuel : nat) (l : list ascii) : option (list ascii * list ascii) :=
  match fuel with
  | O => None
  | S fuel' =>
      match l with
      | [] => None
      | a :: l' =>
          let b := byte_val a in
          if (b =? 34)%Z then Some ([], l')
          else if (b <? 32)%Z then None
          else if (b =? 92)%Z then
            match l' with
            | [] => None
            | c :: l2 =>
                if (byte_val c =? 117)%Z then
                  match l2 with
                  | h1 :: h2 :: h3 :: h4 :: l3 =>
                      match hex4 h1 h2 h3 h4 with
                      | None => None
                      | Some r =>
                          let next := match l3 with
                            | s1 :: s2 :: g1 :: g2 :: g3 :: g4 :: _ =>
                                if ((byte_val s1 =? 92) && (byte_val s2 =? 117))%Z
                                then hex4 g1 g2 g3 g4 else None
                            | _ => None
                            end in
                          let '(rune, consumed) := surrogate r next in
                          match parse_string fuel' (if consumed : bool then drop 6 l3 else l3) with
                          | Some (s, rest) => Some (encode_rune rune ++ s, rest)
                          | None => None
                          end
                      end
                  | _ => None
                  end
                else match simple_escape c with
                | None => None
                | Some r =>
                    match parse_string fuel' l2 with
                    | Some (s, rest) => Some (encode_rune r ++ s, rest)
                    | None => None
                    end
                end
            end
          else
            let '(r, w) := decode_rune l in
            match parse_string fuel' (drop w l) with
            | Some (s, rest) => Some (encode_rune r ++ s, rest)
            | None => None
            end
      end
  end.

(** ** Numbers *)

(** The parts of a literal: a sign, the integer, the fraction and the exponent, each
    as written with the rest of the input. *)
Definition sign_part (l : list ascii) : list ascii * list ascii :=
  match l with
  | a :: l' => if (byte_val a =? 45)%Z then ([a], l') else ([], l)
  | [] => ([], [])
  end.
Definition integer_ok (int : list ascii) : bool :=
  match int with
  | [] => false
  | a :: rest => negb ((byte_val a =? 48)%Z && negb (bool_decide (rest = [])))
  end.
Definition fraction_part (l : list ascii) : option (list ascii * list ascii) :=
  match l with
  | a :: l' =>
      if (byte_val a =? 46)%Z then
        let '(ds, rest) := span is_digit l' in
        if bool_decide (ds = []) then None else Some (a :: ds, rest)
      else Some ([], l)
  | [] => Some ([], [])
  end.
Definition exponent_part (l : list ascii) : option (list ascii * list ascii) :=
  match l with
  | a :: l' =>
      if ((byte_val a =? 101) || (byte_val a =? 69))%Z then
        let '(sg, l2) :=
          match l' with
          | c :: l'' => if ((byte_val c =? 43) || (byte_val c =? 45))%Z then ([c], l'') else ([], l')
          | [] => ([], [])
          end in
        let '(ds, rest) := span is_digit l2 in
        if bool_decide (ds = []) then None else Some (a :: sg ++ ds, rest)
      else Some ([], l)
  | [] => Some ([], [])
  end.
Definition parse_number (l : list ascii) : option (list ascii * list ascii) :=
  let '(sign, l1) := sign_part l in
  let '(int, l2) := span is_digit l1 in
  if negb (integer_ok int) then None
  else match fraction_part l2 with
  | None => None
  | Some (fr, l3) =>
      match exponent_part l3 with
      | None => None
      | Some (ex, rest) => Some (sign ++ int ++ fr ++ ex, rest)
      end
  end.

(** ** Values *)

Definition literal (s : string) (v : json) (l : list ascii) : option (json * list ascii) :=
  if bool_decide (take (String.length s) l = bytes s)
  then Some (v, drop (String.length s) l) else None.

(** [fuel] bounds both nesting and length; the length of the input is enough. *)
Fixpoint parse_value (fuel : nat) (l0 : list ascii) : option (json * list ascii) :=
  match fuel with
  | O => None
  | S f =>
      let l := skip_space l0 in
      match l with
      | [] => None
      | a :: l' =>
          let b := byte_val a in
          if (b =? 34)%Z then
            match parse_string (S (length l')) l' with
            | Some (s, rest) => Some (JStr (of_bytes s), rest)
            | None => None
            end
          else if (b =? 123)%Z then
            match skip_space l' with
            | c :: rest =>
                if (byte_val c =? 125)%Z then Some (JObj [], rest)
                else match parse_members f l' with
                     | Some (ms, rest') => Some (JObj ms, rest')
                     | None => None
                     end
            | [] => None
            end
          else if (b =? 91)%Z then
            match skip_space l' with
            | c :: rest =>
                if (byte_val c =? 93)%Z then Some (JArr [], rest)
                else match parse_elements f l' with
                     | Some (es, rest') => Some (JArr es, rest')
                     | None => None
                     end
            | [] => None
            end
          else if (b =? 116)%Z then literal "true" (JBool true) l
          else if (b =? 102)%Z then literal "false" (JBool false) l
          else if (b =? 110)%Z then literal "null" JNull l
          else match parse_number l with
               | Some (n, rest) => Some (JNum n, rest)
               | None => None
               end
      end
  end
with parse_members (fuel : nat) (l0 : list ascii) : option (list (string * json) * list ascii) :=
  match fuel with
  | O => None
  | S f =>
      match skip_space l0 with
      | a :: l' =>
          if negb (byte_val a =? 34)%Z then None
          else match parse_string (S (length l')) l' with
          | None => None
          | Some (k, l1) =>
              match skip_space l1 with
              | c :: l2 =>
                  if negb (byte_val c =? 58)%Z then None
                  else match parse_value f l2 with
                  | None => None
                  | Some (v, l3) =>
                      match skip_space l3 with
                      | d :: l4 =>
                          if (byte_val d =? 125)%Z then Some ([(of_bytes k, v)], l4)
                          else if (byte_val d =? 44)%Z then
                            match parse_members f l4 with
                            | Some (ms, rest) => Some ((of_bytes k, v) :: ms, rest)
                            | None => None
                            end
                          else None
                      | [] => None
                      end
                  end
              | [] => None
              end
          end
      | [] => None
      end
  end
with parse_elements (fuel : nat) (l0 : list ascii) : option (list json * list ascii) :=
  match fuel with
  | O => None
  | S f =>
      match parse_value f l0 with
      | None => None
      | Some (v, l1) =>
          match skip_space l1 with
          | d :: l2 =>
              if (byte_val d =? 93)%Z then Some ([v], l2)
              else if (byte_val d =? 44)%Z then
                match parse_elements f l2 with
                | Some (vs, rest) => Some (v :: vs, rest)
                | None => None
                end
              else None
          | [] => None
          end
      end
  end.

(** Every call of the mutual recursion consumes a character or descends from a
    value to its first member, so twice the length is ample fuel. *)
Definition json_fuel (content : string) : nat := (2 * String.length content + 2)%nat.

(** A whole document: one value and white space. *)
Definition json_parse (content : string) : option json :=
  match parse_value (json_fuel content) (bytes content) with
  | Some (v, rest) => if bool_decide (skip_space rest = []) then Some v else None
  | None => None
  end.

(** ** Decoding into Go values *)

(** A decoder updates the value already present, as [Unmarshal] does; [None] is
    a type mismatch. *)
Definition decoder (A : Type) : Type := json → A → option A.

Definition dec_string : decoder string := λ j old,
  match j with JStr s => Some s | JNull => Some old | _ => None end.

Definition dec_bool : decoder bool := λ j old,
  match j with JBool b => Some b | JNull => Some old | _ => None end.

(** A slice: [null] sets it to nil; an array replaces the contents. *)
Definition dec_list {A} (zero : A) (d : decoder A) : decoder (option (list A)) := λ j _,
  match j with
  | JArr l => Some <$> mapM (λ j', d j' zero) l
  | JNull => Some None
  | _ => None
  end.

(** A map: [null] sets it to nil; an object is decoded over the existing map,
    each element starting from the zero value. *)
Definition dec_map {A} (zero : A) (d : decoder A) : decoder (option (gmap string A)) := λ j old,
  match j with
  | JObj fs =>
      foldl (λ acc kv,
               match acc, d kv.2 zero with
               | Some (Some m), Some v => Some (Some (<[kv.1 := v]> m))
               | _, _ => None
               end) (Some (Some (default ∅ old))) fs
  | JNull => Some None
  | _ => None
  end.

(** A pointer: [null] sets it to nil; any other value is decoded over the
    pointee, allocated when absent. *)
Definition dec_ptr {A} (zero : A) (d : decoder A) : decoder (option A) := λ j old,
  match j with
  | JNull => Some None
  | _ => Some <$> d j (default zero old)
  end.

(** Simple case folding of a field name: ASCII letters, and the two runes whose
    fold is an ASCII letter. *)
Definition fold_rune (r : Z) : Z :=
  (if r =? 0x17F then 0x73 else if r =? 0x212A then 0x6B else ascii_lower r)%Z.
Definition fold_name (s : string) : list Z := fold_rune <$> runes s.

(** The field an object key selects: the exact name first, else the first field
    whose name folds to the same runes. *)
Definition select_field {B} (fields : list (string * B)) (k : string) : option B :=
  match List.find (λ f, String.eqb f.1 k) fields with
  | Some f => Some f.2
  | None =>
      match List.find (λ f, bool_decide (fold_name f.1 = fold_name k)) fields with
      | Some f => Some f.2
      | None => None
      end
  end.

(** A struct: members in document order, unknown keys ignored. *)
Definition dec_struct {A} (fields : list (string * (json → A → option A))) : decoder A := λ j old,
  match j with
  | JObj fs =>
      foldl (λ acc kv,
               match acc with
               | None => None
               | Some a => match select_field fields kv.1 with
                           | Some d => d kv.2 a
                           | None => Some a
                           end
               end) (Some old) fs
  | JNull => Some old
  | _ => None
  end.

(** [json.Unmarshal(content, &v)] with [v] initially [zero]. *)
Definition unmarshal {J : JsonErrorText} {A} (d : decoder A) (zero : A) (content : string) :
  result goerror A :=
  match json_parse content with
  | Some j => match d j zero with
              | Some a => Ok a
              | None => Err (ErrNew (json_error_text content))
              end
  | None => Err (ErrNew (json_error_text content))
  end.

(** ** float64 fields *)

Definition digits_val (ds : list ascii) : Z :=
  foldl (λ acc a, acc * 10 + (byte_val a - 48))%Z 0%Z ds.

(** [strconv.ParseFloat] on a JSON number literal; [None] on overflow.  A
    non-zero literal whose decimal exponent is beyond 400 overflows, one below
    [-400 - digits] is closer to zero than half the smallest double. *)
Definition float_of_literal (l : list ascii) : option float64 :=
  let '(neg, l1) :=
    match l with
    | a :: l' => if (byte_val a =? 45)%Z then (true, l') else (false, l)
    | [] => (false, [])
    end in
  let '(int, l2) := span is_digit l1 in
  let '(frac, l3) :=
    match l2 with
    | a :: l' => if (byte_val a =? 46)%Z then span is_digit l' else ([], l2)
    | [] => ([], [])
    end in
  let exp :=
    match l3 with
    | _ :: c :: ds => if (byte_val c =? 45)%Z then (- digits_val ds)%Z
                      else if (byte_val c =? 43)%Z then digits_val ds
                      else digits_val (c :: ds)
    | _ => 0%Z
    end in
  let n := digits_val (int ++ frac) in
  let e := (exp - Z.of_nat (length frac))%Z in
  if (n =? 0)%Z then Some (S754_zero neg)
  else if (400 <? e)%Z then None
  else if (e <? - 400 - Z.of_nat (length (int ++ frac)))%Z then Some (S754_zero neg)
  else
    let x := if (0 <=? e)%Z then f64_of_int (n * 10 ^ e)
             else f64_of_decimal n (Z.to_nat (- e)) in
    match x with
    | S754_infinity _ => None
    | _ => Some (if neg then SFopp x else x)
    end.

Definition dec_float : decoder float64 := λ j old,
  match j with JNum l => float_of_literal l | JNull => Some old | _ => None end.

(** ** int fields *)

Definition empty_list {A} (l : list A) : bool := match l with [] => true | _ => false end.

(** A JSON number into an int: a decimal integer of 64 bits. *)
Definition dec_int : decoder Z := λ j old,
  match j with
  | JNull => Some old
  | JNum l =>
      let '(neg, ds) := match l with
                        | a :: l' => if (byte_val a =? 45)%Z then (true, l') else (false, l)
                        | [] => (false, [])
                        end in
      if forallb is_digit ds && negb (empty_list ds) then
        let z := (if neg : bool then - digits_val ds else digits_val ds)%Z in
        if ((- 2 ^ 63 <=? z) && (z <? 2 ^ 63))%Z then Some z else None
      else None
  | _ => None
  end.

(** [DisallowUnknownFields]: every member selects a field. *)
Definition known_fields (names : list string) (j : json) : bool :=
  match j with
  | JObj fs => forallb (λ kv, bool_decide (is_Some (select_field ((λ n, (n, tt)) <$> names) kv.1))) fs
  | _ => true
  end.

Lemma digits_val_app l k : (digits_val (l ++ k) = digits_val l * 10 ^ Z.of_nat (length k) + digits_val k)%Z.
Proof.
  unfold digits_val. rewrite foldl_app. generalize (foldl (λ acc a, acc * 10 + (byte_val a - 48))%Z 0%Z l). intros x.
  assert (∀ y, (foldl (λ acc a, acc * 10 + (byte_val a - 48)) y k
    = y * 10 ^ Z.of_nat (length k) + foldl (λ acc a, acc * 10 + (byte_val a - 48)) 0 k)%Z) as H; [|apply H].
  induction k as [|a k IH]; intros y; cbn [foldl length]; [lia|]. rewrite IH, (IH (0 * 10 + _)%Z), Nat2Z.inj_succ, Z.pow_succ_r; lia.
Qed.
