(* ===== verification/GoTime.v ===== *)
(** * package time

    Instants with their zone, the civil calendar, and the RFC 3339 texts that
    [encoding/json] and [Format(time.RFC3339Nano)] write and [time.Parse] reads,
    with their round trip. *)

From stdpp Require Import base strings list.
From Stdlib Require Import ZArith Lia Ascii.
From S2P Require Import Prelude GoStrings GoJson.
Set Default Goal Selector "!".
Local Open Scope Z_scope.

(** [time.Time]: nanoseconds since the first of January of year 1 UTC, and the
    offset of its zone in seconds. *)
Record Time := mkTime { t_ns : Z; t_offset : Z }.
#[export] Instance Time_eq_dec : EqDecision Time.
Proof. solve_decision. Defined.

Definition zero_time : Time := mkTime 0 0.
Definition IsZero (t : Time) : bool := t_ns t =? 0.
Definition UTC (t : Time) : Time := mkTime (t_ns t) 0.

(** ** The calendar *)

Definition second : Z := 1000000000.
Definition day : Z := 86400 * second.

(** A date: the year, the month from 1 and the day of the month from 1. *)
Record date := mkDate { d_year : Z; d_month : Z; d_day : Z }.

(** Years that start in March: the day of the 400-year era, the year of the era, the
    day of the year.  [epoch] is the number of days from the first of March of year
    0 to the first of January of year 1. *)
Definition epoch : Z := 306.
Definition era_days : Z := 146097.
Definition year_of_era (doe : Z) : Z := (doe - doe / 1460 + doe / 36524 - doe / 146096) / 365.
Definition year_start (yoe : Z) : Z := 365 * yoe + yoe / 4 - yoe / 100.
(** The month from March and the days before it. *)
Definition march_month (doy : Z) : Z := (5 * doy + 2) / 153.
Definition month_start (mp : Z) : Z := (153 * mp + 2) / 5.

(** The month of the year. *)
Definition month_of (mp : Z) : Z := if mp <? 10 then mp + 3 else mp - 9.

(** The date of a day, counted from the first of January of year 1. *)
Definition civil (days : Z) : date :=
  let z := days + epoch in
  let doe := z mod era_days in
  let yoe := year_of_era doe in
  let doy := doe - year_start yoe in
  let mp := march_month doy in
  let m := month_of mp in
  mkDate (yoe + z / era_days * 400 + (if m <=? 2 then 1 else 0)) m (doy - month_start mp + 1).

Definition days_of (d : date) : Z :=
  let y := if d_month d <=? 2 then d_year d - 1 else d_year d in
  let mp := (d_month d + 9) mod 12 in
  y / 400 * era_days + year_start (y mod 400) + month_start mp + d_day d - 1 - epoch.

Definition is_leap (year : Z) : bool :=
  (year mod 4 =? 0) && (negb (year mod 100 =? 0) || (year mod 400 =? 0)).
Definition days_in (month year : Z) : Z :=
  if (month =? 2) && is_leap year then 29
  else if month =? 2 then 28
  else if (month =? 4) || (month =? 6) || (month =? 9) || (month =? 11) then 30 else 31.

Definition valid_date (d : date) : bool :=
  (1 <=? d_month d) && (d_month d <=? 12) && (1 <=? d_day d) && (d_day d <=? days_in (d_month d) (d_year d)).

(** ** RFC 3339 *)

Definition digit (z : Z) : ascii := byte_of (48 + z).
Fixpoint pad (width : nat) (z : Z) : list ascii :=
  match width with
  | O => []
  | S width' => pad width' (z / 10) ++ [digit (z mod 10)]
  end.

(** The fraction of a second without its trailing zeros. *)
Definition fraction (ns : Z) : list ascii :=
  if ns =? 0 then [] else "."%char :: drop_while_end (Ascii.eqb "0"%char) (pad 9 ns).

(** The local time: the day, and the nanoseconds of the day. *)
Definition local (t : Time) : Z := t_ns t + t_offset t * second.

Definition zone_text (offset : Z) : list ascii :=
  if offset =? 0 then ["Z"%char]
  else let zone := Z.quot offset 60 in
       (if zone <? 0 then "-"%char else "+"%char)
         :: pad 2 (Z.abs zone / 60) ++ [":"%char] ++ pad 2 (Z.abs zone mod 60).

(** [t.Format(time.RFC3339Nano)] for a year of four digits. *)
Definition format_time (t : Time) : string :=
  let d := civil (local t / day) in
  let s := local t mod day in
  of_bytes (pad 4 (d_year d) ++ "-"%char :: pad 2 (d_month d) ++ "-"%char :: pad 2 (d_day d)
    ++ "T"%char :: pad 2 (s / second / 3600) ++ ":"%char :: pad 2 (s / second / 60 mod 60)
    ++ ":"%char :: pad 2 (s / second mod 60) ++ fraction (s mod second) ++ zone_text (t_offset t)).

(** Whether [MarshalJSON] succeeds: the year is from 0 to 9999 in its zone, and the
    offset is below 24 hours. *)
Definition time_marshals (t : Time) : bool :=
  let year := d_year (civil (local t / day)) in
  (0 <=? year) && (year <=? 9999) && (Z.abs (Z.quot (t_offset t) 60) / 60 <? 24).

(** [n] digits. *)
Definition number (n : nat) (l : list ascii) : option (Z * list ascii) :=
  if (n <=? length l)%nat && forallb is_digit (take n l) then Some (digits_val (take n l), drop n l) else None.
Definition expect (a : ascii) (l : list ascii) : option (list ascii) :=
  match l with
  | b :: l' => if Ascii.eqb a b then Some l' else None
  | [] => None
  end.

(** The hour may have one digit. *)
Definition hour_text (l : list ascii) : option (Z * list ascii) :=
  match number 2 l with
  | Some r => Some r
  | None => number 1 l
  end.

(** A fraction after a period or a comma: nanoseconds, further digits dropped. *)
Definition fraction_text (l : list ascii) : Z * list ascii :=
  match l with
  | a :: l' =>
      if Ascii.eqb a "." || Ascii.eqb a "," then
        let '(ds, rest) := span is_digit l' in
        if bool_decide (ds = []) then (0, l)
        else let ds := take 9 ds in (digits_val ds * 10 ^ (9 - Z.of_nat (length ds)), rest)
      else (0, l)
  | [] => (0, l)
  end.

(** [Z] or a signed offset; an hour of 24 and a minute of 60 are let through. *)
Definition zone_offset (l : list ascii) : option (Z * list ascii) :=
  match l with
  | a :: l' =>
      if Ascii.eqb a "Z" then Some (0, l')
      else if Ascii.eqb a "+" || Ascii.eqb a "-" then
        '(h, l1) ← number 2 l'; l2 ← expect ":" l1; '(m, l3) ← number 2 l2;
        if (h <=? 24) && (m <=? 60)
        then Some ((if Ascii.eqb a "-" then - ((h * 60 + m) * 60) else (h * 60 + m) * 60), l3)
        else None
      else None
  | [] => None
  end.

(** [time.Parse(time.RFC3339, s)], which is also what [UnmarshalJSON] reads. *)
Definition parse_time (s : string) : option Time :=
  '(year, l) ← number 4 (bytes s); l ← expect "-" l;
  '(month, l) ← number 2 l; l ← expect "-" l;
  '(dom, l) ← number 2 l; l ← expect "T" l;
  '(hour, l) ← hour_text l; l ← expect ":" l;
  '(minute, l) ← number 2 l; l ← expect ":" l;
  '(sec, l) ← number 2 l;
  let '(ns, l) := fraction_text l in
  '(offset, l) ← zone_offset l;
  if bool_decide (l = []) && valid_date (mkDate year month dom) && (hour <? 24) && (minute <? 60) && (sec <? 60)
  then Some (mkTime ((days_of (mkDate year month dom) * 86400 + hour * 3600 + minute * 60 + sec - offset) * second + ns) offset)
  else None.

Example format_sample :
  format_time (mkTime ((days_of (mkDate 2026 11 18) * 86400 + 3 * 3600 + 7) * second + 120000000) 0) = "2026-11-18T03:00:07.12Z".
Proof. reflexivity. Qed.
Example parse_sample :
  parse_time "2026-11-18T3:00:07,5-01:30"
  = Some (mkTime ((days_of (mkDate 2026 11 18) * 86400 + 3 * 3600 + 7 + 5400) * second + 500000000) (-5400)).
Proof. reflexivity. Qed.

(** ** The calendar round trip *)

Ltac euclid := Z.to_euclidean_division_equations; lia.

Lemma year_of_era_bounds doe : 0 ≤ doe < era_days →
  0 ≤ year_of_era doe < 400 ∧ 0 ≤ doe - year_start (year_of_era doe) ≤ 365.
Proof. unfold era_days, year_of_era, year_start. euclid. Qed.

(** The last day of a March year is a leap day. *)
Lemma year_of_era_leap doe : 0 ≤ doe < era_days → doe - year_start (year_of_era doe) = 365 →
  is_leap (year_of_era doe + 1) = true.
Proof.
  unfold era_days, is_leap. intros H1 H2. pose proof (year_of_era_bounds doe H1) as [Hy _].
  assert ((year_of_era doe + 1) mod 4 = 0 ∧ ((year_of_era doe + 1) mod 100 ≠ 0 ∨ (year_of_era doe + 1) mod 400 = 0)) as [-> Hc].
  { revert H2. unfold year_of_era, year_start. euclid. }
  destruct Hc as [Hc|Hc]; [by rewrite (proj2 (Z.eqb_neq _ _) Hc)|]. rewrite Hc. by rewrite orb_true_r.
Qed.

Lemma is_leap_period y k : is_leap (y + k * 400) = is_leap y.
Proof.
  unfold is_leap. rewrite Z.mod_add by lia.
  replace (y + k * 400) with (y + (k * 100) * 4) at 1 by lia. rewrite Z.mod_add by lia.
  replace (y + k * 400) with (y + (k * 4) * 100) by lia. by rewrite Z.mod_add by lia.
Qed.

Lemma march_bounds doy : 0 ≤ doy ≤ 365 →
  0 ≤ march_month doy ≤ 11 ∧ month_start (march_month doy) ≤ doy.
Proof. unfold march_month, month_start. euclid. Qed.

(** Day and month, by the month. *)
Lemma march_days doy : 0 ≤ doy ≤ 365 →
  doy - month_start (march_month doy) + 1 ≤
    nth (Z.to_nat (march_month doy)) [31; 30; 31; 30; 31; 31; 30; 31; 30; 31; 31; 29] 0 ∧
  (march_month doy = 11 → doy < 365 → doy - month_start (march_month doy) + 1 ≤ 28).
Proof.
  intros H. pose proof (march_bounds doy H) as [Hm _].
  assert (153 * march_month doy ≤ 5 * doy + 2 < 153 * march_month doy + 153) as Hd.
  { unfold march_month. euclid. }
  assert (march_month doy ∈ seqZ 0 12) as Hin by (apply elem_of_seqZ; lia).
  revert Hd Hin. generalize (march_month doy). intros mp Hd Hin. change (seqZ 0 12) with [0; 1; 2; 3; 4; 5; 6; 7; 8; 9; 10; 11] in Hin.
  unfold month_start. rewrite !elem_of_cons in Hin.
  repeat (destruct Hin as [->|Hin]; [cbv [nth Z.to_nat Pos.to_nat Pos.iter_op Nat.add]; split; [|intros]; euclid|]). by apply not_elem_of_nil in Hin.
Qed.

Lemma month_of_spec mp year : 0 ≤ mp ≤ 11 →
  1 ≤ month_of mp ≤ 12 ∧ (month_of mp + 9) mod 12 = mp ∧
  (mp ≠ 11 → days_in (month_of mp) year = nth (Z.to_nat mp) [31; 30; 31; 30; 31; 31; 30; 31; 30; 31; 31; 29] 0).
Proof.
  intros H. assert (mp ∈ seqZ 0 12) as Hin by (apply elem_of_seqZ; lia). clear H.
  change (seqZ 0 12) with [0; 1; 2; 3; 4; 5; 6; 7; 8; 9; 10; 11] in Hin. rewrite !elem_of_cons in Hin.
  repeat (destruct Hin as [->|Hin]; [split; [by vm_compute|split; [done|by intros]]|]). by apply not_elem_of_nil in Hin.
Qed.

Lemma civil_valid days : valid_date (civil days) = true.
Proof.
  unfold civil, valid_date. set (z := days + epoch).
  assert (0 ≤ z mod era_days < era_days) as Hdoe by (apply Z.mod_pos_bound; done).
  pose proof (year_of_era_bounds _ Hdoe) as [Hy Hdoy]. pose proof (year_of_era_leap _ Hdoe) as Hleap.
  set (doe := z mod era_days) in *. set (yoe := year_of_era doe) in *. set (doy := doe - year_start yoe) in *.
  pose proof (march_bounds doy Hdoy) as [Hmp Hms]. pose proof (march_days doy Hdoy) as [Hd Hf].
  cbn [d_year d_month d_day]. set (mp := march_month doy) in *. clearbody mp.
  assert (1 ≤ doy - month_start mp + 1) as H1 by lia. revert H1 Hd Hf. generalize (doy - month_start mp + 1). intros dom H1 Hd Hf.
  pose proof (month_of_spec mp (yoe + z / era_days * 400 + (if month_of mp <=? 2 then 1 else 0)) Hmp) as (Hm & _ & Hdays).
  rewrite !andb_true_iff, !Z.leb_le. repeat split; [lia|lia|lia|]. destruct (decide (mp = 11)) as [->|Hne]; [|rewrite Hdays; lia].
  change (month_of 11) with 2. change (2 <=? 2) with true. cbn iota. unfold days_in. change (2 =? 2) with true. cbn [andb].
  replace (yoe + z / era_days * 400 + 1) with ((yoe + 1) + z / era_days * 400) by lia. rewrite is_leap_period.
  change (nth _ _ _) with 29 in Hd. destruct (is_leap (yoe + 1)) eqn:E; [done|]. cbn iota.
  destruct (decide (doy = 365)) as [He|He]; [specialize (Hleap He); congruence|]. apply Hf; lia.
Qed.

Lemma civil_days days : days_of (civil days) = days.
Proof.
  unfold civil, days_of. set (z := days + epoch).
  assert (0 ≤ z mod era_days < era_days) as Hdoe by (apply Z.mod_pos_bound; done).
  pose proof (year_of_era_bounds _ Hdoe) as [Hy Hdoy].
  assert (z = era_days * (z / era_days) + z mod era_days) as Hz by (apply Z.div_mod; done).
  set (doe := z mod era_days) in *. set (yoe := year_of_era doe) in *. set (doy := doe - year_start yoe) in *.
  pose proof (march_bounds doy Hdoy) as [Hmp Hms]. cbn [d_year d_month d_day].
  set (mp := march_month doy) in *. set (e := z / era_days) in *.
  assert ((if (month_of mp) <=? 2
           then yoe + e * 400 + (if (month_of mp) <=? 2 then 1 else 0) - 1
           else yoe + e * 400 + (if (month_of mp) <=? 2 then 1 else 0)) = yoe + e * 400) as ->.
  { destruct (_ <=? 2); lia. }
  rewrite (proj1 (proj2 (month_of_spec mp 0 Hmp))).
  rewrite Z.div_add, Z.mod_add by lia. rewrite (Z.div_small yoe), (Z.mod_small yoe) by lia. lia.
Qed.

(** ** The text round trip *)

Lemma digit_spec z : 0 ≤ z < 10 → is_digit (digit z) = true ∧ byte_val (digit z) = 48 + z.
Proof. intros H. unfold is_digit, digit. rewrite byte_val_of by lia. split; [|done]. apply andb_true_iff. lia. Qed.

Lemma pad_length n : ∀ z, length (pad n z) = n.
Proof. induction n as [|n IH]; intros z; [done|]. cbn [pad]. rewrite length_app, IH. cbn. lia. Qed.
Lemma pad_digits n : ∀ z, forallb is_digit (pad n z) = true.
Proof.
  induction n as [|n IH]; intros z; [done|]. cbn [pad]. rewrite forallb_app, IH. cbn [forallb andb].
  rewrite (proj1 (digit_spec _ (Z.mod_pos_bound z 10 ltac:(lia)))). done.
Qed.
Lemma pad_val n : ∀ z, 0 ≤ z < 10 ^ Z.of_nat n → digits_val (pad n z) = z.
Proof.
  induction n as [|n IH]; intros z Hz; [cbn in *; lia|]. cbn [pad]. rewrite digits_val_app.
  rewrite Nat2Z.inj_succ, Z.pow_succ_r in Hz by lia.
  rewrite IH by (split; [apply Z.div_pos; lia|apply Z.div_lt_upper_bound; lia]).
  unfold digits_val. cbn [foldl length]. rewrite (proj2 (digit_spec _ (Z.mod_pos_bound z 10 ltac:(lia)))).
  change (10 ^ Z.of_nat 1) with 10. pose proof (Z.div_mod z 10). lia.
Qed.

Lemma number_digits n l rest : length l = n → forallb is_digit l = true → number n (l ++ rest) = Some (digits_val l, rest).
Proof.
  intros <- Hl. unfold number. rewrite take_app_length, drop_app_length, Hl.
  rewrite (proj2 (Nat.leb_le _ _)) by (rewrite length_app; lia). done.
Qed.
Lemma number_pad n z rest : 0 ≤ z < 10 ^ Z.of_nat n → number n (pad n z ++ rest) = Some (z, rest).
Proof. intros Hz. rewrite number_digits; [by rewrite pad_val|apply pad_length|apply pad_digits]. Qed.

(** What follows the seconds: a zone. *)
Definition zone_start (l : list ascii) : Prop :=
  match l with a :: _ => is_digit a = false ∧ a ≠ "."%char ∧ a ≠ ","%char | [] => True end.

Lemma span_all l rest : forallb is_digit l = true → zone_start rest → span is_digit (l ++ rest) = (l, rest).
Proof.
  intros Hl Hr. induction l as [|a l IH]; cbn [app span].
  - destruct rest as [|a rest]; [done|]. cbn [span]. by destruct Hr as [-> _].
  - cbn [forallb] in Hl. apply andb_true_iff in Hl as [-> Hl]. by rewrite IH.
Qed.

(** Digits without their trailing zeros. *)
Lemma trimmed_digits l :
  ∃ k, l = drop_while_end (Ascii.eqb "0"%char) l ++ replicate k "0"%char.
Proof.
  unfold drop_while_end.
  assert (∀ m, ∃ k, rev m = rev (drop_while (Ascii.eqb "0"%char) m) ++ replicate k "0"%char) as H;
    [|destruct (H (rev l)) as [k Hk]; rewrite rev_involutive in Hk; by exists k].
  clear l. intros l. induction l as [|a l [k IH]]; [by exists 0%nat|]. cbn [drop_while]. destruct (Ascii.eqb_spec "0" a) as [<-|Hne].
  - exists (S k). cbn [rev]. rewrite IH, <-app_assoc. f_equal. rewrite <-replicate_cons_app. done.
  - exists 0%nat. by rewrite app_nil_r.
Qed.
Lemma zeros_val k : digits_val (replicate k "0"%char) = 0.
Proof. unfold digits_val. induction k as [|k IH]; [done|]. exact IH. Qed.

Lemma fraction_read ns rest : 0 ≤ ns < second → zone_start rest → fraction_text (fraction ns ++ rest) = (ns, rest).
Proof.
  intros Hns Hr. unfold fraction. destruct (Z.eqb_spec ns 0) as [->|Hne].
  { cbn [app]. unfold fraction_text. destruct rest as [|a rest]; [done|]. destruct Hr as (_ & H1 & H2).
    apply Ascii.eqb_neq in H1, H2. by rewrite H1, H2. }
  cbn [app fraction_text]. change (Ascii.eqb "." ".") with true. cbn [orb].
  pose proof (pad_digits 9 ns) as Hd. pose proof (pad_length 9 ns) as Hl. pose proof (pad_val 9 ns Hns) as Hv.
  destruct (trimmed_digits (pad 9 ns)) as [k Hk]. set (ds := drop_while_end _ _) in *. rewrite Hk in Hd, Hl, Hv.
  rewrite length_app, length_replicate in Hl. rewrite digits_val_app, zeros_val, length_replicate in Hv.
  rewrite forallb_app in Hd. apply andb_true_iff in Hd as [Hd _]. rewrite span_all by done.
  rewrite bool_decide_eq_false_2 by (intros ->; cbn in Hv; lia). rewrite take_ge by lia.
  f_equal. replace (9 - Z.of_nat (length ds)) with (Z.of_nat k) by lia. lia.
Qed.

Lemma zone_start_text offset : zone_start (zone_text offset).
Proof. unfold zone_text. destruct (_ =? 0); [done|]. destruct (_ <? 0); done. Qed.

Lemma zone_read offset : Z.abs (Z.quot offset 60) / 60 < 24 → (60 | offset) → zone_offset (zone_text offset) = Some (offset, []).
Proof.
  intros Hb [q ->]. unfold zone_text. destruct (Z.eqb_spec (q * 60) 0) as [->|Hne]; [done|].
  rewrite Z.quot_mul in * by lia. unfold zone_offset.
  assert (number 2 (pad 2 (Z.abs q / 60) ++ [":"%char] ++ pad 2 (Z.abs q mod 60))
    = Some (Z.abs q / 60, [":"%char] ++ pad 2 (Z.abs q mod 60))) as Hh.
  { apply number_pad. split; [apply Z.div_pos; lia|]. change (10 ^ Z.of_nat 2) with 100. lia. }
  assert (number 2 (pad 2 (Z.abs q mod 60)) = Some (Z.abs q mod 60, [])) as Hm.
  { rewrite <-(app_nil_r (pad 2 _)). apply number_pad. pose proof (Z.mod_pos_bound (Z.abs q) 60). change (10 ^ Z.of_nat 2) with 100. lia. }
  assert ((Z.abs q / 60 <=? 24) = true ∧ (Z.abs q mod 60 <=? 60) = true) as [H1 H2].
  { pose proof (Z.mod_pos_bound (Z.abs q) 60). rewrite !Z.leb_le. lia. }
  pose proof (Z.div_mod (Z.abs q) 60).
  destruct (Z.ltb_spec q 0); cbn [Ascii.eqb Bool.eqb orb]; rewrite Hh; cbn [mbind option_bind app expect Ascii.eqb Bool.eqb];
    rewrite Hm; cbn [mbind option_bind]; rewrite H1, H2; cbn [andb]; do 2 f_equal; lia.
Qed.

Lemma hour_pad z rest : 0 ≤ z < 100 → hour_text (pad 2 z ++ rest) = Some (z, rest).
Proof. intros Hz. unfold hour_text. by rewrite number_pad. Qed.

(** A time of day in hours, minutes, seconds and nanoseconds. *)
Lemma clock_parts s : 0 ≤ s < day →
  0 ≤ s / second / 3600 < 24 ∧ 0 ≤ s / second / 60 mod 60 < 60 ∧ 0 ≤ s / second mod 60 < 60 ∧ 0 ≤ s mod second < second ∧
  (s / second / 3600 * 3600 + s / second / 60 mod 60 * 60 + s / second mod 60) * second + s mod second = s.
Proof.
  unfold day, second. intros H. pose proof (Z.div_mod s 1000000000). pose proof (Z.mod_pos_bound s 1000000000).
  assert (0 ≤ s / 1000000000 < 86400) as Hs by (split; [apply Z.div_pos; lia|apply Z.div_lt_upper_bound; lia]).
  revert Hs H0 H1. generalize (s / 1000000000). intros q Hq H0 H1.
  assert (0 ≤ q / 3600 < 24 ∧ 0 ≤ q / 60 mod 60 < 60 ∧ 0 ≤ q mod 60 < 60 ∧ q / 3600 * 3600 + q / 60 mod 60 * 60 + q mod 60 = q) as (? & ? & ? & ->);
    [euclid|]. repeat split; lia.
Qed.

(** Parsing the text of a time yields the time, when it can be marshalled and its
    zone is in whole minutes. *)
Theorem time_roundtrip t : time_marshals t = true → (60 | t_offset t) → parse_time (format_time t) = Some t.
Proof.
  unfold time_marshals, format_time. intros Hm Hz. rewrite !andb_true_iff, !Z.leb_le, Z.ltb_lt in Hm.
  destruct Hm as [[Hy1 Hy2] Hzone]. pose proof (civil_valid (local t / day)) as Hvalid. pose proof (civil_days (local t / day)) as Hdays.
  pose proof (clock_parts (local t mod day) (Z.mod_pos_bound _ day ltac:(done))) as (Hh & Hmin & Hs & Hns & Hsum).
  destruct (civil (local t / day)) as [y m d]. cbn [d_year d_month d_day] in *.
  assert (0 ≤ m < 100 ∧ 0 ≤ d < 100) as [Hmo Hd].
  { unfold valid_date, days_in in Hvalid. cbn [d_month d_day d_year] in Hvalid. rewrite !andb_true_iff, !Z.leb_le in Hvalid.
    repeat case_match; lia. }
  set (s := local t mod day) in *. set (h := s / second / 3600) in *. set (mi := s / second / 60 mod 60) in *. set (se := s / second mod 60) in *.
  set (ns := s mod second) in *. unfold parse_time. rewrite bytes_of_bytes, number_pad by (change (10 ^ Z.of_nat 4) with 10000; lia).
  cbn [mbind option_bind expect Ascii.eqb Bool.eqb].
  do 2 (rewrite number_pad by (change (10 ^ Z.of_nat 2) with 100; lia); cbn [mbind option_bind expect Ascii.eqb Bool.eqb]).
  rewrite hour_pad by lia. cbn [mbind option_bind expect Ascii.eqb Bool.eqb].
  do 2 (rewrite number_pad by (change (10 ^ Z.of_nat 2) with 100; lia); cbn [mbind option_bind expect Ascii.eqb Bool.eqb]).
  rewrite fraction_read by (done || apply zone_start_text). rewrite zone_read by done. cbn [mbind option_bind].
  rewrite bool_decide_eq_true_2, Hvalid by done. cbn [andb].
  rewrite !(proj2 (Z.ltb_lt _ _)) by lia. cbn [andb]. rewrite Hdays. f_equal. destruct t as [x off]. cbn [t_ns t_offset] in *. f_equal.
  unfold local in *. cbn [t_ns t_offset] in *. pose proof (Z.div_mod (x + off * second) day ltac:(done)) as Hdm. fold s in Hdm.
  change day with (86400 * second) in Hdm at 1. lia.
Qed.
