(* ===== verification/Fitness.v ===== *)
(** * Validation contract and governance pattern

    [internal/fitness/contract.go] (the request, verdict and violation records)
    and [internal/calm/pattern.go] (the governance pattern and its rules). *)

From stdpp Require Import base gmap strings list fin_maps.
From Stdlib Require Import ZArith Lia Ascii.
From S2P Require Import Prelude GoStrings GoErrors GoFloat GoJson.
Set Default Goal Selector "!".

(** ** internal/fitness *)

Inductive Status := StatusPass | StatusBlock | StatusAdvisory.

#[export] Instance Status_eq_dec : EqDecision Status.
Proof. solve_decision. Defined.

Record ValidationRequest := mkRequest {
  req_Repo : string;
  req_File : string;
  req_ProposedContent : string;
  req_Language : string;
  req_DryRun : bool;
}.

Record Violation := mkViolation {
  v_FitnessFunction : string;
  v_CALMNode : string;
  v_File : string;
  v_Function : string;
  v_SourceKind : string;
  v_Interface : string;
  v_Value : float64;
  v_Limit : float64;
  v_Message : string;
}.

#[export] Instance Violation_eq_dec : EqDecision Violation.
Proof. solve_decision. Defined.

Record ValidationResult := mkResult {
  res_Status : Status;
  res_Warming : bool;
  res_Violations : list Violation;
}.

#[export] Instance ValidationResult_eq_dec : EqDecision ValidationResult.
Proof. solve_decision. Defined.

Definition pass_result : ValidationResult := mkResult StatusPass false [].
Definition verdict (s : Status) (vs : list Violation) : ValidationResult := mkResult s false vs.

(** [json.Unmarshal] into a [ValidationRequest]. *)
Definition dec_ValidationRequest : decoder ValidationRequest :=
  dec_struct
    [("repo", λ j r, (λ x, mkRequest x (req_File r) (req_ProposedContent r) (req_Language r) (req_DryRun r)) <$> dec_string j (req_Repo r));
     ("file", λ j r, (λ x, mkRequest (req_Repo r) x (req_ProposedContent r) (req_Language r) (req_DryRun r)) <$> dec_string j (req_File r));
     ("proposed_content", λ j r, (λ x, mkRequest (req_Repo r) (req_File r) x (req_Language r) (req_DryRun r)) <$> dec_string j (req_ProposedContent r));
     ("language", λ j r, (λ x, mkRequest (req_Repo r) (req_File r) (req_ProposedContent r) x (req_DryRun r)) <$> dec_string j (req_Language r));
     ("dry_run", λ j r, (λ x, mkRequest (req_Repo r) (req_File r) (req_ProposedContent r) (req_Language r) x) <$> dec_bool j (req_DryRun r))].

Definition zero_request : ValidationRequest := mkRequest "" "" "" "" false.

(** ** internal/calm: the pattern *)

Record FitnessRule := mkRule {
  rule_Description : string;
  rule_Threshold : float64;
  rule_Operator : string;
  rule_Unit : string;
}.

#[export] Instance FitnessRule_eq_dec : EqDecision FitnessRule.
Proof. solve_decision. Defined.

Record Pattern := mkPattern {
  pat_Schema : string;
  pat_ID : string;
  pat_Title : string;
  pat_Description : string;
  pat_FitnessFunctions : gmap string FitnessRule;
}.

Record fitnessProperty := mkProperty {
  prop_Description : string;
  prop_Maximum : option float64;
  prop_Minimum : option float64;
  prop_ExclusiveMaximum : option float64;
}.

Definition zero_property : fitnessProperty := mkProperty "" None None None.

Definition unitForFitnessFunction (name : string) : string :=
  if String.eqb name "cyclomatic-complexity" then "function"
  else if String.eqb name "interface-width" || String.eqb name "implementation-depth"
  then "module"
  else "file".

(** The body of the loop of [fitnessFunctions]: the rule one property sets, if
    any. *)
Definition property_rule (name : string) (property : fitnessProperty) : option FitnessRule :=
  match prop_Maximum property, prop_Minimum property, prop_ExclusiveMaximum property with
  | Some m, _, _ =>
      Some (mkRule (prop_Description property) m "lte" (unitForFitnessFunction name))
  | None, Some m, _ =>
      Some (mkRule (prop_Description property) m "gte" (unitForFitnessFunction name))
  | None, None, Some m =>
      Some (mkRule (prop_Description property) (f64_sub m f64_one) "lte"
              (unitForFitnessFunction name))
  | None, None, None => None
  end.

Definition fitnessFunctions (properties : gmap string fitnessProperty) : gmap string FitnessRule :=
  map_imap property_rule properties.

(** [patternSchema]: the four header strings and the property map found at
    properties.nodes.items.properties.metadata.properties.fitness.properties. *)
Record patternSchema := mkSchema {
  sch_Schema : string;
  sch_ID : string;
  sch_Title : string;
  sch_Description : string;
  sch_Properties : option (gmap string fitnessProperty);
}.

Definition dec_fitnessProperty : decoder fitnessProperty :=
  dec_struct
    [("description", λ j p, (λ x, mkProperty x (prop_Maximum p) (prop_Minimum p) (prop_ExclusiveMaximum p)) <$> dec_string j (prop_Description p));
     ("maximum", λ j p, (λ x, mkProperty (prop_Description p) x (prop_Minimum p) (prop_ExclusiveMaximum p)) <$> dec_ptr f64_zero dec_float j (prop_Maximum p));
     ("minimum", λ j p, (λ x, mkProperty (prop_Description p) (prop_Maximum p) x (prop_ExclusiveMaximum p)) <$> dec_ptr f64_zero dec_float j (prop_Minimum p));
     ("exclusiveMaximum", λ j p, (λ x, mkProperty (prop_Description p) (prop_Maximum p) (prop_Minimum p) x) <$> dec_ptr f64_zero dec_float j (prop_ExclusiveMaximum p))].

(** A chain of single-field structs, innermost decoder last. *)
Fixpoint dec_path {A} (path : list string) (d : decoder A) : decoder A :=
  match path with
  | [] => d
  | name :: path' => dec_struct [(name, dec_path path' d)]
  end.

Definition dec_patternSchema : decoder patternSchema :=
  dec_struct
    [("$schema", λ j s, (λ x, mkSchema x (sch_ID s) (sch_Title s) (sch_Description s) (sch_Properties s)) <$> dec_string j (sch_Schema s));
     ("$id", λ j s, (λ x, mkSchema (sch_Schema s) x (sch_Title s) (sch_Description s) (sch_Properties s)) <$> dec_string j (sch_ID s));
     ("title", λ j s, (λ x, mkSchema (sch_Schema s) (sch_ID s) x (sch_Description s) (sch_Properties s)) <$> dec_string j (sch_Title s));
     ("description", λ j s, (λ x, mkSchema (sch_Schema s) (sch_ID s) (sch_Title s) x (sch_Properties s)) <$> dec_string j (sch_Description s));
     ("properties", λ j s, (λ x, mkSchema (sch_Schema s) (sch_ID s) (sch_Title s) (sch_Description s) x) <$>
        dec_path ["nodes"; "items"; "properties"; "metadata"; "properties"; "fitness"; "properties"]
          (dec_map zero_property dec_fitnessProperty) j (sch_Properties s))].

Definition zero_schema : patternSchema := mkSchema "" "" "" "" None.

Section pattern.
Context {J : JsonErrorText}.

Definition parsePattern (label content : string) : result goerror Pattern :=
  match unmarshal dec_patternSchema zero_schema content with
  | Err err => Err (ErrWrap ("parsing pattern " +:+ label +:+ ": ") err "")
  | Ok schema =>
      let functions := fitnessFunctions (default ∅ (sch_Properties schema)) in
      if decide (functions = ∅)
      then Err (ErrNew ("pattern " +:+ label +:+ " must define fitness-functions"))
      else Ok (mkPattern (sch_Schema schema) (sch_ID schema) (sch_Title schema)
                 (sch_Description schema) functions)
  end.

(** [LoadPatternFromBytes], and [LoadPattern] over a reader of files. *)
Definition LoadPatternFromBytes (label data : string) : result goerror Pattern :=
  parsePattern label data.

Definition LoadPattern (read_file : string → result goerror string) (path : string) :
  result goerror Pattern :=
  match read_file path with
  | Err err => Err (ErrWrap ("reading pattern " +:+ path +:+ ": ") err "")
  | Ok content => parsePattern path content
  end.
End pattern.

(** ** Properties of the pattern *)

Lemma fitnessFunctions_lookup ps name :
  fitnessFunctions ps !! name = ps !! name ≫= property_rule name.
Proof. unfold fitnessFunctions. apply map_lookup_imap. Qed.

(** A property that sets no bound yields no rule, every other one yields a rule
    whose operator is [lte] or [gte]. *)
Lemma property_rule_operator name p r :
  property_rule name p = Some r →
  rule_Operator r = "lte" ∨ rule_Operator r = "gte".
Proof. unfold property_rule. intros H. case_hyp H; auto. Qed.

Lemma parsePattern_ok {J : JsonErrorText} label content p :
  parsePattern label content = Ok p →
  ∃ schema, unmarshal dec_patternSchema zero_schema content = Ok schema ∧
    pat_FitnessFunctions p = fitnessFunctions (default ∅ (sch_Properties schema)) ∧
    pat_FitnessFunctions p ≠ ∅.
Proof.
  unfold parsePattern. intros H. case_hyp H. eauto.
Qed.
