(* ===== verification/HistoryEvent.v ===== *)
(** * Validation history: events

    [internal/history/event.go]: a completed validation attempt and what makes it
    complete.  Raw JSON payloads are their text. *)

From stdpp Require Import base gmap strings list.
From Stdlib Require Import ZArith Lia Ascii.
From S2P Require Import Prelude GoStrings GoErrors GoFloat GoJson GoTime Fitness.
Set Default Goal Selector "!".

(** ** Events *)

Record Event := mkEvent {
  ev_EventID : string;
  ev_CompletedAt : Time;
  ev_CommonGitDir : string;
  ev_Repository : string;
  ev_Worktree : string;
  ev_Branch : option string;
  ev_HeadOID : option string;
  ev_File : string;
  ev_Source : string;
  ev_Tool : option string;
  ev_Action : option string;
  ev_SessionID : option string;
  ev_Status : string;
  ev_DryRun : bool;
  ev_RequestJSON : string;
  ev_ResultJSON : string;
}.
#[export] Instance Event_eq_dec : EqDecision Event.
Proof. solve_decision. Defined.

Definition genuine_status (s : string) : bool :=
  String.eqb s "pass" || String.eqb s "advisory" || String.eqb s "block".

(** [hex.DecodeString]: pairs of digits of either case. *)
Definition is_hex_digit (a : ascii) : bool :=
  let b := byte_val a in
  (((48 <=? b) && (b <=? 57)) || ((97 <=? b) && (b <=? 102)) || ((65 <=? b) && (b <=? 70)))%Z.
(** The number of bytes a hexadecimal text encodes. *)
Definition hex_bytes (s : string) : option nat :=
  if Nat.even (String.length s) && forallb is_hex_digit (bytes s) then Some (Nat.div2 (String.length s)) else None.

(** [filepath.IsLocal] on Unix. *)
Definition is_local (p : string) : bool :=
  let c := path_clean p in
  negb (is_abs p) && negb (String.eqb p "") && negb (String.eqb c "..") && negb (has_prefix c "../").

(** The error of [MarshalJSON]. *)
Definition time_error (t : Time) : goerror :=
  let year := d_year (civil (local t / day)) in
  ErrWrap "Time.MarshalJSON: "
    (ErrNew (if ((0 <=? year) && (year <=? 9999))%Z then "timezone hour outside of range [0,23]"
             else "year outside of range [0,9999]")) "".

Definition validateIdentity (e : Event) : option goerror :=
  if negb (bool_decide (hex_bytes (ev_EventID e) = Some 16%nat)) then Some (ErrNew "event ID must encode 16 bytes as hex")
  else if IsZero (ev_CompletedAt e) then Some (ErrNew "event completion time is missing")
  else if negb (time_marshals (ev_CompletedAt e)) then
    Some (ErrWrap "invalid event completion time: " (time_error (ev_CompletedAt e)) "")
  else None.

Definition validateContext (e : Event) : option goerror :=
  if negb (is_abs (ev_CommonGitDir e)) || negb (is_abs (ev_Worktree e))
  then Some (ErrNew "event Git directories must be absolute")
  else if String.eqb (ev_Repository e) "" || String.eqb (ev_Source e) ""
  then Some (ErrNew "event repository and source are required")
  else if negb (is_local (ev_File e)) || String.eqb (ev_File e) "."
          || negb (String.eqb (path_clean (ev_File e)) (ev_File e))
  then Some (ErrNew "event file must be normalized and worktree-relative")
  else None.

(** The anonymous struct of [validateRequest]. *)
Record request_view := mkView {
  rv_Repo : string;
  rv_File : string;
  rv_ProposedContent : option string;
  rv_Language : string;
  rv_DryRun : option bool;
}.
Definition dec_request_view : decoder request_view :=
  dec_struct
    [("repo", λ j r, (λ x, mkView x (rv_File r) (rv_ProposedContent r) (rv_Language r) (rv_DryRun r)) <$> dec_string j (rv_Repo r));
     ("file", λ j r, (λ x, mkView (rv_Repo r) x (rv_ProposedContent r) (rv_Language r) (rv_DryRun r)) <$> dec_string j (rv_File r));
     ("proposed_content", λ j r, (λ x, mkView (rv_Repo r) (rv_File r) x (rv_Language r) (rv_DryRun r)) <$> dec_ptr "" dec_string j (rv_ProposedContent r));
     ("language", λ j r, (λ x, mkView (rv_Repo r) (rv_File r) (rv_ProposedContent r) x (rv_DryRun r)) <$> dec_string j (rv_Language r));
     ("dry_run", λ j r, (λ x, mkView (rv_Repo r) (rv_File r) (rv_ProposedContent r) (rv_Language r) x) <$> dec_ptr false dec_bool j (rv_DryRun r))].
Definition zero_view : request_view := mkView "" "" None "" None.

(** The JSON texts the event carries, read with [json.Unmarshal] into a pointer. *)
Definition read_raw {A} {J : JsonErrorText} (zero : A) (d : decoder A) (text : string) : result goerror (option A) :=
  unmarshal (dec_ptr zero d) None text.

Definition validateRequest {J : JsonErrorText} (e : Event) : option goerror :=
  match read_raw zero_view dec_request_view (ev_RequestJSON e) with
  | Err err => Some (ErrWrap "invalid history request JSON: " err "")
  | Ok None => Some (ErrNew "history request is missing required values")
  | Ok (Some r) =>
      match rv_ProposedContent r, rv_DryRun r with
      | Some _, Some dry =>
          if negb (String.eqb (rv_Repo r) (ev_Repository e)) || String.eqb (rv_File r) ""
          then Some (ErrNew "history request has inconsistent or missing context")
          else if negb (Bool.eqb dry (ev_DryRun e)) then Some (ErrNew "history request dry-run does not match event")
          else None
      | _, _ => Some (ErrNew "history request is missing required values")
      end
  end.

(** The wire form of a verdict: [fitness.ValidationResult] with its status as text. *)
Record result_view := mkResultView {
  vr_Status : string;
  vr_Warming : bool;
  vr_Violations : option (list Violation);
}.
Definition zero_violation : Violation := mkViolation "" "" "" "" "" "" f64_zero f64_zero "".
Definition dec_Violation : decoder Violation :=
  dec_struct
    [("fitness_function", λ j v, (λ x, mkViolation x (v_CALMNode v) (v_File v) (v_Function v) (v_SourceKind v) (v_Interface v) (v_Value v) (v_Limit v) (v_Message v)) <$> dec_string j (v_FitnessFunction v));
     ("calm_node", λ j v, (λ x, mkViolation (v_FitnessFunction v) x (v_File v) (v_Function v) (v_SourceKind v) (v_Interface v) (v_Value v) (v_Limit v) (v_Message v)) <$> dec_string j (v_CALMNode v));
     ("file", λ j v, (λ x, mkViolation (v_FitnessFunction v) (v_CALMNode v) x (v_Function v) (v_SourceKind v) (v_Interface v) (v_Value v) (v_Limit v) (v_Message v)) <$> dec_string j (v_File v));
     ("function", λ j v, (λ x, mkViolation (v_FitnessFunction v) (v_CALMNode v) (v_File v) x (v_SourceKind v) (v_Interface v) (v_Value v) (v_Limit v) (v_Message v)) <$> dec_string j (v_Function v));
     ("source_kind", λ j v, (λ x, mkViolation (v_FitnessFunction v) (v_CALMNode v) (v_File v) (v_Function v) x (v_Interface v) (v_Value v) (v_Limit v) (v_Message v)) <$> dec_string j (v_SourceKind v));
     ("interface", λ j v, (λ x, mkViolation (v_FitnessFunction v) (v_CALMNode v) (v_File v) (v_Function v) (v_SourceKind v) x (v_Value v) (v_Limit v) (v_Message v)) <$> dec_string j (v_Interface v));
     ("value", λ j v, (λ x, mkViolation (v_FitnessFunction v) (v_CALMNode v) (v_File v) (v_Function v) (v_SourceKind v) (v_Interface v) x (v_Limit v) (v_Message v)) <$> dec_float j (v_Value v));
     ("limit", λ j v, (λ x, mkViolation (v_FitnessFunction v) (v_CALMNode v) (v_File v) (v_Function v) (v_SourceKind v) (v_Interface v) (v_Value v) x (v_Message v)) <$> dec_float j (v_Limit v));
     ("message", λ j v, (λ x, mkViolation (v_FitnessFunction v) (v_CALMNode v) (v_File v) (v_Function v) (v_SourceKind v) (v_Interface v) (v_Value v) (v_Limit v) x) <$> dec_string j (v_Message v))].
Definition dec_result_view : decoder result_view :=
  dec_struct
    [("status", λ j r, (λ x, mkResultView x (vr_Warming r) (vr_Violations r)) <$> dec_string j (vr_Status r));
     ("warming", λ j r, (λ x, mkResultView (vr_Status r) x (vr_Violations r)) <$> dec_bool j (vr_Warming r));
     ("violations", λ j r, (λ x, mkResultView (vr_Status r) (vr_Warming r) x) <$> dec_list zero_violation dec_Violation j (vr_Violations r))].

Definition validateResult {J : JsonErrorText} (e : Event) : option goerror :=
  match read_raw (mkResultView "" false None) dec_result_view (ev_ResultJSON e) with
  | Err err => Some (ErrWrap "invalid history result JSON: " err "")
  | Ok None => Some (ErrNew "history result is not a completed verdict")
  | Ok (Some r) =>
      if vr_Warming r then Some (ErrNew "history result is not a completed verdict")
      else if negb (genuine_status (vr_Status r)) then Some (ErrNew "history result has no genuine status")
      else if negb (String.eqb (vr_Status r) (ev_Status e))
      then Some (ErrNew "history result status does not match event")
      else None
  end.

Definition Validate {J : JsonErrorText} (e : Event) : option goerror :=
  match validateIdentity e with
  | Some err => Some err
  | None =>
      match validateContext e with
      | Some err => Some err
      | None =>
          match validateRequest e with
          | Some err => Some err
          | None => validateResult e
          end
      end
  end.

(** What a valid event has: the time can be marshalled and both payloads are JSON. *)
Lemma Validate_ok {J : JsonErrorText} e : Validate e = None →
  time_marshals (ev_CompletedAt e) = true ∧ genuine_status (ev_Status e) = true ∧
  is_Some (json_parse (ev_RequestJSON e)) ∧ is_Some (json_parse (ev_ResultJSON e)).
Proof.
  unfold Validate. intros H. destruct (validateIdentity e) eqn:Hi; [done|]. destruct (validateContext e); [done|].
  destruct (validateRequest e) eqn:Hq; [done|]. unfold validateIdentity in Hi. unfold validateRequest in Hq. unfold validateResult in H.
  unfold read_raw, unmarshal in Hq, H. destruct (json_parse (ev_RequestJSON e)); [|done].
  destruct (json_parse (ev_ResultJSON e)); [|done]. destruct (dec_ptr _ dec_result_view _ _) as [[r|]|]; [|done|done].
  destruct (negb (bool_decide _)); [done|]. destruct (IsZero _); [done|]. destruct (time_marshals _); [|done].
  destruct (vr_Warming r); [done|]. destruct (genuine_status (vr_Status r)) eqn:Hg; [|done].
  destruct (String.eqb_spec (vr_Status r) (ev_Status e)) as [Heq|]; [|done]. rewrite Heq in Hg. repeat split; eauto.
Qed.
