(* ===== verification/Metrics.v ===== *)
(** * Analyzer metrics

    [internal/analyzer/analyzer.go]: the normalized metrics every language
    analyzer produces, the derivation of module metrics, and their aggregation
    over the files of one CALM node. *)

From stdpp Require Import base gmap strings list fin_maps.
From Stdlib Require Import ZArith Lia SpecFloat.
From S2P Require Import Prelude GoStrings GoFloat.
Set Default Goal Selector "!".

(** [SourceKind] is an open string type; these are its two constants. *)
Definition SourceKindGoEmbedAssets : string := "go-embed-assets".
Definition SourceKindPythonExportFacade : string := "python-export-facade".

Record FunctionMetric := mkFunction {
  fn_Name : string;
  fn_CyclomaticComplexity : Z;
  fn_IsPublic : bool;
  fn_LOC : Z;
}.

Record FileMetric := mkFile {
  file_TotalLOC : Z;
  file_LogicLOC : Z;
  file_PublicMethods : Z;
  file_LDR : float64;
}.

Record ModuleMetric := mkModule {
  mod_PublicMethods : Z;
  mod_TotalLOC : Z;
  mod_PrivateLOC : Z;
  mod_AverageLOCPerPublicMethod : float64;
}.

Record ImportMetric := mkImport {
  imp_Total : Z;
  imp_Used : Z;
  imp_Unused : list string;
  imp_DDC : float64;
}.

Record InterfaceMetric := mkInterface {
  if_Name : string;
  if_Kind : string;
  if_Line : Z;
  if_PublicMethods : Z;
}.

Record Finding := mkFinding {
  find_Rule : string;
  find_Kind : string;
  find_Line : Z;
  find_Detail : string;
}.

Record AnalysisResult := mkAnalysis {
  ar_CALMNode : string;
  ar_Language : string;
  ar_File : string;
  ar_SourceKind : string;
  ar_Functions : list FunctionMetric;
  ar_ModuleMetric : ModuleMetric;
  ar_FileMetric : FileMetric;
  ar_Imports : ImportMetric;
  ar_Interfaces : list InterfaceMetric;
  ar_RuleCounts : gmap string Z;
  ar_Findings : list Finding;
}.

(** Field updates the code performs on a result. *)
Definition set_ModuleMetric (m : ModuleMetric) (r : AnalysisResult) : AnalysisResult :=
  mkAnalysis (ar_CALMNode r) (ar_Language r) (ar_File r) (ar_SourceKind r) (ar_Functions r)
    m (ar_FileMetric r) (ar_Imports r) (ar_Interfaces r) (ar_RuleCounts r) (ar_Findings r).
Definition set_Interfaces (l : list InterfaceMetric) (r : AnalysisResult) : AnalysisResult :=
  mkAnalysis (ar_CALMNode r) (ar_Language r) (ar_File r) (ar_SourceKind r) (ar_Functions r)
    (ar_ModuleMetric r) (ar_FileMetric r) (ar_Imports r) l (ar_RuleCounts r) (ar_Findings r).
Definition set_RuleCounts (c : gmap string Z) (r : AnalysisResult) : AnalysisResult :=
  mkAnalysis (ar_CALMNode r) (ar_Language r) (ar_File r) (ar_SourceKind r) (ar_Functions r)
    (ar_ModuleMetric r) (ar_FileMetric r) (ar_Imports r) (ar_Interfaces r) c (ar_Findings r).
Definition set_File_CALMNode (file node : string) (r : AnalysisResult) : AnalysisResult :=
  mkAnalysis node (ar_Language r) file (ar_SourceKind r) (ar_Functions r)
    (ar_ModuleMetric r) (ar_FileMetric r) (ar_Imports r) (ar_Interfaces r) (ar_RuleCounts r)
    (ar_Findings r).

Definition zero_module : ModuleMetric := mkModule 0 0 0 f64_zero.

Definition LogicDensityApplicable (result : AnalysisResult) : bool :=
  negb (String.eqb (ar_Language result) "go")
  || negb (String.eqb (ar_SourceKind result) SourceKindGoEmbedAssets).

Definition averageLOCPerPublicMethod (metric : FileMetric) : float64 :=
  if (file_PublicMethods metric =? 0)%Z then f64_one
  else f64_div (f64_of_int (file_LogicLOC metric)) (f64_of_int (file_PublicMethods metric)).

(** The accumulation loop of [BuildModuleMetric]. *)
Definition public_loc (functions : list FunctionMetric) : Z :=
  foldl (λ acc f, if fn_IsPublic f then acc + fn_LOC f else acc)%Z 0%Z functions.

Definition BuildModuleMetric (fileMetric : FileMetric) (functions : list FunctionMetric) :
  ModuleMetric :=
  let privateLOC := (file_TotalLOC fileMetric - public_loc functions)%Z in
  mkModule (file_PublicMethods fileMetric) (file_TotalLOC fileMetric)
    (if privateLOC <? 0 then 0 else privateLOC)%Z
    (averageLOCPerPublicMethod fileMetric).

Definition EnsureModuleMetric (result : AnalysisResult) : AnalysisResult :=
  let m := ar_ModuleMetric result in
  if ((mod_PublicMethods m =? 0) && (mod_TotalLOC m =? 0) && (mod_PrivateLOC m =? 0))%Z
     && f64_eq (mod_AverageLOCPerPublicMethod m) f64_zero
  then set_ModuleMetric (BuildModuleMetric (ar_FileMetric result) (ar_Functions result)) result
  else result.

Definition InterfaceWidth (result : AnalysisResult) : Z :=
  match ar_Interfaces result with
  | [] => mod_PublicMethods (ar_ModuleMetric (EnsureModuleMetric result))
  | interfaces =>
      foldl (λ width metric,
               if width <? if_PublicMethods metric then if_PublicMethods metric else width)%Z
            0%Z interfaces
  end.

(** ** Interface aggregation *)

(** [goInterfaceKey]. *)
Definition interface_key (m : InterfaceMetric) : string * string := (if_Kind m, if_Name m).

Record goInterfaceAggregate := mkInterfaceAggregate {
  agg_metrics : list InterfaceMetric;
  agg_indexes : gmap (string * string) nat;
}.

Definition add_public (n : Z) (m : InterfaceMetric) : InterfaceMetric :=
  mkInterface (if_Name m) (if_Kind m) (if_Line m) (if_PublicMethods m + n).

(** One iteration of [goInterfaceAggregate.add]. *)
Definition interface_add_one (a : goInterfaceAggregate) (metric : InterfaceMetric) :
  goInterfaceAggregate :=
  let key := interface_key metric in
  match agg_indexes a !! key with
  | Some index =>
      mkInterfaceAggregate (alter (add_public (if_PublicMethods metric)) index (agg_metrics a))
        (agg_indexes a)
  | None =>
      mkInterfaceAggregate (agg_metrics a ++ [metric])
        (<[key := length (agg_metrics a)]> (agg_indexes a))
  end.

Definition interface_add (a : goInterfaceAggregate) (metrics : list InterfaceMetric) :
  goInterfaceAggregate := foldl interface_add_one a metrics.

(** ** Module aggregation *)

Record aggregate := mkAggregate {
  agg_fileMetric : FileMetric;
  agg_functions : list FunctionMetric;
  agg_interfaces : goInterfaceAggregate;
}.

Definition zero_aggregate : aggregate :=
  mkAggregate (mkFile 0 0 0 f64_zero) [] (mkInterfaceAggregate [] ∅).

(** One iteration of the first loop of [AggregateModuleMetrics]. *)
Definition aggregate_step (current : aggregate) (result : AnalysisResult) : aggregate :=
  let fm := agg_fileMetric current in
  let rm := ar_FileMetric result in
  mkAggregate
    (mkFile (file_TotalLOC fm + file_TotalLOC rm) (file_LogicLOC fm + file_LogicLOC rm)
       (file_PublicMethods fm + file_PublicMethods rm) (file_LDR fm))
    (agg_functions current ++ ar_Functions result)
    (if String.eqb (ar_Language result) "go" && negb (bool_decide (ar_Interfaces result = []))
     then interface_add (agg_interfaces current) (ar_Interfaces result)
     else agg_interfaces current).

Definition aggregates (results : list AnalysisResult) : gmap string aggregate :=
  foldl (λ m result,
           <[ar_CALMNode result :=
               aggregate_step (default zero_aggregate (m !! ar_CALMNode result)) result]> m)
        ∅ results.

(** The second loop: one result rewritten with its node's aggregate. *)
Definition apply_aggregate (m : gmap string aggregate) (result : AnalysisResult) : AnalysisResult :=
  let current := default zero_aggregate (m !! ar_CALMNode result) in
  let result' :=
    set_ModuleMetric (BuildModuleMetric (agg_fileMetric current) (agg_functions current)) result in
  if String.eqb (ar_Language result) "go"
     && negb (bool_decide (agg_metrics (agg_interfaces current) = []))
  then set_Interfaces (agg_metrics (agg_interfaces current)) result'
  else result'.

Definition AggregateModuleMetrics (results : list AnalysisResult) : list AnalysisResult :=
  apply_aggregate (aggregates results) <$> results.

(** ** Lemmas *)

Lemma public_loc_acc acc fs :
  foldl (λ acc f, if fn_IsPublic f then acc + fn_LOC f else acc)%Z acc fs
  = (acc + public_loc fs)%Z.
Proof.
  unfold public_loc. revert acc. induction fs as [|f fs IH]; intros acc; simpl; [lia|].
  rewrite IH, (IH (if fn_IsPublic f then _ else _)). destruct (fn_IsPublic f); lia.
Qed.

Lemma f64_one_nonzero : f64_eq f64_one f64_zero = false.
Proof. reflexivity. Qed.

Lemma EnsureModuleMetric_other r :
  ar_FileMetric (EnsureModuleMetric r) = ar_FileMetric r ∧
  ar_Functions (EnsureModuleMetric r) = ar_Functions r ∧
  ar_Interfaces (EnsureModuleMetric r) = ar_Interfaces r ∧
  ar_Imports (EnsureModuleMetric r) = ar_Imports r ∧
  ar_File (EnsureModuleMetric r) = ar_File r ∧
  ar_CALMNode (EnsureModuleMetric r) = ar_CALMNode r ∧
  ar_Language (EnsureModuleMetric r) = ar_Language r ∧
  ar_SourceKind (EnsureModuleMetric r) = ar_SourceKind r.
Proof. unfold EnsureModuleMetric. case_match; simpl; done. Qed.

(** A module metric built by [BuildModuleMetric] is never mistaken for an absent
    one: with no public method its average is 1. *)
Lemma EnsureModuleMetric_built fm fs r :
  ar_ModuleMetric r = BuildModuleMetric fm fs → EnsureModuleMetric r = r.
Proof.
  intros Hm. unfold EnsureModuleMetric. rewrite Hm. simpl. unfold averageLOCPerPublicMethod.
  destruct (Z.eqb_spec (file_PublicMethods fm) 0); simpl; [|done].
  rewrite f64_one_nonzero. by rewrite andb_false_r.
Qed.

Lemma EnsureModuleMetric_cases r :
  EnsureModuleMetric r = r ∨
  EnsureModuleMetric r
  = set_ModuleMetric (BuildModuleMetric (ar_FileMetric r) (ar_Functions r)) r.
Proof. unfold EnsureModuleMetric. case_match; auto. Qed.

Lemma EnsureModuleMetric_idemp r :
  EnsureModuleMetric (EnsureModuleMetric r) = EnsureModuleMetric r.
Proof.
  destruct (EnsureModuleMetric_cases r) as [E|E]; [by rewrite !E|].
  apply (EnsureModuleMetric_built (ar_FileMetric r) (ar_Functions r)). by rewrite E.
Qed.

(** *** Interface aggregation *)

Definition interface_sum (k : string * string) (l : list InterfaceMetric) : Z :=
  foldr (λ m acc, if decide (interface_key m = k) then if_PublicMethods m + acc else acc)%Z 0%Z l.

Lemma interface_sum_app k l1 l2 :
  interface_sum k (l1 ++ l2) = (interface_sum k l1 + interface_sum k l2)%Z.
Proof. induction l1 as [|m l1 IH]; simpl; [lia|]. case_decide; lia. Qed.

Lemma interface_sum_alter k n l i m :
  l !! i = Some m →
  interface_sum k (alter (add_public n) i l)
  = (interface_sum k l + if decide (interface_key m = k) then n else 0)%Z.
Proof.
  revert i. induction l as [|x l IH]; intros [|i] Hi; simplify_eq/=.
  - unfold interface_key at 1 2. simpl. fold (interface_key m). repeat case_decide; lia.
  - rewrite (IH _ Hi). repeat case_decide; lia.
Qed.

(** The index map locates each key's entry, and entries have distinct keys. *)
Definition interface_inv (a : goInterfaceAggregate) : Prop :=
  (∀ k i, agg_indexes a !! k = Some i ↔
          ∃ m, agg_metrics a !! i = Some m ∧ interface_key m = k).

Lemma interface_inv_empty : interface_inv (mkInterfaceAggregate [] ∅).
Proof. intros k i. simpl. rewrite lookup_empty. split; [done|]. by intros (? & ? & _). Qed.

Lemma interface_key_add_public n m : interface_key (add_public n m) = interface_key m.
Proof. done. Qed.

Lemma interface_add_one_inv a m : interface_inv a → interface_inv (interface_add_one a m).
Proof.
  intros Hinv k i. unfold interface_add_one.
  destruct (agg_indexes a !! interface_key m) as [j|] eqn:Hj; simpl.
  - rewrite (Hinv k i), list_lookup_alter. case_decide; [subst j|done].
    destruct (agg_metrics a !! i) as [x|]; simpl; [|done].
    split; intros (y & Hy & Hk); simplify_eq/=; eexists; split; done.
  - rewrite lookup_insert. split.
    + case_decide as Hk.
      * intros [= <-]. exists m. rewrite lookup_app_r, Nat.sub_diag by done. done.
      * intros Hi. apply Hinv in Hi as (x & Hx & Hkx). exists x.
        by rewrite lookup_app_l by (eapply lookup_lt_Some; eauto).
    + intros (x & Hx & Hk). apply lookup_app_Some in Hx as [Hx|[Hlen Hx]].
      * assert (agg_indexes a !! k = Some i) by (apply Hinv; eauto).
        case_decide; [|done]. congruence.
      * destruct (i - length (agg_metrics a)) as [|d] eqn:Ed; simplify_eq/=.
        rewrite decide_True by done. f_equal. lia.
Qed.

Lemma interface_add_inv a l : interface_inv a → interface_inv (interface_add a l).
Proof.
  revert a. induction l as [|m l IH]; intros a Ha; simpl; [done|].
  by apply IH, interface_add_one_inv.
Qed.

Lemma interface_add_sum k a l :
  interface_inv a →
  interface_sum k (agg_metrics (interface_add a l))
  = (interface_sum k (agg_metrics a) + interface_sum k l)%Z.
Proof.
  revert a. induction l as [|m l IH]; intros a Ha; simpl; [lia|].
  unfold interface_add in IH. rewrite IH by by apply interface_add_one_inv.
  unfold interface_add_one. destruct (agg_indexes a !! interface_key m) as [i|] eqn:Hi; simpl.
  - apply Ha in Hi as (x & Hx & Hkx). rewrite (interface_sum_alter _ _ _ _ x Hx), Hkx.
    case_decide; lia.
  - rewrite interface_sum_app. simpl. case_decide; lia.
Qed.

Lemma interface_inv_NoDup a : interface_inv a → NoDup (interface_key <$> agg_metrics a).
Proof.
  intros Ha. apply NoDup_alt. intros i j k Hi Hj.
  rewrite list_lookup_fmap in Hi, Hj.
  apply fmap_Some in Hi as (x & Hx & ->), Hj as (y & Hy & Hk).
  assert (agg_indexes a !! interface_key x = Some i) by (apply Ha; eauto).
  assert (agg_indexes a !! interface_key x = Some j) by (apply Ha; eauto). congruence.
Qed.

(** *** Module aggregation *)

Lemma interface_add_length a l :
  length (agg_metrics a) ≤ length (agg_metrics (interface_add a l)).
Proof.
  revert a. induction l as [|m l IH]; intros a; simpl; [done|].
  etrans; [|apply IH]. unfold interface_add_one. case_match; simpl.
  - by rewrite length_alter.
  - rewrite length_app. lia.
Qed.

Lemma interface_add_empty l :
  agg_metrics (interface_add (mkInterfaceAggregate [] ∅) l) = [] → l = [].
Proof.
  destruct l as [|m l]; [done|]. simpl. intros Hnil.
  pose proof (interface_add_length (interface_add_one (mkInterfaceAggregate [] ∅) m) l) as Hlen.
  rewrite Hnil in Hlen.
  unfold interface_add_one in Hlen. simpl in Hlen. rewrite lookup_empty in Hlen. simpl in Hlen. lia.
Qed.

(** The results of one CALM node, in input order. *)
Definition node_results (node : string) (results : list AnalysisResult) : list AnalysisResult :=
  filter (λ r, ar_CALMNode r = node) results.

Lemma aggregates_lookup results node :
  default zero_aggregate (aggregates results !! node)
  = foldl aggregate_step zero_aggregate (node_results node results).
Proof.
  unfold aggregates, node_results.
  assert (∀ m : gmap string aggregate, default zero_aggregate
    (foldl (λ (m : gmap string aggregate) result,
       <[ar_CALMNode result :=
           aggregate_step (default zero_aggregate (m !! ar_CALMNode result)) result]> m)
       m results !! node)
    = foldl aggregate_step (default zero_aggregate (m !! node))
        (filter (λ r, ar_CALMNode r = node) results)) as Hgen; [|by rewrite Hgen].
  induction results as [|r rs IH]; intros m; simpl; [done|].
  rewrite IH, filter_cons, lookup_insert. repeat case_decide; simplify_eq/=; done.
Qed.

Definition zsum {A} (f : A → Z) (l : list A) : Z := foldr (λ x acc, f x + acc)%Z 0%Z l.

Lemma aggregate_step_totals rs a :
  let fm := agg_fileMetric (foldl aggregate_step a rs) in
  file_TotalLOC fm = (file_TotalLOC (agg_fileMetric a) + zsum (λ r, file_TotalLOC (ar_FileMetric r)) rs)%Z ∧
  file_LogicLOC fm = (file_LogicLOC (agg_fileMetric a) + zsum (λ r, file_LogicLOC (ar_FileMetric r)) rs)%Z ∧
  file_PublicMethods fm = (file_PublicMethods (agg_fileMetric a) + zsum (λ r, file_PublicMethods (ar_FileMetric r)) rs)%Z ∧
  agg_functions (foldl aggregate_step a rs) = agg_functions a ++ (rs ≫= ar_Functions).
Proof.
  revert a. induction rs as [|r rs IH]; intros a; simpl.
  { rewrite app_nil_r. split_and!; lia || done. }
  specialize (IH (aggregate_step a r)) as (-> & -> & -> & ->). simpl.
  split_and!; try lia. by rewrite (assoc_L (++)).
Qed.

Definition go_interfaces (rs : list AnalysisResult) : list InterfaceMetric :=
  filter (λ r, ar_Language r = "go") rs ≫= ar_Interfaces.

Lemma aggregate_interfaces rs a :
  agg_interfaces (foldl aggregate_step a rs)
  = interface_add (agg_interfaces a) (go_interfaces rs).
Proof.
  unfold go_interfaces. revert a. induction rs as [|r rs IH]; intros a; simpl; [done|].
  rewrite IH, filter_cons. unfold aggregate_step. simpl.
  destruct (String.eqb_spec (ar_Language r) "go") as [Hl|Hl].
  - rewrite decide_True by done. simpl.
    destruct (ar_Interfaces r) as [|i l] eqn:Ei; simpl; [done|].
    unfold interface_add. by rewrite foldl_app.
  - by rewrite decide_False by done.
Qed.

(** ** Properties *)

(** The metric of one CALM node, as a sum over its files. *)
Definition node_file_metric (rs : list AnalysisResult) : FileMetric :=
  mkFile (zsum (λ r, file_TotalLOC (ar_FileMetric r)) rs)
    (zsum (λ r, file_LogicLOC (ar_FileMetric r)) rs)
    (zsum (λ r, file_PublicMethods (ar_FileMetric r)) rs) f64_zero.

Lemma aggregate_file_metric rs :
  agg_fileMetric (foldl aggregate_step zero_aggregate rs) = node_file_metric rs.
Proof.
  pose proof (aggregate_step_totals rs zero_aggregate) as (H1 & H2 & H3 & _).
  assert (∀ a, file_LDR (agg_fileMetric (foldl aggregate_step a rs))
               = file_LDR (agg_fileMetric a)) as H4.
  { clear. induction rs as [|r rs IH]; intros a; simpl; [done|]. by rewrite IH. }
  specialize (H4 zero_aggregate). simpl in *.
  destruct (agg_fileMetric _). unfold node_file_metric. simpl in *. by subst.
Qed.

(** Aggregation keeps every file result in place and rewrites only its
    module metric (and, for Go, its interface records): the module metric of
    each file is the one derived from the summed line and method counts and the
    concatenated functions of all files of the same CALM node. *)
Theorem AggregateModuleMetrics_module_metric results i r :
  results !! i = Some r →
  ∃ r', AggregateModuleMetrics results !! i = Some r' ∧
    ar_ModuleMetric r' =
      BuildModuleMetric (node_file_metric (node_results (ar_CALMNode r) results))
        (node_results (ar_CALMNode r) results ≫= ar_Functions) ∧
    set_ModuleMetric (ar_ModuleMetric r) (set_Interfaces (ar_Interfaces r) r') = r.
Proof.
  intros Hi. exists (apply_aggregate (aggregates results) r). split_and!.
  - unfold AggregateModuleMetrics. by rewrite list_lookup_fmap, Hi.
  - unfold apply_aggregate. rewrite aggregates_lookup.
    pose proof (aggregate_step_totals (node_results (ar_CALMNode r) results) zero_aggregate)
      as (_ & _ & _ & ->).
    rewrite aggregate_file_metric. simpl. by case_match.
  - unfold apply_aggregate. destruct r. by case_match.
Qed.

(** The Go interface records of an aggregated node list every (kind,
    receiver) pair once, and the exported-operation count of each pair is the
    sum of the counts its files declared, so no operation is lost or counted
    twice when a package is split over files. *)
Theorem AggregateModuleMetrics_interfaces results i r :
  results !! i = Some r →
  ar_Language r = "go" →
  go_interfaces (node_results (ar_CALMNode r) results) ≠ [] →
  ∃ r', AggregateModuleMetrics results !! i = Some r' ∧
    NoDup (interface_key <$> ar_Interfaces r') ∧
    ∀ k, interface_sum k (ar_Interfaces r') =
         interface_sum k (go_interfaces (node_results (ar_CALMNode r) results)).
Proof.
  intros Hi Hgo Hne. exists (apply_aggregate (aggregates results) r).
  set (rs := node_results (ar_CALMNode r) results) in *.
  set (a := interface_add (mkInterfaceAggregate [] ∅) (go_interfaces rs)).
  assert (interface_inv a) as Ha by (apply interface_add_inv, interface_inv_empty).
  assert (ar_Interfaces (apply_aggregate (aggregates results) r) = agg_metrics a) as ->.
  { unfold apply_aggregate. rewrite aggregates_lookup, aggregate_interfaces, Hgo. simpl.
    fold rs a. case_bool_decide as Hnil; [|done]. simpl. exfalso.
    by apply interface_add_empty in Hnil. }
  split_and!.
  - unfold AggregateModuleMetrics. by rewrite list_lookup_fmap, Hi.
  - by apply interface_inv_NoDup.
  - intros k. unfold a. rewrite interface_add_sum by apply interface_inv_empty. done.
Qed.

(** A package split over two files: the receiver type is declared in both. *)
Definition sample_file (calls : Z) : AnalysisResult :=
  mkAnalysis "pkg" "go" "a.go" "" [mkFunction "Run" 3 true 12] zero_module
    (mkFile 20 15 1 f64_one) (mkImport 0 0 [] f64_one)
    [mkInterface "" "module" 1 0; mkInterface "T" "class" 4 calls] ∅ [].

Lemma AggregateModuleMetrics_module_metric_witness :
  ∃ r', AggregateModuleMetrics [sample_file 2; sample_file 3] !! 1%nat = Some r' ∧
    mod_TotalLOC (ar_ModuleMetric r') = 40%Z ∧ mod_PrivateLOC (ar_ModuleMetric r') = 16%Z.
Proof.
  destruct (AggregateModuleMetrics_module_metric [sample_file 2; sample_file 3] 1 (sample_file 3)
              eq_refl) as (r' & Hr' & Hm & _).
  exists r'. rewrite Hm. split_and!; [exact Hr'|reflexivity|reflexivity].
Defined.

Lemma AggregateModuleMetrics_interfaces_witness :
  ∃ r', AggregateModuleMetrics [sample_file 2; sample_file 3] !! 0%nat = Some r' ∧
    interface_sum ("class", "T") (ar_Interfaces r') = 5%Z.
Proof.
  destruct (AggregateModuleMetrics_interfaces [sample_file 2; sample_file 3] 0 (sample_file 2)
              eq_refl eq_refl ltac:(discriminate)) as (r' & Hr' & _ & Hs).
  exists r'. rewrite Hs. split; [exact Hr'|reflexivity].
Defined.
