(* ===== verification/State.v ===== *)
(** * Server state: the outstanding-violation ledger and the warm-up slots

    [internal/server/state.go], apart from the repository semaphores, which are
    in [RepoLock].  Every method of [*State] runs under [State.mu], so each is
    one atomic function on the record; receivers are non-nil. *)

From stdpp Require Import base gmap strings list fin_maps sorting relations.
From Stdlib Require Import ZArith Lia.
From S2P Require Import Prelude GoStrings GoErrors GoFloat Fitness.
Set Default Goal Selector "!".

Inductive warmupStatus := warmupCold | warmupRunning | warmupComplete.

#[export] Instance warmupStatus_eq_dec : EqDecision warmupStatus.
Proof. solve_decision. Defined.

Record State := mkState {
  st_violations : gmap string (gmap string (list Violation));
  st_warmups : gmap string warmupStatus;
  st_warmupFailures : gmap string string;
}.

Definition NewState : State := mkState ∅ ∅ ∅.

Definition set_violations (m : gmap string (gmap string (list Violation))) (s : State) : State :=
  mkState m (st_warmups s) (st_warmupFailures s).

(** ** Ordering of violations *)

(** The comparison of [sortViolations]. *)
Definition violation_less (a b : Violation) : bool :=
  if negb (String.eqb (v_File a) (v_File b)) then String.ltb (v_File a) (v_File b)
  else if negb (String.eqb (v_Function a) (v_Function b))
  then String.ltb (v_Function a) (v_Function b)
  else if negb (String.eqb (v_Interface a) (v_Interface b))
  then String.ltb (v_Interface a) (v_Interface b)
  else String.ltb (v_FitnessFunction a) (v_FitnessFunction b).

(** The same order as a sort key. *)
Definition violation_key (v : Violation) : string * (string * (string * string)) :=
  (v_File v, (v_Function v, (v_Interface v, v_FitnessFunction v))).
Definition key_leb : string * (string * (string * string)) →
  string * (string * (string * string)) → bool :=
  lex_leb string_leb (lex_leb string_leb (lex_leb string_leb string_leb)).

(** [sort.SliceStable(violations, violation_less)]. *)
Definition sortViolations (violations : list Violation) : list Violation :=
  stable_sort violation_key key_leb violations.

(** ** Ledger operations *)

Definition ReplaceFile (repo file : string) (violations : list Violation) (s : State) : State :=
  match violations with
  | [] =>
      match st_violations s !! repo with
      | None => s
      | Some files =>
          let files' := delete file files in
          if decide (files' = ∅) then set_violations (delete repo (st_violations s)) s
          else set_violations (<[repo := files']> (st_violations s)) s
      end
  | _ =>
      let files := default ∅ (st_violations s !! repo) in
      set_violations (<[repo := <[file := violations]> files]> (st_violations s)) s
  end.

Definition ClearRepo (repo : string) (s : State) : State :=
  set_violations (delete repo (st_violations s)) s.

Definition HasFile (repo file : string) (s : State) : bool :=
  match st_violations s !! repo with
  | None => false
  | Some files => (0 <? length (default [] (files !! file)))%nat
  end.

(** The collection loop shared by [Violations] and [Snapshot]: the files of one
    repository in byte order. *)
Definition collect (files : gmap string (list Violation)) : list Violation :=
  sort_strings (map_to_list files).*1 ≫= λ file, default [] (files !! file).

Definition Violations (repo : string) (s : State) : list Violation :=
  sortViolations (collect (default ∅ (st_violations s !! repo))).

Definition Snapshot (s : State) : gmap string (list Violation) :=
  (λ files, sortViolations (collect files)) <$> st_violations s.

(** [violationLedger]: the state as the scoring path sees it. *)
Record violationLedger := mkLedger { led_dryRun : bool }.

Definition newViolationLedger (dryRun : bool) : violationLedger := mkLedger dryRun.

Definition led_ReplaceFile (l : violationLedger) (repo file : string)
    (violations : list Violation) (s : State) : State :=
  if led_dryRun l then s else ReplaceFile repo file violations s.

Definition led_ClearRepo (l : violationLedger) (repo : string) (s : State) : State :=
  if led_dryRun l then s else ClearRepo repo s.

Definition led_OutstandingAfter (l : violationLedger) (repo file : string)
    (proposed : list Violation) (s : State) : list Violation :=
  if negb (led_dryRun l) then Violations repo s
  else
    let outstanding := Violations repo s in
    let simulated := filter (λ v, v_File v ≠ file) outstanding in
    sortViolations (simulated ++ proposed).

(** ** Warm-up slots *)

Definition warmup_of (language : string) (s : State) : warmupStatus :=
  default warmupCold (st_warmups s !! language).

Definition set_warmup (language : string) (w : warmupStatus) (f : gmap string string) (s : State) :
  State := mkState (st_violations s) (<[language := w]> (st_warmups s)) f.

Definition BeginWarmup (language : string) (s : State) : bool * State :=
  if decide (warmup_of language s = warmupCold)
  then (true, set_warmup language warmupRunning (st_warmupFailures s) s)
  else (false, s).

Definition CompleteWarmup (language : string) (s : State) : State :=
  set_warmup language warmupComplete (delete language (st_warmupFailures s)) s.

Definition FailWarmup (language message : string) (s : State) : State :=
  set_warmup language warmupCold (<[language := message]> (st_warmupFailures s)) s.

Definition RecordWarmupFailure {U : UnicodeTables} (language : string) (err : option goerror)
    (s : State) : State :=
  match err with
  | None => s
  | Some e => FailWarmup language (error_string e) s
  end.

Definition TakeWarmupFailure (language : string) (s : State) : option string * State :=
  match st_warmupFailures s !! language with
  | None => (None, s)
  | Some message =>
      (Some message,
       mkState (st_violations s) (st_warmups s) (delete language (st_warmupFailures s)))
  end.

Definition IsWarm (language : string) (s : State) : bool :=
  bool_decide (warmup_of language s = warmupComplete).

(** ** The order *)

Lemma key_leb_total a b : key_leb a b = true ∨ key_leb b a = true.
Proof. repeat apply lex_leb_total; apply string_leb_total. Qed.

Lemma key_leb_antisym a b : key_leb a b = true → key_leb b a = true → a = b.
Proof. repeat apply lex_leb_antisym; apply string_leb_antisym. Qed.

Lemma key_leb_trans a b c : key_leb a b = true → key_leb b c = true → key_leb a c = true.
Proof.
  repeat apply lex_leb_trans; first [apply string_leb_trans | apply string_leb_antisym].
Qed.

Lemma violation_less_key a b :
  violation_less a b = negb (key_leb (violation_key b) (violation_key a)).
Proof.
  unfold violation_less, key_leb, violation_key, lex_leb. simpl. rewrite !string_ltb_leb.
  repeat (match goal with |- context [String.eqb ?x ?y] => destruct (String.eqb_spec x y) end;
          simpl; [|by rewrite decide_False by congruence];
          rewrite decide_True by congruence).
  done.
Qed.

Lemma sortViolations_perm l : sortViolations l ≡ₚ l.
Proof. apply stable_sort_perm. Qed.

Lemma sortViolations_sorted l :
  StronglySorted (λ a b, violation_less b a = false) (sortViolations l).
Proof.
  pose proof (stable_sort_sorted violation_key key_leb key_leb_total key_leb_trans l) as Hs.
  unfold sortViolations. induction Hs as [|v vs Hs IH Hv]; constructor; [done|].
  eapply Forall_impl; [exact Hv|]. intros a Ha. simpl in *. by rewrite violation_less_key, Ha.
Qed.

Lemma sortViolations_filter k l :
  filter (λ v, violation_key v = k) (sortViolations l) = filter (λ v, violation_key v = k) l.
Proof. apply stable_sort_filter; [apply key_leb_total|apply key_leb_trans]. Qed.

Lemma sortViolations_ext l1 l2 :
  (∀ k, filter (λ v, violation_key v = k) l1 = filter (λ v, violation_key v = k) l2) →
  sortViolations l1 = sortViolations l2.
Proof.
  apply stable_sort_ext; [apply key_leb_total|apply key_leb_trans|apply key_leb_antisym].
Qed.

(** ** Collecting a repository *)

Lemma elem_of_sorted_keys {A} (m : gmap string A) k :
  k ∈ sort_strings (map_to_list m).*1 ↔ is_Some (m !! k).
Proof.
  rewrite sort_strings_perm, list_elem_of_fmap. split.
  - intros ([k' x] & -> & ?%elem_of_map_to_list). simpl. eauto.
  - intros [x Hx]. exists (k, x). by rewrite elem_of_map_to_list.
Qed.

Lemma elem_of_collect files v :
  v ∈ collect files ↔ ∃ file vs, files !! file = Some vs ∧ v ∈ vs.
Proof.
  unfold collect. rewrite list_elem_of_bind. split.
  - intros (file & Hv & _). destruct (files !! file) eqn:E; simpl in Hv; [eauto|].
    by apply not_elem_of_nil in Hv.
  - intros (file & vs & Hf & Hv). exists file. rewrite Hf, elem_of_sorted_keys. eauto.
Qed.

Lemma collect_NoDup (files : gmap string (list Violation)) :
  NoDup (sort_strings (map_to_list files).*1).
Proof. rewrite sort_strings_perm. apply NoDup_fst_map_to_list. Qed.

(** Violations are stored under the file they name. *)
Definition files_wf (files : gmap string (list Violation)) : Prop :=
  files ≠ ∅ ∧ ∀ file vs, files !! file = Some vs → vs ≠ [] ∧ Forall (λ v, v_File v = file) vs.

(** The well-formedness invariant of the ledger: no empty entries, and every
    violation filed under its own file. *)
Definition ledger_wf (s : State) : Prop :=
  ∀ repo files, st_violations s !! repo = Some files → files_wf files.

Definition files_keyed (files : gmap string (list Violation)) : Prop :=
  ∀ file vs, files !! file = Some vs → Forall (λ v, v_File v = file) vs.

Lemma collect_filter_key files k :
  files_keyed files →
  filter (λ v, violation_key v = k) (collect files)
  = filter (λ v, violation_key v = k) (default [] (files !! k.1)).
Proof.
  intros Hwf. unfold collect. rewrite filter_bind.
  rewrite (bind_single _ k.1); [|apply collect_NoDup|].
  - case_decide as Hin; [done|]. rewrite elem_of_sorted_keys in Hin.
    by apply eq_None_not_Some in Hin as ->.
  - intros file Hne. apply filter_none. intros v Hv Hk.
    destruct (files !! file) eqn:E; simpl in Hv; [|by apply not_elem_of_nil in Hv].
    apply Hwf in E. rewrite Forall_forall in E. apply E in Hv. subst k. simpl in Hne. congruence.
Qed.

(** ** The ledger as a function from repository and file *)

(** What the ledger promises, whatever its map layout: the violations
    outstanding for one file of one repository. *)
Definition entry (s : State) (repo file : string) : list Violation :=
  default [] (default ∅ (st_violations s !! repo) !! file).

Lemma entry_ReplaceFile repo file vs s repo' file' :
  entry (ReplaceFile repo file vs s) repo' file'
  = if decide (repo = repo' ∧ file = file') then vs else entry s repo' file'.
Proof.
  unfold entry, ReplaceFile. destruct vs as [|v vs].
  - destruct (st_violations s !! repo) as [files|] eqn:Hr.
    + case_decide as Hempty; simpl.
      * rewrite lookup_delete. destruct (decide (repo = repo')) as [<-|Hne].
        -- simpl. rewrite Hr. simpl. rewrite lookup_empty.
           destruct (decide (file = file')) as [<-|Hf].
           { by rewrite decide_True. }
           rewrite decide_False by naive_solver.
           rewrite <-(lookup_delete_ne files file file') by done. by rewrite Hempty.
        -- by rewrite decide_False by naive_solver.
      * rewrite lookup_insert. destruct (decide (repo = repo')) as [<-|Hne].
        -- simpl. rewrite Hr, lookup_delete. simpl. repeat case_decide; naive_solver.
        -- by rewrite decide_False by naive_solver.
    + case_decide as Hd; [|done]. destruct Hd as [<- <-]. by rewrite Hr.
  - simpl. rewrite lookup_insert. destruct (decide (repo = repo')) as [<-|Hne].
    + simpl. rewrite lookup_insert. repeat case_decide; naive_solver.
    + by rewrite decide_False by naive_solver.
Qed.

Lemma entry_ClearRepo repo s repo' file' :
  entry (ClearRepo repo s) repo' file' = if decide (repo = repo') then [] else entry s repo' file'.
Proof. unfold entry, ClearRepo. simpl. rewrite lookup_delete. by case_decide. Qed.

Lemma HasFile_entry repo file s : HasFile repo file s = true ↔ entry s repo file ≠ [].
Proof.
  unfold HasFile, entry. destruct (st_violations s !! repo) as [files|]; simpl.
  - destruct (default [] (files !! file)); simpl; [|done]. by split.
  - rewrite lookup_empty. done.
Qed.

Lemma elem_of_Violations repo s v :
  v ∈ Violations repo s ↔ ∃ file, v ∈ entry s repo file.
Proof.
  unfold Violations, entry. rewrite sortViolations_perm, elem_of_collect.
  split; intros (file & H); exists file.
  - destruct H as (vs & -> & Hv). done.
  - destruct (default ∅ (st_violations s !! repo) !! file); [eauto|].
    by apply not_elem_of_nil in H.
Qed.

Lemma ledger_wf_keyed s repo :
  ledger_wf s → files_keyed (default ∅ (st_violations s !! repo)).
Proof.
  intros Hwf file vs Hf. destruct (st_violations s !! repo) as [files|] eqn:E; simpl in Hf.
  - by apply (Hwf _ _ E).
  - by rewrite lookup_empty in Hf.
Qed.

Lemma Violations_filter_key s repo k :
  ledger_wf s →
  filter (λ v, violation_key v = k) (Violations repo s)
  = filter (λ v, violation_key v = k) (entry s repo k.1).
Proof.
  intros Hwf. unfold Violations. rewrite sortViolations_filter.
  apply collect_filter_key, ledger_wf_keyed, Hwf.
Qed.

Lemma Violations_ext s1 s2 repo :
  ledger_wf s1 → ledger_wf s2 → (∀ file, entry s1 repo file = entry s2 repo file) →
  Violations repo s1 = Violations repo s2.
Proof.
  intros H1 H2 He. unfold Violations. apply sortViolations_ext. intros k.
  rewrite !collect_filter_key by by apply ledger_wf_keyed.
  specialize (He k.1). unfold entry in He. by rewrite He.
Qed.

(** ** Preservation of well-formedness *)

Lemma ledger_wf_New : ledger_wf NewState.
Proof. intros repo files Hr. simpl in Hr. by rewrite lookup_empty in Hr. Qed.

Lemma ledger_wf_ReplaceFile repo file vs s :
  Forall (λ v, v_File v = file) vs → ledger_wf s → ledger_wf (ReplaceFile repo file vs s).
Proof.
  intros Hvs Hwf repo' files'. unfold ReplaceFile. destruct vs as [|v vs].
  - destruct (st_violations s !! repo) as [files|] eqn:Hr; [|apply Hwf].
    case_decide as Hempty; simpl.
    + intros [_ ?]%lookup_delete_Some. by eapply Hwf.
    + rewrite lookup_insert. case_decide; [|by apply Hwf]. intros [= <-]. split; [done|].
      intros f vs [_ Hf]%lookup_delete_Some. by apply (Hwf _ _ Hr).
  - simpl. rewrite lookup_insert. case_decide as Hd; [|by apply Hwf]. intros [= <-].
    split; [apply insert_non_empty|]. intros f ws. rewrite lookup_insert. case_decide.
    + intros [= <-]. subst f. done.
    + destruct (st_violations s !! repo) as [files|] eqn:Hr; simpl.
      * by apply (Hwf _ _ Hr).
      * by rewrite lookup_empty.
Qed.

Lemma ledger_wf_ClearRepo repo s : ledger_wf s → ledger_wf (ClearRepo repo s).
Proof.
  intros Hwf repo' files. unfold ClearRepo. simpl.
  intros [_ ?]%lookup_delete_Some. by eapply Hwf.
Qed.

Lemma ledger_wf_violations s s' :
  st_violations s' = st_violations s → ledger_wf s → ledger_wf s'.
Proof. unfold ledger_wf. by intros ->. Qed.

#[export] Hint Resolve ledger_wf_New ledger_wf_ReplaceFile ledger_wf_ClearRepo : governance.

(** ** Properties *)

Lemma dry_run_outstanding repo file proposed s :
  ledger_wf s → Forall (λ v, v_File v = file) proposed →
  led_OutstandingAfter (newViolationLedger true) repo file proposed
    (led_ReplaceFile (newViolationLedger true) repo file proposed s)
  = led_OutstandingAfter (newViolationLedger false) repo file proposed
      (led_ReplaceFile (newViolationLedger false) repo file proposed s).
Proof.
  intros Hwf Hp. unfold led_OutstandingAfter, led_ReplaceFile. simpl.
  assert (ledger_wf (ReplaceFile repo file proposed s)) as Hwf' by auto with governance.
  unfold Violations at 2. apply sortViolations_ext. intros k.
  rewrite filter_app, list_filter_filter, (collect_filter_key _ k) by by apply ledger_wf_keyed.
  fold (entry (ReplaceFile repo file proposed s) repo k.1). rewrite entry_ReplaceFile.
  destruct (decide (file = k.1)) as [->|Hne].
  - rewrite decide_True by done. rewrite filter_none; [done|].
    intros v _ [Hk Hv]. by subst k.
  - rewrite decide_False by naive_solver. rewrite (filter_none _ proposed), app_nil_r.
    + rewrite <-Violations_filter_key by done. apply list_filter_iff. intros v. split; [naive_solver|].
      intros <-. split; [done|]. simpl in Hne. congruence.
    + intros v Hv <-. rewrite Forall_forall in Hp. apply Hp in Hv. simpl in Hne. congruence.
Qed.

(** A dry run is told exactly the outstanding set the real check would be
    told: simulating the withheld write on a copy of the sorted ledger gives the
    same list, in the same order, as performing the write and reading the
    ledger back. *)
Theorem OutstandingAfter_dry_run_agrees repo file proposed s :
  ledger_wf s → Forall (λ v, v_File v = file) proposed →
  led_OutstandingAfter (newViolationLedger true) repo file proposed
    (led_ReplaceFile (newViolationLedger true) repo file proposed s)
  = led_OutstandingAfter (newViolationLedger false) repo file proposed
      (led_ReplaceFile (newViolationLedger false) repo file proposed s).
Proof. apply dry_run_outstanding. Qed.

(** [Violations] lists exactly the violations recorded for the repository's
    files, ordered by file, function, interface and fitness function. *)
Theorem Violations_spec repo s :
  StronglySorted (λ a b, violation_less b a = false) (Violations repo s) ∧
  Violations repo s ≡ₚ collect (default ∅ (st_violations s !! repo)) ∧
  ∀ v, v ∈ Violations repo s ↔ ∃ file, v ∈ entry s repo file.
Proof.
  split_and!; [apply sortViolations_sorted|apply sortViolations_perm|].
  intros v. apply elem_of_Violations.
Qed.

(** *** The ledger as an abstract blackboard *)

(** The abstract contract: a total function from (repository, file) to the
    outstanding violations, overwritten per file and cleared per repository. *)
Definition blackboard : Type := string → string → list Violation.

Inductive ledger_op :=
| OpReplace (repo file : string) (vs : list Violation)
| OpClear (repo : string).

Definition op_filed (op : ledger_op) : Prop :=
  match op with
  | OpReplace _ file vs => Forall (λ v, v_File v = file) vs
  | OpClear _ => True
  end.

Definition run_op (s : State) (op : ledger_op) : State :=
  match op with
  | OpReplace repo file vs => ReplaceFile repo file vs s
  | OpClear repo => ClearRepo repo s
  end.

Definition spec_op (b : blackboard) (op : ledger_op) : blackboard := λ repo' file',
  match op with
  | OpReplace repo file vs => if decide (repo = repo' ∧ file = file') then vs else b repo' file'
  | OpClear repo => if decide (repo = repo') then [] else b repo' file'
  end.

Lemma spec_op_ext b1 b2 op :
  (∀ r f, b1 r f = b2 r f) → ∀ r f, spec_op b1 op r f = spec_op b2 op r f.
Proof. intros Hb r f. destruct op; simpl; case_decide; auto. Qed.

Lemma run_op_refines s op r f : entry (run_op s op) r f = spec_op (entry s) op r f.
Proof. destruct op; [apply entry_ReplaceFile|apply entry_ClearRepo]. Qed.

(** C15: any sequence of ledger writes keeps the map well formed (no empty
    entries, every violation under its own file) and refines the abstract
    blackboard: each file holds what was last written for it since its
    repository was last cleared. *)
Theorem ledger_refines_blackboard ops s :
  ledger_wf s → Forall op_filed ops →
  ledger_wf (foldl run_op s ops) ∧
  ∀ repo file, entry (foldl run_op s ops) repo file = foldl spec_op (entry s) ops repo file.
Proof.
  intros Hwf Hops.
  assert (∀ b, (∀ r f, entry s r f = b r f) → ledger_wf (foldl run_op s ops) ∧
    ∀ repo file, entry (foldl run_op s ops) repo file = foldl spec_op b ops repo file) as Hgen;
    [|by apply Hgen].
  revert s Hwf. induction Hops as [|op ops Hop Hops IH]; intros s Hwf b Hb; simpl; [done|].
  apply IH.
  - destruct op; simpl in *; auto with governance.
  - intros r f. rewrite run_op_refines. by apply spec_op_ext.
Qed.

(** The per-repository view and the whole snapshot agree: a repository
    appears in the snapshot exactly when it owes something, with the same sorted
    list [Violations] returns. *)
Theorem Snapshot_spec s repo :
  ledger_wf s →
  Snapshot s !! repo =
    if decide (Violations repo s = []) then None else Some (Violations repo s).
Proof.
  intros Hwf. unfold Snapshot. rewrite lookup_fmap. unfold Violations.
  destruct (st_violations s !! repo) as [files|] eqn:Hr; simpl.
  - destruct (Hwf _ _ Hr) as [Hne Hfiles]. rewrite decide_False; [done|]. intros Hnil.
    destruct (map_choose files Hne) as (file & vs & Hf).
    destruct (Hfiles _ _ Hf) as [Hvs _]. destruct vs as [|v vs]; [done|].
    assert (v ∈ sortViolations (collect files)) as Hv.
    { rewrite sortViolations_perm, elem_of_collect. exists file, (v :: vs). split; [done|left]. }
    rewrite Hnil in Hv. by apply not_elem_of_nil in Hv.
  - rewrite decide_True; [done|]. reflexivity.
Qed.

(** ** The warm-up slot as a state machine *)

Inductive warm_event :=
| EvBegin (language : string)
| EvComplete (language : string)
| EvFail (language message : string)
| EvTake (language : string).

Definition warm_step (s : State) (e : warm_event) : State :=
  match e with
  | EvBegin l => (BeginWarmup l s).2
  | EvComplete l => CompleteWarmup l s
  | EvFail l m => FailWarmup l m s
  | EvTake l => (TakeWarmupFailure l s).2
  end.

(** The event that ends a running warm-up of [l]. *)
Definition ends_warmup (l : string) (e : warm_event) : Prop :=
  match e with
  | EvComplete l' | EvFail l' _ => l' = l
  | EvBegin _ | EvTake _ => False
  end.

(** A completed language has no failure left to report. *)
Definition warm_inv (s : State) : Prop :=
  ∀ l, warmup_of l s = warmupComplete → st_warmupFailures s !! l = None.

Lemma warmup_of_set l w f s l' :
  warmup_of l' (set_warmup l w f s) = if decide (l = l') then w else warmup_of l' s.
Proof. unfold warmup_of, set_warmup. simpl. rewrite lookup_insert. by case_decide. Qed.

Lemma warm_inv_step s e : warm_inv s → warm_inv (warm_step s e).
Proof.
  intros Hinv l Hl. destruct e as [l'|l'|l' m|l']; simpl in *.
  - unfold BeginWarmup in *. case_decide; simpl in *; [|by apply Hinv].
    rewrite warmup_of_set in Hl. case_decide; [done|]. by apply Hinv.
  - unfold CompleteWarmup in *. rewrite warmup_of_set in Hl. simpl. rewrite lookup_delete.
    case_decide; [done|]. by apply Hinv.
  - unfold FailWarmup in *. rewrite warmup_of_set in Hl. simpl. rewrite lookup_insert.
    case_decide; [done|]. by apply Hinv.
  - unfold TakeWarmupFailure in *. case_match; simpl in *; [|by apply Hinv].
    rewrite lookup_delete. case_decide; [done|]. by apply Hinv.
Qed.

Lemma warm_inv_New : warm_inv NewState.
Proof. intros l _. apply lookup_empty. Qed.

(** In every state the server can reach through its warm-up methods, a
    language whose warm-up completed has no pending failure, so a warm language
    is never reported as failed by [TakeWarmupFailure]. *)
Theorem warmed_language_reports_no_failure es l :
  warmup_of l (foldl warm_step NewState es) = warmupComplete →
  TakeWarmupFailure l (foldl warm_step NewState es) = (None, foldl warm_step NewState es).
Proof.
  intros Hl. assert (warm_inv (foldl warm_step NewState es)) as Hinv.
  { clear Hl. pose proof warm_inv_New as Hs. revert Hs. generalize NewState.
    induction es as [|e es IH]; intros s Hs; simpl; [done|]. by apply IH, warm_inv_step. }
  unfold TakeWarmupFailure. by rewrite (Hinv _ Hl).
Qed.

Lemma running_step l s e :
  warmup_of l s = warmupRunning → ¬ ends_warmup l e →
  warmup_of l (warm_step s e) = warmupRunning.
Proof.
  intros Hrun Hend. destruct e as [l'|l'|l' m|l']; simpl in *.
  - unfold BeginWarmup. case_decide as Hc; simpl; [|done]. rewrite warmup_of_set.
    by case_decide.
  - unfold CompleteWarmup. rewrite warmup_of_set. by rewrite decide_False.
  - unfold FailWarmup. rewrite warmup_of_set. by rewrite decide_False.
  - unfold TakeWarmupFailure. by case_match.
Qed.

(** The one background warm-up slot of a language is exclusive: once
    [BeginWarmup] has been granted, every later [BeginWarmup] for the language is
    refused until that warm-up completes or fails. *)
Theorem BeginWarmup_exclusive l s s' es :
  BeginWarmup l s = (true, s') → Forall (λ e, ¬ ends_warmup l e) es →
  BeginWarmup l (foldl warm_step s' es) = (false, foldl warm_step s' es).
Proof.
  intros Hb Hes. assert (warmup_of l s' = warmupRunning) as Hrun.
  { unfold BeginWarmup in Hb. case_decide; [|done]. simplify_eq.
    rewrite warmup_of_set. by rewrite decide_True. }
  clear Hb s. revert s' Hrun. induction Hes as [|e es He Hes IH]; intros s Hrun; simpl.
  - unfold BeginWarmup. by rewrite Hrun.
  - apply IH. by apply running_step.
Qed.

(** ** Witnesses *)

Definition sample_violation (file : string) (fn : string) : Violation :=
  mkViolation "cyclomatic_complexity" "pkg" file fn "" "" (f64_of_int 12) (f64_of_int 9) "too complex".

Definition sample_state : State :=
  ReplaceFile "repo" "b.go" [sample_violation "b.go" "G"]
    (ReplaceFile "repo" "a.go" [sample_violation "a.go" "F"; sample_violation "a.go" "E"] NewState).

Lemma sample_state_wf : ledger_wf sample_state.
Proof. unfold sample_state. auto 10 using Forall_cons, Forall_nil with governance. Qed.

Lemma OutstandingAfter_dry_run_agrees_witness :
  led_OutstandingAfter (newViolationLedger true) "repo" "a.go" [sample_violation "a.go" "Z"] sample_state
  = [sample_violation "a.go" "Z"; sample_violation "b.go" "G"].
Proof.
  assert (Forall (λ v, v_File v = "a.go") [sample_violation "a.go" "Z"]) as Hf by repeat constructor.
  rewrite (OutstandingAfter_dry_run_agrees "repo" "a.go" [sample_violation "a.go" "Z"] sample_state
             sample_state_wf Hf : led_OutstandingAfter _ _ _ _ sample_state = _).
  vm_compute. reflexivity.
Defined.

Lemma ledger_refines_blackboard_witness :
  entry (foldl run_op NewState
           [OpReplace "repo" "a.go" [sample_violation "a.go" "F"]; OpClear "other"]) "repo" "a.go"
  = [sample_violation "a.go" "F"].
Proof.
  destruct (ledger_refines_blackboard
    [OpReplace "repo" "a.go" [sample_violation "a.go" "F"]; OpClear "other"] NewState
    ledger_wf_New ltac:(repeat constructor)) as [_ H].
  rewrite H. reflexivity.
Defined.

Lemma Snapshot_spec_witness :
  Snapshot sample_state !! "repo" = Some (Violations "repo" sample_state).
Proof. rewrite (Snapshot_spec sample_state "repo" sample_state_wf). reflexivity. Defined.

Lemma warmed_language_reports_no_failure_witness :
  (TakeWarmupFailure "csharp"
     (foldl warm_step NewState [EvFail "csharp" "boom"; EvBegin "csharp"; EvComplete "csharp"])).1
  = None.
Proof. rewrite warmed_language_reports_no_failure; reflexivity. Defined.

Lemma BeginWarmup_exclusive_witness :
  (BeginWarmup "csharp" (foldl warm_step (BeginWarmup "csharp" NewState).2
     [EvTake "csharp"; EvFail "python" "no"])).1 = false.
Proof.
  rewrite (BeginWarmup_exclusive "csharp" NewState (BeginWarmup "csharp" NewState).2).
  - reflexivity.
  - reflexivity.
  - repeat constructor; simpl; [tauto|discriminate].
Defined.
