(* ===== verification/RepoLock.v ===== *)
(** * Repository semaphores

    The per-repository locks of [internal/server/state.go]: [LockRepo],
    [LockRepoN], [TryLockRepoN] and their release closures, run by any number of
    concurrent callers.  A [repoLock] is an object shared through the map
    [repoLocks] and through the callers that already hold a pointer to it, so
    the model keeps a heap of locks.  Each step is one atomic action of the
    code: a critical section under [State.mu], or one operation on the permit
    channel. *)

From stdpp Require Import base gmap strings list fin_maps relations.
From Stdlib Require Import ZArith Lia.
From S2P Require Import Prelude.
Set Default Goal Selector "!".

(** [repoLock]: the permit channel is its capacity and the number of tokens in
    it. *)
Record repoLock := mkLock { lk_cap : nat; lk_permits : nat; lk_refs : nat }.

(** Where one call of [lockRepoN] or [TryLockRepoN] stands; a handle that is not
    in the map has not started or is finished. *)
Inductive phase :=
| Waiting    (* blocked in the select of acquireRepoPermit *)
| Trying     (* before the select of TryLockRepoN *)
| Holding    (* owns a permit: the release closure has not run *)
| Leaving.   (* no permit any more; releaseRepoLock still to run *)

#[export] Instance phase_eq_dec : EqDecision phase.
Proof. solve_decision. Defined.

Record call := mkCall { call_repo : string; call_lock : nat; call_phase : phase }.

Record config := mkConfig {
  cf_heap : gmap nat repoLock;
  cf_repoLocks : gmap string nat;
  cf_next : nat;
  cf_calls : gmap nat call;
}.

Definition initial : config := mkConfig ∅ ∅ 0 ∅.

(** ** Operations *)

Definition normalizePermits (n : Z) : Z := if (n <? 1)%Z then 1%Z else n.

Definition newRepoLock (n : nat) : repoLock := mkLock n n 0.

Definition add_ref (k : repoLock) : repoLock := mkLock (lk_cap k) (lk_permits k) (S (lk_refs k)).
Definition drop_ref (k : repoLock) : repoLock := mkLock (lk_cap k) (lk_permits k) (pred (lk_refs k)).
Definition take_permit (k : repoLock) : repoLock := mkLock (lk_cap k) (pred (lk_permits k)) (lk_refs k).
Definition put_permit (k : repoLock) : repoLock := mkLock (lk_cap k) (S (lk_permits k)) (lk_refs k).

(** [ensureRepoLock]: the lock object to use, one reference added to it. *)
Definition ensureRepoLock (repo : string) (n : nat) (c : config) : nat * config :=
  let reusable :=
    match cf_repoLocks c !! repo with
    | Some l => match cf_heap c !! l with
                | Some k => if decide (lk_cap k = n) then Some l else None
                | None => None
                end
    | None => None
    end in
  match reusable with
  | Some l => (l, mkConfig (alter add_ref l (cf_heap c)) (cf_repoLocks c) (cf_next c) (cf_calls c))
  | None =>
      let l := cf_next c in
      (l, mkConfig (<[l := add_ref (newRepoLock n)]> (cf_heap c)) (<[repo := l]> (cf_repoLocks c))
            (S l) (cf_calls c))
  end.

(** [releaseRepoLock]. *)
Definition releaseRepoLock (repo : string) (l : nat) (c : config) : config :=
  let heap := alter drop_ref l (cf_heap c) in
  let gone :=
    match heap !! l with
    | Some k => bool_decide (lk_refs k = 0) && bool_decide (cf_repoLocks c !! repo = Some l)
    | None => false
    end in
  mkConfig heap (if gone then delete repo (cf_repoLocks c) else cf_repoLocks c) (cf_next c) (cf_calls c).

Definition set_call (h : nat) (t : call) (c : config) : config :=
  mkConfig (cf_heap c) (cf_repoLocks c) (cf_next c) (<[h := t]> (cf_calls c)).
Definition end_call (h : nat) (c : config) : config :=
  mkConfig (cf_heap c) (cf_repoLocks c) (cf_next c) (delete h (cf_calls c)).
Definition on_lock (f : repoLock → repoLock) (l : nat) (c : config) : config :=
  mkConfig (alter f l (cf_heap c)) (cf_repoLocks c) (cf_next c) (cf_calls c).

(** ** Atomic actions of a call *)

Inductive action :=
| ALock (h : nat) (repo : string) (n : Z)     (* lockRepoN: ensureRepoLock *)
| ATry (h : nat) (repo : string) (n : Z)      (* TryLockRepoN: ensureRepoLock *)
| AAcquire (h : nat)                          (* receive a permit in acquireRepoPermit *)
| ACancel (h : nat)                           (* ctx.Done() in acquireRepoPermit *)
| ATryReceive (h : nat)                       (* the select of TryLockRepoN *)
| ARelease (h : nat)                          (* release closure: the permit goes back *)
| ALeave (h : nat).                           (* releaseRepoLock *)

Definition action_call (a : action) : nat :=
  match a with
  | ALock h _ _ | ATry h _ _ | AAcquire h | ACancel h | ATryReceive h | ARelease h | ALeave h => h
  end.

Definition permits_of (l : nat) (c : config) : nat :=
  match cf_heap c !! l with Some k => lk_permits k | None => 0 end.

Definition begin_call (h : nat) (repo : string) (n : Z) (p : phase) (c : config) : option config :=
  match cf_calls c !! h with
  | Some _ => None
  | None => let '(l, c') := ensureRepoLock repo (Z.to_nat (normalizePermits n)) c in
            Some (set_call h (mkCall repo l p) c')
  end.

(** A blocked receive is an action that is not enabled. *)
Definition exec (c : config) (a : action) : option config :=
  match a with
  | ALock h repo n => begin_call h repo n Waiting c
  | ATry h repo n => begin_call h repo n Trying c
  | AAcquire h =>
      match cf_calls c !! h with
      | Some (mkCall repo l Waiting) =>
          if decide (permits_of l c = 0) then None
          else Some (set_call h (mkCall repo l Holding) (on_lock take_permit l c))
      | _ => None
      end
  | ACancel h =>
      match cf_calls c !! h with
      | Some (mkCall repo l Waiting) => Some (set_call h (mkCall repo l Leaving) c)
      | _ => None
      end
  | ATryReceive h =>
      match cf_calls c !! h with
      | Some (mkCall repo l Trying) =>
          if decide (permits_of l c = 0) then Some (set_call h (mkCall repo l Leaving) c)
          else Some (set_call h (mkCall repo l Holding) (on_lock take_permit l c))
      | _ => None
      end
  | ARelease h =>
      match cf_calls c !! h with
      | Some (mkCall repo l Holding) => Some (set_call h (mkCall repo l Leaving) (on_lock put_permit l c))
      | _ => None
      end
  | ALeave h =>
      match cf_calls c !! h with
      | Some (mkCall repo l Leaving) => Some (end_call h (releaseRepoLock repo l c))
      | _ => None
      end
  end.

Inductive step (P : action → Prop) (c c' : config) : Prop :=
| step_intro a : P a → exec c a = Some c' → step P c c'.

(** Runs whose actions all satisfy [P]. *)
Abbreviation run P := (rtc (step P)).

Fixpoint execs (c : config) (l : list action) : option config :=
  match l with
  | [] => Some c
  | a :: l' => match exec c a with Some c' => execs c' l' | None => None end
  end.

Lemma execs_run (P : action → Prop) c l c' : Forall P l → execs c l = Some c' → run P c c'.
Proof.
  intros Hl. revert c. induction Hl as [|a l Ha Hl IH]; intros c He; simplify_eq/=; [done|].
  destruct (exec c a) eqn:E; [|done]. eapply rtc_l; [by econstructor|eauto].
Qed.

(** ** Counting calls *)

Definition count (P : call → Prop) `{!∀ t, Decision (P t)} (m : gmap nat call) : nat :=
  size (filter (λ kv, P kv.2) m).

Section count.
Context (P : call → Prop) `{!∀ t, Decision (P t)}.

Lemma count_empty : count P ∅ = 0.
Proof. unfold count. by rewrite map_filter_empty, map_size_empty. Qed.

Lemma count_insert h t m :
  count P (<[h := t]> m) = count P (delete h m) + (if decide (P t) then 1 else 0).
Proof.
  unfold count. rewrite <-insert_delete_eq. case_decide as Ht.
  - rewrite map_filter_insert_True by done.
    rewrite map_size_insert_None; [lia|].
    apply map_lookup_filter_None. left. apply lookup_delete_eq.
  - rewrite map_filter_insert_False by done. rewrite delete_delete_eq. lia.
Qed.

Lemma count_lookup h t m :
  m !! h = Some t → count P m = count P (delete h m) + (if decide (P t) then 1 else 0).
Proof. intros Hh. rewrite <-(insert_id m h t) at 1 by done. apply count_insert. Qed.

Lemma count_pos h t m : m !! h = Some t → P t → 1 ≤ count P m.
Proof. intros Hh Ht. rewrite (count_lookup h t) by done. rewrite decide_True by done. lia. Qed.

Lemma count_mono (Q : call → Prop) `{!∀ t, Decision (Q t)} m :
  (∀ h t, m !! h = Some t → P t → Q t) → count P m ≤ count Q m.
Proof.
  intros HPQ. unfold count. apply map_subseteq_size. apply map_subseteq_spec.
  intros h t [Hh Ht]%map_lookup_filter_Some. apply map_lookup_filter_Some. split; [done|].
  by eapply HPQ.
Qed.
End count.

Definition refers (l : nat) (t : call) : Prop := call_lock t = l.
Definition holds (l : nat) (t : call) : Prop := call_lock t = l ∧ call_phase t = Holding.
(** Calls that own a permit for [repo], through whatever lock object. *)
Definition owns (repo : string) (t : call) : Prop := call_repo t = repo ∧ call_phase t = Holding.

#[export] Instance refers_dec l t : Decision (refers l t).
Proof. unfold refers. apply _. Defined.
#[export] Instance holds_dec l t : Decision (holds l t).
Proof. unfold holds. apply _. Defined.
#[export] Instance owns_dec repo t : Decision (owns repo t).
Proof. unfold owns. apply _. Defined.

(** The number of calls that own a permit for [repo]. *)
Definition holders (repo : string) (c : config) : nat := count (owns repo) (cf_calls c).

(** ** Invariant *)

(** For every lock object: its reference count is the number of calls that
    point to it, and the permits in the channel plus the calls that own one make
    up its capacity.  A mapped lock is referenced. *)
Record lock_inv (c : config) : Prop := {
  inv_lock l k : cf_heap c !! l = Some k →
    lk_refs k = count (refers l) (cf_calls c) ∧
    lk_permits k + count (holds l) (cf_calls c) = lk_cap k ∧ l < cf_next c;
  inv_call h t : cf_calls c !! h = Some t → is_Some (cf_heap c !! call_lock t);
  inv_map repo l : cf_repoLocks c !! repo = Some l →
    ∃ k, cf_heap c !! l = Some k ∧ 0 < lk_refs k;
  inv_owner h t r : cf_calls c !! h = Some t →
    cf_repoLocks c !! r = Some (call_lock t) → r = call_repo t;
  inv_inj r1 r2 l : cf_repoLocks c !! r1 = Some l → cf_repoLocks c !! r2 = Some l → r1 = r2;
}.

Lemma lock_inv_initial : lock_inv initial.
Proof.
  split; simpl.
  - intros l k Hl. by rewrite lookup_empty in Hl.
  - intros h t Hh. by rewrite lookup_empty in Hh.
  - intros r l Hr. by rewrite lookup_empty in Hr.
  - intros h t r Hh. by rewrite lookup_empty in Hh.
  - intros r1 r2 l Hr. by rewrite lookup_empty in Hr.
Qed.

(** A call changes phase; the permits of its lock change accordingly. *)
Lemma lock_inv_phase c h repo l p p' f :
  lock_inv c → cf_calls c !! h = Some (mkCall repo l p) →
  (∀ k, lk_refs (f k) = lk_refs k ∧ lk_cap (f k) = lk_cap k) →
  (∀ k, cf_heap c !! l = Some k →
        lk_permits (f k) + (if decide (p' = Holding) then 1 else 0)
        = lk_permits k + (if decide (p = Holding) then 1 else 0)) →
  lock_inv (set_call h (mkCall repo l p') (on_lock f l c)).
Proof.
  intros Hinv Hh Hf Hp. split; simpl.
  - intros l' k. rewrite lookup_alter. intros Hk.
    assert (∃ k0, cf_heap c !! l' = Some k0 ∧ lk_refs k = lk_refs k0 ∧ lk_cap k = lk_cap k0 ∧
      lk_permits k + (if decide (l = l' ∧ p' = Holding) then 1 else 0)
      = lk_permits k0 + (if decide (l = l' ∧ p = Holding) then 1 else 0)) as (k0 & H0 & Hr & Hc & Hs).
    { destruct (decide (l = l')) as [<-|Hl].
      - apply fmap_Some in Hk as (k0 & H0 & ->). exists k0.
        destruct (Hf k0). specialize (Hp _ H0).
        split_and!; try done. revert Hp. clear. repeat case_decide; lia || tauto.
      - exists k. rewrite !decide_False by tauto. done. }
    destruct (inv_lock _ Hinv _ _ H0) as (Href & Hperm & Hlt).
    rewrite (count_lookup _ _ _ _ Hh) in Href. rewrite (count_lookup _ _ _ _ Hh) in Hperm.
    rewrite !count_insert.
    unfold refers, holds in *. simpl in *. rewrite Hr, Hc.
    split_and!; [clear -Href|clear -Hs Hperm|done]; repeat case_decide; lia || tauto.
  - intros h' t Ht. apply lookup_alter_is_Some. rewrite lookup_insert in Ht.
    destruct (decide (h = h')); simplify_eq/=; [apply (inv_call _ Hinv _ _ Hh)|by eapply inv_call].
  - intros r l' Hr. destruct (inv_map _ Hinv _ _ Hr) as (k & Hk & Hpos).
    rewrite lookup_alter. destruct (decide (l = l')) as [<-|Hl]; [|eauto].
    rewrite Hk. exists (f k). destruct (Hf k) as [-> _]. done.
  - intros h' t r Ht Hr. rewrite lookup_insert in Ht.
    destruct (decide (h = h')); simplify_eq/=; [apply (inv_owner _ Hinv _ _ _ Hh Hr)|by eapply inv_owner].
  - apply (inv_inj _ Hinv).
Qed.

(** A new call gains a reference to the lock [ensureRepoLock] selects. *)
Lemma ensureRepoLock_calls repo n c : cf_calls (ensureRepoLock repo n c).2 = cf_calls c.
Proof. unfold ensureRepoLock. by repeat case_match. Qed.

Lemma ensureRepoLock_cases repo n c :
  (∃ l k, cf_repoLocks c !! repo = Some l ∧ cf_heap c !! l = Some k ∧ lk_cap k = n ∧
     ensureRepoLock repo n c
     = (l, mkConfig (alter add_ref l (cf_heap c)) (cf_repoLocks c) (cf_next c) (cf_calls c))) ∨
  ((∀ l k, cf_repoLocks c !! repo = Some l → cf_heap c !! l = Some k → lk_cap k ≠ n) ∧
   ensureRepoLock repo n c
   = (cf_next c, mkConfig (<[cf_next c := add_ref (newRepoLock n)]> (cf_heap c))
        (<[repo := cf_next c]> (cf_repoLocks c)) (S (cf_next c)) (cf_calls c))).
Proof.
  unfold ensureRepoLock. destruct (cf_repoLocks c !! repo) as [l|] eqn:Hr.
  - destruct (cf_heap c !! l) as [k|] eqn:Hl.
    + case_decide; [left; eauto 10|right]. split; [congruence|done].
    + right. split; [congruence|done].
  - right. split; [congruence|done].
Qed.

Lemma count_fresh (P : call → Prop) `{!∀ t, Decision (P t)} c l :
  lock_inv c → cf_next c ≤ l → (∀ t, P t → call_lock t = l) → count P (cf_calls c) = 0.
Proof.
  intros Hinv Hl HP. unfold count.
  assert (filter (λ kv, P kv.2) (cf_calls c) = ∅) as ->; [|apply map_size_empty].
  apply map_empty. intros h. apply map_lookup_filter_None. right. intros t Ht Hp. simpl in Hp.
  destruct (inv_call _ Hinv _ _ Ht) as [k Hk]. apply HP in Hp.
  destruct (inv_lock _ Hinv _ _ Hk) as (_ & _ & Hlt). lia.
Qed.

Lemma lock_inv_begin c h repo n p :
  lock_inv c → cf_calls c !! h = None → p ≠ Holding →
  lock_inv (set_call h (mkCall repo (ensureRepoLock repo n c).1 p) (ensureRepoLock repo n c).2).
Proof.
  intros Hinv Hh Hp.
  assert (∀ P `{!∀ t, Decision (P t)}, count P (delete h (cf_calls c)) = count P (cf_calls c)) as Hdel.
  { intros P ?. by rewrite delete_id. }
  destruct (ensureRepoLock_cases repo n c)
    as [(l & k & Hr & Hl & Hc & Heq)|[_ Heq]]; rewrite Heq; clear Heq; simpl; split; simpl.
  - intros l' k'. rewrite lookup_alter, !count_insert, !Hdel. intros Hk.
    destruct (decide (l = l')) as [<-|Hne].
    + rewrite Hl in Hk. simplify_eq/=. destruct (inv_lock _ Hinv _ _ Hl) as (? & ? & ?).
      rewrite decide_True, decide_False; [simpl; lia| |done]. by intros [_ ?].
    + destruct (inv_lock _ Hinv _ _ Hk) as (? & ? & ?).
      rewrite !decide_False; [lia| |done]. by intros [? _].
  - intros h' t Ht. apply lookup_alter_is_Some. rewrite lookup_insert in Ht.
    destruct (decide (h = h')); simplify_eq/=; [eauto|by eapply inv_call].
  - intros r l' Hr'. destruct (inv_map _ Hinv _ _ Hr') as (k' & Hk' & Hpos).
    rewrite lookup_alter. case_decide; [|eauto]. subst l'. rewrite Hk'. eexists. split; [done|]. simpl. lia.
  - intros h' t r Ht Hr'. rewrite lookup_insert in Ht.
    destruct (decide (h = h')); simplify_eq/=; [by eapply inv_inj|by eapply inv_owner].
  - apply (inv_inj _ Hinv).
  - intros l' k'. rewrite lookup_insert, !count_insert, !Hdel. intros Hk.
    destruct (decide (cf_next c = l')) as [<-|Hne].
    + simplify_eq/=. rewrite (count_fresh (refers _) _ _ Hinv (reflexivity _)) by done.
      rewrite (count_fresh (holds _) _ _ Hinv (reflexivity _)) by by intros ? [? _].
      rewrite decide_True, decide_False; [lia| |done]. by intros [_ ?].
    + destruct (inv_lock _ Hinv _ _ Hk) as (? & ? & ?).
      rewrite !decide_False; [lia| |done]. by intros [? _].
  - intros h' t Ht. rewrite lookup_insert in Ht. rewrite lookup_insert_is_Some'.
    destruct (decide (h = h')); simplify_eq/=; [by left|right; by eapply inv_call].
  - intros r l' Hr'. rewrite lookup_insert in Hr'. rewrite lookup_insert.
    destruct (decide (repo = r)); simplify_eq/=.
    + rewrite decide_True by done. eexists. split; [done|]. simpl. lia.
    + destruct (inv_map _ Hinv _ _ Hr') as (k' & Hk' & Hpos).
      destruct (inv_lock _ Hinv _ _ Hk') as (_ & _ & Hlt). rewrite decide_False by lia. eauto.
  - intros h' t r Ht Hr'. rewrite lookup_insert in Ht. rewrite lookup_insert in Hr'.
    destruct (decide (h = h')); simplify_eq/=.
    + destruct (decide (repo = r)); [done|]. exfalso.
      destruct (inv_map _ Hinv _ _ Hr') as (k' & Hk' & _).
      destruct (inv_lock _ Hinv _ _ Hk') as (_ & _ & Hlt). lia.
    + destruct (decide (repo = r)); simplify_eq/=; [|by eapply inv_owner].
      destruct (inv_call _ Hinv _ _ Ht) as [k' Hk'].
      destruct (inv_lock _ Hinv _ _ Hk') as (_ & _ & Hlt). lia.
  - intros r1 r2 l' H1 H2. rewrite lookup_insert in H1. rewrite lookup_insert in H2.
    assert (∀ r, cf_repoLocks c !! r ≠ Some (cf_next c)) as Hfresh.
    { intros r Hr. destruct (inv_map _ Hinv _ _ Hr) as (k' & Hk' & _).
      destruct (inv_lock _ Hinv _ _ Hk') as (_ & _ & Hlt). lia. }
    destruct (decide (repo = r1)), (decide (repo = r2)); simplify_eq/=; try done.
    + by apply Hfresh in H2.
    + by apply Hfresh in H1.
    + by eapply inv_inj.
Qed.

(** A call gives its reference back. *)
Lemma lock_inv_leave c h repo l :
  lock_inv c → cf_calls c !! h = Some (mkCall repo l Leaving) →
  lock_inv (end_call h (releaseRepoLock repo l c)).
Proof.
  intros Hinv Hh. destruct (inv_call _ Hinv _ _ Hh) as [k Hk]. simpl in Hk.
  destruct (inv_lock _ Hinv _ _ Hk) as (Hrefs & Hperm & Hlt).
  rewrite (count_lookup _ _ _ _ Hh) in Hrefs. rewrite (count_lookup _ _ _ _ Hh) in Hperm.
  rewrite decide_True in Hrefs by done. rewrite decide_False in Hperm by by intros [_ ?].
  set (m' := cf_repoLocks (releaseRepoLock repo l c)).
  assert (∀ r l', m' !! r = Some l' → cf_repoLocks c !! r = Some l' ∧ (l' = l → 1 < lk_refs k)) as Hm.
  { intros r l'. unfold m', releaseRepoLock. simpl. rewrite lookup_alter_eq, Hk. simpl.
    case_bool_decide as H0; simpl.
    - case_bool_decide as Hrl.
      + intros [Hne Hr]%lookup_delete_Some. split; [done|]. intros ->.
        exfalso. apply Hne. by eapply inv_inj.
      + intros Hr. split; [done|]. intros ->. exfalso. apply Hrl.
        pose proof (inv_owner _ Hinv _ _ _ Hh Hr) as Ho. simpl in Ho. by subst r.
    - intros Hr. split; [done|]. intros ->. lia. }
  split; simpl.
  - intros l' k'. rewrite lookup_alter. destruct (decide (l = l')) as [<-|Hne].
    + rewrite Hk. intros [= <-]. simpl. split_and!; lia.
    + intros Hk'. destruct (inv_lock _ Hinv _ _ Hk') as (H1 & H2 & ?).
      rewrite (count_lookup _ _ _ _ Hh) in H1. rewrite (count_lookup _ _ _ _ Hh) in H2.
      rewrite decide_False in H1 by done. rewrite decide_False in H2 by by intros [? _].
      split_and!; lia.
  - intros h' t [_ Ht]%lookup_delete_Some. apply lookup_alter_is_Some. by eapply inv_call.
  - intros r l' Hr. apply Hm in Hr as [Hr Hl]. destruct (inv_map _ Hinv _ _ Hr) as (k' & Hk' & Hpos).
    rewrite lookup_alter. destruct (decide (l = l')) as [<-|Hne]; [|eauto].
    rewrite Hk. eexists. split; [done|]. specialize (Hl eq_refl). simpl. lia.
  - intros h' t r [_ Ht]%lookup_delete_Some [Hr _]%Hm. by eapply inv_owner.
  - intros r1 r2 l' [H1 _]%Hm [H2 _]%Hm. by eapply inv_inj.
Qed.

Lemma on_lock_id l c : on_lock id l c = c.
Proof.
  destruct c as [hp ? ? ?]. unfold on_lock. simpl. f_equal. apply map_eq. intros i.
  rewrite lookup_alter. case_decide; [subst|done]. by destruct (hp !! i).
Qed.

Lemma lock_inv_exec c a c' : lock_inv c → exec c a = Some c' → lock_inv c'.
Proof.
  intros Hinv Hex. destruct a as [h repo n|h repo n|h|h|h|h|h]; simpl in Hex.
  1, 2: unfold begin_call in Hex; destruct (cf_calls c !! h) eqn:Hh; [done|];
    destruct (ensureRepoLock repo (Z.to_nat (normalizePermits n)) c) as [l c1] eqn:E;
    simplify_eq; pose proof (lock_inv_begin c h repo (Z.to_nat (normalizePermits n))) as Hb;
    rewrite E in Hb; by apply Hb.
  all: destruct (cf_calls c !! h) as [[repo l []]|] eqn:Hh; try done.
  - case_decide as Hz; simplify_eq. eapply (lock_inv_phase _ _ _ _ Waiting); try done.
    intros k Hk. unfold permits_of in Hz. rewrite Hk in Hz. simpl. lia.
  - simplify_eq. rewrite <-(on_lock_id l c) at 1. by eapply (lock_inv_phase _ _ _ _ Waiting).
  - case_decide as Hz; simplify_eq.
    + rewrite <-(on_lock_id l c) at 1. by eapply (lock_inv_phase _ _ _ _ Trying).
    + eapply (lock_inv_phase _ _ _ _ Trying); try done.
      intros k Hk. unfold permits_of in Hz. rewrite Hk in Hz. simpl. lia.
  - simplify_eq. eapply (lock_inv_phase _ _ _ _ Holding); try done.
    intros k Hk. simpl. lia.
  - simplify_eq. by apply lock_inv_leave.
Qed.

(** ** Runs in which every caller asks for the same width *)

Definition width_is (n : Z) (a : action) : Prop :=
  match a with
  | ALock _ _ m | ATry _ _ m => normalizePermits m = normalizePermits n
  | _ => True
  end.

Definition any_action (a : action) : Prop := True.

Record uniform_inv (width : nat) (c : config) : Prop := {
  uni_lock : lock_inv c;
  uni_cap l k : cf_heap c !! l = Some k → lk_cap k = width;
  uni_map h t : cf_calls c !! h = Some t → cf_repoLocks c !! call_repo t = Some (call_lock t);
}.

Lemma uniform_inv_initial width : uniform_inv width initial.
Proof.
  split; [apply lock_inv_initial| |]; simpl.
  - intros l k Hl. by rewrite lookup_empty in Hl.
  - intros h t Hh. by rewrite lookup_empty in Hh.
Qed.

Lemma uniform_phase width c h repo l p p' f :
  uniform_inv width c → cf_calls c !! h = Some (mkCall repo l p) →
  (∀ k, lk_cap (f k) = lk_cap k) →
  lock_inv (set_call h (mkCall repo l p') (on_lock f l c)) →
  uniform_inv width (set_call h (mkCall repo l p') (on_lock f l c)).
Proof.
  intros Hu Hh Hf Hl. split; [done| |]; simpl.
  - intros l' k. rewrite lookup_alter. case_decide; [|by apply (uni_cap _ _ Hu)].
    intros (k0 & H0 & ->)%fmap_Some. rewrite Hf. by eapply uni_cap.
  - intros h' t Ht. rewrite lookup_insert in Ht.
    case_decide; simplify_eq/=; [apply (uni_map _ _ Hu _ _ Hh)|by eapply uni_map].
Qed.

Lemma uniform_begin width c h repo n p :
  uniform_inv width c → n = width → cf_calls c !! h = None →
  let c' := set_call h (mkCall repo (ensureRepoLock repo n c).1 p) (ensureRepoLock repo n c).2 in
  lock_inv c' → uniform_inv width c'.
Proof.
  intros Hu -> Hh c' Hl. split; [done| |]; unfold c';
    destruct (ensureRepoLock_cases repo width c) as [(l & k & Hr & Hk & Hc & ->)|[Hnew ->]]; simpl.
  - intros l' k'. rewrite lookup_alter. case_decide; [|by apply (uni_cap _ _ Hu)].
    intros (k0 & H0 & ->)%fmap_Some. simpl. by eapply uni_cap.
  - intros l' k'. rewrite lookup_insert. case_decide; [by intros [= <-]|by apply (uni_cap _ _ Hu)].
  - intros h' t Ht. rewrite lookup_insert in Ht. case_decide; simplify_eq/=; [done|by eapply uni_map].
  - intros h' t Ht. rewrite lookup_insert in Ht. rewrite lookup_insert.
    destruct (decide (h = h')); simplify_eq/=; [by rewrite decide_True|].
    rewrite decide_False; [by eapply uni_map|]. intros ->.
    pose proof (uni_map _ _ Hu _ _ Ht) as Hm.
    destruct (inv_call _ (uni_lock _ _ Hu) _ _ Ht) as [k Hk].
    by eapply Hnew; [exact Hm|exact Hk|eapply uni_cap].
Qed.

Lemma uniform_leave width c h repo l :
  uniform_inv width c → cf_calls c !! h = Some (mkCall repo l Leaving) →
  uniform_inv width (end_call h (releaseRepoLock repo l c)).
Proof.
  intros Hu Hh. pose proof (uni_lock _ _ Hu) as Hinv.
  split; [by apply lock_inv_leave| |]; simpl.
  - intros l' k. rewrite lookup_alter. case_decide; [|by apply (uni_cap _ _ Hu)].
    intros (k0 & H0 & ->)%fmap_Some. simpl. by eapply uni_cap.
  - intros h' t [Hne Ht]%lookup_delete_Some. pose proof (uni_map _ _ Hu _ _ Ht) as Hm.
    destruct (inv_call _ Hinv _ _ Hh) as [k Hk]. simpl in Hk.
    rewrite lookup_alter_eq, Hk. simpl.
    case_bool_decide as Hz; simpl; [|done]. case_bool_decide as Hrl; [|done].
    rewrite lookup_delete_ne; [done|]. intros ->.
    destruct (inv_lock _ Hinv _ _ Hk) as (Hrefs & _ & _).
    rewrite (count_lookup _ _ _ _ Hh) in Hrefs. rewrite decide_True in Hrefs by done.
    assert (1 ≤ count (refers l) (delete h (cf_calls c))); [|lia].
    eapply (count_pos _ h' t); [by rewrite lookup_delete_ne|]. unfold refers. congruence.
Qed.

Lemma uniform_exec n c a c' :
  uniform_inv (Z.to_nat (normalizePermits n)) c → width_is n a → exec c a = Some c' →
  uniform_inv (Z.to_nat (normalizePermits n)) c'.
Proof.
  intros Hu Hw Hex. pose proof (lock_inv_exec _ _ _ (uni_lock _ _ Hu) Hex) as Hinv'.
  destruct a as [h repo m|h repo m|h|h|h|h|h]; simpl in Hex, Hw.
  1, 2: unfold begin_call in Hex; destruct (cf_calls c !! h) eqn:Hh; [done|];
    rewrite Hw in Hex; destruct (ensureRepoLock _ _ _) as [l c1] eqn:E; simplify_eq;
    pose proof (uniform_begin (Z.to_nat (normalizePermits n)) c h repo
                  (Z.to_nat (normalizePermits n))) as Hb;
    rewrite E in Hb; by apply Hb.
  all: destruct (cf_calls c !! h) as [[repo l []]|] eqn:Hh; try done.
  - case_decide; simplify_eq. by eapply uniform_phase.
  - simplify_eq. rewrite <-(on_lock_id l c) in Hinv' |- *. by eapply uniform_phase.
  - case_decide; simplify_eq; [rewrite <-(on_lock_id l c) in Hinv' |- *|]; by eapply uniform_phase.
  - simplify_eq. by eapply uniform_phase.
  - simplify_eq. by apply uniform_leave.
Qed.

Lemma run_invariant (P : action → Prop) (I : config → Prop) c c' :
  (∀ c a c', I c → P a → exec c a = Some c' → I c') → I c → run P c c' → I c'.
Proof. intros Hstep Hc Hrun. induction Hrun as [|? ? ? [a ? ?] ? IH]; eauto. Qed.

Lemma run_lock_inv P c : run P initial c → lock_inv c.
Proof.
  apply run_invariant; [|apply lock_inv_initial]. intros ? ? ? ? _. by eapply lock_inv_exec.
Qed.

Lemma run_uniform n c :
  run (width_is n) initial c → uniform_inv (Z.to_nat (normalizePermits n)) c.
Proof.
  apply run_invariant; [|apply uniform_inv_initial]. intros ? ? ? ?. by apply uniform_exec.
Qed.

Lemma holders_bound width repo c : uniform_inv width c → holders repo c ≤ width.
Proof.
  intros Hu. unfold holders.
  destruct (decide (count (owns repo) (cf_calls c) = 0)) as [->|Hne]; [lia|].
  assert (∃ h t, cf_calls c !! h = Some t ∧ owns repo t) as (h & t & Ht & Hr & _).
  { unfold count in Hne. rewrite map_size_ne_0_lookup in Hne. destruct Hne as [h [t Ht]].
    apply map_lookup_filter_Some in Ht as [? ?]. eauto. }
  pose proof (uni_map _ _ Hu _ _ Ht) as Hm.
  destruct (inv_call _ (uni_lock _ _ Hu) _ _ Ht) as [k Hk].
  destruct (inv_lock _ (uni_lock _ _ Hu) _ _ Hk) as (_ & Hperm & _).
  rewrite (uni_cap _ _ Hu _ _ Hk) in Hperm.
  assert (count (owns repo) (cf_calls c) ≤ count (holds (call_lock t)) (cf_calls c)); [|lia].
  apply count_mono. intros h' t' Ht' [Hr' Hp]. split; [|done].
  pose proof (uni_map _ _ Hu _ _ Ht') as Hm'. congruence.
Qed.

(** ** Properties *)

(** C35: as long as every caller asks for the same number of permits [n], at most
    [n] calls (at least one, when [n < 1]) own a permit for a repository at any
    moment of any interleaving of locking, cancellation and release; with
    [n = 1] this is mutual exclusion. *)
Theorem semaphore_capacity n repo c :
  run (width_is n) initial c → (holders repo c ≤ Z.to_nat (normalizePermits n))%nat.
Proof. intros Hrun. by apply holders_bound, run_uniform. Qed.

(** No permit is ever lost, whatever the widths requested: a call waiting
    for a permit can take one exactly when fewer calls than the capacity own a
    permit of the lock it waits on, cancellations and failed attempts
    included. *)
Theorem waiting_call_enabled c h repo l :
  run any_action initial c → cf_calls c !! h = Some (mkCall repo l Waiting) →
  ∃ k, cf_heap c !! l = Some k ∧
    (is_Some (exec c (AAcquire h)) ↔ (count (holds l) (cf_calls c) < lk_cap k)%nat).
Proof.
  intros Hrun Hh. pose proof (run_lock_inv _ _ Hrun) as Hinv.
  destruct (inv_call _ Hinv _ _ Hh) as [k Hk]. simpl in Hk. exists k. split; [done|].
  destruct (inv_lock _ Hinv _ _ Hk) as (_ & Hperm & _).
  simpl. rewrite Hh. unfold permits_of. rewrite Hk. case_decide as Hz.
  - split; [by intros [? ?]|]. lia.
  - split; [lia|]. eauto.
Qed.

(** Lock objects do not leak: whenever no call is in progress the map of
    repository locks is empty, and a call whose permit was refused or cancelled
    leaves through the same release as one that succeeded. *)
Theorem repoLocks_empty_when_idle c :
  run any_action initial c → cf_calls c = ∅ → cf_repoLocks c = ∅.
Proof.
  intros Hrun Hidle. pose proof (run_lock_inv _ _ Hrun) as Hinv.
  apply map_empty. intros repo. destruct (cf_repoLocks c !! repo) as [l|] eqn:Hr; [|done].
  destruct (inv_map _ Hinv _ _ Hr) as (k & Hk & Hpos).
  destruct (inv_lock _ Hinv _ _ Hk) as (Hrefs & _ & _).
  rewrite Hidle, count_empty in Hrefs. lia.
Qed.

(** *** Two nested acquisitions by one request

    [checkHandler] keeps a slot obtained with [TryLockRepoN(repo, n)] for the
    whole check ([defer releaseSlot()]); a cold C# check then calls
    [LockRepo(ctx, repo)], that is width 1, on the same repository. *)

Lemma holding_stays c a c' h repo l :
  cf_calls c !! h = Some (mkCall repo l Holding) → a ≠ ARelease h → exec c a = Some c' →
  cf_calls c' !! h = Some (mkCall repo l Holding).
Proof.
  intros Hh Hne Hex. destruct a as [h' r n|h' r n|h'|h'|h'|h'|h']; simpl in Hex.
  1, 2: unfold begin_call in Hex; destruct (cf_calls c !! h') eqn:Hh'; [done|];
    pose proof (ensureRepoLock_calls r (Z.to_nat (normalizePermits n)) c) as Hc;
    destruct (ensureRepoLock _ _ _) as [l' c1]; simplify_eq/=;
    rewrite lookup_insert_ne by congruence; congruence.
  all: destruct (cf_calls c !! h') as [[r l' []]|] eqn:Hh'; try done;
    try case_decide; simplify_eq/=; first [rewrite lookup_insert_ne by congruence
                                          |rewrite lookup_delete_ne by congruence]; done.
Qed.

(** With a concurrency cap of one, the slot [checkHandler] holds and the
    lock a cold C# check then asks for are the same single permit: as long as
    the slot is not released, which only happens after the check has returned,
    the inner [LockRepo] can never be granted, so such a check can only end by
    cancellation of its request. *)
Theorem nested_lock_starves_at_cap_one c c' slot inner repo l :
  run (width_is 1) initial c →
  cf_calls c !! slot = Some (mkCall repo l Holding) → slot ≠ inner →
  run (λ a, width_is 1 a ∧ a ≠ ARelease slot) c c' →
  ∀ l', cf_calls c' !! inner ≠ Some (mkCall repo l' Holding).
Proof.
  intros Hrun Hslot Hne Hrun' l' Hinner.
  assert (uniform_inv 1 c' ∧ cf_calls c' !! slot = Some (mkCall repo l Holding)) as [Hu Hslot'].
  { eapply (run_invariant _ (λ c, uniform_inv 1 c ∧
             cf_calls c !! slot = Some (mkCall repo l Holding)) c c'); [| |exact Hrun'].
    - simpl. intros c1 a c2 [Hu H1] [Hw Hr] Hex. split; [by apply (uniform_exec 1 c1 a)|].
      by eapply holding_stays.
    - split; [by apply (run_uniform 1)|done]. }
  pose proof (holders_bound 1 repo c' Hu) as Hb. unfold holders in Hb.
  rewrite (count_lookup _ _ _ _ Hslot'), decide_True in Hb by done.
  assert (1 ≤ count (owns repo) (delete slot (cf_calls c'))); [|lia].
  eapply (count_pos _ inner); [by rewrite lookup_delete_ne|]. done.
Qed.

(** The actions of a server whose cap is [n]: slots of width [n], inner locks of
    width 1. *)
Definition server_action (n : Z) (a : action) : Prop :=
  match a with
  | ATry _ _ m => m = n
  | ALock _ _ m => m = 1%Z
  | _ => True
  end.

(** With a cap of two, a cold C# check lets three requests hold a slot of
    the same repository at once: asking for a lock of another width replaces the
    repository's semaphore by a fresh one whose permits are all available. *)
Theorem mixed_widths_exceed_cap :
  ∃ c, run (server_action 2) initial c ∧
    (∀ h, h ∈ [0; 2; 3] → ∃ l k, cf_calls c !! h = Some (mkCall "repo" l Holding) ∧
       cf_heap c !! l = Some k ∧ lk_cap k = 2).
Proof.
  set (acts := [ATry 0 "repo" 2; ATryReceive 0; ALock 1 "repo" 1; AAcquire 1;
                ATry 2 "repo" 2; ATryReceive 2; ATry 3 "repo" 2; ATryReceive 3]).
  destruct (execs initial acts) as [c|] eqn:E; [|by vm_compute in E].
  exists c. split.
  - eapply execs_run; [|exact E]. repeat constructor.
  - vm_compute in E. injection E as <-. intros h Hh. set_unfold.
    destruct Hh as [->|[->|[->|[]]]]; do 2 eexists; split_and!; vm_compute; reflexivity.
Qed.

(** ** Witnesses *)

Definition two_readers : list action :=
  [ATry 0 "repo" 2; ATryReceive 0; ATry 1 "repo" 2; ATryReceive 1; ALock 2 "repo" 2].

Lemma semaphore_capacity_witness :
  ∃ c, execs initial two_readers = Some c ∧ (holders "repo" c ≤ 2)%nat.
Proof.
  destruct (execs initial two_readers) as [c|] eqn:E; [|by vm_compute in E].
  exists c. split; [done|].
  apply (semaphore_capacity 2 "repo" c). eapply execs_run; [|exact E]. repeat constructor.
Defined.

Lemma waiting_call_enabled_witness :
  ∃ c k, execs initial two_readers = Some c ∧
    (is_Some (exec c (AAcquire 2)) ↔ (count (holds 0) (cf_calls c) < lk_cap k)%nat).
Proof.
  destruct (execs initial two_readers) as [c|] eqn:E; [|by vm_compute in E].
  destruct (waiting_call_enabled c 2 "repo" 0) as (k & _ & H).
  - eapply execs_run; [|exact E]. repeat constructor.
  - vm_compute in E. injection E as <-. reflexivity.
  - exists c, k. split; [done|exact H].
Defined.

Lemma repoLocks_empty_when_idle_witness :
  ∃ c, execs initial [ALock 0 "repo" 1; AAcquire 0; ARelease 0; ALeave 0] = Some c ∧
    cf_repoLocks c = ∅.
Proof.
  destruct (execs initial [ALock 0 "repo" 1; AAcquire 0; ARelease 0; ALeave 0]) as [c|] eqn:E;
    [|by vm_compute in E].
  exists c. split; [done|]. apply repoLocks_empty_when_idle.
  - eapply execs_run; [|exact E]. repeat constructor.
  - vm_compute in E. injection E as <-. reflexivity.
Defined.

Lemma nested_lock_starves_at_cap_one_witness :
  ∃ c, execs initial [ATry 0 "repo" 1; ATryReceive 0; ALock 1 "repo" 1] = Some c ∧
    ∀ l', cf_calls c !! 1 ≠ Some (mkCall "repo" l' Holding).
Proof.
  destruct (execs initial [ATry 0 "repo" 1; ATryReceive 0; ALock 1 "repo" 1]) as [c|] eqn:E;
    [|by vm_compute in E].
  exists c. split; [done|].
  apply (nested_lock_starves_at_cap_one c c 0 1 "repo" 0).
  - eapply execs_run; [|exact E]. repeat constructor.
  - vm_compute in E. injection E as <-. reflexivity.
  - discriminate.
  - reflexivity.
Defined.
