(* ===== verification/RateLimit.v ===== *)
(** * Rate limiter

    [internal/server/ratelimit.go]: a per-caller fixed-window counter.  Times are
    nanoseconds; [Time.Sub] saturates to the range of [time.Duration] (int64).
    [Allow] runs under the limiter's mutex and is one atomic function. *)

From stdpp Require Import base gmap strings list fin_maps.
From Stdlib Require Import ZArith Lia.
From S2P Require Import Prelude.
Set Default Goal Selector "!".

Definition max_duration : Z := 2 ^ 63 - 1.
Definition min_duration : Z := - 2 ^ 63.

(** [t.Sub(u)]. *)
Definition time_sub (t u : Z) : Z := Z.max min_duration (Z.min max_duration (t - u)).

Record callerWindow := mkWindow { win_count : Z; win_start : Z }.

Record fixedWindowRateLimiter := mkLimiter {
  lim_limit : Z;
  lim_windowSize : Z;
  lim_windows : gmap string callerWindow;
}.

Definition NewFixedWindowRateLimiter (limit windowSize : Z) : fixedWindowRateLimiter :=
  mkLimiter limit windowSize ∅.

Definition set_window (caller : string) (w : callerWindow) (l : fixedWindowRateLimiter) :
  fixedWindowRateLimiter :=
  mkLimiter (lim_limit l) (lim_windowSize l) (<[caller := w]> (lim_windows l)).

(** [Allow], with the reading of [nowFunc] as an argument. *)
Definition Allow (now : Z) (caller : string) (l : fixedWindowRateLimiter) :
  bool * fixedWindowRateLimiter :=
  let fresh := (true, set_window caller (mkWindow 1 now) l) in
  match lim_windows l !! caller with
  | None => fresh
  | Some w =>
      if (lim_windowSize l <=? time_sub now (win_start w))%Z then fresh
      else if (lim_limit l <=? win_count w)%Z then (false, l)
      else (true, set_window caller (mkWindow (win_count w + 1) (win_start w)) l)
  end.

(** ** Traces *)

(** The decisions on a sequence of requests [(now, caller)], in order. *)
Fixpoint decisions (l : fixedWindowRateLimiter) (es : list (Z * string)) : list bool :=
  match es with
  | [] => []
  | (now, caller) :: es' => let '(b, l') := Allow now caller l in b :: decisions l' es'
  end.

(** How many requests of [caller] in the trace are allowed. *)
Fixpoint allowed (caller : string) (l : fixedWindowRateLimiter) (es : list (Z * string)) : Z :=
  match es with
  | [] => 0
  | (now, c) :: es' =>
      let '(b, l') := Allow now c l in
      (if b && bool_decide (c = caller) then 1 else 0) + allowed caller l' es'
  end%Z.

Definition budget (l : fixedWindowRateLimiter) : Z := Z.max 1 (lim_limit l).

(** Counters stay between one and the budget. *)
Definition limiter_wf (l : fixedWindowRateLimiter) : Prop :=
  (lim_windowSize l ≤ max_duration)%Z ∧
  ∀ c w, lim_windows l !! c = Some w → (1 ≤ win_count w ≤ budget l)%Z.

Lemma time_sub_ge w t u :
  (w ≤ max_duration)%Z → (min_duration < w)%Z → (w <=? time_sub t u)%Z = (w <=? t - u)%Z.
Proof. intros. unfold time_sub, max_duration, min_duration in *. lia. Qed.

Lemma Allow_params now c l b l' :
  Allow now c l = (b, l') →
  lim_limit l' = lim_limit l ∧ lim_windowSize l' = lim_windowSize l ∧
  ∀ c', c' ≠ c → lim_windows l' !! c' = lim_windows l !! c'.
Proof.
  unfold Allow. intros H. repeat case_match; simplify_eq/=; split_and!; try done;
    intros; by rewrite lookup_insert_ne.
Qed.

Lemma Allow_wf now c l : limiter_wf l → limiter_wf (Allow now c l).2.
Proof.
  intros [HW Hwf]. unfold Allow.
  destruct (lim_windows l !! c) as [w|] eqn:Hw; [pose proof (Hwf _ _ Hw) as Hc;
    destruct (Z.leb_spec (lim_windowSize l) (time_sub now (win_start w)));
    [|destruct (Z.leb_spec (lim_limit l) (win_count w)); [done|]]|].
  all: split; [done|]; intros c' w'; simpl; rewrite lookup_insert; unfold budget in *; simpl;
    case_decide; [intros [= <-]; simpl; lia|apply Hwf].
Qed.

(** Requests that all fall before [stop] find the window opened at [start]
    still current when [stop <= start + windowSize]. *)
Lemma allowed_in_window caller l es w stop :
  limiter_wf l → (0 < lim_windowSize l)%Z → lim_windows l !! caller = Some w →
  (stop ≤ win_start w + lim_windowSize l)%Z → Forall (λ e, e.1 < stop)%Z es →
  (allowed caller l es ≤ budget l - win_count w)%Z.
Proof.
  intros Hwf HW Hw Hstop Hes. revert l w Hwf HW Hw Hstop.
  induction Hes as [|[now c] es He Hes IH]; intros l w Hwf HW Hw Hstop; simpl.
  { destruct Hwf as [_ Hwf]. specialize (Hwf _ _ Hw). lia. }
  pose proof (Allow_wf now c l Hwf) as Hwf'. pose proof Hwf as [Hmax Hcnt].
  specialize (Hcnt _ _ Hw). simpl in He.
  destruct (decide (c = caller)) as [->|Hne].
  - rewrite bool_decide_true by done. unfold Allow in *. rewrite Hw in *.
    rewrite time_sub_ge in * by (done || (unfold min_duration; lia)).
    destruct (Z.leb_spec (lim_windowSize l) (now - win_start w)); [lia|].
    destruct (Z.leb_spec (lim_limit l) (win_count w)); simpl in *.
    + by apply IH.
    + pose proof (IH (set_window caller (mkWindow (win_count w + 1) (win_start w)) l)
        (mkWindow (win_count w + 1) (win_start w)) Hwf' HW (lookup_insert_eq _ _ _) Hstop) as IH'.
      unfold budget in *. simpl in *. lia.
  - rewrite bool_decide_false by done. destruct (Allow now c l) as [b l'] eqn:Ha.
    apply Allow_params in Ha as (Hlim & HWs & Hother). rewrite andb_false_r.
    simpl in *. rewrite <-(Hother caller) in Hw by congruence.
    pose proof (IH l' w Hwf' ltac:(lia) Hw ltac:(lia)) as IH'.
    unfold budget in *. lia.
Qed.

(** What is still left of the window open at the start of an interval. *)
Definition leftover (caller : string) (l : fixedWindowRateLimiter) : Z :=
  match lim_windows l !! caller with Some w => budget l - win_count w | None => 0 end.

(** Requests in an interval shorter than a window: what is left of the current
    window, then one fresh window. *)
Lemma allowed_in_interval caller l es t :
  limiter_wf l → (0 < lim_windowSize l)%Z →
  Forall (λ e, t ≤ e.1 < t + lim_windowSize l)%Z es →
  (allowed caller l es ≤ leftover caller l + budget l)%Z.
Proof.
  intros Hwf HW. remember (lim_windowSize l) as W eqn:EW. intros Hes. revert l Hwf EW.
  induction Hes as [|[now c] es He Hes IH]; intros l Hwf EW; simpl.
  { unfold leftover. destruct (lim_windows l !! caller) as [w|] eqn:Hw.
    - destruct Hwf as [_ Hwf]. specialize (Hwf _ _ Hw). unfold budget in *. lia.
    - unfold budget. lia. }
  simpl in He. pose proof (Allow_wf now c l Hwf) as Hwf'.
  destruct (Allow now c l) as [b l'] eqn:Ha. simpl in *.
  pose proof (Allow_params _ _ _ _ _ Ha) as (Hlim & HWs & Hother).
  destruct (decide (c = caller)) as [->|Hne].
  - assert (b = true → (∃ w, lim_windows l !! caller = Some w ∧ lim_windows l' !! caller
        = Some (mkWindow (win_count w + 1) (win_start w))) ∨
      lim_windows l' !! caller = Some (mkWindow 1 now)) as Hcase.
    { unfold Allow in Ha. repeat case_match; simplify_eq/=; intros; try done;
        rewrite lookup_insert_eq; eauto. }
    destruct b; simpl.
    + rewrite bool_decide_true by done. destruct (Hcase eq_refl) as [(w & Hw & Hw')|Hw'].
      * specialize (IH l' Hwf' ltac:(congruence)). unfold leftover, budget in *.
        rewrite Hw' in IH. rewrite Hw, Hlim in *. simpl in IH. lia.
      * assert (Forall (λ e : Z * string, e.1 < t + W)%Z es) as Hes'.
        { eapply Forall_impl; [exact Hes|]. simpl. lia. }
        pose proof (allowed_in_window caller l' es _ (t + W) Hwf' ltac:(lia) Hw'
                      ltac:(simpl; lia) Hes') as Hin. simpl in Hin.
        unfold leftover, budget in *. destruct (lim_windows l !! caller) as [w|] eqn:Hw; [|lia].
        destruct Hwf as [_ Hwf]. specialize (Hwf _ _ Hw). unfold budget in *. lia.
    + assert (l' = l) as -> by (unfold Allow in Ha; repeat case_match; by simplify_eq/=).
      by apply IH.
  - rewrite bool_decide_false by done. rewrite andb_false_r. simpl.
    specialize (IH l' Hwf' ltac:(congruence)). unfold leftover, budget in *.
    rewrite Hother, Hlim in IH by congruence. lia.
Qed.

Lemma limiter_wf_New limit W :
  (W ≤ max_duration)%Z → limiter_wf (NewFixedWindowRateLimiter limit W).
Proof. intros HW. split; [done|]. intros c w. simpl. by rewrite lookup_empty. Qed.

Lemma decisions_wf l es : limiter_wf l → limiter_wf (foldl (λ l e, (Allow e.1 e.2 l).2) l es).
Proof.
  revert l. induction es as [|e es IH]; intros l Hl; simpl; [done|]. by apply IH, Allow_wf.
Qed.

(** ** Properties *)

(** The limiter after a sequence of requests. *)
Definition after (limit W : Z) (es : list (Z * string)) : fixedWindowRateLimiter :=
  foldl (λ l e, (Allow e.1 e.2 l).2) (NewFixedWindowRateLimiter limit W) es.

(** After any history, the requests of one caller that fall into an interval
    no longer than the window are allowed at most twice the budget minus one
    (budget: the limit, at least one), and at most the budget when the caller
    has no window open; requests of other callers do not count. *)
Theorem rate_limit_bound limit W history caller es t :
  (0 < W ≤ max_duration)%Z → Forall (λ e, t ≤ e.1 < t + W)%Z es →
  (allowed caller (after limit W history) es ≤ 2 * Z.max 1 limit - 1)%Z ∧
  (lim_windows (after limit W history) !! caller = None →
   allowed caller (after limit W history) es ≤ Z.max 1 limit)%Z.
Proof.
  intros [HW HWm] Hes.
  assert (limiter_wf (after limit W history)) as Hwf by by apply decisions_wf, limiter_wf_New.
  assert (lim_limit (after limit W history) = limit ∧ lim_windowSize (after limit W history) = W)
    as [Hl Hws].
  { unfold after. induction history as [|e h IH] using rev_ind; [done|].
    rewrite !foldl_snoc.
    destruct (Allow e.1 e.2 (foldl _ _ h)) as [b l'] eqn:Ha.
    apply Allow_params in Ha as (H1 & H2 & _). simpl. rewrite H1, H2. apply IH.
    by apply decisions_wf, limiter_wf_New. }
  pose proof (allowed_in_interval caller (after limit W history) es t Hwf) as Hb.
  rewrite Hws in Hb. specialize (Hb HW Hes).
  assert (budget (after limit W history) = Z.max 1 limit) as Hbud by (unfold budget; by rewrite Hl).
  rewrite Hbud in Hb. unfold leftover in Hb. split.
  - destruct (lim_windows (after limit W history) !! caller) as [w|] eqn:Hw; [|lia].
    destruct Hwf as [_ Hwf]. specialize (Hwf _ _ Hw). lia.
  - intros Hnone. rewrite Hnone in Hb. lia.
Qed.

(** A caller's first request in a window is allowed whatever the limit is,
    so a limit of zero or less admits one request per window; from then on a
    request is refused exactly when the window still runs and its counter has
    reached the limit, and a refusal changes nothing. *)
Theorem Allow_spec now caller l :
  limiter_wf l → (0 < lim_windowSize l)%Z →
  (Allow now caller l).1 =
    match lim_windows l !! caller with
    | None => true
    | Some w => (lim_windowSize l <=? now - win_start w) || (win_count w <? lim_limit l)
    end%Z ∧
  ((Allow now caller l).1 = false → (Allow now caller l).2 = l) ∧
  (∀ other, other ≠ caller →
     lim_windows (Allow now caller l).2 !! other = lim_windows l !! other).
Proof.
  intros [HWm Hwf] HW. split_and!.
  - unfold Allow. destruct (lim_windows l !! caller) as [w|]; [|done].
    rewrite time_sub_ge by (done || (unfold min_duration; lia)).
    destruct (Z.leb_spec (lim_windowSize l) (now - win_start w)); [done|].
    destruct (Z.leb_spec (lim_limit l) (win_count w)), (Z.ltb_spec (win_count w) (lim_limit l)); lia || done.
  - unfold Allow. by repeat case_match.
  - intros other Ho. destruct (Allow now caller l) as [b l'] eqn:Ha.
    apply Allow_params in Ha as (_ & _ & Hother). by apply Hother.
Qed.

(** ** Witnesses *)

(** A limit of two per minute lets three requests of one caller through within
    one minute that straddles two windows. *)
Lemma rate_limit_bound_witness :
  allowed "a" (after 2 60 [(0, "a")])%Z [(59, "a"); (60, "a"); (61, "a"); (62, "a")]%Z = 3%Z ∧
  (allowed "a" (after 2 60 [(0, "a")]) [(59, "a"); (60, "a"); (61, "a"); (62, "a")] ≤ 3)%Z.
Proof.
  split; [vm_compute; reflexivity|].
  apply (rate_limit_bound 2 60 [(0, "a")]%Z "a" [(59, "a"); (60, "a"); (61, "a"); (62, "a")]%Z 59).
  - unfold max_duration. lia.
  - repeat constructor; simpl; lia.
Defined.

Lemma Allow_spec_witness :
  (Allow 5 "a" (after 0 60 [])).1 = true ∧ (Allow 6 "a" (after 0 60 [(5%Z, "a")])).1 = false.
Proof.
  split.
  - rewrite (proj1 (Allow_spec 5 "a" (after 0 60 []) (limiter_wf_New 0 60 ltac:(vm_compute; discriminate)) ltac:(reflexivity))).
    reflexivity.
  - vm_compute. reflexivity.
Defined.
