(* ===== verification/RepoName.v ===== *)
(** * Repository names

    The name functions of [internal/server/config.go] and
    [validateRegisterRepoName] of [internal/server/register.go]: how a bare name
    or a repository path becomes the key under which configuration,
    authorization and violations are kept. *)

From stdpp Require Import base gmap strings list.
From Stdlib Require Import ZArith Lia Ascii.
From S2P Require Import Prelude GoStrings GoErrors.
Set Default Goal Selector "!".

Definition isLowercaseLetter (r : Z) : bool := ((97 <=? r) && (r <=? 122))%Z.

(** The character class [a-z0-9_-]. *)
Definition name_char (r : Z) : bool :=
  (isLowercaseLetter r || ((48 <=? r) && (r <=? 57)) || (r =? 95) || (r =? 45))%Z.

(** [repoNamePattern.MatchString]: a lower-case letter, then at most 63 name
    characters. *)
Definition repoNamePattern (s : string) : bool :=
  match bytes s with
  | [] => false
  | a :: l => isLowercaseLetter (byte_val a) && forallb (λ b, name_char (byte_val b)) l
              && (length l <=? 63)%nat
  end.

(** [invalidNameCharPattern.ReplaceAllString(s, "-")]: every rune outside the
    class, and every invalid byte, becomes a hyphen. *)
Definition replace_invalid (s : string) : string :=
  of_bytes ((λ p : Z * list ascii, if name_char p.1 then byte_of p.1 else "-"%char) <$> segments s).

Section names.
Context {U : UnicodeTables}.

Definition validateRepoName (repo : string) : result goerror string :=
  if String.eqb repo "" || contains_byte repo "000"%char
  then Err (inputError "invalid repository name" None)
  else
    let repoName := to_lower repo in
    if negb (repoNamePattern repoName)
    then Err (inputError "invalid repository name" None)
    else Ok repoName.

Definition extractRepositoryName (repoPath : string) : string :=
  let pathComponent := path_base (trim_right repoPath "/") in
  let normalized := to_lower pathComponent in
  let normalized := replace_invalid normalized in
  let normalized := trim_left normalized "-_" in
  let normalized := if String.eqb normalized "" then "test-repo" else normalized in
  let normalized :=
    match bytes normalized with
    | a :: _ => if negb (isLowercaseLetter (byte_val a)) then "repo-" +:+ normalized else normalized
    | [] => normalized
    end in
  if (64 <? String.length normalized)%nat then str_take 64 normalized else normalized.

Definition canonicalRepoName (repo : string) : result goerror string :=
  match validateRepoName repo with
  | Ok name => Ok name
  | Err _ =>
      if String.eqb repo "" || contains_byte repo "000"%char
      then Err (inputError "invalid repository name" None)
      else match validateRepoName (extractRepositoryName repo) with
           | Ok name => Ok name
           | Err _ => Err (inputError ("invalid repository name: " +:+ repo) None)
           end
  end.

Definition validateRegisterRepoName (repo : string) : result goerror string :=
  match validateRepoName repo with
  | Err err => Err err
  | Ok name =>
      if negb (String.eqb name repo) then Err (inputError "invalid repository name" None)
      else Ok name
  end.
End names.

(** ** Lemmas *)

#[global] Arguments extractRepositoryName : simpl never.
#[global] Arguments validateRepoName : simpl never.
#[global] Arguments to_lower : simpl never.

Definition name_byte (a : ascii) : Prop := name_char (byte_val a) = true.

Lemma name_byte_ascii a : name_byte a → is_ascii a.
Proof.
  unfold name_byte, name_char, isLowercaseLetter, is_ascii. pose proof (byte_val_bound a). lia.
Qed.

Lemma name_byte_lower a : name_byte a → byte_of (ascii_lower (byte_val a)) = a.
Proof.
  intros Ha. rewrite <-(byte_of_val a) at 2. f_equal. revert Ha.
  unfold name_byte, name_char, isLowercaseLetter, ascii_lower.
  destruct (Z.leb_spec 65 (byte_val a)), (Z.leb_spec (byte_val a) 90); simpl; lia.
Qed.

Lemma repoNamePattern_bytes s :
  repoNamePattern s = true ↔
  ∃ a l, bytes s = a :: l ∧ isLowercaseLetter (byte_val a) = true ∧
         Forall name_byte l ∧ (length l ≤ 63)%nat.
Proof.
  unfold repoNamePattern. destruct (bytes s) as [|a l]; [split; [done|naive_solver]|].
  rewrite !andb_true_iff, forallb_forall, Nat.leb_le.
  assert ((∀ x, In x l → name_char (byte_val x) = true) ↔ Forall name_byte l) as ->.
  { rewrite Forall_forall. setoid_rewrite list_elem_of_In. done. }
  naive_solver.
Qed.

Lemma lower_name_byte a : isLowercaseLetter (byte_val a) = true → name_byte a.
Proof. unfold name_byte, name_char. intros ->. done. Qed.

Lemma repoNamePattern_chars s : repoNamePattern s = true → Forall name_byte (bytes s).
Proof.
  rewrite repoNamePattern_bytes. intros (a & l & -> & Ha & Hl & _).
  constructor; [by apply lower_name_byte|done].
Qed.

Lemma repoNamePattern_nonempty s : repoNamePattern s = true → s ≠ "".
Proof. intros H ->. done. Qed.

Lemma name_bytes_no_nul s : Forall name_byte (bytes s) → contains_byte s "000"%char = false.
Proof.
  intros H. apply contains_byte_false. eapply Forall_impl; [exact H|]. by intros a Ha ->.
Qed.

Section lemmas.
Context {U : UnicodeTables} {UL : UnicodeLaws U}.

Lemma to_lower_name s : Forall name_byte (bytes s) → to_lower s = s.
Proof.
  intros Hs. rewrite to_lower_ascii_string.
  - rewrite <-(of_bytes_bytes s) at 2. f_equal. rewrite <-(list_fmap_id (bytes s)) at 2.
    apply list_fmap_ext. intros i a Ha. rewrite Forall_lookup in Hs. by apply name_byte_lower, (Hs i).
  - eapply Forall_impl; [exact Hs|]. apply name_byte_ascii.
Qed.

Lemma validateRepoName_pattern s :
  repoNamePattern s = true → validateRepoName s = Ok s.
Proof.
  intros Hs. pose proof (repoNamePattern_chars _ Hs) as Hc.
  unfold validateRepoName. rewrite name_bytes_no_nul, to_lower_name, Hs by done.
  destruct (String.eqb_spec s "") as [->|_]; [done|]. done.
Qed.

Lemma validateRepoName_ok s n :
  validateRepoName s = Ok n → repoNamePattern n = true ∧ n = to_lower s.
Proof.
  unfold validateRepoName. intros H. destruct (_ || _); [done|].
  destruct (repoNamePattern (to_lower s)) eqn:E; simplify_eq/=. done.
Qed.

Lemma validateRepoName_err s e :
  validateRepoName s = Err e → e = inputError "invalid repository name" None.
Proof. unfold validateRepoName. repeat case_match; congruence. Qed.

Lemma replace_invalid_bytes s : Forall name_byte (bytes (replace_invalid s)).
Proof.
  unfold replace_invalid. rewrite bytes_of_bytes, Forall_fmap. apply Forall_true.
  intros [r bs]. unfold compose, name_byte. simpl. case_match eqn:Hr; [|done].
  rewrite byte_val_of; [done|]. revert Hr. unfold name_char, isLowercaseLetter. lia.
Qed.

Lemma extractRepositoryName_pattern p : repoNamePattern (extractRepositoryName p) = true.
Proof.
  unfold extractRepositoryName.
  set (n1 := trim_left _ "-_"). set (n2 := if String.eqb n1 "" then _ else _).
  set (n3 := match bytes n2 with [] => _ | a :: _ => _ end).
  assert (Forall name_byte (bytes n2)) as H2.
  { unfold n2. case_match; [by apply (bool_decide_unpack _); vm_compute|].
    unfold n1, trim_left. rewrite bytes_of_bytes. apply Forall_drop_while, replace_invalid_bytes. }
  assert (n2 ≠ "") as Hne by (unfold n2; destruct (String.eqb_spec n1 ""); done).
  assert (∃ a l, bytes n3 = a :: l ∧ isLowercaseLetter (byte_val a) = true ∧ Forall name_byte l)
    as (a & l & Hb & Ha & Hl).
  { unfold n3. destruct (bytes n2) as [|a l] eqn:Eb.
    - exfalso. apply Hne. by rewrite <-(of_bytes_bytes n2), Eb.
    - apply Forall_cons in H2 as [Ha Hl]. destruct (isLowercaseLetter (byte_val a)) eqn:Elow; cbn [negb].
      + rewrite Eb. eauto.
      + rewrite bytes_app, Eb. eexists _, _. split; [reflexivity|]. split; [reflexivity|].
        apply (Forall_app _ (bytes "epo-") (a :: l)). split; [|by constructor].
        by apply (bool_decide_unpack _); vm_compute. }
  apply repoNamePattern_bytes.
  case_match eqn:Hlen.
  - unfold str_take. rewrite bytes_of_bytes, Hb. exists a, (take 63 l). split; [done|].
    split; [done|]. split; [by apply Forall_take|]. rewrite length_take. lia.
  - exists a, l. split_and!; try done. apply Nat.ltb_ge in Hlen.
    rewrite <-length_bytes, Hb in Hlen. simpl in Hlen. lia.
Qed.
End lemmas.

(** ** Properties *)

Section properties.
Context {U : UnicodeTables} {UL : UnicodeLaws U}.

(** A repository identifier, bare name or path, always resolves to a valid
    lookup key unless it is empty or contains a NUL byte, and those two are
    rejected as input errors; the second error branch of the code, for a name
    that stays invalid after normalization, is never taken. *)
Theorem canonicalRepoName_total repo :
  if String.eqb repo "" || contains_byte repo "000"%char
  then canonicalRepoName repo = Err (inputError "invalid repository name" None)
  else ∃ name, canonicalRepoName repo = Ok name ∧ repoNamePattern name = true.
Proof.
  unfold canonicalRepoName. destruct (_ || _) eqn:Hbad.
  - destruct (validateRepoName repo) eqn:E; [|done]. exfalso.
    unfold validateRepoName in E. by rewrite Hbad in E.
  - rewrite (validateRepoName_pattern (extractRepositoryName repo))
      by apply extractRepositoryName_pattern.
    destruct (validateRepoName repo) as [name|] eqn:E.
    + apply validateRepoName_ok in E as [? _]. eauto.
    + eexists. split; [done|]. apply extractRepositoryName_pattern.
Qed.

(** A canonical name is its own canonical name, so the key the handlers
    authorize and the key the checker derives from the already canonicalized
    request are the same. *)
Theorem canonicalRepoName_idempotent repo name :
  canonicalRepoName repo = Ok name → canonicalRepoName name = Ok name.
Proof.
  intros H. assert (repoNamePattern name = true) as Hp.
  { unfold canonicalRepoName in H.
    destruct (validateRepoName repo) eqn:E1.
    - injection H as <-. by apply validateRepoName_ok in E1 as [? _].
    - destruct (_ || _); [discriminate|].
      destruct (validateRepoName (extractRepositoryName repo)) eqn:E2; [|discriminate].
      injection H as <-. by apply validateRepoName_ok in E2 as [? _]. }
  unfold canonicalRepoName. by rewrite validateRepoName_pattern.
Qed.

(** Registration accepts a name exactly when it is already in canonical
    form; a name that only becomes valid after lower-casing is refused as an
    input error. *)
Theorem validateRegisterRepoName_spec repo :
  validateRegisterRepoName repo =
    if repoNamePattern repo then Ok repo else Err (inputError "invalid repository name" None).
Proof.
  unfold validateRegisterRepoName. destruct (repoNamePattern repo) eqn:Hp.
  - rewrite validateRepoName_pattern by done. by rewrite String.eqb_refl.
  - destruct (validateRepoName repo) as [name|e] eqn:E.
    + apply validateRepoName_ok in E as [Hn _].
      destruct (String.eqb_spec name repo); [congruence|done].
    + f_equal. by eapply validateRepoName_err.
Qed.
End properties.

(** Witnesses, at the tables restricted to ASCII. *)
Module Examples.
#[local] Existing Instances basic_unicode basic_unicode_laws.

Lemma canonicalRepoName_total_witness :
  (if String.eqb "../Tools.Git" "" || contains_byte "../Tools.Git" "000"%char
   then canonicalRepoName "../Tools.Git" = Err (inputError "invalid repository name" None)
   else ∃ name, canonicalRepoName "../Tools.Git" = Ok name ∧ repoNamePattern name = true) ∧
  canonicalRepoName "../Tools.Git" = Ok "tools-git".
Proof.
  split; [exact (canonicalRepoName_total "../Tools.Git")|vm_compute; reflexivity].
Defined.

Lemma canonicalRepoName_idempotent_witness :
  canonicalRepoName "/home/dev/My Repo/" = Ok "my-repo" ∧
  canonicalRepoName "my-repo" = Ok "my-repo".
Proof.
  split; [vm_compute; reflexivity|].
  apply (canonicalRepoName_idempotent "/home/dev/My Repo/"). vm_compute. reflexivity.
Defined.

Lemma validateRegisterRepoName_spec_witness :
  validateRegisterRepoName "MyRepo" =
    (if repoNamePattern "MyRepo" then Ok "MyRepo"
     else Err (inputError "invalid repository name" None)) ∧
  repoNamePattern "MyRepo" = false.
Proof. split; [exact (validateRegisterRepoName_spec "MyRepo")|reflexivity]. Defined.
End Examples.
