(* ===== verification/GoGlob.v ===== *)
(** * [filepath.Match] on Unix

    The chunked matcher of [path/filepath/match.go]: [None] stands for
    [ErrBadPattern].  Loops that consume their argument take the length of that
    argument as fuel. *)

From stdpp Require Import base strings list.
From Stdlib Require Import ZArith Lia Ascii.
From S2P Require Import Prelude GoStrings.
Set Default Goal Selector "!".

Definition ch (a : ascii) (c : Z) : bool := (byte_val a =? c)%Z.

(** [scanChunk] after the leading stars: the chunk and the rest.  [escaped]
    marks the character after a backslash. *)
Fixpoint scan_body (inrange escaped : bool) (l : list ascii) : list ascii * list ascii :=
  match l with
  | [] => ([], [])
  | a :: l' =>
      if negb escaped && negb inrange && ch a 42 then ([], l)
      else
        let inrange' := if escaped then inrange
                        else if ch a 91 then true else if ch a 93 then false else inrange in
        let '(c, rest) := scan_body inrange' (negb escaped && ch a 92) l' in
        (a :: c, rest)
  end.

Definition scanChunk (l : list ascii) : bool * list ascii * list ascii :=
  let body := drop_while (λ a, ch a 42) l in
  let '(chunk, rest) := scan_body false false body in
  (negb (length body =? length l)%nat, chunk, rest).

(** [getEsc]: a possibly escaped character of a class; the class must go on. *)
Definition getEsc (l : list ascii) : option (Z * list ascii) :=
  match l with
  | [] => None
  | a :: l' =>
      if ch a 45 || ch a 93 then None
      else
        let l1 := if ch a 92 then l' else l in
        let '(r, n) := decode_rune l1 in
        if ((r =? RuneError)%Z && (n =? 1)%nat) || (n =? 0)%nat then None
        else match drop n l1 with [] => None | l2 => Some (r, l2) end
  end.

(** The ranges of a character class up to its bracket: whether [r] is in one of
    them, and the chunk after it. *)
Fixpoint match_class (fuel : nat) (r : Z) (first matched : bool) (l : list ascii) :
  option (bool * list ascii) :=
  match fuel with
  | O => None
  | S f =>
      let range :=
        match getEsc l with
        | None => None
        | Some (lo, l1) =>
            match l1 with
            | a :: l2 =>
                if ch a 45 then
                  match getEsc l2 with
                  | None => None
                  | Some (hi, l3) => match_class f r false (matched || ((lo <=? r) && (r <=? hi)))%Z l3
                  end
                else match_class f r false (matched || (lo =? r)%Z) l1
            | [] => None
            end
        end in
      match l with
      | a :: l' => if ch a 93 && negb first then Some (matched, l') else range
      | [] => range
      end
  end.

(** [matchChunk]: [Some (Some rest)] on a match, [Some None] on a mismatch. *)
Fixpoint matchChunk (fuel : nat) (failed : bool) (chunk s : list ascii) : option (option (list ascii)) :=
  match fuel with
  | O => None
  | S f =>
      match chunk with
      | [] => Some (if failed then None else Some s)
      | a :: chunk' =>
          let failed := failed || match s with [] => true | _ => false end in
          let lit c rest :=
            match s with
            | b :: s' => if failed then matchChunk f true rest s
                         else matchChunk f (negb (Ascii.eqb c b)) rest s'
            | [] => matchChunk f true rest s
            end in
          if ch a 91 then
            let '(r, n) := if failed then (0%Z, 0%nat) else decode_rune s in
            let '(negated, body) := match chunk' with
                                    | b :: c' => if ch b 94 then (true, c') else (false, chunk')
                                    | [] => (false, [])
                                    end in
            match match_class (S (length body)) r true false body with
            | None => None
            | Some (m, rest) => matchChunk f (failed || Bool.eqb m negated) rest (drop n s)
            end
          else if ch a 63 then
            let is_sep := match s with b :: _ => Ascii.eqb b slash | [] => false end in
            let '(_, n) := if failed then (0%Z, 0%nat) else decode_rune s in
            matchChunk f (failed || is_sep) chunk' (drop n s)
          else if ch a 92 then
            match chunk' with
            | [] => None
            | c :: rest => lit c rest
            end
          else lit a chunk'
      end
  end.

Definition match_chunk (chunk s : list ascii) : option (option (list ascii)) :=
  matchChunk (S (length chunk)) false chunk s.

(** The check that the rest of a failed pattern is well formed. *)
Fixpoint check_rest (fuel : nat) (pattern : list ascii) : option bool :=
  match fuel with
  | O => None
  | S f =>
      match pattern with
      | [] => Some false
      | _ => let '(_, chunk, rest) := scanChunk pattern in
             match match_chunk chunk [] with
             | None => None
             | Some _ => check_rest f rest
             end
      end
  end.

(** The star loop: the chunk matched after skipping one or more bytes. *)
Fixpoint match_star (chunk : list ascii) (last : bool) (name : list ascii) :
  option (option (list ascii)) :=
  match name with
  | [] => Some None
  | b :: name' =>
      if Ascii.eqb b slash then Some None
      else match match_chunk chunk name' with
           | None => None
           | Some (Some t) =>
               if last && negb (bool_decide (t = [])) then match_star chunk last name'
               else Some (Some t)
           | Some None => match_star chunk last name'
           end
  end.

Fixpoint match_go (fuel : nat) (pattern name : list ascii) : option bool :=
  match fuel with
  | O => None
  | S f =>
      match pattern with
      | [] => Some (bool_decide (name = []))
      | _ =>
          let '(star, chunk, rest) := scanChunk pattern in
          if star && bool_decide (chunk = []) then
            Some (negb (existsb (Ascii.eqb slash) name))
          else
            match match_chunk chunk name with
            | None => None
            | Some (Some t) =>
                if bool_decide (t = []) || negb (bool_decide (rest = [])) then match_go f rest t
                else if star then
                  match match_star chunk (bool_decide (rest = [])) name with
                  | None => None
                  | Some (Some t') => match_go f rest t'
                  | Some None => check_rest (S (length rest)) rest
                  end
                else check_rest (S (length rest)) rest
            | Some None =>
                if star then
                  match match_star chunk (bool_decide (rest = [])) name with
                  | None => None
                  | Some (Some t') => match_go f rest t'
                  | Some None => check_rest (S (length rest)) rest
                  end
                else check_rest (S (length rest)) rest
            end
      end
  end.

(** [filepath.Match(pattern, name)]. *)
Definition path_match (pattern name : string) : option bool :=
  match_go (S (String.length pattern)) (bytes pattern) (bytes name).

Example path_match_examples :
  path_match "*.go" "main.go" = Some true ∧
  path_match "*.go" "a/main.go" = Some false ∧
  path_match "gen/*/x?.py" "gen/a/x1.py" = Some true ∧
  path_match "[a-c]*.[!x]" "b.z" = Some false ∧
  path_match "[a-c]*.[^x]" "b.z" = Some true ∧
  path_match "[" "a" = None ∧
  path_match "a[" "b" = None ∧
  path_match "a*b*c" "aXbYc" = Some true ∧
  path_match "\*" "*" = Some true.
Proof. vm_compute. done. Qed.
