(* ===== verification/GovConfig.v ===== *)
(** * Governance configuration

    [internal/govconfig]: the shape of a [config.json], its defaults, and the
    rules that decide whether one is acceptable.  [regexp] is the class
    [RegexpEngine]; the order in which Go visits a map is the class
    [GoMapOrder]. *)

From stdpp Require Import base gmap strings list fin_maps.
From Stdlib Require Import ZArith Lia Ascii.
From S2P Require Import Prelude GoStrings GoErrors GoJson GoGlob.
Set Default Goal Selector "!".

(** ** Parameters of the Go runtime *)

(** Package [regexp]: [Compile] and [MatchString]. *)
Class RegexpEngine := {
  regexp : Type;
  regexp_compile : string → result goerror regexp;
  regexp_match : regexp → string → bool;
}.

(** The unspecified iteration order of a Go map. *)
Class GoMapOrder := map_order : ∀ A, gmap string A → list (string * A).
Class GoMapOrderLaws (O : GoMapOrder) : Prop :=
  map_order_perm A (m : gmap string A) : map_order A m ≡ₚ map_to_list m.

Definition canonical_map_order : GoMapOrder := λ A m, map_to_list m.
Lemma canonical_map_order_laws : GoMapOrderLaws canonical_map_order.
Proof. by intros A m. Qed.

Lemma elem_of_map_order {O : GoMapOrder} {OL : GoMapOrderLaws O} {A} (m : gmap string A) k x :
  (k, x) ∈ map_order A m ↔ m !! k = Some x.
Proof. rewrite (map_order_perm _ m). apply elem_of_map_to_list. Qed.

(** ** Data *)

(** [EnforcementMode] and [ErrorEnforcementMode] are open string types. *)
Definition EnforcementBlock : string := "block".
Definition EnforcementAdvisory : string := "advisory".
Definition EnforcementOff : string := "off".
Definition EnforcementOnErrorBlock : string := "block".
Definition EnforcementOnErrorAdvisory : string := "advisory".
Definition EnforcementOnErrorPass : string := "pass".

Section data.
Context {R : RegexpEngine}.

Record LayerRule := mkLayer {
  lay_Name : string;
  lay_Paths : list string;
  lay_ForbiddenPatterns : list string;
  lay_pathPatterns : list regexp;
  lay_forbiddenPatterns : list regexp;
}.

Record LayerSovereigntySettings := mkLayerSettings { ls_Layers : list LayerRule }.
Record DeterministicOrderingSettings := mkOrderingSettings { dos_TieBreakerTokens : list string }.
Record TemporalPuritySettings := mkTemporalSettings { tps_CSharpPolicy : string }.

Record FitnessFunctionSettings := mkSettings {
  ffs_LayerSovereignty : option LayerSovereigntySettings;
  ffs_DeterministicOrdering : option DeterministicOrderingSettings;
  ffs_TemporalPurity : option TemporalPuritySettings;
}.

Record Config := mkConfig {
  cfg_EnforcementMode : string;
  cfg_EnforcementOnError : string;
  cfg_FitnessFunctions : option (gmap string bool);
  cfg_ExcludePatterns : option (list string);
  cfg_FitnessFunctionSettings : option FitnessFunctionSettings;
}.

Definition zero_config : Config := mkConfig "" "" None None None.

Definition defaultFitnessFunctions : gmap string bool :=
  list_to_map
    [("cyclomatic-complexity", true); ("interface-width", true);
     ("implementation-depth", true); ("logic-density", true);
     ("dependency-discipline", true); ("layer-sovereignty", false);
     ("temporal-purity", false); ("sql-composition-safety", false);
     ("deterministic-ordering", false)].

Definition Default : Config :=
  mkConfig EnforcementBlock EnforcementOnErrorBlock (Some defaultFitnessFunctions) None None.

(** ** Methods of [Config] and [LayerRule] *)

Definition Enabled (c : Config) (name : string) : bool :=
  match default ∅ (cfg_FitnessFunctions c) !! name with
  | Some enabled => enabled
  | None => false
  end.

(** On Unix [filepath.FromSlash] is the identity and the separator is a
    slash. *)
Definition IsExcluded (c : Config) (file : string) : bool :=
  existsb (λ pattern,
    let target := if contains pattern "/" then file else path_base file in
    match path_match pattern target with
    | Some matched => matched
    | None => false
    end) (default [] (cfg_ExcludePatterns c)).

Definition LayerRules (c : Config) : list LayerRule :=
  match cfg_FitnessFunctionSettings c with
  | Some s => match ffs_LayerSovereignty s with Some ls => ls_Layers ls | None => [] end
  | None => []
  end.

Definition defaultTieBreakerTokens : list string := ["_id"; "_key"; "_pk"; "_sk"; "id"].

Definition TieBreakerTokens (c : Config) : list string :=
  match cfg_FitnessFunctionSettings c with
  | Some s => match ffs_DeterministicOrdering s with
              | Some d => match dos_TieBreakerTokens d with
                          | [] => defaultTieBreakerTokens
                          | ts => ts
                          end
              | None => defaultTieBreakerTokens
              end
  | None => defaultTieBreakerTokens
  end.

Definition TemporalPurityCSharpPolicy (c : Config) : string :=
  let dflt := "naive-only" in
  match cfg_FitnessFunctionSettings c with
  | Some s => match ffs_TemporalPurity s with
              | Some t => if String.eqb (tps_CSharpPolicy t) "" then dflt else tps_CSharpPolicy t
              | None => dflt
              end
  | None => dflt
  end.

Definition MatchesPath (r : LayerRule) (path : string) : bool :=
  let normalized := replace_byte "\"%char "/"%char path in
  existsb (λ pattern, regexp_match pattern normalized) (lay_pathPatterns r).

(** [ForbiddenMatches]; [None] is the panic of an index out of range. *)
Definition ForbiddenMatches (r : LayerRule) (content : string) : option (list string) :=
  foldl (λ acc ip,
           match acc with
           | None => None
           | Some matches =>
               if regexp_match (ip : nat * regexp).2 content
               then match lay_ForbiddenPatterns r !! ip.1 with
                    | Some source => Some (matches ++ [source])
                    | None => None
                    end
               else Some matches
           end) (Some []) (imap (λ i p, (i, p)) (lay_forbiddenPatterns r)).
End data.
Arguments defaultFitnessFunctions : simpl never.

(** ** Decoding *)

Section decode.
Context {R : RegexpEngine}.

Definition dec_strings : decoder (list string) := λ j old,
  default [] <$> dec_list "" dec_string j (Some old).

Definition dec_LayerRule : decoder LayerRule :=
  dec_struct
    [("name", λ j r, (λ x, mkLayer x (lay_Paths r) (lay_ForbiddenPatterns r) (lay_pathPatterns r) (lay_forbiddenPatterns r)) <$> dec_string j (lay_Name r));
     ("paths", λ j r, (λ x, mkLayer (lay_Name r) x (lay_ForbiddenPatterns r) (lay_pathPatterns r) (lay_forbiddenPatterns r)) <$> dec_strings j (lay_Paths r));
     ("forbidden-patterns", λ j r, (λ x, mkLayer (lay_Name r) (lay_Paths r) x (lay_pathPatterns r) (lay_forbiddenPatterns r)) <$> dec_strings j (lay_ForbiddenPatterns r))].

Definition zero_layer : LayerRule := mkLayer "" [] [] [] [].

Definition dec_LayerSovereigntySettings : decoder LayerSovereigntySettings :=
  dec_struct [("layers", λ j s, (λ x, mkLayerSettings (default [] x)) <$> dec_list zero_layer dec_LayerRule j (Some (ls_Layers s)))].
Definition dec_DeterministicOrderingSettings : decoder DeterministicOrderingSettings :=
  dec_struct [("tie-breaker-tokens", λ j s, mkOrderingSettings <$> dec_strings j (dos_TieBreakerTokens s))].
Definition dec_TemporalPuritySettings : decoder TemporalPuritySettings :=
  dec_struct [("csharp-policy", λ j s, mkTemporalSettings <$> dec_string j (tps_CSharpPolicy s))].

Definition dec_FitnessFunctionSettings : decoder FitnessFunctionSettings :=
  dec_struct
    [("layer-sovereignty", λ j s, (λ x, mkSettings x (ffs_DeterministicOrdering s) (ffs_TemporalPurity s)) <$> dec_ptr (mkLayerSettings []) dec_LayerSovereigntySettings j (ffs_LayerSovereignty s));
     ("deterministic-ordering", λ j s, (λ x, mkSettings (ffs_LayerSovereignty s) x (ffs_TemporalPurity s)) <$> dec_ptr (mkOrderingSettings []) dec_DeterministicOrderingSettings j (ffs_DeterministicOrdering s));
     ("temporal-purity", λ j s, (λ x, mkSettings (ffs_LayerSovereignty s) (ffs_DeterministicOrdering s) x) <$> dec_ptr (mkTemporalSettings "") dec_TemporalPuritySettings j (ffs_TemporalPurity s))].

Definition dec_Config : decoder Config :=
  dec_struct
    [("enforcement-mode", λ j c, (λ x, mkConfig x (cfg_EnforcementOnError c) (cfg_FitnessFunctions c) (cfg_ExcludePatterns c) (cfg_FitnessFunctionSettings c)) <$> dec_string j (cfg_EnforcementMode c));
     ("enforcement-on-error", λ j c, (λ x, mkConfig (cfg_EnforcementMode c) x (cfg_FitnessFunctions c) (cfg_ExcludePatterns c) (cfg_FitnessFunctionSettings c)) <$> dec_string j (cfg_EnforcementOnError c));
     ("fitness-functions", λ j c, (λ x, mkConfig (cfg_EnforcementMode c) (cfg_EnforcementOnError c) x (cfg_ExcludePatterns c) (cfg_FitnessFunctionSettings c)) <$> dec_map false dec_bool j (cfg_FitnessFunctions c));
     ("exclude-patterns", λ j c, (λ x, mkConfig (cfg_EnforcementMode c) (cfg_EnforcementOnError c) (cfg_FitnessFunctions c) x (cfg_FitnessFunctionSettings c)) <$> dec_list "" dec_string j (cfg_ExcludePatterns c));
     ("fitness-function-settings", λ j c, (λ x, mkConfig (cfg_EnforcementMode c) (cfg_EnforcementOnError c) (cfg_FitnessFunctions c) (cfg_ExcludePatterns c) x) <$> dec_ptr (mkSettings None None None) dec_FitnessFunctionSettings j (cfg_FitnessFunctionSettings c))].

(** The wrapper of [rejectUnknownFitnessFunctionSettingsKeys]: raw messages
    accept any value. *)
Definition dec_wrapper : decoder (option (gmap string unit)) :=
  dec_struct [("fitness-function-settings", dec_map tt (λ _ _, Some tt))].
End decode.

(** ** Validation *)

Section validate.
Context {R : RegexpEngine} {O : GoMapOrder} {U : UnicodeTables} {J : JsonErrorText}.

(** The overlay loop: the first unknown name met aborts it. *)
Fixpoint overlay (normalized : gmap string bool) (fs : list (string * bool)) :
  result goerror (gmap string bool) :=
  match fs with
  | [] => Ok normalized
  | (name, enabled) :: fs' =>
      match defaultFitnessFunctions !! name with
      | None => Err (ErrNew ("unsupported fitness function " +:+ quote name))
      | Some _ => overlay (<[name := enabled]> normalized) fs'
      end
  end.

Definition NormalizeFitnessFunctions (functions : option (gmap string bool)) :
  result goerror (gmap string bool) :=
  match functions with
  | None => Ok defaultFitnessFunctions
  | Some fs => overlay defaultFitnessFunctions (map_order bool fs)
  end.

Definition allowedFitnessFunctionSettingsKeys : list string :=
  ["layer-sovereignty"; "deterministic-ordering"; "temporal-purity"].

Definition rejectUnknownFitnessFunctionSettingsKeys (content : string) : option goerror :=
  match unmarshal dec_wrapper None content with
  | Err err => Some (ErrWrap "parsing fitness function settings: " err "")
  | Ok settings =>
      match List.find (λ kv, negb (bool_decide (kv.1 ∈ allowedFitnessFunctionSettingsKeys)))
              (map_order unit (default ∅ settings)) with
      | Some (name, _) => Some (ErrNew ("unsupported fitness function settings " +:+ quote name))
      | None => None
      end
  end.

(** [regexp.QuoteMeta] of one rune. *)
Definition quote_meta_rune (r : Z) : list ascii :=
  if existsb (Z.eqb r) (byte_val <$> bytes "\.+*?()|[]{}^$")
  then "\"%char :: encode_rune r else encode_rune r.

(** The body of the loop of [globToRegexp] over the runes of the glob. *)
Fixpoint glob_body (rs : list Z) : list ascii :=
  match rs with
  | [] => []
  | r :: rs' =>
      if (r =? 42)%Z then
        match rs' with
        | r2 :: rs2 => if (r2 =? 42)%Z then bytes ".*" ++ glob_body rs2
                       else bytes "[^/]*" ++ glob_body rs'
        | [] => bytes "[^/]*" ++ glob_body rs'
        end
      else if (r =? 63)%Z then bytes "[^/]" ++ glob_body rs'
      else quote_meta_rune r ++ glob_body rs'
  end.

Definition globToRegexp (glob : string) : result goerror regexp :=
  regexp_compile (of_bytes (bytes "^" ++ glob_body (runes glob) ++ bytes "$")).

(** Compile a list of sources, stopping at the first failure. *)
Fixpoint compile_all (compile : string → result goerror regexp) (what layer : string)
    (sources : list string) : result goerror (list regexp) :=
  match sources with
  | [] => Ok []
  | source :: rest =>
      match compile source with
      | Err err =>
          Err (ErrWrap ("layer-sovereignty layer " +:+ quote layer +:+ " has invalid " +:+ what
                        +:+ " " +:+ quote source +:+ ": ") err "")
      | Ok p => let? ps := compile_all compile what layer rest in Ok (p :: ps)
      end
  end.

Definition compileLayerRule (rule : LayerRule) : result goerror LayerRule :=
  if String.eqb (lay_Name rule) "" then
    Err (ErrNew "layer-sovereignty layer is missing a name")
  else if bool_decide (lay_Paths rule = []) then
    Err (ErrNew ("layer-sovereignty layer " +:+ quote (lay_Name rule) +:+ " has no paths"))
  else if bool_decide (lay_ForbiddenPatterns rule = []) then
    Err (ErrNew ("layer-sovereignty layer " +:+ quote (lay_Name rule) +:+ " has no forbidden-patterns"))
  else
    let? pathPatterns := compile_all globToRegexp "path glob" (lay_Name rule) (lay_Paths rule) in
    let? forbiddenPatterns :=
      compile_all regexp_compile "forbidden-pattern" (lay_Name rule) (lay_ForbiddenPatterns rule) in
    Ok (mkLayer (lay_Name rule) (lay_Paths rule) (lay_ForbiddenPatterns rule)
          pathPatterns forbiddenPatterns).

Fixpoint compile_layers (layers : list LayerRule) : result goerror (list LayerRule) :=
  match layers with
  | [] => Ok []
  | layer :: rest =>
      let? compiled := compileLayerRule layer in
      let? layers' := compile_layers rest in Ok (compiled :: layers')
  end.

(** The settings after compilation, or the first error. *)
Definition validate_settings (settings : FitnessFunctionSettings) :
  result goerror FitnessFunctionSettings :=
  let? settings' :=
    match ffs_LayerSovereignty settings with
    | None => Ok settings
    | Some ls => let? layers := compile_layers (ls_Layers ls) in
                 Ok (mkSettings (Some (mkLayerSettings layers))
                       (ffs_DeterministicOrdering settings) (ffs_TemporalPurity settings))
    end in
  match ffs_TemporalPurity settings' with
  | None => Ok settings'
  | Some t =>
      if bool_decide (tps_CSharpPolicy t ∈ [""; "naive-only"; "require-offset"]) then Ok settings'
      else Err (ErrNew ("unsupported temporal-purity csharp-policy " +:+ quote (tps_CSharpPolicy t)))
  end.

(** [validateFitnessFunctionSettings] rewrites the settings in place. *)
Definition validateFitnessFunctionSettings (config : Config) : result goerror Config :=
  let? config' :=
    match cfg_FitnessFunctionSettings config with
    | None => Ok config
    | Some settings =>
        let? settings' := validate_settings settings in
        Ok (mkConfig (cfg_EnforcementMode config) (cfg_EnforcementOnError config)
              (cfg_FitnessFunctions config) (cfg_ExcludePatterns config) (Some settings'))
    end in
  if Enabled config' "layer-sovereignty" && bool_decide (length (LayerRules config') = 0)
  then Err (ErrNew "layer-sovereignty is enabled but fitness-function-settings.layer-sovereignty.layers is empty")
  else Ok config'.

Definition Parse (content : string) : result goerror Config :=
  match unmarshal dec_Config zero_config content with
  | Err err => Err (ErrWrap "parsing repository config: " err "")
  | Ok config =>
      let mode := if String.eqb (cfg_EnforcementMode config) "" then EnforcementBlock
                  else cfg_EnforcementMode config in
      if negb (bool_decide (mode ∈ [EnforcementBlock; EnforcementAdvisory; EnforcementOff]))
      then Err (ErrNew ("unsupported enforcement mode " +:+ quote mode))
      else
        let on_error := if String.eqb (cfg_EnforcementOnError config) "" then EnforcementOnErrorBlock
                        else cfg_EnforcementOnError config in
        if negb (bool_decide (on_error ∈ [EnforcementOnErrorBlock; EnforcementOnErrorAdvisory;
                                          EnforcementOnErrorPass]))
        then Err (ErrNew ("unsupported enforcement-on-error mode " +:+ quote on_error))
        else
          let? fitnessFunctions := NormalizeFitnessFunctions (cfg_FitnessFunctions config) in
          match rejectUnknownFitnessFunctionSettingsKeys content with
          | Some err => Err err
          | None =>
              validateFitnessFunctionSettings
                (mkConfig mode on_error (Some fitnessFunctions) (cfg_ExcludePatterns config)
                   (cfg_FitnessFunctionSettings config))
          end
  end.

Definition Validate (content : string) : option goerror :=
  match Parse content with Ok _ => None | Err err => Some err end.
End validate.

(** ** Correctness of parsing *)

Section spec.
Context {R : RegexpEngine} {O : GoMapOrder} {OL : GoMapOrderLaws O}
        {U : UnicodeTables} {J : JsonErrorText}.

(** The compiled form of a source, when it compiles. *)
Definition matches_with (compile : string → result goerror regexp) (text source : string) : bool :=
  match compile source with Ok p => regexp_match p text | Err _ => false end.

(** A layer whose compiled patterns are those of its sources, in order. *)
Definition layer_wf (r : LayerRule) : Prop :=
  lay_Name r ≠ "" ∧ lay_Paths r ≠ [] ∧ lay_ForbiddenPatterns r ≠ [] ∧
  Forall2 (λ s p, globToRegexp s = Ok p) (lay_Paths r) (lay_pathPatterns r) ∧
  Forall2 (λ s p, regexp_compile s = Ok p) (lay_ForbiddenPatterns r) (lay_forbiddenPatterns r).

Definition policy_wf (c : Config) : Prop :=
  TemporalPurityCSharpPolicy c = "naive-only" ∨ TemporalPurityCSharpPolicy c = "require-offset".

(** What every accepted configuration satisfies. *)
Record config_wf (c : Config) : Prop := {
  wf_mode : cfg_EnforcementMode c ∈ [EnforcementBlock; EnforcementAdvisory; EnforcementOff];
  wf_on_error : cfg_EnforcementOnError c ∈
    [EnforcementOnErrorBlock; EnforcementOnErrorAdvisory; EnforcementOnErrorPass];
  wf_functions : ∃ m, cfg_FitnessFunctions c = Some m ∧
    dom m = (dom defaultFitnessFunctions : gset string);
  wf_layers : Forall layer_wf (LayerRules c);
  wf_layers_nonempty : Enabled c "layer-sovereignty" = true → LayerRules c ≠ [];
  wf_policy : policy_wf c;
}.

Lemma compile_all_ok compile what layer sources ps :
  compile_all compile what layer sources = Ok ps →
  Forall2 (λ s p, compile s = Ok p) sources ps.
Proof.
  revert ps. induction sources as [|s sources IH]; intros ps; cbn [compile_all].
  { intros [= <-]. constructor. }
  destruct (compile s) as [p|] eqn:Hs; [|done].
  destruct (compile_all _ _ _ sources) as [ps'|]; [|done].
  intros [= <-]. constructor; auto.
Qed.

Lemma compileLayerRule_wf rule r : compileLayerRule rule = Ok r → layer_wf r.
Proof.
  unfold compileLayerRule. destruct (String.eqb_spec (lay_Name rule) ""); [done|].
  case_bool_decide; [done|]. case_bool_decide; [done|].
  destruct (compile_all globToRegexp _ _ _) as [ps|] eqn:E1; [|done].
  destruct (compile_all regexp_compile _ _ _) as [fs|] eqn:E2; [|done].
  intros [= <-]. repeat split; try done; cbn; by eapply compile_all_ok.
Qed.

Lemma compile_layers_wf layers ls : compile_layers layers = Ok ls → Forall layer_wf ls.
Proof.
  revert ls. induction layers as [|l layers IH]; intros ls; cbn [compile_layers].
  { intros [= <-]. constructor. }
  destruct (compileLayerRule l) as [r|] eqn:Hr; [|done].
  destruct (compile_layers layers) as [rs|]; [|done].
  intros [= <-]. constructor; [by eapply compileLayerRule_wf|auto].
Qed.

Lemma overlay_ok fs acc m :
  NoDup fs.*1 → overlay acc fs = Ok m →
  (∀ name, m !! name = from_option Some (acc !! name) ((list_to_map fs : gmap string bool) !! name))
  ∧ Forall (λ kv, is_Some (defaultFitnessFunctions !! kv.1)) fs.
Proof.
  revert acc. induction fs as [|[name enabled] fs IH]; intros acc Hnd; cbn [overlay].
  { intros [= <-]. split; [intros n; reflexivity|constructor]. }
  inversion Hnd as [|? ? Hnotin Hnd']; subst.
  destruct (defaultFitnessFunctions !! name) as [b|] eqn:Hname; [|done].
  intros H. destruct (IH _ Hnd' H) as [Hm Hall]. split.
  - intros n. rewrite Hm. cbn [list_to_map foldr curry].
    destruct (decide (n = name)) as [->|Hne].
    + rewrite not_elem_of_list_to_map_1 by done. cbn. by rewrite !lookup_insert_eq.
    + rewrite !lookup_insert_ne by done. done.
  - constructor; [by exists b|done].
Qed.

Lemma overlay_total fs acc :
  Forall (λ kv, is_Some (defaultFitnessFunctions !! kv.1)) fs → is_ok (overlay acc fs) = true.
Proof.
  intros Hall. revert acc. induction Hall as [|[n b] fs [d Hd] _ IH]; intros acc; [done|].
  cbn [overlay]. cbn [fst] in Hd. rewrite Hd. apply IH.
Qed.

Lemma map_order_nodup {A} (m : gmap string A) : NoDup (map_order A m).*1.
Proof. rewrite (map_order_perm _ m). apply NoDup_fst_map_to_list. Qed.

Lemma map_order_to_map {A} (m : gmap string A) : list_to_map (map_order A m) = m.
Proof.
  rewrite <-(list_to_map_to_list m) at 2. apply list_to_map_proper; [apply map_order_nodup|].
  apply map_order_perm.
Qed.

Lemma NormalizeFitnessFunctions_ok fs m :
  NormalizeFitnessFunctions fs = Ok m →
  dom m = (dom defaultFitnessFunctions : gset string) ∧
  ∀ name, m !! name = from_option Some (defaultFitnessFunctions !! name) (default ∅ fs !! name).
Proof.
  destruct fs as [fs|]; cbn [NormalizeFitnessFunctions default].
  2:{ intros [= <-]. split; [done|]. intros name. by rewrite lookup_empty. }
  intros H. apply overlay_ok in H as [Hm Hall]; [|apply map_order_nodup].
  rewrite map_order_to_map in Hm. split; [|exact Hm].
  apply set_eq. intros n. rewrite !elem_of_dom, Hm. cbn.
  destruct (fs !! n) as [b|] eqn:Hn; [|done]. cbn. split; [|eauto]. intros _.
  rewrite Forall_forall in Hall. apply (Hall (n, b)). by apply elem_of_map_order.
Qed.

Lemma validate_settings_wf s s' :
  validate_settings s = Ok s' →
  from_option (λ ls, Forall layer_wf (ls_Layers ls)) True (ffs_LayerSovereignty s') ∧
  from_option (λ t, tps_CSharpPolicy t ∈ [""; "naive-only"; "require-offset"]) True
    (ffs_TemporalPurity s').
Proof.
  unfold validate_settings. destruct s as [[[layers]|] d t]; cbn.
  - destruct (compile_layers layers) as [ls|] eqn:Hl; [|done]. apply compile_layers_wf in Hl.
    destruct t as [t|]; cbn; [case_bool_decide|]; intros [= <-]; cbn; auto.
  - destruct t as [t|]; cbn; [case_bool_decide|]; intros [= <-]; cbn; auto.
Qed.

Lemma validateFitnessFunctionSettings_ok c c' :
  validateFitnessFunctionSettings c = Ok c' →
  cfg_EnforcementMode c' = cfg_EnforcementMode c ∧
  cfg_EnforcementOnError c' = cfg_EnforcementOnError c ∧
  cfg_FitnessFunctions c' = cfg_FitnessFunctions c ∧
  cfg_ExcludePatterns c' = cfg_ExcludePatterns c ∧
  Forall layer_wf (LayerRules c') ∧
  (Enabled c' "layer-sovereignty" = true → LayerRules c' ≠ []) ∧ policy_wf c'.
Proof.
  unfold validateFitnessFunctionSettings, policy_wf. destruct c as [mode oe ff ex [s|]]; cbn.
  - destruct (validate_settings s) as [s'|] eqn:Hs; [|done].
    apply validate_settings_wf in Hs as [Hl Ht].
    destruct (Enabled _ _ && _) eqn:Hen; [done|]. intros [= <-].
    split_and!; try done.
    + unfold LayerRules. cbn. by destruct (ffs_LayerSovereignty s') as [ls|].
    + intros He Hlr. rewrite He, Hlr in Hen. done.
    + unfold TemporalPurityCSharpPolicy. cbn. destruct (ffs_TemporalPurity s') as [t|]; [|auto].
      cbn in Ht. destruct (String.eqb_spec (tps_CSharpPolicy t) ""); [auto|].
      set_solver.
  - destruct (Enabled _ _ && _) eqn:Hen; [done|]. intros [= <-].
    split_and!; try done; [|by left].
    intros He _. rewrite He in Hen. done.
Qed.

(** The functional content of [Parse] on the decoded document. *)
Lemma Parse_ok content c :
  Parse content = Ok c →
  ∃ raw, unmarshal dec_Config zero_config content = Ok raw ∧ config_wf c ∧
    cfg_EnforcementMode c = (if String.eqb (cfg_EnforcementMode raw) "" then EnforcementBlock
                             else cfg_EnforcementMode raw) ∧
    cfg_EnforcementOnError c = (if String.eqb (cfg_EnforcementOnError raw) ""
                                then EnforcementOnErrorBlock else cfg_EnforcementOnError raw) ∧
    cfg_ExcludePatterns c = cfg_ExcludePatterns raw ∧
    ∀ name, Enabled c name =
      default false (from_option Some (defaultFitnessFunctions !! name)
                       (default ∅ (cfg_FitnessFunctions raw) !! name)).
Proof.
  unfold Parse. destruct (unmarshal _ _ content) as [raw|] eqn:Hraw; [|done].
  case_bool_decide as Hm; cbn [negb]; [|done]. case_bool_decide as He; cbn [negb]; [|done].
  destruct (NormalizeFitnessFunctions _) as [fs|] eqn:Hfs; [|done].
  destruct (rejectUnknownFitnessFunctionSettingsKeys _); [done|].
  intros (H1 & H2 & H3 & H4 & H5 & H6 & H7)%validateFitnessFunctionSettings_ok.
  cbn [cfg_EnforcementMode cfg_EnforcementOnError cfg_FitnessFunctions cfg_ExcludePatterns] in *.
  apply NormalizeFitnessFunctions_ok in Hfs as [Hdom Hlook].
  exists raw. split_and!; try done.
  - constructor; try done; [by rewrite H1|by rewrite H2|]. exists fs. done.
  - intros name. unfold Enabled. rewrite H3. cbn [default from_option id].
    rewrite Hlook. by destruct (from_option Some _ _).
Qed.

(** C40: every configuration [Parse] accepts is well formed: both modes are
    among the supported ones, the function table has exactly the catalog's
    names, every layer has a name, paths and forbidden patterns with their
    compiled forms in step, an enabled layer-sovereignty has at least one
    layer, and the C# temporal policy is a supported one; the switch of each
    function is the one the document gives, else the catalog's. *)
Theorem Parse_wf content c (H : Parse content = Ok c) :
  config_wf c ∧
  ∃ raw, unmarshal dec_Config zero_config content = Ok raw ∧
    ∀ name, Enabled c name =
      default false (from_option Some (defaultFitnessFunctions !! name)
                       (default ∅ (cfg_FitnessFunctions raw) !! name)).
Proof. destruct (Parse_ok _ _ H) as (raw & ? & ? & ? & ? & ? & ?). eauto. Qed.

(** [NormalizeFitnessFunctions] succeeds exactly when every name is in the
    catalog, whatever order Go visits the map in, and the result is the
    catalog overlaid with the given switches. *)
Theorem NormalizeFitnessFunctions_spec fs :
  match NormalizeFitnessFunctions fs with
  | Ok m => (∀ name, is_Some (default ∅ fs !! name) → is_Some (defaultFitnessFunctions !! name)) ∧
            m = default ∅ fs ∪ defaultFitnessFunctions
  | Err e => ∃ name, is_Some (default ∅ fs !! name) ∧ defaultFitnessFunctions !! name = None
  end.
Proof.
  destruct (NormalizeFitnessFunctions fs) as [m|e] eqn:H.
  - apply NormalizeFitnessFunctions_ok in H as [Hdom Hlook]. split.
    + intros name [b Hb]. apply elem_of_dom. rewrite <-Hdom. apply elem_of_dom.
      exists b. by rewrite Hlook, Hb.
    + apply map_eq. intros n. rewrite Hlook. by destruct (default ∅ fs !! n) eqn:E;
        [rewrite (lookup_union_Some_l _ _ _ _ E)|rewrite (lookup_union_r _ _ _ E)].
  - destruct fs as [fs|]; [|done]. cbn [NormalizeFitnessFunctions default from_option id] in *.
    destruct (decide (Forall (λ kv, is_Some (defaultFitnessFunctions !! kv.1)) (map_order bool fs)))
      as [Hall|Hn].
    + apply (overlay_total _ defaultFitnessFunctions) in Hall. by rewrite H in Hall.
    + apply not_Forall_Exists in Hn; [|apply _]. apply Exists_exists in Hn as ([n b] & Hin & Hnot).
      apply elem_of_map_order in Hin. exists n. split; [by exists b|]. by apply eq_None_not_Some.
Qed.

Lemma ForbiddenMatches_loop (ss : list string) ps (sources acc : list string) text k :
  Forall2 (λ s p, regexp_compile s = Ok p) ss ps →
  (∀ i, ss !! i = sources !! (k + i)%nat) →
  foldl (λ acc ip,
           match acc with
           | None => None
           | Some matches =>
               if regexp_match (ip : nat * regexp).2 text
               then match sources !! ip.1 with
                    | Some source => Some (matches ++ [source])
                    | None => None
                    end
               else Some matches
           end) (Some acc) (imap (λ i p, ((k + i)%nat, p)) ps) =
  Some (acc ++ filter (λ s, matches_with regexp_compile text s = true) ss).
Proof.
  intros H. revert k acc. induction H as [|s p ss ps Hsp H IH]; intros k acc Hs.
  { cbn. by rewrite app_nil_r. }
  pose proof (Hs 0%nat) as H0. rewrite Nat.add_0_r in H0. cbn in H0.
  assert (∀ i, ss !! i = sources !! (S k + i)%nat) as Hs'.
  { intros i. specialize (Hs (S i)). cbn in Hs. by replace (S k + i)%nat with (k + S i)%nat by lia. }
  rewrite imap_cons. cbn [foldl snd fst]. rewrite Nat.add_0_r, <-H0.
  rewrite (imap_ext _ (λ i p, ((S k + i)%nat, p))) by (intros; cbn; f_equal; lia).
  assert (matches_with regexp_compile text s = regexp_match p text) as Hm
    by (unfold matches_with; by rewrite Hsp).
  rewrite filter_cons. destruct (regexp_match p text).
  - rewrite (IH (S k) _ Hs'), decide_True by done. by rewrite <-app_assoc.
  - rewrite (IH (S k) _ Hs'). rewrite decide_False; [done|]. by rewrite Hm.
Qed.

Lemma ForbiddenMatches_wf r text :
  layer_wf r →
  ForbiddenMatches r text =
    Some (filter (λ s, matches_with regexp_compile text s = true) (lay_ForbiddenPatterns r)).
Proof.
  intros (_ & _ & _ & _ & Hf). unfold ForbiddenMatches.
  rewrite (imap_ext _ (λ i p, ((0 + i)%nat, p))) by done.
  by rewrite (ForbiddenMatches_loop _ _ _ _ _ 0 Hf).
Qed.

Lemma MatchesPath_wf r path :
  layer_wf r →
  MatchesPath r path =
    existsb (matches_with globToRegexp (replace_byte "\"%char "/"%char path)) (lay_Paths r).
Proof.
  intros (_ & _ & _ & Hp & _). unfold MatchesPath.
  induction Hp as [|s p ss ps Hsp _ IH]; [done|].
  cbn [existsb]. rewrite IH. unfold matches_with at 2. by rewrite Hsp.
Qed.

(** On an accepted configuration the layer scan never indexes out of
    range, and reports, in declaration order, the forbidden patterns whose
    compiled form matches the content; a layer covers a path when one of its
    globs, translated to a regular expression, matches the slash-normalised
    path. *)
Theorem ForbiddenMatches_spec content c r text path
    (H : Parse content = Ok c) (Hr : r ∈ LayerRules c) :
  ForbiddenMatches r text =
    Some (filter (λ s, matches_with regexp_compile text s = true) (lay_ForbiddenPatterns r)) ∧
  MatchesPath r path =
    existsb (matches_with globToRegexp (replace_byte "\"%char "/"%char path)) (lay_Paths r).
Proof.
  destruct (Parse_ok _ _ H) as (raw & _ & Hwf & _).
  pose proof (wf_layers _ Hwf) as Hl. rewrite Forall_forall in Hl. apply Hl in Hr.
  split; [by apply ForbiddenMatches_wf|by apply MatchesPath_wf].
Qed.
End spec.

(** ** Evaluated instances *)

(** An engine for literal patterns, which rejects an unclosed group. *)
Definition literal_regexp : RegexpEngine := {|
  regexp := string;
  regexp_compile s := if String.eqb s "(" then Err (ErrNew "missing closing )") else Ok s;
  regexp_match p text := contains text p;
|}.

Module Examples.
#[local] Existing Instances literal_regexp canonical_map_order canonical_map_order_laws
  basic_unicode basic_unicode_laws.
#[local] Instance no_json_text : JsonErrorText := id.

Definition q (s : string) : string := String (byte_of 34) (s +:+ String (byte_of 34) "").
Definition layers_document : string :=
  "{" +:+ q "enforcement-mode" +:+ ":" +:+ q "advisory" +:+ "," +:+
  q "fitness-functions" +:+ ":{" +:+ q "layer-sovereignty" +:+ ":true}," +:+
  q "fitness-function-settings" +:+ ":{" +:+ q "layer-sovereignty" +:+ ":{" +:+ q "layers" +:+
  ":[{" +:+ q "name" +:+ ":" +:+ q "domain" +:+ "," +:+ q "paths" +:+ ":[" +:+ q "a.go" +:+ "],"
  +:+ q "forbidden-patterns" +:+ ":[" +:+ q "sql" +:+ "," +:+ q "http" +:+ "]}]}}}".

Definition compiled_layer : LayerRule :=
  mkLayer "domain" ["a.go"] ["sql"; "http"] ["^a\.go$"] ["sql"; "http"].

Definition layers_config : Config :=
  mkConfig "advisory" "block" (Some (<["layer-sovereignty" := true]> defaultFitnessFunctions)) None
    (Some (mkSettings (Some (mkLayerSettings [compiled_layer])) None None)).

Lemma Parse_layers : Parse layers_document = Ok layers_config.
Proof. vm_compute. reflexivity. Qed.

Example Parse_default : Parse "{}" = Ok Default.
Proof. vm_compute. reflexivity. Qed.

Lemma Parse_wf_witness :
  config_wf layers_config ∧ Enabled layers_config "layer-sovereignty" = true.
Proof. split; [apply (Parse_wf layers_document layers_config Parse_layers)|reflexivity]. Defined.

Definition naming_only : option (gmap string bool) := Some {["naming" := true]}.

Lemma NormalizeFitnessFunctions_spec_witness :
  is_ok (NormalizeFitnessFunctions naming_only) = false ∧
  ∃ name, is_Some (default ∅ naming_only !! name) ∧ defaultFitnessFunctions !! name = None.
Proof.
  split; [vm_compute; reflexivity|].
  pose proof (NormalizeFitnessFunctions_spec naming_only) as H.
  destruct (NormalizeFitnessFunctions naming_only) eqn:E; [vm_compute in E; discriminate|exact H].
Defined.

Lemma ForbiddenMatches_spec_witness :
  ForbiddenMatches compiled_layer "import http" = Some ["http"].
Proof.
  refine (eq_trans (proj1 (ForbiddenMatches_spec layers_document layers_config compiled_layer
            "import http" "" Parse_layers _)) _); [left|vm_compute; reflexivity].
Defined.
End Examples.
