(* ===== verification/Scoring.v ===== *)
(** * Metric scoring

    The part of [internal/server/checker.go] that turns analyzer metrics into
    violations: one function per metric-scored fitness function, their
    concatenation [fitnessViolations], and [filterViolations]. *)

From stdpp Require Import base gmap strings list fin_maps.
From Stdlib Require Import ZArith Lia Ascii.
From S2P Require Import Prelude GoStrings GoErrors GoFloat GoJson Fitness Metrics GovConfig.
Set Default Goal Selector "!".

Section scoring.
Context {R : RegexpEngine} {U : UnicodeTables}.

(** The advice that closes the messages of the two "lte" functions. *)
Definition immutable_contract_advice : string :=
  " For an immutable imported contract, preserve the snapshot and refer this finding to the governance policy owner; the verdict remains unchanged.".

Definition cyclomatic_message (function : FunctionMetric) (node : string) (rule : FitnessRule)
    (assertionNote : string) : string :=
  "Function " +:+ quote (fn_Name function) +:+ " in module " +:+ quote node
  +:+ " has cyclomatic complexity " +:+ itoa (fn_CyclomaticComplexity function)
  +:+ ", exceeding the limit of " +:+ format_f 0 (rule_Threshold rule)
  +:+ ". The score reflects analyzer-counted decision points, not a count of source-level conditional branches."
  +:+ assertionNote
  +:+ " For mutable code, simplify decision logic or extract cohesive behavior without weakening checks."
  +:+ immutable_contract_advice.

Definition cyclomaticComplexityViolations (result : AnalysisResult) (pattern : Pattern) :
  list Violation :=
  match pat_FitnessFunctions pattern !! "cyclomatic-complexity" with
  | None => []
  | Some rule =>
      if negb (String.eqb (rule_Operator rule) "lte") then []
      else
        let assertionNote :=
          if String.eqb (ar_Language result) "python"
          then " Python/Radon includes assert statements in this score." else "" in
        omap (λ function,
                let value := f64_of_int (fn_CyclomaticComplexity function) in
                if f64_le value (rule_Threshold rule) then None
                else Some (mkViolation "cyclomatic_complexity" (ar_CALMNode result)
                             (ar_File result) (fn_Name function) "" "" value
                             (rule_Threshold rule)
                             (cyclomatic_message function (ar_CALMNode result) rule assertionNote)))
             (ar_Functions result)
  end.

Definition width_advice : string :=
  ". For mutable code, split the containing interface by cohesion or reduce unnecessary public operations."
  +:+ immutable_contract_advice.

Definition module_width_message (node : string) (n : Z) (rule : FitnessRule) : string :=
  "Module '" +:+ node +:+ "' exposes " +:+ itoa n +:+ " public methods, exceeding the limit of "
  +:+ format_f 0 (rule_Threshold rule) +:+ width_advice.

Definition interface_width_message (record : InterfaceMetric) (node : string) (rule : FitnessRule) :
  string :=
  "Interface '" +:+ if_Name record +:+ "' in module '" +:+ node +:+ "' (line "
  +:+ itoa (if_Line record) +:+ ") exposes " +:+ itoa (if_PublicMethods record)
  +:+ " public methods, exceeding the limit of " +:+ format_f 0 (rule_Threshold rule)
  +:+ width_advice.

(** One interface record of the loop of [interfaceWidthViolations]. *)
Definition interface_record_violation (result : AnalysisResult) (rule : FitnessRule)
    (record : InterfaceMetric) : option Violation :=
  let value := f64_of_int (if_PublicMethods record) in
  if f64_le value (rule_Threshold rule) then None
  else if String.eqb (if_Kind record) "module" then
    Some (mkViolation "interface_width" (ar_CALMNode result) (ar_File result) "" "" "" value
            (rule_Threshold rule)
            (module_width_message (ar_CALMNode result) (if_PublicMethods record) rule))
  else
    Some (mkViolation "interface_width" (ar_CALMNode result) (ar_File result) "" ""
            (if_Name record) value (rule_Threshold rule)
            (interface_width_message record (ar_CALMNode result) rule)).

Definition interfaceWidthViolations (result : AnalysisResult) (pattern : Pattern) :
  list Violation :=
  match pat_FitnessFunctions pattern !! "interface-width" with
  | None => []
  | Some rule =>
      if negb (String.eqb (rule_Operator rule) "lte") then []
      else match ar_Interfaces result with
           | _ :: _ => omap (interface_record_violation result rule) (ar_Interfaces result)
           | [] =>
               let result := EnsureModuleMetric result in
               let n := mod_PublicMethods (ar_ModuleMetric result) in
               if f64_le (f64_of_int n) (rule_Threshold rule) then []
               else [mkViolation "interface_width" (ar_CALMNode result) (ar_File result) "" "" ""
                       (f64_of_int n) (rule_Threshold rule)
                       (module_width_message (ar_CALMNode result) n rule)]
           end
  end.

Definition implementationDepthViolations (result : AnalysisResult) (pattern : Pattern) :
  list Violation :=
  let result := EnsureModuleMetric result in
  let value := mod_AverageLOCPerPublicMethod (ar_ModuleMetric result) in
  match pat_FitnessFunctions pattern !! "implementation-depth" with
  | None => []
  | Some rule =>
      if negb (String.eqb (rule_Operator rule) "gte")
         || (mod_PublicMethods (ar_ModuleMetric result) =? 0)%Z
         || f64_ge value (rule_Threshold rule)
      then []
      else [mkViolation "implementation_depth" (ar_CALMNode result) (ar_File result) "" "" ""
              value (rule_Threshold rule)
              ("Module '" +:+ ar_CALMNode result +:+ "' averages " +:+ format_f 3 value
               +:+ " LOC per public method, below the minimum of "
               +:+ format_f 3 (rule_Threshold rule)
               +:+ ". Methods with little implementation may be unnecessary pass-throughs.")]
  end.

Definition density_message (result : AnalysisResult) (rule : FitnessRule) (advice : string) :
  string :=
  "File " +:+ quote (ar_File result) +:+ " has a Logic Density Ratio of "
  +:+ format_f 3 (file_LDR (ar_FileMetric result)) +:+ " (minimum: "
  +:+ format_f 3 (rule_Threshold rule) +:+ "). " +:+ advice.

Definition logicDensityViolations (result : AnalysisResult) (pattern : Pattern) :
  list Violation :=
  match pat_FitnessFunctions pattern !! "logic-density" with
  | None => []
  | Some rule =>
      if negb (String.eqb (rule_Operator rule) "gte")
         || (file_TotalLOC (ar_FileMetric result) =? 0)%Z
         || negb (LogicDensityApplicable result)
         || f64_ge (file_LDR (ar_FileMetric result)) (rule_Threshold rule)
      then []
      else
        let facade := String.eqb (ar_Language result) "python"
                      && String.eqb (ar_SourceKind result) SourceKindPythonExportFacade in
        [mkViolation "logic_density" (ar_CALMNode result) (ar_File result) ""
           (if facade then SourceKindPythonExportFacade else "") ""
           (file_LDR (ar_FileMetric result)) (rule_Threshold rule)
           (density_message result rule
              (if facade
               then "This file declares an explicit Python export facade, not executable forwarding logic. The raw density floor still applies; resolving this finding requires an explicit governance policy decision. Preserve required public exports; do not add fake logic or move business logic into the facade."
               else "The file may contain excessive boilerplate relative to functional logic."))]
  end.

Definition dependencyDisciplineViolations (result : AnalysisResult) (pattern : Pattern) :
  list Violation :=
  let imports := ar_Imports result in
  match pat_FitnessFunctions pattern !! "dependency-discipline" with
  | None => []
  | Some rule =>
      if negb (String.eqb (rule_Operator rule) "gte") || (imp_Total imports =? 0)%Z
         || f64_ge (imp_DDC imports) (rule_Threshold rule)
      then []
      else
        let joined := join (imp_Unused imports) ", " in
        let unused := if String.eqb joined "" then "none reported" else joined in
        [mkViolation "dependency_discipline" (ar_CALMNode result) (ar_File result) "" "" ""
           (imp_DDC imports) (rule_Threshold rule)
           ("File " +:+ quote (ar_File result) +:+ " has a Dependency Discipline ratio of "
            +:+ format_f 3 (imp_DDC imports) +:+ " (minimum: "
            +:+ format_f 3 (rule_Threshold rule) +:+ "). Unused imports: [" +:+ unused +:+ "].")]
  end.

Definition fitnessViolations (result : AnalysisResult) (pattern : Pattern) : list Violation :=
  cyclomaticComplexityViolations result pattern
  ++ interfaceWidthViolations result pattern
  ++ implementationDepthViolations result pattern
  ++ logicDensityViolations result pattern
  ++ dependencyDisciplineViolations result pattern.

(** The configuration key of a violation's function. *)
Definition function_key (v : Violation) : string :=
  replace_byte "_"%char "-"%char (v_FitnessFunction v).

Definition filterViolations (violations : list Violation) (config : Config) : list Violation :=
  filter (λ v, Enabled config (function_key v) = true) violations.

(** ** Reference definition *)

(** One measured quantity: the fitness function that bounds it, the direction
    of the bound, the function or interface it belongs to, and its value. *)
Record measurement := mkMeasurement {
  m_name : string;
  m_operator : string;
  m_function : string;
  m_interface : string;
  m_value : float64;
}.

(** Everything the five metric functions measure in a result, in their order.
    Undefined ratios are not measured: depth without public methods, density of
    an empty or embed-only file, discipline without imports. *)
Definition measurements (result : AnalysisResult) : list measurement :=
  let module := ar_ModuleMetric (EnsureModuleMetric result) in
  ((λ f, mkMeasurement "cyclomatic-complexity" "lte" (fn_Name f) ""
           (f64_of_int (fn_CyclomaticComplexity f))) <$> ar_Functions result)
  ++ (match ar_Interfaces result with
      | [] => [mkMeasurement "interface-width" "lte" "" "" (f64_of_int (mod_PublicMethods module))]
      | records =>
          (λ i, mkMeasurement "interface-width" "lte" ""
                  (if String.eqb (if_Kind i) "module" then "" else if_Name i)
                  (f64_of_int (if_PublicMethods i))) <$> records
      end)
  ++ (if (mod_PublicMethods module =? 0)%Z then []
      else [mkMeasurement "implementation-depth" "gte" "" "" (mod_AverageLOCPerPublicMethod module)])
  ++ (if (file_TotalLOC (ar_FileMetric result) =? 0)%Z || negb (LogicDensityApplicable result)
      then [] else [mkMeasurement "logic-density" "gte" "" "" (file_LDR (ar_FileMetric result))])
  ++ (if (imp_Total (ar_Imports result) =? 0)%Z then []
      else [mkMeasurement "dependency-discipline" "gte" "" "" (imp_DDC (ar_Imports result))]).

(** A bound is respected; neither direction is on NaN. *)
Definition respects (op : string) (value limit : float64) : bool :=
  if String.eqb op "lte" then f64_le value limit else f64_ge value limit.

(** The measurements that break a rule of the pattern, with the limit they
    break. *)
Definition breaches (pattern : Pattern) (ms : list measurement) : list (measurement * float64) :=
  omap (λ m, match pat_FitnessFunctions pattern !! m_name m with
             | Some rule =>
                 if String.eqb (rule_Operator rule) (m_operator m)
                    && negb (respects (m_operator m) (m_value m) (rule_Threshold rule))
                 then Some (m, rule_Threshold rule) else None
             | None => None
             end) ms.

(** What a violation reports, without its wording. *)
Definition reported (v : Violation) :
  string * string * string * string * string * float64 * float64 :=
  (function_key v, v_CALMNode v, v_File v, v_Function v, v_Interface v, v_Value v, v_Limit v).
Definition as_reported (result : AnalysisResult) (b : measurement * float64) :
  string * string * string * string * string * float64 * float64 :=
  (m_name b.1, ar_CALMNode result, ar_File result, m_function b.1, m_interface b.1,
   m_value b.1, b.2).
End scoring.

(** ** The routines against the reference definition *)

Section proofs.
Context {R : RegexpEngine} {U : UnicodeTables}.

Lemma breaches_app p ms1 ms2 : breaches p (ms1 ++ ms2) = breaches p ms1 ++ breaches p ms2.
Proof. apply omap_app. Qed.

Lemma Ensure_CALMNode r : ar_CALMNode (EnsureModuleMetric r) = ar_CALMNode r.
Proof. unfold EnsureModuleMetric. by case_match. Qed.
Lemma Ensure_File r : ar_File (EnsureModuleMetric r) = ar_File r.
Proof. unfold EnsureModuleMetric. by case_match. Qed.

(** A family of measurements under one rule, scored by [score]. *)
Lemma scored_family {A} (result : AnalysisResult) (pattern : Pattern) (name op : string)
    (rule : FitnessRule) (score : A → option Violation) (measure : A → measurement) (l : list A) :
  pat_FitnessFunctions pattern !! name = Some rule →
  rule_Operator rule = op →
  (∀ x, m_name (measure x) = name ∧ m_operator (measure x) = op) →
  (∀ x, reported <$> score x =
        if respects op (m_value (measure x)) (rule_Threshold rule) then None
        else Some (as_reported result (measure x, rule_Threshold rule))) →
  reported <$> omap score l = as_reported result <$> breaches pattern (measure <$> l).
Proof.
  intros Hrule Hop Hm Hs. induction l as [|x l IH]; [done|].
  destruct (Hm x) as [Hn Ho]. specialize (Hs x).
  unfold breaches in *. cbn [fmap list_fmap omap list_omap]. rewrite Hn, Ho, Hrule, Hop.
  rewrite String.eqb_refl. cbn [andb].
  destruct (respects op (m_value (measure x)) (rule_Threshold rule)); cbn [negb];
    destruct (score x); simplify_eq/=; rewrite <-IH; [done|]. by f_equal.
Qed.

Lemma no_rule_family {A} pattern name op (measure : A → measurement) (l : list A) :
  match pat_FitnessFunctions pattern !! name with
  | Some rule => rule_Operator rule ≠ op | None => True end →
  (∀ x, m_name (measure x) = name ∧ m_operator (measure x) = op) →
  breaches pattern (measure <$> l) = [].
Proof.
  intros Hr Hm. induction l as [|x l IH]; [done|]. destruct (Hm x) as [Hn Ho].
  unfold breaches in *. cbn [fmap list_fmap omap list_omap]. rewrite Hn, Ho, IH.
  destruct (pat_FitnessFunctions pattern !! name); [|done].
  by destruct (String.eqb_spec (rule_Operator f) op).
Qed.

Lemma cyclomatic_reference result pattern :
  reported <$> cyclomaticComplexityViolations result pattern =
  as_reported result <$> breaches pattern
    ((λ f, mkMeasurement "cyclomatic-complexity" "lte" (fn_Name f) ""
             (f64_of_int (fn_CyclomaticComplexity f))) <$> ar_Functions result).
Proof.
  unfold cyclomaticComplexityViolations.
  destruct (pat_FitnessFunctions pattern !! "cyclomatic-complexity") as [rule|] eqn:Hr.
  2:{ rewrite (no_rule_family _ "cyclomatic-complexity" "lte"); [done|by rewrite Hr|done]. }
  destruct (String.eqb_spec (rule_Operator rule) "lte") as [Ho|Ho]; cbn [negb].
  2:{ rewrite (no_rule_family _ "cyclomatic-complexity" "lte"); [done|by rewrite Hr|done]. }
  apply (scored_family _ _ "cyclomatic-complexity" "lte" rule); [done..|].
  intros f. unfold respects. rewrite String.eqb_refl. cbn [m_value]. by case_match.
Qed.

Lemma width_reference result pattern :
  reported <$> interfaceWidthViolations result pattern =
  as_reported result <$> breaches pattern
    (match ar_Interfaces result with
     | [] => [mkMeasurement "interface-width" "lte" "" ""
                (f64_of_int (mod_PublicMethods (ar_ModuleMetric (EnsureModuleMetric result))))]
     | records =>
         (λ i, mkMeasurement "interface-width" "lte" ""
                 (if String.eqb (if_Kind i) "module" then "" else if_Name i)
                 (f64_of_int (if_PublicMethods i))) <$> records
     end).
Proof.
  unfold interfaceWidthViolations.
  destruct (pat_FitnessFunctions pattern !! "interface-width") as [rule|] eqn:Hr.
  2:{ destruct (ar_Interfaces result).
      - unfold breaches. cbn. by rewrite Hr.
      - rewrite (no_rule_family _ "interface-width" "lte"); [done|by rewrite Hr|done]. }
  destruct (String.eqb_spec (rule_Operator rule) "lte") as [Ho|Ho]; cbn [negb].
  2:{ destruct (ar_Interfaces result).
      - unfold breaches. cbn. rewrite Hr. by destruct (String.eqb_spec (rule_Operator rule) "lte").
      - rewrite (no_rule_family _ "interface-width" "lte"); [done|by rewrite Hr|done]. }
  destruct (ar_Interfaces result) as [|i l] eqn:Hi.
  - unfold breaches. cbn -[EnsureModuleMetric f64_of_int f64_le module_width_message].
    rewrite Hr, Ho. cbn -[EnsureModuleMetric f64_of_int f64_le module_width_message].
    case_match; [done|].
    cbn -[EnsureModuleMetric f64_of_int f64_le module_width_message].
    unfold reported, as_reported. cbn -[EnsureModuleMetric f64_of_int].
    by rewrite Ensure_CALMNode, Ensure_File.
  - apply (scored_family _ _ "interface-width" "lte" rule); [done..|].
    intros x. unfold interface_record_violation, respects. rewrite String.eqb_refl. cbn [m_value].
    case_match; [done|]. unfold as_reported. cbn [fst snd m_name m_function m_interface m_value].
    by destruct (String.eqb (if_Kind x) "module").
Qed.

(** A single ratio with a floor, unless it is not measured. *)
Lemma floor_reference result pattern name (skip : bool) value (v : FitnessRule → Violation) :
  (∀ rule, reported (v rule) =
     as_reported result (mkMeasurement name "gte" "" "" value, rule_Threshold rule)) →
  reported <$> (match pat_FitnessFunctions pattern !! name with
                | None => []
                | Some rule =>
                    if negb (String.eqb (rule_Operator rule) "gte") || skip
                       || f64_ge value (rule_Threshold rule)
                    then [] else [v rule]
                end) =
  as_reported result <$> breaches pattern
    (if skip then [] else [mkMeasurement name "gte" "" "" value]).
Proof.
  intros Hv. unfold breaches. destruct (pat_FitnessFunctions pattern !! name) as [rule|] eqn:Hr.
  - destruct skip; cbn -[f64_ge].
    + by rewrite orb_true_r.
    + rewrite Hr. destruct (String.eqb (rule_Operator rule) "gte"); cbn -[f64_ge]; [|done].
      destruct (f64_ge value (rule_Threshold rule)); cbn; [done|]. by rewrite Hv.
  - destruct skip; cbn; [done|by rewrite Hr].
Qed.

Lemma depth_reference result pattern :
  let module := ar_ModuleMetric (EnsureModuleMetric result) in
  reported <$> implementationDepthViolations result pattern =
  as_reported result <$> breaches pattern
    (if (mod_PublicMethods module =? 0)%Z then []
     else [mkMeasurement "implementation-depth" "gte" "" "" (mod_AverageLOCPerPublicMethod module)]).
Proof.
  intros module. unfold implementationDepthViolations. fold module.
  eapply floor_reference. intros rule. unfold reported, as_reported. cbn -[EnsureModuleMetric].
  by rewrite Ensure_CALMNode, Ensure_File.
Qed.

Lemma density_reference result pattern :
  reported <$> logicDensityViolations result pattern =
  as_reported result <$> breaches pattern
    (if (file_TotalLOC (ar_FileMetric result) =? 0)%Z || negb (LogicDensityApplicable result)
     then [] else [mkMeasurement "logic-density" "gte" "" "" (file_LDR (ar_FileMetric result))]).
Proof.
  etransitivity; [|eapply floor_reference].
  - unfold logicDensityViolations. f_equal. case_match; [|done].
    rewrite !orb_assoc. reflexivity.
  - reflexivity.
Qed.

Lemma discipline_reference result pattern :
  reported <$> dependencyDisciplineViolations result pattern =
  as_reported result <$> breaches pattern
    (if (imp_Total (ar_Imports result) =? 0)%Z then []
     else [mkMeasurement "dependency-discipline" "gte" "" "" (imp_DDC (ar_Imports result))]).
Proof. by eapply floor_reference. Qed.

Lemma fitnessViolations_reported result pattern :
  reported <$> fitnessViolations result pattern =
  as_reported result <$> breaches pattern (measurements result).
Proof.
  unfold fitnessViolations, measurements. rewrite !breaches_app, !fmap_app.
  by rewrite cyclomatic_reference, width_reference, depth_reference, density_reference,
    discipline_reference.
Qed.

Lemma fitnessViolations_origin result pattern v :
  v ∈ fitnessViolations result pattern → v_File v = ar_File result ∧ v_CALMNode v = ar_CALMNode result.
Proof.
  intros Hv. assert (reported v ∈ reported <$> fitnessViolations result pattern) as H
    by (by apply list_elem_of_fmap_2).
  rewrite fitnessViolations_reported, list_elem_of_fmap in H.
  destruct H as (b & Heq & _). unfold reported, as_reported in Heq. by simplify_eq/=.
Qed.

Lemma elem_of_filterViolations v vs config :
  v ∈ filterViolations vs config ↔ Enabled config (function_key v) = true ∧ v ∈ vs.
Proof. unfold filterViolations. by rewrite list_elem_of_filter. Qed.

Lemma filter_reported (enabled : string → bool) (vs : list Violation)
    (bs : list (measurement * float64)) result :
  reported <$> vs = as_reported result <$> bs →
  reported <$> filter (λ v, enabled (function_key v) = true) vs =
  as_reported result <$> filter (λ b, enabled (m_name b.1) = true) bs.
Proof.
  revert bs. induction vs as [|v vs IH]; intros [|b bs] H; try done.
  injection H as Hk Hn Hf Hfn Hi Hv Hl Htl. rewrite !filter_cons, Hk.
  destruct (decide (enabled (m_name b.1) = true)); [|by apply IH].
  rewrite !fmap_cons. f_equal; [|by apply IH].
  unfold reported, as_reported. by rewrite Hk, Hn, Hf, Hfn, Hi, Hv, Hl.
Qed.

(** C39: the five metric routines and the configuration filter compute one
    reference definition: what is reported is exactly the measurements of the
    file that break the pattern's rule of their name and direction and whose
    function the repository enables, in the order they are measured, each with
    the node and file of the result, the function or interface measured, its
    value and the limit it breaks; an undefined ratio is never reported. *)
Theorem fitnessViolations_reference result pattern config :
  reported <$> filterViolations (fitnessViolations result pattern) config =
  as_reported result <$>
    filter (λ b, Enabled config (m_name b.1) = true) (breaches pattern (measurements result)).
Proof. apply filter_reported, fitnessViolations_reported. Qed.
End proofs.
