(* ===== verification/ContentScoring.v ===== *)
(** * Content scoring

    [internal/server/content_scoring.go]: the four functions scored from the
    proposed text or from the analyzer's findings rather than from a metric, and
    the text scan behind deterministic-ordering.  The three regular expressions
    of the file are written out as scanners. *)

From stdpp Require Import base gmap strings list fin_maps.
From Stdlib Require Import ZArith Lia Ascii.
From S2P Require Import Prelude GoStrings GoErrors GoFloat GoJson Fitness Metrics GovConfig Scoring.
Set Default Goal Selector "!".

(** ** Regular expressions *)

(** [FindAllStringIndex] for an expression that never matches the empty string:
    [m l] is the length of the match at the head of [l].  Matches are leftmost
    and do not overlap; [skip] counts the bytes of the match last found. *)
Fixpoint find_all (m : list ascii → option nat) (pos skip : nat) (l : list ascii) :
  list (nat * nat) :=
  match l with
  | [] => []
  | _ :: l' =>
      match skip with
      | S k => find_all m (S pos) k l'
      | O => match m l with
             | Some (S n) => (pos, pos + S n)%nat :: find_all m (S pos) n l'
             | _ => find_all m (S pos) 0 l'
             end
      end
  end.

(** [\s]. *)
Definition re_space (a : ascii) : bool :=
  let z := byte_val a in ((z =? 9) || (z =? 10) || (z =? 12) || (z =? 13) || (z =? 32))%Z.

Definition lower_byte (a : ascii) : ascii := byte_of (ascii_lower (byte_val a)).

(** The rest of [l] after the word [w] (in lower case), ignoring case. *)
Fixpoint strip_word (w l : list ascii) : option (list ascii) :=
  match w, l with
  | [], _ => Some l
  | a :: w', b :: l' => if decide (lower_byte b = a) then strip_word w' l' else None
  | _ :: _, [] => None
  end.

(** The rest after one or more spaces. *)
Definition strip_spaces (l : list ascii) : option (list ascii) :=
  match l with
  | a :: _ => if re_space a then Some (drop_while re_space l) else None
  | [] => None
  end.

(** [windowFunctionOpen]: (?i)OVER\s*\( *)
Definition windowFunctionOpen (l : list ascii) : option nat :=
  match strip_word (bytes "over") l with
  | Some l1 => match drop_while re_space l1 with
               | "("%char :: l2 => Some (length l - length l2)%nat
               | _ => None
               end
  | None => None
  end.

(** [orderByKeyword]: (?is)ORDER\s+BY\s+ *)
Definition orderByKeyword (l : list ascii) : option nat :=
  match ((strip_word (bytes "order") l ≫= strip_spaces) ≫= strip_word (bytes "by")) ≫= strip_spaces with
  | Some l' => Some (length l - length l')%nat
  | None => None
  end.

Definition identifier_byte (a : ascii) : bool :=
  let z := byte_val a in
  ((97 <=? z) && (z <=? 122) || (48 <=? z) && (z <=? 57) || (z =? 95))%Z.

(** [identifierRun]: [a-z0-9_]+ *)
Definition identifierRun (l : list ascii) : option nat :=
  match (length l - length (drop_while identifier_byte l))%nat with O => None | n => Some n end.

(** ** Window functions *)

Definition paren_step (depth : Z) (a : ascii) : Z :=
  if decide (a = "("%char) then (depth + 1)%Z
  else if decide (a = ")"%char) then (depth - 1)%Z else depth.

(** The loop of [balancedParenBody] from index [i]: the index of the paren that
    brings the depth back to zero. *)
Fixpoint close_index (depth : Z) (i : nat) (l : list ascii) : option nat :=
  match l with
  | [] => None
  | a :: l' =>
      if bool_decide (a = ")"%char) && (depth - 1 =? 0)%Z then Some i
      else close_index (paren_step depth a) (S i) l'
  end.

Definition balancedParenBody (content : string) (open : nat) : option string :=
  match close_index 0 open (drop open (bytes content)) with
  | Some i => Some (of_bytes (take (i - (open + 1)) (drop (open + 1) (bytes content))))
  | None => None
  end.

Definition parenDepthAt (text : string) (index : nat) : Z :=
  foldl paren_step 0%Z (take index (bytes text)).

Definition trailingOrderByClause (body : string) : option string :=
  foldl (λ clause m, if (parenDepthAt body (m : nat * nat).1 =? 0)%Z
                     then Some (of_bytes (drop m.2 (bytes body))) else clause)
        None (find_all orderByKeyword 0 0 (bytes body)).

Definition windowOrderByClauses (content : string) : list string :=
  omap (λ m, match balancedParenBody content ((m : nat * nat).2 - 1) with
             | None => None
             | Some body => match trailingOrderByClause body with
                            | None => None
                            | Some clause => Some (join (fields clause) " ")
                            end
             end)
       (find_all windowFunctionOpen 0 0 (bytes content)).

(** ** Tie-breakers *)

(** The last branch indexes the byte before the suffix, which
    [identifierMatchesToken_in_range] shows to exist. *)
Definition identifierMatchesToken (identifier token : string) : bool :=
  if String.eqb token "" || negb (has_suffix identifier token) then false
  else if String.eqb identifier token || has_prefix token "_" then true
  else bool_decide (bytes identifier !! (String.length identifier - String.length token - 1)%nat
                    = Some "_"%char).

Section tie_breakers.
Context {U : UnicodeTables}.

(** [identifierRun.FindAllString(strings.ToLower(clause), -1)]. *)
Definition identifiers (clause : string) : list string :=
  let lowered := to_lower clause in
  (λ m, of_bytes (take (m.2 - m.1)%nat (drop m.1 (bytes lowered))))
    <$> find_all identifierRun 0 0 (bytes lowered).

Definition containsTieBreaker (clause : string) (tokens : list string) : bool :=
  existsb (λ identifier, existsb (λ token, identifierMatchesToken identifier (to_lower token)) tokens)
          (identifiers clause).
End tie_breakers.

Definition maxReportedOrderByClause : nat := 80.

Definition truncateClause (clause : string) : string :=
  let rs := runes clause in
  if (length rs <=? maxReportedOrderByClause)%nat then clause
  else of_runes (take maxReportedOrderByClause rs) +:+ "...".

(** ** Findings *)

Definition findingsForRule (findings : list Finding) (rule : string) : list Finding :=
  filter (λ f, find_Rule f = rule) findings.

Definition maxReportedFindings : nat := 3.

Definition describe_finding (f : Finding) : string :=
  find_Kind f +:+ " at line " +:+ itoa (find_Line f).

Definition describeFindings (findings : list Finding) : list string :=
  (describe_finding <$> take maxReportedFindings findings)
  ++ (if (maxReportedFindings <? length findings)%nat
      then ["and " +:+ itoa (Z.of_nat (length findings - maxReportedFindings)) +:+ " more"]
      else []).

(** ** Scorers *)

Section scorers.
Context {R : RegexpEngine} {U : UnicodeTables}.

Record contentScoringInput := mkInput {
  in_request : ValidationRequest;
  in_config : Config;
  in_rule : FitnessRule;
  in_calmNode : string;
  in_findings : list Finding;
}.

(** The single per-file violation of a scorer with [n] hits. *)
Definition content_violation (input : contentScoringInput) (name : string) (n : nat)
    (message : string) : Violation :=
  mkViolation name (in_calmNode input) (req_File (in_request input)) "" "" ""
    (f64_of_int (Z.of_nat n)) (rule_Threshold (in_rule input)) message.

Definition file_prefix (input : contentScoringInput) : string :=
  "File " +:+ quote (req_File (in_request input)).
Definition limit_text (input : contentScoringInput) : string :=
  "(limit " +:+ format_f 0 (rule_Threshold (in_rule input)) +:+ "): [".

(** Each scorer returns its count and violations; [None] is a panic. *)
Definition scorer_result : Type := option (nat * list Violation).

Definition deterministicOrderingViolations (input : contentScoringInput) : scorer_result :=
  let tokens := TieBreakerTokens (in_config input) in
  let offenders :=
    truncateClause <$>
      filter (λ clause, containsTieBreaker clause tokens = false)
        (windowOrderByClauses (req_ProposedContent (in_request input))) in
  match offenders with
  | [] => Some (0%nat, [])
  | _ =>
      let n := length offenders in
      Some (n, [content_violation input "deterministic_ordering" n
        (file_prefix input +:+ " has " +:+ itoa (Z.of_nat n)
         +:+ " window function ORDER BY clause(s) without a unique tie-breaker "
         +:+ limit_text input +:+ join offenders "; " +:+ "]. "
         +:+ "Append a unique column such as the primary key to each ORDER BY so the row order is deterministic.")])
  end.

(** The loop of [layerSovereigntyViolations]: the names and the matches. *)
Fixpoint layer_hits (file content : string) (layers : list LayerRule) :
  option (list string * list string) :=
  match layers with
  | [] => Some ([], [])
  | layer :: rest =>
      if negb (MatchesPath layer file) then layer_hits file content rest
      else match ForbiddenMatches layer content with
           | None => None
           | Some found =>
               match layer_hits file content rest with
               | None => None
               | Some (names, matches) =>
                   match found with
                   | [] => Some (names, matches)
                   | _ => Some (lay_Name layer :: names, found ++ matches)
                   end
               end
           end
  end.

Definition layerSovereigntyViolations (input : contentScoringInput) : scorer_result :=
  match layer_hits (req_File (in_request input)) (req_ProposedContent (in_request input))
          (LayerRules (in_config input)) with
  | None => None
  | Some (_, []) => Some (0%nat, [])
  | Some (layerNames, matches) =>
      let n := length matches in
      Some (n, [content_violation input "layer_sovereignty" n
        (file_prefix input +:+ " belongs to layer(s) " +:+ join layerNames ", "
         +:+ ", which must not reference " +:+ itoa (Z.of_nat n) +:+ " forbidden pattern(s) "
         +:+ limit_text input +:+ join matches "; " +:+ "]. "
         +:+ "Route access through the layer's sanctioned interface instead of referencing these patterns directly.")])
  end.

Definition temporalPurityViolations (input : contentScoringInput) : scorer_result :=
  let found := findingsForRule (in_findings input) "temporal-purity" in
  match found with
  | [] => Some (0%nat, [])
  | _ =>
      let n := length found in
      Some (n, [content_violation input "temporal_purity" n
        (file_prefix input +:+ " constructs " +:+ itoa (Z.of_nat n) +:+ " naive timestamp(s) "
         +:+ limit_text input +:+ join (describeFindings found) "; " +:+ "]. "
         +:+ "Construct timestamps with an explicit time zone, such as datetime.now(timezone.utc), "
         +:+ "so the recorded instant is unambiguous.")])
  end.

Definition sqlCompositionSafetyViolations (input : contentScoringInput) : scorer_result :=
  let found := findingsForRule (in_findings input) "sql-composition-safety" in
  match found with
  | [] => Some (0%nat, [])
  | _ =>
      let n := length found in
      Some (n, [content_violation input "sql_composition_safety" n
        (file_prefix input +:+ " composes " +:+ itoa (Z.of_nat n)
         +:+ " SQL statement(s) via string interpolation "
         +:+ limit_text input +:+ join (describeFindings found) "; " +:+ "]. "
         +:+ "Use parameterized queries or a SQL composition API instead of building statements with "
         +:+ "f-strings, %-formatting, or .format().")])
  end.

Record contentScorer := mkScorer {
  sc_name : string;
  sc_operator : string;
  sc_score : contentScoringInput → scorer_result;
}.

Definition contentScorers : list contentScorer :=
  [mkScorer "deterministic-ordering" "lte" deterministicOrderingViolations;
   mkScorer "layer-sovereignty" "lte" layerSovereigntyViolations;
   mkScorer "temporal-purity" "lte" temporalPurityViolations;
   mkScorer "sql-composition-safety" "lte" sqlCompositionSafetyViolations].

(** The rule a scorer runs under, when it runs. *)
Definition scorer_rule (config : Config) (pattern : Pattern) (scorer : contentScorer) :
  option FitnessRule :=
  match pat_FitnessFunctions pattern !! sc_name scorer with
  | Some rule =>
      if String.eqb (rule_Operator rule) (sc_operator scorer) && Enabled config (sc_name scorer)
      then Some rule else None
  | None => None
  end.

(** The loop over the registry. *)
Fixpoint run_scorers (result : AnalysisResult) (request : ValidationRequest) (config : Config)
    (pattern : Pattern) (scorers : list contentScorer) (counts : gmap string Z) :
  option (gmap string Z * list Violation) :=
  match scorers with
  | [] => Some (counts, [])
  | scorer :: rest =>
      match scorer_rule config pattern scorer with
      | None => run_scorers result request config pattern rest counts
      | Some rule =>
          match sc_score scorer (mkInput request config rule (ar_CALMNode result)
                                   (ar_Findings result)) with
          | None => None
          | Some (count, scored) =>
              match run_scorers result request config pattern rest
                      (<[sc_name scorer := Z.of_nat count]> counts) with
              | None => None
              | Some (counts', violations) => Some (counts', scored ++ violations)
              end
          end
      end
  end.

(** [scoreContentFunctions] updates the result's counts in place. *)
Definition scoreContentFunctions (result : AnalysisResult) (request : ValidationRequest)
    (config : Config) (pattern : Pattern) : option (AnalysisResult * list Violation) :=
  match run_scorers result request config pattern contentScorers (ar_RuleCounts result) with
  | None => None
  | Some (counts, violations) => Some (set_RuleCounts counts result, violations)
  end.
End scorers.

(** ** Paren matching *)

(** The words in which every paren is matched. *)
Inductive balanced : list ascii → Prop :=
| balanced_nil : balanced []
| balanced_other a l : a ≠ "("%char → a ≠ ")"%char → balanced l → balanced (a :: l)
| balanced_nest l1 l2 : balanced l1 → balanced l2 → balanced ("("%char :: l1 ++ ")"%char :: l2).

(** The words that close [n] open parens. *)
Fixpoint closes (n : nat) (l : list ascii) : Prop :=
  match n with
  | O => balanced l
  | S m => ∃ b r, l = b ++ ")"%char :: r ∧ balanced b ∧ closes m r
  end.

Lemma closes_other n a l : a ≠ "("%char → a ≠ ")"%char → closes n l → closes n (a :: l).
Proof.
  intros H1 H2. destruct n as [|n]; [by constructor|].
  intros (b & r & -> & Hb & Hr). exists (a :: b), r. split; [done|]. split; [by constructor|done].
Qed.

Lemma closes_open n l : closes (S n) l → closes n ("("%char :: l).
Proof.
  intros (b & r & -> & Hb & Hr). destruct n as [|n]; [by apply balanced_nest|].
  destruct Hr as (b' & r' & -> & Hb' & Hr'). exists ("("%char :: b ++ ")"%char :: b'), r'.
  split; [by rewrite <-app_comm_cons, <-app_assoc|]. split; [by apply balanced_nest|done].
Qed.

Lemma close_index_sound l : ∀ n i j,
  close_index (Z.of_nat (S n)) i l = Some j →
  ∃ l1 l2, l = l1 ++ ")"%char :: l2 ∧ j = (i + length l1)%nat ∧ closes n l1.
Proof.
  induction l as [|a l IH]; intros n i j; [done|]. cbn [close_index]. unfold paren_step.
  case_bool_decide as Ha; cbn [andb].
  - subst a. destruct (Z.eqb_spec (Z.of_nat (S n) - 1) 0) as [Hz|Hz].
    + intros [= <-]. assert (n = 0)%nat as -> by lia.
      exists [], l. split_and!; [done|cbn; lia|constructor].
    + rewrite decide_False, decide_True by done. destruct n as [|n]; [lia|].
      replace (Z.of_nat (S (S n)) - 1)%Z with (Z.of_nat (S n)) by lia.
      intros (l1 & l2 & -> & -> & Hc)%IH. exists (")"%char :: l1), l2.
      split_and!; [done|cbn; lia|]. exists [], l1. by repeat constructor.
  - destruct (decide (a = "("%char)) as [->|Hne].
    + replace (Z.of_nat (S n) + 1)%Z with (Z.of_nat (S (S n))) by lia.
      intros (l1 & l2 & -> & -> & Hc)%IH. exists ("("%char :: l1), l2.
      split_and!; [done|cbn; lia|by apply closes_open].
    + rewrite decide_False by done. intros (l1 & l2 & -> & -> & Hc)%IH.
      exists (a :: l1), l2. split_and!; [done|cbn; lia|by apply closes_other].
Qed.

Lemma close_index_balanced b rest : balanced b → ∀ n i,
  close_index (Z.of_nat (S n)) i (b ++ rest) = close_index (Z.of_nat (S n)) (i + length b) rest.
Proof.
  intros Hb. revert rest. induction Hb as [|a l H1 H2 Hl IH|l1 l2 H1 IH1 H2 IH2]; intros rest n i.
  - cbn. by rewrite Nat.add_0_r.
  - cbn [close_index app]. unfold paren_step. rewrite bool_decide_false, !decide_False by done.
    cbn [andb]. rewrite IH. f_equal. cbn. lia.
  - cbn [close_index app]. unfold paren_step at 1.
    rewrite bool_decide_false, decide_True by done. cbn [andb].
    replace (Z.of_nat (S n) + 1)%Z with (Z.of_nat (S (S n))) by lia.
    rewrite <-app_assoc, IH1. cbn [close_index app]. unfold paren_step at 1.
    rewrite bool_decide_true, decide_False, decide_True by done. cbn [andb].
    destruct (Z.eqb_spec (Z.of_nat (S (S n)) - 1) 0); [lia|].
    replace (Z.of_nat (S (S n)) - 1)%Z with (Z.of_nat (S n)) by lia.
    rewrite IH2. f_equal. cbn [length]. rewrite length_app. cbn [length]. lia.
Qed.

(** From an opening paren, [balancedParenBody] returns the text up to the
    matching closing paren: the body is a balanced word followed by a closing
    paren, and whenever such a body exists it is the one returned, so a nested
    call never cuts a window clause short. *)
Theorem balancedParenBody_spec content open body
    (Hopen : bytes content !! open = Some "("%char) :
  balancedParenBody content open = Some body ↔
  balanced (bytes body) ∧
  ∃ post, drop (open + 1) (bytes content) = bytes body ++ ")"%char :: post.
Proof.
  unfold balancedParenBody.
  rewrite (drop_S _ _ _ Hopen). replace (open + 1)%nat with (S open) by lia.
  set (l := drop (S open) (bytes content)). cbn [close_index]. unfold paren_step.
  rewrite bool_decide_false, decide_True by done. cbn [andb]. change (0 + 1)%Z with (Z.of_nat 1).
  split.
  - destruct (close_index _ _ l) as [j|] eqn:Hj; [|done]. intros [= <-].
    apply close_index_sound in Hj as (l1 & l2 & Hl & -> & Hc). rewrite bytes_of_bytes, Hl.
    replace (S open + length l1 - S open)%nat with (length l1) by lia.
    rewrite (take_app_length l1). split; [exact Hc|by exists l2].
  - intros [Hb (post & Hl)]. rewrite Hl, (close_index_balanced _ _ Hb).
    cbn [close_index]. rewrite bool_decide_true by done. change (Z.of_nat 1 - 1 =? 0)%Z with true.
    cbn [andb].
    replace (S open + length (bytes body) - S open)%nat with (length (bytes body)) by lia.
    by rewrite take_app_length, of_bytes_bytes.
Qed.

Lemma balancedParenBody_spec_witness :
  bytes "f(a(b))c)" !! 1%nat = Some "("%char ∧
  balancedParenBody "f(a(b))c)" 1 = Some "a(b)" ∧ balanced (bytes "a(b)").
Proof.
  split; [reflexivity|]. split; [reflexivity|].
  apply (balancedParenBody_spec "f(a(b))c)" 1 "a(b)"); reflexivity.
Defined.

(** ** Tie-breaker matching *)

(** The index of the last branch is within the identifier. *)
Lemma identifierMatchesToken_in_range identifier token :
  has_suffix identifier token = true → identifier ≠ token →
  (String.length identifier - String.length token - 1 < String.length identifier)%nat ∧
  (String.length token < String.length identifier)%nat.
Proof.
  intros [q ->]%has_suffix_spec Hne. rewrite <-!length_bytes, bytes_app, length_app.
  assert (length (bytes q) ≠ 0)%nat; [|lia]. intros Hq%nil_length_inv. apply Hne.
  apply bytes_inj. by rewrite bytes_app, Hq.
Qed.

(** An identifier satisfies a token exactly when it is the token, or ends in
    it with an underscore at the boundary (the token's own first byte, or the
    byte before it); a bare substring or suffix never counts, and the byte the
    code inspects always exists. *)
Theorem identifierMatchesToken_spec identifier token :
  identifierMatchesToken identifier token = true ↔
  token ≠ "" ∧ ∃ p, identifier = p +:+ token ∧
    (p = "" ∨ has_prefix token "_" = true ∨ ∃ q, p = q +:+ "_").
Proof.
  unfold identifierMatchesToken. destruct (String.eqb_spec token "") as [->|Hne]; [naive_solver|].
  cbn [orb]. destruct (has_suffix identifier token) eqn:Hs; cbn [negb].
  2:{ split; [done|]. intros (_ & p & -> & _).
      assert (has_suffix (p +:+ token) token = true) by (apply has_suffix_spec; eauto). congruence. }
  apply has_suffix_spec in Hs as [p ->].
  destruct (String.eqb_spec (p +:+ token) token) as [He|Hpt]; cbn [orb].
  { split; [|done]. intros _. split; [done|]. exists p. split; [done|]. left.
    apply (f_equal (length ∘ bytes)) in He. cbn in He. rewrite bytes_app, length_app in He.
    apply bytes_inj. cbn. apply nil_length_inv. lia. }
  destruct (has_prefix token "_") eqn:Hu.
  { split; [|done]. intros _. split; [done|]. exists p. auto. }
  rewrite bool_decide_eq_true, <-!length_bytes, !bytes_app, length_app.
  replace (length (bytes p) + length (bytes token) - length (bytes token) - 1)%nat
    with (length (bytes p) - 1)%nat by lia.
  assert (bytes p ≠ []) as Hp.
  { intros Hp. apply Hpt. apply bytes_inj. by rewrite bytes_app, Hp. }
  destruct (bytes p) as [|a l _] eqn:Eb using rev_ind; [done|].
  rewrite length_app, Nat.add_sub, lookup_app_l by (rewrite length_app; cbn; lia).
  rewrite list_lookup_middle by done. split.
  - intros [= ->]. split; [done|]. exists p. split; [done|]. right. right. exists (of_bytes l).
    apply bytes_inj. by rewrite Eb, bytes_app, bytes_of_bytes.
  - intros (_ & p' & Heq & Hcase). apply (f_equal bytes) in Heq. rewrite !bytes_app in Heq.
    apply app_inv_tail, bytes_inj in Heq. subst p'.
    destruct Hcase as [->|[?|[q ->]]]; [by destruct l|done|].
    rewrite bytes_app in Eb. by apply app_inj_tail in Eb as [_ ->].
Qed.

(** ** The scorers against a reference count *)

Section reference.
Context {R : RegexpEngine} {U : UnicodeTables}.

(** The occurrences a layer forbids in [content], when its globs cover [file]. *)
Definition layer_count (file content : string) (r : LayerRule) : nat :=
  if existsb (matches_with globToRegexp (replace_byte "\"%char "/"%char file)) (lay_Paths r)
  then length (filter (λ s, matches_with regexp_compile content s = true) (lay_ForbiddenPatterns r))
  else 0.

(** How many occurrences of the function [name] a file has. *)
Definition hits (request : ValidationRequest) (config : Config) (findings : list Finding)
    (name : string) : nat :=
  if String.eqb name "deterministic-ordering" then
    length (filter (λ clause, containsTieBreaker clause (TieBreakerTokens config) = false)
              (windowOrderByClauses (req_ProposedContent request)))
  else if String.eqb name "layer-sovereignty" then
    sum_list (layer_count (req_File request) (req_ProposedContent request) <$> LayerRules config)
  else length (filter (λ f, find_Rule f = name) findings).

(** The wire name of a scorer's violations, by its configuration key. *)
Definition wire_name (name : string) : string := replace_byte "-"%char "_"%char name.

(** A scorer returns the reference count, and one violation exactly when it is
    not zero. *)
Definition scores (scorer : contentScorer) (input : contentScoringInput) : Prop :=
  let n := hits (in_request input) (in_config input) (in_findings input) (sc_name scorer) in
  ∃ message, sc_score scorer input =
    Some (n, if decide (n = 0%nat) then []
             else [content_violation input (wire_name (sc_name scorer)) n message]).

Lemma layer_hits_spec file content layers :
  Forall layer_wf layers →
  ∃ names matches, layer_hits file content layers = Some (names, matches) ∧
    length matches = sum_list (layer_count file content <$> layers).
Proof.
  induction 1 as [|r layers Hr _ (names & matches & Heq & Hlen)]; [by exists [], []|].
  cbn [layer_hits fmap list_fmap sum_list sum_list_with foldr].
  unfold layer_count at 1. rewrite (MatchesPath_wf _ _ Hr), (ForbiddenMatches_wf _ _ Hr).
  destruct (existsb _ (lay_Paths r)); cbn [negb]; [|by exists names, matches].
  rewrite Heq. destruct (filter _ (lay_ForbiddenPatterns r)) as [|s l] eqn:Hf.
  - by exists names, matches.
  - eexists _, _. split; [done|]. rewrite length_app, Hlen. done.
Qed.

Lemma contentScorers_score input :
  Forall layer_wf (LayerRules (in_config input)) →
  Forall (λ scorer, scores scorer input) contentScorers.
Proof.
  intros Hwf. unfold contentScorers. repeat apply Forall_cons_2; [..|by apply Forall_nil].
  - unfold scores. cbn [sc_name sc_score]. unfold hits. rewrite String.eqb_refl.
    unfold deterministicOrderingViolations.
    destruct (filter _ (windowOrderByClauses _)) as [|c l] eqn:E.
    + exists "". done.
    + cbn [fmap list_fmap length]. rewrite length_fmap. eexists. reflexivity.
  - unfold scores. cbn [sc_name sc_score]. unfold hits.
    change (String.eqb "layer-sovereignty" "deterministic-ordering") with false.
    rewrite String.eqb_refl. unfold layerSovereigntyViolations.
    destruct (layer_hits_spec (req_File (in_request input)) (req_ProposedContent (in_request input))
                _ Hwf) as (names & matches & -> & <-).
    destruct matches as [|m matches]; [by exists ""|]. eexists. reflexivity.
  - unfold scores. cbn [sc_name sc_score]. unfold hits.
    change (String.eqb "temporal-purity" "deterministic-ordering") with false.
    change (String.eqb "temporal-purity" "layer-sovereignty") with false.
    unfold temporalPurityViolations, findingsForRule.
    destruct (filter _ (in_findings input)) as [|f l]; [by exists ""|]. eexists. reflexivity.
  - unfold scores. cbn [sc_name sc_score]. unfold hits.
    change (String.eqb "sql-composition-safety" "deterministic-ordering") with false.
    change (String.eqb "sql-composition-safety" "layer-sovereignty") with false.
    unfold sqlCompositionSafetyViolations, findingsForRule.
    destruct (filter _ (in_findings input)) as [|f l]; [by exists ""|]. eexists. reflexivity.
Qed.

(** The violations a list of scorers owes, without their wording. *)
Definition owed (result : AnalysisResult) (request : ValidationRequest) (config : Config)
    (pattern : Pattern) (scorers : list contentScorer) :
  list (string * string * string * string * string * float64 * float64) :=
  omap (λ scorer,
          match scorer_rule config pattern scorer with
          | None => None
          | Some rule =>
              let n := hits request config (ar_Findings result) (sc_name scorer) in
              if decide (n = 0%nat) then None
              else Some (function_key (content_violation
                           (mkInput request config rule (ar_CALMNode result) (ar_Findings result))
                           (wire_name (sc_name scorer)) n ""),
                         ar_CALMNode result, req_File request, "", "",
                         f64_of_int (Z.of_nat n), rule_Threshold rule)
          end) scorers.

(** The scorers that run: their rule is declared with their operator and their
    function is enabled. *)
Definition active (config : Config) (pattern : Pattern) (scorers : list contentScorer)
    (name : string) : bool :=
  existsb (λ s, String.eqb (sc_name s) name && bool_decide (is_Some (scorer_rule config pattern s)))
    scorers.

Lemma active_cons config pattern s scorers name :
  active config pattern (s :: scorers) name =
  String.eqb (sc_name s) name && bool_decide (is_Some (scorer_rule config pattern s))
  || active config pattern scorers name.
Proof. done. Qed.

Lemma active_absent config pattern scorers name :
  name ∉ sc_name <$> scorers → active config pattern scorers name = false.
Proof.
  intros Hn. unfold active. induction scorers as [|s scorers IH]; [done|]. cbn [existsb].
  rewrite fmap_cons, not_elem_of_cons in Hn. destruct Hn as [Hs Hn]. rewrite (IH Hn).
  destruct (String.eqb_spec (sc_name s) name); [congruence|done].
Qed.

Lemma run_scorers_spec result request config pattern scorers counts :
  (∀ rule, Forall (λ scorer, scores scorer (mkInput request config rule (ar_CALMNode result)
                                              (ar_Findings result))) scorers) →
  NoDup (sc_name <$> scorers) →
  ∃ counts' vs, run_scorers result request config pattern scorers counts = Some (counts', vs) ∧
    reported <$> vs = owed result request config pattern scorers ∧
    ∀ name, counts' !! name =
      if active config pattern scorers name
      then Some (Z.of_nat (hits request config (ar_Findings result) name))
      else counts !! name.
Proof.
  intros Hs Hnd. revert counts. induction scorers as [|scorer scorers IH]; intros counts.
  { exists counts, []. done. }
  assert (∀ rule, Forall (λ scorer, scores scorer (mkInput request config rule
            (ar_CALMNode result) (ar_Findings result))) scorers) as Htl.
  { intros rule. specialize (Hs rule). by apply Forall_cons in Hs as [_ ?]. }
  rewrite fmap_cons in Hnd. apply NoDup_cons in Hnd as [Hnotin Hnd].
  cbn [run_scorers owed omap list_omap].
  destruct (scorer_rule config pattern scorer) as [rule|] eqn:Hr.
  - specialize (Hs rule). apply Forall_cons in Hs as [(message & Hscore) _].
    cbn [in_request in_config in_findings] in Hscore. rewrite Hscore.
    set (n := hits request config (ar_Findings result) (sc_name scorer)) in *.
    destruct (IH Htl Hnd (<[sc_name scorer := Z.of_nat n]> counts)) as (counts' & vs & -> & Hvs & Hc).
    eexists _, _. split; [done|]. split.
    + rewrite fmap_app, Hvs. destruct (decide (n = 0%nat)); [done|]. reflexivity.
    + intros name. rewrite Hc, active_cons, Hr, bool_decide_true, andb_true_r by eauto.
      destruct (String.eqb_spec (sc_name scorer) name) as [<-|Hne]; cbn [orb].
      * rewrite (active_absent _ _ _ _ Hnotin). apply lookup_insert_eq.
      * by rewrite lookup_insert_ne by done.
  - destruct (IH Htl Hnd counts) as (counts' & vs & -> & Hvs & Hc).
    exists counts', vs. split_and!; [done|exact Hvs|]. intros name.
    rewrite Hc, active_cons, Hr, bool_decide_false by (by intros [? ?]). by rewrite andb_false_r.
Qed.

(** On an accepted configuration the content scorers never panic; each
    function whose rule the pattern declares with its operator and which the
    repository enables gets its reference count recorded for the architecture
    document, every other count is left alone, and the violations are exactly
    one per such function with a non-zero count, in registry order, carrying
    that count: zero occurrences pass, one or more violate. *)
Theorem scoreContentFunctions_spec {O : GoMapOrder} {OL : GoMapOrderLaws O} {J : JsonErrorText}
    document config result request pattern (H : Parse document = Ok config) :
  ∃ counts vs,
    scoreContentFunctions result request config pattern = Some (set_RuleCounts counts result, vs) ∧
    reported <$> vs = owed result request config pattern contentScorers ∧
    ∀ name, counts !! name =
      if active config pattern contentScorers name
      then Some (Z.of_nat (hits request config (ar_Findings result) name))
      else ar_RuleCounts result !! name.
Proof.
  destruct (Parse_ok _ _ H) as (raw & _ & Hwf & _). unfold scoreContentFunctions.
  destruct (run_scorers_spec result request config pattern contentScorers (ar_RuleCounts result))
    as (counts & vs & -> & Hvs & Hc).
  - intros rule. apply contentScorers_score, (wf_layers _ Hwf).
  - apply (bool_decide_unpack _). vm_compute. done.
  - eauto.
Qed.

Lemma scoreContentFunctions_origin result request config pattern result' vs v :
  scoreContentFunctions result request config pattern = Some (result', vs) → v ∈ vs →
  v_File v = req_File request.
Proof.
  unfold scoreContentFunctions, contentScorers. intros H Hv.
  assert (∀ scorers counts counts' vs,
    Forall (λ s, ∀ i n l w, sc_score s i = Some (n, l) → w ∈ l → v_File w = req_File (in_request i)) scorers →
    run_scorers result request config pattern scorers counts = Some (counts', vs) → v ∈ vs →
    v_File v = req_File request) as Hgen.
  { clear H Hv. induction scorers as [|s scorers IH]; intros counts counts' vs' Hall; cbn [run_scorers].
    { intros [= <- <-] Hin. by apply not_elem_of_nil in Hin. }
    apply Forall_cons in Hall as [Hs Hall]. destruct (scorer_rule _ _ s); [|by apply IH].
    destruct (sc_score s _) as [[n scored]|] eqn:E; [|done].
    destruct (run_scorers _ _ _ _ scorers _) as [[c w]|] eqn:E'; [|done].
    intros [= <- <-] [Hin|Hin]%elem_of_app; [by apply (Hs _ _ _ _ E)|by eapply IH]. }
  destruct (run_scorers _ _ _ _ _ _) as [[c w]|] eqn:E; [|done]. injection H as <- <-.
  eapply Hgen; [|exact E|done]. clear.
  repeat apply Forall_cons_2; [..|by apply Forall_nil]; intros i n l w; cbn [sc_score].
  - unfold deterministicOrderingViolations. case_match; intros [= <- <-]; set_solver.
  - unfold layerSovereigntyViolations. destruct (layer_hits _ _ _) as [[a [|b c]]|]; [..|done]; intros [= <- <-]; set_solver.
  - unfold temporalPurityViolations. case_match; intros [= <- <-]; set_solver.
  - unfold sqlCompositionSafetyViolations. case_match; intros [= <- <-]; set_solver.
Qed.
End reference.

(** ** Evaluated instances *)

Module ContentExamples.
#[local] Existing Instances literal_regexp canonical_map_order canonical_map_order_laws
  basic_unicode basic_unicode_laws.
#[local] Instance no_json_text : JsonErrorText := id.

Definition layer_pattern : Pattern :=
  mkPattern "" "" "" "" {["layer-sovereignty" := mkRule "" f64_zero "lte" "file"]}.
Definition empty_result : AnalysisResult :=
  mkAnalysis "node" "go" "" "" [] zero_module (mkFile 0 0 0 f64_zero)
    (mkImport 0 0 [] f64_zero) [] ∅ [].
Definition layer_request : ValidationRequest := mkRequest "repo" "^a\.go$" "http" "go" false.

Lemma scoreContentFunctions_spec_witness :
  ∃ counts vs,
    scoreContentFunctions empty_result layer_request GovConfig.Examples.layers_config layer_pattern =
      Some (set_RuleCounts counts empty_result, vs) ∧
    counts !! "temporal-purity" = None.
Proof.
  destruct (scoreContentFunctions_spec GovConfig.Examples.layers_document
              GovConfig.Examples.layers_config empty_result layer_request layer_pattern
              GovConfig.Examples.Parse_layers) as (counts & vs & H & _ & Hc).
  exists counts, vs. split; [exact H|]. rewrite Hc. vm_compute. reflexivity.
Defined.

(** The clause of a window runs to its own closing paren; [paid_amount] is no
    tie-breaker, [employee_ID] is. *)
Definition window_sql : string :=
  "SELECT ROW_NUMBER() over  (PARTITION BY a ORDER  BY COALESCE(x, (y)) DESC, employee_ID ), rank() OVER (order by paid_amount, grid_position), OVER(ORDER BY z".

Example window_clauses :
  windowOrderByClauses window_sql =
    ["COALESCE(x, (y)) DESC, employee_ID"; "paid_amount, grid_position"] ∧
  (λ c, containsTieBreaker c defaultTieBreakerTokens) <$> windowOrderByClauses window_sql =
    [true; false].
Proof. vm_compute. done. Qed.
End ContentExamples.
