(* ===== verification/Report.v ===== *)
(** * Architecture report

    [internal/report/architecture.go]: the CALM architecture document built from
    an analysis result. *)

From stdpp Require Import base gmap strings list fin_maps.
From Stdlib Require Import ZArith Lia Ascii.
From S2P Require Import Prelude GoStrings GoFloat Fitness Metrics GovConfig Scoring.
Set Default Goal Selector "!".

(** ** Document *)

Record FitnessValues := mkFitness {
  fit_CyclomaticComplexity : float64;
  fit_InterfaceWidth : float64;
  fit_ImplementationDepth : float64;
  fit_LogicDensity : option float64;
  fit_DependencyDiscipline : float64;
  fit_LayerSovereignty : float64;
  fit_TemporalPurity : float64;
  fit_SQLCompositionSafety : float64;
  fit_DeterministicOrdering : float64;
}.

Record FileMetrics := mkFileMetrics {
  fm_TotalLines : Z;
  fm_LogicLines : Z;
  fm_LDR : float64;
  fm_SourceKind : string;
}.

Record ImportMetrics := mkImportMetrics {
  im_TotalImports : Z;
  im_UsedImports : Z;
  im_DDC : float64;
}.

Record Metadata := mkMetadata {
  md_Fitness : FitnessValues;
  md_ModuleMetrics : option ModuleMetric;
  md_FileMetrics : option FileMetrics;
  md_ImportMetrics : option ImportMetrics;
  md_Interfaces : list InterfaceMetric;
}.

Record Node := mkNode {
  node_UniqueID : string;
  node_NodeType : string;
  node_Name : string;
  node_Description : string;
  node_Metadata : Metadata;
}.

Record Interacts := mkInteracts { int_Actor : string; int_Nodes : list string }.

Record Relationship := mkRelationship {
  rel_UniqueID : string;
  rel_Description : string;
  rel_Interacts : Interacts;
}.

Record ArchitectureDocument := mkDocument {
  doc_Schema : string;
  doc_Nodes : list Node;
  doc_Relationships : list Relationship;
}.

(** ** Construction *)

(** [ruleCount]: the zero value for a missing key. *)
Definition ruleCount (counts : gmap string Z) (name : string) : Z :=
  default 0%Z (counts !! name).

Definition maxCyclomaticComplexity (functions : list FunctionMetric) : Z :=
  foldl (λ maximum f, if maximum <? fn_CyclomaticComplexity f
                      then fn_CyclomaticComplexity f else maximum)%Z 1%Z functions.

(** The class [A-Za-z0-9_-]; bytes of a rune outside ASCII are outside it. *)
Definition id_byte (a : ascii) : bool :=
  let z := byte_val a in
  ((65 <=? z) && (z <=? 90) || (97 <=? z) && (z <=? 122) || (48 <=? z) && (z <=? 57)
   || (z =? 95) || (z =? 45))%Z.

(** [nonIDCharacters.ReplaceAllString(value, "-")]: each run of other characters
    becomes one hyphen; [inside] tells whether a run is open. *)
Fixpoint replace_runs (inside : bool) (l : list ascii) : list ascii :=
  match l with
  | [] => []
  | a :: l' => if id_byte a then a :: replace_runs false l'
               else if inside then replace_runs true l' else "-"%char :: replace_runs true l'
  end.

Definition calmID (value : string) : string :=
  let id := trim (of_bytes (replace_runs false (bytes value))) "-" in
  if String.eqb id "" then "analyzed-node" else id.

Definition actor_fitness : FitnessValues :=
  mkFitness f64_one f64_one f64_one (Some f64_one) f64_one f64_zero f64_zero f64_zero f64_zero.

Definition BuildArchitecture (result : AnalysisResult) : ArchitectureDocument :=
  let result := EnsureModuleMetric result in
  let nodeID := calmID (ar_CALMNode result) in
  let actorID := nodeID +:+ "-actor" in
  let logicDensity :=
    if LogicDensityApplicable result then Some (file_LDR (ar_FileMetric result)) else None in
  let sourceKind := if negb (LogicDensityApplicable result) then ar_SourceKind result else "" in
  let count name := f64_of_int (ruleCount (ar_RuleCounts result) name) in
  mkDocument "https://calm.finos.org/release/1.2/meta/calm.json"
    [mkNode actorID "actor" (ar_CALMNode result +:+ " Actor")
       "Synthetic actor used to keep the analyzed CALM node reachable."
       (mkMetadata actor_fitness None None None []);
     mkNode nodeID "service" (ar_CALMNode result)
       ("Architecture fitness metrics for " +:+ ar_File result +:+ ".")
       (mkMetadata
          (mkFitness
             (f64_of_int (maxCyclomaticComplexity (ar_Functions result)))
             (f64_of_int (InterfaceWidth result))
             (mod_AverageLOCPerPublicMethod (ar_ModuleMetric result))
             logicDensity
             (imp_DDC (ar_Imports result))
             (count "layer-sovereignty") (count "temporal-purity")
             (count "sql-composition-safety") (count "deterministic-ordering"))
          (Some (ar_ModuleMetric result))
          (Some (mkFileMetrics (file_TotalLOC (ar_FileMetric result))
                   (file_LogicLOC (ar_FileMetric result)) (file_LDR (ar_FileMetric result)) sourceKind))
          (Some (mkImportMetrics (imp_Total (ar_Imports result)) (imp_Used (ar_Imports result))
                   (imp_DDC (ar_Imports result))))
          (ar_Interfaces result))]
    [mkRelationship (actorID +:+ "-to-" +:+ nodeID) "Synthetic actor uses the analyzed node."
       (mkInteracts actorID [nodeID])].

(** ** Node identifiers *)

Lemma replace_runs_id inside l : Forall (λ a, id_byte a = true) (replace_runs inside l).
Proof.
  revert inside. induction l as [|a l IH]; intros inside; [constructor|]. cbn [replace_runs].
  destruct (id_byte a) eqn:Ha; [by constructor|]. destruct inside; [done|]. by constructor.
Qed.

Lemma Forall_trim (P : ascii → Prop) s cut :
  Forall P (bytes s) → Forall P (bytes (trim s cut)).
Proof.
  intros H. unfold trim, trim_right, trim_left, drop_while_end. rewrite !bytes_of_bytes.
  apply Forall_rev, Forall_drop_while, Forall_rev, Forall_drop_while, H.
Qed.

Lemma drop_while_end_app {A} (p : A → bool) l : ∃ k, l = drop_while_end p l ++ k.
Proof.
  unfold drop_while_end. assert (∀ l', ∃ k, l' = k ++ drop_while p l') as Hd.
  { induction l' as [|x l' [k IH]]; [by exists []|]. cbn [drop_while].
    destruct (p x); [|by exists []]. exists (x :: k). cbn [app]. by rewrite <-IH. }
  destruct (Hd (rev l)) as [k Hk]. exists (rev k). rewrite <-rev_app_distr, <-Hk.
  by rewrite rev_involutive.
Qed.

Lemma drop_while_end_last {A} (p : A → bool) l x k : drop_while_end p l = k ++ [x] → p x = false.
Proof.
  unfold drop_while_end. intros H. apply (f_equal (@rev A)) in H.
  rewrite rev_involutive, rev_app_distr in H. exact (drop_while_head _ _ _ _ H).
Qed.

(** The first and last byte of a trimmed string are not in the cutset. *)
Lemma trim_ends s cut :
  (∀ a l, bytes (trim s cut) = a :: l → contains_byte cut a = false) ∧
  (∀ a l, bytes (trim s cut) = l ++ [a] → contains_byte cut a = false).
Proof.
  unfold trim, trim_right. rewrite bytes_of_bytes. split.
  - intros a l H. unfold trim_left in H. rewrite bytes_of_bytes in H.
    destruct (drop_while_end_app (contains_byte cut) (drop_while (contains_byte cut) (bytes s))) as [k Hk].
    rewrite H in Hk. exact (drop_while_head _ _ _ _ Hk).
  - intros a l H. exact (drop_while_end_last _ _ _ _ H).
Qed.

Lemma calmID_wf value :
  bytes (calmID value) ≠ [] ∧ Forall (λ a, id_byte a = true) (bytes (calmID value)) ∧
  has_prefix (calmID value) "-" = false.
Proof.
  unfold calmID. set (id := trim _ _). destruct (String.eqb_spec id "") as [_|Hne].
  { split_and!; [done| |reflexivity]. apply (bool_decide_unpack _). vm_compute. done. }
  split_and!.
  - intros H. apply Hne, bytes_inj. by rewrite H.
  - apply Forall_trim. rewrite bytes_of_bytes. apply replace_runs_id.
  - destruct (trim_ends (of_bytes (replace_runs false (bytes value))) "-") as [Hfirst _].
    fold id in Hfirst. destruct id as [|a s]; [done|].
    specialize (Hfirst a (bytes s) eq_refl). unfold has_prefix. cbn [String.prefix].
    destruct (ascii_dec "-" a) as [<-|]; [|done]. done.
Qed.

(** The document is referentially sound: it has an actor and a service node
    with distinct identifiers, both non-empty words over letters, digits,
    underscore and hyphen that do not start with a hyphen, and its one
    relationship runs from the actor to the service node. *)
Theorem BuildArchitecture_wf result :
  ∃ actor service rel,
    doc_Nodes (BuildArchitecture result) = [actor; service] ∧
    doc_Relationships (BuildArchitecture result) = [rel] ∧
    node_UniqueID actor ≠ node_UniqueID service ∧
    Forall (λ id, bytes id ≠ [] ∧ Forall (λ a, id_byte a = true) (bytes id) ∧
                  has_prefix id "-" = false)
      [node_UniqueID actor; node_UniqueID service] ∧
    int_Actor (rel_Interacts rel) = node_UniqueID actor ∧
    int_Nodes (rel_Interacts rel) = [node_UniqueID service].
Proof.
  unfold BuildArchitecture. cbn [doc_Nodes doc_Relationships].
  do 3 eexists. split; [reflexivity|]. split; [reflexivity|].
  cbn [node_UniqueID rel_Interacts int_Actor int_Nodes].
  set (id := calmID _). pose proof (calmID_wf (ar_CALMNode (EnsureModuleMetric result))) as Hid.
  fold id in Hid. split_and!; [| |done..].
  - intros H. apply (f_equal (length ∘ bytes)) in H. cbn in H.
    rewrite bytes_app, length_app in H. cbn in H. lia.
  - constructor; [|by constructor]. destruct Hid as (H1 & H2 & H3). rewrite bytes_app. split_and!.
    + by intros [? _]%app_eq_nil.
    + apply Forall_app. split; [done|]. apply (bool_decide_unpack _). vm_compute. done.
    + destruct id as [|a s]; [done|]. rewrite string_app_cons. revert H3. unfold has_prefix.
      cbn [String.prefix]. destruct (ascii_dec "-" a); [by destruct s|done].
Qed.

(** ** The document against the scores *)

Lemma foldl_max_origin {A} (f : A → Z) l z :
  let m := foldl (λ m x, if m <? f x then f x else m)%Z z l in
  m = z ∨ ∃ x, x ∈ l ∧ m = f x.
Proof.
  revert z. induction l as [|x l IH]; intros z; [by left|]. cbn [foldl].
  destruct (IH (if z <? f x then f x else z)%Z) as [Hm|(y & Hy & Hm)]; cbv zeta in Hm; cbv zeta.
  - rewrite Hm. destruct (z <? f x)%Z; [|by left]. right. exists x. split; [left|done].
  - right. exists y. split; [by right|done].
Qed.

Lemma foldl_max_upper {A} (f : A → Z) l z :
  let m := foldl (λ m x, if m <? f x then f x else m)%Z z l in
  (z ≤ m)%Z ∧ ∀ x, x ∈ l → (f x ≤ m)%Z.
Proof.
  revert z. induction l as [|y l IH]; intros z; cbn [foldl]; cbv zeta.
  { split; [lia|]. by intros x ?%not_elem_of_nil. }
  destruct (IH (if z <? f y then f y else z)%Z) as [Hz Hl]; cbv zeta in Hz, Hl.
  split; [destruct (Z.ltb_spec z (f y)); lia|].
  intros x [->|Hx]%elem_of_cons; [destruct (Z.ltb_spec z (f y)); lia|by apply Hl].
Qed.

Section agreement.
Context {R : RegexpEngine} {U : UnicodeTables}.

(** The two numbers of the document bounded from above. *)
Definition service_fitness (result : AnalysisResult) : option FitnessValues :=
  match doc_Nodes (BuildArchitecture result) with
  | [_; service] => Some (md_Fitness (node_Metadata service))
  | _ => None
  end.

Lemma omap_nil {A B} (f : A → option B) l x : omap f l = [] → x ∈ l → f x = None.
Proof.
  intros H Hx. destruct (f x) as [y|] eqn:E; [|done].
  assert (y ∈ omap f l) as Hy by (apply list_elem_of_omap; eauto). rewrite H in Hy.
  by apply not_elem_of_nil in Hy.
Qed.

Lemma cyclomatic_document result pattern rule :
  pat_FitnessFunctions pattern !! "cyclomatic-complexity" = Some rule →
  rule_Operator rule = "lte" → f64_le (f64_of_int 1) (rule_Threshold rule) = true →
  cyclomaticComplexityViolations result pattern = [] →
  f64_le (f64_of_int (maxCyclomaticComplexity (ar_Functions result))) (rule_Threshold rule) = true.
Proof.
  intros Hr Ho H1. unfold cyclomaticComplexityViolations. rewrite Hr, Ho, String.eqb_refl.
  cbn [negb]. intros Hnil. unfold maxCyclomaticComplexity.
  destruct (foldl_max_origin fn_CyclomaticComplexity (ar_Functions result) 1)
    as [Hm|(f & Hf & Hm)]; cbv zeta in Hm; rewrite Hm; [done|].
  pose proof (omap_nil _ _ _ Hnil Hf) as Hn. cbv beta zeta in Hn.
  destruct (f64_le (f64_of_int (fn_CyclomaticComplexity f)) _); done.
Qed.

Lemma width_document result pattern rule :
  pat_FitnessFunctions pattern !! "interface-width" = Some rule →
  rule_Operator rule = "lte" → f64_le (f64_of_int 0) (rule_Threshold rule) = true →
  interfaceWidthViolations result pattern = [] →
  f64_le (f64_of_int (InterfaceWidth result)) (rule_Threshold rule) = true.
Proof.
  intros Hr Ho H0. unfold interfaceWidthViolations, InterfaceWidth. rewrite Hr, Ho, String.eqb_refl.
  cbn [negb]. destruct (ar_Interfaces result) as [|i l] eqn:Hi.
  { cbv beta zeta. match goal with |- context [f64_le ?x ?y] => destruct (f64_le x y) end; done. }
  intros Hnil. destruct (foldl_max_origin if_PublicMethods (i :: l) 0)
    as [Hm|(f & Hf & Hm)]; cbv zeta in Hm; rewrite Hm; [done|].
  pose proof (omap_nil _ _ _ Hnil Hf) as Hn. unfold interface_record_violation in Hn. cbv beta zeta in Hn.
  destruct (f64_le (f64_of_int (if_PublicMethods f)) _); [done|]. by destruct (String.eqb (if_Kind f) "module").
Qed.

Lemma InterfaceWidth_Ensure result : InterfaceWidth (EnsureModuleMetric result) = InterfaceWidth result.
Proof.
  unfold InterfaceWidth. rewrite EnsureModuleMetric_idemp.
  assert (ar_Interfaces (EnsureModuleMetric result) = ar_Interfaces result) as ->; [|done].
  unfold EnsureModuleMetric. by case_match.
Qed.

(** A file the metric scorers find clean has a document that conforms to
    the pattern's two upper bounds: the complexity and the width written to the
    service node are the largest of the file's functions and interfaces (at
    least 1 and 0), and they respect the thresholds, so the CALM validator
    never contradicts a clean score on them. *)
Theorem clean_file_document_conforms result pattern rc rw
    (Hc : pat_FitnessFunctions pattern !! "cyclomatic-complexity" = Some rc)
    (Hco : rule_Operator rc = "lte") (Hc1 : f64_le (f64_of_int 1) (rule_Threshold rc) = true)
    (Hw : pat_FitnessFunctions pattern !! "interface-width" = Some rw)
    (Hwo : rule_Operator rw = "lte") (Hw0 : f64_le (f64_of_int 0) (rule_Threshold rw) = true)
    (Hclean : fitnessViolations result pattern = []) :
  ∃ fit complexity, service_fitness result = Some fit ∧
    fit_CyclomaticComplexity fit = f64_of_int complexity ∧
    (∀ f, f ∈ ar_Functions result → (fn_CyclomaticComplexity f ≤ complexity)%Z) ∧
    f64_le (fit_CyclomaticComplexity fit) (rule_Threshold rc) = true ∧
    fit_InterfaceWidth fit = f64_of_int (InterfaceWidth result) ∧
    f64_le (fit_InterfaceWidth fit) (rule_Threshold rw) = true.
Proof.
  unfold fitnessViolations in Hclean. apply app_eq_nil in Hclean as [Hcyc Hrest].
  apply app_eq_nil in Hrest as [Hwid _].
  eexists _, (maxCyclomaticComplexity (ar_Functions (EnsureModuleMetric result))).
  split; [reflexivity|].
  cbn [node_Metadata md_Fitness fit_CyclomaticComplexity fit_InterfaceWidth].
  assert (ar_Functions (EnsureModuleMetric result) = ar_Functions result) as ->
    by (unfold EnsureModuleMetric; by case_match).
  rewrite InterfaceWidth_Ensure. split_and!; [done| | |done|].
  - intros f Hf. by apply (foldl_max_upper fn_CyclomaticComplexity (ar_Functions result) 1).
  - by eapply cyclomatic_document.
  - by eapply width_document.
Qed.
End agreement.

Module ReportExamples.
#[local] Existing Instances basic_unicode.

Definition limits : Pattern :=
  mkPattern "" "" "" ""
    {["cyclomatic-complexity" := mkRule "" (f64_of_int 9) "lte" "function";
      "interface-width" := mkRule "" (f64_of_int 20) "lte" "module"]}.
Definition small_file : AnalysisResult :=
  mkAnalysis "api" "go" "api.go" ""
    [mkFunction "Serve" 4 true 10; mkFunction "route" 9 false 22] zero_module
    (mkFile 40 32 1 (f64_of_decimal 8 1)) (mkImport 0 0 [] f64_one) [] ∅ [].

Lemma clean_file_document_conforms_witness :
  ∃ fit complexity, service_fitness small_file = Some fit ∧
    fit_CyclomaticComplexity fit = f64_of_int complexity ∧
    f64_le (fit_CyclomaticComplexity fit) (f64_of_int 9) = true.
Proof.
  destruct (clean_file_document_conforms small_file limits
              (mkRule "" (f64_of_int 9) "lte" "function")
              (mkRule "" (f64_of_int 20) "lte" "module"))
    as (fit & complexity & H1 & H2 & _ & H3 & _); [vm_compute; reflexivity..|].
  exists fit, complexity. split_and!; assumption.
Defined.
End ReportExamples.
