(* ===== verification/GoNet.v ===== *)
(** * Network addresses

    The functions of packages [net] and [net/netip] that authentication and the
    listen-mode rules rely on: [net.SplitHostPort], [net.ParseIP] and
    [IP.IsLoopback]. *)

From stdpp Require Import base strings list.
From Stdlib Require Import ZArith Lia Ascii.
From S2P Require Import Prelude GoStrings.
Set Default Goal Selector "!".

(** ** Byte search *)

(** [strings.IndexByte]. *)
Fixpoint index_byte_from (i : nat) (b : ascii) (l : list ascii) : option nat :=
  match l with
  | [] => None
  | a :: l' => if Ascii.eqb a b then Some i else index_byte_from (S i) b l'
  end.
Definition index_byte (b : ascii) (l : list ascii) : option nat := index_byte_from 0 b l.

(** [strings.LastIndexByte]. *)
Definition last_index_byte (b : ascii) (l : list ascii) : option nat :=
  match index_byte b (rev l) with
  | Some i => Some (length l - S i)%nat
  | None => None
  end.

Definition has_byte (b : ascii) (l : list ascii) : bool := bool_decide (is_Some (index_byte b l)).

(** ** SplitHostPort *)

(** [net.SplitHostPort]; [None] is any of its errors. *)
Definition SplitHostPort (hostport : string) : option (string * string) :=
  let l := bytes hostport in
  match last_index_byte ":"%char l with
  | None => None
  | Some i =>
      let finish (host : list ascii) (j k : nat) :=
        if has_byte "["%char (drop j l) || has_byte "]"%char (drop k l) then None
        else Some (of_bytes host, of_bytes (drop (i + 1) l)) in
      match l with
      | "["%char :: _ =>
          match index_byte "]"%char l with
          | None => None
          | Some e =>
              if (e + 1 =? length l)%nat then None
              else if (e + 1 =? i)%nat then finish (take (e - 1) (drop 1 l)) 1%nat (e + 1)%nat
              else None
          end
      | _ =>
          let host := take i l in
          if has_byte ":"%char host then None else finish host 0%nat 0%nat
      end
  end.

(** ** ParseIP *)

Definition digit_val (a : ascii) : option Z :=
  let z := byte_val a in if ((48 <=? z) && (z <=? 57))%Z then Some (z - 48)%Z else None.

Definition hexdigit_val (a : ascii) : option Z :=
  let z := byte_val a in
  (if (48 <=? z) && (z <=? 57) then Some (z - 48)
   else if (97 <=? z) && (z <=? 102) then Some (z - 87)
   else if (65 <=? z) && (z <=? 70) then Some (z - 55)
   else None)%Z.

(** The loop of [netip.parseIPv4Fields]: [start] holds at the first byte and after
    a dot; [fields] are the octets read so far, latest first. *)
Fixpoint ipv4_fields (start : bool) (val : Z) (digLen : nat) (fields : list Z) (l : list ascii) :
  option (list Z) :=
  match l with
  | [] => if (length fields =? 3)%nat then Some (rev (val :: fields)) else None
  | a :: l' =>
      match digit_val a with
      | Some d =>
          if (digLen =? 1)%nat && (val =? 0)%Z then None
          else let val' := (val * 10 + d)%Z in
               if (255 <? val')%Z then None else ipv4_fields false val' (S digLen) fields l'
      | None =>
          if Ascii.eqb a "."%char then
            if start || bool_decide (l' = []) || (length fields =? 3)%nat then None
            else ipv4_fields true 0 0 (val :: fields) l'
          else None
      end
  end.

Definition parseIPv4 (l : list ascii) : option (list Z) := ipv4_fields true 0 0 [] l.

(** One hexadecimal group: its value, its number of digits and the rest;
    [None] when it has more than four digits. *)
Fixpoint hex_group (off : nat) (acc : Z) (l : list ascii) : option (Z * nat * list ascii) :=
  match l with
  | [] => Some (acc, off, l)
  | a :: l' =>
      match hexdigit_val a with
      | None => Some (acc, off, l)
      | Some d => if (3 <? off)%nat then None else hex_group (S off) (acc * 16 + d)%Z l'
      end
  end.

(** The loop of [netip.parseIPv6] with [i = 2 * (8 - fuel)] bytes read: the bytes
    so far in order, the position of the ellipsis, and the unread rest. *)
Fixpoint ipv6_groups (fuel : nat) (ip : list Z) (ellipsis : option nat) (s : list ascii) :
  option (list Z * option nat * list ascii) :=
  match fuel with
  | O => Some (ip, ellipsis, s)
  | S fuel' =>
      match hex_group 0 0 s with
      | None | Some (_, O, _) => None
      | Some (acc, _, rest) =>
          match rest with
          | "."%char :: _ =>
              if (bool_decide (ellipsis = None) && negb (length ip =? 12)%nat)
                 || (16 <? length ip + 4)%nat then None
              else match parseIPv4 s with
                   | Some octets => Some (ip ++ octets, ellipsis, [])
                   | None => None
                   end
          | [] => Some (ip ++ [(acc / 256)%Z; (acc mod 256)%Z], ellipsis, [])
          | c :: rest1 =>
              let ip' := ip ++ [(acc / 256)%Z; (acc mod 256)%Z] in
              if negb (Ascii.eqb c ":"%char) then None
              else match rest1 with
                   | [] => None
                   | ":"%char :: rest2 =>
                       if bool_decide (is_Some ellipsis) then None
                       else match rest2 with
                            | [] => Some (ip', Some (length ip'), [])
                            | _ => ipv6_groups fuel' ip' (Some (length ip')) rest2
                            end
                   | _ => ipv6_groups fuel' ip' ellipsis rest1
                   end
          end
      end
  end.

Definition parseIPv6 (s : list ascii) : option (list Z) :=
  let parsed :=
    match s with
    | ":"%char :: ":"%char :: [] => Some ([], Some 0%nat, [])
    | ":"%char :: ":"%char :: rest => ipv6_groups 8 [] (Some 0%nat) rest
    | _ => ipv6_groups 8 [] None s
    end in
  match parsed with
  | Some (ip, ellipsis, []) =>
      if (length ip <? 16)%nat then
        match ellipsis with
        | None => None
        | Some e => Some (take e ip ++ replicate (16 - length ip) 0%Z ++ drop e ip)
        end
      else if bool_decide (is_Some ellipsis) then None else Some ip
  | _ => None
  end.

Definition v4_in_v6 : list Z := replicate 10 0%Z ++ [255%Z; 255%Z].

(** [net.ParseIP]: 16 bytes; an IPv4 address in its mapped form, and any zone is
    refused. *)
Fixpoint first_separator (l : list ascii) : option ascii :=
  match l with
  | [] => None
  | a :: l' => if Ascii.eqb a "."%char || Ascii.eqb a ":"%char || Ascii.eqb a "%"%char
               then Some a else first_separator l'
  end.

Definition ParseIP (s : string) : option (list Z) :=
  let l := bytes s in
  match first_separator l with
  | Some "."%char => app v4_in_v6 <$> parseIPv4 l
  | Some ":"%char => if has_byte "%"%char l then None else parseIPv6 l
  | _ => None
  end.

(** [IP.IsLoopback]. *)
Definition IsLoopback (ip : list Z) : bool :=
  if decide (take 12 ip = v4_in_v6) then bool_decide (ip !! 12%nat = Some 127%Z)
  else bool_decide (ip = replicate 15 0%Z ++ [1%Z]).

Example addresses :
  SplitHostPort "127.0.0.1:7890" = Some ("127.0.0.1", "7890") ∧
  SplitHostPort "[::1]:80" = Some ("::1", "80") ∧
  SplitHostPort "::1:80" = None ∧ SplitHostPort "localhost" = None ∧
  (IsLoopback <$> ParseIP "127.8.0.1") = Some true ∧
  (IsLoopback <$> ParseIP "::1") = Some true ∧
  (IsLoopback <$> ParseIP "::ffff:127.0.0.1") = Some true ∧
  (IsLoopback <$> ParseIP "10.0.0.1") = Some false ∧
  (IsLoopback <$> ParseIP "fe80::1:2") = Some false ∧
  ParseIP "127.0.0.01" = None ∧ ParseIP "127.0.1" = None ∧ ParseIP "::1%lo" = None ∧
  ParseIP "1:2:3:4:5:6:7:8:9" = None ∧ ParseIP "1:2:3:4:5:6:7::" = Some [0;1;0;2;0;3;0;4;0;5;0;6;0;7;0;0]%Z.
Proof. vm_compute. done. Qed.
