(* ===== verification/Auth.v ===== *)
(** * Authentication and authorization

    [internal/server/auth.go]: how a request gets a caller identity, the policy
    loaded from [caller-repos.json], and the two authorization seams.  The
    requests carry what the code reads of an [http.Request]: certificates are
    their subject common names, and the values the code stores in the request
    context are fields. *)

From stdpp Require Import base gmap strings list fin_maps.
From Stdlib Require Import ZArith Lia Ascii.
From S2P Require Import Prelude GoStrings GoErrors GoJson GoNet RepoName GovConfig.
Set Default Goal Selector "!".

(** ** Requests *)

Record tls_state := mkTLS {
  tls_PeerCertificates : list string;
  tls_VerifiedChains : nat;
}.

Record http_request := mkHTTP {
  r_Method : string;
  r_RemoteAddr : string;
  r_TLS : option tls_state;
  r_ClientCN : string;
  r_Repo : string;
  r_Body : result goerror string;
  r_caller : option string;
  r_physicalRepo : option string;
}.

Definition with_caller (caller : string) (r : http_request) : http_request :=
  mkHTTP (r_Method r) (r_RemoteAddr r) (r_TLS r) (r_ClientCN r) (r_Repo r) (r_Body r)
    (Some caller) (r_physicalRepo r).
Definition withPhysicalRepoPath (repoPath : string) (r : http_request) : http_request :=
  mkHTTP (r_Method r) (r_RemoteAddr r) (r_TLS r) (r_ClientCN r) (r_Repo r) (r_Body r)
    (r_caller r) (Some repoPath).

Record Identity := mkIdentity {
  id_BuildRevision : string;
  id_BuildModified : bool;
  id_ListenMode : string;
  id_ConfigsDir : string;
}.

(** The rate limiter is shared state; here is whether there is one. *)
Record HandlerOptions := mkOptions {
  opt_RequireAuthentication : bool;
  opt_TrustedProxyHeaders : bool;
  opt_TrustedProxyClientCNs : list string;
  opt_RateLimiter : bool;
  opt_MaxConcurrentAnalysesPerRepo : Z;
  opt_DisableRegistration : bool;
  opt_Identity : Identity;
  opt_LocalHTTP : bool;
}.

(** ** The policy *)

Record CallerRepoPolicy := mkPolicy {
  pol_callers : gmap string (gset string);
  pol_admins : gset string;
}.

Record callerRepoDocument := mkBindings {
  bind_Callers : option (gmap string (list string));
  bind_Admins : option (list string);
}.

Definition localCallerName : string := "local".
Definition errUnauthenticated : goerror := ErrNew "unauthenticated caller".
Definition emptyCallerRepoPolicy : CallerRepoPolicy := mkPolicy ∅ ∅.

Definition Allows (p : CallerRepoPolicy) (caller repo : string) : bool :=
  if String.eqb caller "" || String.eqb repo "" then false
  else match pol_callers p !! caller with
       | None => false
       | Some repos => bool_decide (repo ∈ repos)
       end.

Definition IsAdmin (p : CallerRepoPolicy) (caller : string) : bool :=
  if String.eqb caller "" then false else bool_decide (caller ∈ pol_admins p).

(** A copy: equal to its argument, the maps being values here. *)
Definition cloneCallerRepoPolicy (policy : CallerRepoPolicy) : CallerRepoPolicy :=
  mkPolicy (pol_callers policy) (pol_admins policy).

Definition callerRepoBindingsFileName : string := "caller-repos.json".

Definition callerRepoBindingsPath (configDir : string) : string :=
  let cleanDir := path_clean configDir in
  if String.eqb (path_base cleanDir) "configs"
  then path_join [path_dir cleanDir; callerRepoBindingsFileName]
  else path_join [cleanDir; callerRepoBindingsFileName].

Definition normalizeCallerName (caller : string) : result goerror string :=
  let normalized := trim_space caller in
  if String.eqb normalized "" || contains_byte normalized "000"%char
  then Err (inputError "invalid caller identity" None)
  else Ok normalized.

Definition dec_repos : decoder (list string) := λ j old,
  default [] <$> dec_list "" dec_string j (Some old).

Definition dec_callerRepoDocument : decoder callerRepoDocument :=
  dec_struct
    [("callers", λ j d, (λ x, mkBindings x (bind_Admins d)) <$> dec_map [] dec_repos j (bind_Callers d));
     ("admins", λ j d, (λ x, mkBindings (bind_Callers d) x) <$> dec_list "" dec_string j (bind_Admins d))].

Section policy.
Context {U : UnicodeTables} {O : GoMapOrder} {J : JsonErrorText}.

(** The inner loop of [buildCallerRepoPolicy]. *)
Fixpoint add_repos (acc : gset string) (repos : list string) : result goerror (gset string) :=
  match repos with
  | [] => Ok acc
  | repo :: rest => let? repoName := validateRepoName repo in add_repos ({[repoName]} ∪ acc) rest
  end.

(** The loop over the callers. *)
Fixpoint add_callers (acc : gmap string (gset string)) (l : list (string * list string)) :
  result goerror (gmap string (gset string)) :=
  match l with
  | [] => Ok acc
  | (caller, repos) :: rest =>
      let? normalizedCaller := normalizeCallerName caller in
      let? bound := add_repos (default ∅ (acc !! normalizedCaller)) repos in
      add_callers (<[normalizedCaller := bound]> acc) rest
  end.

Fixpoint add_admins (acc : gset string) (l : list string) : result goerror (gset string) :=
  match l with
  | [] => Ok acc
  | caller :: rest =>
      let? normalizedCaller := normalizeCallerName caller in
      add_admins ({[normalizedCaller]} ∪ acc) rest
  end.

Definition buildCallerRepoPolicy (document : callerRepoDocument) : result goerror CallerRepoPolicy :=
  let? callers := add_callers ∅ (map_order (list string) (default ∅ (bind_Callers document))) in
  let? admins := add_admins ∅ (default [] (bind_Admins document)) in
  Ok (mkPolicy callers admins).

Definition parseCallerRepoPolicy (content : string) : result goerror CallerRepoPolicy :=
  let legacy (_ : unit) :=
    match unmarshal (dec_map [] dec_repos) None content with
    | Err err => Err (inputError "parsing caller-repos.json" (Some err))
    | Ok legacy => buildCallerRepoPolicy (mkBindings legacy None)
    end in
  match unmarshal dec_callerRepoDocument (mkBindings None None) content with
  | Ok document =>
      if bool_decide (is_Some (bind_Callers document)) || bool_decide (is_Some (bind_Admins document))
      then buildCallerRepoPolicy document else legacy tt
  | Err _ => legacy tt
  end.

Definition ValidateCallerRepoBindings (content : string) : option goerror :=
  match parseCallerRepoPolicy content with Ok _ => None | Err err => Some err end.

(** ** Identity *)

Definition externallyAssertedCaller (assertedName : string) : result goerror string :=
  match normalizeCallerName assertedName with
  | Err _ => Err errUnauthenticated
  | Ok caller => if String.eqb caller localCallerName then Err errUnauthenticated else Ok caller
  end.

Definition requireLoopbackPeer (r : http_request) : option goerror :=
  match SplitHostPort (r_RemoteAddr r) with
  | None => Some errUnauthenticated
  | Some (host, _) =>
      match ParseIP host with
      | None => Some errUnauthenticated
      | Some address => if negb (IsLoopback address) then Some errUnauthenticated else None
      end
  end.

Definition requestHasVerifiedPeerIdentity (r : http_request) : bool :=
  match r_TLS r with
  | None => false
  | Some t => (0 <? length (tls_PeerCertificates t))%nat && (0 <? tls_VerifiedChains t)%nat
  end.

Definition trustedProxyPeer (peer : string) (allowed : list string) : bool :=
  existsb (λ candidate, match normalizeCallerName candidate with
                        | Err _ => false
                        | Ok normalized => String.eqb normalized peer
                        end) allowed.

Definition extractProxyForwardedCaller (r : http_request) (trustedProxyClientCNs : list string) :
  result goerror string :=
  if negb (requestHasVerifiedPeerIdentity r) then Err errUnauthenticated
  else match r_TLS r with
       | Some (mkTLS (cn :: _) _) =>
           match normalizeCallerName cn with
           | Err _ => Err errUnauthenticated
           | Ok proxyPeer =>
               if negb (trustedProxyPeer proxyPeer trustedProxyClientCNs)
               then Err errUnauthenticated
               else externallyAssertedCaller (r_ClientCN r)
           end
       | _ => Err errUnauthenticated
       end.

Definition extractPeerCertificateCaller (r : http_request) : result goerror string :=
  match r_TLS r with
  | Some (mkTLS (cn :: _) _) => externallyAssertedCaller cn
  | _ => Err errUnauthenticated
  end.

Definition extractCallerName (r : http_request) (options : HandlerOptions) : result goerror string :=
  if opt_LocalHTTP options then
    match requireLoopbackPeer r with
    | Some err => Err err
    | None => Ok localCallerName
    end
  else if opt_TrustedProxyHeaders options
  then extractProxyForwardedCaller r (opt_TrustedProxyClientCNs options)
  else extractPeerCertificateCaller r.

(** The value and presence of the caller in the request context. *)
Definition authenticatedCaller (r : http_request) : string * bool :=
  match r_caller r with
  | Some caller => (caller, negb (String.eqb caller ""))
  | None => ("", false)
  end.

(** ** Authorization *)

(** [callerAuthorizedForRepo] and [callerIsAdmin] over the policy of the store;
    no store is no policy. *)
Definition callerAuthorizedForRepo (options : HandlerOptions) (store : option CallerRepoPolicy)
    (caller repo : string) : bool :=
  if opt_LocalHTTP options then true
  else match store with Some p => Allows p caller repo | None => false end.

Definition callerIsAdmin (options : HandlerOptions) (store : option CallerRepoPolicy)
    (caller : string) : bool :=
  if opt_LocalHTTP options then true
  else match store with Some p => IsAdmin p caller | None => false end.

Definition authorizeRepoAccess (options : HandlerOptions) (store : option CallerRepoPolicy)
    (caller repo : string) : result goerror string :=
  let? repoName := canonicalRepoName repo in
  if negb (callerAuthorizedForRepo options store caller repoName)
  then Err (ErrNew ("caller " +:+ quote caller +:+ " is not authorized for repository " +:+ quote repoName))
  else Ok repoName.
End policy.

(** ** Server TLS inputs *)

Record ServerTLSConfig := mkServerTLS {
  tls_CertPath : string;
  tls_KeyPath : string;
  tls_CAPath : string;
}.

Definition tls_Enabled (c : ServerTLSConfig) : bool :=
  negb (String.eqb (tls_CertPath c) "") || negb (String.eqb (tls_KeyPath c) "")
  || negb (String.eqb (tls_CAPath c) "").

Definition tls_Validate (c : ServerTLSConfig) : option goerror :=
  if negb (tls_Enabled c) then None
  else if String.eqb (tls_CertPath c) "" || String.eqb (tls_KeyPath c) ""
          || String.eqb (tls_CAPath c) ""
  then Some (ErrNew ("tls requires --tls-cert, --tls-key, and --tls-ca " +:+
         "(or AGENT_FITNESS_FUNCTIONS_TLS_CERT, AGENT_FITNESS_FUNCTIONS_TLS_KEY, and AGENT_FITNESS_FUNCTIONS_TLS_CA)"))
  else None.

(** ** Correctness of the policy *)

Section policy_spec.
Context {U : UnicodeTables} {O : GoMapOrder} {OL : GoMapOrderLaws O} {J : JsonErrorText}.

(** What a document grants: the caller and repository after normalization. *)
Definition grants (document : callerRepoDocument) (caller repo : string) : Prop :=
  ∃ raw repos rawRepo, default ∅ (bind_Callers document) !! raw = Some repos ∧
    normalizeCallerName raw = Ok caller ∧ rawRepo ∈ repos ∧ validateRepoName rawRepo = Ok repo.
Definition names_admin (document : callerRepoDocument) (caller : string) : Prop :=
  ∃ raw, raw ∈ default [] (bind_Admins document) ∧ normalizeCallerName raw = Ok caller.

(** Every name of the document is well formed. *)
Definition bindings_valid (document : callerRepoDocument) : Prop :=
  (∀ raw repos, default ∅ (bind_Callers document) !! raw = Some repos →
     is_ok (normalizeCallerName raw) = true ∧
     Forall (λ repo, is_ok (validateRepoName repo) = true) repos) ∧
  Forall (λ raw, is_ok (normalizeCallerName raw) = true) (default [] (bind_Admins document)).

Lemma normalizeCallerName_ok caller name :
  normalizeCallerName caller = Ok name → name ≠ "" ∧ contains_byte name "000"%char = false.
Proof.
  unfold normalizeCallerName. destruct (String.eqb_spec (trim_space caller) ""); [done|].
  cbn [orb]. destruct (contains_byte _ _) eqn:E; [done|]. by intros [= <-].
Qed.

Lemma add_repos_spec acc repos :
  match add_repos acc repos with
  | Ok bound => Forall (λ repo, is_ok (validateRepoName repo) = true) repos ∧
      ∀ repo, repo ∈ bound ↔ repo ∈ acc ∨ ∃ raw, raw ∈ repos ∧ validateRepoName raw = Ok repo
  | Err e => ¬ Forall (λ repo, is_ok (validateRepoName repo) = true) repos ∧
      e = inputError "invalid repository name" None
  end.
Proof.
  revert acc. induction repos as [|raw repos IH]; intros acc; cbn [add_repos].
  { split; [constructor|]. set_solver. }
  destruct (validateRepoName raw) as [name|e] eqn:Hv.
  - specialize (IH ({[name]} ∪ acc)). destruct (add_repos _ repos) as [bound|e'].
    + destruct IH as [Hall Hb]. split; [constructor; [by rewrite Hv|done]|].
      intros repo. rewrite Hb, exists_elem_cons, Hv, elem_of_union, elem_of_singleton. naive_solver.
    + destruct IH as [Hn ->]. split; [|done]. rewrite Forall_cons. by intros [_ ?].
  - split; [|by eapply validateRepoName_err]. rewrite Forall_cons, Hv. by intros [? _].
Qed.

Lemma add_callers_spec acc l :
  match add_callers acc l with
  | Ok m => Forall (λ kv, is_ok (normalizeCallerName kv.1) = true ∧
                     Forall (λ repo, is_ok (validateRepoName repo) = true) kv.2) l ∧
      ∀ caller repo, repo ∈ default ∅ (m !! caller) ↔
        repo ∈ default ∅ (acc !! caller) ∨
        ∃ raw repos rawRepo, (raw, repos) ∈ l ∧ normalizeCallerName raw = Ok caller ∧
          rawRepo ∈ repos ∧ validateRepoName rawRepo = Ok repo
  | Err e => ¬ Forall (λ kv, is_ok (normalizeCallerName kv.1) = true ∧
                       Forall (λ repo, is_ok (validateRepoName repo) = true) kv.2) l ∧
      error_kind e = Some ErrorKindInput
  end.
Proof.
  revert acc. induction l as [|[raw repos] l IH]; intros acc; cbn [add_callers].
  { split; [constructor|]. set_solver. }
  destruct (normalizeCallerName raw) as [name|e] eqn:Hn.
  2:{ split; [rewrite Forall_cons; cbn [fst]; rewrite Hn; by intros [[? _] _]|]. revert Hn. unfold normalizeCallerName.
      case_match; [by intros [= <-]|done]. }
  pose proof (add_repos_spec (default ∅ (acc !! name)) repos) as Hr.
  destruct (add_repos _ repos) as [bound|e].
  2:{ destruct Hr as [Hbad ->]. split; [rewrite Forall_cons; cbn [snd]; by intros [[_ ?] _]|done]. }
  destruct Hr as [Hok Hb]. specialize (IH (<[name := bound]> acc)).
  destruct (add_callers _ l) as [m|e].
  2:{ destruct IH as [Hbad He]. split; [rewrite Forall_cons; by intros [_ ?]|done]. }
  destruct IH as [Hall Hm].
  split; [apply Forall_cons; cbn [fst snd]; by rewrite Hn|]. intros caller repo. rewrite Hm.
  destruct (decide (name = caller)) as [<-|Hne].
  - rewrite lookup_insert_eq. cbn [default from_option id]. rewrite Hb. split.
    + intros [[?|(r & ? & ?)]|(raw' & repos' & r & ? & ?)]; [by left|right..].
      * exists raw, repos, r. split; [left|done].
      * exists raw', repos', r. split; [by right|done].
    + intros [?|(raw' & repos' & r & [[= -> ->]|?]%elem_of_cons & ? & ? & ?)]; [by left; left|..].
      * left. right. eauto.
      * right. exists raw', repos', r. done.
  - rewrite lookup_insert_ne by done. split.
    + intros [?|(raw' & repos' & r & ? & ?)]; [by left|right].
      exists raw', repos', r. split; [by right|done].
    + intros [?|(raw' & repos' & r & [[= -> ->]|?]%elem_of_cons & ? & ? & ?)]; [by left|congruence|].
      right. exists raw', repos', r. done.
Qed.

Lemma add_admins_spec acc l :
  match add_admins acc l with
  | Ok admins => Forall (λ raw, is_ok (normalizeCallerName raw) = true) l ∧
      ∀ caller, caller ∈ admins ↔ caller ∈ acc ∨ ∃ raw, raw ∈ l ∧ normalizeCallerName raw = Ok caller
  | Err e => ¬ Forall (λ raw, is_ok (normalizeCallerName raw) = true) l ∧
      error_kind e = Some ErrorKindInput
  end.
Proof.
  revert acc. induction l as [|raw l IH]; intros acc; cbn [add_admins].
  { split; [constructor|]. set_solver. }
  destruct (normalizeCallerName raw) as [name|e] eqn:Hn.
  2:{ split; [rewrite Forall_cons, Hn; by intros [? _]|]. revert Hn. unfold normalizeCallerName.
      case_match; [by intros [= <-]|done]. }
  specialize (IH ({[name]} ∪ acc)). destruct (add_admins _ l) as [admins|e].
  - destruct IH as [Hall Ha]. split; [apply Forall_cons; by rewrite Hn|]. intros caller.
    rewrite Ha, exists_elem_cons, Hn, elem_of_union, elem_of_singleton. naive_solver.
  - destruct IH as [Hbad He]. split; [rewrite Forall_cons; by intros [_ ?]|done].
Qed.

Lemma Forall_map_order {A} (P : string * A → Prop) (m : gmap string A) :
  Forall P (map_order A m) ↔ ∀ k x, m !! k = Some x → P (k, x).
Proof.
  rewrite Forall_forall. split.
  - intros H k x Hx. apply H. by apply elem_of_map_order.
  - intros H [k x] Hx. apply H. by apply elem_of_map_order.
Qed.

Lemma validateRepoName_nonempty raw repo : validateRepoName raw = Ok repo → repo ≠ "".
Proof. intros [H _]%validateRepoName_ok. by apply repoNamePattern_nonempty. Qed.

Lemma buildCallerRepoPolicy_grants document p caller repo :
  buildCallerRepoPolicy document = Ok p → (Allows p caller repo = true ↔ grants document caller repo).
Proof.
  unfold buildCallerRepoPolicy. intros H.
  pose proof (add_callers_spec ∅ (map_order _ (default ∅ (bind_Callers document)))) as Hc.
  destruct (add_callers _ _) as [m|]; [|done].
  destruct (add_admins _ _) as [admins|]; [|done]. injection H as <-. destruct Hc as [_ Hm].
  assert (grants document caller repo ↔ repo ∈ default ∅ (m !! caller)) as ->.
  { rewrite Hm, lookup_empty. unfold grants. cbn. split.
    - intros (raw & repos & rawRepo & Hl & ? & ? & ?). right. exists raw, repos, rawRepo.
      by rewrite elem_of_map_order.
    - intros [?|(raw & repos & rawRepo & Hl & ?)]; [set_solver|]. exists raw, repos, rawRepo.
      by rewrite <-elem_of_map_order. }
  unfold Allows. cbn [pol_callers]. destruct (m !! caller) as [repos|] eqn:Hl; cbn.
  - destruct (String.eqb_spec caller "") as [->|]; cbn [orb].
    { split; [done|]. intros Hr. exfalso. specialize (Hm "" repo). rewrite Hl in Hm. cbn in Hm.
      apply Hm in Hr as [Hr|(raw & ? & ? & _ & Hn & _)]; [by rewrite lookup_empty in Hr; set_solver|].
      by apply normalizeCallerName_ok in Hn as [? _]. }
    destruct (String.eqb_spec repo "") as [->|].
    { split; [done|]. intros Hr. exfalso. specialize (Hm caller ""). rewrite Hl in Hm. cbn in Hm.
      apply Hm in Hr as [Hr|(raw & ? & ? & _ & _ & _ & Hv)]; [by rewrite lookup_empty in Hr; set_solver|].
      by apply validateRepoName_nonempty in Hv. }
    by rewrite bool_decide_eq_true.
  - destruct (_ || _); set_solver.
Qed.

(** A caller policy grants exactly what its document says after
    normalization, whatever order the map is visited in: a caller is allowed a
    repository when some entry normalizing to it lists a name validating to the
    repository, and is an admin when listed as one; loading is all or nothing:
    it succeeds exactly when every name in the document is well formed, and
    otherwise fails with an input error. *)
Theorem buildCallerRepoPolicy_spec document :
  match buildCallerRepoPolicy document with
  | Ok p => bindings_valid document ∧
      (∀ caller repo, Allows p caller repo = true ↔ grants document caller repo) ∧
      (∀ caller, IsAdmin p caller = true ↔ names_admin document caller)
  | Err e => ¬ bindings_valid document ∧ error_kind e = Some ErrorKindInput
  end.
Proof.
  pose proof (λ p caller repo, buildCallerRepoPolicy_grants document p caller repo) as Hgrants.
  unfold buildCallerRepoPolicy in *.
  pose proof (add_callers_spec ∅ (map_order _ (default ∅ (bind_Callers document)))) as Hc.
  pose proof (add_admins_spec ∅ (default [] (bind_Admins document))) as Ha.
  unfold bindings_valid. destruct (add_callers _ _) as [m|e].
  2:{ destruct Hc as [Hbad He]. split; [|done]. intros [Hok _]. apply Hbad, Forall_map_order.
      intros k x Hx. exact (Hok k x Hx). }
  destruct Hc as [Hc _]. rewrite Forall_map_order in Hc. destruct (add_admins _ _) as [admins|e].
  2:{ destruct Ha as [Hbad He]. split; [|done]. by intros [_ ?]. }
  destruct Ha as [Hall Ha]. split_and!; [done|done|by intros; apply Hgrants|].
  intros caller. unfold IsAdmin, names_admin. cbn [pol_admins].
  destruct (String.eqb_spec caller "") as [->|].
  - split; [done|]. intros (raw & _ & Hn). by apply normalizeCallerName_ok in Hn as [? _].
  - rewrite bool_decide_eq_true, Ha. set_solver.
Qed.

(** Authentication is sound and the local identity cannot be asserted from
    outside: in the local listen mode exactly loopback peers are authenticated,
    as "local"; in every other mode a caller comes from the peer certificate, or
    from the header of a verified and trusted proxy, is never "local" nor empty;
    every failure is the one unauthenticated error. *)
Lemma extractCallerName_spec r options :
  match extractCallerName r options with
  | Err e => e = errUnauthenticated
  | Ok caller =>
      if opt_LocalHTTP options then
        caller = localCallerName ∧
        ∃ host port ip, SplitHostPort (r_RemoteAddr r) = Some (host, port) ∧
          ParseIP host = Some ip ∧ IsLoopback ip = true
      else
        caller ≠ localCallerName ∧ caller ≠ "" ∧
        ∃ t cn rest, r_TLS r = Some t ∧ tls_PeerCertificates t = cn :: rest ∧
          if opt_TrustedProxyHeaders options then
            (0 < tls_VerifiedChains t)%nat ∧ normalizeCallerName (r_ClientCN r) = Ok caller ∧
            ∃ proxy allowed, normalizeCallerName cn = Ok proxy ∧
              allowed ∈ opt_TrustedProxyClientCNs options ∧ normalizeCallerName allowed = Ok proxy
          else normalizeCallerName cn = Ok caller
  end.
Proof.
  assert (∀ name, match externallyAssertedCaller name with
                  | Ok caller => caller ≠ localCallerName ∧ caller ≠ "" ∧ normalizeCallerName name = Ok caller
                  | Err e => e = errUnauthenticated end) as Hext.
  { intros name. unfold externallyAssertedCaller. destruct (normalizeCallerName name) eqn:Hn; [|done].
    destruct (String.eqb_spec a localCallerName); [done|].
    by apply normalizeCallerName_ok in Hn as [? _]. }
  unfold extractCallerName. destruct (opt_LocalHTTP options).
  { unfold requireLoopbackPeer. destruct (SplitHostPort _) as [[host port]|]; [|done].
    destruct (ParseIP host) as [ip|] eqn:Hip; [|done].
    destruct (IsLoopback ip) eqn:Hl; [|done]. cbn. split; [done|]. eauto 10. }
  destruct (opt_TrustedProxyHeaders options).
  - unfold extractProxyForwardedCaller, requestHasVerifiedPeerIdentity.
    destruct (r_TLS r) as [[[|cn rest] chains]|] eqn:Ht; cbn; [done| |done].
    destruct chains as [|chains]; cbn; [done|].
    destruct (normalizeCallerName cn) as [proxy|] eqn:Hn; [|done].
    destruct (trustedProxyPeer _ _) eqn:Htr; cbn [negb]; [|done].
    pose proof (Hext (r_ClientCN r)) as He.
    destruct (externallyAssertedCaller (r_ClientCN r)) as [caller|]; [|done].
    destruct He as (? & ? & ?). split_and!; [done|done|]. eexists _, cn, rest.
    split; [done|]. split; [done|]. split; [cbn; lia|]. split; [done|]. apply existsb_exists in Htr as (allowed & Hin & Hcand).
    destruct (normalizeCallerName allowed) as [n|] eqn:Ha; [|done].
    apply String.eqb_eq in Hcand as ->. exists proxy, allowed. split_and!; [done| |done].
    by apply list_elem_of_In.
  - unfold extractPeerCertificateCaller. destruct (r_TLS r) as [[[|cn rest] chains]|]; [done| |done].
    pose proof (Hext cn) as He. destruct (externallyAssertedCaller cn) as [caller|]; [|done].
    destruct He as (? & ? & ?). split_and!; [done|done|]. eauto 10.
Qed.

(** Repository authorization resolves the name first and then grants exactly
    what the policy allows for the resolved name (everything in the local mode,
    nothing without a policy); a bad name is an input error, a refusal is not, so
    the two get different responses. *)
Theorem authorizeRepoAccess_spec options store caller repo :
  match canonicalRepoName repo with
  | Err e => authorizeRepoAccess options store caller repo = Err e ∧ error_kind e = Some ErrorKindInput
  | Ok name =>
      if opt_LocalHTTP options || from_option (λ p, Allows p caller name) false store
      then authorizeRepoAccess options store caller repo = Ok name
      else ∃ e, authorizeRepoAccess options store caller repo = Err e ∧ error_kind e = None
  end.
Proof.
  unfold authorizeRepoAccess. destruct (canonicalRepoName repo) as [name|e] eqn:Hc.
  - unfold callerAuthorizedForRepo. destruct (opt_LocalHTTP options); cbn [orb negb]; [done|].
    destruct store as [p|]; cbn; [destruct (Allows p caller name); cbn; eauto|eauto].
  - split; [done|]. unfold canonicalRepoName in Hc.
    destruct (validateRepoName repo) eqn:?; [done|]. destruct (_ || _); [by injection Hc as <-|].
    destruct (validateRepoName (extractRepositoryName repo)); [done|by injection Hc as <-].
Qed.
End policy_spec.

(** The policy survives a parse: a document that fails to load grants nothing. *)
Module AuthExamples.
#[local] Existing Instances canonical_map_order canonical_map_order_laws basic_unicode basic_unicode_laws.
#[local] Instance no_json_text : JsonErrorText := id.

Definition sample_bindings : callerRepoDocument :=
  mkBindings (Some {["ci" := ["Tools"; "api"]]}) (Some ["ops "]).

Lemma buildCallerRepoPolicy_spec_witness :
  ∃ p, buildCallerRepoPolicy sample_bindings = Ok p ∧
    (Allows p "ci" "tools" = true ↔ grants sample_bindings "ci" "tools") ∧
    Allows p "ci" "tools" = true ∧ IsAdmin p "ops" = true.
Proof.
  pose proof (buildCallerRepoPolicy_spec sample_bindings) as H.
  destruct (buildCallerRepoPolicy sample_bindings) as [p|e] eqn:E; [|vm_compute in E; discriminate].
  exists p. split; [reflexivity|]. destruct H as (_ & H & _). split; [apply H|].
  vm_compute in E. injection E as <-. split; reflexivity.
Defined.
End AuthExamples.
