(* ===== verification/GoOS.v ===== *)
(** * Effects

    The state monad in which the stateful parts of the server are written.  A
    computation runs over a [world]: the server's own state, the files and
    directories it touches, and a step counter.  It may panic, as Go code may.

    What the operating system and the other goroutines do is a parameter: the
    class [OSEnv] gives the clock, the faults of each operation and the names of
    temporary files as functions of the step counter, and [interfere] is what
    other goroutines do to the shared state before this one's next atomic access
    to it.  Theorems quantify over these, hence over every failure and every
    interleaving at the granularity of the critical sections. *)

From stdpp Require Import base gmap strings list fin_maps.
From Stdlib Require Import ZArith Lia Ascii.
From S2P Require Import Prelude GoStrings GoErrors.
Set Default Goal Selector "!".

Record world (S : Type) := mkWorld {
  w_app : S;
  w_files : gmap string string;
  w_dirs : gset string;
  w_clock : nat;
}.
Arguments mkWorld {S} _ _ _ _.
Arguments w_app {S} _.
Arguments w_files {S} _.
Arguments w_dirs {S} _.
Arguments w_clock {S} _.

(** How a Go call ends: it returns, it panics, or it waits for ever. *)
Inductive outcome (A : Type) :=
| Returned (a : A)
| Panicked (message : string)
| Blocked.
Arguments Returned {A} _.
Arguments Panicked {A} _.
Arguments Blocked {A}.

Definition M (S A : Type) : Type := world S → outcome A * world S.

Definition ret {S A} (a : A) : M S A := λ w, (Returned a, w).
Definition panic {S A} (message : string) : M S A := λ w, (Panicked message, w).
Definition bind {S A B} (m : M S A) (k : A → M S B) : M S B := λ w,
  match m w with
  | (Returned a, w') => k a w'
  | (Panicked p, w') => (Panicked p, w')
  | (Blocked, w') => (Blocked, w')
  end.

Notation "'let!' x ':=' m 'in' k" :=
  (bind m (λ x, k)) (at level 10, x pattern, m at level 100, k at level 200) : go_scope.

(** Run [d] after [m], also when [m] panics: a deferred call whose result is
    folded into the results of the function. *)
Definition with_deferred {S A B} (m : M S A) (d : M S B) (combine : A → B → A) : M S A := λ w,
  match m w with
  | (Returned a, w') =>
      match d w' with
      | (Returned b, w'') => (Returned (combine a b), w'')
      | (Panicked p, w'') => (Panicked p, w'')
      | (Blocked, w'') => (Blocked, w'')
      end
  | (Panicked p, w') =>
      match d w' with
      | (Returned _, w'') => (Panicked p, w'')
      | (Panicked p', w'') => (Panicked p', w'')
      | (Blocked, w'') => (Blocked, w'')
      end
  | (Blocked, w') => (Blocked, w')
  end.

(** ** The environment *)

Class OSEnv := {
  os_now : nat → Z;
  os_fault : nat → string → string → option goerror;
  os_written : nat → nat;
  os_temp_name : nat → string → string → string;
  (* which ready case a select takes *)
  os_select : nat → bool;
}.

(** What other goroutines do to the shared state. *)
Class Interference (S : Type) := interfere : nat → S → S.

Definition tick {S} (w : world S) : world S :=
  mkWorld (w_app w) (w_files w) (w_dirs w) (Datatypes.S (w_clock w)).
Definition set_app {S} (s : S) (w : world S) : world S :=
  mkWorld s (w_files w) (w_dirs w) (w_clock w).
Definition set_files {S} (f : gmap string string) (w : world S) : world S :=
  mkWorld (w_app w) f (w_dirs w) (w_clock w).
Definition set_dirs {S} (d : gset string) (w : world S) : world S :=
  mkWorld (w_app w) (w_files w) d (w_clock w).

Section operations.
Context {S : Type} {E : OSEnv}.

(** One atomic access to the shared state (one critical section). *)
Definition access {I : Interference S} {A} (f : S → A * S) : M S A := λ w,
  let '(a, s') := f (interfere (w_clock w) (w_app w)) in
  (Returned a, tick (set_app s' w)).

Definition get {I : Interference S} {A} (f : S → A) : M S A := access (λ s, (f s, s)).
Definition modify {I : Interference S} (f : S → S) : M S unit := access (λ s, (tt, f s)).

(** [time.Now()]. *)
Definition Now : M S Z := λ w, (Returned (os_now (w_clock w)), tick w).

(** An operation that may fail: its fault, or its effect. *)
Definition os_op {A} (op path : string) (failed : goerror → world S → A * world S)
    (effect : world S → A * world S) : M S A := λ w,
  let '(a, w') := match os_fault (w_clock w) op path with
                  | Some e => failed e w
                  | None => effect w
                  end in
  (Returned a, tick w').

Definition not_exist (op path : string) : goerror := ErrPath op path (ErrSentinel ErrNotExist).

Definition ReadFile (path : string) : M S (result goerror string) :=
  os_op "open" path (λ e w, (Err e, w))
    (λ w, match w_files w !! path with
          | Some content => (Ok content, w)
          | None => (Err (not_exist "open" path), w)
          end).

(** [os.Stat]: whether the path is a directory. *)
Definition Stat (path : string) : M S (result goerror bool) :=
  os_op "stat" path (λ e w, (Err e, w))
    (λ w, (if decide (path ∈ w_dirs w) then Ok true
           else if decide (is_Some (w_files w !! path)) then Ok false
           else Err (not_exist "stat" path), w)).

(** [os.ReadDir]: the entries of a directory in name order, with their kind. *)
Definition children (dir : string) (w : world S) : list (string * bool) :=
  let dirs := filter (λ p, path_dir p = dir ∧ p ≠ dir) (elements (w_dirs w)) in
  let files := filter (λ p, path_dir p = dir) (map_to_list (w_files w)).*1 in
  stable_sort fst string_leb
    (((λ p, (path_base p, true)) <$> dirs) ++ ((λ p, (path_base p, false)) <$> files)).

Definition ReadDir (dir : string) : M S (result goerror (list (string * bool))) :=
  os_op "open" dir (λ e w, (Err e, w))
    (λ w, (if decide (dir ∈ w_dirs w) then Ok (children dir w) else Err (not_exist "open" dir), w)).

(** [os.CreateTemp]: the file is created exclusively, so a name that is taken is
    an error. *)
Definition CreateTemp (dir pattern : string) : M S (result goerror string) := λ w,
  os_op "open" pattern (λ e w, (Err e, w))
    (λ w, let name := os_temp_name (w_clock w) dir pattern in
          if decide (is_Some (w_files w !! name) ∨ name ∈ w_dirs w)
          then (Err (ErrPath "createtemp" (path_join [dir; pattern]) (ErrSentinel ErrExist)), w)
          else (Ok name, set_files (<[name := ""]> (w_files w)) w)) w.

(** [file.Write] to a new file; a failed write leaves a prefix. *)
Definition Write (path content : string) : M S (option goerror) :=
  os_op "write" path
    (λ e w, (Some e, set_files (<[path := str_take (os_written (w_clock w)) content]> (w_files w)) w))
    (λ w, (None, set_files (<[path := content]> (w_files w)) w)).

Definition Close (path : string) : M S (option goerror) :=
  os_op "close" path (λ e w, (Some e, w)) (λ w, (None, w)).

Definition Remove (path : string) : M S (option goerror) :=
  os_op "remove" path (λ e w, (Some e, w))
    (λ w, match w_files w !! path with
          | Some _ => (None, set_files (delete path (w_files w)) w)
          | None => (Some (not_exist "remove" path), w)
          end).

Definition Rename (old new : string) : M S (option goerror) :=
  os_op "rename" old (λ e w, (Some e, w))
    (λ w, match w_files w !! old with
          | Some content => (None, set_files (<[new := content]> (delete old (w_files w))) w)
          | None => (Some (not_exist "rename" old), w)
          end).

Definition MkdirAll (path : string) : M S (option goerror) :=
  os_op "mkdir" path (λ e w, (Some e, w)) (λ w, (None, set_dirs ({[path]} ∪ w_dirs w) w)).

(** [os.Mkdir]: the directory is new. *)
Definition Mkdir (path : string) : M S (option goerror) :=
  os_op "mkdir" path (λ e w, (Some e, w))
    (λ w, if decide (path ∈ w_dirs w ∨ is_Some (w_files w !! path))
          then (Some (ErrPath "mkdir" path (ErrSentinel ErrExist)), w)
          else (None, set_dirs ({[path]} ∪ w_dirs w) w)).

(** [os.Remove] of a path that may be a directory, which has to be empty. *)
Definition RemoveEntry (path : string) : M S (option goerror) :=
  os_op "remove" path (λ e w, (Some e, w))
    (λ w, match w_files w !! path with
          | Some _ => (None, set_files (delete path (w_files w)) w)
          | None =>
              if decide (path ∈ w_dirs w) then
                if decide (children path w = []) then (None, set_dirs (w_dirs w ∖ {[path]}) w)
                else (Some (ErrPath "remove" path (ErrNew "directory not empty")), w)
              else (Some (not_exist "remove" path), w)
          end).

(** [os.WriteFile]: truncate and write in place. *)
Definition WriteFile (path content : string) : M S (option goerror) := Write path content.
End operations.

(** ** Contexts *)

(** A [context.Context]: when and why it is done, if ever, and the value the
    server stores in it. *)
Record context := mkContext {
  ctx_done : option (Z * sentinel);
  ctx_physicalRepo : option string;
}.

Definition Background : context := mkContext None None.

Definition ctx_err_at (ctx : context) (now : Z) : option goerror :=
  match ctx_done ctx with
  | Some (t, reason) => if (t <=? now)%Z then Some (ErrSentinel reason) else None
  | None => None
  end.

(** [ctx.Err()]. *)
Definition ctx_Err {S} {E : OSEnv} (ctx : context) : M S (option goerror) :=
  let! now := Now in ret (ctx_err_at ctx now).

(** [context.WithTimeout(ctx, d)]: done when the parent is, or [d] from now. *)
Definition WithTimeout {S} {E : OSEnv} (ctx : context) (d : Z) : M S context :=
  let! now := Now in
  ret (match ctx_done ctx with
       | Some (t, _) => if (t <=? now + d)%Z then ctx
                        else mkContext (Some ((now + d)%Z, DeadlineExceeded)) (ctx_physicalRepo ctx)
       | None => mkContext (Some ((now + d)%Z, DeadlineExceeded)) (ctx_physicalRepo ctx)
       end).

(** Wait for [delay], or until the context is done. *)
Definition wait_for {S} {E : OSEnv} (ctx : context) (delay : Z) : M S (option goerror) :=
  let! now := Now in ret (ctx_err_at ctx (now + Z.max 0 delay)).

(** [recover] in a deferred function: a panic of [m] is handled by [h]. *)
Definition recovering {S A} (m : M S A) (h : string → M S A) : M S A := λ w,
  match m w with
  | (Panicked p, w') => h p w'
  | r => r
  end.

(** A call of a tool that only reads the file system. *)
Definition external (A : Type) : Type := nat → gmap string string → gset string → outcome A.
Definition call {S A} (f : external A) : M S A := λ w,
  (f (w_clock w) (w_files w) (w_dirs w), tick w).

(** A loop that never ends. *)
Definition diverge {S A} : M S A := λ w, (Blocked, w).

(** Running a computation over one component of a larger state. *)
Definition zoom {S T A} (view : T → S) (put : S → T → T) (m : M S A) : M T A := λ w,
  let '(o, w') := m (mkWorld (view (w_app w)) (w_files w) (w_dirs w) (w_clock w)) in
  (o, mkWorld (put (w_app w') (w_app w)) (w_files w') (w_dirs w') (w_clock w')).

(** ** Environments without surprises *)

(** No faults; temporary files are numbered by the step that creates them. *)
Definition reliable_os : OSEnv := {|
  os_now t := Z.of_nat t;
  os_fault _ _ _ := None;
  os_written _ := 0%nat;
  os_temp_name t dir pattern := path_join [dir; pattern +:+ itoa (Z.of_nat t)];
  os_select _ := true;
|}.
Definition no_interference {S} : Interference S := λ _ s, s.

(** ** Invariants of computations *)

(** [m] keeps the invariant [P] of the state, however it ends. *)
Definition keeps {S A} (P : S → Prop) (m : M S A) : Prop :=
  ∀ w, P (w_app w) → P (w_app (m w).2).

(** Other goroutines keep [P]. *)
Class KeptByOthers {S} (I : Interference S) (P : S → Prop) : Prop :=
  kept_by_others t s : P s → P (interfere t s).

Section keeps.
Context {S : Type} {E : OSEnv} {I : Interference S} (P : S → Prop) {HP : KeptByOthers I P}.

Lemma keeps_ret {A} (a : A) : keeps P (ret a).
Proof. by intros w. Qed.

Lemma keeps_panic {A} p : keeps (A := A) P (panic p).
Proof. by intros w. Qed.

Lemma keeps_bind {A B} (m : M S A) (k : A → M S B) :
  keeps P m → (∀ a, keeps P (k a)) → keeps P (bind m k).
Proof.
  intros Hm Hk w Hw. unfold bind. specialize (Hm w Hw).
  destruct (m w) as [[a|p|] w']; cbn [snd] in *; [by apply Hk|done..].
Qed.

Lemma keeps_call {A} (f : external A) : keeps P (call f).
Proof. by intros w. Qed.
Lemma keeps_diverge {A} : keeps (A := A) P diverge.
Proof. by intros w. Qed.
Lemma keeps_recovering {A} (m : M S A) h :
  keeps P m → (∀ p, keeps P (h p)) → keeps P (recovering m h).
Proof.
  intros Hm Hh w Hw. unfold recovering. specialize (Hm w Hw).
  destruct (m w) as [[a|p|] w']; cbn [snd] in *; [done|by apply Hh|done].
Qed.

Lemma keeps_access {A} (f : S → A * S) : (∀ s, P s → P (f s).2) → keeps P (access f).
Proof.
  intros Hf w Hw. unfold access.
  destruct (f (interfere (w_clock w) (w_app w))) as [a s'] eqn:Heq. cbn.
  change s' with ((a, s').2). rewrite <-Heq. by apply Hf, kept_by_others.
Qed.

Lemma keeps_get {A} (f : S → A) : keeps P (get f).
Proof. apply keeps_access. by intros s. Qed.

Lemma keeps_modify (f : S → S) : (∀ s, P s → P (f s)) → keeps P (modify f).
Proof. intros Hf. apply keeps_access. intros s. apply Hf. Qed.

Lemma keeps_get_bind {A B} (f : S → A) (k : A → M S B) :
  (∀ s, keeps P (k (f s))) → keeps P (bind (get f) k).
Proof.
  intros Hk w Hw. unfold bind, get, access. apply Hk.
  exact (kept_by_others _ _ Hw).
Qed.

Lemma keeps_Now : keeps P Now.
Proof. by intros w. Qed.

Lemma keeps_os_op {A} op path (failed : goerror → world S → A * world S) effect :
  (∀ e w, w_app (failed e w).2 = w_app w) → (∀ w, w_app (effect w).2 = w_app w) →
  keeps P (os_op op path failed effect).
Proof.
  intros Hf He w Hw. unfold os_op. destruct (os_fault _ _ _) as [e|].
  - specialize (Hf e w). destruct (failed e w). cbn in *. by rewrite Hf.
  - specialize (He w). destruct (effect w). cbn in *. by rewrite He.
Qed.

Lemma keeps_ReadFile path : keeps P (ReadFile path).
Proof. apply keeps_os_op; [done|]. intros w. by case_match. Qed.
Lemma keeps_Stat path : keeps P (Stat path).
Proof. by apply keeps_os_op. Qed.
Lemma keeps_ReadDir path : keeps P (ReadDir path).
Proof. by apply keeps_os_op. Qed.
Lemma keeps_CreateTemp dir pattern : keeps P (CreateTemp dir pattern).
Proof.
  intros w. unfold CreateTemp. apply keeps_os_op; [done|]. intros w'. by case_match.
Qed.
Lemma keeps_Write path content : keeps P (Write path content).
Proof. by apply keeps_os_op. Qed.
Lemma keeps_Close path : keeps P (Close path).
Proof. by apply keeps_os_op. Qed.
Lemma keeps_Remove path : keeps P (Remove path).
Proof. apply keeps_os_op; [done|]. intros w. by case_match. Qed.
Lemma keeps_Rename old new : keeps P (Rename old new).
Proof. apply keeps_os_op; [done|]. intros w. by case_match. Qed.
Lemma keeps_MkdirAll path : keeps P (MkdirAll path).
Proof. by apply keeps_os_op. Qed.
Lemma keeps_Mkdir path : keeps P (Mkdir path).
Proof. apply keeps_os_op; [done|]. intros w. by destruct (decide _). Qed.
Lemma keeps_RemoveEntry path : keeps P (RemoveEntry path).
Proof. apply keeps_os_op; [done|]. intros w. destruct (_ !! _); [done|]. by repeat destruct (decide _). Qed.

Lemma keeps_deferred {A B} (m : M S A) (d : M S B) combine :
  keeps P m → keeps P d → keeps P (with_deferred m d combine).
Proof.
  intros Hm Hd w Hw. unfold with_deferred. specialize (Hm w Hw).
  destruct (m w) as [[a|p|] w']; cbn [snd] in Hm; [| |done]; specialize (Hd w' Hm);
    by destruct (d w') as [[b|p'|] w''].
Qed.
End keeps.

#[export] Hint Resolve keeps_ret keeps_panic keeps_get keeps_Now keeps_ReadFile keeps_Stat
  keeps_ReadDir keeps_CreateTemp keeps_Write keeps_Close keeps_Remove keeps_Rename
  keeps_MkdirAll keeps_Mkdir keeps_RemoveEntry keeps_call keeps_diverge : governance.

(** Walk a computation: binds, branches, and the operations of the database. *)
Ltac keeps_step :=
  match goal with
  | |- keeps _ (bind _ _) => apply keeps_bind; [|intros ?]
  | |- keeps _ (with_deferred _ _ _) => apply keeps_deferred
  | |- keeps _ (recovering _ _) => apply keeps_recovering; [|intros ?]
  | |- keeps _ (match ?x with _ => _ end) => destruct x eqn:?
  | |- keeps _ (if ?x then _ else _) => destruct x eqn:?
  | |- keeps _ (let '(_, _) := ?x in _) => destruct x eqn:?
  | |- keeps _ (WriteFile _ _) => unfold WriteFile
  | |- keeps _ (ctx_Err _) => unfold ctx_Err
  | |- keeps _ (WithTimeout _ _) => unfold WithTimeout
  | |- keeps _ (wait_for _ _) => unfold wait_for
  end.
Ltac keeps_tac := repeat first [ solve [eauto with governance] | keeps_step ].

(** ** Frames *)

(** Every run of [m] relates its initial and final worlds by [T]. *)
Definition transits {S A} (T : relation (world S)) (m : M S A) : Prop := ∀ w, T w (m w).2.

Section transits.
Context {S : Type} {E : OSEnv} {I : Interference S} (T : relation (world S)) {HT : PreOrder T}.

Lemma transits_ret {A} (a : A) : transits T (ret a).
Proof. by intros w. Qed.
Lemma transits_panic {A} p : transits (A := A) T (panic p).
Proof. by intros w. Qed.
Lemma transits_bind {A B} (m : M S A) (k : A → M S B) :
  transits T m → (∀ a, transits T (k a)) → transits T (bind m k).
Proof.
  intros Hm Hk w. unfold bind. specialize (Hm w).
  destruct (m w) as [[a|p|] w']; cbn [snd] in *; [|done..]. etrans; [done|apply Hk].
Qed.
Lemma transits_deferred {A B} (m : M S A) (d : M S B) combine :
  transits T m → transits T d → transits T (with_deferred m d combine).
Proof.
  intros Hm Hd w. unfold with_deferred. specialize (Hm w).
  destruct (m w) as [[a|p|] w']; cbn [snd] in Hm; [| |done]; specialize (Hd w');
    destruct (d w') as [[b|p'|] w'']; cbn [snd] in *; by etrans.
Qed.
End transits.

(** The operations that touch neither the state nor the files. *)
Section readers.
Context {S : Type} {E : OSEnv} (T : relation (world S))
  (Htick : ∀ w, T w (tick w)).

Lemma transits_Now : transits T Now.
Proof. intros w. apply Htick. Qed.
Lemma transits_ReadFile path : transits T (ReadFile path).
Proof.
  intros w. unfold ReadFile, os_op. destruct (os_fault _ _ _); [apply Htick|].
  destruct (w_files w !! path); apply Htick.
Qed.
Lemma transits_Stat path : transits T (Stat path).
Proof. intros w. unfold Stat, os_op. destruct (os_fault _ _ _); apply Htick. Qed.
Lemma transits_ReadDir path : transits T (ReadDir path).
Proof. intros w. unfold ReadDir, os_op. destruct (os_fault _ _ _); apply Htick. Qed.
Lemma transits_Close path : transits T (Close path).
Proof. intros w. unfold Close, os_op. destruct (os_fault _ _ _); apply Htick. Qed.
End readers.

(** ** Weakest preconditions *)

(** [Q] holds of the way [m] ends from [w] and of the world it leaves. *)
Definition wp {S A} (m : M S A) (Q : outcome A → world S → Prop) (w : world S) : Prop :=
  Q (m w).1 (m w).2.

(** The postcondition that passes a value on and keeps the other ends. *)
Definition chain {S A B} (f : A → world S → Prop) (Q : outcome B → world S → Prop) (o : outcome A)
    (w : world S) : Prop :=
  match o with
  | Returned a => f a w
  | Panicked p => Q (Panicked p) w
  | Blocked => Q Blocked w
  end.

Section wp.
Context {S : Type}.

Lemma wp_run {A} (m : M S A) Q w : wp m Q w → ∀ o w', m w = (o, w') → Q o w'.
Proof. unfold wp. by intros H o w' Heq; rewrite Heq in H. Qed.
Lemma wp_ret {A} (a : A) (Q : outcome A → world S → Prop) w : Q (Returned a) w → wp (ret a) Q w.
Proof. done. Qed.
Lemma wp_panic {A} p (Q : outcome A → world S → Prop) w : Q (Panicked p) w → wp (panic p) Q w.
Proof. done. Qed.
Lemma wp_mono {A} (m : M S A) (Q Q' : outcome A → world S → Prop) w :
  wp m Q w → (∀ o w', Q o w' → Q' o w') → wp m Q' w.
Proof. unfold wp. auto. Qed.
Lemma wp_bind {A B} (m : M S A) (k : A → M S B) Q w :
  wp m (chain (λ a, wp (k a) Q) Q) w → wp (bind m k) Q w.
Proof. unfold wp, bind, chain. by destruct (m w) as [[a|p|] w']. Qed.
Lemma wp_and {A} (m : M S A) (Q Q' : outcome A → world S → Prop) w :
  wp m Q w → wp m Q' w → wp m (λ o w', Q o w' ∧ Q' o w') w.
Proof. done. Qed.
Lemma wp_keeps {A} (P : S → Prop) (m : M S A) w :
  keeps P m → P (w_app w) → wp m (λ _ w', P (w_app w')) w.
Proof. intros Hm Hw. by apply Hm. Qed.
End wp.

(** ** Runs that return *)

(** What holds when [m] returns. *)
Definition returns {S A} (m : M S A) (Q : A → world S → Prop) (w : world S) : Prop := ∀ a w', m w = (Returned a, w') → Q a w'.

Section returns.
Context {S : Type}.

Lemma returns_bind {A B} (m : M S A) (k : A → M S B) Q w : returns m (λ a w', returns (k a) Q w') w → returns (bind m k) Q w.
Proof. intros H b w'. unfold bind. destruct (m w) as [[a| |] w1] eqn:Hm; [|done..]. by apply (H a w1). Qed.
Lemma returns_ret {A} (a : A) (Q : A → world S → Prop) w : Q a w → returns (ret a) Q w.
Proof. by intros H a' w' [= <- <-]. Qed.
Lemma returns_weaken {A} (m : M S A) (Q Q' : A → world S → Prop) w : returns m Q w → (∀ a w', Q a w' → Q' a w') → returns m Q' w.
Proof. intros H HQ a w' Hm. by apply HQ, H. Qed.
Lemma returns_both {A} (m : M S A) (Q Q' : A → world S → Prop) w : returns m Q w → returns m Q' w → returns m (λ a w', Q a w' ∧ Q' a w') w.
Proof. intros H H' a w' Hm. by split; [apply H|apply H']. Qed.

Lemma returns_deferred {A B} (m : M S A) (d : M S B) combine (Q : A → world S → Prop) w :
  returns m (λ a w1, returns d (λ b w2, Q (combine a b) w2) w1) w → returns (with_deferred m d combine) Q w.
Proof.
  intros H c w'. unfold with_deferred. destruct (m w) as [[a|p|] w1] eqn:Hm; [| |done].
  - destruct (d w1) as [[b| |] w2] eqn:Hd; [|done..]. intros [= <- <-]. exact (H a w1 Hm b w2 Hd).
  - by destruct (d w1) as [[b| |] w2].
Qed.
Lemma returns_keeps {A} (P : S → Prop) (m : M S A) w : keeps P m → P (w_app w) → returns m (λ _ w', P (w_app w')) w.
Proof. intros Hm Hw a w' Hr. specialize (Hm w Hw). by rewrite Hr in Hm. Qed.

Context {E : OSEnv}.
Lemma returns_os_op {A} op path (failed : goerror → world S → A * world S) effect (Q : A → world S → Prop) w :
  (∀ e, os_fault (w_clock w) op path = Some e → Q (failed e w).1 (tick (failed e w).2)) → Q (effect w).1 (tick (effect w).2) →
  returns (os_op op path failed effect) Q w.
Proof.
  intros Hf He a w'. unfold os_op. destruct (os_fault _ _ _) as [e|].
  - specialize (Hf e eq_refl). destruct (failed e w). by intros [= <- <-].
  - destruct (effect w). by intros [= <- <-].
Qed.

End returns.

(** ** Sleeping *)

(** The step at which a goroutine that goes to sleep at a step is awake again. *)
Class Sleeper := os_wake : nat → Z → nat.
(** [time.Now] has a monotonic reading and [time.Sleep] pauses at least for the
    duration. *)
Class SleeperLaws (E : OSEnv) (L : Sleeper) : Prop := {
  now_mono t t' : t ≤ t' → (os_now t ≤ os_now t')%Z;
  wake_later t d : t ≤ os_wake t d;
  wake_time t d : (os_now t + d ≤ os_now (os_wake t d))%Z;
}.
Definition Sleep {S} {L : Sleeper} (d : Z) : M S unit := λ w,
  (Returned tt, mkWorld (w_app w) (w_files w) (w_dirs w) (os_wake (w_clock w) d)).

Lemma keeps_Sleep {S} {L : Sleeper} (P : S → Prop) d : keeps P (Sleep d).
Proof. by intros w. Qed.
#[export] Hint Resolve keeps_Sleep : governance.

(** The rounds of a loop that sleeps for [poll] until [wait] has passed. *)
Definition poll_fuel (wait poll : Z) : nat := Datatypes.S (Datatypes.S (Z.to_nat (wait / poll))).
Lemma poll_fuel_enough wait poll : (0 ≤ wait)%Z → (0 < poll)%Z →
  (wait < Z.of_nat (pred (poll_fuel wait poll)) * poll)%Z.
Proof.
  intros Hw Hp. unfold poll_fuel. cbn [pred]. rewrite Nat2Z.inj_succ, Z2Nat.id by (by apply Z.div_pos).
  pose proof (Z.mul_succ_div_gt wait poll Hp). lia.
Qed.

(** ** Runs that always return *)

(** [m] returns when it is called in [w], and not before that. *)
Definition settles_at {S A} (m : M S A) (w : world S) : Prop := ∃ a w', m w = (Returned a, w') ∧ w_clock w ≤ w_clock w'.
Definition settles {S A} (m : M S A) : Prop := ∀ w, settles_at m w.
(** An external call that returns. *)
Definition answers {A} (f : external A) : Prop := ∀ t files dirs, ∃ a, f t files dirs = Returned a.

Section settles.
Context {S : Type} {E : OSEnv}.

Lemma settles_ret {A} (a : A) : settles (S := S) (ret a).
Proof. intros w. by exists a, w. Qed.
Lemma settles_at_bind {A B} (m : M S A) (k : A → M S B) w : settles_at m w →
  (∀ a w', m w = (Returned a, w') → w_clock w ≤ w_clock w' → settles_at (k a) w') → settles_at (bind m k) w.
Proof.
  intros (a & w1 & H1 & Hle1) Hk. destruct (Hk a w1 H1 Hle1) as (b & w2 & H2 & Hle2).
  exists b, w2. unfold bind. rewrite H1. split; [done|lia].
Qed.
Lemma settles_bind {A B} (m : M S A) (k : A → M S B) : settles m → (∀ a, settles (k a)) → settles (bind m k).
Proof. intros Hm Hk w. apply settles_at_bind; [apply Hm|]. intros a w' _ _. apply Hk. Qed.
Lemma settles_deferred {A B} (m : M S A) (d : M S B) combine : settles m → settles d → settles (with_deferred m d combine).
Proof.
  intros Hm Hd w. destruct (Hm w) as (a & w1 & H1 & Hle1). destruct (Hd w1) as (b & w2 & H2 & Hle2).
  exists (combine a b), w2. unfold with_deferred. rewrite H1, H2. split; [done|lia].
Qed.
Lemma settles_os_op {A} op path (failed : goerror → world S → A * world S) effect :
  (∀ e w, w_clock (failed e w).2 = w_clock w) → (∀ w, w_clock (effect w).2 = w_clock w) → settles (os_op op path failed effect).
Proof.
  intros Hf He w. unfold settles_at, os_op. destruct (os_fault _ _ _) as [e|].
  - specialize (Hf e w). destruct (failed e w) as [a w']. exists a, (tick w'). split; [done|]. cbn in *. lia.
  - specialize (He w). destruct (effect w) as [a w']. exists a, (tick w'). split; [done|]. cbn in *. lia.
Qed.
Lemma settles_call {A} (f : external A) : answers f → settles (S := S) (call f).
Proof.
  intros Hf w. destruct (Hf (w_clock w) (w_files w) (w_dirs w)) as [a Ha]. exists a, (tick w). unfold call. rewrite Ha.
  split; [done|cbn; lia].
Qed.
Lemma settles_Now : settles (S := S) Now.
Proof. intros w. eexists _, _. split; [done|cbn; lia]. Qed.
Lemma settles_ReadFile path : settles (S := S) (ReadFile path).
Proof. apply settles_os_op; [done|]. intros w. by destruct (_ !! _). Qed.
Lemma settles_Stat path : settles (S := S) (Stat path).
Proof. by apply settles_os_op. Qed.
Lemma settles_MkdirAll path : settles (S := S) (MkdirAll path).
Proof. by apply settles_os_op. Qed.
Lemma settles_Mkdir path : settles (S := S) (Mkdir path).
Proof. apply settles_os_op; [done|]. intros w. by destruct (decide _). Qed.
Lemma settles_RemoveEntry path : settles (S := S) (RemoveEntry path).
Proof. apply settles_os_op; [done|]. intros w. destruct (_ !! _); [done|]. by repeat destruct (decide _). Qed.

Context {L : Sleeper} {SL : SleeperLaws E L}.
Lemma settles_sleep {A} d (m : M S A) w :
  (∀ w', w_clock w ≤ w_clock w' → (os_now (w_clock w) + d ≤ os_now (w_clock w'))%Z → settles_at m w') →
  settles_at (let! _ := Sleep d in m) w.
Proof.
  intros Hm. apply settles_at_bind; [eexists _, _; split; [done|apply wake_later]|]. intros [] w' [= <-] Hle. apply Hm; [done|apply wake_time].
Qed.
Lemma settles_now {A} (k : Z → M S A) w :
  (∀ w', w_clock w ≤ w_clock w' → settles_at (k (os_now (w_clock w))) w') → settles_at (let! now := Now in k now) w.
Proof. intros Hk. apply settles_at_bind; [apply settles_Now|]. intros now w' [= <- <-] Hle. by apply Hk. Qed.
End settles.

#[export] Hint Resolve settles_ret settles_Now settles_ReadFile settles_Stat settles_MkdirAll settles_Mkdir settles_RemoveEntry
  settles_call : governance.

Ltac settles_step :=
  match goal with
  | |- settles (bind _ _) => apply settles_bind; [|intros ?]
  | |- settles (with_deferred _ _ _) => apply settles_deferred
  | |- settles (match ?x with _ => _ end) => destruct x eqn:?
  | |- settles (if ?x then _ else _) => destruct x eqn:?
  | |- settles (let '(_, _) := ?x in _) => destruct x eqn:?
  end.
Ltac settles_tac := repeat first [ solve [eauto with governance] | settles_step ].
