(* ===== verification/GoJsonPrint.v ===== *)
(** * JSON output

    [json.MarshalIndent(v, "", "  ")] and [json.Marshal(v)] on a document, and the
    round trip through the parser of [GoJson]. *)

From stdpp Require Import base gmap strings list pretty.
From Stdlib Require Import ZArith Lia Ascii.
From S2P Require Import Prelude GoStrings GoErrors GoFloat GoJson.
Set Default Goal Selector "!".

(** The text of a number held as a float64: the shortest decimal that denotes
    it, given the literal it was read from. *)
Class JsonNumberText := number_text : list ascii → list ascii.

(** ** Strings *)

Definition json_hex (z : Z) : ascii := byte_of (if (z <? 10)%Z then 48 + z else 87 + z)%Z.
Definition unicode_escape (r : Z) : list ascii :=
  bytes "\u" ++ [json_hex (r / 4096); json_hex ((r / 256) mod 16); json_hex ((r / 16) mod 16);
                 json_hex (r mod 16)].

(** One ASCII byte, HTML characters escaped. *)
Definition encode_ascii (a : ascii) : list ascii :=
  let b := byte_val a in
  (if b =? 34 then ["\"%char; a] else if b =? 92 then ["\"%char; a]
   else if b =? 8 then bytes "\b" else if b =? 12 then bytes "\f"
   else if b =? 10 then bytes "\n" else if b =? 13 then bytes "\r"
   else if b =? 9 then bytes "\t"
   else if (b <? 32) || (b =? 60) || (b =? 62) || (b =? 38) then unicode_escape b
   else [a])%Z.

(** One decoded rune with the bytes it came from. *)
Definition encode_segment (p : Z * list ascii) : list ascii :=
  match p.2 with
  | [a] => if (byte_val a <? 128)%Z then encode_ascii a else unicode_escape RuneError
  | bs => if ((p.1 =? 0x2028) || (p.1 =? 0x2029))%Z then unicode_escape p.1 else bs
  end.

Definition quote_byte : ascii := byte_of 34.
Definition encode_string (s : string) : list ascii :=
  quote_byte :: (segments s ≫= encode_segment) ++ [quote_byte].

(** ** Documents *)

Definition newline (ind : nat) : list ascii := byte_of 10 :: replicate (2 * ind) " "%char.

(** The layouts: indented, or compact. *)
Inductive layout := Indented | Compact.
Definition gap (y : layout) (ind : nat) : list ascii :=
  match y with Indented => newline ind | Compact => [] end.
Definition colon (y : layout) : list ascii :=
  match y with Indented => bytes ": " | Compact => bytes ":" end.

(** The members of a container between its brackets. *)
Definition enclose (y : layout) (open close : ascii) (ind : nat) (items : list (list ascii)) : list ascii :=
  match items with
  | [] => [open; close]
  | item :: rest =>
      open :: gap y (S ind) ++ item
      ++ (rest ≫= λ i, ","%char :: gap y (S ind) ++ i)
      ++ gap y ind ++ [close]
  end.

Section print.
Context {N : JsonNumberText}.

Fixpoint json_print (y : layout) (ind : nat) (j : json) : list ascii :=
  match j with
  | JNull => bytes "null"
  | JBool true => bytes "true"
  | JBool false => bytes "false"
  | JNum l => number_text l
  | JStr s => encode_string s
  | JArr l => enclose y "["%char "]"%char ind (map (json_print y (S ind)) l)
  | JObj fs =>
      enclose y "{"%char "}"%char ind
        (map (λ kv, encode_string kv.1 ++ colon y ++ json_print y (S ind) kv.2) fs)
  end.

Definition MarshalIndent (j : json) : string := of_bytes (json_print Indented 0 j).
Definition Marshal (j : json) : string := of_bytes (json_print Compact 0 j).
End print.

(** An integer. *)
Definition json_int (z : Z) : json := JNum (bytes (itoa z)).

(** ** Values of type [any] *)

(** A document decoded into [any]: objects with their last value per key, in key
    order, as they are printed. *)
Definition obj_of (m : gmap string json) : json :=
  JObj (stable_sort fst string_leb (map_to_list m)).
Fixpoint to_any (j : json) : json :=
  match j with
  | JArr l => JArr (map to_any l)
  | JObj fs => obj_of (list_to_map (rev (map (λ kv, (kv.1, to_any kv.2)) fs)))
  | _ => j
  end.
Definition members (j : json) : gmap string json :=
  match j with JObj fs => list_to_map (rev fs) | _ => ∅ end.
(** A number that does not fit a float64 is an error. *)
Fixpoint any_ok (j : json) : bool :=
  match j with
  | JNum l => match float_of_literal l with Some _ => true | None => false end
  | JArr l => forallb any_ok l
  | JObj fs => forallb (λ kv, any_ok kv.2) fs
  | _ => true
  end.

(** Whether a [map[string]any] can be read from a document: nil for [null]. *)
Definition dec_any_map (j : json) : option (option (gmap string json)) :=
  match j with
  | JObj fs => if any_ok j then Some (Some (members (to_any j))) else None
  | JNull => Some None
  | _ => None
  end.

(** ** Round trip *)

Definition ascii_text (s : string) : bool := forallb (λ a, byte_val a <? 128)%Z (bytes s).

Lemma ascii_text_app s t : ascii_text (s +:+ t) = ascii_text s && ascii_text t.
Proof. unfold ascii_text. by rewrite bytes_app, forallb_app. Qed.

(** A number literal, and a natural number in decimal. *)
Definition is_number (l : list ascii) : bool := bool_decide (parse_number l = Some (l, [])).
Definition natural (l : list ascii) : bool := forallb is_digit l && integer_ok l.

(** Documents whose numbers are printed as they are written and whose strings are
    ASCII. *)
Fixpoint plain {N : JsonNumberText} (j : json) : bool :=
  match j with
  | JNull | JBool _ => true
  | JNum l => is_number l && bool_decide (number_text l = l)
  | JStr s => forallb (λ a, byte_val a <? 128)%Z (bytes s)
  | JArr l => forallb plain l
  | JObj fs => forallb (λ kv, forallb (λ a, byte_val a <? 128)%Z (bytes kv.1) && plain kv.2) fs
  end.

(** Decimal integers: the digits of a positive number. *)
Lemma pretty_digit x : (x < 10)%N → is_digit (pretty_N_char x) = true ∧ byte_val (pretty_N_char x) = (48 + Z.of_N x)%Z.
Proof.
  intros Hx. assert (x ∈ (N.of_nat <$> seq 0 10)) as Hin.
  { apply list_elem_of_fmap. exists (N.to_nat x). rewrite N2Nat.id, elem_of_seq. split; [done|lia]. }
  cbn in Hin. rewrite !elem_of_cons in Hin. repeat (destruct Hin as [->|Hin]; [done|]). by apply not_elem_of_nil in Hin.
Qed.
Lemma pretty_go_digits x : (0 < x)%N → ∀ s, ∃ a ds,
  bytes (pretty_N_go x s) = (a :: ds) ++ bytes s ∧ forallb is_digit (a :: ds) = true ∧
  digits_val (a :: ds) = Z.of_N x ∧ byte_val a ≠ 48%Z.
Proof.
  induction (N.lt_wf_0 x) as [x _ IH]. intros Hx s. rewrite pretty_N_go_step by done. destruct (decide (x < 10)%N) as [Hlt|Hge].
  - rewrite N.div_small, N.mod_small by done. rewrite pretty_N_go_0. destruct (pretty_digit x Hlt) as [Hd Hv].
    exists (pretty_N_char x), []. cbn [forallb]. rewrite Hd. repeat split; [|lia]. unfold digits_val. cbn [foldl]. lia.
  - assert (0 < x / 10)%N as H0 by (apply N.div_str_pos; lia).
    destruct (IH (x / 10)%N ltac:(by apply N.div_lt) H0 (String (pretty_N_char (x mod 10)) s)) as (a & ds & -> & Hd & Hv & Ha).
    destruct (pretty_digit (x mod 10) ltac:(by apply N.mod_lt)) as [Hd' Hv'].
    exists a, (ds ++ [pretty_N_char (x mod 10)]). split; [rewrite <-!app_comm_cons, <-app_assoc; done|].
    change (a :: ds ++ ?y) with ((a :: ds) ++ y). rewrite forallb_app, Hd, digits_val_app, Hv. cbn [forallb]. rewrite Hd'.
    repeat split; [|done]. unfold digits_val at 1. cbn [foldl length]. rewrite Hv'. change (10 ^ Z.of_nat 1)%Z with 10%Z.
    pose proof (N.div_mod x 10). lia.
Qed.
Lemma itoa_natural z : (0 < z)%Z → natural (bytes (itoa z)) = true ∧ digits_val (bytes (itoa z)) = z.
Proof.
  intros Hz. destruct z as [|p|p]; try lia. unfold itoa. change (pretty (Z.pos p)) with (pretty (N.pos p)).
  unfold pretty at 1 2, pretty_N. rewrite decide_False by done.
  destruct (pretty_go_digits (N.pos p) ltac:(done) "") as (a & ds & Heq & Hd & Hv & Ha). rewrite Heq, app_nil_r.
  split; [|done]. unfold natural, integer_ok. rewrite Hd. by rewrite (proj2 (Z.eqb_neq _ _) Ha).
Qed.
Lemma dec_json_int z old : (0 < z < 2 ^ 63)%Z → dec_int (json_int z) old = Some z.
Proof.
  intros Hz. destruct (itoa_natural z) as [Hn Hv]; [lia|]. unfold dec_int, json_int. unfold natural in Hn.
  apply andb_true_iff in Hn as [Hd Hn]. destruct (bytes (itoa z)) as [|a l]; [done|].
  assert ((byte_val a =? 45)%Z = false) as ->.
  { cbn [forallb] in Hd. apply andb_true_iff in Hd as [Hd _]. unfold is_digit in Hd. apply Z.eqb_neq. lia. }
  rewrite Hd, Hv. cbn [empty_list negb andb]. destruct (Z.leb_spec (- 2 ^ 63) z); [|lia]. destruct (Z.ltb_spec z (2 ^ 63)); [done|lia].
Qed.

Lemma ascii_string_segments s :
  forallb (λ a, byte_val a <? 128)%Z (bytes s) = true →
  segments s ≫= encode_segment = bytes s ≫= encode_ascii.
Proof.
  intros H. assert (Forall is_ascii (bytes s)) as Ha.
  { apply Forall_forall. intros a Hin. rewrite forallb_forall in H.
    apply list_elem_of_In in Hin. apply H in Hin. unfold is_ascii. lia. }
  rewrite (segments_ascii s Ha). induction Ha as [|a l Hl _ IH]; [done|].
  rewrite fmap_cons, !bind_cons. f_equal.
  - unfold encode_segment. cbn [snd fst]. by rewrite (proj2 (Z.ltb_lt _ _) Hl).
  - apply IH. cbn in H. by apply andb_true_iff in H as [_ ?].
Qed.

Lemma surrogate_low r next : (0 ≤ r < 0xD800)%Z → surrogate r next = (r, false).
Proof.
  intros Hr. unfold surrogate.
  destruct (Z.leb_spec 0xD800 r); [lia|]. destruct (Z.leb_spec 0xDC00 r); [lia|]. done.
Qed.

(** The parser reads one encoded ASCII byte back. *)
Lemma parse_string_byte fuel a l :
  (byte_val a < 128)%Z →
  parse_string (S fuel) (encode_ascii a ++ l) =
  match parse_string fuel l with
  | Some (s, rest) => Some (a :: s, rest)
  | None => None
  end.
Proof.
  intros Ha. destruct a as [[] [] [] [] [] [] [] []];
    first [vm_compute in Ha; discriminate | clear Ha; cbn -[parse_string surrogate]].
  all: try reflexivity.
  all: cbn [parse_string]; cbn -[parse_string surrogate]; try rewrite surrogate_low by lia;
    destruct (parse_string fuel l) as [[]|]; reflexivity.
Qed.

Lemma parse_string_encoded l rest : ∀ fuel,
  forallb (λ a, byte_val a <? 128)%Z l = true → (length l < fuel)%nat →
  parse_string fuel ((l ≫= encode_ascii) ++ quote_byte :: rest) = Some (l, rest).
Proof.
  induction l as [|a l IH]; intros fuel Hl Hf.
  - destruct fuel as [|fuel]; [lia|]. reflexivity.
  - destruct fuel as [|fuel]; [cbn in Hf; lia|]. cbn [forallb] in Hl.
    apply andb_true_iff in Hl as [Ha Hl]. rewrite bind_cons, <-app_assoc.
    rewrite parse_string_byte by lia. rewrite IH; [done|done|cbn in Hf; lia].
Qed.

Lemma encode_ascii_length a : (1 ≤ length (encode_ascii a))%nat.
Proof. unfold encode_ascii, unicode_escape. repeat case_match; cbn; lia. Qed.

Lemma encode_bytes_length l : (length l ≤ length (l ≫= encode_ascii))%nat.
Proof.
  induction l as [|a l IH]; [done|]. rewrite bind_cons, length_app. cbn [length].
  pose proof (encode_ascii_length a). lia.
Qed.

(** The characters after an opening quote of an encoded string. *)
Lemma parse_encoded_string s rest :
  forallb (λ a, byte_val a <? 128)%Z (bytes s) = true →
  ∃ tail, encode_string s ++ rest = quote_byte :: tail ∧
    parse_string (S (length tail)) tail = Some (bytes s, rest).
Proof.
  intros Hs. unfold encode_string. rewrite (ascii_string_segments s Hs).
  eexists. split; [by rewrite <-app_comm_cons, <-app_assoc|].
  apply parse_string_encoded; [done|].
  rewrite length_app. pose proof (encode_bytes_length (bytes s)). cbn [length]. lia.
Qed.

Lemma skip_newline ind l : skip_space (newline ind ++ l) = skip_space l.
Proof.
  unfold newline. cbn [app]. unfold skip_space. cbn [drop_while].
  change (is_json_space (byte_of 10)) with true. cbn iota.
  induction (2 * ind)%nat as [|n IH]; [done|]. cbn [replicate app drop_while].
  change (is_json_space " "%char) with true. exact IH.
Qed.

Lemma skip_gap y ind l : skip_space (gap y ind ++ l) = skip_space l.
Proof. destruct y; [apply skip_newline|done]. Qed.

(** What may follow a number. *)
Definition delimited (l : list ascii) : Prop :=
  match l with
  | [] => True
  | a :: _ => is_digit a = false ∧ byte_val a ∉ [46; 101; 69]%Z
  end.
Lemma delimited_gap y ind a l : delimited (a :: l) → delimited (gap y ind ++ a :: l).
Proof. destruct y; [|done]. intros _. by apply (bool_decide_unpack _). Qed.

Lemma span_digits l rest :
  forallb is_digit l = true → delimited rest → span is_digit (l ++ rest) = (l, rest).
Proof.
  intros Hl Hr. induction l as [|a l IH]; cbn [app span].
  - destruct rest as [|a rest]; [done|]. cbn [span]. by destruct Hr as [-> _].
  - cbn [forallb] in Hl. apply andb_true_iff in Hl as [-> Hl]. by rewrite (IH Hl).
Qed.

Lemma digit_not a z : is_digit a = true → (z < 48 ∨ 57 < z)%Z → (byte_val a =? z)%Z = false.
Proof. unfold is_digit. intros [? ?]%andb_true_iff ?. apply Z.eqb_neq. lia. Qed.

(** A delimiter ends the digits and starts neither a fraction nor an exponent. *)
Lemma span_app l rest : delimited rest →
  span is_digit (l ++ rest) = ((span is_digit l).1, (span is_digit l).2 ++ rest).
Proof.
  intros Hr. induction l as [|a l IH]; cbn [app span].
  - destruct rest as [|a rest]; [done|]. cbn [span]. by destruct Hr as [-> _].
  - destruct (is_digit a); [|done]. rewrite IH. by destruct (span is_digit l).
Qed.
Lemma delimited_none rest : delimited rest → fraction_part rest = Some ([], rest) ∧ exponent_part rest = Some ([], rest).
Proof.
  destruct rest as [|b rest]; [done|]. intros [Hb Hx]. rewrite !not_elem_of_cons in Hx. destruct Hx as (H1 & H2 & H3 & _).
  apply Z.eqb_neq in H1, H2, H3. cbn [fraction_part exponent_part]. by rewrite H1, H2, H3.
Qed.
Lemma fraction_part_app l rest x r : fraction_part l = Some (x, r) → delimited rest → fraction_part (l ++ rest) = Some (x, r ++ rest).
Proof.
  intros Hf Hr. destruct l as [|a l]; [injection Hf as <- <-; by apply delimited_none|]. cbn [app fraction_part] in *.
  destruct (byte_val a =? 46)%Z; [|by injection Hf as <- <-]. rewrite span_app by done.
  destruct (span is_digit l) as [ds l']. cbn [fst snd]. destruct (bool_decide _); [done|]. by injection Hf as <- <-.
Qed.
Lemma exponent_part_app l rest x r : exponent_part l = Some (x, r) → delimited rest → exponent_part (l ++ rest) = Some (x, r ++ rest).
Proof.
  intros Hf Hr. destruct l as [|a l]; [injection Hf as <- <-; by apply delimited_none|]. cbn [app exponent_part] in *.
  destruct (_ || _)%bool; [|by injection Hf as <- <-]. destruct l as [|c l]; [done|]. cbn [app].
  destruct (_ || _)%bool; [rewrite span_app by done|change (c :: l ++ rest) with ((c :: l) ++ rest); rewrite span_app by done];
    (destruct (span is_digit _) as [ds l']; cbn [fst snd]; destruct (bool_decide _); [done|]; by injection Hf as <- <-).
Qed.
Lemma parse_number_app l rest n r : parse_number l = Some (n, r) → delimited rest → parse_number (l ++ rest) = Some (n, r ++ rest).
Proof.
  intros Hp Hr. unfold parse_number in *. destruct l as [|a l]; [done|].
  assert (sign_part ((a :: l) ++ rest) = ((sign_part (a :: l)).1, (sign_part (a :: l)).2 ++ rest)) as ->.
  { cbn [app sign_part]. by destruct (_ =? _)%Z. }
  destruct (sign_part (a :: l)) as [sign l1]. cbn [fst snd]. rewrite span_app by done. destruct (span is_digit l1) as [int l2]. cbn [fst snd].
  destruct (negb _); [done|]. destruct (fraction_part l2) as [[fr l3]|] eqn:Hf; [|done].
  rewrite (fraction_part_app _ _ _ _ Hf Hr). destruct (exponent_part l3) as [[ex l4]|] eqn:He; [|done].
  rewrite (exponent_part_app _ _ _ _ He Hr). by injection Hp as <- <-.
Qed.

(** The characters of a number, and its first one. *)
Definition number_char (a : ascii) : bool := is_digit a || bool_decide (byte_val a ∈ [43; 45; 46; 69; 101]%Z).
Lemma span_spec l : forallb is_digit (span is_digit l).1 = true.
Proof. induction l as [|a l IH]; [done|]. cbn [span]. destruct (is_digit a) eqn:Ha; [|done]. destruct (span is_digit l). cbn [fst forallb] in *. by rewrite Ha. Qed.
Lemma digits_number l : forallb is_digit l = true → forallb number_char l = true.
Proof. rewrite !forallb_forall. intros H a Ha. unfold number_char. by rewrite (H a Ha). Qed.
Lemma char_number a z : (byte_val a =? z)%Z = true → z ∈ [43; 45; 46; 69; 101]%Z → number_char a = true.
Proof. intros H%Z.eqb_eq Hz. unfold number_char. rewrite H, bool_decide_eq_true_2, orb_true_r by done. done. Qed.
Lemma fraction_part_chars l x r : fraction_part l = Some (x, r) → forallb number_char x = true.
Proof.
  destruct l as [|a l]; [by intros [= <- <-]|]. cbn [fraction_part]. destruct (byte_val a =? 46)%Z eqn:Ha; [|by intros [= <- <-]].
  pose proof (span_spec l) as Hs. destruct (span is_digit l) as [ds l']. destruct (bool_decide _); [done|]. intros [= <- <-].
  cbn [forallb fst] in *. by rewrite (char_number a 46 Ha), digits_number by (done || by repeat constructor).
Qed.
Lemma chars_number a z z' : ((byte_val a =? z) || (byte_val a =? z'))%Z = true →
  z ∈ [43; 45; 46; 69; 101]%Z → z' ∈ [43; 45; 46; 69; 101]%Z → number_char a = true.
Proof. intros [H|H]%orb_true_iff ? ?; by eapply char_number. Qed.
Lemma exponent_part_chars l x r : exponent_part l = Some (x, r) → forallb number_char x = true.
Proof.
  destruct l as [|a l]; [by intros [= <- <-]|]. cbn [exponent_part].
  destruct ((byte_val a =? 101) || (byte_val a =? 69))%Z eqn:Ha; [|by intros [= <- <-]].
  apply chars_number in Ha; [|by repeat constructor|by repeat constructor].
  assert (∀ sg l2, forallb number_char sg = true →
    (let '(ds, rest) := span is_digit l2 in if bool_decide (ds = []) then None else Some (a :: sg ++ ds, rest)) = Some (x, r) →
    forallb number_char x = true) as Hgen.
  { intros sg l2 Hsg. pose proof (span_spec l2) as Hs. destruct (span is_digit l2) as [ds l']. destruct (bool_decide _); [done|].
    intros [= <- <-]. cbn [forallb fst] in *. by rewrite Ha, forallb_app, Hsg, digits_number. }
  destruct l as [|c l]; [by apply Hgen|]. destruct ((byte_val c =? 43) || (byte_val c =? 45))%Z eqn:Hc; apply Hgen; [|done].
  apply chars_number in Hc; [|by repeat constructor|by repeat constructor]. cbn [forallb]. by rewrite Hc.
Qed.
Lemma parse_number_chars l n r : parse_number l = Some (n, r) → forallb number_char n = true.
Proof.
  unfold parse_number. intros H. assert (forallb number_char (sign_part l).1 = true) as Hs.
  { destruct l as [|a l]; [done|]. cbn [sign_part]. destruct (_ =? _)%Z eqn:Ha; [|done]. cbn [fst forallb].
    rewrite (char_number a 45 Ha); [done|by repeat constructor]. }
  destruct (sign_part l) as [sign l1]. pose proof (span_spec l1) as Hd. destruct (span is_digit l1) as [int l2]. destruct (negb _); [done|].
  destruct (fraction_part l2) as [[fr l3]|] eqn:Hf; [|done]. destruct (exponent_part l3) as [[ex l4]|] eqn:He; [|done].
  injection H as <- <-. apply fraction_part_chars in Hf. apply exponent_part_chars in He. cbn [fst] in *.
  by rewrite !forallb_app, Hs, digits_number, Hf, He.
Qed.
Lemma number_char_not a z : number_char a = true → z ∉ [43; 45; 46; 69; 101]%Z → (z < 48 ∨ 57 < z)%Z → (byte_val a =? z)%Z = false.
Proof.
  unfold number_char. intros [Ha|Ha]%orb_true_iff Hz Hr; [by apply digit_not|]. apply bool_decide_eq_true in Ha.
  apply Z.eqb_neq. intros <-. done.
Qed.
Lemma is_number_spec l : is_number l = true → parse_number l = Some (l, []) ∧ l ≠ [] ∧ forallb number_char l = true.
Proof.
  unfold is_number. intros H%bool_decide_eq_true. repeat split; [done|by intros ->|]. by eapply parse_number_chars.
Qed.

Lemma natural_number l : natural l = true → is_number l = true.
Proof.
  unfold natural, is_number. intros [Hd Hn]%andb_true_iff. apply bool_decide_eq_true_2. destruct l as [|a l]; [done|].
  unfold parse_number, sign_part. assert (is_digit a = true) as Ha by (by cbn in Hd; apply andb_true_iff in Hd as [? _]).
  rewrite (digit_not a 45 Ha) by lia. rewrite <-(app_nil_r (a :: l)) at 1. rewrite span_digits by done. rewrite Hn. cbn [negb fraction_part exponent_part].
  by rewrite !app_nil_r.
Qed.
Lemma json_int_plain z : (0 < z)%Z → plain (N := id) (json_int z) = true.
Proof.
  intros Hz. unfold json_int. cbn [plain]. rewrite natural_number by apply (itoa_natural z Hz). by rewrite bool_decide_eq_true_2.
Qed.

(** A value starts with a character that is neither white space nor a closing
    bracket. *)
Definition value_head (l : list ascii) : Prop :=
  ∃ a l', l = a :: l' ∧ is_json_space a = false ∧ byte_val a ≠ 93%Z ∧ byte_val a ≠ 125%Z.

Section roundtrip.
Context {N : JsonNumberText} (y : layout).

Lemma print_head ind j rest : plain j = true → value_head (json_print y ind j ++ rest).
Proof.
  intros H. destruct j as [|[]|l|s|[]|[]]; cbn [json_print] in *; try done.
  all: try (by eexists _, _; split; [reflexivity|]; vm_compute).
  cbn [plain] in H. apply andb_true_iff in H as [Hn Heq]. apply bool_decide_eq_true in Heq. rewrite Heq.
  apply is_number_spec in Hn as (_ & Hne & Hc). destruct l as [|a l]; [done|]. exists a, (l ++ rest). split; [done|].
  cbn [forallb] in Hc. apply andb_true_iff in Hc as [Hc _]. unfold is_json_space.
  split; [|split; apply Z.eqb_neq]; rewrite !(number_char_not a) by (done || lia || by apply (bool_decide_unpack _)); done.
Qed.

Lemma skip_value l : value_head l → skip_space l = l.
Proof. intros (a & l' & -> & Ha & _). unfold skip_space. cbn [drop_while]. by rewrite Ha. Qed.

(** [parse_value] reads the text of [j] back, given fuel for it. *)
Definition reads (j : json) : Prop := ∀ ind fuel rest,
  (length (json_print y ind j) ≤ fuel)%nat → delimited rest →
  parse_value fuel (json_print y ind j ++ rest) = Some (j, rest).

Lemma print_length ind j : plain j = true → (1 ≤ length (json_print y ind j))%nat.
Proof.
  intros H. destruct (print_head ind j [] H) as (a & l & Heq & _). rewrite app_nil_r in Heq.
  rewrite Heq. cbn. lia.
Qed.

Lemma reads_gap ind' ind j fuel x :
  reads j → (length (json_print y ind j) ≤ fuel)%nat → delimited x →
  parse_value fuel (gap y ind' ++ json_print y ind j ++ x) = Some (j, x).
Proof.
  intros Hj Hf Hx. rewrite <-(Hj ind fuel x Hf Hx). destruct fuel as [|f]; [done|].
  cbn [parse_value]. by rewrite skip_gap.
Qed.

(** Elements separated by commas up to the closing bracket. *)
Definition elements_text (ind : nat) (l : list json) (rest : list ascii) : list ascii :=
  (l ≫= λ j, ","%char :: gap y (S ind) ++ json_print y (S ind) j) ++ gap y ind ++ "]"%char :: rest.

Lemma elements_text_cons ind j l rest :
  elements_text ind (j :: l) rest =
  ","%char :: gap y (S ind) ++ json_print y (S ind) j ++ elements_text ind l rest.
Proof. unfold elements_text. rewrite bind_cons. cbn [app]. by rewrite <-!app_assoc. Qed.

Lemma elements_delimited ind l rest : delimited (elements_text ind l rest).
Proof.
  destruct l as [|j l]; [|rewrite elements_text_cons; by apply (bool_decide_unpack _)].
  unfold elements_text. cbn [mbind list_bind app]. apply delimited_gap. by apply (bool_decide_unpack _).
Qed.

Lemma parse_elements_ok ind l : ∀ j fuel rest,
  reads j → Forall reads l → plain j = true → forallb plain l = true →
  (length (json_print y (S ind) j) + length (elements_text ind l []) ≤ fuel)%nat →
  parse_elements fuel (gap y (S ind) ++ json_print y (S ind) j ++ elements_text ind l rest)
  = Some (j :: l, rest).
Proof.
  induction l as [|j2 l IH]; intros j fuel rest Hj Hl Hp Hpl Hf.
  all: destruct fuel as [|f]; [exfalso; revert Hf; pose proof (print_length (S ind) j Hp); lia|].
  all: cbn [parse_elements]; rewrite reads_gap;
    [|done|revert Hf; unfold elements_text; rewrite !length_app; cbn [length]; lia|apply elements_delimited].
  - unfold elements_text. cbn [mbind list_bind app]. rewrite skip_gap. reflexivity.
  - rewrite elements_text_cons.
    unfold skip_space at 1. cbn [drop_while]. change (is_json_space ","%char) with false. cbn iota.
    change (byte_val ","%char =? 93)%Z with false. change (byte_val ","%char =? 44)%Z with true.
    cbn iota. apply Forall_cons in Hl as [Hj2 Hl]. cbn [forallb] in Hpl.
    apply andb_true_iff in Hpl as [Hp2 Hpl].
    rewrite IH; [done|done|done|done|done|].
    revert Hf. rewrite elements_text_cons. cbn [length]. rewrite !length_app. lia.
Qed.

(** Members, likewise. *)
Definition member_text (ind : nat) (kv : string * json) : list ascii :=
  encode_string kv.1 ++ colon y ++ json_print y ind kv.2.
Definition members_text (ind : nat) (l : list (string * json)) (rest : list ascii) : list ascii :=
  (l ≫= λ kv, ","%char :: gap y (S ind) ++ member_text (S ind) kv) ++ gap y ind ++ "}"%char :: rest.
Lemma members_text_cons ind kv l rest :
  members_text ind (kv :: l) rest =
  ","%char :: gap y (S ind) ++ member_text (S ind) kv ++ members_text ind l rest.
Proof. unfold members_text. rewrite bind_cons. cbn [app]. by rewrite <-!app_assoc. Qed.

Lemma members_delimited ind l rest : delimited (members_text ind l rest).
Proof.
  destruct l as [|j l]; [|rewrite members_text_cons; by apply (bool_decide_unpack _)].
  unfold members_text. cbn [mbind list_bind app]. apply delimited_gap. by apply (bool_decide_unpack _).
Qed.

Definition plain_member (kv : string * json) : bool :=
  forallb (λ a, byte_val a <? 128)%Z (bytes kv.1) && plain kv.2.

(** The parser after one member. *)
Lemma parse_member_step ind' ind kv f x :
  reads kv.2 → plain_member kv = true → (length (member_text ind kv) ≤ S f)%nat → delimited x →
  parse_members (S f) (gap y ind' ++ member_text ind kv ++ x) =
  match skip_space x with
  | d :: l4 =>
      if (byte_val d =? 125)%Z then Some ([kv], l4)
      else if (byte_val d =? 44)%Z then
        match parse_members f l4 with
        | Some (ms, rest) => Some (kv :: ms, rest)
        | None => None
        end
      else None
  | [] => None
  end.
Proof.
  destruct kv as [k v]. unfold plain_member, member_text. cbn [fst snd].
  intros Hj [Hk Hv]%andb_true_iff Hf Hx. rewrite !length_app in Hf.
  cbn [parse_members]. rewrite skip_gap, <-!app_assoc.
  destruct (parse_encoded_string k (colon y ++ json_print y ind v ++ x) Hk) as (tail & -> & Htail).
  unfold skip_space at 1. cbn [drop_while]. change (is_json_space quote_byte) with false. cbn iota.
  change (byte_val quote_byte =? 34)%Z with true. cbn [negb]. rewrite Htail.
  assert (skip_space (colon y ++ json_print y ind v ++ x) =
    ":"%char :: drop 1 (colon y) ++ json_print y ind v ++ x) as -> by by destruct y.
  change (byte_val ":"%char =? 58)%Z with true. cbn [negb].
  assert (parse_value f (drop 1 (colon y) ++ json_print y ind v ++ x) = Some (v, x)) as ->.
  { pose proof (print_length ind v Hv).
    assert (1 ≤ length (colon y))%nat by (destruct y; cbn; lia).
    unfold encode_string in Hf. cbn [length] in Hf.
    transitivity (parse_value f (json_print y ind v ++ x)); [|apply Hj; [lia|done]].
    destruct f as [|f']; [lia|]. by destruct y. }
  by rewrite of_bytes_bytes.
Qed.

Lemma parse_members_ok ind l : ∀ kv fuel rest,
  reads kv.2 → Forall (λ kv, reads kv.2) l → plain_member kv = true → forallb plain_member l = true →
  (length (member_text (S ind) kv) + length (members_text ind l []) ≤ fuel)%nat →
  parse_members fuel (gap y (S ind) ++ member_text (S ind) kv ++ members_text ind l rest)
  = Some (kv :: l, rest).
Proof.
  induction l as [|kv2 l IH]; intros kv fuel rest Hj Hl Hp Hpl Hf.
  all: destruct fuel as [|f]; [exfalso; revert Hf; unfold members_text; rewrite !length_app; cbn [length]; lia|].
  all: rewrite parse_member_step; [|done|done|lia|apply members_delimited].
  - unfold members_text. cbn [mbind list_bind app]. rewrite skip_gap. reflexivity.
  - rewrite members_text_cons.
    unfold skip_space at 1. cbn [drop_while]. change (is_json_space ","%char) with false. cbn iota.
    change (byte_val ","%char =? 125)%Z with false. change (byte_val ","%char =? 44)%Z with true.
    cbn iota. apply Forall_cons in Hl as [Hj2 Hl]. cbn [forallb] in Hpl.
    apply andb_true_iff in Hpl as [Hp2 Hpl].
    rewrite IH; [done|done|done|done|done|].
    revert Hf. rewrite members_text_cons. cbn [length]. rewrite !length_app. lia.
Qed.

(** Induction on documents, with the hypotheses for all components. *)
Fixpoint json_ind' (P : json → Prop) (Hnull : P JNull) (Hbool : ∀ b, P (JBool b))
    (Hnum : ∀ l, P (JNum l)) (Hstr : ∀ s, P (JStr s))
    (Harr : ∀ l, Forall P l → P (JArr l))
    (Hobj : ∀ fs, Forall (λ kv, P kv.2) fs → P (JObj fs)) (j : json) : P j :=
  let rec := json_ind' P Hnull Hbool Hnum Hstr Harr Hobj in
  match j with
  | JNull => Hnull
  | JBool b => Hbool b
  | JNum l => Hnum l
  | JStr s => Hstr s
  | JArr l => Harr l ((fix go l := match l return Forall P l with
                                   | [] => Forall_nil_2 _
                                   | x :: l' => Forall_cons_2 _ _ _ (rec x) (go l')
                                   end) l)
  | JObj fs => Hobj fs ((fix go l := match l return Forall (λ kv, P kv.2) l with
                                     | [] => Forall_nil_2 _
                                     | x :: l' => Forall_cons_2 _ _ _ (rec x.2) (go l')
                                     end) fs)
  end.

Lemma Forall_reads l :
  Forall (λ j, plain j = true → reads j) l → forallb plain l = true → Forall reads l.
Proof.
  induction 1 as [|j l Hj _ IH]; [by constructor|]. cbn [forallb]. intros [? ?]%andb_true_iff. auto.
Qed.

Lemma Forall_reads_members fs :
  Forall (λ kv, plain kv.2 = true → reads kv.2) fs → forallb plain_member fs = true →
  Forall (λ kv, reads kv.2) fs.
Proof.
  induction 1 as [|kv l Hj _ IH]; [by constructor|]. cbn [forallb].
  intros [[? ?]%andb_true_iff ?]%andb_true_iff. auto.
Qed.

Lemma reads_number l ind f rest :
  plain (JNum l) = true → delimited rest →
  parse_value (S f) (json_print y ind (JNum l) ++ rest) = Some (JNum l, rest).
Proof.
  cbn [plain json_print]. intros [Hn Heq%bool_decide_eq_true]%andb_true_iff Hr. rewrite Heq.
  apply is_number_spec in Hn as (Hp & Hne & Hc). apply (parse_number_app _ rest) in Hp; [|done]. destruct l as [|a l]; [done|].
  cbn [forallb] in Hc. apply andb_true_iff in Hc as [Hc _]. cbn [parse_value app]. unfold skip_space. cbn [drop_while].
  assert (is_json_space a = false) as ->.
  { unfold is_json_space. rewrite !(number_char_not a) by (done || lia || by apply (bool_decide_unpack _)). done. }
  rewrite !(number_char_not a) by (done || lia || by apply (bool_decide_unpack _)). cbn [app] in Hp. by rewrite Hp.
Qed.

Lemma reads_plain j : plain j = true → reads j.
Proof.
  induction j as [|b|l|s|l IH|fs IH] using json_ind'; intros Hp; try done.
  all: intros ind [|f] rest Hf Hr; [pose proof (print_length ind _ Hp); lia|].
  - reflexivity.
  - destruct b; reflexivity.
  - apply reads_number; [exact Hp|exact Hr].
  - cbn [json_print]. destruct (parse_encoded_string s rest Hp) as (tail & -> & Htail).
    cbn [parse_value]. unfold skip_space at 1. cbn [drop_while].
    change (is_json_space quote_byte) with false. cbn iota.
    change (byte_val quote_byte =? 34)%Z with true. cbn iota. rewrite Htail.
    by rewrite of_bytes_bytes.
  - destruct l as [|j l]; [reflexivity|]. cbn [plain forallb] in Hp. apply andb_true_iff in Hp as [Hj Hl].
    apply Forall_cons in IH as [IHj IHl].
    assert (json_print y ind (JArr (j :: l)) ++ rest =
            "["%char :: gap y (S ind) ++ json_print y (S ind) j ++ elements_text ind l rest) as ->.
    { cbn [json_print map enclose]. unfold elements_text. rewrite <-!app_comm_cons, <-!app_assoc.
      cbn [app]. do 3 f_equal. by rewrite list_fmap_bind. }
    cbn [parse_value]. unfold skip_space at 1. cbn [drop_while].
    change (is_json_space "["%char) with false. cbn iota.
    change (byte_val "["%char) with 91%Z. cbn [Z.eqb Pos.eqb].
    rewrite parse_elements_ok; [|auto|by apply Forall_reads|done|done|].
    + rewrite skip_gap, skip_value by by apply print_head.
      destruct (print_head (S ind) j (elements_text ind l rest) Hj) as (a & l' & -> & _ & Ha & _).
      by destruct (Z.eqb_spec (byte_val a) 93).
    + revert Hf. cbn [json_print map enclose]. unfold elements_text. cbn [length].
      rewrite !length_app, list_fmap_bind. cbn [length]. unfold compose. lia.
  - destruct fs as [|kv fs]; [reflexivity|]. cbn [plain forallb] in Hp.
    apply andb_true_iff in Hp as [Hkv Hfs]. apply Forall_cons in IH as [IHj IHl].
    assert (plain kv.2 = true) as Hv by (by apply andb_true_iff in Hkv as [_ ?]).
    assert (json_print y ind (JObj (kv :: fs)) ++ rest =
            "{"%char :: gap y (S ind) ++ member_text (S ind) kv ++ members_text ind fs rest) as ->.
    { cbn [json_print map enclose]. unfold members_text, member_text.
      rewrite <-!app_comm_cons, <-!app_assoc. cbn [app]. do 6 f_equal. by rewrite list_fmap_bind. }
    cbn [parse_value]. unfold skip_space at 1. cbn [drop_while].
    change (is_json_space "{"%char) with false. cbn iota.
    change (byte_val "{"%char) with 123%Z. cbn [Z.eqb Pos.eqb].
    rewrite parse_members_ok; [|auto|by apply Forall_reads_members|done|done|].
    + rewrite skip_gap. unfold member_text, encode_string. rewrite <-!app_assoc. reflexivity.
    + revert Hf. cbn [json_print map enclose]. unfold members_text, member_text. cbn [length].
      rewrite !length_app, list_fmap_bind. cbn [length]. unfold compose. lia.
Qed.

Lemma skip_all_space l : forallb is_json_space l = true → skip_space l = [].
Proof.
  induction l as [|a l IH]; [done|]. cbn [forallb]. intros [Ha Hl]%andb_true_iff.
  unfold skip_space. cbn [drop_while]. rewrite Ha. by apply IH.
Qed.

Lemma delimited_space l : forallb is_json_space l = true → delimited l.
Proof.
  destruct l as [|a l]; [done|]. cbn [forallb delimited]. intros [Ha _]%andb_true_iff.
  unfold is_json_space in Ha. unfold is_digit.
  assert (byte_val a ∈ [32; 9; 10; 13]%Z) as H.
  { rewrite !orb_true_iff, !Z.eqb_eq in Ha. rewrite !elem_of_cons. naive_solver. }
  rewrite !elem_of_cons in H. destruct H as [->|[->|[->|[->|[]%elem_of_nil]]]];
    (split; [done|by apply (bool_decide_unpack _)]).
Qed.

(** Trailing white space is ignored. *)
Lemma json_text_parse j ws :
  plain j = true → forallb is_json_space (bytes ws) = true →
  json_parse (of_bytes (json_print y 0 j) +:+ ws) = Some j.
Proof.
  intros H Hws. unfold json_parse. rewrite bytes_app, bytes_of_bytes.
  rewrite (reads_plain j H 0); [by rewrite skip_all_space| |by apply delimited_space].
  unfold json_fuel. rewrite <-length_bytes, bytes_app, length_app, bytes_of_bytes. lia.
Qed.
End roundtrip.

Section documents.
Context {N : JsonNumberText}.

Lemma json_print_parse_space j ws :
  plain j = true → forallb is_json_space (bytes ws) = true →
  json_parse (MarshalIndent j +:+ ws) = Some j.
Proof. apply json_text_parse. Qed.

(** Printing and parsing a document is the identity: whatever [MarshalIndent] or
    [Marshal] writes for a document with ASCII strings
    (quotes, backslashes, control and HTML characters escaped), the parser reads
    back as the same document, nesting, order and escapes included. *)
Theorem json_print_parse j (H : plain j = true) :
  json_parse (MarshalIndent j) = Some j ∧ json_parse (Marshal j) = Some j.
Proof.
  rewrite <-(string_app_nil_r (MarshalIndent j)), <-(string_app_nil_r (Marshal j)).
  split; by apply json_text_parse.
Qed.
End documents.

Lemma json_print_parse_witness :
  let j := JObj [("callers", JObj [("a<b", JArr [JStr "x"; JNull])]); ("n", JNum (bytes "10"))] in
  json_parse (MarshalIndent (N := id) j) = Some j ∧ json_parse (Marshal (N := id) j) = Some j.
Proof. intros j. apply (json_print_parse (N := id) j). vm_compute. reflexivity. Defined.
