(* ===== verification/HistoryIpc.v ===== *)
(** * Validation history: the socket protocol

    [internal/historyipc/protocol.go]: framed JSON envelopes.  A frame is the magic
    [AFH1], the length of the payload in four bytes, big end first, and the payload;
    DecodeFrame reads one frame and requires the end of the stream after it. *)

From stdpp Require Import base gmap strings list.
From Stdlib Require Import ZArith Lia Ascii.
From S2P Require Import Prelude GoStrings GoErrors GoFloat GoJson GoTime Fitness HistoryEvent GoJsonPrint.
Set Default Goal Selector "!".

(** ** Readers *)

(** An [io.Reader]: what each call of [Read] has ready (nothing ready is a read of no
    bytes), and the error at the end. *)
Record reader := mkReader { rd_chunks : list (list ascii); rd_end : goerror }.

Definition eof : goerror := ErrSentinel EOF.

(** [Read] into a buffer of [k] bytes, [k] positive: the bytes, the error, the reader
    afterwards. *)
Definition Read (k : nat) (r : reader) : list ascii * option goerror * reader :=
  match rd_chunks r with
  | [] => ([], Some (rd_end r), r)
  | c :: cs =>
      if (length c <=? k)%nat then (c, None, mkReader cs (rd_end r))
      else (take k c, None, mkReader (drop k c :: cs) (rd_end r))
  end.

(** The loop of [io.ReadFull] for [n] more bytes, [got] telling whether some were
    read. *)
Fixpoint read_full (chunks : list (list ascii)) (last : goerror) (got : bool) (n : nat) :
  result goerror (list ascii * reader) :=
  match n with
  | O => Ok ([], mkReader chunks last)
  | _ =>
      match chunks with
      | [] => Err (match last with
                   | ErrSentinel EOF => if got then ErrSentinel ErrUnexpectedEOF else last
                   | _ => last
                   end)
      | c :: cs =>
          if (length c <=? n)%nat then
            match read_full cs last (got || negb (empty_list c)) (n - length c) with
            | Ok (b, r) => Ok (c ++ b, r)
            | Err e => Err e
            end
          else Ok (take n c, mkReader (drop n c :: cs) last)
      end
  end.
Definition ReadFull (n : nat) (r : reader) : result goerror (list ascii * reader) :=
  read_full (rd_chunks r) (rd_end r) false n.

(** [binary.BigEndian]. *)
Definition be32 (z : Z) : list ascii :=
  byte_of (Z.shiftr z 24 mod 256) :: byte_of (Z.shiftr z 16 mod 256) :: byte_of (Z.shiftr z 8 mod 256)
    :: [byte_of (z mod 256)].
Definition of_be32 (l : list ascii) : Z := foldl (λ acc a, Z.lor (Z.shiftl acc 8) (byte_val a)) 0%Z l.

(** ** Frames *)

Definition protocolVersion : Z := 1.
Definition frameHeaderSize : nat := 8.
Definition MaxPayloadSize : Z := Z.shiftl 16 20.
Definition frameMagic : string := "AFH1".
Definition KindValidation : string := "validation".
Definition KindIdentify : string := "identify".
Definition KindIdentity : string := "identity".
Definition KindShutdown : string := "shutdown".
Definition ServiceName : string := "agent-fitness-functions-history-writer".

Definition readHeader (r : reader) : result goerror (Z * reader) :=
  match ReadFull frameHeaderSize r with
  | Err err => Err (ErrWrap "read history frame header: " err "")
  | Ok (header, r') =>
      if negb (bool_decide (take 4 header = bytes frameMagic))
      then Err (ErrNew "historyipc: invalid frame magic")
      else
        let length := of_be32 (drop 4 header) in
        if ((length =? 0) || (MaxPayloadSize <? length))%Z
        then Err (ErrNew ("history payload length " +:+ itoa length +:+ " is outside 1.." +:+ itoa MaxPayloadSize))
        else Ok (length, r')
  end.

Definition requireEOF (r : reader) : option goerror :=
  match Read 1 r with
  | (_ :: _, _, _) => Some (ErrNew "historyipc: trailing frame content")
  | ([], Some err, _) =>
      if errors_is err EOF then None
      else Some (ErrWrap "history frame did not end at payload boundary: " err "")
  | ([], None, _) => Some (ErrNew "history frame did not end at payload boundary: %!w(<nil>)")
  end.

Definition readPayload (r : reader) : result goerror (list ascii) :=
  match readHeader r with
  | Err err => Err err
  | Ok (length, r1) =>
      match ReadFull (Z.to_nat length) r1 with
      | Err err => Err (ErrWrap "read history payload: " err "")
      | Ok (payload, r2) =>
          match requireEOF r2 with
          | Some err => Err err
          | None => Ok payload
          end
      end
  end.

(** ** Objects with the text of their members *)

(** A member's value with the bytes it is written with. *)
Definition member : Type := json * list ascii.

(** The members of an object up to its closing brace, as [parse_members] reads them. *)
Fixpoint raw_members (fuel : nat) (l0 : list ascii) : option (list (string * member) * list ascii) :=
  match fuel with
  | O => None
  | S f =>
      match skip_space l0 with
      | a :: l' =>
          if negb (byte_val a =? 34)%Z then None
          else match parse_string (S (length l')) l' with
          | None => None
          | Some (k, l1) =>
              match skip_space l1 with
              | c :: l2 =>
                  if negb (byte_val c =? 58)%Z then None
                  else match parse_value f l2 with
                  | None => None
                  | Some (v, l3) =>
                      let text := take (length (skip_space l2) - length l3) (skip_space l2) in
                      match skip_space l3 with
                      | d :: l4 =>
                          if (byte_val d =? 125)%Z then Some ([(of_bytes k, (v, text))], l4)
                          else if (byte_val d =? 44)%Z then
                            match raw_members f l4 with
                            | Some (ms, rest) => Some ((of_bytes k, (v, text)) :: ms, rest)
                            | None => None
                            end
                          else None
                      | [] => None
                      end
                  end
              | [] => None
              end
          end
      | [] => None
      end
  end.

Definition raw_object (l : list ascii) : option (list (string * member)) :=
  match skip_space l with
  | a :: l' =>
      if negb (byte_val a =? 123)%Z then None
      else match skip_space l' with
           | c :: _ =>
               if (byte_val c =? 125)%Z then Some []
               else fst <$> raw_members (json_fuel (of_bytes l)) l'
           | [] => None
           end
  | [] => None
  end.

(** [json.RawMessage] keeps the bytes, [time.Time] reads them between the quotes, the
    other fields are decoded from the value. *)
Definition on_value {A} (d : decoder A) (v : member) (old : A) : option A := d v.1 old.
Definition dec_raw_ptr (v : member) (old : option string) : option (option string) := dec_ptr "" dec_string v.1 old.
Definition dec_rawmessage (v : member) (old : string) : option string := Some (of_bytes v.2).
Definition dec_time (v : member) (old : Time) : option Time :=
  match v.1 with
  | JNull => Some old
  | JStr _ => parse_time (of_bytes (take (length v.2 - 2) (drop 1 v.2)))
  | _ => None
  end.

(** [decodeStrict] into a struct: every member selects a field and fits it. *)
Definition decodeStrict {A} (fields : list (string * (member → A → option A))) (zero : A) (payload : list ascii) : option A :=
  match raw_object payload with
  | Some members =>
      foldl (λ acc kv, match acc with
                       | None => None
                       | Some a => match select_field fields kv.1 with
                                   | Some d => d kv.2 a
                                   | None => None
                                   end
                       end) (Some zero) members
  | None => None
  end.

(** [json.RawMessage] marshalled: white space between tokens dropped, HTML
    characters and the line separators escaped inside strings. *)
Definition is_html (b : Z) : bool := ((b =? 60) || (b =? 62) || (b =? 38))%Z.
Fixpoint compact (in_string escaped : bool) (l : list ascii) : list ascii :=
  match l with
  | [] => []
  | a :: l' =>
      let b := byte_val a in
      if negb in_string then
        if is_json_space a then compact false false l' else a :: compact (b =? 34)%Z false l'
      else if escaped then a :: compact true false l'
      else if (b =? 34)%Z then a :: compact false false l'
      else if (b =? 92)%Z then a :: compact true true l'
      else if is_html b then unicode_escape b ++ compact true false l'
      else match l' with
           | x :: y :: l2 =>
               if ((b =? 0xE2) && (byte_val x =? 0x80) && (Z.land (byte_val y) 0xFE =? 0xA8))%Z
               then unicode_escape (0x2000 + Z.land (byte_val y) 0x3F) ++ compact true false l2
               else a :: compact true false l'
           | _ => a :: compact true false l'
           end
  end.

(** ** Envelopes *)

Record Identity := mkIdentity {
  id_BuildRevision : string;
  id_Modified : bool;
  id_PID : Z;
  id_StartedAt : Time;
}.
Record Message := mkMessage {
  m_Kind : string;
  m_Event : option Event;
  m_Identity : option Identity;
  m_Accepted : bool;
}.

Record controlEnvelope := mkControl { ce_Version : Z; ce_Kind : string }.
Record validationEnvelope := mkValidation { ve_Version : Z; ve_Kind : string; ve_Event : Event }.
Record identityEnvelope := mkIdentityEnvelope {
  ie_Version : Z;
  ie_Kind : string;
  ie_ServiceName : string;
  ie_Build : string;
  ie_Modified : bool;
  ie_PID : Z;
  ie_StartedAt : Time;
}.
Record shutdownEnvelope := mkShutdown { se_Version : Z; se_Kind : string; se_Accepted : bool }.

(** *** Encoding *)

(** The text of a value, and of a struct from the texts of its fields. *)
Definition text (j : json) : list ascii := json_print (N := id) Compact 0 j.
Definition object_text (fields : list (string * list ascii)) : list ascii :=
  enclose Compact "{"%char "}"%char 0 (map (λ kv, encode_string kv.1 ++ ":"%char :: kv.2) fields).
Definition optional_json (s : option string) : json := match s with Some x => JStr x | None => JNull end.

(** [json.Marshal] of a [time.Time] and of a [json.RawMessage]. *)
Definition marshal_time (t : Time) : result goerror (list ascii) :=
  if time_marshals t then Ok (text (JStr (format_time t)))
  else Err (ErrWrap "json: error calling MarshalJSON for type time.Time: " (time_error t) "").
Definition marshal_raw {J : JsonErrorText} (raw : string) : result goerror (list ascii) :=
  match json_parse raw with
  | Some _ => Ok (compact false false (bytes raw))
  | None => Err (ErrWrap "json: error calling MarshalJSON for type json.RawMessage: " (ErrNew (json_error_text raw)) "")
  end.
(** A raw message with [omitempty]. *)
Definition omit_raw {J : JsonErrorText} (name raw : string) : result goerror (list (string * list ascii)) :=
  if String.eqb raw "" then Ok []
  else let? t := marshal_raw raw in Ok [(name, t)].

Definition encodeEnvelope (payload : result goerror (list ascii)) : result goerror (list ascii) :=
  match payload with
  | Err err => Err (ErrWrap "encode history envelope: " err "")
  | Ok payload =>
      let n := Z.of_nat (length payload) in
      if (MaxPayloadSize <? n)%Z
      then Err (ErrNew ("history envelope is " +:+ itoa n +:+ " bytes; maximum is " +:+ itoa MaxPayloadSize))
      else Ok (bytes frameMagic ++ be32 n ++ payload)
  end.

Definition header_texts (kind : string) : list (string * list ascii) :=
  [("version", text (json_int protocolVersion)); ("kind", text (JStr kind))].

Definition marshal_validation {J : JsonErrorText} (e : Event) : result goerror (list ascii) :=
  let? completed := marshal_time (ev_CompletedAt e) in
  let? request := omit_raw "request_json" (ev_RequestJSON e) in
  let? response := omit_raw "result_json" (ev_ResultJSON e) in
  Ok (object_text
    (header_texts KindValidation ++
     [("event_id", text (JStr (ev_EventID e))); ("completed_at", completed);
      ("common_git_dir", text (JStr (ev_CommonGitDir e))); ("repository", text (JStr (ev_Repository e)));
      ("worktree", text (JStr (ev_Worktree e))); ("branch", text (optional_json (ev_Branch e)));
      ("head_oid", text (optional_json (ev_HeadOID e))); ("file", text (JStr (ev_File e)));
      ("source", text (JStr (ev_Source e))); ("tool", text (optional_json (ev_Tool e)));
      ("action", text (optional_json (ev_Action e))); ("session_id", text (optional_json (ev_SessionID e)));
      ("status", text (JStr (ev_Status e))); ("dry_run", text (JBool (ev_DryRun e)))] ++ request ++ response)).

Definition EncodeValidation {J : JsonErrorText} (event : Event) : result goerror (list ascii) :=
  match Validate event with
  | Some err => Err (ErrWrap "invalid validation event: " err "")
  | None => encodeEnvelope (marshal_validation event)
  end.

Definition EncodeControl {U : UnicodeTables} (kind : string) : result goerror (list ascii) :=
  if negb (String.eqb kind KindIdentify) && negb (String.eqb kind KindShutdown)
  then Err (ErrNew ("unsupported control kind " +:+ quote kind))
  else encodeEnvelope (Ok (object_text (header_texts kind))).

Definition marshal_identity (i : Identity) : result goerror (list ascii) :=
  let? started := marshal_time (UTC (id_StartedAt i)) in
  Ok (object_text
    (header_texts KindIdentity ++
     [("service_name", text (JStr ServiceName)); ("build_revision", text (JStr (id_BuildRevision i)));
      ("modified", text (JBool (id_Modified i))); ("pid", text (json_int (id_PID i))); ("started_at", started)])).
Definition EncodeIdentity (ident : Identity) : result goerror (list ascii) :=
  if (id_PID ident <=? 0)%Z || IsZero (id_StartedAt ident)
  then Err (ErrNew "historyipc: identity requires pid and start time")
  else encodeEnvelope (marshal_identity ident).

Definition EncodeShutdownResponse : result goerror (list ascii) :=
  encodeEnvelope (Ok (object_text (header_texts KindShutdown ++ [("accepted", text (JBool true))]))).

(** *** Decoding *)

(** [utf8.Valid]. *)
Definition utf8_valid (l : list ascii) : bool :=
  forallb (λ p : Z * list ascii, negb ((p.1 =? RuneError)%Z && Nat.eqb (length p.2) 1)) (segments (of_bytes l)).

Definition dec_controlEnvelope : decoder controlEnvelope :=
  dec_struct
    [("version", λ j d, (λ x, mkControl x (ce_Kind d)) <$> dec_int j (ce_Version d));
     ("kind", λ j d, (λ x, mkControl (ce_Version d) x) <$> dec_string j (ce_Kind d))].

(** The number of fields of the envelope, and its header. *)
Definition inspectEnvelope {J : JsonErrorText} (payload : list ascii) : result goerror (nat * controlEnvelope) :=
  match json_parse (of_bytes payload) with
  | Some (JObj fs as j) =>
      match dec_controlEnvelope j (mkControl 0 "") with
      | None => Err (ErrWrap "decode history envelope header: " (ErrNew (json_error_text (of_bytes payload))) "")
      | Some header =>
          if negb (ce_Version header =? protocolVersion)%Z || String.eqb (ce_Kind header) ""
          then Err (ErrNew "historyipc: unsupported or incomplete envelope header")
          else Ok (size (list_to_set fs.*1 : gset string), header)
      end
  | _ => Err (ErrNew "historyipc: envelope must be a json object")
  end.

Definition zero_event : Event := mkEvent "" zero_time "" "" "" None None "" "" None None None "" false "" "".
Definition event_fields : list (string * (member → Event → option Event)) :=
    [("event_id", λ v e, (λ x, mkEvent x (ev_CompletedAt e) (ev_CommonGitDir e) (ev_Repository e) (ev_Worktree e) (ev_Branch e) (ev_HeadOID e) (ev_File e) (ev_Source e) (ev_Tool e) (ev_Action e) (ev_SessionID e) (ev_Status e) (ev_DryRun e) (ev_RequestJSON e) (ev_ResultJSON e)) <$> on_value dec_string v (ev_EventID e));
     ("completed_at", λ v e, (λ x, mkEvent (ev_EventID e) x (ev_CommonGitDir e) (ev_Repository e) (ev_Worktree e) (ev_Branch e) (ev_HeadOID e) (ev_File e) (ev_Source e) (ev_Tool e) (ev_Action e) (ev_SessionID e) (ev_Status e) (ev_DryRun e) (ev_RequestJSON e) (ev_ResultJSON e)) <$> dec_time v (ev_CompletedAt e));
     ("common_git_dir", λ v e, (λ x, mkEvent (ev_EventID e) (ev_CompletedAt e) x (ev_Repository e) (ev_Worktree e) (ev_Branch e) (ev_HeadOID e) (ev_File e) (ev_Source e) (ev_Tool e) (ev_Action e) (ev_SessionID e) (ev_Status e) (ev_DryRun e) (ev_RequestJSON e) (ev_ResultJSON e)) <$> on_value dec_string v (ev_CommonGitDir e));
     ("repository", λ v e, (λ x, mkEvent (ev_EventID e) (ev_CompletedAt e) (ev_CommonGitDir e) x (ev_Worktree e) (ev_Branch e) (ev_HeadOID e) (ev_File e) (ev_Source e) (ev_Tool e) (ev_Action e) (ev_SessionID e) (ev_Status e) (ev_DryRun e) (ev_RequestJSON e) (ev_ResultJSON e)) <$> on_value dec_string v (ev_Repository e));
     ("worktree", λ v e, (λ x, mkEvent (ev_EventID e) (ev_CompletedAt e) (ev_CommonGitDir e) (ev_Repository e) x (ev_Branch e) (ev_HeadOID e) (ev_File e) (ev_Source e) (ev_Tool e) (ev_Action e) (ev_SessionID e) (ev_Status e) (ev_DryRun e) (ev_RequestJSON e) (ev_ResultJSON e)) <$> on_value dec_string v (ev_Worktree e));
     ("branch", λ v e, (λ x, mkEvent (ev_EventID e) (ev_CompletedAt e) (ev_CommonGitDir e) (ev_Repository e) (ev_Worktree e) x (ev_HeadOID e) (ev_File e) (ev_Source e) (ev_Tool e) (ev_Action e) (ev_SessionID e) (ev_Status e) (ev_DryRun e) (ev_RequestJSON e) (ev_ResultJSON e)) <$> dec_raw_ptr v (ev_Branch e));
     ("head_oid", λ v e, (λ x, mkEvent (ev_EventID e) (ev_CompletedAt e) (ev_CommonGitDir e) (ev_Repository e) (ev_Worktree e) (ev_Branch e) x (ev_File e) (ev_Source e) (ev_Tool e) (ev_Action e) (ev_SessionID e) (ev_Status e) (ev_DryRun e) (ev_RequestJSON e) (ev_ResultJSON e)) <$> dec_raw_ptr v (ev_HeadOID e));
     ("file", λ v e, (λ x, mkEvent (ev_EventID e) (ev_CompletedAt e) (ev_CommonGitDir e) (ev_Repository e) (ev_Worktree e) (ev_Branch e) (ev_HeadOID e) x (ev_Source e) (ev_Tool e) (ev_Action e) (ev_SessionID e) (ev_Status e) (ev_DryRun e) (ev_RequestJSON e) (ev_ResultJSON e)) <$> on_value dec_string v (ev_File e));
     ("source", λ v e, (λ x, mkEvent (ev_EventID e) (ev_CompletedAt e) (ev_CommonGitDir e) (ev_Repository e) (ev_Worktree e) (ev_Branch e) (ev_HeadOID e) (ev_File e) x (ev_Tool e) (ev_Action e) (ev_SessionID e) (ev_Status e) (ev_DryRun e) (ev_RequestJSON e) (ev_ResultJSON e)) <$> on_value dec_string v (ev_Source e));
     ("tool", λ v e, (λ x, mkEvent (ev_EventID e) (ev_CompletedAt e) (ev_CommonGitDir e) (ev_Repository e) (ev_Worktree e) (ev_Branch e) (ev_HeadOID e) (ev_File e) (ev_Source e) x (ev_Action e) (ev_SessionID e) (ev_Status e) (ev_DryRun e) (ev_RequestJSON e) (ev_ResultJSON e)) <$> dec_raw_ptr v (ev_Tool e));
     ("action", λ v e, (λ x, mkEvent (ev_EventID e) (ev_CompletedAt e) (ev_CommonGitDir e) (ev_Repository e) (ev_Worktree e) (ev_Branch e) (ev_HeadOID e) (ev_File e) (ev_Source e) (ev_Tool e) x (ev_SessionID e) (ev_Status e) (ev_DryRun e) (ev_RequestJSON e) (ev_ResultJSON e)) <$> dec_raw_ptr v (ev_Action e));
     ("session_id", λ v e, (λ x, mkEvent (ev_EventID e) (ev_CompletedAt e) (ev_CommonGitDir e) (ev_Repository e) (ev_Worktree e) (ev_Branch e) (ev_HeadOID e) (ev_File e) (ev_Source e) (ev_Tool e) (ev_Action e) x (ev_Status e) (ev_DryRun e) (ev_RequestJSON e) (ev_ResultJSON e)) <$> dec_raw_ptr v (ev_SessionID e));
     ("status", λ v e, (λ x, mkEvent (ev_EventID e) (ev_CompletedAt e) (ev_CommonGitDir e) (ev_Repository e) (ev_Worktree e) (ev_Branch e) (ev_HeadOID e) (ev_File e) (ev_Source e) (ev_Tool e) (ev_Action e) (ev_SessionID e) x (ev_DryRun e) (ev_RequestJSON e) (ev_ResultJSON e)) <$> on_value dec_string v (ev_Status e));
     ("dry_run", λ v e, (λ x, mkEvent (ev_EventID e) (ev_CompletedAt e) (ev_CommonGitDir e) (ev_Repository e) (ev_Worktree e) (ev_Branch e) (ev_HeadOID e) (ev_File e) (ev_Source e) (ev_Tool e) (ev_Action e) (ev_SessionID e) (ev_Status e) x (ev_RequestJSON e) (ev_ResultJSON e)) <$> on_value dec_bool v (ev_DryRun e));
     ("request_json", λ v e, (λ x, mkEvent (ev_EventID e) (ev_CompletedAt e) (ev_CommonGitDir e) (ev_Repository e) (ev_Worktree e) (ev_Branch e) (ev_HeadOID e) (ev_File e) (ev_Source e) (ev_Tool e) (ev_Action e) (ev_SessionID e) (ev_Status e) (ev_DryRun e) x (ev_ResultJSON e)) <$> dec_rawmessage v (ev_RequestJSON e));
     ("result_json", λ v e, (λ x, mkEvent (ev_EventID e) (ev_CompletedAt e) (ev_CommonGitDir e) (ev_Repository e) (ev_Worktree e) (ev_Branch e) (ev_HeadOID e) (ev_File e) (ev_Source e) (ev_Tool e) (ev_Action e) (ev_SessionID e) (ev_Status e) (ev_DryRun e) (ev_RequestJSON e) x) <$> dec_rawmessage v (ev_ResultJSON e))].
Definition validation_fields : list (string * (member → validationEnvelope → option validationEnvelope)) :=
  [("version", λ v d, (λ x, mkValidation x (ve_Kind d) (ve_Event d)) <$> on_value dec_int v (ve_Version d));
   ("kind", λ v d, (λ x, mkValidation (ve_Version d) x (ve_Event d)) <$> on_value dec_string v (ve_Kind d))]
  ++ map (λ f : string * (member → Event → option Event),
            (f.1, λ v d, (λ x, mkValidation (ve_Version d) (ve_Kind d) x) <$> f.2 v (ve_Event d))) event_fields.

Definition decodeValidation {J : JsonErrorText} (payload : list ascii) : result goerror Message :=
  match decodeStrict validation_fields (mkValidation 0 "" zero_event) payload with
  | None => Err (ErrWrap "decode validation envelope: " (ErrNew (json_error_text (of_bytes payload))) "")
  | Some envelope =>
      match Validate (ve_Event envelope) with
      | Some err => Err (ErrWrap "invalid validation event: " err "")
      | None => Ok (mkMessage KindValidation (Some (ve_Event envelope)) None false)
      end
  end.

Definition decodeControl {U : UnicodeTables} (header : controlEnvelope) (fields expected : nat) : result goerror Message :=
  if negb (Nat.eqb fields expected)
  then Err (ErrNew ("history control " +:+ quote (ce_Kind header) +:+ " contains extra or missing fields"))
  else Ok (mkMessage (ce_Kind header) None None false).

Definition identity_fields : list (string * (member → identityEnvelope → option identityEnvelope)) :=
  [("version", λ v d, (λ x, mkIdentityEnvelope x (ie_Kind d) (ie_ServiceName d) (ie_Build d) (ie_Modified d) (ie_PID d) (ie_StartedAt d)) <$> on_value dec_int v (ie_Version d));
   ("kind", λ v d, (λ x, mkIdentityEnvelope (ie_Version d) x (ie_ServiceName d) (ie_Build d) (ie_Modified d) (ie_PID d) (ie_StartedAt d)) <$> on_value dec_string v (ie_Kind d));
   ("service_name", λ v d, (λ x, mkIdentityEnvelope (ie_Version d) (ie_Kind d) x (ie_Build d) (ie_Modified d) (ie_PID d) (ie_StartedAt d)) <$> on_value dec_string v (ie_ServiceName d));
   ("build_revision", λ v d, (λ x, mkIdentityEnvelope (ie_Version d) (ie_Kind d) (ie_ServiceName d) x (ie_Modified d) (ie_PID d) (ie_StartedAt d)) <$> on_value dec_string v (ie_Build d));
   ("modified", λ v d, (λ x, mkIdentityEnvelope (ie_Version d) (ie_Kind d) (ie_ServiceName d) (ie_Build d) x (ie_PID d) (ie_StartedAt d)) <$> on_value dec_bool v (ie_Modified d));
   ("pid", λ v d, (λ x, mkIdentityEnvelope (ie_Version d) (ie_Kind d) (ie_ServiceName d) (ie_Build d) (ie_Modified d) x (ie_StartedAt d)) <$> on_value dec_int v (ie_PID d));
   ("started_at", λ v d, (λ x, mkIdentityEnvelope (ie_Version d) (ie_Kind d) (ie_ServiceName d) (ie_Build d) (ie_Modified d) (ie_PID d) x) <$> dec_time v (ie_StartedAt d))].

Definition decodeIdentity {J : JsonErrorText} (payload : list ascii) (fields : nat) : result goerror Message :=
  if negb (Nat.eqb fields 7)
  then Err (ErrNew "historyipc: identity response contains extra or missing fields")
  else match decodeStrict identity_fields (mkIdentityEnvelope 0 "" "" "" false 0 zero_time) payload with
  | None => Err (ErrWrap "decode identity response: " (ErrNew (json_error_text (of_bytes payload))) "")
  | Some e =>
      if negb (String.eqb (ie_ServiceName e) ServiceName) || (ie_PID e <=? 0)%Z || IsZero (ie_StartedAt e)
      then Err (ErrNew "historyipc: invalid identity response")
      else Ok (mkMessage KindIdentity None
                 (Some (mkIdentity (ie_Build e) (ie_Modified e) (ie_PID e) (ie_StartedAt e))) false)
  end.

Definition shutdown_fields : list (string * (member → shutdownEnvelope → option shutdownEnvelope)) :=
  [("version", λ v d, (λ x, mkShutdown x (se_Kind d) (se_Accepted d)) <$> on_value dec_int v (se_Version d));
   ("kind", λ v d, (λ x, mkShutdown (se_Version d) x (se_Accepted d)) <$> on_value dec_string v (se_Kind d));
   ("accepted", λ v d, (λ x, mkShutdown (se_Version d) (se_Kind d) x) <$> on_value dec_bool v (se_Accepted d))].

Definition decodeShutdown {U : UnicodeTables} (payload : list ascii) (header : controlEnvelope) (fields : nat) : result goerror Message :=
  if Nat.eqb fields 2 then decodeControl header fields 2
  else if negb (Nat.eqb fields 3)
  then Err (ErrNew "historyipc: shutdown envelope contains extra or missing fields")
  else match decodeStrict shutdown_fields (mkShutdown 0 "" false) payload with
  | Some e =>
      if se_Accepted e then Ok (mkMessage KindShutdown None None true)
      else Err (ErrNew "historyipc: invalid shutdown response")
  | None => Err (ErrNew "historyipc: invalid shutdown response")
  end.

Section decode.
Context {J : JsonErrorText} {U : UnicodeTables}.

Definition decodePayload (payload : list ascii) : result goerror Message :=
  if negb (utf8_valid payload) || bool_decide (json_parse (of_bytes payload) = None)
  then Err (ErrNew "historyipc: payload is not valid utf-8 json")
  else match inspectEnvelope payload with
  | Err err => Err err
  | Ok (fields, header) =>
      if String.eqb (ce_Kind header) KindValidation then decodeValidation payload
      else if String.eqb (ce_Kind header) KindIdentify then decodeControl header fields 2
      else if String.eqb (ce_Kind header) KindIdentity then decodeIdentity payload fields
      else if String.eqb (ce_Kind header) KindShutdown then decodeShutdown payload header fields
      else Err (ErrNew ("unsupported history envelope kind " +:+ quote (ce_Kind header)))
  end.

Definition DecodeFrame (r : reader) : result goerror Message :=
  match readPayload r with
  | Err err => Err err
  | Ok payload => decodePayload payload
  end.
End decode.

(** ** Reading exactly one frame *)

(** No read of a stream returns nothing before its end. *)
Definition flowing (r : reader) : Prop := Forall (λ c, c ≠ []) (rd_chunks r).

Lemma read_full_ok cs last : ∀ got n b r, read_full cs last got n = Ok (b, r) →
  length b = n ∧ concat cs = b ++ concat (rd_chunks r) ∧ rd_end r = last ∧ (Forall (λ c, c ≠ []) cs → flowing r).
Proof.
  induction cs as [|c cs IH]; intros got [|n] b r; cbn [read_full]; try (intros [= <- <-]; done).
  destruct (Nat.leb_spec (length c) (S n)) as [Hle|Hgt].
  - destruct (read_full cs last _ _) as [[b' r']|] eqn:E; [|done]. intros [= <- <-].
    destruct (IH _ _ _ _ E) as (Hl & Hc & He & Hf). rewrite length_app. cbn [concat]. rewrite Hc, <-app_assoc.
    repeat split; [lia|done|]. intros Hne. apply Forall_cons in Hne as [_ Hne]. auto.
  - intros [= <- <-]. rewrite length_take. cbn [concat rd_chunks rd_end]. rewrite app_assoc, take_drop.
    repeat split; [lia|]. intros Hne. apply Forall_cons in Hne as [_ Hne]. constructor; [|done].
    intros Hd. apply (f_equal length) in Hd. rewrite length_drop in Hd. cbn in Hd. lia.
Qed.

Lemma read_full_enough cs last : ∀ got n, (n ≤ length (concat cs))%nat →
  ∃ r, read_full cs last got n = Ok (take n (concat cs), r).
Proof.
  induction cs as [|c cs IH]; intros got [|n] Hn; cbn [read_full concat] in *; try (by eexists); [cbn in Hn; lia|].
  rewrite length_app in Hn. destruct (Nat.leb_spec (length c) (S n)) as [Hle|Hgt].
  - destruct (IH (got || negb (empty_list c)) (S n - length c)%nat ltac:(lia)) as [r ->]. rewrite take_app, (take_ge c) by lia. eauto.
  - rewrite take_app_le by lia. eauto.
Qed.

Lemma requireEOF_spec r : flowing r → requireEOF r = None ↔ concat (rd_chunks r) = [] ∧ errors_is (rd_end r) EOF = true.
Proof.
  destruct r as [[|c cs] last]; unfold flowing, requireEOF, Read; cbn [rd_chunks rd_end concat].
  - intros _. destruct (errors_is last EOF); naive_solver.
  - intros [Hc _]%Forall_cons. destruct c as [|a c]; [done|]. destruct (length (a :: c) <=? 1)%nat; cbn; naive_solver.
Qed.

Lemma lor_byte acc b : (0 ≤ b < 256)%Z → Z.lor (Z.shiftl acc 8) b = (acc * 256 + b)%Z.
Proof.
  intros Hb. assert (Z.land (Z.shiftl acc 8) b = 0)%Z as Hland.
  { apply Z.bits_inj'. intros n Hn. rewrite Z.land_spec, Z.bits_0. destruct (decide (n < 8)%Z); [by rewrite Z.shiftl_spec_low|].
    assert (Z.testbit b n = false) as ->; [|apply andb_false_r]. apply Z.testbit_false; [lia|]. rewrite Z.div_small; [done|].
    split; [lia|]. apply Z.lt_le_trans with (2 ^ 8)%Z; [lia|]. apply Z.pow_le_mono_r; lia. }
  rewrite <-Z.lxor_lor, <-Z.add_nocarry_lxor by done. by rewrite Z.shiftl_mul_pow2.
Qed.

Lemma of_be32_arith a b c d :
  of_be32 [a; b; c; d] = (((byte_val a * 256 + byte_val b) * 256 + byte_val c) * 256 + byte_val d)%Z.
Proof. unfold of_be32. cbn [foldl]. rewrite !lor_byte by apply byte_val_bound. lia. Qed.

Lemma of_be32_be32 z : (0 ≤ z < 2 ^ 32)%Z → of_be32 (be32 z) = z.
Proof.
  intros Hz. unfold be32. rewrite of_be32_arith, !byte_val_of by (apply Z.mod_pos_bound; lia).
  rewrite !Z.shiftr_div_pow2 by lia. change (2 ^ 24)%Z with (2 ^ 16 * 2 ^ 8)%Z. Z.to_euclidean_division_equations. lia.
Qed.

Lemma be32_of_be32 l : length l = 4%nat → be32 (of_be32 l) = l.
Proof.
  destruct l as [|a [|b [|c [|d [|]]]]]; try done. intros _. rewrite of_be32_arith. unfold be32.
  pose proof (byte_val_bound a). pose proof (byte_val_bound b). pose proof (byte_val_bound c). pose proof (byte_val_bound d).
  rewrite !Z.shiftr_div_pow2 by lia. repeat f_equal; apply byte_val_inj; rewrite byte_val_of by (apply Z.mod_pos_bound; lia);
    Z.to_euclidean_division_equations; lia.
Qed.

Lemma readHeader_ok r n r' : readHeader r = Ok (n, r') →
  concat (rd_chunks r) = bytes frameMagic ++ be32 n ++ concat (rd_chunks r') ∧ (1 ≤ n ≤ MaxPayloadSize)%Z ∧
  rd_end r' = rd_end r ∧ (flowing r → flowing r').
Proof.
  unfold readHeader, ReadFull. destruct (read_full _ _ _ _) as [[h r1]|] eqn:E; [|done].
  destruct (read_full_ok _ _ _ _ _ _ E) as (Hl & Hc & He & Hf). destruct (bool_decide_reflect (take 4 h = bytes frameMagic)) as [Hm|]; [|done].
  cbn [negb]. destruct (Z.eqb_spec (of_be32 (drop 4 h)) 0); [done|]. destruct (Z.ltb_spec MaxPayloadSize (of_be32 (drop 4 h))); [done|].
  cbn [orb]. intros [= <- <-]. rewrite be32_of_be32 by (rewrite length_drop, Hl; done). rewrite <-Hm, app_assoc, take_drop.
  repeat split; [done| |done|done|done].
  assert (0 ≤ of_be32 (drop 4 h))%Z; [|lia]. destruct h as [|? [|? [|? [|? [|a [|b [|c [|d [|]]]]]]]]]; try done.
  cbn [drop]. rewrite of_be32_arith. pose proof (byte_val_bound a). pose proof (byte_val_bound b). pose proof (byte_val_bound c).
  pose proof (byte_val_bound d). lia.
Qed.

(** The payload that a stream holds exactly, if it is one frame. *)
Theorem readPayload_exact r payload (H : flowing r) :
  readPayload r = Ok payload ↔
  concat (rd_chunks r) = bytes frameMagic ++ be32 (Z.of_nat (length payload)) ++ payload ∧
  (1 ≤ Z.of_nat (length payload) ≤ MaxPayloadSize)%Z ∧ errors_is (rd_end r) EOF = true.
Proof.
  split.
  - unfold readPayload. destruct (readHeader r) as [[n r1]|] eqn:E1; [|done]. destruct (readHeader_ok _ _ _ E1) as (Hc & Hn & He & Hf).
    unfold ReadFull. destruct (read_full _ _ _ _) as [[b r2]|] eqn:E2; [|done].
    destruct (read_full_ok _ _ _ _ _ _ E2) as (Hl & Hc2 & He2 & Hf2). destruct (requireEOF r2) eqn:E3; [done|].
    apply requireEOF_spec in E3 as [E3 E4]; [|by apply Hf2, Hf]. intros [= <-].
    rewrite Hc, Hc2, E3, app_nil_r, Hl, Z2Nat.id by lia. rewrite <-He, <-He2. done.
  - intros (Hc & Hn & He). unfold readPayload, readHeader, ReadFull.
    destruct (read_full_enough (rd_chunks r) (rd_end r) false frameHeaderSize) as [r1 E1].
    { rewrite Hc, !length_app. change (length (bytes frameMagic)) with 4%nat. change (length (be32 _)) with 4%nat. unfold frameHeaderSize. lia. }
    rewrite E1. destruct (read_full_ok _ _ _ _ _ _ E1) as (_ & Hc1 & He1 & Hf1). rewrite Hc in Hc1 |- *.
    change (take frameHeaderSize ?l) with (bytes frameMagic ++ be32 (Z.of_nat (length payload))) in Hc1 |- *.
    rewrite <-app_assoc in Hc1. do 2 apply app_inv_head in Hc1.
    change (take 4 _) with (bytes frameMagic). change (drop 4 _) with (be32 (Z.of_nat (length payload))).
    rewrite bool_decide_eq_true_2 by done. cbn [negb].
    rewrite of_be32_be32 by (split; [lia|]; apply Z.le_lt_trans with MaxPayloadSize; [lia|done]).
    destruct (Z.eqb_spec (Z.of_nat (length payload)) 0); [lia|]. destruct (Z.ltb_spec MaxPayloadSize (Z.of_nat (length payload))); [lia|].
    cbn [orb]. rewrite Nat2Z.id. destruct (read_full_enough (rd_chunks r1) (rd_end r1) false (length payload)) as [r2 E2]; [by rewrite <-Hc1|].
    rewrite E2. destruct (read_full_ok _ _ _ _ _ _ E2) as (_ & Hc2 & He2 & Hf2). rewrite <-Hc1 in Hc2 |- *. rewrite firstn_all in Hc2 |- *.
    rewrite (proj2 (requireEOF_spec r2 (Hf2 (Hf1 H)))); [done|]. split; [|by rewrite He2, He1].
    apply (f_equal length) in Hc2. rewrite length_app in Hc2. destruct (concat (rd_chunks r2)); [done|cbn in Hc2; lia].
Qed.
