(* ===== verification/HistoryIpcProofs.v ===== *)
(** * Validation history: the protocol round trips

    What EncodeControl, EncodeIdentity, EncodeShutdownResponse and EncodeValidation
    write is what DecodeFrame reads, however the stream is cut into reads. *)

From stdpp Require Import base gmap strings list.
From Stdlib Require Import ZArith Lia Ascii.
From S2P Require Import Prelude GoStrings GoErrors GoFloat GoJson GoTime Fitness HistoryEvent GoJsonPrint HistoryIpc.
Set Default Goal Selector "!".

Abbreviation plainj := (plain (N := id)).
Abbreviation print := (json_print (N := id) Compact).
Definition ascii_bytes (l : list ascii) : Prop := Forall is_ascii l.

(** ** Compact texts *)

Lemma print_indent j : ∀ i i', print i j = print i' j.
Proof.
  induction j as [|b|l|s|l IH|fs IH] using json_ind'; intros i i'; try done; cbn [json_print].
  - assert (map (print (S i)) l = map (print (S i')) l) as ->; [|by destruct (map _ l)].
    induction IH as [|j l Hj _ IHl]; [done|]. cbn [map]. by rewrite (Hj _ (S i')), IHl.
  - assert (map (λ kv : string * json, encode_string kv.1 ++ colon Compact ++ print (S i) kv.2) fs
      = map (λ kv, encode_string kv.1 ++ colon Compact ++ print (S i') kv.2) fs) as ->; [|by destruct (map _ fs)].
    induction IH as [|j l Hj _ IHl]; [done|]. cbn [map]. by rewrite (Hj _ (S i')), IHl.
Qed.

Lemma object_text_print fs : object_text (map (λ kv : string * json, (kv.1, text kv.2)) fs) = text (JObj fs).
Proof.
  unfold object_text, text. rewrite map_map. cbn [json_print]. f_equal. apply map_ext. intros [k v]. cbn [fst snd].
  f_equal. cbn [colon]. change (bytes ":") with [":"%char]. cbn [app]. by rewrite (print_indent v 0 1).
Qed.

Lemma print_plain_member (k : string) v : ascii_bytes (bytes k) → plainj v = true → plain_member (N := id) (k, v) = true.
Proof.
  intros Hk Hv. unfold plain_member. cbn [fst snd]. rewrite Hv, andb_true_r. apply forallb_forall. intros a Ha%list_elem_of_In.
  eapply Forall_forall in Hk; [|done]. unfold is_ascii in Hk. lia.
Qed.

(** *** ASCII *)

Lemma encode_ascii_ascii a : is_ascii a → ascii_bytes (encode_ascii a).
Proof.
  destruct a as [[] [] [] [] [] [] [] []]; intros H; try (by vm_compute in H).
  all: repeat constructor.
Qed.
Lemma encode_string_ascii s : forallb (λ a, byte_val a <? 128)%Z (bytes s) = true → ascii_bytes (encode_string s).
Proof.
  intros Hs. unfold encode_string. rewrite ascii_string_segments by done. constructor; [done|].
  apply Forall_app. split; [|by repeat constructor]. apply Forall_bind, Forall_forall. intros a Ha. apply encode_ascii_ascii.
  rewrite forallb_forall in Hs. apply list_elem_of_In, Hs in Ha. unfold is_ascii. lia.
Qed.
Lemma enclose_ascii o c i items : is_ascii o → is_ascii c → Forall ascii_bytes items → ascii_bytes (enclose Compact o c i items).
Proof.
  intros Ho Hc Hi. destruct items as [|x items]; [by repeat constructor|]. apply Forall_cons in Hi as [Hx Hi].
  cbn [enclose gap app]. constructor; [done|]. apply Forall_app. split; [done|]. apply Forall_app. split; [|by repeat constructor].
  apply Forall_bind. eapply Forall_impl; [exact Hi|]. intros y Hy. by constructor.
Qed.
Lemma number_char_ascii a : number_char a = true → is_ascii a.
Proof. destruct a as [[] [] [] [] [] [] [] []]; intros H; first [by vm_compute in H|done]. Qed.
Lemma print_ascii j : ∀ i, plainj j = true → ascii_bytes (print i j).
Proof.
  induction j as [|b|l|s|l IH|fs IH] using json_ind'; intros i Hp; cbn [json_print].
  - by repeat constructor.
  - destruct b; by repeat constructor.
  - cbn [plain] in Hp. apply andb_true_iff in Hp as [[_ [_ Hd]]%is_number_spec ->%bool_decide_eq_true].
    apply Forall_forall. intros a Ha%list_elem_of_In. rewrite forallb_forall in Hd. apply Hd in Ha. by apply number_char_ascii.
  - by apply encode_string_ascii.
  - apply enclose_ascii; [done|done|]. apply Forall_map. cbn [plain] in Hp. rewrite forallb_forall in Hp.
    rewrite Forall_forall in IH |- *. intros j Hj. apply IH; [done|]. by apply Hp, list_elem_of_In.
  - apply enclose_ascii; [done|done|]. apply Forall_map. cbn [plain] in Hp. rewrite forallb_forall in Hp.
    rewrite Forall_forall in IH |- *. intros kv Hkv. specialize (Hp kv (proj1 (list_elem_of_In _ _) Hkv)).
    apply andb_true_iff in Hp as [Hk Hv]. apply Forall_app. split; [by apply encode_string_ascii|]. cbn [colon]. constructor; [done|]. by apply IH.
Qed.

Lemma ascii_utf8 l : ascii_bytes l → utf8_valid l = true.
Proof.
  intros Hl. unfold utf8_valid. rewrite segments_ascii; rewrite bytes_of_bytes; [|done]. apply forallb_forall.
  intros p Hp%list_elem_of_In. apply list_elem_of_fmap in Hp as (a & -> & Ha). eapply Forall_forall in Hl; [|done].
  cbn [fst snd]. unfold is_ascii in Hl. destruct (Z.eqb_spec (byte_val a) RuneError) as [He|]; [|done].
  unfold RuneError in He. lia.
Qed.

(** *** Compaction leaves a compact text alone *)

Lemma compact_byte a l : is_ascii a → compact true false (encode_ascii a ++ l) = encode_ascii a ++ compact true false l.
Proof.
  intros Ha. destruct a as [[] [] [] [] [] [] [] []]; try (by vm_compute in Ha); try reflexivity.
  all: destruct l as [|x [|y l]]; reflexivity.
Qed.
Lemma compact_string s l : forallb (λ a, byte_val a <? 128)%Z (bytes s) = true →
  compact false false (encode_string s ++ l) = encode_string s ++ compact false false l.
Proof.
  intros Hs. unfold encode_string. rewrite ascii_string_segments by done. rewrite <-!app_comm_cons, <-!app_assoc.
  cbn [compact]. change (negb false) with true. change (is_json_space quote_byte) with false. cbn iota. f_equal.
  change (byte_val quote_byte =? 34)%Z with true. revert Hs. generalize (bytes s). induction l0 as [|a k IH]; intros Hk; [reflexivity|].
  cbn [forallb] in Hk. apply andb_true_iff in Hk as [Ha Hk]. rewrite bind_cons, <-!app_assoc, compact_byte by (unfold is_ascii; lia).
  by rewrite IH.
Qed.
Lemma compact_number ds l : forallb number_char ds = true → compact false false (ds ++ l) = ds ++ compact false false l.
Proof.
  induction ds as [|a ds IH]; [done|]. cbn [forallb app compact negb]. intros [Ha Hd]%andb_true_iff.
  assert (is_json_space a = false ∧ (byte_val a =? 34)%Z = false) as [-> ->].
  { unfold is_json_space. rewrite !(number_char_not a) by (done || lia || by apply (bool_decide_unpack _)). done. }
  by rewrite IH.
Qed.

(** A text that compaction leaves alone, whatever follows. *)
Definition compacted (t : list ascii) : Prop := ∀ l, compact false false (t ++ l) = t ++ compact false false l.
Lemma compacted_app t u : compacted t → compacted u → compacted (t ++ u).
Proof. intros Ht Hu l. by rewrite <-!app_assoc, Ht, Hu. Qed.
Lemma compacted_byte a : is_json_space a = false → (byte_val a =? 34)%Z = false → compacted [a].
Proof. intros Hs Hq l. cbn [app compact negb]. by rewrite Hs, Hq. Qed.
Lemma compacted_bind {A} (f : A → list ascii) xs : Forall (λ x, compacted (f x)) xs → compacted (xs ≫= f).
Proof. induction 1 as [|x xs Hx _ IH]; [by intros l|]. rewrite bind_cons. by apply compacted_app. Qed.
Lemma compacted_enclose o c i items : compacted [o] → compacted [c] → Forall compacted items → compacted (enclose Compact o c i items).
Proof.
  intros Ho Hc Hi. destruct items as [|x items]; [by apply (compacted_app [o] [c])|]. apply Forall_cons in Hi as [Hx Hi].
  cbn [enclose gap app]. apply (compacted_app [o]); [done|]. apply compacted_app; [done|]. apply compacted_app; [|done].
  apply compacted_bind. eapply Forall_impl; [exact Hi|]. intros y Hy. apply (compacted_app [","%char] y); [|done]. by apply compacted_byte.
Qed.
Lemma print_compacted j : ∀ i, plainj j = true → compacted (print i j).
Proof.
  induction j as [|b|l|s|l IH|fs IH] using json_ind'; intros i Hp; cbn [json_print].
  - by intros l.
  - by destruct b; intros l.
  - cbn [plain] in Hp. apply andb_true_iff in Hp as [[_ [_ Hd]]%is_number_spec ->%bool_decide_eq_true]. intros k. by apply compact_number.
  - intros l. by apply compact_string.
  - apply compacted_enclose; [by apply compacted_byte|by apply compacted_byte|]. apply Forall_map. cbn [plain] in Hp. rewrite forallb_forall in Hp.
    rewrite Forall_forall in IH |- *. intros j Hj. apply IH; [done|]. by apply Hp, list_elem_of_In.
  - apply compacted_enclose; [by apply compacted_byte|by apply compacted_byte|]. apply Forall_map. cbn [plain] in Hp. rewrite forallb_forall in Hp.
    rewrite Forall_forall in IH |- *. intros kv Hkv. specialize (Hp kv (proj1 (list_elem_of_In _ _) Hkv)).
    apply andb_true_iff in Hp as [Hk Hv]. apply compacted_app; [intros l; by apply compact_string|].
    apply compacted_app; [by apply compacted_byte|]. by apply IH.
Qed.
Lemma compact_text j : plainj j = true → compact false false (text j) = text j.
Proof. intros Hj. pose proof (print_compacted j 0 Hj []) as H. by rewrite !app_nil_r in H. Qed.

(** *** Members with their texts *)

Definition with_text (kv : string * json) : string * member := (kv.1, (kv.2, text kv.2)).

Lemma raw_member_step ind kv f x :
  plain_member (N := id) kv = true → (length (member_text (N := id) Compact ind kv) ≤ S f)%nat → delimited x →
  raw_members (S f) (member_text (N := id) Compact ind kv ++ x) =
  match skip_space x with
  | d :: l4 =>
      if (byte_val d =? 125)%Z then Some ([with_text kv], l4)
      else if (byte_val d =? 44)%Z then
        match raw_members f l4 with
        | Some (ms, rest) => Some (with_text kv :: ms, rest)
        | None => None
        end
      else None
  | [] => None
  end.
Proof.
  destruct kv as [k v]. unfold plain_member, member_text, with_text. cbn [fst snd].
  intros [Hk Hv]%andb_true_iff Hf Hx. rewrite !length_app in Hf. cbn [raw_members]. rewrite <-!app_assoc.
  destruct (parse_encoded_string k (colon Compact ++ print ind v ++ x) Hk) as (tail & -> & Htail).
  unfold skip_space at 1. cbn [drop_while]. change (is_json_space quote_byte) with false. cbn iota.
  change (byte_val quote_byte =? 34)%Z with true. cbn [negb]. rewrite Htail.
  change (skip_space (colon Compact ++ print ind v ++ x)) with (":"%char :: print ind v ++ x).
  change (byte_val ":"%char =? 58)%Z with true. cbn [negb].
  rewrite (reads_plain (N := id) Compact v Hv ind f x); [|unfold encode_string in Hf; cbn [length] in Hf; lia|done].
  rewrite (skip_value (print ind v ++ x)) by by apply print_head.
  replace (length (print ind v ++ x) - length x)%nat with (length (print ind v)) by (rewrite length_app; lia).
  rewrite take_app_length, of_bytes_bytes. unfold text. by rewrite (print_indent v 0 ind).
Qed.

Lemma raw_members_ok l : ∀ kv fuel rest,
  plain_member (N := id) kv = true → forallb (plain_member (N := id)) l = true →
  (length (member_text (N := id) Compact 1 kv) + length (members_text (N := id) Compact 0 l []) ≤ fuel)%nat →
  raw_members fuel (member_text (N := id) Compact 1 kv ++ members_text (N := id) Compact 0 l rest)
  = Some (map with_text (kv :: l), rest).
Proof.
  induction l as [|kv2 l IH]; intros kv fuel rest Hp Hpl Hf.
  all: destruct fuel as [|f]; [exfalso; revert Hf; unfold members_text; rewrite !length_app; cbn [length]; lia|].
  all: rewrite raw_member_step; [|done|lia|apply members_delimited].
  - reflexivity.
  - rewrite members_text_cons. unfold skip_space at 1. cbn [drop_while gap app]. change (is_json_space ","%char) with false. cbn iota.
    change (byte_val ","%char =? 125)%Z with false. change (byte_val ","%char =? 44)%Z with true. cbn iota.
    cbn [forallb] in Hpl. apply andb_true_iff in Hpl as [Hp2 Hpl]. rewrite IH; [done|done|done|].
    revert Hf. rewrite members_text_cons. cbn [length gap app]. rewrite !length_app. lia.
Qed.

Lemma raw_object_text fs : forallb (plain_member (N := id)) fs = true → raw_object (text (JObj fs)) = Some (map with_text fs).
Proof.
  destruct fs as [|kv fs]; [done|]. cbn [forallb]. intros [Hkv Hfs]%andb_true_iff.
  assert (text (JObj (kv :: fs)) = "{"%char :: member_text (N := id) Compact 1 kv ++ members_text (N := id) Compact 0 fs []) as Heq.
  { unfold text. cbn [json_print map enclose gap app]. unfold members_text, member_text. rewrite <-!app_assoc. cbn [app gap]. do 4 f_equal.
    by rewrite list_fmap_bind. }
  unfold raw_object, json_fuel. rewrite <-length_bytes, bytes_of_bytes, Heq. unfold skip_space at 1. cbn [drop_while].
  change (is_json_space "{"%char) with false. cbn iota. change (byte_val "{"%char =? 123)%Z with true. cbn [negb].
  unfold member_text at 1, encode_string at 1. rewrite <-!app_assoc, <-app_comm_cons. unfold skip_space at 1. cbn [drop_while].
  change (is_json_space quote_byte) with false. cbn iota. change (byte_val quote_byte =? 125)%Z with false. cbn iota.
  rewrite raw_members_ok; [done|done|done|]. cbn [length]. rewrite length_app. lia.
Qed.

(** ** Frames *)

(** A stream that delivers [frame] and ends, in reads of any sizes. *)
Definition delivers (frame : list ascii) (r : reader) : Prop :=
  flowing r ∧ concat (rd_chunks r) = frame ∧ errors_is (rd_end r) EOF = true.

Section frames.
Context {J : JsonErrorText} {U : UnicodeTables}.

(** DecodeFrame reads one bounded frame and nothing else: it returns a message
    exactly when the stream is the magic, the length of a payload between 1 byte and
    16 MiB, that payload and the end, and the payload decodes to the message. *)
Theorem DecodeFrame_exact r m (H : flowing r) :
  DecodeFrame r = Ok m ↔
  ∃ payload, concat (rd_chunks r) = bytes frameMagic ++ be32 (Z.of_nat (length payload)) ++ payload ∧
    (1 ≤ Z.of_nat (length payload) ≤ MaxPayloadSize)%Z ∧ errors_is (rd_end r) EOF = true ∧ decodePayload payload = Ok m.
Proof.
  unfold DecodeFrame. split.
  - destruct (readPayload r) as [payload|] eqn:E; [|done]. apply readPayload_exact in E as (? & ? & ?); [|done]. intros Hm. by exists payload.
  - intros (payload & Hc & Hn & He & Hm). by rewrite (proj2 (readPayload_exact r payload H) (conj Hc (conj Hn He))).
Qed.

Lemma encoded_decodes payload frame r : encodeEnvelope (Ok payload) = Ok frame → payload ≠ [] → delivers frame r →
  DecodeFrame r = decodePayload payload.
Proof.
  intros Henc Hne (Hf & Hc & He). unfold encodeEnvelope in Henc. destruct (Z.ltb_spec MaxPayloadSize (Z.of_nat (length payload))) as [|Hle]; [done|].
  injection Henc as <-. unfold DecodeFrame. rewrite (proj2 (readPayload_exact r payload Hf)); [done|].
  split; [done|]. split; [|done]. split; [|done]. destruct payload; [done|cbn; lia].
Qed.

(** Decoding the text of an envelope. *)
Lemma parse_text j : plainj j = true → json_parse (of_bytes (text j)) = Some j.
Proof.
  intros Hj. pose proof (json_text_parse (N := id) Compact j "" Hj eq_refl) as H. by rewrite string_app_nil_r in H.
Qed.
Lemma decodePayload_text fs : plainj (JObj fs) = true →
  decodePayload (text (JObj fs)) =
  match inspectEnvelope (text (JObj fs)) with
  | Err err => Err err
  | Ok (fields, header) =>
      if String.eqb (ce_Kind header) KindValidation then decodeValidation (text (JObj fs))
      else if String.eqb (ce_Kind header) KindIdentify then decodeControl header fields 2
      else if String.eqb (ce_Kind header) KindIdentity then decodeIdentity (text (JObj fs)) fields
      else if String.eqb (ce_Kind header) KindShutdown then decodeShutdown (text (JObj fs)) header fields
      else Err (ErrNew ("unsupported history envelope kind " +:+ quote (ce_Kind header)))
  end.
Proof.
  intros Hfs. unfold decodePayload. rewrite ascii_utf8 by by apply print_ascii.
  rewrite bool_decide_eq_false_2; [done|]. by rewrite parse_text.
Qed.

(** The header of an envelope that starts with it and names neither field again. *)
Lemma inspect_text kind rest : ascii_text kind = true → kind ≠ "" →
  plainj (JObj rest) = true → Forall (λ kv : string * json, kv.1 ∈ validation_fields.*1 ++ identity_fields.*1 ++ shutdown_fields.*1 ∧ kv.1 ∉ ["version"; "kind"]) rest →
  inspectEnvelope (text (JObj (("version", json_int protocolVersion) :: ("kind", JStr kind) :: rest)))
  = Ok (size (list_to_set ("version" :: "kind" :: rest.*1) : gset string), mkControl protocolVersion kind).
Proof.
  intros Hk Hne Hrest Hkeys. unfold inspectEnvelope. rewrite parse_text by (cbn [plain forallb fst snd]; unfold ascii_text in Hk; rewrite Hk; exact Hrest).
  unfold dec_controlEnvelope at 1, dec_struct. cbn [foldl].
  change (select_field _ (fst ("version", _))) with
    (Some (λ j d, (λ x, mkControl x (ce_Kind d)) <$> dec_int j (ce_Version d))).
  change (select_field _ (fst ("kind", _))) with
    (Some (λ j d, (λ x, mkControl (ce_Version d) x) <$> dec_string j (ce_Kind d))).
  cbn [snd]. change (dec_int (json_int protocolVersion) _) with (Some protocolVersion). cbn [fmap option_fmap option_map dec_string ce_Kind ce_Version].
  assert (∀ h, foldl (λ acc (kv : string * json), match acc with
      | Some a => match select_field
            [("version", λ j d, (λ x, mkControl x (ce_Kind d)) <$> dec_int j (ce_Version d));
             ("kind", λ j d, (λ x, mkControl (ce_Version d) x) <$> dec_string j (ce_Kind d))] kv.1 with
          | Some d => d kv.2 a | None => Some a end
      | None => None end) (Some h) rest = Some h) as ->.
  { intros h. clear Hrest. induction Hkeys as [|kv l [Hin Hout] _ IH]; [done|]. cbn [foldl].
    assert (select_field (B := json → controlEnvelope → option controlEnvelope) [("version", λ j d, (λ x, mkControl x (ce_Kind d)) <$> dec_int j (ce_Version d));
             ("kind", λ j d, (λ x, mkControl (ce_Version d) x) <$> dec_string j (ce_Kind d))] kv.1 = None) as ->; [|done].
    revert Hin Hout. generalize (kv.1). intros k Hin Hout.
    lazy [validation_fields event_fields identity_fields shutdown_fields fmap list_fmap app map fst] in Hin. rewrite !elem_of_cons in Hin.
    repeat (destruct Hin as [->|Hin]; [first [reflexivity|destruct Hout; apply (bool_decide_unpack _); done]|]).
    by apply not_elem_of_nil in Hin. }
  cbn [ce_Version ce_Kind]. change (protocolVersion =? protocolVersion)%Z with true. apply String.eqb_neq in Hne. by rewrite Hne.
Qed.
End frames.

(** ** Times in envelopes *)

(** Characters that are written as they are. *)
Definition unescaped (a : ascii) : Prop := encode_ascii a = [a] ∧ is_ascii a.
Lemma digit_unescaped a : is_digit a = true → unescaped a.
Proof. destruct a as [[] [] [] [] [] [] [] []]; intros H; first [by vm_compute in H|done]. Qed.
Lemma digits_unescaped l : forallb is_digit l = true → Forall unescaped l.
Proof. rewrite forallb_forall, Forall_forall. intros H a Ha%list_elem_of_In. by apply digit_unescaped, H. Qed.
Lemma pad_unescaped n z : Forall unescaped (pad n z).
Proof. apply digits_unescaped, pad_digits. Qed.
Lemma fraction_unescaped ns : Forall unescaped (fraction ns).
Proof.
  unfold fraction. destruct (_ =? 0)%Z; constructor; [done|]. destruct (trimmed_digits (pad 9 ns)) as [k Hk].
  pose proof (pad_unescaped 9 ns) as Hp. rewrite Hk in Hp. by apply Forall_app in Hp as [? _].
Qed.
Lemma format_unescaped t : Forall unescaped (bytes (format_time t)).
Proof.
  unfold format_time, zone_text. rewrite bytes_of_bytes.
  repeat first [apply pad_unescaped|apply Forall_app; split|apply fraction_unescaped|constructor; [done|]|case_match|by constructor].
Qed.

Lemma unescaped_text s : Forall unescaped (bytes s) → ascii_text s = true ∧ text (JStr s) = quote_byte :: bytes s ++ [quote_byte].
Proof.
  intros Hs. assert (ascii_text s = true) as Ha.
  { unfold ascii_text. apply forallb_forall. intros a Hin%list_elem_of_In. eapply Forall_forall in Hs as [_ Hs]; [|done].
    unfold is_ascii in Hs. lia. }
  split; [done|]. unfold text. cbn [json_print]. unfold encode_string. rewrite ascii_string_segments by done. do 2 f_equal.
  induction Hs as [|a l [Hl _] _ IH]; [done|]. rewrite bind_cons, Hl. cbn [app]. f_equal. apply IH.
Qed.

Lemma dec_time_text t old : time_marshals t = true → (60 | t_offset t)%Z →
  dec_time (JStr (format_time t), text (JStr (format_time t))) old = Some t.
Proof.
  intros Hm Hz. unfold dec_time. cbn [fst snd]. rewrite (proj2 (unescaped_text _ (format_unescaped t))). change (drop 1 (quote_byte :: ?l)) with l. cbn [length].
  rewrite length_app. cbn [length]. replace (S (length (bytes (format_time t)) + 1) - 2)%nat with (length (bytes (format_time t))) by lia.
  rewrite take_app_length, of_bytes_bytes. by apply time_roundtrip.
Qed.

(** ** Round trips *)

Section roundtrips.
Context {J : JsonErrorText} {U : UnicodeTables}.

Lemma marshal_time_ok t l : marshal_time t = Ok l → time_marshals t = true ∧ l = text (JStr (format_time t)).
Proof. unfold marshal_time. destruct (time_marshals t); [|done]. by intros [= <-]. Qed.

Definition identity_json (i : Identity) : list (string * json) :=
  [("service_name", JStr ServiceName); ("build_revision", JStr (id_BuildRevision i)); ("modified", JBool (id_Modified i));
   ("pid", json_int (id_PID i)); ("started_at", JStr (format_time (UTC (id_StartedAt i))))].
Definition header_json (kind : string) : list (string * json) := [("version", json_int protocolVersion); ("kind", JStr kind)].

Lemma identity_plain i : ascii_text (id_BuildRevision i) = true → (0 < id_PID i)%Z → plainj (JObj (identity_json i)) = true.
Proof.
  intros Hr Hp. unfold identity_json.
  change (plainj (JObj ?l)) with (forallb (λ kv : string * json, ascii_text kv.1 && plainj kv.2) l).
  cbn [forallb fst snd]. change (plainj (JStr ?s)) with (ascii_text s).
  rewrite Hr, json_int_plain, (proj1 (unescaped_text _ (format_unescaped _))) by done. done.
Qed.

(** What EncodeIdentity writes, DecodeFrame reads back, the start time in UTC. *)
Lemma identity_roundtrip i frame r : ascii_text (id_BuildRevision i) = true → (id_PID i < 2 ^ 63)%Z →
  EncodeIdentity i = Ok frame → delivers frame r →
  DecodeFrame r = Ok (mkMessage KindIdentity None
    (Some (mkIdentity (id_BuildRevision i) (id_Modified i) (id_PID i) (UTC (id_StartedAt i)))) false).
Proof.
  intros Hr Hp. unfold EncodeIdentity. destruct (Z.leb_spec (id_PID i) 0) as [|Hpos]; [done|]. cbn [orb].
  destruct (IsZero (id_StartedAt i)) eqn:Hzero; [done|]. unfold marshal_identity.
  destruct (marshal_time _) as [started|] eqn:Ht; [|done]. apply marshal_time_ok in Ht as [Ht ->].
  change (header_texts KindIdentity ++ _) with (map (λ kv : string * json, (kv.1, text kv.2)) (header_json KindIdentity ++ identity_json i)).
  rewrite object_text_print. intros Henc Hd. rewrite (encoded_decodes _ _ _ Henc) by done.
  pose proof (identity_plain i Hr Hpos) as Hplain.
  assert (plainj (JObj (header_json KindIdentity ++ identity_json i)) = true) as Hall by exact Hplain.
  rewrite decodePayload_text by done. unfold header_json at 1. cbn [app].
  rewrite inspect_text; [|done|done|done|].
  2: { repeat (constructor; [split; [by apply (bool_decide_unpack _)|by apply (bool_decide_unpack _)]|]). constructor. }
  cbn [ce_Kind]. change (String.eqb KindIdentity _) with false at 1 2. cbn iota. change (String.eqb KindIdentity KindIdentity) with true. cbn iota.
  unfold decodeIdentity. change (size _) with 7%nat. cbn [Nat.eqb negb]. unfold decodeStrict.
  rewrite (raw_object_text (header_json KindIdentity ++ identity_json i)) by exact Hall.
  unfold header_json, identity_json. cbn [app map foldl with_text fst snd].
  lazy [select_field List.find String.eqb Ascii.eqb Bool.eqb fst snd identity_fields on_value].
  change (dec_int (json_int protocolVersion) _) with (Some 1%Z). cbn [fmap option_fmap option_map dec_string dec_bool].
  rewrite dec_json_int by lia. cbn [fmap option_fmap option_map].
  cbn [ie_Version ie_Kind ie_ServiceName ie_Build ie_Modified ie_PID ie_StartedAt].
  rewrite dec_time_text; [|done|by exists 0%Z]. cbn [fmap option_fmap option_map ie_ServiceName ie_PID ie_StartedAt ie_Build ie_Modified].
  change (String.eqb ServiceName ServiceName) with true. cbn [negb orb]. destruct (Z.leb_spec (id_PID i) 0); [lia|].
  change (IsZero (UTC ?t)) with (IsZero t). by rewrite Hzero.
Qed.

(** *** Controls *)

Lemma control_roundtrip kind frame r : EncodeControl kind = Ok frame → delivers frame r →
  DecodeFrame r = Ok (mkMessage kind None None false).
Proof.
  unfold EncodeControl. destruct (String.eqb_spec kind KindIdentify) as [->|_]; cbn [negb andb];
    [|destruct (String.eqb_spec kind KindShutdown) as [->|_]; cbn [negb andb]; [|done]].
  all: change (header_texts ?k) with (map (λ kv : string * json, (kv.1, text kv.2)) (header_json k)); rewrite object_text_print.
  all: intros Henc Hd; rewrite (encoded_decodes _ _ _ Henc) by done; rewrite decodePayload_text by done.
  all: unfold header_json; rewrite inspect_text by (done || constructor); reflexivity.
Qed.
Lemma shutdown_roundtrip frame r : EncodeShutdownResponse = Ok frame → delivers frame r →
  DecodeFrame r = Ok (mkMessage KindShutdown None None true).
Proof.
  unfold EncodeShutdownResponse.
  change (header_texts ?k ++ _) with (map (λ kv : string * json, (kv.1, text kv.2)) (header_json k ++ [("accepted", JBool true)])).
  rewrite object_text_print. intros Henc Hd. rewrite (encoded_decodes _ _ _ Henc) by done. rewrite decodePayload_text by done.
  unfold header_json at 1. cbn [app]. rewrite inspect_text; [|done|done|done|].
  2: { constructor; [|constructor]. split; by apply (bool_decide_unpack _). }
  change (String.eqb _ _) with false at 1 2 3. cbn iota. change (String.eqb _ _) with true. cbn iota.
  unfold decodeShutdown. change (size _) with 3%nat. cbn [Nat.eqb negb]. unfold decodeStrict.
  by rewrite (raw_object_text (header_json KindShutdown ++ [("accepted", JBool true)])).
Qed.

(** *** Validations *)

Definition event_json (e : Event) (request response : json) : list (string * json) :=
  [("event_id", JStr (ev_EventID e)); ("completed_at", JStr (format_time (ev_CompletedAt e)));
   ("common_git_dir", JStr (ev_CommonGitDir e)); ("repository", JStr (ev_Repository e)); ("worktree", JStr (ev_Worktree e));
   ("branch", optional_json (ev_Branch e)); ("head_oid", optional_json (ev_HeadOID e)); ("file", JStr (ev_File e));
   ("source", JStr (ev_Source e)); ("tool", optional_json (ev_Tool e)); ("action", optional_json (ev_Action e));
   ("session_id", optional_json (ev_SessionID e)); ("status", JStr (ev_Status e)); ("dry_run", JBool (ev_DryRun e));
   ("request_json", request); ("result_json", response)].

(** An event with ASCII texts, whose payloads are compact documents. *)
Record plain_event (e : Event) (request response : json) : Prop := {
  pe_texts : Forall (λ s, ascii_text s = true)
    [ev_EventID e; ev_CommonGitDir e; ev_Repository e; ev_Worktree e; ev_File e; ev_Source e; ev_Status e];
  pe_options : Forall (λ o, ascii_text (default "" o) = true)
    [ev_Branch e; ev_HeadOID e; ev_Tool e; ev_Action e; ev_SessionID e];
  pe_request : ev_RequestJSON e = of_bytes (text request) ∧ plainj request = true;
  pe_response : ev_ResultJSON e = of_bytes (text response) ∧ plainj response = true;
  pe_zone : (60 | t_offset (ev_CompletedAt e))%Z;
}.

Lemma optional_plain o : ascii_text (default "" o) = true → plainj (optional_json o) = true.
Proof. by destruct o. Qed.
Lemma dec_optional o t : dec_raw_ptr (optional_json o, t) None = Some o.
Proof. by destruct o. Qed.

Lemma event_plain e q p : plain_event e q p → plainj (JObj (event_json e q p)) = true.
Proof.
  intros [Ht Ho [_ Hq] [_ Hp] _]. rewrite !Forall_cons in Ht. rewrite !Forall_cons in Ho. unfold event_json.
  change (plainj (JObj ?l)) with (forallb (λ kv : string * json, ascii_text kv.1 && plainj kv.2) l).
  cbn [forallb fst snd]. change (plainj (JStr ?s)) with (ascii_text s). destruct Ht as (-> & -> & -> & -> & -> & -> & -> & _).
  destruct Ho as (Ho1 & Ho2 & Ho3 & Ho4 & Ho5 & _). apply optional_plain in Ho1, Ho2, Ho3, Ho4, Ho5. rewrite Ho1, Ho2, Ho3, Ho4, Ho5, Hq, Hp.
  rewrite (proj1 (unescaped_text _ (format_unescaped _))). done.
Qed.

Lemma omit_raw_text name j raw : plainj j = true → raw = of_bytes (text j) → omit_raw name raw = Ok [(name, text j)].
Proof.
  intros Hj ->. unfold omit_raw, marshal_raw. rewrite parse_text, bytes_of_bytes, compact_text by done.
  pose proof (print_length (N := id) Compact 0 j Hj) as Hl. fold (text j) in Hl. destruct (text j) as [|a l]; [cbn in Hl; lia|done].
Qed.

(** Run the decoders of an event as far as they go. *)
Ltac cbn_event :=
  cbn [fmap option_fmap option_map dec_string dec_bool dec_rawmessage snd ve_Version ve_Kind ve_Event ev_EventID ev_CompletedAt
       ev_CommonGitDir ev_Repository ev_Worktree ev_Branch ev_HeadOID ev_File ev_Source ev_Tool ev_Action ev_SessionID ev_Status
       ev_DryRun ev_RequestJSON ev_ResultJSON].
Lemma decode_event e q p : plain_event e q p → time_marshals (ev_CompletedAt e) = true →
  decodeStrict validation_fields (mkValidation 0 "" zero_event) (text (JObj (header_json KindValidation ++ event_json e q p)))
  = Some (mkValidation 1 KindValidation e).
Proof.
  intros He Ht. pose proof (event_plain e q p He) as Hplain. destruct He as [_ _ [Hq _] [Hp _] Hz]. unfold decodeStrict.
  rewrite (raw_object_text (header_json KindValidation ++ event_json e q p)) by exact Hplain.
  unfold header_json, event_json. cbn [app map foldl with_text fst snd].
  lazy [select_field List.find String.eqb Ascii.eqb Bool.eqb fst snd validation_fields event_fields on_value map app].
  change (dec_int (json_int protocolVersion) _) with (Some 1%Z). unfold zero_event.
  cbn_event. rewrite dec_time_text by done. cbn_event. do 5 (rewrite dec_optional; cbn_event).
  rewrite <-Hq, <-Hp. by destruct e.
Qed.

(** C33: a validation event survives the socket: if its texts are ASCII and its request
    and result are documents in the form in which Marshal prints them (compact, with its
    escapes; other payloads are brought into a compact form on the way), what
    EncodeValidation frames, DecodeFrame reads back as that very event, however the
    stream is cut. *)
Theorem validation_roundtrip e q p frame r : plain_event e q p → EncodeValidation e = Ok frame → delivers frame r →
  DecodeFrame r = Ok (mkMessage KindValidation (Some e) None false).
Proof.
  intros He. unfold EncodeValidation. destruct (Validate e) eqn:Hv; [done|]. pose proof (Validate_ok e Hv) as (Ht & _).
  pose proof (event_plain e q p He) as Hplain. pose proof He as [_ _ [Hq Hq'] [Hp Hp'] _].
  unfold marshal_validation. unfold marshal_time. rewrite Ht, (omit_raw_text _ q), (omit_raw_text _ p) by done.
  change (header_texts ?k ++ _) with (map (λ kv : string * json, (kv.1, text kv.2)) (header_json k ++ event_json e q p)).
  rewrite object_text_print. intros Henc Hd. rewrite (encoded_decodes _ _ _ Henc) by done. rewrite decodePayload_text by exact Hplain.
  unfold header_json at 1. cbn [app]. rewrite inspect_text; [|done|done|done|].
  2: { repeat (constructor; [split; by apply (bool_decide_unpack _)|]). constructor. }
  cbn [ce_Kind]. change (String.eqb _ _) with true at 1. cbn iota. unfold decodeValidation.
  rewrite (decode_event e q p He Ht). cbn [ve_Event]. by rewrite Hv.
Qed.
End roundtrips.

(** ** Examples *)

Module IpcExamples.
Definition json_text : JsonErrorText := λ _, "json error".
#[export] Existing Instance json_text.
#[export] Existing Instance basic_unicode.

Definition request : json :=
  JObj [("repo", JStr "acme/shop"); ("file", JStr "cart.go"); ("proposed_content", JStr "package <cart>");
        ("language", JStr "go"); ("dry_run", JBool false)].
Definition response : json :=
  JObj [("status", JStr "block");
        ("violations", JArr [JObj [("fitness_function", JStr "cyclomatic-complexity"); ("calm_node", JStr "cart");
                                   ("value", JNum (bytes "12.5")); ("limit", JNum (bytes "10")); ("message", JStr "too complex")]])].
Definition event : Event :=
  mkEvent "00112233445566778899aabbccddeeff" (mkTime ((days_of (mkDate 2026 11 18) * 86400 + 60) * second + 5) 3600)
    "/work/shop/.git" "acme/shop" "/work/shop" (Some "main") None "cart.go" "hook" (Some "Edit") None None "block" false
    (of_bytes (text request)) (of_bytes (text response)).
Definition frame : list ascii := match EncodeValidation event with Ok f => f | Err _ => [] end.
(** The frame in two reads. *)
Definition stream : reader := mkReader [take 5 frame; drop 5 frame] eof.

Lemma event_is_plain : plain_event event request response.
Proof.
  split; [vm_compute; by repeat constructor|vm_compute; by repeat constructor| | |by exists 60%Z].
  all: split; [reflexivity|vm_compute; reflexivity].
Qed.

Lemma validation_roundtrip_witness :
  EncodeValidation event = Ok frame ∧ DecodeFrame stream = Ok (mkMessage KindValidation (Some event) None false).
Proof.
  assert (EncodeValidation event = Ok frame) as H by (vm_compute; reflexivity). split; [exact H|].
  apply (validation_roundtrip event request response frame stream event_is_plain H).
  split; [|split]; [vm_compute; by repeat constructor|vm_compute; reflexivity|reflexivity].
Defined.

(** An identify request, cut in the middle of the length. *)
Definition control : list ascii := match EncodeControl KindIdentify with Ok f => f | Err _ => [] end.
Definition control_stream : reader := mkReader [take 6 control; drop 6 control] eof.

Lemma DecodeFrame_exact_witness :
  flowing control_stream ∧ DecodeFrame control_stream = Ok (mkMessage KindIdentify None None false).
Proof.
  assert (flowing control_stream) as H by (vm_compute; by repeat constructor). split; [exact H|].
  apply (DecodeFrame_exact control_stream _ H). exists (drop 8 control). vm_compute. repeat split; discriminate.
Defined.

(** Trailing bytes, a short payload and a silent read are errors. *)
Example trailing_rejected : DecodeFrame (mkReader [control; bytes "x"] eof) = Err (ErrNew "historyipc: trailing frame content").
Proof. vm_compute. reflexivity. Qed.
Example short_rejected :
  DecodeFrame (mkReader [take 20 control] eof) = Err (ErrWrap "read history payload: " (ErrSentinel ErrUnexpectedEOF) "").
Proof. vm_compute. reflexivity. Qed.
Example silent_rejected :
  DecodeFrame (mkReader [control; []] eof) = Err (ErrNew "history frame did not end at payload boundary: %!w(<nil>)").
Proof. vm_compute. reflexivity. Qed.
End IpcExamples.
