(* ===== verification/GoProc.v ===== *)
(** * Goroutines

    Programs of goroutines that share a state.  A program is a tree of atomic steps,
    answers of the outside world, [go] statements and jumps to the heads of named
    loops; a configuration is the list of goroutines and the state, and a step runs one
    goroutine.  [safe] is the logic: a goroutine carries a ghost token that says what it
    holds, and every step keeps an invariant of the state and all tokens. *)

From stdpp Require Import base list relations.
From Stdlib Require Import ZArith Lia.
From S2P Require Import Prelude.
Set Default Goal Selector "!".

Section programs.
Context {S L : Type}.

(** The atomic step lists its possible outcomes: none when it has to wait, several for
    a select with several ready cases. *)
Inductive proc : Type :=
| Halt
| Act (run : S → list (proc * S))
| Ask {X : Set} (k : X → proc)
| Go (child next : proc)
| Jump (l : L).

(** Commands that yield a value, in continuation-passing style. *)
Definition cmd (A : Type) : Type := (A → proc) → proc.
Definition done {A} (a : A) : cmd A := λ k, k a.
Definition seq {A B} (m : cmd A) (f : A → cmd B) : cmd B := λ k, m (λ a, f a k).
Definition atomic {A} (f : S → A * S) : cmd A := λ k, Act (λ s, let '(a, s') := f s in [(k a, s')]).
Definition update (f : S → S) : cmd unit := atomic (λ s, (tt, f s)).
Definition look {A} (f : S → A) : cmd A := atomic (λ s, (f s, s)).
(** Wait until one of the outcomes is possible. *)
Definition select {A} (f : S → list (A * S)) : cmd A := λ k, Act (λ s, (λ p, (k p.1, p.2)) <$> f s).
Definition answer (X : Set) : cmd X := λ k, Ask k.
Definition go (child : proc) : cmd unit := λ k, Go child (k tt).
(** The command that ends its goroutine. *)
Definition finish (m : cmd unit) : proc := m (λ _, Halt).

(** ** Executions *)

Definition config : Type := list proc * S.

Inductive step (code : L → proc) : config → config → Prop :=
| step_act ts s i run p s' :
    ts !! i = Some (Act run) → (p, s') ∈ run s → step code (ts, s) (<[i := p]> ts, s')
| step_ask ts s i (X : Set) (k : X → proc) (x : X) :
    ts !! i = Some (Ask k) → step code (ts, s) (<[i := k x]> ts, s)
| step_go ts s i child next :
    ts !! i = Some (Go child next) → step code (ts, s) (<[i := next]> ts ++ [child], s)
| step_jump ts s i l :
    ts !! i = Some (Jump l) → step code (ts, s) (<[i := code l]> ts, s).

Definition runs (code : L → proc) : config → config → Prop := rtc (step code).

(** ** The logic *)

Section logic.
Context {T : Type} (Inv : S → list T → Prop).
(** When a goroutine may wait, what its token is when it ends and at a loop's head. *)
Context (blocked : T → S → Prop) (over : T → Prop) (head : L → T → Prop).

(** [safe t p]: with token [t], the goroutine [p] keeps the invariant at every step,
    waits only where [blocked] allows and ends only where [over] allows. *)
Inductive safe : T → proc → Prop :=
| safe_halt t : over t → safe t Halt
| safe_act t run :
    (∀ s l r, Inv s (l ++ t :: r) → run s = [] → blocked t s) →
    (∀ s l r p s', Inv s (l ++ t :: r) → (p, s') ∈ run s → ∃ t', Inv s' (l ++ t' :: r) ∧ safe t' p) →
    safe t (Act run)
| safe_ask t (X : Set) (x0 : X) (k : X → proc) : (∀ x, safe t (k x)) → safe t (Ask k)
| safe_go t t1 t2 child next :
    (∀ s l r, Inv s (l ++ t :: r) → Inv s (l ++ t2 :: r ++ [t1])) →
    safe t1 child → safe t2 next → safe t (Go child next)
| safe_jump t l : head l t → safe t (Jump l).

(** The command [m] turns the token [t] into one that [Q] allows for its result. *)
Definition triple (t : T) {A} (m : cmd A) (Q : A → T → Prop) : Prop :=
  ∀ k, (∀ a t', Q a t' → safe t' (k a)) → safe t (m k).

Lemma triple_done t {A} (a : A) (Q : A → T → Prop) : Q a t → triple t (done a) Q.
Proof. intros HQ k Hk. by apply Hk. Qed.
Lemma triple_seq t {A B} (m : cmd A) (f : A → cmd B) (P : A → T → Prop) (Q : B → T → Prop) :
  triple t m P → (∀ a t', P a t' → triple t' (f a) Q) → triple t (seq m f) Q.
Proof. intros Hm Hf k Hk. apply Hm. intros a t' Ha. by apply (Hf a t' Ha). Qed.
Lemma triple_weaken t {A} (m : cmd A) (P Q : A → T → Prop) :
  triple t m P → (∀ a t', P a t' → Q a t') → triple t m Q.
Proof. intros Hm HPQ k Hk. apply Hm. eauto. Qed.
Lemma triple_select t {A} (f : S → list (A * S)) (Q : A → T → Prop) :
  (∀ s l r, Inv s (l ++ t :: r) → f s = [] → blocked t s) →
  (∀ s l r a s', Inv s (l ++ t :: r) → (a, s') ∈ f s → ∃ t', Inv s' (l ++ t' :: r) ∧ Q a t') →
  triple t (select f) Q.
Proof.
  intros Hb Hf k Hk. constructor.
  - intros s l r HI Hnil. apply (Hb s l r HI). by apply fmap_nil_inv in Hnil.
  - intros s l r p s' HI Hin. apply list_elem_of_fmap in Hin as ([a s2] & [= -> ->] & Hin).
    destruct (Hf s l r a s2 HI Hin) as (t' & HI' & HQ). exists t'. cbn [snd]. auto.
Qed.
Lemma triple_atomic t {A} (f : S → A * S) (Q : A → T → Prop) :
  (∀ s l r, Inv s (l ++ t :: r) → ∃ t', Inv (f s).2 (l ++ t' :: r) ∧ Q (f s).1 t') → triple t (atomic f) Q.
Proof.
  intros Hf k Hk. constructor.
  - intros s l r _. by destruct (f s).
  - intros s l r p s' HI. specialize (Hf s l r HI). destruct (f s) as [a s2].
    intros Hin. apply list_elem_of_singleton in Hin. injection Hin as -> ->. destruct Hf as (t' & HI' & HQ). exists t'. auto.
Qed.
Lemma triple_answer t (X : Set) (x0 : X) (Q : X → T → Prop) : (∀ x, Q x t) → triple t (answer X) Q.
Proof. intros HQ k Hk. apply (safe_ask t X x0). intros x. by apply Hk. Qed.
Lemma triple_go t t1 t2 child (Q : unit → T → Prop) :
  (∀ s l r, Inv s (l ++ t :: r) → Inv s (l ++ t2 :: r ++ [t1])) → safe t1 child → Q tt t2 → triple t (go child) Q.
Proof. intros HI Hc HQ k Hk. apply (safe_go t t1 t2); [exact HI|exact Hc|]. by apply Hk. Qed.
Lemma safe_finish t (m : cmd unit) : triple t m (λ _, over) → safe t (finish m).
Proof. intros Hm. apply Hm. intros _ t' Ht. by constructor. Qed.

(** ** Soundness *)

Context (code : L → proc).

Definition covered (c : config) : Prop := ∃ tokens, Forall2 safe tokens c.1 ∧ Inv c.2 tokens.

(** What a safe goroutine does next. *)
Definition next_safe (t : T) (p : proc) : Prop :=
  match p with
  | Halt => over t
  | Act run =>
      (∀ s l r, Inv s (l ++ t :: r) → run s = [] → blocked t s) ∧
      (∀ s l r p s', Inv s (l ++ t :: r) → (p, s') ∈ run s → ∃ t', Inv s' (l ++ t' :: r) ∧ safe t' p)
  | @Ask X k => inhabited X ∧ ∀ x, safe t (k x)
  | Go child next =>
      ∃ t1 t2, (∀ s l r, Inv s (l ++ t :: r) → Inv s (l ++ t2 :: r ++ [t1])) ∧ safe t1 child ∧ safe t2 next
  | Jump l => head l t
  end.
Lemma safe_next t p : safe t p → next_safe t p.
Proof. intros H. destruct H as [| | |t t1 t2|]; cbn [next_safe]; eauto. Qed.

Lemma covered_at tokens (ts : list proc) i p : Forall2 safe tokens ts → ts !! i = Some p →
  ∃ t, tokens !! i = Some t ∧ safe t p ∧ tokens = take i tokens ++ t :: drop (Datatypes.S i) tokens.
Proof.
  intros H Hi. destruct (Forall2_lookup_r _ _ _ _ _ H Hi) as (t & Ht & Hs). exists t. repeat split; [done|done|].
  symmetry. by apply take_drop_middle.
Qed.
Lemma replace_at tokens (ts : list proc) i t p : Forall2 safe tokens ts → is_Some (tokens !! i) → safe t p →
  Forall2 safe (take i tokens ++ t :: drop (Datatypes.S i) tokens) (<[i := p]> ts).
Proof.
  intros H [t0 Hi] Hs. pose proof (lookup_lt_Some _ _ _ Hi) as Hlt. rewrite <-insert_take_drop by done. by apply Forall2_insert.
Qed.

Lemma covered_step c c' : (∀ l t, head l t → safe t (code l)) → covered c → step code c c' → covered c'.
Proof.
  intros Hcode (tokens & Hs & HI) Hstep. destruct Hstep as [ts s i run p s' Hi Hin|ts s i X k x Hi|ts s i child next Hi|ts s i l Hi];
    cbn [fst snd] in *; destruct (covered_at tokens ts i _ Hs Hi) as (t & Ht & Hsafe%safe_next & Heq); cbn [next_safe] in Hsafe; rewrite Heq in HI.
  - destruct Hsafe as [_ Hsafe]. destruct (Hsafe _ _ _ _ _ HI Hin) as (t' & HI' & Hs').
    exists (take i tokens ++ t' :: drop (Datatypes.S i) tokens). split; [|done]. apply replace_at; [done|by eexists|done].
  - exists (take i tokens ++ t :: drop (Datatypes.S i) tokens). split; [|done]. apply replace_at; [done|by eexists|]. by apply Hsafe.
  - destruct Hsafe as (t1 & t2 & Hsplit & Hs1 & Hs2). exists ((take i tokens ++ t2 :: drop (Datatypes.S i) tokens) ++ [t1]). split.
    + cbn [fst]. apply Forall2_app; [|by constructor]. apply replace_at; [done|by eexists|done].
    + rewrite <-app_assoc. cbn [app]. auto.
  - exists (take i tokens ++ t :: drop (Datatypes.S i) tokens). split; [|done]. apply replace_at; [done|by eexists|]. auto.
Qed.

Theorem covered_runs c c' : (∀ l t, head l t → safe t (code l)) → covered c → runs code c c' → covered c'.
Proof. intros Hcode Hc Hr. induction Hr as [c|c c1 c2 Hstep _ IH]; [done|]. apply IH. by eapply covered_step. Qed.

(** A configuration without a next step: every goroutine is over or waits. *)
Lemma stuck_tokens ts s tokens : (∀ c', ¬ step code (ts, s) c') → Forall2 safe tokens ts → Inv s tokens →
  Forall (λ t, over t ∨ blocked t s) tokens.
Proof.
  intros Hstuck Hs HI. apply Forall_lookup. intros i t Hi. destruct (Forall2_lookup_l _ _ _ _ _ Hs Hi) as (p & Hp & Hsafe).
  apply safe_next in Hsafe. destruct p as [|run|X k|child next|l]; cbn [next_safe] in Hsafe; [by left| | | |].
  - right. destruct Hsafe as [Hb _]. rewrite <-(take_drop_middle _ _ _ Hi) in HI.
    destruct (run s) as [|[p' s'] outcomes] eqn:Hr; [eauto|].
    destruct (Hstuck (<[i := p']> ts, s')). eapply step_act; [exact Hp|]. rewrite Hr. by left.
  - destruct Hsafe as [[x0] _]. destruct (Hstuck (<[i := k x0]> ts, s)). by eapply step_ask.
  - destruct (Hstuck (<[i := next]> ts ++ [child], s)). by eapply step_go.
  - destruct (Hstuck (<[i := code l]> ts, s)). by eapply step_jump.
Qed.
End logic.
End programs.

Arguments proc : clear implicits.
Arguments cmd : clear implicits.
Arguments config : clear implicits.

Notation "'let@' x ':=' m 'in' k" :=
  (seq m (λ x, k)) (at level 10, x pattern, m at level 100, k at level 200) : go_scope.
