(* ===== verification/HistoryService.v ===== *)
(** * Validation history: the receiver and the writer service

    [internal/historyipc/receive.go] and [internal/historyservice/service.go]: bounded
    admission of connections, a byte budget for their payloads, the queue of completed
    deliveries, and the service that accepts, receives, persists and shuts down, as
    goroutines over one shared state.  Each channel operation, atomic load or store and
    critical section is one step; what the sockets, the store and the log answer is
    arbitrary. *)

From stdpp Require Import base gmap strings list.
From Stdlib Require Import ZArith Lia Ascii.
From S2P Require Import Prelude GoStrings GoErrors GoFloat GoJson GoTime Fitness HistoryEvent GoJsonPrint HistoryIpc GoProc.
Set Default Goal Selector "!".

(** ** State *)

Record Delivery := mkDelivery { d_Message : Message; d_reservation : nat }.
Inductive once := Fresh | Running | Finished.
#[export] Instance once_eq_dec : EqDecision once.
Proof. solve_decision. Defined.

Record Diagnostic := mkDiagnostic {
  dg_Name : string;
  dg_Phase : string;
  dg_ErrorKind : string;
  dg_EventID : string;
  dg_Repository : string;
  dg_Worktree : string;
  dg_Tool : string;
  dg_SessionID : string;
}.

Record history_state := mkState {
  hs_stopped : bool;   (* [Receiver.stopped] *)
  hs_slots : Z;   (* tokens in the channel [slots] *)
  hs_reservedBytes : Z;   (* [byteBudget.reservedBytes] *)
  hs_reservations : list (Z * bool);   (* sizes, and whether the [once] has run *)
  hs_completed : list Delivery;   (* the channel [completed] *)
  hs_admissions : list bool;   (* whether each is claimed *)
  hs_stopOnce : once;   (* [service.stopOnce] *)
  hs_closed : bool;   (* the listener *)
  hs_receivers : Z;   (* the wait group *)
  hs_cancelled : bool;   (* the context of [Run] *)
  hs_receiveCancelled : bool;   (* [cancelReceivers] *)
  hs_writeCancelled : bool;   (* [cancelWrites] *)
  hs_afterStopped : bool;   (* [stopCancellation] *)
  hs_doneWriting : bool;   (* the channel is closed *)
  hs_enqueued : list Delivery;   (* every delivery sent, in order *)
  hs_inserted : list Event;   (* every event [Insert] was called with *)
  hs_logs : list Diagnostic;   (* diagnostics *)
  hs_panicked : bool;   (* a nil event was dereferenced *)
  hs_returned : option (option goerror);   (* what [serve] returned *)
}.

Definition set_stopped (x : bool) (s : history_state) : history_state :=
  mkState x (hs_slots s) (hs_reservedBytes s) (hs_reservations s) (hs_completed s) (hs_admissions s) (hs_stopOnce s) (hs_closed s) (hs_receivers s) (hs_cancelled s) (hs_receiveCancelled s) (hs_writeCancelled s) (hs_afterStopped s) (hs_doneWriting s) (hs_enqueued s) (hs_inserted s) (hs_logs s) (hs_panicked s) (hs_returned s).
Definition set_slots (x : Z) (s : history_state) : history_state :=
  mkState (hs_stopped s) x (hs_reservedBytes s) (hs_reservations s) (hs_completed s) (hs_admissions s) (hs_stopOnce s) (hs_closed s) (hs_receivers s) (hs_cancelled s) (hs_receiveCancelled s) (hs_writeCancelled s) (hs_afterStopped s) (hs_doneWriting s) (hs_enqueued s) (hs_inserted s) (hs_logs s) (hs_panicked s) (hs_returned s).
Definition set_reservedBytes (x : Z) (s : history_state) : history_state :=
  mkState (hs_stopped s) (hs_slots s) x (hs_reservations s) (hs_completed s) (hs_admissions s) (hs_stopOnce s) (hs_closed s) (hs_receivers s) (hs_cancelled s) (hs_receiveCancelled s) (hs_writeCancelled s) (hs_afterStopped s) (hs_doneWriting s) (hs_enqueued s) (hs_inserted s) (hs_logs s) (hs_panicked s) (hs_returned s).
Definition set_reservations (x : list (Z * bool)) (s : history_state) : history_state :=
  mkState (hs_stopped s) (hs_slots s) (hs_reservedBytes s) x (hs_completed s) (hs_admissions s) (hs_stopOnce s) (hs_closed s) (hs_receivers s) (hs_cancelled s) (hs_receiveCancelled s) (hs_writeCancelled s) (hs_afterStopped s) (hs_doneWriting s) (hs_enqueued s) (hs_inserted s) (hs_logs s) (hs_panicked s) (hs_returned s).
Definition set_completed (x : list Delivery) (s : history_state) : history_state :=
  mkState (hs_stopped s) (hs_slots s) (hs_reservedBytes s) (hs_reservations s) x (hs_admissions s) (hs_stopOnce s) (hs_closed s) (hs_receivers s) (hs_cancelled s) (hs_receiveCancelled s) (hs_writeCancelled s) (hs_afterStopped s) (hs_doneWriting s) (hs_enqueued s) (hs_inserted s) (hs_logs s) (hs_panicked s) (hs_returned s).
Definition set_admissions (x : list bool) (s : history_state) : history_state :=
  mkState (hs_stopped s) (hs_slots s) (hs_reservedBytes s) (hs_reservations s) (hs_completed s) x (hs_stopOnce s) (hs_closed s) (hs_receivers s) (hs_cancelled s) (hs_receiveCancelled s) (hs_writeCancelled s) (hs_afterStopped s) (hs_doneWriting s) (hs_enqueued s) (hs_inserted s) (hs_logs s) (hs_panicked s) (hs_returned s).
Definition set_stopOnce (x : once) (s : history_state) : history_state :=
  mkState (hs_stopped s) (hs_slots s) (hs_reservedBytes s) (hs_reservations s) (hs_completed s) (hs_admissions s) x (hs_closed s) (hs_receivers s) (hs_cancelled s) (hs_receiveCancelled s) (hs_writeCancelled s) (hs_afterStopped s) (hs_doneWriting s) (hs_enqueued s) (hs_inserted s) (hs_logs s) (hs_panicked s) (hs_returned s).
Definition set_closed (x : bool) (s : history_state) : history_state :=
  mkState (hs_stopped s) (hs_slots s) (hs_reservedBytes s) (hs_reservations s) (hs_completed s) (hs_admissions s) (hs_stopOnce s) x (hs_receivers s) (hs_cancelled s) (hs_receiveCancelled s) (hs_writeCancelled s) (hs_afterStopped s) (hs_doneWriting s) (hs_enqueued s) (hs_inserted s) (hs_logs s) (hs_panicked s) (hs_returned s).
Definition set_receivers (x : Z) (s : history_state) : history_state :=
  mkState (hs_stopped s) (hs_slots s) (hs_reservedBytes s) (hs_reservations s) (hs_completed s) (hs_admissions s) (hs_stopOnce s) (hs_closed s) x (hs_cancelled s) (hs_receiveCancelled s) (hs_writeCancelled s) (hs_afterStopped s) (hs_doneWriting s) (hs_enqueued s) (hs_inserted s) (hs_logs s) (hs_panicked s) (hs_returned s).
Definition set_cancelled (x : bool) (s : history_state) : history_state :=
  mkState (hs_stopped s) (hs_slots s) (hs_reservedBytes s) (hs_reservations s) (hs_completed s) (hs_admissions s) (hs_stopOnce s) (hs_closed s) (hs_receivers s) x (hs_receiveCancelled s) (hs_writeCancelled s) (hs_afterStopped s) (hs_doneWriting s) (hs_enqueued s) (hs_inserted s) (hs_logs s) (hs_panicked s) (hs_returned s).
Definition set_receiveCancelled (x : bool) (s : history_state) : history_state :=
  mkState (hs_stopped s) (hs_slots s) (hs_reservedBytes s) (hs_reservations s) (hs_completed s) (hs_admissions s) (hs_stopOnce s) (hs_closed s) (hs_receivers s) (hs_cancelled s) x (hs_writeCancelled s) (hs_afterStopped s) (hs_doneWriting s) (hs_enqueued s) (hs_inserted s) (hs_logs s) (hs_panicked s) (hs_returned s).
Definition set_writeCancelled (x : bool) (s : history_state) : history_state :=
  mkState (hs_stopped s) (hs_slots s) (hs_reservedBytes s) (hs_reservations s) (hs_completed s) (hs_admissions s) (hs_stopOnce s) (hs_closed s) (hs_receivers s) (hs_cancelled s) (hs_receiveCancelled s) x (hs_afterStopped s) (hs_doneWriting s) (hs_enqueued s) (hs_inserted s) (hs_logs s) (hs_panicked s) (hs_returned s).
Definition set_afterStopped (x : bool) (s : history_state) : history_state :=
  mkState (hs_stopped s) (hs_slots s) (hs_reservedBytes s) (hs_reservations s) (hs_completed s) (hs_admissions s) (hs_stopOnce s) (hs_closed s) (hs_receivers s) (hs_cancelled s) (hs_receiveCancelled s) (hs_writeCancelled s) x (hs_doneWriting s) (hs_enqueued s) (hs_inserted s) (hs_logs s) (hs_panicked s) (hs_returned s).
Definition set_doneWriting (x : bool) (s : history_state) : history_state :=
  mkState (hs_stopped s) (hs_slots s) (hs_reservedBytes s) (hs_reservations s) (hs_completed s) (hs_admissions s) (hs_stopOnce s) (hs_closed s) (hs_receivers s) (hs_cancelled s) (hs_receiveCancelled s) (hs_writeCancelled s) (hs_afterStopped s) x (hs_enqueued s) (hs_inserted s) (hs_logs s) (hs_panicked s) (hs_returned s).
Definition set_enqueued (x : list Delivery) (s : history_state) : history_state :=
  mkState (hs_stopped s) (hs_slots s) (hs_reservedBytes s) (hs_reservations s) (hs_completed s) (hs_admissions s) (hs_stopOnce s) (hs_closed s) (hs_receivers s) (hs_cancelled s) (hs_receiveCancelled s) (hs_writeCancelled s) (hs_afterStopped s) (hs_doneWriting s) x (hs_inserted s) (hs_logs s) (hs_panicked s) (hs_returned s).
Definition set_inserted (x : list Event) (s : history_state) : history_state :=
  mkState (hs_stopped s) (hs_slots s) (hs_reservedBytes s) (hs_reservations s) (hs_completed s) (hs_admissions s) (hs_stopOnce s) (hs_closed s) (hs_receivers s) (hs_cancelled s) (hs_receiveCancelled s) (hs_writeCancelled s) (hs_afterStopped s) (hs_doneWriting s) (hs_enqueued s) x (hs_logs s) (hs_panicked s) (hs_returned s).
Definition set_logs (x : list Diagnostic) (s : history_state) : history_state :=
  mkState (hs_stopped s) (hs_slots s) (hs_reservedBytes s) (hs_reservations s) (hs_completed s) (hs_admissions s) (hs_stopOnce s) (hs_closed s) (hs_receivers s) (hs_cancelled s) (hs_receiveCancelled s) (hs_writeCancelled s) (hs_afterStopped s) (hs_doneWriting s) (hs_enqueued s) (hs_inserted s) x (hs_panicked s) (hs_returned s).
Definition set_panicked (x : bool) (s : history_state) : history_state :=
  mkState (hs_stopped s) (hs_slots s) (hs_reservedBytes s) (hs_reservations s) (hs_completed s) (hs_admissions s) (hs_stopOnce s) (hs_closed s) (hs_receivers s) (hs_cancelled s) (hs_receiveCancelled s) (hs_writeCancelled s) (hs_afterStopped s) (hs_doneWriting s) (hs_enqueued s) (hs_inserted s) (hs_logs s) x (hs_returned s).
Definition set_returned (x : option (option goerror)) (s : history_state) : history_state :=
  mkState (hs_stopped s) (hs_slots s) (hs_reservedBytes s) (hs_reservations s) (hs_completed s) (hs_admissions s) (hs_stopOnce s) (hs_closed s) (hs_receivers s) (hs_cancelled s) (hs_receiveCancelled s) (hs_writeCancelled s) (hs_afterStopped s) (hs_doneWriting s) (hs_enqueued s) (hs_inserted s) (hs_logs s) (hs_panicked s) x.

Definition initial_state : history_state :=
  mkState false 0 0 [] [] [] Fresh false 0 false false false false false [] [] [] false None.

Definition defaultReceiverLimit : Z := 8.
Definition defaultByteLimit : Z := Z.shiftl 64 20.
Definition defaultQueueSize : nat := 8.
(** uint64 arithmetic. *)
Definition u64 (z : Z) : Z := (z mod 2 ^ 64)%Z.

Definition ErrAdmissionUsed : goerror := ErrNew "historyipc: admission already used".
Definition ErrOverloaded : goerror := ErrNew "historyipc: declared payload exceeds available receiver budget".
Definition ErrQueueFull : goerror := ErrNew "historyipc: completed queue is full".
Definition ErrUnhandledControl : goerror := ErrNew "historyipc: control has no handler".
Definition ErrUnexpectedMessage : goerror := ErrNew "historyipc: message is not a receiver request".

(** The loops of the goroutines. *)
Inductive label :=
| AcceptLoop
| PersistLoop
| ReleaseLoop (err : option goerror).

Abbreviation P := (proc history_state label).
Abbreviation C := (cmd history_state label).

(** ** The receiver *)

(** *** Admission *)

(** [<-r.slots]. *)
Definition take_slot : C unit :=
  select (λ s, if (0 <? hs_slots s)%Z then [(tt, set_slots (hs_slots s - 1) s)] else []).

Definition Admit : C (option nat) :=
  let@ stopped := look hs_stopped in
  if stopped : bool then done None
  else
    let@ sent := atomic (λ s, if (hs_slots s <? defaultReceiverLimit)%Z
                              then (true, set_slots (hs_slots s + 1) s) else (false, s)) in
    if negb sent then done None
    else
      let@ stopped := look hs_stopped in
      if stopped : bool then let@ _ := take_slot in done None
      else atomic (λ s, (Some (length (hs_admissions s)), set_admissions (hs_admissions s ++ [false]) s)).

Definition Stop : C unit := update (set_stopped true).

(** [a.claimed.CompareAndSwap(false, true)]. *)
Definition claim (a : nat) : C bool :=
  atomic (λ s, match hs_admissions s !! a with
               | Some false => (true, set_admissions (<[a := true]> (hs_admissions s)) s)
               | _ => (false, s)
               end).

Definition Admission_Close (a : nat) : C unit :=
  let@ claimed := claim a in
  if claimed : bool then take_slot else done tt.

(** *** The byte budget *)

Definition reserve (size : Z) : C (option nat) :=
  atomic (λ s, if (u64 (defaultByteLimit - hs_reservedBytes s) <? size)%Z then (None, s)
               else (Some (length (hs_reservations s)),
                     set_reservations (hs_reservations s ++ [(size, false)])
                       (set_reservedBytes (u64 (hs_reservedBytes s + size)) s))).

(** [byteReservation.release]: the body of its [once] under the lock of the budget. *)
Definition release (id : nat) : C unit :=
  update (λ s, match hs_reservations s !! id with
               | Some (size, false) =>
                   set_reservations (<[id := (size, true)]> (hs_reservations s))
                     (set_reservedBytes (u64 (hs_reservedBytes s - size)) s)
               | _ => s
               end).
Definition Release (d : Delivery) : C unit := release (d_reservation d).

(** *** One connection *)

Definition enqueue (message : Message) (reservation : nat) : C (option goerror) :=
  let delivery := mkDelivery message reservation in
  let@ sent := atomic (λ s, if (length (hs_completed s) <? defaultQueueSize)%nat
                            then (true, set_enqueued (hs_enqueued s ++ [delivery])
                                          (set_completed (hs_completed s ++ [delivery]) s))
                            else (false, s)) in
  if sent : bool then done None
  else let@ _ := release reservation in done (Some ErrQueueFull).

(** [writeAll]: every write makes progress, so its length bounds the loop. *)
Fixpoint write_all (fuel : nat) (remaining : list ascii) : C (option goerror) :=
  match fuel with
  | O => done None
  | S fuel' =>
      match remaining with
      | [] => done None
      | _ =>
          let@ outcome := answer (Z * option goerror) in
          let n := outcome.1 in
          match outcome.2 with
          | Some err => done (Some (ErrWrap "write history control: " err ""))
          | None =>
              if ((n <=? 0) || (Z.of_nat (length remaining) <? n))%Z
              then done (Some (ErrNew "historyipc: history control write made invalid progress"))
              else write_all fuel' (drop (Z.to_nat n) remaining)
          end
      end
  end.
Definition writeAll (remaining : list ascii) : C (option goerror) := write_all (length remaining) remaining.

Definition ControlHandler : Type := Message → C (result goerror (list ascii)).

Definition handleControl (control : option ControlHandler) (message : Message) : C (option goerror) :=
  match control with
  | None => done (Some ErrUnhandledControl)
  | Some handler =>
      let@ response := handler message in
      match response with
      | Err err => done (Some (ErrWrap "handle history control: " err ""))
      | Ok [] => done (Some (ErrNew "historyipc: control handler returned an empty response"))
      | Ok response =>
          let@ err := answer (option goerror) in
          match err with
          | Some err => done (Some (ErrWrap "set history response deadline: " err ""))
          | None =>
              let@ err := writeAll response in
              match err with
              | Some err => done (Some err)
              | None =>
                  let@ ok := answer bool in
                  if negb ok then done (Some (ErrNew "historyipc: control connection cannot close its write side"))
                  else
                    let@ err := answer (option goerror) in
                    match err with
                    | Some err => done (Some (ErrWrap "close history response write side: " err ""))
                    | None => done None
                    end
              end
          end
      end
  end.

Definition dispatch (control : option ControlHandler) (message : Message) (reservation : nat) : C (option goerror) :=
  if String.eqb (m_Kind message) KindValidation then enqueue message reservation
  else if String.eqb (m_Kind message) KindIdentify || (String.eqb (m_Kind message) KindShutdown && negb (m_Accepted message))
  then let@ err := handleControl control message in let@ _ := release reservation in done err
  else let@ _ := release reservation in done (Some ErrUnexpectedMessage).

Section receive.
Context {J : JsonErrorText} {U : UnicodeTables}.

Definition readReserved (control : option ControlHandler) (connection : reader) (length : Z) (reservation : nat) : C (option goerror) :=
  match ReadFull (Z.to_nat length) connection with
  | Err err => let@ _ := release reservation in done (Some (ErrWrap "read history payload: " err ""))
  | Ok (payload, connection) =>
      match requireEOF connection with
      | Some err => let@ _ := release reservation in done (Some err)
      | None =>
          match decodePayload payload with
          | Err err => let@ _ := release reservation in done (Some err)
          | Ok message => dispatch control message reservation
          end
      end
  end.

(** [Receive] after the claim, up to its deferred calls.  The connection is whatever
    its reads will deliver before the deadline. *)
Definition receive_body (control : option ControlHandler) : C (option goerror) :=
  let@ err := answer (option goerror) in
  match err with
  | Some err => done (Some (ErrWrap "set history receive deadline: " err ""))
  | None =>
      let@ connection := answer reader in
      match readHeader connection with
      | Err err => done (Some err)
      | Ok (length, connection) =>
          let@ reservation := reserve length in
          match reservation with
          | None => done (Some ErrOverloaded)
          | Some reservation => readReserved control connection length reservation
          end
      end
  end.

Definition Receive (control : option ControlHandler) (a : nat) : C (option goerror) :=
  let@ claimed := claim a in
  if negb claimed then done (Some ErrAdmissionUsed)
  else
    let@ err := receive_body control in
    let@ closeErr := answer (option goerror) in
    let@ _ := take_slot in
    done (errors_join [err; closeErr]).

(** ** The service *)

Definition logDiagnostic (d : Diagnostic) : C unit :=
  let@ _ := update (λ s, set_logs (hs_logs s ++ [d]) s) in
  let@ _ := answer (option goerror) in
  done tt.
Definition logFailure (phase category : string) : C unit :=
  logDiagnostic (mkDiagnostic "history_writer_error" phase category "" "" "" "" "").
Definition logPersistenceFailure (e : Event) : C unit :=
  logDiagnostic (mkDiagnostic "history_writer_error" "persist" "insert" (ev_EventID e) (ev_Repository e) (ev_Worktree e)
                   (default "" (ev_Tool e)) (default "" (ev_SessionID e))).

(** [s.stop]: the first caller stops admission and closes the listener, the others wait
    for it. *)
Definition stop : C unit :=
  let@ first := select (λ s, match hs_stopOnce s with
                             | Fresh => [(true, set_stopOnce Running s)]
                             | Running => []
                             | Finished => [(false, s)]
                             end) in
  if first : bool then
    let@ _ := Stop in
    let@ _ := update (set_closed true) in
    let@ err := answer (option goerror) in
    let@ _ := match err with Some _ => logFailure "shutdown" "listener" | None => done tt end in
    update (set_stopOnce Finished)
  else done tt.

Definition control (ident : Identity) : ControlHandler := λ message,
  if String.eqb (m_Kind message) KindIdentify then done (EncodeIdentity ident)
  else let@ _ := stop in done EncodeShutdownResponse.

(** A call that does nothing on success. *)
Definition on_error (err : option goerror) (m : C unit) : C unit :=
  match err with Some _ => m | None => done tt end.

(** The goroutine of one connection. *)
Definition receiver_goroutine (ident : Identity) (a : nat) : P :=
  finish (let@ err := Receive (Some (control ident)) a in
          let@ _ := on_error err (logFailure "receive" "frame") in
          update (λ s, set_receivers (hs_receivers s - 1) s)).

(** [AcceptUnix]: a closed listener, or a connection or an error. *)
Inductive accepted := Connected | AcceptFailed (err : goerror).
Definition accept_unix : C accepted :=
  let@ outcome := select (λ s, if hs_closed s then [(0%nat, s)] else [(1%nat, s); (2%nat, s)]) in
  match outcome with
  | 0%nat => done (AcceptFailed (ErrSentinel NetErrClosed))
  | 1%nat => done Connected
  | _ => let@ err := answer goerror in done (AcceptFailed err)
  end.

(** One iteration of [accept]: the error it returns, or nothing to go on. *)
Definition accept_once (ident : Identity) : C (option (option goerror)) :=
  let@ outcome := accept_unix in
  match outcome with
  | AcceptFailed err =>
      if errors_is err NetErrClosed then done (Some None)
      else let@ _ := logFailure "receive" "accept" in done (Some (Some err))
  | Connected =>
      let@ admission := Admit in
      match admission with
      | None =>
          let@ _ := logFailure "receive" "overloaded" in
          let@ err := answer (option goerror) in
          let@ _ := on_error err (logFailure "receive" "close") in
          done None
      | Some a =>
          let@ _ := update (λ s, set_receivers (hs_receivers s + 1) s) in
          let@ _ := go (receiver_goroutine ident a) in
          done None
      end
  end.

Definition write_done (s : history_state) : bool := hs_cancelled s || hs_writeCancelled s.

(** One iteration of [persist]: whether to go on. *)
Definition persist_once : C bool :=
  let@ ready := select (λ s, (if write_done s then [(None, s)] else [])
                          ++ match hs_completed s with
                             | d :: rest => [(Some d, set_completed rest s)]
                             | [] => []
                             end) in
  match ready with
  | None => done false
  | Some delivery =>
      let@ cancelled := look write_done in
      let@ _ := (if cancelled : bool then done tt
                 else match m_Event (d_Message delivery) with
                      | None => update (set_panicked true)
                      | Some event =>
                          let@ _ := update (λ s, set_inserted (hs_inserted s ++ [event]) s) in
                          let@ err := answer (option goerror) in
                          on_error err (logPersistenceFailure event)
                      end) in
      let@ _ := Release delivery in
      done true
  end.

(** One iteration of [releaseQueued]. *)
Definition release_once : C bool :=
  let@ ready := atomic (λ s, match hs_completed s with
                             | d :: rest => (Some d, set_completed rest s)
                             | [] => (None, s)
                             end) in
  match ready with
  | None => done false
  | Some delivery => let@ _ := Release delivery in done true
  end.

(** [context.AfterFunc(ctx, s.stop)]: runs once the context is done, unless it was
    unregistered. *)
Definition after_func : P :=
  finish (let@ fires := select (λ s, (if hs_cancelled s then [(true, s)] else [])
                                  ++ (if hs_afterStopped s then [(false, s)] else [])) in
          if fires : bool then stop else done tt).

(** [serve] after [accept], after [releaseQueued], and from its start. *)
Definition serve_tail (err : option goerror) : P :=
  (let@ _ := stop in
   let@ _ := select (λ s, if (hs_receivers s =? 0)%Z then [(tt, s)] else []) in
   let@ _ := update (set_receiveCancelled true) in
   let@ _ := update (set_writeCancelled true) in
   select (λ s, if hs_doneWriting s then [(tt, s)] else [])) (λ _, Jump (ReleaseLoop err)).
Definition serve_end (err : option goerror) : P :=
  finish (let@ _ := update (set_afterStopped true) in
          let@ _ := update (set_writeCancelled true) in
          let@ _ := update (set_receiveCancelled true) in
          update (set_returned (Some err))).
Definition serve : P :=
  (let@ _ := go (Jump PersistLoop) in go after_func) (λ _, Jump AcceptLoop).

Definition code (ident : Identity) (l : label) : P :=
  match l with
  | AcceptLoop => accept_once ident (λ r, match r with Some err => serve_tail err | None => Jump AcceptLoop end)
  | PersistLoop => persist_once (λ more, if more : bool then Jump PersistLoop else finish (update (set_doneWriting true)))
  | ReleaseLoop err => release_once (λ more, if more : bool then Jump (ReleaseLoop err) else serve_end err)
  end.

(** The service and whoever may cancel its context. *)
Definition canceller : P := finish (update (set_cancelled true)).
Definition start : config history_state label := ([serve; canceller], initial_state).
Definition reachable (ident : Identity) (c : config history_state label) : Prop := runs (code ident) start c.
End receive.
