(* ===== verification/HistoryServiceProofs.v ===== *)
(** * Validation history: what the service guarantees

    An invariant of every reachable configuration of the history service: the slots,
    the budget and the queue stay within their limits, every reservation has one owner,
    and the events handed to the store are a prefix of the events received.  When the
    service has returned it holds nothing, and until then it never deadlocks. *)

From stdpp Require Import base gmap strings list relations.
From Stdlib Require Import ZArith Lia Ascii.
From S2P Require Import Prelude GoStrings GoErrors GoFloat GoJson GoTime Fitness HistoryEvent GoJsonPrint HistoryIpc HistoryIpcProofs GoProc HistoryService.
Set Default Goal Selector "!".

(** ** What a goroutine holds *)

(** The progress of the goroutine that runs [serve]. *)
Inductive phase :=
| MStart
| MAccept
| MSlot (admission : option nat)
| MAdded (admission : nat)
| MStopped
| MWaited
| MReceiversCancelled
| MWritesCancelled
| MDrain (reservation : option nat)
| MDrained
| MReturned.

(** The progress of the writer with a delivery: taken, about to insert, inserted. *)
Inductive writing :=
| WIdle
| WTaken (d : Delivery)
| WInsert (d : Delivery)
| WSettled (d : Delivery).

Inductive role :=
| RMain (p : phase)
| RReceiver (admission : option nat) (slot : bool) (reservation : option nat)
| RWriter (w : writing)
| RAfter
| REnv
| ROver.

(** Where a goroutine is in the body of [stopOnce]: outside, inside, after [Stop], after
    the listener is closed. *)
Inductive stage := Outside | Entered | AdmissionStopped | ListenerClosed.
Record token := mkToken { tk_role : role; tk_stage : stage }.

Definition b2z (b : bool) : Z := if b then 1 else 0.
Definition is_id (x : nat) (o : option nat) : Z := match o with Some y => b2z (bool_decide (x = y)) | None => 0 end.

Definition slot_of (t : token) : Z :=
  match tk_role t with
  | RMain (MSlot _ | MAdded _) => 1
  | RReceiver _ slot _ => b2z slot
  | _ => 0
  end.
Definition flight_of (t : token) : Z :=
  match tk_role t with RMain (MAdded _) | RReceiver _ _ _ => 1 | _ => 0 end.
Definition claims (a : nat) (t : token) : Z :=
  match tk_role t with
  | RMain (MSlot o) => is_id a o
  | RMain (MAdded b) => is_id a (Some b)
  | RReceiver o _ _ => is_id a o
  | _ => 0
  end.
Definition holds (id : nat) (t : token) : Z :=
  match tk_role t with
  | RReceiver _ _ o => is_id id o
  | RMain (MDrain o) => is_id id o
  | RWriter (WTaken d | WInsert d | WSettled d) => is_id id (Some (d_reservation d))
  | _ => 0
  end.
Definition writer_of (t : token) : Z :=
  match tk_role t with RMain MStart | RWriter _ => 1 | _ => 0 end.
Definition main_of (t : token) : Z := match tk_role t with RMain _ => 1 | _ => 0 end.
Definition once_of (t : token) : Z := match tk_stage t with Outside => 0 | _ => 1 end.
Definition running_of (o : once) : Z := match o with Running => 1 | _ => 0 end.
Definition stopping_of (t : token) : Z := match tk_stage t with AdmissionStopped | ListenerClosed => 1 | _ => 0 end.
Definition closing_of (t : token) : Z := match tk_stage t with ListenerClosed => 1 | _ => 0 end.
(** How far [serve] is. *)
Definition rank (p : phase) : Z :=
  match p with
  | MStart => 0
  | MAccept | MSlot _ | MAdded _ => 1
  | MStopped => 2
  | MWaited => 3
  | MReceiversCancelled => 4
  | MWritesCancelled => 5
  | MDrain _ => 6
  | MDrained => 7
  | MReturned => 8
  end.
Definition past (n : Z) (t : token) : Z :=
  match tk_role t with RMain p => b2z (n <=? rank p)%Z | _ => 0 end.

Definition total (f : token → Z) (ts : list token) : Z := foldr (λ t acc, (f t + acc)%Z) 0%Z ts.

(** Deliveries in the queue with a reservation; the bytes of open reservations. *)
Definition queued (id : nat) (q : list Delivery) : Z := foldr (λ d acc, (is_id id (Some (d_reservation d)) + acc)%Z) 0%Z q.
Definition open_bytes (rs : list (Z * bool)) : Z := foldr (λ r acc, ((if r.2 : bool then 0 else r.1) + acc)%Z) 0%Z rs.
Definition is_open (rs : list (Z * bool)) (id : nat) : bool :=
  match rs !! id with Some (_, false) => true | _ => false end.
Definition unclaimed (l : list bool) (a : nat) : bool := match l !! a with Some false => true | _ => false end.

(** The events of deliveries, in order. *)
Definition events (ds : list Delivery) : list Event := omap (m_Event ∘ d_Message) ds.

(** What the writer knows of the events inserted so far, [taken] being the deliveries
    that have left the queue. *)
Definition trace_ok (s : history_state) (taken : list Delivery) (t : token) : Prop :=
  match tk_role t with
  | RMain MStart | RWriter (WIdle | WSettled _) => write_done s = false → hs_inserted s = events taken
  | RWriter (WTaken d) => is_Some (m_Event (d_Message d)) ∧
      (write_done s = false → hs_inserted s ++ events [d] = events taken)
  | RWriter (WInsert d) => is_Some (m_Event (d_Message d)) ∧ hs_inserted s ++ events [d] = events taken
  | _ => True
  end.

Record service_inv (s : history_state) (ts : list token) : Prop := {
  i_slots : hs_slots s = total slot_of ts;
  i_slots_limit : (hs_slots s ≤ defaultReceiverLimit)%Z;
  i_receivers : hs_receivers s = total flight_of ts;
  i_claims a : total (claims a) ts = b2z (unclaimed (hs_admissions s) a);
  i_holds id : (total (holds id) ts + queued id (hs_completed s))%Z = b2z (is_open (hs_reservations s) id);
  i_sizes : Forall (λ r, 0 ≤ r.1)%Z (hs_reservations s);
  i_bytes : hs_reservedBytes s = open_bytes (hs_reservations s);
  i_limit : (hs_reservedBytes s ≤ defaultByteLimit)%Z;
  i_queue : (length (hs_completed s) ≤ defaultQueueSize)%nat;
  i_events : Forall (λ d, is_Some (m_Event (d_Message d))) (hs_completed s);
  i_once : total once_of ts = running_of (hs_stopOnce s);
  i_stopping : (0 < total stopping_of ts)%Z ∨ hs_stopOnce s = Finished → hs_stopped s = true;
  i_closing : (0 < total closing_of ts)%Z ∨ hs_stopOnce s = Finished → hs_closed s = true;
  i_writer : total writer_of ts = b2z (negb (hs_doneWriting s));
  i_main : total main_of ts = 1%Z;
  i_halted : (0 < total (past 2) ts)%Z → hs_stopOnce s = Finished;
  i_waited : (0 < total (past 3) ts)%Z → total flight_of ts = 0%Z;
  i_writes : (0 < total (past 5) ts)%Z → hs_writeCancelled s = true;
  i_written : (0 < total (past 6) ts)%Z → hs_doneWriting s = true;
  i_emptied : (0 < total (past 7) ts)%Z → hs_completed s = [];
  i_receiveCancelled : hs_receiveCancelled s = true → (0 < total (past 3) ts)%Z;
  i_returned : is_Some (hs_returned s) ↔ (0 < total (past 8) ts)%Z;
  i_panicked : hs_panicked s = false;
  i_trace : ∃ taken, hs_enqueued s = taken ++ hs_completed s ∧ hs_inserted s `prefix_of` events taken ∧ Forall (trace_ok s taken) ts;
}.

(** ** Sums over the goroutines *)

Lemma total_mid f l t r : total f (l ++ t :: r) = (f t + total f (l ++ r))%Z.
Proof. induction l as [|x l IH]; [done|]. unfold total in *. cbn [app foldr]. rewrite IH. lia. Qed.
Lemma total_snoc f l t : total f (l ++ [t]) = (f t + total f l)%Z.
Proof. by rewrite total_mid, app_nil_r. Qed.
Lemma total_le f g ts : (∀ t, f t ≤ g t)%Z → (total f ts ≤ total g ts)%Z.
Proof. intros H. induction ts as [|t ts IH]; [done|]. unfold total in *. cbn [foldr]. specialize (H t). lia. Qed.
Lemma total_zero ts : total (λ _, 0%Z) ts = 0%Z.
Proof. induction ts as [|t ts IH]; [done|]. exact IH. Qed.
Lemma total_nonneg f ts : (∀ t, 0 ≤ f t)%Z → (0 ≤ total f ts)%Z.
Proof. intros H. rewrite <-(total_zero ts). by apply total_le. Qed.
Lemma total_pos f ts : (0 < total f ts)%Z → ∃ t, t ∈ ts ∧ (0 < f t)%Z.
Proof.
  induction ts as [|t ts IH]; [cbn; lia|]. intros H. destruct (decide (0 < f t)%Z); [by exists t; split; [left|]|].
  destruct IH as (x & Hx & Hf); [unfold total in *; cbn [foldr] in H; lia|]. exists x. split; [by right|done].
Qed.
Lemma total_elem f ts t : (∀ t, 0 ≤ f t)%Z → t ∈ ts → (f t ≤ total f ts)%Z.
Proof.
  intros Hf Ht. apply list_elem_of_split in Ht as (l & r & ->). rewrite total_mid. pose proof (total_nonneg f (l ++ r) Hf). lia.
Qed.

Lemma b2z_bounds b : (0 ≤ b2z b ≤ 1)%Z.
Proof. destruct b; cbn; lia. Qed.
Lemma is_id_bounds x o : (0 ≤ is_id x o ≤ 1)%Z.
Proof. destruct o; [apply b2z_bounds|cbn; lia]. Qed.
Lemma is_id_eq x : is_id x (Some x) = 1%Z.
Proof. unfold is_id. by rewrite bool_decide_eq_true_2. Qed.

Lemma total_cons f t ts : total f (t :: ts) = (f t + total f ts)%Z.
Proof. done. Qed.
Lemma total_perm f ts ts' : ts ≡ₚ ts' → total f ts = total f ts'.
Proof. induction 1; unfold total in *; cbn [foldr] in *; lia. Qed.

(** The invariant does not depend on the order of the goroutines. *)
Lemma service_inv_perm s ts ts' : ts ≡ₚ ts' → service_inv s ts → service_inv s ts'.
Proof.
  intros Hp HI. pose proof (λ f, total_perm f _ _ Hp) as Ht. destruct HI. constructor; rewrite <-?Ht; try done.
  - intros a. by rewrite <-Ht.
  - intros id. by rewrite <-Ht.
  - destruct i_trace0 as (taken & He & Hi & Hf). exists taken. by rewrite <-Hp.
Qed.
Lemma inv_front s l t r : service_inv s (l ++ t :: r) ↔ service_inv s (t :: l ++ r).
Proof. split; apply service_inv_perm; [|symmetry]; by rewrite Permutation_middle. Qed.

(** ** The logic of the service *)

Definition blocked (t : token) (s : history_state) : Prop :=
  tk_stage t = Outside ∧
  (hs_stopOnce s = Running ∨
   match tk_role t with
   | RMain MStopped => hs_receivers s ≠ 0%Z
   | RMain MWritesCancelled => hs_doneWriting s = false
   | RWriter WIdle => write_done s = false
   | RAfter => hs_cancelled s = false
   | _ => False
   end).
Definition over (t : token) : Prop := t = mkToken ROver Outside ∨ t = mkToken (RMain MReturned) Outside.
Definition main (p : phase) : token := mkToken (RMain p) Outside.
Definition head (l : label) (t : token) : Prop :=
  match l with
  | AcceptLoop => t = main MAccept
  | PersistLoop => t = mkToken (RWriter WIdle) Outside
  | ReleaseLoop _ => t = main (MDrain None)
  end.

Abbreviation safely := (safe service_inv blocked over head).
Abbreviation spec := (triple service_inv blocked over head).

Lemma spec_atomic t {A} (f : history_state → A * history_state) (Q : A → token → Prop) :
  (∀ s ts, service_inv s (t :: ts) → ∃ t', service_inv (f s).2 (t' :: ts) ∧ Q (f s).1 t') → spec t (atomic f) Q.
Proof.
  intros H. apply triple_atomic. intros s l r HI%inv_front. destruct (H s (l ++ r) HI) as (t' & HI' & HQ). exists t'. by rewrite inv_front.
Qed.
Lemma spec_update t (f : history_state → history_state) t' :
  (∀ s ts, service_inv s (t :: ts) → service_inv (f s) (t' :: ts)) → spec t (update f) (λ _ u, u = t').
Proof. intros H. apply spec_atomic. intros s ts HI. exists t'. split; [|done]. by apply H. Qed.
Lemma spec_look t {A} (f : history_state → A) : spec t (look f) (λ _ u, u = t).
Proof. apply spec_atomic. intros s ts HI. by exists t. Qed.
Lemma spec_select t {A} (f : history_state → list (A * history_state)) (Q : A → token → Prop) :
  (∀ s ts, service_inv s (t :: ts) → f s = [] → blocked t s) →
  (∀ s ts a s', service_inv s (t :: ts) → (a, s') ∈ f s → ∃ t', service_inv s' (t' :: ts) ∧ Q a t') → spec t (select f) Q.
Proof.
  intros Hb H. apply triple_select.
  - intros s l r HI%inv_front. by eapply Hb.
  - intros s l r a s' HI%inv_front Hin. destruct (H s (l ++ r) a s' HI Hin) as (t' & HI' & HQ). exists t'. by rewrite inv_front.
Qed.
Lemma spec_go t t1 t2 child : (∀ s ts, service_inv s (t :: ts) → service_inv s (t2 :: t1 :: ts)) → safely t1 child →
  spec t (go child) (λ _ u, u = t2).
Proof.
  intros H Hc. apply (triple_go _ _ _ _ t t1 t2); [|done|done]. intros s l r HI%inv_front. apply H in HI.
  eapply service_inv_perm; [|exact HI]. rewrite <-(Permutation_middle l). constructor. rewrite app_assoc. apply Permutation_cons_append.
Qed.

(** ** Steps *)

Definition at_stage (r : role) (g : stage) : token := mkToken r g.

(** Fields of updated states, and the counts of the first goroutine. *)
Ltac cbn_state :=
  cbn [hs_stopped hs_slots hs_reservedBytes hs_reservations hs_completed hs_admissions hs_stopOnce hs_closed
       hs_receivers hs_cancelled hs_receiveCancelled hs_writeCancelled hs_afterStopped hs_doneWriting hs_enqueued
       hs_inserted hs_logs hs_panicked hs_returned set_stopped set_slots set_reservedBytes set_reservations
       set_completed set_admissions set_stopOnce set_closed set_receivers set_cancelled set_receiveCancelled
       set_writeCancelled set_afterStopped set_doneWriting set_enqueued set_inserted set_logs set_panicked
       set_returned].
Ltac cbn_counts :=
  cbn [slot_of flight_of claims holds writer_of main_of once_of stopping_of closing_of past rank tk_role tk_stage b2z negb running_of at_stage
       main Z.leb Z.compare Pos.compare Pos.compare_cont] in *.
(** An invariant after a step, from its fields before. *)
Ltac by_counts :=
  rewrite ?total_cons in *; cbn_counts; first [assumption|done|lia|intuition (lia || congruence)].
Ltac by_ids H :=
  let x := fresh "x" in intros x; specialize (H x); by_counts.
Ltac by_trace H :=
  let taken := fresh "taken" in let He := fresh "He" in let Hi := fresh "Hi" in let Hf := fresh "Hf" in
  destruct H as (taken & He & Hi & Hf); exists taken; split; [exact He|split; [exact Hi|]];
  apply Forall_cons in Hf; destruct Hf as [? Hf]; repeat (apply Forall_cons; split; [first [done|assumption]|]); exact Hf.
Ltac solve_inv HI :=
  destruct HI; try match goal with H : hs_stopOnce _ = _ |- _ => rewrite H in * end; constructor; cbn_state;
  try match goal with H : hs_stopOnce _ = _ |- _ => rewrite H end;
  match goal with
  | |- ∃ taken, _ => match goal with H : ∃ taken, _ |- _ => first [by_trace H|idtac] end
  | H : ∀ a, total (claims a) _ = _ |- ∀ a, total (claims a) _ = _ => first [by_ids H|idtac]
  | H : ∀ id, (total (holds id) _ + _)%Z = _ |- ∀ id, (total (holds id) _ + _)%Z = _ => first [by_ids H|idtac]
  | |- _ => first [by_counts|idtac]
  end.


(** Bounds on the counts of the other goroutines. *)
Lemma counts_nonneg t :
  (0 ≤ slot_of t ∧ 0 ≤ flight_of t ∧ 0 ≤ writer_of t ∧ 0 ≤ once_of t ∧ 0 ≤ stopping_of t ≤ once_of t ∧
   0 ≤ closing_of t ≤ stopping_of t)%Z.
Proof. destruct t as [[[]| | | | |] []]; cbn_counts; pose proof (b2z_bounds true); try lia; destruct slot; cbn; lia. Qed.
Lemma past_bounds n t : (0 ≤ past n t ≤ main_of t)%Z.
Proof. unfold past, main_of. destruct (tk_role t); [apply b2z_bounds|done..]. Qed.
Lemma claims_nonneg a t : (0 ≤ claims a t)%Z.
Proof. unfold claims. repeat case_match; try done; apply is_id_bounds. Qed.
Lemma holds_nonneg id t : (0 ≤ holds id t)%Z.
Proof. unfold holds. repeat case_match; try done; apply is_id_bounds. Qed.
Lemma queued_nonneg id q : (0 ≤ queued id q)%Z.
Proof. induction q as [|d q IH]; [done|]. unfold queued in *. cbn [foldr]. pose proof (is_id_bounds id (Some (d_reservation d))). lia. Qed.

Lemma total_bounds ts :
  (0 ≤ total slot_of ts ∧ 0 ≤ total flight_of ts ∧ 0 ≤ total writer_of ts ∧ 0 ≤ total once_of ts ∧
   0 ≤ total closing_of ts ≤ total stopping_of ts ∧ total stopping_of ts ≤ total once_of ts)%Z.
Proof.
  repeat split; (apply total_nonneg || apply total_le); intros t; pose proof (counts_nonneg t); lia.
Qed.
Lemma total_past_bounds n ts : (0 ≤ total (past n) ts ≤ total main_of ts)%Z.
Proof. split; [apply total_nonneg|apply total_le]; intros t; apply past_bounds. Qed.
(** Used with the list of the other goroutines. *)
Ltac bound fact := let H := fresh "Hbound" in pose proof fact as H.
Ltac bounds ts :=
  bound (total_bounds ts); bound (total_past_bounds 2 ts); bound (total_past_bounds 3 ts); bound (total_past_bounds 5 ts);
  bound (total_past_bounds 6 ts); bound (total_past_bounds 7 ts); bound (total_past_bounds 8 ts).

(** What is held without a connection in flight, a writer or a running [serve]: nothing. *)
Lemma total_add f g ts : total (λ t, f t + g t)%Z ts = (total f ts + total g ts)%Z.
Proof. induction ts as [|t ts IH]; [done|]. unfold total in *. cbn [foldr]. lia. Qed.
Lemma total_sub f g ts : total (λ t, f t - g t)%Z ts = (total f ts - total g ts)%Z.
Proof. induction ts as [|t ts IH]; [done|]. unfold total in *. cbn [foldr]. lia. Qed.
Lemma idle_slots ts : (total slot_of ts ≤ total flight_of ts + total main_of ts - total (past 8) ts)%Z.
Proof.
  rewrite <-total_add, <-total_sub. apply total_le. intros [[[]| | | | |] g]; cbn_counts; try done; destruct slot; cbn; lia.
Qed.
Lemma idle_holds id ts : (total (holds id) ts ≤ total flight_of ts + total writer_of ts + total main_of ts - total (past 8) ts)%Z.
Proof.
  rewrite <-!total_add, <-total_sub. apply total_le. intros [[[]| |[]| | |] g]; cbn_counts; try done.
  all: lazymatch goal with |- context [is_id ?x ?o] => pose proof (is_id_bounds x o); lia end.
Qed.

(** *** Reservations and admissions *)

Lemma is_open_snoc rs n x : is_open (rs ++ [(n, false)]) x = if decide (x = length rs) then true else is_open rs x.
Proof.
  unfold is_open. case_decide as Hx; [by subst; rewrite list_lookup_middle|]. destruct (decide (x < length rs)%nat).
  - by rewrite lookup_app_l.
  - rewrite (lookup_ge_None_2 rs) by lia. rewrite lookup_ge_None_2; [done|]. rewrite length_app. cbn. lia.
Qed.
Lemma is_open_insert rs id n x : is_open rs id = true → is_open (<[id := (n, true)]> rs) x = if decide (x = id) then false else is_open rs x.
Proof.
  unfold is_open. intros Hid. case_decide as Hx; [|by rewrite list_lookup_insert_ne]. subst x.
  destruct (rs !! id) eqn:E; [|done]. rewrite list_lookup_insert_eq; [done|]. by eapply lookup_lt_Some.
Qed.
Lemma open_bytes_app rs rs' : open_bytes (rs ++ rs') = (open_bytes rs + open_bytes rs')%Z.
Proof. induction rs as [|r rs IH]; [done|]. unfold open_bytes in *. cbn [app foldr]. rewrite IH. lia. Qed.
Lemma open_bytes_insert rs id n : rs !! id = Some (n, false) → open_bytes (<[id := (n, true)]> rs) = (open_bytes rs - n)%Z.
Proof.
  intros H. pose proof (lookup_lt_Some _ _ _ H) as Hlt. rewrite <-(take_drop_middle _ _ _ H) at 2. rewrite insert_take_drop by done.
  rewrite !open_bytes_app. unfold open_bytes. cbn [foldr fst snd]. lia.
Qed.
Lemma open_bytes_nonneg rs : Forall (λ r, 0 ≤ r.1)%Z rs → (0 ≤ open_bytes rs)%Z.
Proof. induction 1 as [|[n []] rs Hn _ IH]; [done| |]; unfold open_bytes in *; cbn [foldr fst snd] in *; lia. Qed.
Lemma open_bytes_closed rs : (∀ id, is_open rs id = false) → open_bytes rs = 0%Z.
Proof.
  induction rs as [|[n b] rs IH]; [done|]. intros H. unfold open_bytes in *. cbn [foldr fst snd]. pose proof (H 0%nat) as H0. cbn in H0.
  destruct b; [|done]. rewrite IH; [done|]. intros id. apply (H (S id)).
Qed.
Lemma unclaimed_snoc l x : unclaimed (l ++ [false]) x = if decide (x = length l) then true else unclaimed l x.
Proof.
  unfold unclaimed. case_decide as Hx; [by subst; rewrite list_lookup_middle|]. destruct (decide (x < length l)%nat).
  - by rewrite lookup_app_l.
  - rewrite (lookup_ge_None_2 l) by lia. rewrite lookup_ge_None_2; [done|]. rewrite length_app. cbn. lia.
Qed.
Lemma unclaimed_insert l a x : unclaimed l a = true → unclaimed (<[a := true]> l) x = if decide (x = a) then false else unclaimed l x.
Proof.
  unfold unclaimed. intros Ha. case_decide as Hx; [|by rewrite list_lookup_insert_ne]. subst x.
  destruct (l !! a) eqn:E; [|done]. rewrite list_lookup_insert_eq; [done|]. by eapply lookup_lt_Some.
Qed.
Lemma unclaimed_length l : unclaimed l (length l) = false.
Proof. unfold unclaimed. by rewrite lookup_ge_None_2. Qed.
Lemma is_open_length rs : is_open rs (length rs) = false.
Proof. unfold is_open. by rewrite lookup_ge_None_2. Qed.
Lemma is_id_decide x y : is_id x (Some y) = if decide (x = y) then 1%Z else 0%Z.
Proof. unfold is_id. case_decide; [by rewrite bool_decide_eq_true_2|by rewrite bool_decide_eq_false_2]. Qed.

(** *** The log *)

Lemma inv_log d s ts : service_inv s ts → service_inv (set_logs (hs_logs s ++ [d]) s) ts.
Proof. intros []. by constructor. Qed.
Lemma spec_logDiagnostic t d : spec t (logDiagnostic d) (λ _ u, u = t).
Proof.
  unfold logDiagnostic. eapply triple_seq; [apply (spec_update t _ t); intros s ts; apply inv_log|].
  intros _ ? ->. eapply triple_seq; [by apply (triple_answer _ _ _ _ t _ None (λ _ u, u = t))|]. intros ? ? ->. by apply triple_done.
Qed.
Lemma spec_logFailure t a b : spec t (logFailure a b) (λ _ u, u = t).
Proof. apply spec_logDiagnostic. Qed.
Lemma spec_on_error t err m : spec t m (λ _ u, u = t) → spec t (on_error err m) (λ _ u, u = t).
Proof. destruct err; [done|]. intros _. by apply triple_done. Qed.

(** *** Slots and admissions *)

(** Giving a slot back never waits: whoever holds one is counted. *)
Lemma spec_take_slot t t' :
  (slot_of t = 1%Z) → (∀ s ts, service_inv s (t :: ts) → (0 < hs_slots s)%Z → service_inv (set_slots (hs_slots s - 1) s) (t' :: ts)) →
  spec t take_slot (λ _ u, u = t').
Proof.
  intros Ht H. apply spec_select.
  - intros s ts HI Hs. destruct (Z.ltb_spec 0 (hs_slots s)) as [|Hle]; [done|]. exfalso. bounds ts.
    pose proof (i_slots _ _ HI) as Hslots. rewrite total_cons in Hslots. lia.
  - intros s ts a s' HI Hin. destruct (Z.ltb_spec 0 (hs_slots s)); [|by apply not_elem_of_nil in Hin].
    apply list_elem_of_singleton in Hin as [= -> ->]. exists t'. split; [|done]. by apply H.
Qed.

Lemma spec_Admit : spec (main MAccept) Admit (λ r t, t = match r with Some a => main (MSlot (Some a)) | None => main MAccept end).
Proof.
  unfold Admit. eapply triple_seq; [apply spec_look|]. intros stopped ? ->. destruct stopped; [by apply triple_done|].
  eapply (triple_seq _ _ _ _ _ _ _ (λ (b : bool) t, t = if b then main (MSlot None) else main MAccept)).
  { apply spec_atomic. intros s ts HI. destruct (Z.ltb_spec (hs_slots s) defaultReceiverLimit); [|by exists (main MAccept)].
    exists (main (MSlot None)). split; [|done]. cbn [fst snd]. solve_inv HI. }
  intros [] ? ->; [|by apply triple_done]. cbn [negb]. eapply triple_seq; [apply spec_look|]. intros stopped ? ->. destruct stopped.
  - eapply triple_seq; [apply (spec_take_slot _ (main MAccept)); [done|]; intros s ts HI Hs; solve_inv HI|]. intros [] ? ->. by apply triple_done.
  - apply spec_atomic. intros s ts HI. exists (main (MSlot (Some (length (hs_admissions s))))). split; [|done]. cbn [fst snd]. solve_inv HI.
    intros x. specialize (i_claims0 x). rewrite total_cons in *. cbn_counts. rewrite unclaimed_snoc, is_id_decide. cbn [is_id] in *.
    destruct (decide (x = length (hs_admissions s))) as [->|Hx]; [|lia]. rewrite unclaimed_length in i_claims0. cbn [b2z] in *. lia.
Qed.

Lemma spec_claim a : spec (mkToken (RReceiver (Some a) true None) Outside) (claim a)
  (λ b t, b = true ∧ t = mkToken (RReceiver None true None) Outside).
Proof.
  apply spec_atomic. intros s ts HI. exists (mkToken (RReceiver None true None) Outside).
  assert (unclaimed (hs_admissions s) a = true) as Ha.
  { pose proof (i_claims _ _ HI a) as H. rewrite total_cons in H. cbn_counts. rewrite is_id_eq in H.
    pose proof (total_nonneg (claims a) ts (claims_nonneg a)). destruct (unclaimed _ _); [done|]. cbn [b2z] in H. lia. }
  pose proof Ha as Hl. unfold unclaimed in Hl. destruct (hs_admissions s !! a) as [[]|] eqn:E; [done| |done]. cbn [fst snd]. split; [|done].
  solve_inv HI. intros x. specialize (i_claims0 x). rewrite total_cons in *. cbn_counts. rewrite unclaimed_insert by done.
  rewrite is_id_decide in i_claims0. cbn [is_id]. destruct (decide (x = a)) as [->|Hx]; [|lia]. rewrite Ha in i_claims0. cbn [b2z] in *. lia.
Qed.

(** *** The budget *)

Lemma u64_small z : (0 ≤ z ≤ defaultByteLimit)%Z → u64 z = z.
Proof. intros H. apply Z.mod_small. split; [lia|]. apply Z.le_lt_trans with defaultByteLimit; [lia|done]. Qed.

Lemma spec_reserve n : (0 ≤ n)%Z → spec (mkToken (RReceiver None true None) Outside) (reserve n)
  (λ r t, t = mkToken (RReceiver None true r) Outside).
Proof.
  intros Hn. apply spec_atomic. intros s ts HI. pose proof (open_bytes_nonneg _ (i_sizes _ _ HI)) as Hb.
  pose proof (i_bytes _ _ HI) as Hbytes. pose proof (i_limit _ _ HI) as Hlimit. rewrite (u64_small (defaultByteLimit - _)) by lia.
  destruct (Z.ltb_spec (defaultByteLimit - hs_reservedBytes s) n) as [|Hfit]; [by exists (mkToken (RReceiver None true None) Outside)|].
  exists (mkToken (RReceiver None true (Some (length (hs_reservations s)))) Outside). split; [|done]. cbn [fst snd].
  rewrite u64_small by lia. solve_inv HI.
  - intros x. specialize (i_holds0 x). rewrite total_cons in *. cbn_counts. rewrite is_open_snoc, is_id_decide. cbn [is_id] in *.
    destruct (decide (x = length (hs_reservations s))) as [->|Hx]; [|lia]. rewrite is_open_length in i_holds0. cbn [b2z] in *. lia.
  - apply Forall_app. split; [done|]. by constructor.
  - rewrite open_bytes_app. unfold open_bytes at 2. cbn [foldr fst snd]. lia.
Qed.

(** Two tokens that count alike, reservations apart. *)
Record alike (t t' : token) : Prop := {
  al_slot : slot_of t' = slot_of t;
  al_flight : flight_of t' = flight_of t;
  al_claims a : claims a t' = claims a t;
  al_writer : writer_of t' = writer_of t;
  al_main : main_of t' = main_of t;
  al_stage : tk_stage t' = tk_stage t;
  al_past n : past n t' = past n t;
  al_trace s taken : trace_ok s taken t → trace_ok s taken t';
}.

(** A holder can give its reservation back, once; no byte count wraps around. *)
Lemma spec_release id t t' : alike t t' → (∀ x, holds x t = is_id x (Some id)) → (∀ x, holds x t' = 0%Z) →
  spec t (release id) (λ _ u, u = t').
Proof.
  intros [Hslot Hflight Hclaims Hwriter Hmain Hstage Hpast Htrace] Ht Ht'. apply spec_update. intros s ts HI.
  assert (is_open (hs_reservations s) id = true) as Hopen.
  { pose proof (i_holds _ _ HI id) as Hh. rewrite total_cons, Ht, is_id_eq in Hh. pose proof (total_nonneg (holds id) ts (holds_nonneg id)).
    pose proof (queued_nonneg id (hs_completed s)). destruct (is_open _ _); [done|]. cbn [b2z] in Hh. lia. }
  pose proof Hopen as Hl. unfold is_open in Hl. destruct (hs_reservations s !! id) as [[n []]|] eqn:E; [done| |done].
  pose proof (open_bytes_insert _ _ _ E) as Hb. pose proof (i_bytes _ _ HI) as Hbytes. pose proof (i_limit _ _ HI) as Hlimit.
  assert (0 ≤ n)%Z as Hn by (by eapply Forall_lookup_1 in E; [|exact (i_sizes _ _ HI)]).
  assert (Forall (λ r, 0 ≤ r.1)%Z (<[id := (n, true)]> (hs_reservations s))) as Hsizes by (apply Forall_insert; [exact (i_sizes _ _ HI)|done]).
  pose proof (open_bytes_nonneg _ Hsizes). rewrite u64_small by lia.
  destruct HI; constructor; cbn_state; rewrite ?total_cons in *; unfold once_of, stopping_of, closing_of in *; rewrite ?Hstage; rewrite ?Hpast in *; try done; try lia.
  - intros x. rewrite total_cons, Hclaims. apply i_claims0.
  - intros x. specialize (i_holds0 x). rewrite total_cons, Ht' in *. rewrite Ht, is_id_decide in i_holds0. rewrite is_open_insert by done.
    destruct (decide (x = id)) as [->|Hx]; [|lia]. rewrite Hopen in i_holds0. cbn [b2z] in *. lia.
  - destruct i_trace0 as (taken & He & Hi & Hf). exists taken. rewrite Forall_cons in *. destruct Hf as [Hf1 Hf2].
    repeat split; [done|done|by apply Htrace|done].
Qed.
Lemma spec_release_receiver id : spec (mkToken (RReceiver None true (Some id)) Outside) (release id)
  (λ _ u, u = mkToken (RReceiver None true None) Outside).
Proof. by apply spec_release. Qed.

(** *** Enqueueing *)

Lemma queued_snoc id q d : queued id (q ++ [d]) = (queued id q + is_id id (Some (d_reservation d)))%Z.
Proof. induction q as [|x q IH]; unfold queued in *; cbn [app foldr]; [lia|]. rewrite IH. lia. Qed.

Lemma spec_enqueue m id : is_Some (m_Event m) → spec (mkToken (RReceiver None true (Some id)) Outside) (enqueue m id)
  (λ _ u, u = mkToken (RReceiver None true None) Outside).
Proof.
  intros Hm. unfold enqueue.
  eapply (triple_seq _ _ _ _ _ _ _ (λ (b : bool) t, t = mkToken (RReceiver None true (if b then None else Some id)) Outside)).
  - apply spec_atomic. intros s ts HI. destruct (Nat.ltb_spec (length (hs_completed s)) defaultQueueSize) as [Hlt|];
      [|by exists (mkToken (RReceiver None true (Some id)) Outside)].
    exists (mkToken (RReceiver None true None) Outside). split; [|done]. cbn [fst snd]. bounds ts. solve_inv HI.
    + intros x. specialize (i_holds0 x). rewrite total_cons in *. cbn_counts. rewrite queued_snoc. cbn [d_reservation is_id] in *. lia.
    + rewrite length_app. cbn [length]. lia.
    + apply Forall_app. split; [done|]. by constructor.
    + intros Hp. exfalso. assert (0 < total (past 3) (mkToken (RReceiver None true (Some id)) Outside :: ts))%Z as H3.
      { rewrite total_cons in *. cbn_counts. assert (total (past 7) ts ≤ total (past 3) ts)%Z; [|lia].
        apply total_le. intros t. unfold past. destruct (tk_role t); [|done..]. destruct p; cbn; lia. }
      apply i_waited0 in H3. rewrite total_cons in H3. cbn_counts. lia.
    + destruct i_trace0 as (taken & He & Hi & Hf). exists taken. rewrite He, app_assoc. split; [done|]. split; [done|].
      rewrite Forall_cons in Hf |- *. destruct Hf. by split.
  - intros [] ? ->; [by apply triple_done|]. eapply triple_seq; [apply spec_release_receiver|]. intros [] ? ->. by apply triple_done.
Qed.

(** *** Stopping *)

Lemma spec_stop r r' :
  (∀ s ts, hs_stopOnce s = Finished → service_inv s (at_stage r Outside :: ts) → service_inv s (at_stage r' Outside :: ts)) →
  spec (at_stage r Outside) stop (λ _ u, u = at_stage r' Outside).
Proof.
  intros Hr. unfold stop.
  eapply (triple_seq _ _ _ _ _ _ _ (λ (b : bool) t, t = if b then at_stage r Entered else at_stage r' Outside)).
  { apply spec_select.
    - intros s ts HI H. split; [done|]. left. by destruct (hs_stopOnce s).
    - intros s ts a s' HI Hin. destruct (hs_stopOnce s) eqn:Ho; [|by apply not_elem_of_nil in Hin|].
      + apply list_elem_of_singleton in Hin as [= -> ->]. exists (at_stage r Entered). split; [|done]. bounds ts. unfold at_stage in *.
        solve_inv HI.
      + apply list_elem_of_singleton in Hin as [= -> ->]. exists (at_stage r' Outside). split; [|done]. by apply Hr. }
  intros [] ? ->; [|by apply triple_done].
  eapply triple_seq; [apply (spec_update _ _ (at_stage r AdmissionStopped)); intros s ts HI; unfold at_stage in *; solve_inv HI|]. intros [] ? ->.
  eapply triple_seq; [apply (spec_update _ _ (at_stage r ListenerClosed)); intros s ts HI; unfold at_stage in *; solve_inv HI|]. intros [] ? ->.
  eapply triple_seq; [by apply (triple_answer _ _ _ _ _ _ None (λ _ u, u = at_stage r ListenerClosed))|]. intros err ? ->.
  eapply triple_seq; [apply (spec_on_error _ err), spec_logFailure|]. intros [] ? ->.
  apply spec_update. intros s ts HI. apply Hr; [done|]. bounds ts. unfold at_stage in *.
  assert (hs_stopOnce s = Running) as Ho.
  { pose proof (i_once _ _ HI) as H. rewrite total_cons in H. cbn_counts. destruct (hs_stopOnce s); cbn [running_of] in H; [lia|done|lia]. }
  solve_inv HI; intros _; [apply i_stopping0|apply i_closing0]; left; rewrite total_cons; cbn_counts; lia.
Qed.

(** *** One connection *)

Lemma spec_answer t (X : Set) (x0 : X) : spec t (answer X) (λ _ u, u = t).
Proof. by apply (triple_answer _ _ _ _ t X x0 (λ _ u, u = t)). Qed.
(** The next command of a sequence, by its specification. *)
Ltac next lem := eapply triple_seq; [apply lem|]; intros ? ? ->.

Lemma spec_write_all t fuel : ∀ remaining, spec t (write_all fuel remaining) (λ _ u, u = t).
Proof.
  induction fuel as [|fuel IH]; intros remaining; [by apply triple_done|]. destruct remaining as [|x remaining]; [by apply triple_done|].
  cbn [write_all]. next (spec_answer t (Z * option goerror) (0%Z, None)). case_match; [by apply triple_done|]. case_match; [by apply triple_done|]. apply IH.
Qed.

Lemma spec_handleControl t (handler : option ControlHandler) m :
  (∀ h, handler = Some h → spec t (h m) (λ _ u, u = t)) → spec t (handleControl handler m) (λ _ u, u = t).
Proof.
  intros Hh. unfold handleControl. destruct handler as [h|]; [|by apply triple_done]. eapply triple_seq; [by apply Hh|]. intros response ? ->.
  destruct response as [[|x response]|]; [by apply triple_done| |by apply triple_done].
  next (spec_answer t (option goerror) None). case_match; [by apply triple_done|]. eapply triple_seq; [apply spec_write_all|]. intros ? ? ->.
  case_match; [by apply triple_done|]. next (spec_answer t bool true). case_match; [by apply triple_done|].
  next (spec_answer t (option goerror) None). case_match; by apply triple_done.
Qed.

Section service.
Context {J : JsonErrorText} {U : UnicodeTables} (ident : Identity).

(** A decoded validation carries its event. *)
Lemma decoded_event payload m : decodePayload payload = Ok m → m_Kind m = KindValidation → is_Some (m_Event m).
Proof.
  unfold decodePayload. destruct (_ || _)%bool; [done|]. destruct (inspectEnvelope payload) as [[fields header]|]; [|done].
  destruct (String.eqb_spec (ce_Kind header) KindValidation) as [|Hk].
  { unfold decodeValidation. destruct (decodeStrict _ _ _) as [env|]; [|done]. destruct (Validate _); [done|]. intros [= <-] _. by eexists. }
  unfold decodeIdentity, decodeShutdown, decodeControl.
  repeat (match goal with |- context [if ?b then _ else _] => destruct b | |- context [match ?x with _ => _ end] => destruct x end; try done).
  all: intros [= <-]; cbn [m_Kind]; done.
Qed.

Abbreviation reading id := (mkToken (RReceiver None true (Some id)) Outside).
Abbreviation receiving := (mkToken (RReceiver None true None) Outside).

Lemma spec_control t m : (∃ r, t = at_stage r Outside) → spec t (control ident m) (λ _ u, u = t).
Proof.
  intros [r ->]. unfold control. destruct (String.eqb _ _); [by apply triple_done|]. eapply triple_seq; [by apply (spec_stop r r)|].
  intros ? ? ->. by apply triple_done.
Qed.

Lemma spec_dispatch m id : (m_Kind m = KindValidation → is_Some (m_Event m)) →
  spec (reading id) (dispatch (Some (control ident)) m id) (λ _ u, u = receiving).
Proof.
  intros Hm. unfold dispatch. destruct (String.eqb_spec (m_Kind m) KindValidation) as [Hk|]; [by apply spec_enqueue, Hm|]. destruct (_ || _)%bool.
  - eapply triple_seq; [apply spec_handleControl; intros h [= <-]; apply spec_control; by eexists|]. intros ? ? ->.
    next (spec_release_receiver id). by apply triple_done.
  - next (spec_release_receiver id). by apply triple_done.
Qed.

Lemma spec_readReserved connection n id : spec (reading id) (readReserved (Some (control ident)) connection n id) (λ _ u, u = receiving).
Proof.
  unfold readReserved. destruct (ReadFull _ _) as [[payload connection']|]; [|next (spec_release_receiver id); by apply triple_done].
  destruct (requireEOF _); [next (spec_release_receiver id); by apply triple_done|].
  destruct (decodePayload payload) as [m|] eqn:E; [|next (spec_release_receiver id); by apply triple_done].
  apply spec_dispatch. by apply decoded_event with payload.
Qed.

Lemma readHeader_bounds r n r' : readHeader r = Ok (n, r') → (1 ≤ n ≤ MaxPayloadSize)%Z.
Proof. intros H. by apply readHeader_ok in H as (_ & ? & _). Qed.

Lemma spec_receive_body : spec receiving (receive_body (Some (control ident))) (λ _ u, u = receiving).
Proof.
  unfold receive_body. next (spec_answer receiving (option goerror) None). case_match; [by apply triple_done|].
  next (spec_answer receiving reader (mkReader [] eof)). destruct (readHeader _) as [[n connection]|] eqn:E; [|by apply triple_done].
  apply readHeader_bounds in E. eapply triple_seq; [apply (spec_reserve n); lia|]. intros r ? ->. destruct r; [apply spec_readReserved|by apply triple_done].
Qed.

Lemma spec_Receive a : spec (mkToken (RReceiver (Some a) true None) Outside) (Receive (Some (control ident)) a)
  (λ _ u, u = mkToken (RReceiver None false None) Outside).
Proof.
  unfold Receive. eapply triple_seq; [apply spec_claim|]. intros ? ? [-> ->]. cbn [negb]. next spec_receive_body.
  next (spec_answer receiving (option goerror) None).
  eapply triple_seq; [apply (spec_take_slot _ (mkToken (RReceiver None false None) Outside)); [done|]; intros s ts HI Hs; solve_inv HI|].
  intros ? ? ->. by apply triple_done.
Qed.

Lemma safe_receiver a : safely (mkToken (RReceiver (Some a) true None) Outside) (receiver_goroutine ident a).
Proof.
  apply safe_finish. next (spec_Receive a). eapply triple_seq; [apply spec_on_error, spec_logFailure|]. intros ? ? ->.
  eapply triple_weaken; [apply (spec_update _ _ (mkToken ROver Outside)); intros s ts HI; bounds ts; solve_inv HI|]. intros ? ? ->. by left.
Qed.

(** *** Accepting *)

Lemma spec_accept_unix t : tk_stage t = Outside → spec t accept_unix (λ _ u, u = t).
Proof.
  intros Ht. unfold accept_unix. eapply (triple_seq _ _ _ _ _ _ _ (λ _ u, u = t)).
  - apply spec_select.
    + intros s ts _. by destruct (hs_closed s).
    + intros s ts a s' HI Hin. exists t. split; [|done]. destruct (hs_closed s); rewrite !elem_of_cons, elem_of_nil in Hin; naive_solver.
  - intros n ? ->. destruct n as [|[|n]]; [by apply triple_done|by apply triple_done|]. next (spec_answer t goerror eof). by apply triple_done.
Qed.

Lemma spec_accept_once : spec (main MAccept) (accept_once ident) (λ _ u, u = main MAccept).
Proof.
  unfold accept_once. eapply triple_seq; [by apply spec_accept_unix|]. intros outcome ? ->. destruct outcome as [|err].
  - eapply triple_seq; [apply spec_Admit|]. intros [a|] ? ->.
    + eapply triple_seq; [apply (spec_update _ _ (main (MAdded a))); intros s ts HI; bounds ts; solve_inv HI|]. intros ? ? ->.
      eapply triple_seq; [apply (spec_go _ (mkToken (RReceiver (Some a) true None) Outside) (main MAccept)); [|apply safe_receiver]|].
      * intros s ts HI. solve_inv HI.
      * intros ? ? ->. by apply triple_done.
    + next spec_logFailure. next (spec_answer (main MAccept) (option goerror) None).
      eapply triple_seq; [apply spec_on_error, spec_logFailure|]. intros ? ? ->. by apply triple_done.
  - destruct (errors_is _ _); [by apply triple_done|]. next spec_logFailure. by apply triple_done.
Qed.

(** *** Writing *)

Abbreviation writer w := (mkToken (RWriter w) Outside).

Lemma events_snoc ds d : events (ds ++ [d]) = events ds ++ events [d].
Proof. apply omap_app. Qed.
Lemma event_of d e : m_Event (d_Message d) = Some e → events [d] = [e].
Proof. intros H. unfold events. cbn. by rewrite H. Qed.

(** Only the writer says anything of the trace. *)
Lemma trace_others s taken ts : (total writer_of ts ≤ 0)%Z → Forall (trace_ok s taken) ts.
Proof.
  intros H. apply Forall_forall. intros t Ht. pose proof (total_elem writer_of ts t (λ t, proj1 (proj2 (proj2 (counts_nonneg t)))) Ht) as Hle.
  assert (writer_of t ≤ 0)%Z as H0 by lia. unfold trace_ok. unfold writer_of in H0. destruct (tk_role t) as [[]| | | | |]; try done; lia.
Qed.

Lemma spec_persist_once : spec (writer WIdle) persist_once (λ _ u, u = writer WIdle).
Proof.
  unfold persist_once.
  eapply (triple_seq _ _ _ _ _ _ _ (λ (r : option Delivery) t, t = writer (match r with Some d => WTaken d | None => WIdle end))).
  { apply spec_select.
    - intros s ts HI H. apply app_nil in H as [H _]. split; [done|]. right. cbn. by destruct (write_done s).
    - intros s ts a s' HI [Hin|Hin]%elem_of_app.
      + destruct (write_done s); [|by apply not_elem_of_nil in Hin]. apply list_elem_of_singleton in Hin as [= -> ->]. by exists (writer WIdle).
      + destruct (hs_completed s) as [|d rest] eqn:Hq; [by apply not_elem_of_nil in Hin|]. apply list_elem_of_singleton in Hin as [= -> ->].
        exists (writer (WTaken d)). split; [|done]. bounds ts. solve_inv HI; rewrite ?Hq in *.
        * intros x. specialize (i_holds0 x). rewrite total_cons in *. cbn_counts. unfold queued in *. cbn [foldr] in *. lia.
        * cbn [length] in *. lia.
        * by apply Forall_cons in i_events0 as [_ ?].
        * destruct i_trace0 as (taken & He & Hi & Hf). apply Forall_cons in Hf as [Hf1 Hf2]. apply Forall_cons in i_events0 as [Hd _].
          exists (taken ++ [d]). rewrite <-app_assoc. split; [done|]. rewrite events_snoc. split; [by apply prefix_app_r|].
          apply Forall_cons. split; [|].
          -- cbn [trace_ok tk_role] in *. split; [done|]. cbn_state. intros Hw. rewrite events_snoc. f_equal. by apply Hf1.
          -- apply trace_others. rewrite total_cons in i_writer0. cbn_counts. pose proof (b2z_bounds (negb (hs_doneWriting s))). lia. }
  intros [d|] ? ->; [|by apply triple_done].
  eapply (triple_seq _ _ _ _ _ _ _ (λ (b : bool) t, t = writer (if b then WSettled d else WInsert d))).
  { apply spec_atomic. intros s ts HI. cbn [fst snd]. exists (writer (if write_done s then WSettled d else WInsert d)). split; [|done].
    bounds ts. destruct (write_done s) eqn:Hw; solve_inv HI.
    - destruct i_trace0 as (taken & He & Hi & Hf). exists taken. split; [done|]. split; [done|]. apply Forall_cons in Hf as [Hf1 Hf2].
      apply Forall_cons. split; [|done]. cbn [trace_ok tk_role]. by rewrite Hw.
    - destruct i_trace0 as (taken & He & Hi & Hf). exists taken. split; [done|]. split; [done|]. apply Forall_cons in Hf as [Hf1 Hf2].
      apply Forall_cons. split; [|done]. cbn [trace_ok tk_role] in *. destruct Hf1 as [Hd Hf1]. split; [done|]. by apply Hf1. }
  intros cancelled ? ->.
  eapply (triple_seq _ _ _ _ _ _ _ (λ _ t, t = writer (WSettled d))).
  { destruct cancelled; [by apply triple_done|].
    destruct (m_Event (d_Message d)) as [e|] eqn:Hd.
    - eapply triple_seq; [apply (spec_update _ _ (writer (WSettled d)))|].
      + intros s ts HI. bounds ts. solve_inv HI. destruct i_trace0 as (taken & He & Hi & Hf). apply Forall_cons in Hf as [[_ Hf1] Hf2].
        rewrite (event_of d e Hd) in Hf1. exists taken. rewrite Hf1. split; [done|]. split; [done|]. apply Forall_cons. split.
        * cbn [trace_ok tk_role]. cbn_state. done.
        * apply trace_others. rewrite total_cons in i_writer0. cbn_counts. pose proof (b2z_bounds (negb (hs_doneWriting s))). lia.
      + intros ? ? ->. next (spec_answer (writer (WSettled d)) (option goerror) None). apply spec_on_error, spec_logDiagnostic.
    - apply spec_update. intros s ts HI. exfalso. destruct (i_trace _ _ HI) as (taken & _ & _ & Hf). apply Forall_cons in Hf as [[Hs _] _].
      rewrite Hd in Hs. by destruct Hs. }
  intros ? ? ->. eapply triple_seq; [by apply (spec_release (d_reservation d) _ (writer WIdle))|]. intros ? ? ->. by apply triple_done.
Qed.

Lemma spec_release_once : spec (main (MDrain None)) release_once
  (λ more t, t = if more : bool then main (MDrain None) else main MDrained).
Proof.
  unfold release_once.
  eapply (triple_seq _ _ _ _ _ _ _ (λ (r : option Delivery) t, t = main (match r with Some d => MDrain (Some (d_reservation d)) | None => MDrained end))).
  { apply spec_atomic. intros s ts HI. bounds ts. destruct (hs_completed s) as [|d rest] eqn:Hq; cbn [fst snd].
    - exists (main MDrained). split; [|done]. solve_inv HI.
    - exists (main (MDrain (Some (d_reservation d)))). split; [|done]. solve_inv HI; rewrite ?Hq in *.
      + intros x. specialize (i_holds0 x). rewrite total_cons in *. cbn_counts. unfold queued in *. cbn [foldr is_id] in *. lia.
      + cbn [length] in *. lia.
      + by apply Forall_cons in i_events0 as [_ ?].
      + destruct i_trace0 as (taken & He & Hi & Hf). exists (taken ++ [d]). rewrite <-app_assoc. split; [done|]. rewrite events_snoc.
        split; [by apply prefix_app_r|]. apply trace_others. rewrite !total_cons in *. cbn_counts.
        rewrite i_written0 in i_writer0 by lia. cbn [negb b2z] in i_writer0. lia. }
  intros [d|] ? ->; [|by apply triple_done].
  eapply triple_seq; [by apply (spec_release (d_reservation d) _ (main (MDrain None)))|]. intros ? ? ->. by apply triple_done.
Qed.

(** *** The rest of the goroutines *)

Lemma safe_after_func : safely (mkToken RAfter Outside) after_func.
Proof.
  apply safe_finish. eapply (triple_seq _ _ _ _ _ _ _ (λ (b : bool) t, t = if b then at_stage RAfter Outside else mkToken ROver Outside)).
  - apply spec_select.
    + intros s ts HI H. apply app_nil in H as [H _]. split; [done|]. right. cbn. by destruct (hs_cancelled s).
    + intros s ts a s' HI [Hin|Hin]%elem_of_app.
      * destruct (hs_cancelled s); [|by apply not_elem_of_nil in Hin]. apply list_elem_of_singleton in Hin as [= -> ->]. by exists (mkToken RAfter Outside).
      * destruct (hs_afterStopped s); [|by apply not_elem_of_nil in Hin]. apply list_elem_of_singleton in Hin as [= -> ->].
        exists (mkToken ROver Outside). split; [|done]. solve_inv HI.
  - intros [] ? ->; [|by apply triple_done; left]. eapply triple_weaken; [apply (spec_stop RAfter ROver)|intros ? ? ->; by left].
    intros s ts _ HI. unfold at_stage in *. solve_inv HI.
Qed.

Lemma safe_canceller : safely (mkToken REnv Outside) canceller.
Proof.
  apply safe_finish. eapply triple_weaken; [apply (spec_update _ _ (mkToken ROver Outside))|intros ? ? ->; by left].
  intros s ts HI. solve_inv HI. destruct i_trace0 as (taken & He & Hi & Hf). exists taken. split; [done|]. split; [done|].
  apply Forall_cons in Hf as [_ Hf]. apply Forall_cons. split; [done|]. eapply Forall_impl; [exact Hf|]. intros [r g]. unfold trace_ok, write_done.
  cbn [tk_role]. cbn_state. destruct r as [[]| |[]| | |]; try done. cbn [orb]. naive_solver.
Qed.

Lemma safe_serve_tail err : safely (main MAccept) (serve_tail err).
Proof.
  unfold serve_tail. match goal with |- safe _ _ _ _ _ (?m ?k) => refine ((_ : spec (main MAccept) m (λ _ t, t = main (MDrain None))) k _) end;
    [|intros ? ? ->; by constructor].
  eapply triple_seq; [apply (spec_stop (RMain MAccept) (RMain MStopped))|]. { intros s ts Ho HI. unfold at_stage in *. solve_inv HI. }
  intros ? ? ->. eapply (triple_seq _ _ _ _ _ _ _ (λ _ t, t = main MWaited)).
  { apply spec_select.
    - intros s ts HI H. split; [done|]. right. cbn. by destruct (Z.eqb_spec (hs_receivers s) 0).
    - intros s ts outcome s' HI Hin. destruct (Z.eqb_spec (hs_receivers s) 0); [|by apply not_elem_of_nil in Hin].
      apply list_elem_of_singleton in Hin as [= -> ->]. exists (main MWaited). split; [|done]. bounds ts. solve_inv HI. }
  intros ? ? ->. eapply triple_seq; [apply (spec_update _ _ (main MReceiversCancelled)); intros s ts HI; bounds ts; solve_inv HI|].
  intros ? ? ->. eapply triple_seq; [apply (spec_update _ _ (main MWritesCancelled)); intros s ts HI; bounds ts; solve_inv HI|].
  { destruct i_trace0 as (taken & He & Hi & Hf). exists taken. split; [done|]. split; [done|].
    apply Forall_cons in Hf as [_ Hf]. apply Forall_cons. split; [done|]. eapply Forall_impl; [exact Hf|]. intros [r g]. unfold trace_ok, write_done.
    cbn [tk_role]. cbn_state. rewrite orb_true_r. destruct r as [[]| |[]| | |]; try done; naive_solver. }
  intros ? ? ->. apply spec_select.
  - intros s ts HI H. split; [done|]. right. cbn. by destruct (hs_doneWriting s).
  - intros s ts outcome s' HI Hin. destruct (hs_doneWriting s) eqn:Hd; [|by apply not_elem_of_nil in Hin].
    apply list_elem_of_singleton in Hin as [= -> ->]. exists (main (MDrain None)). split; [|done]. bounds ts. solve_inv HI.
Qed.

Lemma safe_serve_end err : safely (main MDrained) (serve_end err).
Proof.
  apply safe_finish. eapply triple_seq; [apply (spec_update _ _ (main MDrained)); intros s ts HI; solve_inv HI|].
  intros ? ? ->. eapply triple_seq; [apply (spec_update _ _ (main MDrained)); intros s ts HI; solve_inv HI|].
  { destruct i_trace0 as (taken & He & Hi & Hf). exists taken. split; [done|]. split; [done|].
    apply Forall_cons in Hf as [_ Hf]. apply Forall_cons. split; [done|]. eapply Forall_impl; [exact Hf|]. intros [r g]. unfold trace_ok, write_done.
    cbn [tk_role]. cbn_state. rewrite orb_true_r. destruct r as [[]| |[]| | |]; try done; naive_solver. }
  intros ? ? ->. eapply triple_seq; [apply (spec_update _ _ (main MDrained)); intros s ts HI; bounds ts; solve_inv HI|].
  intros ? ? ->. eapply triple_weaken; [apply (spec_update _ _ (main MReturned))|intros ? ? ->; by right].
  intros s ts HI. bounds ts. solve_inv HI. split; [|by eexists]. intros _. rewrite total_cons. cbn_counts. lia.
Qed.

Lemma safe_code l t : head l t → safely t (code ident l).
Proof.
  destruct l as [| |err]; intros ->; cbn [code].
  - apply spec_accept_once. intros [err|] ? ->; [apply safe_serve_tail|by constructor].
  - apply spec_persist_once. intros [] ? ->; [by constructor|]. apply safe_finish.
    eapply triple_weaken; [apply (spec_update _ _ (mkToken ROver Outside))|intros ? ? ->; by left].
    intros s ts HI. bounds ts. bound (b2z_bounds (negb (hs_doneWriting s))). solve_inv HI.
  - apply spec_release_once. intros [] ? ->; [by constructor|apply safe_serve_end].
Qed.

Lemma safe_serve : safely (main MStart) serve.
Proof.
  unfold serve. match goal with |- safe _ _ _ _ _ (?m ?k) => refine ((_ : spec (main MStart) m (λ _ t, t = main MAccept)) k _) end;
    [|intros ? ? ->; by constructor].
  eapply triple_seq; [apply (spec_go _ (writer WIdle) (main MAccept)); [intros s ts HI; solve_inv HI|by constructor]|].
  intros ? ? ->. apply (spec_go _ (mkToken RAfter Outside) (main MAccept)); [intros s ts HI; solve_inv HI|apply safe_after_func].
Qed.

Lemma start_inv : service_inv initial_state [main MStart; mkToken REnv Outside].
Proof.
  constructor; try done; try (by intros ?%Z.lt_irrefl).
  - apply Nat.le_0_l.
  - by intros [?%Z.lt_irrefl|?].
  - by intros [?%Z.lt_irrefl|?].
  - split; [by intros [? ?]|by intros ?%Z.lt_irrefl].
  - exists []. split; [done|]. split; [done|]. by repeat constructor.
Qed.

(** Every reachable configuration satisfies the invariant for some tokens. *)
Lemma reachable_inv ts s : reachable ident (ts, s) →
  ∃ tokens, Forall2 safely tokens ts ∧ service_inv s tokens.
Proof.
  intros H. eapply (covered_runs service_inv blocked over head (code ident)) in H; [exact H|exact safe_code|].
  exists [main MStart; mkToken REnv Outside]. split; [|apply start_inv].
  constructor; [apply safe_serve|]. constructor; [apply safe_canceller|constructor].
Qed.

(** ** Guarantees *)

(** C7: at every moment the service is within its limits: at most eight connections hold a
    slot, the reserved bytes are those of the open reservations and at most 64 MiB, so
    that the uint64 arithmetic never wraps, at most eight deliveries are queued, nothing
    panics, and receivers are cancelled only when all of them have ended. *)
Theorem service_bounded ts s (H : reachable ident (ts, s)) :
  (0 ≤ hs_slots s ≤ defaultReceiverLimit)%Z ∧
  hs_reservedBytes s = open_bytes (hs_reservations s) ∧ (0 ≤ hs_reservedBytes s ≤ defaultByteLimit)%Z ∧
  (length (hs_completed s) ≤ defaultQueueSize)%nat ∧ hs_panicked s = false ∧
  (hs_receiveCancelled s = true → hs_receivers s = 0%Z).
Proof.
  destruct (reachable_inv ts s H) as (tokens & _ & HI). bounds tokens. pose proof (open_bytes_nonneg _ (i_sizes _ _ HI)).
  destruct HI. repeat split; try done; try lia. intros Hr. rewrite i_receivers0. auto.
Qed.

(** C29: when [serve] has returned, it has given everything back: no slot, reservation,
    delivery or receiver is left, the writer has ended, and admission is closed. *)
Theorem service_returns_clean ts s (H : reachable ident (ts, s)) (Hr : is_Some (hs_returned s)) :
  hs_slots s = 0%Z ∧ hs_receivers s = 0%Z ∧ hs_reservedBytes s = 0%Z ∧ hs_completed s = [] ∧
  (∀ id r, hs_reservations s !! id = Some r → r.2 = true) ∧
  hs_doneWriting s = true ∧ hs_stopped s = true ∧ hs_closed s = true.
Proof.
  destruct (reachable_inv ts s H) as (tokens & _ & HI). bounds tokens. apply (i_returned _ _ HI) in Hr.
  assert (∀ n, (n ≤ 8)%Z → (0 < total (past n) tokens)%Z) as Hp.
  { intros n Hn. apply Z.lt_le_trans with (total (past 8) tokens); [done|]. apply total_le. intros t. unfold past.
    destruct (tk_role t); [|done..]. destruct (Z.leb_spec 8 (rank p)), (Z.leb_spec n (rank p)); cbn [b2z]; lia. }
  pose proof (i_waited _ _ HI (Hp 3%Z ltac:(lia))) as Hflight. pose proof (i_written _ _ HI (Hp 6%Z ltac:(lia))) as Hdone.
  pose proof (i_emptied _ _ HI (Hp 7%Z ltac:(lia))) as Hempty. pose proof (i_halted _ _ HI (Hp 2%Z ltac:(lia))) as Hhalt.
  pose proof (i_writer _ _ HI) as Hwriter. rewrite Hdone in Hwriter. cbn [negb b2z] in Hwriter.
  pose proof (idle_slots tokens) as Hslots. pose proof (i_main _ _ HI) as Hmain. pose proof (i_slots _ _ HI) as Hs.
  assert (∀ id, is_open (hs_reservations s) id = false) as Hclosed.
  { intros id. pose proof (i_holds _ _ HI id) as Hh. pose proof (idle_holds id tokens) as Hi. pose proof (total_nonneg (holds id) tokens (holds_nonneg id)).
    rewrite Hempty in Hh. unfold queued in Hh. cbn [foldr] in Hh. destruct (is_open _ _); [|done]. cbn [b2z] in Hh. lia. }
  repeat split; [lia|rewrite (i_receivers _ _ HI); lia| |done| |done| |].
  - rewrite (i_bytes _ _ HI). by apply open_bytes_closed.
  - intros id [n []] E; [done|]. specialize (Hclosed id). unfold is_open in Hclosed. by rewrite E in Hclosed.
  - apply (i_stopping _ _ HI). by right.
  - apply (i_closing _ _ HI). by right.
Qed.

(** Events reach the store in the order in which they were received and at most once:
    what was inserted is a prefix of what was queued. *)
Theorem service_order ts s (H : reachable ident (ts, s)) : hs_inserted s `prefix_of` events (hs_enqueued s).
Proof.
  destruct (reachable_inv ts s H) as (tokens & _ & HI). destruct (i_trace _ _ HI) as (taken & -> & Hp & _).
  unfold events. rewrite omap_app. by apply prefix_app_r.
Qed.

(** C25: a configuration that cannot move has returned: before that some goroutine can always
    take a step, whatever waits for whatever else. *)
Theorem service_never_stuck ts s (H : reachable ident (ts, s)) (Hstuck : ∀ c, ¬ step (code ident) (ts, s) c) :
  is_Some (hs_returned s).
Proof.
  destruct (reachable_inv ts s H) as (tokens & Hs & HI). pose proof (stuck_tokens _ _ _ _ _ ts s tokens Hstuck Hs HI) as Hall.
  rewrite Forall_forall in Hall.
  assert (hs_stopOnce s ≠ Running) as Hrun.
  { intros Ho. pose proof (i_once _ _ HI) as Honce. rewrite Ho in Honce. destruct (total_pos once_of tokens) as (t & Ht & Hpos); [rewrite Honce; done|].
    unfold once_of in Hpos. destruct (Hall t Ht) as [[->| ->]|[Hg _]]; [done|done|]. by rewrite Hg in Hpos. }
  destruct (total_pos main_of tokens) as (t & Ht & Hpos); [rewrite (i_main _ _ HI); done|].
  assert (∀ n, (0 < past n t)%Z → (0 < total (past n) tokens)%Z) as Hpast.
  { intros n Hn. pose proof (total_elem (past n) tokens t (λ t, proj1 (past_bounds n t)) Ht). lia. }
  destruct (Hall t Ht) as [[->| ->]|[Hg [|Hb]]]; [done| |done|].
  { apply (i_returned _ _ HI), Hpast. done. }
  exfalso. unfold main_of in Hpos. destruct t as [[p| | | | |] g]; cbn [tk_role tk_stage] in *; try done; try lia. destruct p; try done.
  - destruct (total_pos flight_of tokens) as (u & Hu & Hf).
    { pose proof (i_receivers _ _ HI). bounds tokens. lia. }
    unfold flight_of in Hf. destruct (Hall u Hu) as [[->| ->]|[_ [|Hw]]]; [done|done|done|]. destruct u as [[[]| | | | |] ?]; cbn [tk_role] in *; try lia; done.
  - destruct (total_pos writer_of tokens) as (u & Hu & Hf); [rewrite (i_writer _ _ HI), Hb; done|].
    unfold writer_of in Hf. destruct (Hall u Hu) as [[->| ->]|[_ [|Hw]]]; [done|done|done|].
    assert (write_done s = true) as Hd.
    { unfold write_done. rewrite (i_writes _ _ HI); [by rewrite orb_true_r|]. by apply Hpast. }
    destruct u as [[[]| |[]| | |] ?]; cbn [tk_role] in *; try lia; try done. by rewrite Hd in Hw.
Qed.
End service.

(** ** An execution *)

Module ServiceExamples.
Definition ident : Identity := mkIdentity "abc" false 7 (mkTime 1 0).
#[local] Instance texts : JsonErrorText := λ _, "json error".
#[local] Existing Instance basic_unicode.

(** Goroutines up to their next step, and the state as data. *)
Ltac weak l :=
  lazymatch l with
  | ?p :: ?l' => let p' := eval hnf in p in let l'' := weak l' in constr:(p' :: l'')
  | _ => l
  end.
Ltac norm :=
  lazymatch goal with
  | |- rtc ?R (?ts, ?s) ?c =>
      let s' := eval vm_compute in s in
      let ts' := eval cbn [insert list_insert app] in ts in
      let ts'' := weak ts' in
      change (rtc R (ts'', s') c)
  end.
Ltac act i := eapply rtc_l; [eapply (step_act _ _ _ i); [reflexivity|left]|norm].
Ltac act_second i := eapply rtc_l; [eapply (step_act _ _ _ i); [reflexivity|right; left]|norm].
Ltac reply i x := eapply rtc_l; [eapply (step_ask _ _ _ i _ _ x); reflexivity|norm].
Ltac spawn i := eapply rtc_l; [eapply (step_go _ _ _ i); reflexivity|norm].
Ltac jump i := eapply rtc_l; [eapply (step_jump _ _ _ i); reflexivity|norm].

(** The frame of [IpcExamples.stream], read in the steps of a receiver. *)
Definition payload : list ascii := Eval vm_compute in drop 8 IpcExamples.frame.
Definition size : Z := Eval vm_compute in Z.of_nat (length payload).
Definition message : Message := mkMessage KindValidation (Some IpcExamples.event) None false.
Lemma header_read : readHeader IpcExamples.stream = Ok (size, mkReader [payload] eof).
Proof. vm_compute. reflexivity. Qed.
Lemma payload_read : ReadFull (Z.to_nat size) (mkReader [payload] eof) = Ok (payload, mkReader [] eof).
Proof. vm_compute. reflexivity. Qed.
Lemma payload_decoded : decodePayload payload = Ok message.
Proof. vm_compute. reflexivity. Qed.
Lemma reserved_read control id : readReserved control (mkReader [payload] eof) size id = dispatch control message id.
Proof. unfold readReserved. by rewrite payload_read, payload_decoded. Qed.

(** One validation is received and inserted, then the listener fails: the service ends,
    every goroutine is over, and no step is left. *)
Lemma full_run : ∃ s, reachable ident ([Halt; Halt; Halt; Halt; Halt], s) ∧ hs_returned s = Some None ∧ hs_inserted s = [IpcExamples.event].
Proof.
  eexists. split; [|split].
  - unfold reachable, runs, start. norm. do 2 spawn 0%nat. jump 0%nat. act 0%nat. do 5 act 0%nat. spawn 0%nat. jump 0%nat.
    act 4%nat. reply 4%nat (@None goerror). 
    eapply rtc_l; [eapply (step_ask _ _ _ 4 _ _ IpcExamples.stream); reflexivity|]. cbn [insert list_insert app]. cbv beta. rewrite header_read. cbv iota beta.
    eapply rtc_l; [eapply (step_act _ _ _ 4); [reflexivity|left]|]. cbn [insert list_insert app]. cbv beta iota. rewrite reserved_read. norm. act 4%nat. reply 4%nat (@None goerror). do 2 act 4%nat.
    jump 2%nat. do 3 act 2%nat. reply 2%nat (@None goerror). act 2%nat.
    act_second 0%nat. reply 0%nat (ErrSentinel NetErrClosed). do 3 act 0%nat. reply 0%nat (@None goerror). do 4 act 0%nat.
    jump 2%nat. do 2 act 2%nat. act 0%nat. jump 0%nat. do 5 act 0%nat. act 3%nat. act 1%nat. apply rtc_refl.
  - reflexivity.
  - reflexivity.
Qed.

Lemma service_bounded_witness : ∃ ts s, reachable ident (ts, s) ∧ hs_inserted s ≠ [] ∧ (0 ≤ hs_reservedBytes s ≤ defaultByteLimit)%Z.
Proof.
  destruct full_run as (s & H & _ & Hi). exists [Halt; Halt; Halt; Halt; Halt], s. split; [exact H|]. split; [by rewrite Hi|].
  apply (service_bounded ident _ s H).
Defined.
Lemma service_returns_clean_witness : ∃ ts s, reachable ident (ts, s) ∧ hs_returned s = Some None ∧ hs_reservedBytes s = 0%Z.
Proof.
  destruct full_run as (s & H & Hr & _). exists [Halt; Halt; Halt; Halt; Halt], s. split; [exact H|]. split; [exact Hr|].
  apply (service_returns_clean ident _ s H). by rewrite Hr.
Defined.
Lemma service_order_witness : ∃ ts s, reachable ident (ts, s) ∧ hs_inserted s = [IpcExamples.event] ∧ [IpcExamples.event] `prefix_of` events (hs_enqueued s).
Proof.
  destruct full_run as (s & H & _ & Hi). exists [Halt; Halt; Halt; Halt; Halt], s. split; [exact H|]. split; [exact Hi|].
  rewrite <-Hi. apply (service_order ident _ s H).
Defined.
Lemma halted_stuck s c : ¬ step (code ident) ([Halt; Halt; Halt; Halt; Halt], s) c.
Proof.
  assert (∀ i p, [Halt; Halt; Halt; Halt; Halt] !! i = Some p → p = (Halt : proc history_state label)) as Hh.
  { intros i p Hi. do 5 (destruct i as [|i]; [by injection Hi|]). done. }
  intros H. inversion H as [ts s0 i run p s' Hi|ts s0 i X k x Hi|ts s0 i child nx Hi|ts s0 i l Hi]; by apply Hh in Hi.
Qed.
Lemma service_never_stuck_witness : ∃ ts s, reachable ident (ts, s) ∧ (∀ c, ¬ step (code ident) (ts, s) c) ∧ is_Some (hs_returned s).
Proof.
  destruct full_run as (s & H & _ & _). exists [Halt; Halt; Halt; Halt; Halt], s. split; [exact H|]. split; [apply halted_stuck|].
  apply (service_never_stuck ident _ s H). apply halted_stuck.
Defined.
End ServiceExamples.
