(* ===== verification/Hooks.v ===== *)
(** * Hook installation

    [client install-hooks] of [internal/client/client.go] and
    [native_extensions.go]: the git hooks and their sidecars, the git guard, the
    agent hook with its entries in the settings of Claude and Codex, and the
    extensions for OpenCode, Pi and OMP.

    The installer runs over the world of [GoOS] with the two output streams as its
    state.  git, the environment variables and the embedded assets
    ([hookassets/]) are parameters.  Paths are the ones the code computes; modes
    are not modelled. *)

From stdpp Require Import base gmap strings list fin_maps.
From Stdlib Require Import ZArith Lia Ascii.
From S2P Require Import Prelude GoStrings GoErrors GoFloat GoJson GoJsonPrint GoOS.
Set Default Goal Selector "!".

Definition LF : string := String "010"%char "".

(** ** Names and markers *)

Definition hookProductPrefix : string := "agent-fitness-functions".
Definition predecessorProductPrefix : string := "stack-fitness" +:+ "-functions".
Definition gitGuardName : string := hookProductPrefix +:+ "-git-guard".
Definition legacyGitGuardName : string := "calm-git-guard".
Definition agentHookName : string := hookProductPrefix +:+ "-pre-tool-use".

Definition gitHookMarkerPrefixes : list string := ["CALM"; predecessorProductPrefix; hookProductPrefix].
Definition sidecarMarkerPrefixes : list string := ["CALM"; predecessorProductPrefix; hookProductPrefix].
Definition gitGuardNameHistory : list string :=
  [legacyGitGuardName; predecessorProductPrefix +:+ "-git-guard"; gitGuardName].
Definition agentHookNameHistory : list string :=
  [predecessorProductPrefix +:+ "-pre-tool-use"; agentHookName].
Definition sidecarNamePrefixHistory : list string := ["calm"; predecessorProductPrefix; hookProductPrefix].

Definition managedHookMarkers (hook : string) : list string :=
  (λ prefix, prefix +:+ " " +:+ hook +:+ " hook") <$> gitHookMarkerPrefixes.
Definition sidecarHookMarkers (hook : string) : list string :=
  (λ prefix, "# " +:+ prefix +:+ " " +:+ hook +:+ " hook (sidecar)") <$> sidecarMarkerPrefixes.
Definition sidecarHookMarker (hook : string) : string :=
  "# " +:+ hookProductPrefix +:+ " " +:+ hook +:+ " hook (sidecar)".
Definition sidecarHookNames (hook : string) : list string :=
  (λ prefix, prefix +:+ "-" +:+ hook) <$> sidecarNamePrefixHistory.
Definition sidecarHookName (hook : string) : string := hookProductPrefix +:+ "-" +:+ hook.

Definition knownOwnerSignature (content : string) : bool :=
  contains content "BEGIN BEADS INTEGRATION" || contains content "lefthook run".
Definition chainSiblingSuffixes : list string := [".old"; ".lefthook"].

Definition containsAny (content : string) (markers : list string) : bool :=
  existsb (contains content) markers.
Definition hookHasSidecar (content hookName : string) : bool :=
  containsAny content (sidecarHookMarkers hookName).
Definition hookIsManaged (content hookName : string) : bool :=
  containsAny content (managedHookMarkers hookName).

(** ** Editing a host hook *)

(** [bytes.ReplaceAll] for a non-empty [old]; [skip] bytes of a match are left. *)
Fixpoint replace_go (old new : list ascii) (skip : nat) (l : list ascii) : list ascii :=
  match l with
  | [] => []
  | a :: l' =>
      match skip with
      | S skip' => replace_go old new skip' l'
      | O => if decide (old `prefix_of` l) then new ++ replace_go old new (length old - 1) l'
             else a :: replace_go old new 0 l'
      end
  end.
Definition replace_all (s old new : string) : string :=
  of_bytes (replace_go (bytes old) (bytes new) 0 (bytes s)).

(** The lines of a text with the offset at which each starts. *)
Fixpoint with_offsets (start : nat) (lines : list string) : list (nat * string) :=
  match lines with
  | [] => []
  | line :: rest => (start, line) :: with_offsets (start + String.length line + 1) rest
  end.

Definition terminalInsertionPoint (content : string) : option nat :=
  match last (filter (λ p, trim_space p.2 ≠ "") (with_offsets 0 (split content "010"%char))) with
  | None => None
  | Some (lastStart, lastLine) =>
      let trimmed := trim_space lastLine in
      if has_prefix trimmed "#" then None
      else if has_prefix trimmed "exec " || has_prefix trimmed "exit " then Some lastStart
      else None
  end.

Definition sidecarStatusVar : string := "__agent_fitness_functions_sidecar_status".
Definition dquote : string := String "034"%char "".

Section quoted.
Context {U : UnicodeTables}.

Definition sidecarCallBlock (hookName sidecarPath : string) : string :=
  LF +:+ sidecarHookMarker hookName +:+ LF +:+ quote sidecarPath +:+ LF
  +:+ sidecarStatusVar +:+ "=$?" +:+ LF
  +:+ "if [ " +:+ dquote +:+ "$" +:+ sidecarStatusVar +:+ dquote +:+ " -ne 0 ]; then" +:+ LF
  +:+ "  exit " +:+ dquote +:+ "$" +:+ sidecarStatusVar +:+ dquote +:+ LF +:+ "fi" +:+ LF.

(** The host hook with the call before its terminal statement, if there is one. *)
Definition with_call (content block : string) : string :=
  match terminalInsertionPoint content with
  | Some offset => str_take offset content +:+ block +:+ of_bytes (drop offset (bytes content))
  | None => content +:+ block
  end.

(** The loop of [upgradeSidecarHostReferences]: the content and whether it changed. *)
Fixpoint upgrade_markers (hooksDir currentMarker currentPath : string) (markers names : list string)
    (content : string) (changed : bool) : string * bool :=
  match markers, names with
  | marker :: markers', name :: names' =>
      if String.eqb marker currentMarker || negb (contains content marker)
      then upgrade_markers hooksDir currentMarker currentPath markers' names' content changed
      else upgrade_markers hooksDir currentMarker currentPath markers' names'
             (replace_all (replace_all content marker currentMarker)
                (quote (path_join [hooksDir; name])) (quote currentPath)) true
  | _, _ => (content, changed)
  end.
End quoted.

(** ** The settings of an agent *)

Record claudeHookSpec := mkHookSpec {
  spec_entry : json;
  spec_markers : list string;
  spec_name : string;
  spec_command : string;
}.

Definition portableHookCommand (name : string) : string :=
  dquote +:+ "$(git rev-parse --git-path hooks/" +:+ name +:+ ")" +:+ dquote.
Definition claudeCommandEntry (matcher command : string) : json :=
  JObj [("hooks", JArr [JObj [("command", JStr command); ("type", JStr "command")]]);
        ("matcher", JStr matcher)].
Definition gitGuardSpec (name : string) : claudeHookSpec :=
  let command := portableHookCommand name in
  mkHookSpec (claudeCommandEntry "Bash" command) gitGuardNameHistory name command.
Definition agentHookSpec (name tool : string) : claudeHookSpec :=
  let command := "AGENT_FITNESS_FUNCTIONS_HISTORY_TOOL=" +:+ tool +:+ " " +:+ portableHookCommand name in
  mkHookSpec (claudeCommandEntry "Edit|Write" command) agentHookNameHistory name command.

(** The settings are a [map[string]any] decoded by [to_any]: an object of them has
    each key once. *)
Abbreviation settings := (gmap string json).

Definition ensureHooksSection (s : settings) : settings :=
  match s !! "hooks" with
  | Some (JObj fs) => members (JObj fs)
  | _ => ∅
  end.
Definition preToolUseEntries (hooks : gmap string json) : list json :=
  match hooks !! "PreToolUse" with
  | Some (JArr l) => l
  | _ => []
  end.

(** The first command of an entry. *)
Definition hookEntryCommand (rawEntry : json) : option string :=
  match rawEntry with
  | JObj fs =>
      match members (JObj fs) !! "hooks" with
      | Some (JArr rawHooks) =>
          first_some (λ rawHook,
            match rawHook with
            | JObj hs => match members (JObj hs) !! "command" with
                         | Some (JStr command) => if String.eqb command "" then None else Some command
                         | _ => None
                         end
            | _ => None
            end) rawHooks
      | _ => None
      end
  | _ => None
  end.

Definition commandMatchesMarker (command : string) (markers : list string) : bool :=
  existsb (contains command) markers.

Fixpoint find_entry (index : nat) (preToolUse : list json) (markers : list string) : option (nat * string) :=
  match preToolUse with
  | [] => None
  | rawEntry :: rest =>
      match hookEntryCommand rawEntry with
      | Some command => if commandMatchesMarker command markers then Some (index, command)
                        else find_entry (S index) rest markers
      | None => find_entry (S index) rest markers
      end
  end.
Definition findClaudeHookEntry (preToolUse : list json) (markers : list string) : option (nat * string) :=
  find_entry 0 preToolUse markers.

(** The settings with [hooks.PreToolUse] replaced: [hooks] is the map inside them. *)
Definition set_entries (s : settings) (hooks : gmap string json) (entries : list json) : settings :=
  <["hooks" := obj_of (<["PreToolUse" := JArr entries]> hooks)]> s.

Definition upsertClaudeHook (s : settings) (spec : claudeHookSpec) : string * settings :=
  let hooks := ensureHooksSection s in
  let preToolUse := preToolUseEntries hooks in
  match findClaudeHookEntry preToolUse (spec_markers spec) with
  | Some (index, command) =>
      (if String.eqb command (spec_command spec) then spec_name spec +:+ " already configured"
       else "updated " +:+ spec_name spec +:+ " path",
       set_entries s hooks (<[index := spec_entry spec]> preToolUse))
  | None =>
      ("added " +:+ spec_name spec +:+ " to PreToolUse hooks",
       set_entries s hooks (preToolUse ++ [spec_entry spec]))
  end.

(** ** The installer *)

Record streams := mkStreams { s_stdout : list string; s_stderr : list string }.
Abbreviation HM := (M streams).

Definition print_out (text : string) : HM unit := λ w,
  (Returned tt, set_app (mkStreams (s_stdout (w_app w) ++ [text]) (s_stderr (w_app w))) w).
Definition print_err (text : string) : HM unit := λ w,
  (Returned tt, set_app (mkStreams (s_stdout (w_app w)) (s_stderr (w_app w) ++ [text])) w).

(** Continue unless the call failed. *)
Notation "'try!' m 'in' k" :=
  (bind m (λ failed, match failed with Some err => ret (Some err) | None => k end))
  (at level 10, m at level 100, k at level 200) : go_scope.

Section files.
Context {E : OSEnv}.

(** [os.ReadFile]: a read that fails in the middle returns what was read. *)
Definition is_a_directory (op path : string) : goerror := ErrPath op path (ErrNew "is a directory").
Definition read_file (path : string) : HM (string * option goerror) :=
  let! opened := os_op "open" path (λ e w, (Err e, w))
    (λ w, match w_files w !! path with
          | Some content => (Ok content, w)
          | None => (Err (if decide (path ∈ w_dirs w) then is_a_directory "read" path
                          else not_exist "open" path), w)
          end) in
  match opened with
  | Err e => ret ("", Some e)
  | Ok content =>
      os_op "read" path (λ e w, ((str_take (os_written (w_clock w)) content, Some e), w))
        (λ w, ((content, None), w))
  end.

(** [os.WriteFile]: open and truncate, write, close. *)
Definition open_truncate (path : string) : HM (option goerror) :=
  os_op "open" path (λ e w, (Some e, w))
    (λ w, if decide (path ∈ w_dirs w) then (Some (is_a_directory "open" path), w)
          else (None, set_files (<[path := ""]> (w_files w)) w)).
Definition write_file (path content : string) : HM (option goerror) :=
  try! open_truncate path in
  let! failed := Write path content in
  let! closed := Close path in
  ret (match failed with Some err => Some err | None => closed end).

(** [file.Write] on a file opened with [O_APPEND]. *)
Definition open_append (path : string) : HM (option goerror) :=
  os_op "open" path (λ e w, (Some e, w))
    (λ w, match w_files w !! path with
          | Some _ => (None, w)
          | None => (Some (if decide (path ∈ w_dirs w) then is_a_directory "open" path
                           else not_exist "open" path), w)
          end).
Definition append_bytes (path content : string) : HM (option goerror) :=
  let extend text w := set_files (<[path := default "" (w_files w !! path) +:+ text]> (w_files w)) w in
  os_op "write" path (λ e w, (Some e, extend (str_take (os_written (w_clock w)) content) w))
    (λ w, (None, extend content w)).
Definition appendFile (path content : string) : HM (option goerror) :=
  let! opened := open_append path in
  match opened with
  | Some err => ret (Some (ErrWrap ("opening " +:+ path +:+ " for append: ") err ""))
  | None =>
      let! failed := append_bytes path content in
      let! closed := Close path in
      let err := (λ e, ErrWrap ("appending " +:+ path +:+ ": ") e "") <$> failed in
      ret (match closed with
           | Some e => errors_join [err; Some (ErrWrap ("closing " +:+ path +:+ ": ") e "")]
           | None => err
           end)
  end.

(** [os.Remove]: a file or an empty directory. *)
Definition remove_file (path : string) : HM (option goerror) :=
  os_op "remove" path (λ e w, (Some e, w))
    (λ w, match w_files w !! path with
          | Some _ => (None, set_files (delete path (w_files w)) w)
          | None =>
              if decide (path ∈ w_dirs w) then
                match children path w with
                | [] => (None, set_dirs (w_dirs w ∖ {[path]}) w)
                | _ => (Some (ErrPath "remove" path (ErrNew "directory not empty")), w)
                end
              else (Some (not_exist "remove" path), w)
          end).
End files.

Section installer.
Context {E : OSEnv} {U : UnicodeTables} {J : JsonErrorText} {N : JsonNumberText}.
(** The embedded files, the environment, and git: its combined output and how it ended. *)
Context (embeddedHooks : string → option string) (getenv : string → string).
Context (git : string → list string → external (string * option goerror)).

Definition gitOutput (repo : string) (args : list string) : HM (result goerror string) :=
  let! ran := call (git repo args) in
  ret (match ran with
       | (output, Some err) =>
           let detail := trim_space output in
           Err (if String.eqb detail "" then err else ErrWrap "" err (": " +:+ detail))
       | (output, None) => Ok (trim_space output)
       end).

Definition writeEmbeddedFile (embeddedPath targetPath : string) : HM (option goerror) :=
  match embeddedHooks embeddedPath with
  | None => ret (Some (ErrWrap ("reading embedded " +:+ embeddedPath +:+ ": ")
                         (not_exist "open" embeddedPath) ""))
  | Some content =>
      let! failed := write_file targetPath content in
      ret ((λ err, ErrWrap ("writing " +:+ targetPath +:+ ": ") err "") <$> failed)
  end.
Definition writeEmbeddedExecutable (embeddedPath targetPath : string) : HM (option goerror) :=
  writeEmbeddedFile embeddedPath targetPath.
Definition writeFormatter (hooksDir : string) : HM (option goerror) :=
  writeEmbeddedFile "hookassets/format-violations.py" (path_join [hooksDir; "format-violations.py"]).
Definition writeApplyPatchHelper (hooksDir : string) : HM (option goerror) :=
  writeEmbeddedFile "hookassets/apply-patch-proposals.py" (path_join [hooksDir; "apply-patch-proposals.py"]).

(** *** Sidecars *)

(** A sibling is read only when the host names it. *)
Fixpoint chain_signature (hooksDir hookName content : string) (suffixes : list string) : HM bool :=
  match suffixes with
  | [] => ret false
  | suffix :: rest =>
      let sibling := hookName +:+ suffix in
      if negb (contains content sibling) then chain_signature hooksDir hookName content rest
      else
        let! read := read_file (path_join [hooksDir; sibling]) in
        match read with
        | (siblingContent, None) =>
            if knownOwnerSignature siblingContent then ret true
            else chain_signature hooksDir hookName content rest
        | (_, Some _) => chain_signature hooksDir hookName content rest
        end
  end.
Definition knownOwnerChainSignature (hooksDir hookName content : string) : HM bool :=
  chain_signature hooksDir hookName content chainSiblingSuffixes.

Definition fileHasSidecarMarker (path hookName : string) : HM (result goerror bool) :=
  let! read := read_file path in
  ret (match read with
       | (content, None) => Ok (hookHasSidecar content hookName)
       | (_, Some err) => if errors_is err ErrNotExist then Ok false
                          else Err (ErrWrap ("reading sidecar " +:+ path +:+ ": ") err "")
       end).

Definition replaceOrphanSidecar (path : string) (isCurrent : bool) (embeddedPath : string) : HM (option goerror) :=
  if negb isCurrent then
    let! failed := remove_file path in
    match failed with
    | Some err => ret (Some (ErrWrap ("removing stale sidecar " +:+ path +:+ ": ") err ""))
    | None => let! _ := print_out ("removed stale sidecar " +:+ path +:+ LF) in ret None
    end
  else
    try! writeEmbeddedExecutable embeddedPath path in
    let! _ := print_out ("updated " +:+ path +:+ LF) in ret None.

Fixpoint refresh_orphans (hooksDir hookName embeddedPath : string) (names : list string) : HM (option goerror) :=
  match names with
  | [] => ret None
  | name :: rest =>
      let path := path_join [hooksDir; name] in
      let! matched := fileHasSidecarMarker path hookName in
      match matched with
      | Err err => ret (Some err)
      | Ok false => refresh_orphans hooksDir hookName embeddedPath rest
      | Ok true =>
          try! replaceOrphanSidecar path (String.eqb name (sidecarHookName hookName)) embeddedPath in
          refresh_orphans hooksDir hookName embeddedPath rest
      end
  end.
Definition refreshOrphanSidecars (hooksDir hookName embeddedPath : string) : HM (option goerror) :=
  refresh_orphans hooksDir hookName embeddedPath (sidecarHookNames hookName).

Definition readExistingHook (targetHook hookName : string) : HM (result goerror (option string)) :=
  let! found := Stat targetHook in
  match found with
  | Err err => ret (if errors_is err ErrNotExist then Ok None
                    else Err (ErrWrap ("checking existing " +:+ hookName +:+ " hook: ") err ""))
  | Ok _ =>
      let! read := read_file targetHook in
      ret (match read with
           | (content, None) => Ok (Some content)
           | (_, Some err) => Err (ErrWrap ("reading existing " +:+ hookName +:+ " hook: ") err "")
           end)
  end.

Definition upgradeSidecarHostReferences (targetHook hookName content : string) : HM (option goerror) :=
  let currentMarker := sidecarHookMarker hookName in
  if contains content currentMarker then ret None
  else
    let hooksDir := path_dir targetHook in
    let '(updated, changed) :=
      upgrade_markers hooksDir currentMarker (path_join [hooksDir; sidecarHookName hookName])
        (sidecarHookMarkers hookName) (sidecarHookNames hookName) content false in
    if changed : bool then
      let! failed := write_file targetHook updated in
      ret ((λ err, ErrWrap ("upgrading sidecar reference in " +:+ targetHook +:+ ": ") err "") <$> failed)
    else ret None.

Fixpoint removeStalePredecessorArtifacts (dir : string) (nameHistory : list string) (currentName : string) :
  HM (option goerror) :=
  match nameHistory with
  | [] => ret None
  | name :: rest =>
      if String.eqb name currentName then removeStalePredecessorArtifacts dir rest currentName
      else
        let stalePath := path_join [dir; name] in
        let! failed := remove_file stalePath in
        match failed with
        | Some err =>
            if errors_is err ErrNotExist then removeStalePredecessorArtifacts dir rest currentName
            else ret (Some (ErrWrap ("removing stale predecessor artifact " +:+ stalePath +:+ ": ") err ""))
        | None => removeStalePredecessorArtifacts dir rest currentName
        end
  end.

Definition refreshHookSidecar (targetHook hooksDir hookName embeddedPath content : string) : HM (option goerror) :=
  let sidecar := path_join [hooksDir; sidecarHookName hookName] in
  try! writeEmbeddedExecutable embeddedPath sidecar in
  try! writeFormatter hooksDir in
  try! upgradeSidecarHostReferences targetHook hookName content in
  try! removeStalePredecessorArtifacts hooksDir (sidecarHookNames hookName) (sidecarHookName hookName) in
  let! _ := print_out ("updated " +:+ sidecar +:+ LF) in ret None.

Definition insertHookSidecarCall (targetHook hookName sidecarPath : string) : HM (option goerror) :=
  let! read := read_file targetHook in
  match read with
  | (_, Some err) => ret (Some (ErrWrap ("reading " +:+ targetHook +:+ " for sidecar insertion: ") err ""))
  | (content, None) =>
      let block := sidecarCallBlock hookName sidecarPath in
      match terminalInsertionPoint content with
      | None => appendFile targetHook block
      | Some _ => write_file targetHook (with_call content block)
      end
  end.

Definition appendHookSidecar (targetHook hooksDir hookName embeddedPath : string) : HM (option goerror) :=
  let sidecar := path_join [hooksDir; sidecarHookName hookName] in
  try! writeEmbeddedExecutable embeddedPath sidecar in
  try! writeFormatter hooksDir in
  try! insertHookSidecarCall targetHook hookName sidecar in
  let! _ := print_out ("appended " +:+ hookProductPrefix +:+ " call to " +:+ targetHook
                       +:+ " (sidecar: " +:+ sidecar +:+ ")" +:+ LF) in ret None.

(** *** Git hooks *)

(** The flag says that the existing hook was dealt with. *)
Definition resolveUnmanagedHook (targetHook hooksDir hookName embeddedPath content : string) :
  HM (bool * option goerror) :=
  let! composed :=
    (if knownOwnerSignature content then ret true
     else let! chained := knownOwnerChainSignature hooksDir hookName content in
          ret (chained || String.eqb (getenv "AGENT_FITNESS_FUNCTIONS_HOOK_APPEND") "1")) in
  if composed : bool then
    let! failed := appendHookSidecar targetHook hooksDir hookName embeddedPath in ret (true, failed)
  else if String.eqb (getenv "AGENT_FITNESS_FUNCTIONS_HOOK_OVERWRITE") "1" then ret (false, None)
  else
    let! _ := print_err ("refusing to overwrite existing unmanaged " +:+ hookName +:+ " hook: " +:+ targetHook +:+ LF) in
    let! _ := print_err ("set AGENT_FITNESS_FUNCTIONS_HOOK_OVERWRITE=1 to replace it, or AGENT_FITNESS_FUNCTIONS_HOOK_APPEND=1 to append" +:+ LF) in
    ret (true, Some (ErrNew "refusing to overwrite existing unmanaged hook")).

Definition handleExistingGitHook (targetHook hooksDir hookName embeddedPath : string) : HM (bool * option goerror) :=
  let! existing := readExistingHook targetHook hookName in
  match existing with
  | Err err => ret (false, Some err)
  | Ok None => ret (false, None)
  | Ok (Some content) =>
      if hookHasSidecar content hookName then
        let! failed := refreshHookSidecar targetHook hooksDir hookName embeddedPath content in ret (true, failed)
      else if hookIsManaged content hookName then ret (false, None)
      else resolveUnmanagedHook targetHook hooksDir hookName embeddedPath content
  end.

Definition gitHookPath (repoRoot name : string) : HM (result goerror string) :=
  let! path := gitOutput repoRoot ["rev-parse"; "--git-path"; "hooks/" +:+ name] in
  ret (match path with
       | Err err => Err (ErrWrap ("resolving " +:+ name +:+ " hook path: ") err "")
       | Ok path => Ok (if is_abs path then path else path_join [repoRoot; path])
       end).

Definition installGitHook (repoRoot hookName embeddedPath : string) : HM (option goerror) :=
  let! target := gitHookPath repoRoot hookName in
  match target with
  | Err err => ret (Some err)
  | Ok targetHook =>
      let hooksDir := path_dir targetHook in
      let! made := MkdirAll hooksDir in
      match made with
      | Some err => ret (Some (ErrWrap "creating hooks directory: " err ""))
      | None =>
          let! handled := handleExistingGitHook targetHook hooksDir hookName embeddedPath in
          match handled with
          | (_, Some err) => ret (Some err)
          | (true, None) => ret None
          | (false, None) =>
              try! writeEmbeddedExecutable embeddedPath targetHook in
              try! writeFormatter hooksDir in
              try! refreshOrphanSidecars hooksDir hookName embeddedPath in
              let! _ := print_out ("installed " +:+ targetHook +:+ LF) in ret None
          end
      end
  end.

(** *** Settings files *)

(** A nil map is [None]. *)
Definition loadClaudeSettings (settingsPath : string) : HM (result goerror (option settings)) :=
  let! made := MkdirAll (path_dir settingsPath) in
  match made with
  | Some err => ret (Err (ErrWrap "creating .claude directory: " err ""))
  | None =>
      let! read := read_file settingsPath in
      let '(content, failed) := read in
      if match failed with Some err => errors_is err ErrNotExist | None => false end
         || String.eqb (trim_space content) "" then ret (Ok (Some ∅))
      else match failed with
      | Some err => ret (Err (ErrWrap ("reading " +:+ settingsPath +:+ ": ") err ""))
      | None =>
          match json_parse content ≫= dec_any_map with
          | Some decoded => ret (Ok decoded)
          | None => ret (Err (ErrWrap ("parsing " +:+ settingsPath +:+ ": ") (ErrNew (json_error_text content)) ""))
          end
      end
  end.

(** Encoding a decoded document does not fail. *)
Definition writeClaudeSettings (settingsPath : string) (s : settings) : HM (option goerror) :=
  let! failed := write_file settingsPath (MarshalIndent (obj_of s) +:+ LF) in
  ret ((λ err, ErrWrap ("writing " +:+ settingsPath +:+ ": ") err "") <$> failed).

(** Upserting into a nil map panics. *)
Definition upsert (s : option settings) (spec : claudeHookSpec) : HM (string * settings) :=
  match s with
  | Some s => ret (upsertClaudeHook s spec)
  | None => panic "assignment to entry in nil map"
  end.

Definition forgeManagedClaudeSettings (settingsPath : string) : HM bool :=
  let! read := read_file settingsPath in
  ret (match read with
       | (_, Some _) => false
       | (content, None) => contains content "forge upgrade" || contains content "forge sync-allowlist"
       end).

Definition removeClaudeHookEntry (settingsPath : string) (markers : list string) : HM (result goerror bool) :=
  let! loaded := loadClaudeSettings settingsPath in
  match loaded with
  | Err err => ret (Err err)
  | Ok None => ret (Ok false)
  | Ok (Some s) =>
      match s !! "hooks" with
      | Some (JObj fs) =>
          let hooks := members (JObj fs) in
          let preToolUse := preToolUseEntries hooks in
          match findClaudeHookEntry preToolUse markers with
          | None => ret (Ok false)
          | Some (index, _) =>
              let! failed := writeClaudeSettings settingsPath
                               (set_entries s hooks (take index preToolUse ++ drop (S index) preToolUse)) in
              ret (match failed with Some err => Err err | None => Ok true end)
          end
      | _ => ret (Ok false)
      end
  end.

Definition applyClaudeHook (repoRoot : string) (spec : claudeHookSpec) : HM (option goerror) :=
  let settingsJSONPath := path_join [repoRoot; ".claude"; "settings.json"] in
  let! forge := forgeManagedClaudeSettings settingsJSONPath in
  let! settingsPath :=
    (if forge : bool then
       let! removed := removeClaudeHookEntry settingsJSONPath (spec_markers spec) in
       ret (match removed with
            | Err err => Err err
            | Ok _ => Ok (path_join [repoRoot; ".claude"; "settings.local.json"])
            end)
     else ret (Ok settingsJSONPath)) in
  match settingsPath with
  | Err err => ret (Some err)
  | Ok settingsPath =>
      let! loaded := loadClaudeSettings settingsPath in
      match loaded with
      | Err err => ret (Some err)
      | Ok s =>
          let! upserted := upsert s spec in
          try! writeClaudeSettings settingsPath upserted.2 in
          let! _ := print_out (upserted.1 +:+ " in " +:+ settingsPath +:+ LF) in ret None
      end
  end.

Definition applyCodexHook (repoRoot : string) (spec : claudeHookSpec) : HM (option goerror) :=
  let hooksJSONPath := path_join [repoRoot; ".codex"; "hooks.json"] in
  let! made := MkdirAll (path_dir hooksJSONPath) in
  match made with
  | Some err => ret (Some (ErrWrap "creating .codex directory: " err ""))
  | None =>
      let! loaded := loadClaudeSettings hooksJSONPath in
      match loaded with
      | Err err => ret (Some (ErrWrap "reading .codex/hooks.json: " err ""))
      | Ok s =>
          let! upserted := upsert s spec in
          let! failed := writeClaudeSettings hooksJSONPath upserted.2 in
          match failed with
          | Some err => ret (Some (ErrWrap "writing .codex/hooks.json: " err ""))
          | None => let! _ := print_out (upserted.1 +:+ " in " +:+ hooksJSONPath +:+ LF) in ret None
          end
      end
  end.

(** *** The other artifacts *)

Definition installGitGuard (repoRoot : string) : HM (option goerror) :=
  let! path := gitHookPath repoRoot gitGuardName in
  match path with
  | Err err => ret (Some err)
  | Ok guardPath =>
      try! writeEmbeddedExecutable "hookassets/git-guard.sh" guardPath in
      try! removeStalePredecessorArtifacts (path_dir guardPath) gitGuardNameHistory gitGuardName in
      let! _ := print_out ("installed " +:+ guardPath +:+ LF) in
      try! applyClaudeHook repoRoot (gitGuardSpec gitGuardName) in
      applyCodexHook repoRoot (gitGuardSpec gitGuardName)
  end.

Definition installAgentHook (repoRoot : string) : HM (option goerror) :=
  let! path := gitHookPath repoRoot agentHookName in
  match path with
  | Err err => ret (Some err)
  | Ok scriptPath =>
      let hooksDir := path_dir scriptPath in
      try! writeEmbeddedExecutable "hookassets/pre-tool-use.sh" scriptPath in
      try! writeFormatter hooksDir in
      try! writeApplyPatchHelper hooksDir in
      try! removeStalePredecessorArtifacts hooksDir agentHookNameHistory agentHookName in
      let! _ := print_out ("installed " +:+ scriptPath +:+ LF) in
      try! applyClaudeHook repoRoot (agentHookSpec agentHookName "claude-code") in
      applyCodexHook repoRoot (agentHookSpec agentHookName "codex")
  end.

Definition installOpenCodePlugin (repoRoot : string) : HM (option goerror) :=
  let pluginDir := path_join [repoRoot; ".opencode"; "plugins"] in
  let! made := MkdirAll pluginDir in
  match made with
  | Some err => ret (Some (ErrWrap "creating .opencode/plugins directory: " err ""))
  | None =>
      let pluginPath := path_join [pluginDir; "agent-fitness-functions.js"] in
      try! writeEmbeddedExecutable "hookassets/opencode-plugin.js" pluginPath in
      let! _ := print_out ("installed " +:+ pluginPath +:+ LF) in ret None
  end.

Record nativeExtensionAsset := mkAsset {
  asset_embeddedPath : string;
  asset_targetPath : string;
  asset_marker : string;
}.
Definition native_marker (name : string) : string :=
  "// agent-fitness-functions-" +:+ name +:+ ": managed by agent-fitness-functions client install-hooks".
Definition native_assets (repoRoot : string) : list nativeExtensionAsset :=
  let target host name := path_join [repoRoot; host; "extensions"; hookProductPrefix; name] in
  [mkAsset "hookassets/pi-extension.ts" (target ".pi" "index.ts") (native_marker "pi-extension");
   mkAsset "hookassets/native-checker.mjs" (target ".pi" "native-checker.mjs") (native_marker "native-checker");
   mkAsset "hookassets/omp-extension.ts" (target ".omp" "index.ts") (native_marker "omp-extension");
   mkAsset "hookassets/native-checker.mjs" (target ".omp" "native-checker.mjs") (native_marker "native-checker")].

Fixpoint check_assets (assets : list nativeExtensionAsset) : HM (option goerror) :=
  match assets with
  | [] => ret None
  | asset :: rest =>
      let! read := read_file (asset_targetPath asset) in
      match read with
      | (content, None) =>
          if contains content (asset_marker asset) then check_assets rest
          else ret (Some (ErrNew ("refusing to overwrite unmanaged native extension "
                                  +:+ asset_targetPath asset +:+ ": missing product marker")))
      | (_, Some err) =>
          if errors_is err ErrNotExist then check_assets rest
          else ret (Some (ErrWrap ("checking native extension " +:+ asset_targetPath asset +:+ ": ") err ""))
      end
  end.
Fixpoint write_assets (assets : list nativeExtensionAsset) : HM (option goerror) :=
  match assets with
  | [] => ret None
  | asset :: rest =>
      let! made := MkdirAll (path_dir (asset_targetPath asset)) in
      match made with
      | Some err => ret (Some (ErrWrap ("creating native extension directory for "
                                        +:+ asset_targetPath asset +:+ ": ") err ""))
      | None =>
          try! writeEmbeddedFile (asset_embeddedPath asset) (asset_targetPath asset) in
          let! _ := print_out ("installed " +:+ asset_targetPath asset +:+ LF) in
          write_assets rest
      end
  end.
Definition installPiOMPExtensions (repoRoot : string) : HM (option goerror) :=
  let assets := native_assets repoRoot in
  try! check_assets assets in
  try! write_assets assets in
  let! _ := print_out ("OMP extension uses runtime-only strict replace mode with fuzzy matching disabled; restart or reload OMP sessions after installation" +:+ LF) in
  ret None.

Definition RunInstallHooks (args : list string) : HM (option goerror) :=
  match args with
  | _ :: _ :: _ =>
      ret (Some (UsageError (ErrNew "client install-hooks accepts at most one repository argument")))
  | _ =>
      let repo := default "." (head args) in
      let! root := gitOutput repo ["rev-parse"; "--show-toplevel"] in
      match root with
      | Err err => ret (Some (ErrWrap "resolving repository root: " err ""))
      | Ok repoRoot =>
          try! installGitHook repoRoot "pre-commit" "hookassets/pre-commit.sh" in
          try! installGitHook repoRoot "pre-push" "hookassets/pre-push.sh" in
          try! installGitGuard repoRoot in
          try! installAgentHook repoRoot in
          try! installOpenCodePlugin repoRoot in
          installPiOMPExtensions repoRoot
      end
  end.
End installer.
