(* ===== verification/HooksText.v ===== *)
(** * The text of a host hook

    Where the call of a sidecar goes, and what replacing markers does: lemmas on
    substrings, lines and [bytes.ReplaceAll], and the specification of the insertion
    point. *)

From stdpp Require Import base gmap strings list fin_maps.
From Stdlib Require Import ZArith Lia Ascii.
From S2P Require Import Prelude GoStrings GoErrors GoJson GoJsonPrint GoOS Hooks.
Set Default Goal Selector "!".

(** ** Substrings *)

Lemma has_prefix_spec s p : has_prefix s p = true ↔ ∃ q, s = p +:+ q.
Proof.
  unfold has_prefix. revert s. induction p as [|a p IH]; intros s; [split; [by exists s|by destruct s]|].
  destruct s as [|b s]; cbn [String.prefix]; [split; [done|by intros [q [=]]]|].
  destruct (ascii_dec a b) as [->|Hne].
  - rewrite IH. split; intros [q Hq]; exists q; [by subst|by injection Hq].
  - split; [done|]. intros [q [=]]. by destruct Hne.
Qed.

Lemma contains_spec s m : contains s m = true ↔ ∃ a b, s = a +:+ m +:+ b.
Proof.
  induction s as [|c s IH]; cbn [contains]; rewrite orb_true_iff, has_prefix_spec.
  - split.
    + intros [[q Hq]|[=]]. exists "", q. exact Hq.
    + intros (a & b & Hab). destruct a as [|? a]; [left; by exists b|done].
  - rewrite IH. split.
    + intros [[q Hq]|(a & b & ->)]; [exists "", q; exact Hq|by exists (String c a), b].
    + intros (a & b & Hab). destruct a as [|d a]; [left; by exists b|]. right. injection Hab as -> ->. by exists a, b.
Qed.

Lemma contains_app_l s t m : contains s m = true → contains (s +:+ t) m = true.
Proof. rewrite !contains_spec. intros (a & b & ->). exists a, (b +:+ t). by rewrite <-!string_app_assoc. Qed.
Lemma contains_app_r s t m : contains t m = true → contains (s +:+ t) m = true.
Proof. rewrite !contains_spec. intros (a & b & ->). exists (s +:+ a), b. by rewrite <-!string_app_assoc. Qed.
Lemma contains_self m : contains m m = true.
Proof. apply contains_spec. exists "", "". by rewrite string_app_nil_r. Qed.

Lemma contains_bytes s m : contains s m = true ↔ ∃ a b, bytes s = a ++ bytes m ++ b.
Proof.
  rewrite contains_spec. split.
  - intros (a & b & ->). exists (bytes a), (bytes b). by rewrite !bytes_app.
  - intros (a & b & Hs). exists (of_bytes a), (of_bytes b). apply bytes_inj. by rewrite !bytes_app, !bytes_of_bytes.
Qed.

(** ** Lines *)

Definition newline_free (s : string) : Prop := "010"%char ∉ bytes s.

Lemma split_bytes_app sep l k cur : sep ∉ l → split_bytes sep cur (l ++ sep :: k) = of_bytes (rev cur ++ l) :: split_bytes sep [] k.
Proof.
  revert cur. induction l as [|a l IH]; intros cur Hl; cbn [app split_bytes].
  - by rewrite Ascii.eqb_refl, app_nil_r.
  - apply not_elem_of_cons in Hl as [Ha Hl]. rewrite (proj2 (Ascii.eqb_neq a sep)) by congruence.
    rewrite IH by done. cbn [rev]. by rewrite <-app_assoc.
Qed.
Lemma split_bytes_plain sep l cur : sep ∉ l → split_bytes sep cur l = [of_bytes (rev cur ++ l)].
Proof.
  revert cur. induction l as [|a l IH]; intros cur Hl; cbn [split_bytes]; [by rewrite app_nil_r|].
  apply not_elem_of_cons in Hl as [Ha Hl]. rewrite (proj2 (Ascii.eqb_neq a sep)) by congruence.
  rewrite IH by done. cbn [rev]. by rewrite <-app_assoc.
Qed.

Lemma join_cons s l sep : l ≠ [] → join (s :: l) sep = s +:+ sep +:+ join l sep.
Proof. by destruct l. Qed.
Lemma elem_of_rev {A} (x : A) l : x ∈ rev l ↔ x ∈ l.
Proof. by rewrite !list_elem_of_In, <-in_rev. Qed.

Lemma split_join l : l ≠ [] → Forall newline_free l → split (join l LF) "010"%char = l.
Proof.
  intros Hne Hl. induction Hl as [|s l Hs Hl IH]; [done|]. unfold split in *.
  destruct l as [|s' l]; [cbn [join]; by rewrite split_bytes_plain, app_nil_l, of_bytes_bytes by done|].
  rewrite join_cons, !bytes_app by done. change (bytes LF) with ["010"%char]. cbn [app].
  rewrite split_bytes_app by done. rewrite IH by done. cbn [rev app]. by rewrite of_bytes_bytes.
Qed.

Lemma split_bytes_lines l cur : "010"%char ∉ cur → split_bytes "010"%char cur l ≠ [] ∧
  Forall newline_free (split_bytes "010"%char cur l) ∧ join (split_bytes "010"%char cur l) LF = of_bytes (rev cur ++ l).
Proof.
  revert cur. induction l as [|a l IH]; intros cur Hcur; cbn [split_bytes].
  - split; [done|]. split; [|by rewrite app_nil_r]. constructor; [|done]. unfold newline_free.
    by rewrite bytes_of_bytes, elem_of_rev.
  - destruct (Ascii.eqb_spec a "010"%char) as [->|Hne].
    + destruct (IH []) as (Hn & Hf & Hu); [apply not_elem_of_nil|]. split; [done|]. split.
      * constructor; [|done]. unfold newline_free. by rewrite bytes_of_bytes, elem_of_rev.
      * rewrite join_cons, Hu by done. change LF with (of_bytes ["010"%char]). by rewrite <-!of_bytes_app.
    + destruct (IH (a :: cur)) as (Hn & Hf & Hu); [by apply not_elem_of_cons|]. split; [done|]. split; [done|].
      rewrite Hu. cbn [rev]. by rewrite <-app_assoc.
Qed.
Lemma split_lines s : split s "010"%char ≠ [] ∧ Forall newline_free (split s "010"%char) ∧ join (split s "010"%char) LF = s.
Proof. destruct (split_bytes_lines (bytes s) []) as (? & ? & Hu); [apply not_elem_of_nil|]. cbn [rev app] in Hu. rewrite of_bytes_bytes in Hu. done. Qed.

(** ** The insertion point *)

Definition blank (line : string) : Prop := trim_space line = "".
#[export] Instance blank_dec line : Decision (blank line).
Proof. unfold blank. apply _. Defined.

(** A statement that ends the script. *)
Definition terminal (line : string) : bool :=
  has_prefix (trim_space line) "exec " || has_prefix (trim_space line) "exit ".

(** The last line that is neither blank nor a comment, without surrounding space, and
    whether it ends the script or replaces it. *)
Definition last_statement (content : string) : string :=
  default "" (last (filter (λ s, s ≠ "" ∧ has_prefix s "#" = false) (trim_space <$> split content "010"%char))).
Definition leaves (statement : string) : bool := has_prefix statement "exit" || has_prefix statement "exec".

(** [before] ends where a line starts, and [after] is what follows a line: nothing, or
    a newline and blank lines. *)
Definition line_start (before : string) : Prop := before = "" ∨ ∃ b, before = b +:+ LF.
Definition blank_tail (after : string) : Prop :=
  after = "" ∨ ∃ t, after = LF +:+ t ∧ Forall blank (split t "010"%char).

Definition offset_of (start : nat) (lines : list string) : nat :=
  foldl (λ n line, n + String.length line + 1)%nat start lines.

Lemma offset_of_app start pre line : offset_of start (pre ++ [line]) = (offset_of start pre + String.length line + 1)%nat.
Proof. unfold offset_of. by rewrite foldl_app. Qed.
Lemma with_offsets_app start pre post : with_offsets start (pre ++ post) = with_offsets start pre ++ with_offsets (offset_of start pre) post.
Proof.
  revert start. induction pre as [|line pre IH]; intros start; [done|]. cbn [app with_offsets]. by rewrite IH.
Qed.
Lemma with_offsets_blank start lines : Forall blank lines → filter (λ p, trim_space p.2 ≠ "") (with_offsets start lines) = [].
Proof.
  intros H. revert start. induction H as [|line lines Hl _ IH]; intros start; [done|]. cbn [with_offsets].
  rewrite filter_cons_False; [apply IH|]. cbn. intros Hn. by apply Hn.
Qed.

(** The lines up to the last one that is not blank. *)
Lemma last_substantive lines : Forall blank lines ∨ ∃ pre line post, lines = pre ++ line :: post ∧ ¬ blank line ∧ Forall blank post.
Proof.
  induction lines as [|l lines [IH|(pre & line & post & -> & Hl & Hp)]]; [by left| |].
  - destruct (decide (blank l)); [left; by constructor|]. right. by exists [], l, lines.
  - right. by exists (l :: pre), line, post.
Qed.

Lemma scan_last start pre line post : ¬ blank line → Forall blank post →
  last (filter (λ p, trim_space p.2 ≠ "") (with_offsets start (pre ++ line :: post))) = Some (offset_of start pre, line).
Proof.
  intros Hl Hp. rewrite with_offsets_app. cbn [with_offsets]. rewrite filter_app, filter_cons_True by exact Hl.
  rewrite (with_offsets_blank _ post) by done. by rewrite last_snoc.
Qed.

(** The text before the last of some lines. *)
Lemma join_app_cons pre line post : join (pre ++ line :: post) LF =
  join (pre ++ [""]) LF +:+ line +:+ (match post with [] => "" | _ => LF +:+ join post LF end).
Proof.
  induction pre as [|l pre IH]; [by destruct post; cbn [app join]; rewrite ?string_app_nil_r|].
  cbn [app]. rewrite !(join_cons l), IH by (by destruct pre). by rewrite <-!string_app_assoc.
Qed.
Lemma offset_of_join start pre : offset_of start pre = (start + String.length (join (pre ++ [""]) LF))%nat.
Proof.
  revert start. induction pre as [|l pre IH]; intros start; [cbn; lia|]. cbn [app]. rewrite join_cons by (by destruct pre).
  unfold offset_of in *. cbn [foldl]. rewrite IH. rewrite <-!length_bytes, !bytes_app, !length_app. cbn. lia.
Qed.
Lemma line_start_join pre : line_start (join (pre ++ [""]) LF).
Proof.
  induction pre as [|l pre IH]; [by left|]. right. cbn [app]. rewrite join_cons by (by destruct pre).
  destruct IH as [->|[b ->]]; [by exists l; rewrite string_app_nil_r|]. exists (l +:+ LF +:+ b). by rewrite <-!string_app_assoc.
Qed.
Lemma line_start_lines before : line_start before → ∃ pre, before = join (pre ++ [""]) LF ∧ Forall newline_free pre.
Proof.
  intros [->|[b ->]]; [by exists []|]. destruct (split_lines b) as (Hne & Hf & Hj). exists (split b "010"%char).
  split; [|done]. rewrite <-Hj at 1. clear Hj Hf. induction (split b "010"%char) as [|s [|s' l] IH]; [done| |].
  - cbn [app join]. by rewrite string_app_nil_r.
  - cbn [app]. rewrite !(join_cons s) by done. rewrite <-!string_app_assoc. cbn [app] in IH. by rewrite <-IH.
Qed.

Lemma terminal_not_blank line : terminal line = true → ¬ blank line ∧ has_prefix (trim_space line) "#" = false.
Proof.
  unfold terminal, blank. intros H. split; [intros Hb; by rewrite Hb in H|].
  apply orb_true_iff in H as [H|H]; apply has_prefix_spec in H as [q ->]; reflexivity.
Qed.

(** The point where the call goes is the start of the last line that is not blank, and
    there is one exactly when that line is a terminal exec or exit. *)
Theorem terminalInsertionPoint_spec content k : terminalInsertionPoint content = Some k ↔
  ∃ before line after, content = before +:+ line +:+ after ∧ k = String.length before ∧
    line_start before ∧ newline_free line ∧ blank_tail after ∧ terminal line = true.
Proof.
  unfold terminalInsertionPoint. destruct (split_lines content) as (Hne & Hfree & Hjoin). split.
  - destruct (last_substantive (split content "010"%char)) as [Hb|(pre & line & post & Heq & Hl & Hp)].
    { by rewrite with_offsets_blank. }
    rewrite Heq, scan_last by done. rewrite Heq in Hfree, Hjoin. rewrite join_app_cons in Hjoin.
    apply Forall_app in Hfree as [_ [Hline Hpost]%Forall_cons]. intros H.
    destruct (has_prefix (trim_space line) "#"); [done|]. destruct (_ || _) eqn:Ht; [|done]. injection H as <-.
    eexists _, line, _. split; [by rewrite <-Hjoin|]. split; [by rewrite offset_of_join|]. split; [apply line_start_join|].
    split; [done|]. split; [|exact Ht]. destruct post as [|p post]; [by left|]. right.
    eexists. split; [done|]. by rewrite split_join.
  - intros (before & line & after & -> & -> & Hstart & Hline & Hafter & Ht).
    destruct (line_start_lines _ Hstart) as (pre & -> & Hpre).
    destruct (terminal_not_blank _ Ht) as [Hl Hh].
    assert (∃ post, after = (match post with [] => "" | _ => LF +:+ join post LF end) ∧ Forall newline_free post ∧ Forall blank post)
      as (post & -> & Hpf & Hpb).
    { destruct Hafter as [->|(t & -> & Ht')]; [by exists []|]. exists (split t "010"%char).
      destruct (split_lines t) as (Hn & Hf & Hj). rewrite Hj. by destruct (split t "010"%char). }
    rewrite <-join_app_cons, split_join, scan_last, Hh, offset_of_join; [|done|done|by destruct pre|by apply Forall_app; split; [|constructor]].
    unfold terminal in Ht. by rewrite Ht.
Qed.

(** ** The composed hook *)

Lemma str_split_at n s : s = str_take n s +:+ of_bytes (drop n (bytes s)).
Proof. unfold str_take. by rewrite <-of_bytes_app, take_drop, of_bytes_bytes. Qed.
Lemma str_take_app s t : str_take (String.length s) (s +:+ t) = s.
Proof. unfold str_take. by rewrite bytes_app, <-length_bytes, take_app_length, of_bytes_bytes. Qed.
Lemma str_drop_app s t : of_bytes (drop (String.length s) (bytes (s +:+ t))) = t.
Proof. by rewrite bytes_app, <-length_bytes, drop_app_length, of_bytes_bytes. Qed.

(** The call is added to the hook without touching its text: before the terminal
    statement when the hook ends with one, else at the end. *)
Lemma with_call_spec content block : ∃ before after,
  content = before +:+ after ∧ with_call content block = before +:+ block +:+ after ∧
  (after = "" ∧ terminalInsertionPoint content = None ∨
   ∃ line tail, after = line +:+ tail ∧ line_start before ∧ newline_free line ∧ terminal line = true ∧ blank_tail tail).
Proof.
  unfold with_call. destruct (terminalInsertionPoint content) as [k|] eqn:Hk.
  - apply terminalInsertionPoint_spec in Hk as (before & line & after & -> & -> & Hb & Hl & Ha & Ht).
    exists before, (line +:+ after). rewrite str_take_app, str_drop_app. split; [done|]. split; [done|]. right. by exists line, after.
  - exists content, "". rewrite !string_app_nil_r. split; [done|]. split; [done|]. by left.
Qed.

Lemma with_call_marked {U : UnicodeTables} content hookName sidecar :
  contains (with_call content (sidecarCallBlock hookName sidecar)) (sidecarHookMarker hookName) = true.
Proof.
  destruct (with_call_spec content (sidecarCallBlock hookName sidecar)) as (before & after & _ & -> & _).
  apply contains_app_r, contains_app_l. unfold sidecarCallBlock. apply contains_app_r, contains_app_l, contains_self.
Qed.

(** ** Replacing *)

Lemma replace_go_new old new l a b : l = a ++ old ++ b → old ≠ [] → ∃ x y, replace_go old new 0 l = x ++ new ++ y.
Proof.
  intros Hl Hne. revert a Hl. induction l as [|c l IH]; intros a Hl.
  - destruct a, old; done.
  - cbn [replace_go]. destruct (decide (old `prefix_of` c :: l)); [eexists [], _; reflexivity|].
    destruct a as [|c' a]; [exfalso; apply n; exists b; exact Hl|]. injection Hl as -> Hl.
    destruct (IH a Hl) as (x & y & ->). by exists (c' :: x), y.
Qed.

Lemma replace_all_contains s old new : old ≠ "" → contains s old = true → contains (replace_all s old new) new = true.
Proof.
  intros Hne (a & b & Hs)%contains_bytes. unfold replace_all.
  destruct (replace_go_new (bytes old) (bytes new) (bytes s) a b Hs) as (x & y & ->); [by destruct old|].
  apply contains_bytes. exists x, y. by rewrite bytes_of_bytes.
Qed.

(** Occurrences of a quoted text and of a text without quotation marks are disjoint or
    nested, so replacing the one keeps the other. *)
Section disjoint.
Context (q : ascii) (old new m : list ascii).
Hypothesis (Hfirst : ∃ o, old = q :: o ++ [q]) (Hm : q ∉ m) (Hin : ∀ a b, old ≠ a ++ m ++ b).

Lemma replace_through l b : q ∉ l → ∃ y, replace_go old new 0 (l ++ b) = l ++ y.
Proof.
  intros Hl. induction l as [|c l IH]; [by eexists|]. apply not_elem_of_cons in Hl as [Hc Hl]. cbn [app replace_go].
  destruct (decide _) as [[t Ht]|_].
  - destruct Hfirst as (o & Ho). rewrite Ho in Ht. cbn [app] in Ht. by injection Ht.
  - destruct (IH Hl) as (y & ->). by exists y.
Qed.

(** A match that starts before [m] ends before it. *)
Lemma match_before a b : old `prefix_of` a ++ m ++ b → a ≠ [] → (length old ≤ length a)%nat.
Proof.
  intros [t Ht] Ha. destruct (decide (length old ≤ length a)%nat) as [|Hlen]; [done|exfalso].
  destruct Hfirst as (o & Ho).
  destruct (app_eq_app _ _ _ _ Ht) as (k & [[-> Hk]|[Hk Ht']]); [rewrite length_app in Hlen; lia|].
  (* old = a ++ k with k ≠ [] a prefix of m ++ b *)
  destruct (decide (length m ≤ length k)%nat) as [Hle|Hlt].
  - destruct (app_eq_app _ _ _ _ Ht') as (j & [[Hj _]|[Hj _]]).
    + assert (j = []) as -> by (destruct j; [done|rewrite Hj, length_app in Hle; cbn in Hle; lia]).
      rewrite app_nil_r in Hj. apply (Hin a []). by rewrite app_nil_r, Hk, Hj.
    + apply (Hin a j). by rewrite Hk, Hj.
  - (* the last byte of old is in m *)
    destruct (app_eq_app _ _ _ _ Ht') as (j & [[Hj _]|[Hj _]]).
    + apply Hm. rewrite Hj. apply elem_of_app. left.
      destruct k as [|k1 k _] using rev_ind; [rewrite app_nil_r in Hk; subst a; lia|].
      rewrite Ho, app_comm_cons, app_assoc in Hk. apply app_inj_tail in Hk as [_ <-]. set_solver.
    + rewrite Hj, length_app in Hlt. lia.
Qed.

Lemma replace_keeps a b skip : (skip ≤ length a)%nat → ∃ x y, replace_go old new skip (a ++ m ++ b) = x ++ m ++ y.
Proof.
  revert skip. induction a as [|c a IH]; intros skip Hs.
  - destruct skip; [|cbn in Hs; lia]. destruct (replace_through m b Hm) as (y & Hy). exists [], y. exact Hy.
  - cbn [app replace_go]. destruct skip as [|skip]; [|apply IH; cbn in Hs; lia].
    destruct (decide _) as [Hp|_].
    + apply (match_before (c :: a)) in Hp; [|done]. cbn [length] in Hp.
      destruct (IH (length old - 1)%nat) as (x & y & ->); [lia|]. exists (new ++ x), y. by rewrite <-app_assoc.
    + destruct (IH 0%nat) as (x & y & ->); [lia|]. by exists (c :: x), y.
Qed.
End disjoint.

Lemma quote_ends {U : UnicodeTables} s : ∃ o, bytes (quote s) = "034"%char :: o ++ ["034"%char].
Proof. unfold quote. rewrite bytes_of_bytes. by eexists. Qed.

Lemma replace_all_keeps {U : UnicodeTables} s path new m : "034"%char ∉ bytes m → contains (quote path) m = false →
  contains s m = true → contains (replace_all s (quote path) new) m = true.
Proof.
  intros Hq Hp (a & b & Hs)%contains_bytes. unfold replace_all. rewrite Hs.
  assert (∀ x y, bytes (quote path) ≠ x ++ bytes m ++ y) as Hin.
  { intros x y Heq. assert (contains (quote path) m = true) as Hc by (apply contains_bytes; eauto). by rewrite Hc in Hp. }
  destruct (replace_keeps _ _ (bytes new) _ (quote_ends path) Hq Hin a b 0) as (x & y & ->); [lia|].
  apply contains_bytes. exists x, y. by rewrite bytes_of_bytes.
Qed.

(** An upgraded host carries the current marker. *)
Lemma upgrade_markers_marked {U : UnicodeTables} dir current path markers names content changed :
  "034"%char ∉ bytes current → Forall (λ name, contains (quote (path_join [dir; name])) current = false) names →
  Forall (λ marker, marker ≠ "") markers → (changed = true → contains content current = true) →
  let '(updated, changed') := upgrade_markers dir current path markers names content changed in
  changed' = true → contains updated current = true.
Proof.
  intros Hq Hn Hm. revert names content changed Hn.
  induction Hm as [|marker markers Hmk _ IH]; intros names content changed Hn Hc; [done|].
  destruct names as [|name names]; [done|]. apply Forall_cons in Hn as [Hname Hn]. cbn [upgrade_markers].
  destruct (String.eqb marker current || negb (contains content marker)) eqn:Hg; [by apply IH|]. apply IH; [done|].
  intros _. apply orb_false_iff in Hg as [_ Hg%negb_false_iff]. by apply replace_all_keeps, replace_all_contains.
Qed.

Lemma upgrade_markers_changed {U : UnicodeTables} dir current path markers names content changed :
  length markers = length names →
  (changed = true ∨ ∃ marker, marker ∈ markers ∧ marker ≠ current ∧ contains content marker = true) →
  (upgrade_markers dir current path markers names content changed).2 = true.
Proof.
  revert names content changed. induction markers as [|marker markers IH]; intros names content changed Hlen H.
  - destruct H as [|(m & Hm & _)]; [done|]. by apply not_elem_of_nil in Hm.
  - destruct names as [|name names]; [done|]. cbn [upgrade_markers]. injection Hlen as Hlen.
    destruct (String.eqb marker current || negb (contains content marker)) eqn:Hg; apply IH; try done; [|by left].
    destruct H as [->|(m & Hm & Hne & Hc)]; [by left|right]. exists m. split; [|done]. apply elem_of_cons in Hm as [->|]; [|done].
    apply orb_true_iff in Hg as [Hg%String.eqb_eq|Hg]; [done|]. by rewrite Hc in Hg.
Qed.
