(* ===== verification/HooksProofs.v ===== *)
(** * What installing hooks does to a repository

    For every behaviour of git and every failure of the operating system: a hook that
    is somebody else's is not touched without consent, a host keeps its text and gets
    the call once, and a second installation changes no hook. *)

From stdpp Require Import base gmap strings list fin_maps.
From Stdlib Require Import ZArith Lia Ascii.
From S2P Require Import Prelude GoStrings GoErrors GoFloat GoJson GoJsonPrint GoOS Hooks HooksText.
Set Default Goal Selector "!".

Abbreviation HW := (world streams).
Create HintDb hooks.

(** ** Frames: the files a computation may change *)

Definition outside (ps : list string) : relation HW := λ w w', ∀ p, p ∉ ps → w_files w' !! p = w_files w !! p.
#[export] Instance outside_preorder ps : PreOrder (outside ps).
Proof. split; [by intros w p|]. intros w1 w2 w3 H1 H2 p Hp. by rewrite H2, H1. Qed.

Abbreviation frames ps m := (transits (outside ps) m).

Lemma outside_tick ps w w' : outside ps w w' → outside ps w (tick w').
Proof. done. Qed.
Lemma outside_insert ps p c w : p ∈ ps → outside ps w (set_files (<[p := c]> (w_files w)) w).
Proof. intros Hp q Hq. cbn. by rewrite lookup_insert_ne by congruence. Qed.

Section frames.
Context {E : OSEnv} (ps : list string).

Lemma frames_os_op {A} op path (failed : goerror → HW → A * HW) effect :
  (∀ e w, outside ps w (failed e w).2) → (∀ w, outside ps w (effect w).2) → frames ps (os_op op path failed effect).
Proof.
  intros Hf He w. unfold os_op. destruct (os_fault _ _ _) as [e|].
  - specialize (Hf e w). by destruct (failed e w).
  - specialize (He w). by destruct (effect w).
Qed.
Lemma frames_call {A} (f : external A) : frames ps (call f).
Proof. by intros w p. Qed.
Lemma frames_print_out text : frames ps (print_out text).
Proof. by intros w p. Qed.
Lemma frames_print_err text : frames ps (print_err text).
Proof. by intros w p. Qed.
Lemma frame_Close path : frames ps (Close path).
Proof. by apply frames_os_op; intros ? **. Qed.
Lemma frame_Stat path : frames ps (Stat path).
Proof. by apply frames_os_op; intros ? **. Qed.
Lemma frames_MkdirAll path : frames ps (MkdirAll path).
Proof. by apply frames_os_op; intros ? **. Qed.
Lemma frames_read_file path : frames ps (read_file path).
Proof.
  apply (transits_bind (outside ps)).
  - apply frames_os_op; [by intros e w p|]. intros w p _. by destruct (w_files w !! path).
  - intros [c|e]; [by apply frames_os_op; intros ? **|by apply (transits_ret (outside ps))].
Qed.
Lemma frames_write_file path content : path ∈ ps → frames ps (write_file path content).
Proof.
  intros Hp. apply (transits_bind (outside ps)).
  - apply frames_os_op; [by intros e w p|]. intros w. destruct (decide _); [by intros p|by apply outside_insert].
  - intros [e|]; [by apply (transits_ret (outside ps))|]. apply (transits_bind (outside ps)).
    + apply frames_os_op; intros; by apply outside_insert.
    + intros failed. apply (transits_bind (outside ps)); [apply frame_Close|]. intros closed. by apply (transits_ret (outside ps)).
Qed.
Lemma frames_appendFile path content : path ∈ ps → frames ps (appendFile path content).
Proof.
  intros Hp. apply (transits_bind (outside ps)).
  - apply frames_os_op; [by intros e w p|]. intros w p _. by destruct (w_files w !! path).
  - intros [e|]; [by apply (transits_ret (outside ps))|]. apply (transits_bind (outside ps)).
    + apply frames_os_op; intros; by apply outside_insert.
    + intros failed. apply (transits_bind (outside ps)); [apply frame_Close|]. intros closed. by apply (transits_ret (outside ps)).
Qed.
Lemma frames_remove_file path : path ∈ ps → frames ps (remove_file path).
Proof.
  intros Hp. apply frames_os_op; [by intros e w p|]. intros w p Hn. destruct (w_files w !! path); cbn.
  - by rewrite lookup_delete_ne by congruence.
  - destruct (decide _); [|done]. by destruct (children path w).
Qed.
Lemma frame_ret {A} (a : A) : frames ps (ret a).
Proof. by intros w p. Qed.
Lemma frames_panic {A} m : frames ps (panic (A := A) m).
Proof. by intros w p. Qed.
End frames.

#[export] Hint Resolve frames_call frames_print_out frames_print_err frame_Close frame_Stat frames_MkdirAll
  frames_read_file frames_write_file frames_appendFile frames_remove_file frame_ret frames_panic : hooks.

(** Walk a computation, as far as the database goes. *)
Ltac hook_frame :=
  repeat first
    [ solve [eauto with hooks]
    | match goal with
      | |- transits _ (bind _ _) => apply transits_bind; [apply _| |intros ?]
      | |- transits _ (match ?x with _ => _ end) => destruct x eqn:?
      | |- transits _ (if ?x then _ else _) => destruct x eqn:?
      | |- transits _ (let '(_, _) := ?x in _) => destruct x eqn:?
      end ].

(** ** Runs that return *)

(** What holds when [m] reports success. *)
Definition wins (m : HM (option goerror)) (P : HW → Prop) (w : HW) : Prop := returns m (λ r w', r = None → P w') w.

Lemma returns_frame {A} ps (m : HM A) w : frames ps m → returns m (λ _ w', outside ps w w') w.
Proof. intros H a w' Hm. specialize (H w). by rewrite Hm in H. Qed.
Lemma wins_try (m k : HM (option goerror)) P w : wins m (λ w', wins k P w') w → wins (try! m in k) P w.
Proof. intros H. apply returns_bind. intros [e|] w' Hm; [by apply returns_ret|]. by apply (H None w' Hm). Qed.
Lemma wins_ret P w : P w → wins (ret None) P w.
Proof. intros H. by apply returns_ret. Qed.
Lemma wins_print text P w : (∀ w', outside [] w w' → P w') → wins (let! _ := print_out text in ret None) P w.
Proof. intros H. apply returns_bind. intros [] w' [= <-]. apply wins_ret, H. by intros p. Qed.
(** A step that leaves the files in view alone. *)
Lemma wins_frame ps (m : HM (option goerror)) P w : frames ps m → (∀ w', outside ps w w' → P w') → wins m P w.
Proof. intros Hm HP r w' Hr _. apply HP. by apply (returns_frame ps m w Hm r). Qed.

(** [m] returns, with [Q]. *)
Definition total {A} (m : HM A) : Prop := ∀ w, ∃ a w', m w = (Returned a, w').
Definition ends {A} (m : HM A) (Q : A → HW → Prop) (w : HW) : Prop := ∃ a w', m w = (Returned a, w') ∧ Q a w'.
Lemma total_ret {A} (a : A) : total (ret a).
Proof. intros w. by eexists _, _. Qed.
Lemma total_bind {A B} (m : HM A) (k : A → HM B) : total m → (∀ a, total (k a)) → total (bind m k).
Proof. intros Hm Hk w. unfold bind. destruct (Hm w) as (a & w' & ->). apply Hk. Qed.
Lemma total_print_err text : total (print_err text).
Proof. intros w. by eexists _, _. Qed.
Lemma ends_bind {A B} (m : HM A) (k : A → HM B) Q w : ends m (λ a w', ends (k a) Q w') w → ends (bind m k) Q w.
Proof. intros (a & w' & Hm & b & w2 & Hk & HQ). exists b, w2. unfold bind. by rewrite Hm. Qed.
Lemma ends_ret {A} (a : A) (Q : A → HW → Prop) w : Q a w → ends (ret a) Q w.
Proof. intros H. by exists a, w. Qed.
Lemma ends_total {A} (m : HM A) Q w : total m → returns m Q w → ends m Q w.
Proof. intros Ht Hr. destruct (Ht w) as (a & w' & Hm). exists a, w'. split; [done|]. by apply Hr. Qed.

Section files.
Context {E : OSEnv}.

Lemma total_os_op {A} op path (failed : goerror → HW → A * HW) effect : total (os_op op path failed effect).
Proof.
  intros w. unfold os_op. destruct (os_fault _ _ _) as [e|]; [destruct (failed e w)|destruct (effect w)]; by eexists _, _.
Qed.
Lemma total_read_file path : total (read_file path).
Proof. apply total_bind; [apply total_os_op|]. intros []; [apply total_os_op|apply total_ret]. Qed.

Lemma wins_write_file path content w : wins (write_file path content) (λ w', w_files w' = <[path := content]> (w_files w)) w.
Proof.
  apply wins_try. apply returns_os_op; [done|]. destruct (decide _); [done|]. intros _. cbn.
  apply returns_bind, returns_os_op; [intros e _; cbn|cbn]; apply returns_bind.
  - apply returns_os_op; intros; by apply returns_ret.
  - apply returns_os_op; intros; apply returns_ret; cbn; [done|]. intros _. by rewrite insert_insert_eq.
Qed.
Lemma wins_appendFile path content w : wins (appendFile path content)
  (λ w', ∃ old, w_files w !! path = Some old ∧ w_files w' = <[path := old +:+ content]> (w_files w)) w.
Proof.
  apply returns_bind, returns_os_op; [intros e _; by apply returns_ret|]. destruct (w_files w !! path) as [old|] eqn:Hold; cbn.
  - apply returns_bind, returns_os_op; [intros e _|]; apply returns_bind, returns_os_op; intros; apply returns_ret; try done.
    intros _. exists old. cbn. by rewrite Hold.
  - by apply returns_ret.
Qed.

(** What a read returns: the content, or an error; a missing file is told apart. *)
Lemma returns_read_file path w :
  returns (read_file path) (λ r w', outside [] w w' ∧
    match r with
    | (content, None) => w_files w !! path = Some content
    | (_, Some e) => w_files w !! path = None ∨ ∃ t op, os_fault t op path = Some e
    end) w.
Proof.
  apply returns_both; [apply (returns_frame []), frames_read_file|].
  apply returns_bind, returns_os_op; [intros e He; apply returns_ret; right; by exists (w_clock w), "open"|].
  destruct (w_files w !! path) as [content|] eqn:Hc; cbn; [|by apply returns_ret; left].
  apply returns_os_op; [|done]. cbn. intros e He. right. by eexists _, _.
Qed.
End files.

(** Faults of the operating system do not say that a file is missing. *)
Class HonestFaults (E : OSEnv) : Prop := honest t op p e : os_fault t op p = Some e → errors_is e ErrNotExist = false.

Section operations.
Context {E : OSEnv} {U : UnicodeTables} {J : JsonErrorText} {N : JsonNumberText}.
Context (embeddedHooks : string → option string) (getenv : string → string).
Context (git : string → list string → external (string * option goerror)).

(** The files the installer keeps beside a hook. *)
Definition artifacts (hooksDir hookName : string) : list string :=
  path_join [hooksDir; "format-violations.py"] :: ((λ name, path_join [hooksDir; name]) <$> sidecarHookNames hookName).

Lemma sidecar_artifact hooksDir hookName : path_join [hooksDir; sidecarHookName hookName] ∈ artifacts hooksDir hookName.
Proof. right. apply (list_elem_of_fmap_2 (λ name, path_join [hooksDir; name])). right. right. left. Qed.
Lemma named_artifact hooksDir hookName name : name ∈ sidecarHookNames hookName → path_join [hooksDir; name] ∈ artifacts hooksDir hookName.
Proof. intros H. right. by apply (list_elem_of_fmap_2 (λ name, path_join [hooksDir; name])). Qed.
Lemma formatter_artifact hooksDir hookName : path_join [hooksDir; "format-violations.py"] ∈ artifacts hooksDir hookName.
Proof. left. Qed.
Hint Resolve sidecar_artifact named_artifact formatter_artifact : hooks.

Lemma frames_writeEmbeddedFile ps embeddedPath path : path ∈ ps → frames ps (writeEmbeddedFile embeddedHooks embeddedPath path).
Proof. intros Hp. unfold writeEmbeddedFile. hook_frame. Qed.
Lemma frames_writeEmbeddedExecutable ps embeddedPath path : path ∈ ps → frames ps (writeEmbeddedExecutable embeddedHooks embeddedPath path).
Proof. apply frames_writeEmbeddedFile. Qed.
Lemma frames_writeFormatter dir hook : frames (artifacts dir hook) (writeFormatter embeddedHooks dir).
Proof. apply frames_writeEmbeddedFile. eauto with hooks. Qed.
Hint Resolve frames_writeEmbeddedExecutable frames_writeFormatter : hooks.

Lemma frames_chain ps dir hook content suffixes : frames ps (chain_signature dir hook content suffixes).
Proof. induction suffixes as [|s rest IH]; cbn [chain_signature]; hook_frame. Qed.
Lemma frames_refresh_orphans dir hook embeddedPath names :
  (∀ name, name ∈ names → path_join [dir; name] ∈ artifacts dir hook) →
  frames (artifacts dir hook) (refresh_orphans embeddedHooks dir hook embeddedPath names).
Proof.
  induction names as [|name names IH]; intros Hn; cbn [refresh_orphans]; [hook_frame|].
  assert (path_join [dir; name] ∈ artifacts dir hook) by (apply Hn; left).
  assert (frames (artifacts dir hook) (refresh_orphans embeddedHooks dir hook embeddedPath names)) by (apply IH; intros; apply Hn; by right).
  unfold fileHasSidecarMarker, replaceOrphanSidecar. hook_frame.
Qed.
Lemma frames_stale dir hook names current :
  (∀ name, name ∈ names → path_join [dir; name] ∈ artifacts dir hook) →
  frames (artifacts dir hook) (removeStalePredecessorArtifacts dir names current).
Proof.
  induction names as [|name names IH]; intros Hn; cbn [removeStalePredecessorArtifacts]; [hook_frame|].
  assert (path_join [dir; name] ∈ artifacts dir hook) by (apply Hn; left).
  assert (frames (artifacts dir hook) (removeStalePredecessorArtifacts dir names current)) by (apply IH; intros; apply Hn; by right).
  hook_frame.
Qed.

(** ** What a successful installation leaves *)

Context {HF : HonestFaults E}.

Lemma wins_writeEmbedded embeddedPath path body w : embeddedHooks embeddedPath = Some body →
  wins (writeEmbeddedExecutable embeddedHooks embeddedPath path) (λ w', w_files w' = <[path := body]> (w_files w)) w.
Proof.
  intros He. unfold writeEmbeddedExecutable, writeEmbeddedFile. rewrite He. apply returns_bind.
  eapply returns_weaken; [apply wins_write_file|]. intros [e|] w' Hw; by apply returns_ret.
Qed.

Lemma returns_readExistingHook target hookName w :
  returns (readExistingHook target hookName) (λ r w', outside [] w w' ∧
    match r with Ok x => w_files w !! target = x | Err _ => True end) w.
Proof.
  apply returns_bind, returns_os_op.
  - intros e He. apply returns_ret. split; [by intros p|]. by rewrite (honest _ _ _ _ He).
  - cbn. assert (returns (let! read := read_file target in
        ret (match read with
             | (content, None) => Ok (Some content)
             | (_, Some err) => Err (ErrWrap ("reading existing " +:+ hookName +:+ " hook: ") err "")
             end)) (λ r w', outside [] w w' ∧ match r with Ok x => w_files w !! target = x | Err _ => True end) (tick w)) as Hread.
    { apply returns_bind. eapply returns_weaken; [apply returns_read_file|].
      intros [content [e|]] w' [Ho Hc]; by apply returns_ret. }
    destruct (decide (target ∈ w_dirs w)); [done|]. destruct (decide (is_Some _)) as [|Hn]; [done|].
    cbn. apply returns_ret. split; [by intros p|]. by apply eq_None_not_Some.
Qed.

Section hook.
Context (hookName embeddedPath target body : string).
Let dir : string := path_dir target.
Let marker : string := sidecarHookMarker hookName.
Hypothesis (Hbody : embeddedHooks embeddedPath = Some body).
Hypothesis (Htarget : target ∉ artifacts dir hookName).
Hypothesis (Hquote : "034"%char ∉ bytes hookName).
Hypothesis (Hdir : Forall (λ name, contains (quote (path_join [dir; name])) marker = false) (sidecarHookNames hookName)).

Lemma target_kept w w' : outside (artifacts dir hookName) w w' → w_files w' !! target = w_files w !! target.
Proof using Htarget. intros H. by apply H. Qed.
Lemma view_kept w w' : outside [] w w' → w_files w' !! target = w_files w !! target.
Proof using. intros H. apply H, not_elem_of_nil. Qed.

Lemma marker_unquoted : "034"%char ∉ bytes marker.
Proof using Hquote.
  unfold marker, sidecarHookMarker. rewrite !bytes_app, !elem_of_app.
  assert (∀ s, forallb (λ a, negb (Ascii.eqb a "034"%char)) (bytes s) = true → "034"%char ∉ bytes s) as H.
  { intros s Hs Hin. rewrite forallb_forall in Hs. apply list_elem_of_In in Hin. by apply Hs in Hin. }
  intros [Hi|[Hi|[Hi|[Hi|Hi]]]]; first [done|revert Hi; by apply H].
Qed.

(** A hook that the installer has dealt with: its own, or a host that has the call. *)
Definition settled (content : string) : Prop := content = body ∨ contains content marker = true.

Lemma has_sidecar_current content : contains content marker = true → hookHasSidecar content hookName = true.
Proof using. intros H. apply existsb_exists. exists marker. split; [|done]. right. right. by left. Qed.

Lemma wins_upgrade content w : w_files w !! target = Some content → hookHasSidecar content hookName = true →
  wins (upgradeSidecarHostReferences target hookName content)
    (λ w', ∃ c, w_files w' !! target = Some c ∧ contains c marker = true ∧ (contains content marker = true → c = content)) w.
Proof using Hquote Hdir.
  intros Hc Hs. unfold upgradeSidecarHostReferences. fold marker. destruct (contains content marker) eqn:Hm.
  { apply wins_ret. by exists content. }
  fold dir. destruct (upgrade_markers _ _ _ _ _ _ _) as [updated changed] eqn:Hu.
  assert (changed = true) as ->.
  { change changed with ((updated, changed).2). rewrite <-Hu. apply upgrade_markers_changed; [done|]. right.
    unfold hookHasSidecar, containsAny in Hs. apply existsb_exists in Hs as (m & Hin & Hcm). exists m.
    split; [by apply list_elem_of_In|]. split; [|done]. intros ->. by rewrite Hcm in Hm. }
  apply returns_bind. eapply returns_weaken; [apply wins_write_file|]. intros [e|] w' Hw; apply returns_ret; [done|].
  intros _. exists updated. rewrite Hw by done. rewrite lookup_insert_eq. split; [done|]. split; [|done].
  pose proof (upgrade_markers_marked dir marker (path_join [dir; sidecarHookName hookName]) (sidecarHookMarkers hookName) (sidecarHookNames hookName) content false) as H.
  rewrite Hu in H. apply H; [apply marker_unquoted|exact Hdir| |done|done]. repeat constructor; done.
Qed.

Lemma wins_insertHookSidecarCall sidecar w :
  wins (insertHookSidecarCall target hookName sidecar)
    (λ w', ∃ content, w_files w !! target = Some content ∧
       w_files w' = <[target := with_call content (sidecarCallBlock hookName sidecar)]> (w_files w)) w.
Proof using.
  apply returns_bind. eapply returns_weaken; [apply returns_read_file|]. intros [content [e|]] w1 [Ho Hc]; [by apply returns_ret|].
  assert (w_files w1 = w_files w) as Hw by (apply map_eq; intros p; apply Ho, not_elem_of_nil).
  destruct (terminalInsertionPoint content) as [k|] eqn:Hk.
  - eapply returns_weaken; [apply wins_write_file|]. intros r w' H Hr. exists content. by rewrite H, Hw.
  - eapply returns_weaken; [apply wins_appendFile|]. intros r w' H Hr. destruct (H Hr) as (old & Hold & ->).
    rewrite Hw, Hc in Hold. injection Hold as <-. exists content. unfold with_call. by rewrite Hk, Hw.
Qed.

(** The steps that precede the edit of the host leave it alone. *)
Lemma wins_sidecar (k : HM (option goerror)) P w :
  (∀ w', w_files w' !! target = w_files w !! target → wins k P w') →
  wins (try! writeEmbeddedExecutable embeddedHooks embeddedPath (path_join [dir; sidecarHookName hookName]) in
        try! writeFormatter embeddedHooks dir in k) P w.
Proof using Htarget.
  intros Hk. apply wins_try. apply (wins_frame (artifacts dir hookName)); [eauto with hooks|]. intros w1 H1.
  apply wins_try. apply (wins_frame (artifacts dir hookName)); [eauto with hooks|]. intros w2 H2.
  apply Hk. by rewrite (target_kept w1 w2 H2), (target_kept w w1 H1).
Qed.

Lemma wins_refreshHookSidecar content w : w_files w !! target = Some content → hookHasSidecar content hookName = true →
  wins (refreshHookSidecar embeddedHooks target dir hookName embeddedPath content)
    (λ w', ∃ c, w_files w' !! target = Some c ∧ contains c marker = true ∧ (contains content marker = true → c = content)) w.
Proof using Htarget Hquote Hdir.
  intros Hc Hs. unfold refreshHookSidecar. apply wins_sidecar. intros w1 H1. apply wins_try.
  eapply returns_weaken; [apply wins_upgrade; [by rewrite H1|done]|]. intros [e|] w2 H2; [done|].
  intros _. destruct (H2 eq_refl) as (c & Hc2 & Hm & Hk). apply wins_try.
  apply (wins_frame (artifacts dir hookName)); [apply frames_stale; eauto with hooks|]. intros w3 H3.
  apply wins_print. intros w4 H4. exists c. by rewrite (view_kept w3 w4 H4), (target_kept w2 w3 H3).
Qed.

Lemma sidecar_not_formatter : NoDup (artifacts dir hookName) → path_join [dir; sidecarHookName hookName] ∉ [path_join [dir; "format-violations.py"]].
Proof using.
  intros [Hn _]%NoDup_cons. rewrite list_elem_of_singleton. intros Heq. apply Hn. rewrite <-Heq.
  apply (list_elem_of_fmap_2 (λ name, path_join [dir; name])). right. right. left.
Qed.

Lemma wins_appendHookSidecar w :
  let sidecar := path_join [dir; sidecarHookName hookName] in
  wins (appendHookSidecar embeddedHooks target dir hookName embeddedPath)
    (λ w', (∃ content, w_files w !! target = Some content ∧
              w_files w' !! target = Some (with_call content (sidecarCallBlock hookName sidecar))) ∧
           (NoDup (artifacts dir hookName) → w_files w' !! sidecar = Some body)) w.
Proof using Hbody Htarget.
  intros sidecar. assert (sidecar ≠ target) as Hne by (intros Heq; apply Htarget; rewrite <-Heq; apply sidecar_artifact).
  apply wins_try. eapply returns_weaken; [apply wins_writeEmbedded, Hbody|]. intros [e|] w1 H1; [done|].
  intros _. specialize (H1 eq_refl). apply wins_try.
  apply (wins_frame [path_join [dir; "format-violations.py"]]); [apply frames_writeEmbeddedFile; by left|]. intros w2 H2.
  assert (w_files w2 !! target = w_files w !! target) as Ht.
  { rewrite H2, H1, lookup_insert_ne; [done|done|]. intros Heq%list_elem_of_singleton. apply Htarget. rewrite Heq. apply formatter_artifact. }
  apply wins_try. eapply returns_weaken; [apply wins_insertHookSidecarCall|]. intros [e|] w3 H3; [done|].
  intros _. destruct (H3 eq_refl) as (content & Hc & Hw). apply wins_print. intros w4 H4.
  rewrite (view_kept w3 w4 H4), (H4 sidecar), Hw, lookup_insert_eq, lookup_insert_ne by (done || apply not_elem_of_nil).
  split; [exists content; split; [congruence|done]|]. intros Hd. by rewrite H2, H1, lookup_insert_eq by by apply sidecar_not_formatter.
Qed.

Definition handled (w : HW) (r : bool * option goerror) (w' : HW) : Prop :=
  match r with
  | (true, None) => ∃ c c', w_files w !! target = Some c ∧ w_files w' !! target = Some c' ∧ contains c' marker = true ∧
      (contains c marker = true → c' = c) ∧ (hookHasSidecar c hookName = true ∨ hookIsManaged c hookName = false)
  | (false, None) => w_files w' !! target = w_files w !! target ∧
      (∀ c, w_files w !! target = Some c → contains c marker = false)
  | _ => True
  end.

Lemma returns_handleExistingGitHook w :
  returns (handleExistingGitHook embeddedHooks getenv target dir hookName embeddedPath) (handled w) w.
Proof using Hbody Htarget Hquote Hdir HF.
  apply returns_bind. eapply returns_weaken; [apply returns_readExistingHook|].
  intros [[content|]|e] w1 [Ho Hc]; [|apply returns_ret; cbn; rewrite (view_kept w w1 Ho); by rewrite Hc|by apply returns_ret].
  pose proof (view_kept w w1 Ho) as Hv. destruct (hookHasSidecar content hookName) eqn:Hs.
  { apply returns_bind. eapply returns_weaken; [apply wins_refreshHookSidecar; [by rewrite Hv|done]|].
    intros [e|] w2 H2; apply returns_ret; [done|]. destruct (H2 eq_refl) as (c & ? & ? & ?). exists content, c. split_and!; auto. }
  assert (contains content marker = false) as Hm.
  { destruct (contains content marker) eqn:Hm; [|done]. by rewrite has_sidecar_current in Hs. }
  destruct (hookIsManaged content hookName) eqn:Hmg.
  { apply returns_ret. split; [done|]. intros c Hc'. rewrite Hc in Hc'. by injection Hc' as <-. }
  apply returns_bind. eapply returns_weaken.
  { apply (returns_frame []). unfold knownOwnerChainSignature. pose proof (frames_chain []). hook_frame. }
  intros composed w2 H2. pose proof (view_kept w1 w2 H2) as Hv2. destruct composed.
  - apply returns_bind. eapply returns_weaken; [apply wins_appendHookSidecar|].
    intros [e|] w3 H3; apply returns_ret; [done|]. destruct (H3 eq_refl) as [(c & Hc3 & Hw3) _].
    assert (c = content) as -> by congruence. eexists content, _. split; [done|]. split; [exact Hw3|].
    split; [apply with_call_marked|]. split; [by rewrite Hm|by right].
  - destruct (String.eqb _ "1"); [|do 2 (apply returns_bind; intros [] ? [= <-]); by apply returns_ret].
    apply returns_ret. split; [by rewrite Hv2|]. intros c Hc'. rewrite Hc in Hc'. by injection Hc' as <-.
Qed.

(** git names the path of the hook. *)
Definition git_names (repoRoot : string) : Prop := ∀ t files dirs, ∃ output,
  git repoRoot ["rev-parse"; "--git-path"; "hooks/" +:+ hookName] t files dirs = Returned (output, None) ∧
  target = (if is_abs (trim_space output) then trim_space output else path_join [repoRoot; trim_space output]).

Lemma gitHookPath_named repoRoot w : git_names repoRoot → gitHookPath git repoRoot hookName w = (Returned (Ok target), tick w).
Proof using.
  intros Hg. destruct (Hg (w_clock w) (w_files w) (w_dirs w)) as (output & Hr & Ht).
  unfold gitHookPath, gitOutput, bind, call. rewrite Hr. cbn. by rewrite <-Ht.
Qed.

(** A step that changes nothing in view, before the rest of an installation. *)
Lemma wins_installGitHook_from repoRoot P w : git_names repoRoot →
  (∀ w1, outside [] w w1 → returns (handleExistingGitHook embeddedHooks getenv target dir hookName embeddedPath)
     (λ r w2, match r with
              | (true, None) => P w2
              | (false, None) => wins (try! writeEmbeddedExecutable embeddedHooks embeddedPath target in
                    try! writeFormatter embeddedHooks dir in
                    try! refreshOrphanSidecars embeddedHooks dir hookName embeddedPath in
                    let! _ := print_out ("installed " +:+ target +:+ LF) in ret None) P w2
              | _ => True
              end) w1) →
  wins (installGitHook embeddedHooks getenv git repoRoot hookName embeddedPath) P w.
Proof using.
  intros Hg H. apply returns_bind. intros r w1. rewrite (gitHookPath_named repoRoot w Hg). intros [= <- <-].
  apply returns_bind. eapply returns_weaken; [apply (returns_frame []), frames_MkdirAll|]. intros [e|] w2 H2; [by apply returns_ret|].
  apply returns_bind. eapply returns_weaken; [apply H; by intros p Hp; rewrite (H2 p Hp)|].
  intros [[] [e|]] w3 H3; try (by apply returns_ret). exact H3.
Qed.

(** A success leaves a hook that is settled, and leaves a settled one as it was. *)
Lemma wins_installGitHook repoRoot w : git_names repoRoot → hookHasSidecar body hookName = false → hookIsManaged body hookName = true →
  wins (installGitHook embeddedHooks getenv git repoRoot hookName embeddedPath)
    (λ w', ∃ c', w_files w' !! target = Some c' ∧ settled c' ∧ (∀ c, w_files w !! target = Some c → settled c → c' = c)) w.
Proof using Hbody Htarget Hquote Hdir HF.
  intros Hg Hb1 Hb2. apply wins_installGitHook_from; [done|]. intros w1 H1. pose proof (view_kept w w1 H1) as Hv1.
  eapply returns_weaken; [apply returns_handleExistingGitHook|]. intros [[] [e|]] w2; [done| |done|].
  - intros (c & c' & Hc & Hc' & Hm & Hk & Hs). exists c'. split; [done|]. split; [by right|].
    intros c0 Hc0 Hs0. rewrite <-Hv1, Hc in Hc0. injection Hc0 as <-. destruct Hs0 as [->|Hm0]; [|by apply Hk].
    destruct Hs; congruence.
  - intros [Hk Hn]. apply wins_try. eapply returns_weaken; [apply wins_writeEmbedded, Hbody|]. intros [e|] w3 H3; [done|].
    intros _. specialize (H3 eq_refl). apply wins_try. apply (wins_frame (artifacts dir hookName)); [eauto with hooks|]. intros w4 H4.
    apply wins_try. apply (wins_frame (artifacts dir hookName)); [apply frames_refresh_orphans; eauto with hooks|]. intros w5 H5.
    apply wins_print. intros w6 H6. exists body.
    rewrite (view_kept w5 w6 H6), (target_kept w4 w5 H5), (target_kept w3 w4 H4), H3, lookup_insert_eq.
    split; [done|]. split; [by left|]. intros c Hc [->|Hm]; [done|]. rewrite <-Hv1 in Hc. by rewrite (Hn c Hc) in Hm.
Qed.

(** Installing a git hook again changes nothing of it: after an installation that
    succeeded, on whatever was there, another that succeeds leaves the hook as it is,
    so that the call of the sidecar is there once. *)
Theorem installGitHook_idempotent repoRoot w w1 w2 : git_names repoRoot →
  hookHasSidecar body hookName = false → hookIsManaged body hookName = true →
  installGitHook embeddedHooks getenv git repoRoot hookName embeddedPath w = (Returned None, w1) →
  installGitHook embeddedHooks getenv git repoRoot hookName embeddedPath w1 = (Returned None, w2) →
  w_files w2 !! target = w_files w1 !! target.
Proof using Hbody Htarget Hquote Hdir HF.
  intros Hg Hb1 Hb2 H1 H2.
  destruct (wins_installGitHook repoRoot w Hg Hb1 Hb2 _ _ H1 eq_refl) as (c1 & Hc1 & Hs1 & _).
  destruct (wins_installGitHook repoRoot w1 Hg Hb1 Hb2 _ _ H2 eq_refl) as (c2 & Hc2 & _ & Hk).
  by rewrite Hc2, Hc1, (Hk c1 Hc1 Hs1).
Qed.


(** ** Hooks of other owners *)

(** A hook that nothing allows the installer to compose with or to replace. *)
Record foreign (files : gmap string string) (content : string) : Prop := {
  no_sidecar : hookHasSidecar content hookName = false;
  not_managed : hookIsManaged content hookName = false;
  no_signature : knownOwnerSignature content = false;
  no_chain suffix c : suffix ∈ chainSiblingSuffixes → contains content (hookName +:+ suffix) = true →
    files !! path_join [dir; hookName +:+ suffix] = Some c → knownOwnerSignature c = false;
}.

Lemma ends_chain files content suffixes w : foreign files content → suffixes ⊆ chainSiblingSuffixes → w_files w = files →
  ends (chain_signature dir hookName content suffixes) (λ r w', r = false ∧ w_files w' = files) w.
Proof using.
  intros Hf. revert w. induction suffixes as [|suffix rest IH]; intros w Hs Hw; cbn [chain_signature]; [by apply ends_ret|].
  assert (rest ⊆ chainSiblingSuffixes) as Hrest by (intros x Hx; apply Hs; by right).
  destruct (negb (contains content (hookName +:+ suffix))) eqn:Hn; [by apply IH|]. apply negb_false_iff in Hn.
  apply ends_bind, ends_total; [apply total_read_file|]. eapply returns_weaken; [apply returns_read_file|].
  intros [c [e|]] w1 [Ho Hc].
  all: assert (w_files w1 = files) as Hw1 by (rewrite <-Hw; apply map_eq; intros p; apply Ho, not_elem_of_nil).
  - by apply IH.
  - rewrite Hw in Hc. rewrite (no_chain _ _ Hf suffix c); [by apply IH|apply Hs; by left|done|done].
Qed.

Hypothesis (Happend : getenv "AGENT_FITNESS_FUNCTIONS_HOOK_APPEND" ≠ "1").
Hypothesis (Hoverwrite : getenv "AGENT_FITNESS_FUNCTIONS_HOOK_OVERWRITE" ≠ "1").

Lemma ends_resolve content w : foreign (w_files w) content →
  ends (resolveUnmanagedHook embeddedHooks getenv target dir hookName embeddedPath content)
    (λ r w', is_Some r.2 ∧ w_files w' = w_files w) w.
Proof using Happend Hoverwrite.
  intros Hf. unfold resolveUnmanagedHook. rewrite (no_signature _ _ Hf). apply ends_bind, ends_bind.
  destruct (ends_chain (w_files w) content chainSiblingSuffixes w Hf) as (r & w1 & Hr & -> & Hw1); [done|done|].
  unfold knownOwnerChainSignature. exists false, w1. split; [done|]. apply ends_ret.
  apply String.eqb_neq in Happend, Hoverwrite. rewrite Happend, Hoverwrite. cbn [orb].
  do 2 (apply ends_bind; eexists tt, _; split; [reflexivity|]). by apply ends_ret.
Qed.

(** An installation that finds a foreign hook reports an error and changes no file. *)
Lemma ends_foreign repoRoot content w : git_names repoRoot → w_files w !! target = Some content → foreign (w_files w) content →
  ends (installGitHook embeddedHooks getenv git repoRoot hookName embeddedPath) (λ r w', is_Some r ∧ w_files w' = w_files w) w.
Proof using Happend Hoverwrite HF.
  intros Hg Hc Hf. apply ends_bind. eexists _, _. split; [by apply gitHookPath_named|].
  assert (∀ w1 w2, outside [] w1 w2 → w_files w2 = w_files w1) as Hsame by (intros w1 w2 H; apply map_eq; intros p; apply H, not_elem_of_nil).
  apply ends_bind, ends_total; [apply total_os_op|]. eapply returns_weaken; [apply (returns_frame []), frames_MkdirAll|].
  intros [e|] w1 H1%Hsame; [by apply ends_ret|]. apply ends_bind, ends_bind, ends_total.
  { apply total_bind; [apply total_os_op|]. intros [b|e]; [|apply total_ret].
    apply total_bind; [apply total_read_file|]. intros; apply total_ret. }
  eapply returns_weaken; [apply returns_readExistingHook|]. intros [x|e] w2 [H2%Hsame Hx]; rewrite H1 in H2; cbn in H2; [|by apply ends_ret; cbn; apply ends_ret].
  rewrite H1 in Hx. cbn in Hx. rewrite Hc in Hx. subst x.
  rewrite (no_sidecar _ _ Hf), (not_managed _ _ Hf).
  destruct (ends_resolve content w2) as (r & w3 & Hr & [err He] & Hw3); [by rewrite H2|].
  exists r, w3. split; [done|]. destruct r as [handled e]. cbn in He. subst e.
  destruct handled; apply ends_ret; (split; [done|]); by rewrite Hw3.
Qed.
End hook.

(** C10: a pre-commit hook of an owner the installer does not know is left alone.  The hook
    carries none of this program's markers and no signature of Beads or Lefthook, with
    which the installer composes unasked, and nor does a sibling it names; then, unless
    the environment opts in, installation fails and no file is changed, whatever fails. *)
Theorem RunInstallHooks_refuses_foreign repo repoRoot target content w :
  (∀ t files dirs, ∃ output, git repo ["rev-parse"; "--show-toplevel"] t files dirs = Returned (output, None) ∧ trim_space output = repoRoot) →
  git_names "pre-commit" target repoRoot → w_files w !! target = Some content → foreign "pre-commit" target (w_files w) content →
  getenv "AGENT_FITNESS_FUNCTIONS_HOOK_APPEND" ≠ "1" → getenv "AGENT_FITNESS_FUNCTIONS_HOOK_OVERWRITE" ≠ "1" →
  ∃ err w', RunInstallHooks embeddedHooks getenv git [repo] w = (Returned (Some err), w') ∧ w_files w' = w_files w.
Proof using HF.
  intros Hroot Hg Hc Hf Ha Ho. destruct (Hroot (w_clock w) (w_files w) (w_dirs w)) as (output & Hr & Ht).
  destruct (ends_foreign "pre-commit" "hookassets/pre-commit.sh" target Ha Ho repoRoot content (tick w) Hg Hc Hf) as (r & w' & Hrun & [err ->] & Hw).
  assert (ends (RunInstallHooks embeddedHooks getenv git [repo]) (λ r w', is_Some r ∧ w_files w' = w_files w) w) as (r & w2 & Hr2 & [e ->] & ?); [|eauto].
  apply ends_bind. eexists (Ok repoRoot), _. split; [unfold gitOutput, bind, call; change (default "." (head [repo])) with repo; rewrite Hr, <-Ht; reflexivity|].
  apply ends_bind. exists (Some err), w'. split; [exact Hrun|]. by apply ends_ret.
Qed.
End operations.
