(* ===== verification/HooksSettings.v ===== *)
(** * The settings of the agents

    What [install-hooks] does to .claude/settings.json and .codex/hooks.json: the
    upsert of an entry, its frame, and its stability through the file. *)

From stdpp Require Import base gmap strings list fin_maps.
From Stdlib Require Import ZArith Lia Ascii.
From S2P Require Import Prelude GoStrings GoErrors GoFloat GoJson GoJsonPrint GoOS Hooks HooksText HooksProofs.
Set Default Goal Selector "!".

(** ** Objects and maps *)

Lemma members_obj_of m : members (obj_of m) = m.
Proof.
  unfold members, obj_of. rewrite <-(list_to_map_to_list m) at 2. symmetry. apply list_to_map_proper.
  - apply NoDup_fst_map_to_list.
  - by rewrite <-Permutation_rev, stable_sort_perm.
Qed.
Lemma obj_of_object m : ∃ fs, obj_of m = JObj fs ∧ fs ≡ₚ map_to_list m.
Proof. eexists. split; [reflexivity|apply stable_sort_perm]. Qed.

Lemma ensureHooksSection_set s hooks entries : ensureHooksSection (set_entries s hooks entries) = <["PreToolUse" := JArr entries]> hooks.
Proof.
  unfold ensureHooksSection, set_entries. rewrite lookup_insert_eq.
  destruct (obj_of_object (<["PreToolUse" := JArr entries]> hooks)) as (fs & Hfs & _). rewrite Hfs, <-Hfs. apply members_obj_of.
Qed.
Lemma preToolUseEntries_set hooks entries : preToolUseEntries (<["PreToolUse" := JArr entries]> hooks) = entries.
Proof. unfold preToolUseEntries. by rewrite lookup_insert_eq. Qed.

(** ** The upsert *)

Definition entries_of (s : settings) : list json := preToolUseEntries (ensureHooksSection s).
Definition is_entry (markers : list string) (e : json) : Prop :=
  ∃ command, hookEntryCommand e = Some command ∧ commandMatchesMarker command markers = true.

Lemma find_entry_spec i l markers :
  match find_entry i l markers with
  | Some (n, command) => ∃ pre e post, l = pre ++ e :: post ∧ n = (i + length pre)%nat ∧
      hookEntryCommand e = Some command ∧ commandMatchesMarker command markers = true ∧ Forall (λ e, ¬ is_entry markers e) pre
  | None => Forall (λ e, ¬ is_entry markers e) l
  end.
Proof.
  revert i. induction l as [|e l IH]; intros i; cbn [find_entry]; [constructor|].
  destruct (hookEntryCommand e) as [command|] eqn:He.
  - destruct (commandMatchesMarker command markers) eqn:Hm; [by exists [], e, l; split_and!; rewrite ?Nat.add_0_r|].
    assert (¬ is_entry markers e) as Hn by (intros (c & Hc & Hcm); congruence).
    specialize (IH (S i)). destruct (find_entry (S i) l markers) as [[n c]|]; [|by constructor].
    destruct IH as (pre & e' & post & -> & -> & ? & ? & ?). exists (e :: pre), e', post. split_and!; try done; [cbn; lia|by constructor].
  - assert (¬ is_entry markers e) as Hn by (intros (c & Hc & Hcm); congruence).
    specialize (IH (S i)). destruct (find_entry (S i) l markers) as [[n c]|]; [|by constructor].
    destruct IH as (pre & e' & post & -> & -> & ? & ? & ?). exists (e :: pre), e', post. split_and!; try done; [cbn; lia|by constructor].
Qed.

(** A spec whose entry is found again. *)
Definition recognizes_itself (spec : claudeHookSpec) : Prop :=
  hookEntryCommand (spec_entry spec) = Some (spec_command spec) ∧
  commandMatchesMarker (spec_command spec) (spec_markers spec) = true.

Lemma find_entry_at i pre e post command markers : Forall (λ e, ¬ is_entry markers e) pre → hookEntryCommand e = Some command →
  commandMatchesMarker command markers = true → find_entry i (pre ++ e :: post) markers = Some ((i + length pre)%nat, command).
Proof.
  intros Hpre He Hm. revert i. induction Hpre as [|x pre Hx _ IH]; intros i; cbn [app find_entry].
  - rewrite He, Hm. by rewrite Nat.add_0_r.
  - destruct (hookEntryCommand x) as [c|] eqn:Hc.
    + destruct (commandMatchesMarker c markers) eqn:Hcm; [by destruct Hx; exists c|]. rewrite IH. do 2 f_equal. cbn. lia.
    + rewrite IH. do 2 f_equal. cbn. lia.
Qed.

(** Where the upsert puts the entry. *)
Lemma upsert_place s spec : ∃ pre old post,
  entries_of s = pre ++ old ++ post ∧ Forall (λ e, ¬ is_entry (spec_markers spec) e) pre ∧
  (old = [] ∧ post = [] ∨ ∃ e, old = [e] ∧ is_entry (spec_markers spec) e) ∧
  (upsertClaudeHook s spec).2 = set_entries s (ensureHooksSection s) (pre ++ spec_entry spec :: post).
Proof.
  unfold upsertClaudeHook, findClaudeHookEntry. fold (entries_of s).
  pose proof (find_entry_spec 0 (entries_of s) (spec_markers spec)) as H.
  destruct (find_entry 0 _ _) as [[n command]|].
  - destruct H as (pre & e & post & Hl & -> & He & Hm & Hpre). exists pre, [e], post. split; [done|]. split; [done|].
    split; [right; exists e; split; [done|]; by exists command|]. cbn [snd]. by rewrite Hl, Nat.add_0_l, insert_app_r_alt, Nat.sub_diag by lia.
  - exists (entries_of s), [], []. rewrite !app_nil_r. split; [done|]. split; [done|]. split; [by left|done].
Qed.

Lemma upsert_again s spec : recognizes_itself spec →
  upsertClaudeHook (upsertClaudeHook s spec).2 spec = (spec_name spec +:+ " already configured", (upsertClaudeHook s spec).2).
Proof.
  intros [Hc Hm]. destruct (upsert_place s spec) as (pre & old & post & _ & Hpre & _ & ->).
  unfold upsertClaudeHook, findClaudeHookEntry. rewrite ensureHooksSection_set, preToolUseEntries_set.
  rewrite (find_entry_at 0 pre _ post _ _ Hpre Hc Hm), String.eqb_refl. f_equal.
  unfold set_entries. by rewrite !insert_insert_eq, Nat.add_0_l, insert_app_r_alt, Nat.sub_diag by lia.
Qed.

(** An upsert changes one entry and nothing else: every other setting, every other
    kind of hook and every other entry, in order, stays as it was, the entry of the
    product is there, and doing it again is a no-op that says so. *)
Theorem upsertClaudeHook_spec s spec (Hself : recognizes_itself spec) :
  let s' := (upsertClaudeHook s spec).2 in
  (∀ k, k ≠ "hooks" → s' !! k = s !! k) ∧
  (∀ k, k ≠ "PreToolUse" → ensureHooksSection s' !! k = ensureHooksSection s !! k) ∧
  (∃ pre old post, entries_of s = pre ++ old ++ post ∧ entries_of s' = pre ++ spec_entry spec :: post ∧
     Forall (λ e, ¬ is_entry (spec_markers spec) e) pre ∧
     (old = [] ∧ post = [] ∨ ∃ e, old = [e] ∧ is_entry (spec_markers spec) e)) ∧
  upsertClaudeHook s' spec = (spec_name spec +:+ " already configured", s').
Proof.
  intros s'. split; [|split; [|split; [|by apply upsert_again]]]; subst s';
    destruct (upsert_place s spec) as (pre & old & post & Hl & Hpre & Hold & ->).
  - intros k Hk. unfold set_entries. by rewrite lookup_insert_ne by congruence.
  - intros k Hk. rewrite ensureHooksSection_set. by rewrite lookup_insert_ne by congruence.
  - exists pre, old, post. unfold entries_of at 2. by rewrite ensureHooksSection_set, preToolUseEntries_set.
Qed.

Lemma gitGuard_recognized : recognizes_itself (gitGuardSpec gitGuardName).
Proof. split; vm_compute; reflexivity. Qed.
Lemma agentHook_recognized tool : tool = "claude-code" ∨ tool = "codex" → recognizes_itself (agentHookSpec agentHookName tool).
Proof. intros [->| ->]; split; vm_compute; reflexivity. Qed.

(** ** Documents that are read back as they are written *)

Section documents.
Context {N : JsonNumberText}.

(** ASCII, with numbers as they are printed and in range, decoded. *)
Record good (j : json) : Prop := {
  good_plain : plain j = true;
  good_range : any_ok j = true;
  good_fixed : to_any j = j;
}.
Definition valid (m : settings) : Prop := ∀ k v, m !! k = Some v → ascii_text k = true ∧ good v.

Lemma good_obj m : valid m → good (obj_of m).
Proof.
  intros Hm. destruct (obj_of_object m) as (fs & Hfs & Hperm). rewrite Hfs.
  assert (∀ kv, kv ∈ fs → ascii_text kv.1 = true ∧ good kv.2) as Hall.
  { intros [k v] Hin. apply Hm. apply elem_of_map_to_list. by rewrite <-Hperm. }
  split.
  - cbn [plain]. apply forallb_forall. intros kv Hin%list_elem_of_In. destruct (Hall kv Hin) as [Hk Hg].
    unfold ascii_text in Hk. by rewrite Hk, (good_plain _ Hg).
  - cbn [any_ok]. apply forallb_forall. intros kv Hin%list_elem_of_In. apply (good_range _), Hall, Hin.
  - cbn [to_any]. rewrite <-Hfs, <-(members_obj_of m) at 1. f_equal. rewrite Hfs. unfold members. do 2 f_equal.
    transitivity (map id fs); [|apply map_id]. apply map_ext_in. intros [k v] Hin%list_elem_of_In. unfold id. f_equal.
    apply (good_fixed _), (Hall (k, v)), Hin.
Qed.

Lemma good_arr l : good (JArr l) ↔ Forall good l.
Proof.
  split.
  - intros [Hp Hr Hf]. cbn in Hp, Hr, Hf. injection Hf as Hf. rewrite forallb_forall in Hp, Hr. apply Forall_forall.
    intros v Hv. pose proof (proj1 (list_elem_of_In _ _) Hv) as Hv'. split; [by apply Hp|by apply Hr|].
    apply list_elem_of_lookup in Hv as [i Hi]. pose proof (f_equal (λ x, x !! i) Hf) as Hx. cbn in Hx.
    rewrite list_lookup_fmap, Hi in Hx. by injection Hx.
  - intros H. rewrite Forall_forall in H. split; cbn.
    + apply forallb_forall. intros v Hv%list_elem_of_In. by apply good_plain, H.
    + apply forallb_forall. intros v Hv%list_elem_of_In. by apply good_range, H.
    + f_equal. transitivity (map id l); [|apply map_id]. apply map_ext_in. intros v Hv%list_elem_of_In. by apply good_fixed, H.
Qed.

Lemma good_to_any j : plain j = true → any_ok j = true → good (to_any j).
Proof.
  induction j as [|b|l|s|l IH|fs IH] using json_ind'; intros Hp Hr; [done..| |].
  - cbn [plain any_ok to_any] in *. apply good_arr. rewrite forallb_forall in Hp, Hr. rewrite Forall_forall in IH |- *.
    intros v (x & -> & Hx)%list_elem_of_fmap. apply IH; [done|apply Hp|apply Hr]; by apply list_elem_of_In.
  - cbn [plain any_ok to_any] in *. apply good_obj. rewrite forallb_forall in Hp, Hr. rewrite Forall_forall in IH.
    intros k v Hkv. apply elem_of_list_to_map_2 in Hkv. rewrite elem_of_rev in Hkv.
    apply list_elem_of_fmap in Hkv as ([k' x] & [= -> ->] & Hx). pose proof (proj1 (list_elem_of_In _ _) Hx) as Hx'.
    specialize (Hp _ Hx') as [Ha Hv]%andb_true_iff. split; [exact Ha|]. by apply (IH _ Hx), (Hr _ Hx').
Qed.

Lemma valid_members fs : good (JObj fs) → valid (members (JObj fs)).
Proof.
  intros [Hp Hr Hf] k v Hkv. apply elem_of_list_to_map_2 in Hkv. rewrite elem_of_rev in Hkv.
  pose proof (proj1 (list_elem_of_In _ _) Hkv) as Hin. cbn [plain any_ok] in Hp, Hr. rewrite forallb_forall in Hp, Hr.
  pose proof (Hp _ Hin) as [Ha _]%andb_true_iff. split; [exact Ha|].
  cbn [to_any] in Hf. destruct (obj_of_object (list_to_map (rev (map (λ kv, (kv.1, to_any kv.2)) fs)))) as (fs' & Hfs' & Hperm).
  rewrite Hfs' in Hf. injection Hf as ->. rewrite Hperm in Hkv. apply elem_of_map_to_list, elem_of_list_to_map_2 in Hkv.
  rewrite elem_of_rev in Hkv. apply list_elem_of_fmap in Hkv as ([k' x] & [= -> ->] & Hx). apply list_elem_of_In in Hx.
  apply good_to_any; [by destruct (andb_prop _ _ (Hp _ Hx))|exact (Hr _ Hx)].
Qed.

Lemma valid_empty : valid ∅.
Proof. intros k v. by rewrite lookup_empty. Qed.
Lemma valid_insert m k v : ascii_text k = true → good v → valid m → valid (<[k := v]> m).
Proof. intros Hk Hv Hm k' v'. destruct (decide (k = k')) as [->|]; [rewrite lookup_insert_eq; by intros [= <-]|]. rewrite lookup_insert_ne by done. apply Hm. Qed.

Lemma valid_hooks s : valid s → valid (ensureHooksSection s).
Proof.
  intros Hs. unfold ensureHooksSection. destruct (s !! "hooks") as [[]|] eqn:H; try apply valid_empty. apply valid_members. by apply Hs in H as [_ ?].
Qed.
Lemma good_entries s : valid s → Forall good (entries_of s).
Proof.
  intros Hs%valid_hooks. unfold entries_of, preToolUseEntries. destruct (_ !! _) as [[]|] eqn:H; try constructor. apply Hs in H as [_ ?]. by apply good_arr.
Qed.
Lemma valid_upsert s spec : good (spec_entry spec) → valid s → valid (upsertClaudeHook s spec).2.
Proof.
  intros He Hs. destruct (upsert_place s spec) as (pre & old & post & Hl & _ & _ & ->).
  pose proof (good_entries s Hs) as Hg. rewrite Hl, !Forall_app in Hg. destruct Hg as (Hpre & _ & Hpost).
  apply valid_insert; [done| |done]. apply good_obj, valid_insert; [done| |by apply valid_hooks].
  apply good_arr, Forall_app. split; [done|by constructor].
Qed.
End documents.

Lemma gitGuard_good {N : JsonNumberText} : good (spec_entry (gitGuardSpec gitGuardName)).
Proof. split; vm_compute; reflexivity. Qed.
Lemma agentHook_good {N : JsonNumberText} tool : tool = "claude-code" ∨ tool = "codex" → good (spec_entry (agentHookSpec agentHookName tool)).
Proof. intros [->| ->]; split; vm_compute; reflexivity. Qed.

(** ** The files *)

Section files.
Context {E : OSEnv} {J : JsonErrorText} {N : JsonNumberText}.

(** The settings a file holds. *)
Definition holds_settings (files : gmap string string) (path : string) (s : settings) : Prop :=
  ∃ content, files !! path = Some content ∧ trim_space content ≠ "" ∧ json_parse content ≫= dec_any_map = Some (Some s).

(** Reads of the file do not fail. *)
Definition readable (path : string) : Prop := ∀ t op, os_fault t op path = None.

Lemma returns_read_readable path content w : readable path → w_files w !! path = Some content →
  returns (read_file path) (λ r w', r = (content, None) ∧ w_files w' = w_files w) w.
Proof.
  intros Hr Hc. apply returns_bind, returns_os_op; [intros e He; by rewrite Hr in He|]. rewrite Hc. cbn.
  apply returns_os_op; [intros e He; by rewrite Hr in He|done].
Qed.

Lemma returns_loadClaudeSettings path s w : readable path → holds_settings (w_files w) path s →
  returns (loadClaudeSettings path) (λ r w', (∀ x, r = Ok x → x = Some s) ∧ w_files w' = w_files w) w.
Proof.
  intros Hr (content & Hc & Ht & Hj). apply returns_bind, returns_os_op; [intros e _; by apply returns_ret|]. cbn.
  apply returns_bind. eapply returns_weaken; [by apply returns_read_readable|]. intros r w' [-> Hw]. cbn in Hw.
  apply String.eqb_neq in Ht. rewrite Ht. cbn [orb]. rewrite Hj. apply returns_ret. split; [by intros x [= <-]|done].
Qed.

Lemma wins_applyCodexHook repoRoot spec s w :
  let path := path_join [repoRoot; ".codex"; "hooks.json"] in
  readable path → holds_settings (w_files w) path s →
  wins (applyCodexHook repoRoot spec)
    (λ w', w_files w' = <[path := MarshalIndent (obj_of (upsertClaudeHook s spec).2) +:+ LF]> (w_files w)) w.
Proof.
  intros path Hr Hs. apply returns_bind, returns_os_op; [intros e _; by apply returns_ret|]. cbn.
  apply returns_bind. eapply returns_weaken; [apply (returns_loadClaudeSettings path s); [done|exact Hs]|].
  intros [x|e] w1 [Hx Hw1]; [|by apply returns_ret]. rewrite (Hx x eq_refl). apply returns_bind, returns_ret.
  apply returns_bind, returns_bind. eapply returns_weaken; [apply wins_write_file|]. intros [e|] w2 H2; apply returns_ret; cbn; [by apply returns_ret|].
  apply wins_print. intros w3 H3. assert (w_files w3 = w_files w2) as -> by (apply map_eq; intros p; apply H3, not_elem_of_nil).
  by rewrite (H2 eq_refl), Hw1.
Qed.

Lemma trim_space_brace s : trim_space (String "{"%char s) ≠ "".
Proof.
  unfold trim_space, segments. change (bytes (String "{"%char s)) with ("{"%char :: bytes s).
  cbn [segments_go]. change (decode_rune ("{"%char :: bytes s)) with (123%Z, 1%nat). cbn [take pred drop_while is_space fst].
  change (is_space 123) with false. cbn iota. unfold drop_while_end. rewrite <-rev_involutive with (l := (123%Z, ["{"%char]) :: _).
  intros H. apply (f_equal bytes) in H. rewrite bytes_of_bytes in H. cbn [rev] in H. rewrite rev_involutive in H. cbn [rev] in H.
  assert (∀ l : list (Z * list ascii), ∃ l', drop_while (λ p, is_space p.1) (l ++ [(123%Z, ["{"%char])]) = l' ++ [(123%Z, ["{"%char])]) as Hd.
  { induction l as [|x l [l' IH]]; [by exists []|]. cbn [app drop_while]. destruct (is_space x.1); [by exists l'|]. by exists (x :: l). }
  destruct (Hd (rev (segments_go 0 (bytes s)))) as [l' Hl']. rewrite Hl', rev_app_distr in H. done.
Qed.

Lemma holds_written files path s : valid s → files !! path = Some (MarshalIndent (obj_of s) +:+ LF) → holds_settings files path s.
Proof.
  intros Hs Hf. eexists. split; [exact Hf|]. pose proof (good_obj s Hs) as Hg. split.
  - destruct (obj_of_object s) as (fs & -> & _). unfold MarshalIndent. cbn [json_print]. unfold enclose. destruct (map _ fs); apply trim_space_brace.
  - rewrite json_print_parse_space; [|by apply good_plain|done]. cbn [mbind option_bind]. unfold dec_any_map.
    rewrite (good_fixed _ Hg), members_obj_of, (good_range _ Hg). by destruct (obj_of_object s) as (fs & -> & _).
Qed.

(** An upsert through the file is stable: an installation into a settings file with
    ASCII text and canonical numbers writes the document with the one entry upserted,
    and a second installation leaves the file as it is, byte for byte. *)
Theorem applyCodexHook_stable repoRoot spec s w w1 w2 :
  let path := path_join [repoRoot; ".codex"; "hooks.json"] in
  readable path → holds_settings (w_files w) path s → valid s → recognizes_itself spec → good (spec_entry spec) →
  applyCodexHook repoRoot spec w = (Returned None, w1) → applyCodexHook repoRoot spec w1 = (Returned None, w2) →
  holds_settings (w_files w1) path (upsertClaudeHook s spec).2 ∧ w_files w2 = w_files w1 ∧
  (∀ p, p ≠ path → w_files w1 !! p = w_files w !! p).
Proof.
  intros path Hr Hs Hv Hself He H1 H2. pose proof (wins_applyCodexHook repoRoot spec s w Hr Hs _ _ H1 eq_refl) as Hw1. cbn in Hw1. fold path in Hw1.
  assert (holds_settings (w_files w1) path (upsertClaudeHook s spec).2) as Hs1.
  { apply holds_written; [by apply valid_upsert|]. by rewrite Hw1, lookup_insert_eq. }
  pose proof (wins_applyCodexHook repoRoot spec _ w1 Hr Hs1 _ _ H2 eq_refl) as Hw2. cbn in Hw2. fold path in Hw2.
  rewrite (upsert_again s spec Hself) in Hw2. cbn [snd] in Hw2.
  split; [done|]. split; [|intros p Hp; by rewrite Hw1, lookup_insert_ne by congruence].
  rewrite Hw2, Hw1. by rewrite insert_insert_eq.
Qed.
End files.
