(* ===== verification/HooksExamples.v ===== *)
(** * Installations of hooks, run

    A repository with a hook of another owner, and the cases in which the installer
    does not do what it means to. *)

From stdpp Require Import base gmap strings list fin_maps.
From Stdlib Require Import ZArith Lia Ascii.
From S2P Require Import Prelude GoStrings GoErrors GoFloat GoJson GoJsonPrint GoOS Hooks HooksText HooksProofs HooksSettings.
Set Default Goal Selector "!".

Module HooksExamples.

#[local] Existing Instance basic_unicode.
#[local] Instance errors : JsonErrorText := λ _, "invalid document".
#[local] Instance numbers : JsonNumberText := λ l, l.
#[local] Existing Instance reliable_os.

(** git in a repository at /work/shop, and the opening lines of the assets. *)
Definition git : string → list string → external (string * option goerror) := λ _ args _ _ _,
  Returned (match args with
            | [_; _; name] => (".git/" +:+ name +:+ LF, None)
            | _ => ("/work/shop" +:+ LF, None)
            end).
Definition script (name : string) : string :=
  "#!/usr/bin/env bash" +:+ LF +:+ "# agent-fitness-functions " +:+ name +:+ LF +:+ "set -euo pipefail" +:+ LF.
Definition assets (path : string) : option string :=
  if String.eqb path "hookassets/pre-commit.sh" then Some (script "pre-commit hook")
  else if String.eqb path "hookassets/pre-push.sh" then Some (script "pre-push hook")
  else Some (script "asset").
Definition no_variables : string → string := λ _, "".

Definition hook : string := "/work/shop/.git/hooks/pre-commit".
Definition sidecar : string := "/work/shop/.git/hooks/agent-fitness-functions-pre-commit".

(** A hook that Beads and Lefthook share, and one of nobody the installer knows. *)
Definition host : string :=
  "#!/usr/bin/env bash" +:+ LF +:+ "# --- BEGIN BEADS INTEGRATION v1.2.2 ---" +:+ LF
  +:+ "exec lefthook run pre-commit" +:+ LF +:+ LF.
Definition stranger : string := "#!/bin/sh" +:+ LF +:+ "make lint" +:+ LF.

Definition world_with (files : list (string * string)) : world streams :=
  mkWorld (mkStreams [] []) (list_to_map files) ∅ 0.
Definition install (w : world streams) : outcome (option goerror) * world streams :=
  installGitHook assets no_variables git "/work/shop" "pre-commit" "hookassets/pre-commit.sh" w.

#[local] Instance reliable_honest : HonestFaults reliable_os.
Proof. by intros t op p e. Qed.

Lemma named : git_names git "pre-commit" hook "/work/shop".
Proof. intros t files dirs. eexists. split; [reflexivity|vm_compute; reflexivity]. Qed.
Lemma toplevel : ∀ t files dirs, ∃ output, git "/work/shop" ["rev-parse"; "--show-toplevel"] t files dirs = Returned (output, None) ∧
  trim_space output = "/work/shop".
Proof. intros t files dirs. eexists. split; [reflexivity|vm_compute; reflexivity]. Qed.
Lemma apart : hook ∉ artifacts (path_dir hook) "pre-commit".
Proof. apply (bool_decide_unpack _). vm_compute. exact I. Qed.
Lemma unmarked : Forall (λ name, contains (quote (path_join [path_dir hook; name])) (sidecarHookMarker "pre-commit") = false) (sidecarHookNames "pre-commit").
Proof. repeat constructor; vm_compute; reflexivity. Qed.
Lemma unquoted : "034"%char ∉ bytes "pre-commit".
Proof. apply (bool_decide_unpack _). vm_compute. exact I. Qed.

Definition before : world streams := world_with [(hook, host)].
Definition once : world streams := (install before).2.
Definition twice : world streams := (install once).2.

Lemma installGitHook_idempotent_witness :
  install before = (Returned None, once) ∧ install once = (Returned None, twice) ∧ w_files twice !! hook = w_files once !! hook.
Proof.
  assert (install before = (Returned None, once)) as H1 by (vm_compute; reflexivity).
  assert (install once = (Returned None, twice)) as H2 by (vm_compute; reflexivity).
  split; [exact H1|]. split; [exact H2|].
  exact (installGitHook_idempotent assets no_variables git "pre-commit" "hookassets/pre-commit.sh" hook (script "pre-commit hook")
    eq_refl apart unquoted unmarked "/work/shop" before once twice named ltac:(vm_compute; reflexivity) ltac:(vm_compute; reflexivity) H1 H2).
Defined.


Lemma RunInstallHooks_refuses_foreign_witness : ∃ err w',
  RunInstallHooks assets no_variables git ["/work/shop"] (world_with [(hook, stranger)]) = (Returned (Some err), w') ∧
  w_files w' = w_files (world_with [(hook, stranger)]).
Proof.
  apply (RunInstallHooks_refuses_foreign assets no_variables git "/work/shop" "/work/shop" hook stranger (world_with [(hook, stranger)]) toplevel named).
  - reflexivity.
  - split; [vm_compute; reflexivity..|]. intros suffix c Hs. apply elem_of_cons in Hs as [->|Hs]; [by vm_compute|].
    apply list_elem_of_singleton in Hs as ->. by vm_compute.
  - discriminate.
  - discriminate.
Defined.

(** *** Settings *)

Definition codex : string := "/work/shop/.codex/hooks.json".
Definition guard : claudeHookSpec := gitGuardSpec gitGuardName.
Definition mine : settings := <["model" := JStr "o4"]> (<["hooks" := JObj [("Stop", JArr [])]]> ∅).
Definition with_settings : world streams := world_with [(codex, MarshalIndent (obj_of mine) +:+ LF)].
Definition settings_once : world streams := (applyCodexHook "/work/shop" guard with_settings).2.
Definition settings_twice : world streams := (applyCodexHook "/work/shop" guard settings_once).2.

Lemma mine_valid : valid mine.
Proof. repeat (apply valid_insert; [reflexivity|split; vm_compute; reflexivity|]). apply valid_empty. Qed.

Lemma upsertClaudeHook_spec_witness : (upsertClaudeHook mine guard).2 !! "model" = Some (JStr "o4").
Proof. destruct (upsertClaudeHook_spec mine guard gitGuard_recognized) as (H & _). rewrite H by discriminate. vm_compute. reflexivity. Defined.

Lemma applyCodexHook_stable_witness : w_files settings_twice = w_files settings_once ∧
  holds_settings (w_files settings_once) codex (upsertClaudeHook mine guard).2.
Proof.
  assert (applyCodexHook "/work/shop" guard with_settings = (Returned None, settings_once)) as H1 by (vm_compute; reflexivity).
  assert (applyCodexHook "/work/shop" guard settings_once = (Returned None, settings_twice)) as H2 by (vm_compute; reflexivity).
  destruct (applyCodexHook_stable "/work/shop" guard mine with_settings settings_once settings_twice) as (Hh & Hs & _).
  - by intros t op.
  - apply holds_written; [apply mine_valid|vm_compute; reflexivity].
  - apply mine_valid.
  - apply gitGuard_recognized.
  - apply gitGuard_good.
  - exact H1.
  - exact H2.
  - split; [exact Hs|exact Hh].
Defined.

(** *** Where the installer fails its intent *)

(** A transient failure to open the settings: the first open of the file fails. *)
Definition busy_os : OSEnv := {|
  os_now t := Z.of_nat t;
  os_fault t op p := if (t =? 2)%nat && String.eqb p codex then Some (ErrPath op p (ErrNew "too many open files")) else None;
  os_written _ := 0%nat;
  os_temp_name t dir pattern := path_join [dir; pattern];
  os_select _ := true;
|}.

(** [loadClaudeSettings] takes an empty content for an empty file before it looks at
    the error of the read, so that a failed open counts as no settings; they are then
    written over. *)
Lemma unreadable_settings_lost : ∃ w',
  applyCodexHook (E := busy_os) "/work/shop" guard with_settings = (Returned None, w') ∧
  holds_settings (w_files w') codex (upsertClaudeHook ∅ guard).2 ∧ (upsertClaudeHook ∅ guard).2 !! "model" = None.
Proof.
  eexists. split; [vm_compute; reflexivity|]. split; [|vm_compute; reflexivity].
  apply holds_written; [apply valid_upsert; [apply gitGuard_good|apply valid_empty]|vm_compute; reflexivity].
Qed.

(** A settings file that holds [null] makes the installer panic. *)
Lemma null_settings_panic : ∃ w', applyCodexHook "/work/shop" guard (world_with [(codex, "null")]) = (Panicked "assignment to entry in nil map", w').
Proof. eexists. vm_compute. reflexivity. Qed.

(** A hook that ends with a plain [exit] gets the call after it. *)
Lemma call_after_bare_exit block : with_call (stranger +:+ "exit" +:+ LF) block = (stranger +:+ "exit" +:+ LF) +:+ block.
Proof. reflexivity. Qed.

(** The marker a sidecar is refreshed by is not in the sidecars that are written. *)
Definition old_sidecar : string := script "pre-commit hook" +:+ "cert_dir=$repo/certs" +:+ LF.
Lemma orphan_sidecar_kept : ∃ w', install (world_with [(sidecar, old_sidecar)]) = (Returned None, w') ∧
  w_files w' !! hook = Some (script "pre-commit hook") ∧ w_files w' !! sidecar = Some old_sidecar.
Proof. eexists. split; [vm_compute; reflexivity|]. split; vm_compute; reflexivity. Qed.

(** An entry that runs the guard and another command loses the other command. *)
Definition shared_entry : json :=
  JObj [("hooks", JArr [JObj [("command", JStr "agent-fitness-functions-git-guard"); ("type", JStr "command")];
                        JObj [("command", JStr "my-own-check"); ("type", JStr "command")]]);
        ("matcher", JStr "Bash")].
Lemma shared_entry_replaced :
  entries_of (upsertClaudeHook (set_entries ∅ ∅ [shared_entry]) guard).2 = [spec_entry guard].
Proof. vm_compute. reflexivity. Qed.
End HooksExamples.
