(* ===== verification/GoFS.v ===== *)
(** * A file system with modes, links and crashes

    The file system the development certificates live in: a tree of regular
    files, symbolic links and directories with permission bits and inode numbers,
    and the calls of package [os] on it.  A path is the list of its components;
    symbolic links are never followed in the middle of a path, which the code
    that uses this model does not rely on.

    Every call may fail (the faults of [OSEnv]), may be preceded by changes other
    processes make ([interfere]), and may be the point where the process dies
    ([fs_crash]): then the computation ends as [Blocked], its deferred calls do not
    run, and the file system stays as it is. *)

From stdpp Require Import base gmap strings list fin_maps.
From Stdlib Require Import ZArith Lia Ascii.
From S2P Require Import Prelude GoStrings GoErrors GoOS.
Set Default Goal Selector "!".

Abbreviation path := (list string).

Inductive node :=
| NFile (ino : nat) (mode : Z) (content : string)
| NLink (ino : nat) (target : string)
| NDir (ino : nat) (mode : Z) (entries : gmap string node).

(** The tree and the next inode number. *)
Record FS := mkFS { fs_tree : node; fs_next : nat }.

(** ** The tree *)

(** What is at a path: a node, nothing, or a component on the way that is not a
    directory. *)
Inductive found := Found (n : node) | Missing | NotDirectory.

Fixpoint walk (p : path) (n : node) : found :=
  match p with
  | [] => Found n
  | x :: p' =>
      match n with
      | NDir _ _ es => match es !! x with Some c => walk p' c | None => Missing end
      | _ => NotDirectory
      end
  end.

Definition at_path (p : path) (fs : FS) : option node :=
  match walk p (fs_tree fs) with Found n => Some n | _ => None end.

(** Replace what is at a path; the directory it is in must exist. *)
Fixpoint put (p : path) (v : option node) (n : node) : node :=
  match p, n with
  | [x], NDir i m es => NDir i m (partial_alter (λ _, v) x es)
  | x :: p', NDir i m es =>
      match es !! x with
      | Some c => NDir i m (<[x := put p' v c]> es)
      | None => n
      end
  | _, _ => n
  end.

(** ** Observations *)

Inductive kind := KFile | KLink | KDir.
#[export] Instance kind_eq_dec : EqDecision kind.
Proof. solve_decision. Defined.

(** [os.FileInfo]: the kind and permission bits, and the identity. *)
Record FileInfo := mkInfo { fi_kind : kind; fi_perm : Z; fi_ino : nat }.

Definition info_of (n : node) : FileInfo :=
  match n with
  | NFile i m _ => mkInfo KFile m i
  | NLink i _ => mkInfo KLink 511 i
  | NDir i m _ => mkInfo KDir m i
  end.

Definition SameFile (a b : FileInfo) : bool := Nat.eqb (fi_ino a) (fi_ino b).
Definition IsRegular (i : FileInfo) : bool := bool_decide (fi_kind i = KFile).
Definition IsDir (i : FileInfo) : bool := bool_decide (fi_kind i = KDir).
Definition IsSymlink (i : FileInfo) : bool := bool_decide (fi_kind i = KLink).

(** The entries of a directory in name order. *)
Definition entry_names (n : node) : list string :=
  match n with
  | NDir _ _ es => sort_strings (elements (dom es : gset string))
  | _ => []
  end.

(** ** Calls *)

(** Whether the process dies before its call number [t]. *)
Class Crash := fs_crash : nat → bool.

Definition path_text (p : path) : string := join p "/".

Section calls.
Context {E : OSEnv} {I : Interference FS} {K : Crash}.
Abbreviation FM := (M FS).

Definition sys {A} (op : string) (p : path) (failed : goerror → FS → A * FS) (effect : FS → A * FS) :
  FM A := λ w,
  if fs_crash (w_clock w) then (Blocked, w)
  else match os_fault (w_clock w) op (path_text p) with
       | Some e => access (failed e) w
       | None => access effect w
       end.

Definition reading {A} (op : string) (p : path) (look : FS → result goerror A) : FM (result goerror A) :=
  sys op p (λ e fs, (Err e, fs)) (λ fs, (look fs, fs)).

(** A change of the tree, or the reason why there is none. *)
Definition writing (op : string) (p : path) (change : FS → result goerror FS) : FM (option goerror) :=
  sys op p (λ e fs, (Some e, fs))
    (λ fs, match change fs with Ok fs' => (None, fs') | Err e => (Some e, fs) end).

Definition missing (op : string) (p : path) : goerror := ErrPath op (path_text p) (ErrSentinel ErrNotExist).
Definition exists_already (op : string) (p : path) : goerror := ErrPath op (path_text p) (ErrSentinel ErrExist).
Definition not_a_directory (op : string) (p : path) : goerror := ErrPath op (path_text p) (ErrNew "not a directory").
Definition wrong_kind (op : string) (p : path) : goerror := ErrPath op (path_text p) (ErrNew "invalid argument").

(** What is at a path, or the error of the call. *)
Definition resolve (op : string) (p : path) (fs : FS) : result goerror node :=
  match walk p (fs_tree fs) with
  | Found n => Ok n
  | Missing => Err (missing op p)
  | NotDirectory => Err (not_a_directory op p)
  end.

Definition Lstat (p : path) : FM (result goerror FileInfo) :=
  reading "lstat" p (λ fs, let? n := resolve "lstat" p fs in Ok (info_of n)).

Definition Readlink (p : path) : FM (result goerror string) :=
  reading "readlink" p (λ fs, let? n := resolve "readlink" p fs in
    match n with NLink _ target => Ok target | _ => Err (wrong_kind "readlink" p) end).

(** [os.Open]: the handle carries the identity and the content of the file it was
    opened on; a symbolic link at the end of the path is an error here. *)
Record handle := mkHandle { h_path : path; h_info : FileInfo; h_content : string }.
Definition Open (p : path) : FM (result goerror handle) :=
  reading "open" p (λ fs, let? n := resolve "open" p fs in
    match n with
    | NFile _ _ content => Ok (mkHandle p (info_of n) content)
    | NDir _ _ _ => Ok (mkHandle p (info_of n) "")
    | NLink _ _ => Err (wrong_kind "open" p)
    end).
Definition File_Stat (h : handle) : FM (result goerror FileInfo) :=
  reading "stat" (h_path h) (λ _, Ok (h_info h)).
Definition ReadAll (h : handle) : FM (result goerror string) :=
  reading "read" (h_path h) (λ _, Ok (h_content h)).
Definition File_Sync (h : handle) : FM (option goerror) := writing "sync" (h_path h) Ok.
Definition File_Close (h : handle) : FM (option goerror) := writing "close" (h_path h) Ok.
(** [directory.ReadDir(-1)] of an open directory. *)
Definition File_ReadDir (h : handle) : FM (result goerror (list string)) :=
  reading "readdirent" (h_path h) (λ fs, let? n := resolve "readdirent" (h_path h) fs in
    match n with NDir _ _ _ => Ok (entry_names n) | _ => Err (wrong_kind "readdirent" (h_path h)) end).

(** Put a new node at a free path of an existing directory. *)
Definition create (op : string) (p : path) (n : nat → node) (fs : FS) : result goerror FS :=
  match walk p (fs_tree fs) with
  | Found _ => Err (exists_already op p)
  | NotDirectory => Err (not_a_directory op p)
  | Missing =>
      match walk (removelast p) (fs_tree fs) with
      | Found (NDir _ _ _) => Ok (mkFS (put p (Some (n (fs_next fs))) (fs_tree fs)) (S (fs_next fs)))
      | _ => Err (missing op p)
      end
  end.

Definition Mkdir (p : path) (mode : Z) : FM (option goerror) :=
  writing "mkdir" p (create "mkdir" p (λ i, NDir i mode ∅)).
Definition Symlink (target : string) (p : path) : FM (option goerror) :=
  writing "symlink" p (create "symlink" p (λ i, NLink i target)).
(** [os.OpenFile] with O_WRONLY, O_CREATE and O_EXCL. *)
Definition CreateExclusive (p : path) (mode : Z) : FM (result goerror handle) :=
  sys "open" p (λ e fs, (Err e, fs))
    (λ fs, match create "open" p (λ i, NFile i mode "") fs with
           | Ok fs' => (Ok (mkHandle p (mkInfo KFile mode (fs_next fs)) ""), fs')
           | Err e => (Err e, fs)
           end).

Definition chmod_node (mode : Z) (n : node) : node :=
  match n with
  | NFile i _ c => NFile i mode c
  | NDir i _ es => NDir i mode es
  | NLink i t => NLink i t
  end.
Definition change_at (op : string) (p : path) (f : node → result goerror (option node)) (fs : FS) :
  result goerror FS :=
  let? n := resolve op p fs in
  let? v := f n in
  Ok (mkFS (put p v (fs_tree fs)) (fs_next fs)).
Definition Chmod (p : path) (mode : Z) : FM (option goerror) :=
  writing "chmod" p (change_at "chmod" p (λ n, Ok (Some (chmod_node mode n)))).
Definition File_Chmod (h : handle) (mode : Z) : FM (option goerror) := Chmod (h_path h) mode.

Definition write_node (content : string) (op : string) (p : path) (n : node) : result goerror (option node) :=
  match n with
  | NFile i m _ => Ok (Some (NFile i m content))
  | _ => Err (wrong_kind op p)
  end.
(** [file.Write] to a new file; a failed write leaves a prefix. *)
Definition File_Write (h : handle) (content : string) : FM (option goerror) := λ w,
  sys "write" (h_path h)
    (λ e fs, (Some e, match change_at "write" (h_path h)
                              (write_node (str_take (os_written (w_clock w)) content) "write" (h_path h)) fs with
                      | Ok fs' => fs' | Err _ => fs end))
    (λ fs, match change_at "write" (h_path h) (write_node content "write" (h_path h)) fs with
           | Ok fs' => (None, fs')
           | Err e => (Some e, fs)
           end) w.

(** [os.Remove]: a file, a link or an empty directory. *)
Definition Remove_path (p : path) : FM (option goerror) :=
  writing "remove" p (change_at "remove" p (λ n,
    match n with
    | NDir _ _ es => if decide (es = ∅) then Ok None
                     else Err (ErrPath "remove" (path_text p) (ErrNew "directory not empty"))
    | _ => Ok None
    end)).

(** [os.Rename] within one directory tree: a directory may replace nothing here, a
    file or link anything but a directory. *)
Definition rename_change (src dst : path) (fs : FS) : result goerror FS :=
  let? n := resolve "rename" src fs in
  match walk (removelast dst) (fs_tree fs), walk dst (fs_tree fs), n with
  | Found (NDir _ _ _), Missing, _
  | Found (NDir _ _ _), Found (NFile _ _ _), NFile _ _ _
  | Found (NDir _ _ _), Found (NFile _ _ _), NLink _ _
  | Found (NDir _ _ _), Found (NLink _ _), NFile _ _ _
  | Found (NDir _ _ _), Found (NLink _ _), NLink _ _ =>
      Ok (mkFS (put dst (Some n) (put src None (fs_tree fs))) (fs_next fs))
  | Found (NDir _ _ _), Found _, _ => Err (exists_already "rename" dst)
  | _, _, _ => Err (missing "rename" dst)
  end.
Definition Rename_path (src dst : path) : FM (option goerror) := writing "rename" src (rename_change src dst).
End calls.
