(* ===== verification/GoFSTree.v ===== *)
(** * More calls on the file system: whole trees

    The calls of package [os] that the installer makes besides those of [GoFS]:
    reading directories and files, creating missing parents, truncating, removing
    trees.  The composite calls are the sequences of system calls that package [os]
    makes for them, so that the process may fail or die between any two.

    As in [GoFS], a symbolic link at the end of a path that is opened is an error. *)

From stdpp Require Import base gmap strings list fin_maps.
From Stdlib Require Import ZArith Lia Ascii.
From S2P Require Import Prelude GoStrings GoErrors GoOS GoFS.
Set Default Goal Selector "!".

Section calls.
Context {E : OSEnv} {I : Interference FS} {K : Crash}.
Abbreviation FM := (M FS).

(** [os.Stat]. *)
Definition Stat_path (p : path) : FM (result goerror FileInfo) :=
  reading "stat" p (λ fs, let? n := resolve "stat" p fs in
    match n with NLink _ _ => Err (wrong_kind "stat" p) | _ => Ok (info_of n) end).

(** [os.ReadDir]: the names in order, and which of them are directories. *)
Definition is_dir_node (n : node) : bool := match n with NDir _ _ _ => true | _ => false end.
Definition dir_entries (n : node) : list (string * bool) :=
  match n with
  | NDir _ _ es => (λ x, (x, match es !! x with Some c => is_dir_node c | None => false end)) <$> entry_names n
  | _ => []
  end.
Definition ReadDir_path (p : path) : FM (result goerror (list (string * bool))) :=
  reading "open" p (λ fs, let? n := resolve "open" p fs in
    match n with NDir _ _ _ => Ok (dir_entries n) | _ => Err (wrong_kind "open" p) end).

(** [os.ReadFile]. *)
Definition ReadFile_path (p : path) : FM (result goerror string) :=
  reading "open" p (λ fs, let? n := resolve "open" p fs in
    match n with NFile _ _ content => Ok content | _ => Err (wrong_kind "read" p) end).

(** Everything an open file holds; a directory cannot be read. *)
Definition ReadAll_file (h : handle) : FM (result goerror string) :=
  if IsDir (h_info h) then ret (Err (wrong_kind "read" (h_path h))) else ReadAll h.

(** [os.OpenFile] with O_WRONLY, O_CREATE and O_TRUNC: an existing file keeps its
    mode. *)
Definition truncate (p : path) (mode : Z) (fs : FS) : result goerror (handle * FS) :=
  match walk p (fs_tree fs) with
  | Found (NFile i m _) =>
      Ok (mkHandle p (mkInfo KFile m i) "", mkFS (put p (Some (NFile i m "")) (fs_tree fs)) (fs_next fs))
  | Found _ => Err (wrong_kind "open" p)
  | _ => let? fs' := create "open" p (λ i, NFile i mode "") fs in
         Ok (mkHandle p (mkInfo KFile mode (fs_next fs)) "", fs')
  end.
Definition CreateTruncate (p : path) (mode : Z) : FM (result goerror handle) :=
  sys "open" p (λ e fs, (Err e, fs))
    (λ fs, match truncate p mode fs with Ok (h, fs') => (Ok h, fs') | Err e => (Err e, fs) end).

(** [os.WriteFile]. *)
Definition WriteFile_path (p : path) (content : string) (mode : Z) : FM (option goerror) :=
  let! opened := CreateTruncate p mode in
  match opened with
  | Err e => ret (Some e)
  | Ok file =>
      let! written := File_Write file content in
      let! closed := File_Close file in
      ret (match written with Some e => Some e | None => closed end)
  end.

(** [os.MkdirAll], by the reversed path. *)
Fixpoint mkdir_all (rp : list string) (mode : Z) : FM (option goerror) :=
  let p := rev rp in
  let! info := Stat_path p in
  match info with
  | Ok info => ret (if IsDir info then None else Some (not_a_directory "mkdir" p))
  | Err _ =>
      let! parent := match rp with
                     | _ :: (_ :: _) as rp' => mkdir_all rp' mode
                     | _ => ret None
                     end in
      match parent with
      | Some e => ret (Some e)
      | None =>
          let! made := Mkdir p mode in
          match made with
          | None => ret None
          | Some e =>
              let! there := Lstat p in
              ret (match there with Ok i => if IsDir i then None else Some e | Err _ => Some e end)
          end
      end
  end.
Definition MkdirAll_path (p : path) (mode : Z) : FM (option goerror) := mkdir_all (rev p) mode.

(** [os.RemoveAll]: the recursion of [removeAllFrom].  What fails below a directory
    does not keep the rest from being removed, and the first such error is
    reported when the directory itself cannot be removed.  Every level of the tree
    takes one unit of fuel. *)
Definition first_error (a b : option goerror) : option goerror := match a with Some e => Some e | None => b end.
Definition unless_missing (e : goerror) (otherwise : option goerror) : option goerror :=
  if errors_is e ErrNotExist then None else otherwise.
Fixpoint remove_all (fuel : nat) (p : path) {struct fuel} : FM (option goerror) :=
  match fuel with
  | O => diverge
  | S fuel' =>
      let! removed := Remove_path p in
      match removed with
      | None => ret None
      | Some unlinkErr =>
          if errors_is unlinkErr ErrNotExist then ret None
          else
            let! info := Lstat p in
            match info with
            | Err e => ret (unless_missing e (Some e))
            | Ok info =>
                if negb (IsDir info) then ret (Some unlinkErr)
                else
                  let finish recurseErr :=
                    let! again := Remove_path p in
                    ret (match again with None => None | Some e => unless_missing e (first_error recurseErr (Some e)) end) in
                  let! opened := ReadDir_path p in
                  match opened with
                  | Err e => if errors_is e ErrNotExist then ret None else finish (Some e)
                  | Ok entries =>
                      let! recurseErr :=
                        (fix children (l : list (string * bool)) (failed : option goerror) : FM (option goerror) :=
                           match l with
                           | [] => ret failed
                           | entry :: l' =>
                               let! r := remove_all fuel' (p ++ [entry.1]) in
                               children l' (first_error failed r)
                           end) entries None in
                      finish recurseErr
                  end
            end
      end
  end.
(** No path has more elements than a path may have bytes. *)
Definition remove_fuel : nat := 4096.
Definition RemoveAll_path (p : path) : FM (option goerror) := remove_all remove_fuel p.

(** [os.MkdirTemp] with a pattern that ends in a star; [random] is the number that
    replaces the star, by the step it is drawn at. *)
Fixpoint mkdir_temp (attempts : nat) (random : nat → Z) (dir : path) (prefix : string) : FM (result goerror path) :=
  match attempts with
  | O => ret (Err (exists_already "mkdirtemp" (dir ++ [prefix +:+ "*"])))
  | S attempts' =>
      let! n := (λ w, (Returned (random (w_clock w)), tick w)) in
      let name := dir ++ [prefix +:+ itoa n] in
      let! made := Mkdir name 448 in
      match made with
      | None => ret (Ok name)
      | Some e => if errors_is e ErrExist then mkdir_temp attempts' random dir prefix else ret (Err e)
      end
  end.
End calls.
Definition mkdirTempAttempts : nat := Z.to_nat 10000.
