(* ===== verification/CertMaterial.v ===== *)
(** * Development certificates: the material

    The certificates and keys of [internal/devcerts]: how a set of five files is
    made ([publish.go]) and how it is recognized ([state.go]).  Keys, signatures
    and encodings are parameters; the profiles that decide between the product's
    own certificates, those of its predecessor and anything else are the code's. *)

From stdpp Require Import base gmap strings list fin_maps.
From Stdlib Require Import ZArith Lia Ascii.
From S2P Require Import Prelude GoStrings GoErrors GoJson GoNet.
Set Default Goal Selector "!".

(** ** Certificates *)

(** [pkix.Name]; of the attribute lists only the lengths matter here. *)
Record Name := mkName {
  n_CommonName : string;
  n_Country : nat;
  n_Organization : nat;
  n_OrganizationalUnit : nat;
  n_Locality : nat;
  n_Province : nat;
  n_StreetAddress : nat;
  n_PostalCode : nat;
  n_SerialNumber : string;
  n_Names : nat;
  n_ExtraNames : nat;
}.

(** Key usages as bits and extended usages by their number. *)
Definition KeyUsageDigitalSignature : Z := 1.
Definition KeyUsageKeyEncipherment : Z := 4.
Definition KeyUsageCertSign : Z := 32.
Definition ExtKeyUsageServerAuth : Z := 1.
Definition ExtKeyUsageClientAuth : Z := 2.

(** The fields of [x509.Certificate] the code uses. *)
Record Certificate := mkCertificate {
  c_Subject : Name;
  c_RawIssuer : string;
  c_RawSubject : string;
  c_NotBefore : Z;
  c_NotAfter : Z;
  c_KeyUsage : Z;
  c_BasicConstraintsValid : bool;
  c_IsCA : bool;
  c_ExtKeyUsage : list Z;
  c_UnknownExtKeyUsage : nat;
  c_DNSNames : list string;
  c_IPAddresses : list (list Z);
  c_EmailAddresses : list string;
  c_URIs : list string;
  c_PublicKey : string;
}.

(** Package [crypto]: keys and DER texts are opaque strings, randomness is indexed
    by the draw. *)
Class X509 := {
  GenerateKey : nat → result goerror string;
  rand_Int : nat → result goerror Z;
  public_key : string → string;
  MarshalPKCS1PrivateKey : string → string;
  ParsePKCS1PrivateKey : string → option string;
  CreateCertificate : Z → Certificate → Certificate → string → string → result goerror string;
  ParseCertificate : string → option Certificate;
  CheckSignatureFrom : Certificate → Certificate → bool;
  pem_encode : string → string → string;
  pem_decode : string → option (string * string * string);
  raw_name : Name → string;
}.

(** ** Files *)

Record fileSpec := mkFileSpec { spec_name : string; spec_mode : Z; spec_data : string }.

Definition mode_public : Z := 420.  (* 0o644 *)
Definition mode_private : Z := 384. (* 0o600 *)

(** [managedFiles]: names and modes, in the order of the code. *)
Definition managedFiles : list (string * Z) :=
  [("ca.crt", mode_public); ("server.crt", mode_public); ("server.key", mode_private);
   ("client.crt", mode_public); ("client.key", mode_private)].

Definition isManagedName (name : string) : bool := existsb (λ spec, String.eqb name spec.1) managedFiles.

Definition second : Z := 1000000000.
Definition validity : Z := 365 * 24 * 3600 * second.
Definition maxNameAttempts : nat := 16.

(** ** Profiles *)

Definition exactCommonName (name : Name) (commonName : string) : bool :=
  String.eqb (n_CommonName name) commonName && Nat.eqb (n_Country name) 0
  && Nat.eqb (n_Organization name) 0 && Nat.eqb (n_OrganizationalUnit name) 0
  && Nat.eqb (n_Locality name) 0 && Nat.eqb (n_Province name) 0 && Nat.eqb (n_StreetAddress name) 0
  && Nat.eqb (n_PostalCode name) 0 && String.eqb (n_SerialNumber name) ""
  && Nat.eqb (n_Names name) 1 && Nat.eqb (n_ExtraNames name) 0.


Definition hasNames (cert : Certificate) : bool :=
  negb (empty_list (c_DNSNames cert)) || negb (empty_list (c_IPAddresses cert))
  || negb (empty_list (c_EmailAddresses cert)) || negb (empty_list (c_URIs cert)).

Definition equalStrings (left right : list string) : bool := bool_decide (left = right).
Definition equalExtUsage (left right : list Z) : bool := bool_decide (left = right).
(** Addresses are in their 16-byte form, in which [IP.Equal] compares. *)
Definition equalIPs (left right : list (list Z)) : bool := bool_decide (left = right).

Definition IPv4_loopback : list Z := [0;0;0;0;0;0;0;0;0;0;255;255;127;0;0;1]%Z.
Definition IPv6_loopback : list Z := [0;0;0;0;0;0;0;0;0;0;0;0;0;0;0;1]%Z.

Definition certificateFresh (cert : Certificate) (now : Z) : bool :=
  (negb (now <? c_NotBefore cert) && (now <? c_NotAfter cert))%Z.

Definition exactProfilesForIdentity (ca server client : Certificate) (caName serverName : string) : bool :=
  let period c := (c_NotAfter c - c_NotBefore c =? validity)%Z in
  let periods := period ca && period server && period client in
  let validCA :=
    exactCommonName (c_Subject ca) caName && c_IsCA ca && c_BasicConstraintsValid ca
    && (c_KeyUsage ca =? Z.lor KeyUsageCertSign KeyUsageDigitalSignature)%Z
    && empty_list (c_ExtKeyUsage ca) && Nat.eqb (c_UnknownExtKeyUsage ca) 0 && negb (hasNames ca) in
  let leafUsage c := (c_KeyUsage c =? Z.lor KeyUsageDigitalSignature KeyUsageKeyEncipherment)%Z in
  let validServer :=
    exactCommonName (c_Subject server) "localhost" && negb (c_IsCA server) && leafUsage server
    && equalExtUsage (c_ExtKeyUsage server) [ExtKeyUsageServerAuth]
    && Nat.eqb (c_UnknownExtKeyUsage server) 0
    && equalStrings (c_DNSNames server) ["localhost"; serverName]
    && equalIPs (c_IPAddresses server) [IPv4_loopback; IPv6_loopback]
    && empty_list (c_EmailAddresses server) && empty_list (c_URIs server) in
  let validClient :=
    exactCommonName (c_Subject client) "dev-hook-pool" && negb (c_IsCA client) && leafUsage client
    && equalExtUsage (c_ExtKeyUsage client) [ExtKeyUsageClientAuth]
    && Nat.eqb (c_UnknownExtKeyUsage client) 0 && negb (hasNames client) in
  periods && validCA && validServer && validClient.

Inductive materialIdentity := identityUnknown | identityTarget | identityPredecessor.
#[export] Instance materialIdentity_eq_dec : EqDecision materialIdentity.
Proof. solve_decision. Defined.

Section material.
Context {X : X509}.

Definition parseCertificateBytes (content : string) : option Certificate :=
  match pem_decode content with
  | Some (type, bytes, rest) =>
      if String.eqb type "CERTIFICATE" && String.eqb rest "" then ParseCertificate bytes else None
  | None => None
  end.

Definition keyBytesMatch (content : string) (cert : Certificate) : bool :=
  match pem_decode content with
  | Some (type, bytes, rest) =>
      if String.eqb type "RSA PRIVATE KEY" && String.eqb rest "" then
        match ParsePKCS1PrivateKey bytes with
        | Some key => String.eqb (public_key key) (c_PublicKey cert)
        | None => false
        end
      else false
  | None => false
  end.

(** The content of a file of the set (of the last one, were there several of the
    name); a missing one reads as no bytes. *)
Definition content_of (files : list fileSpec) (name : string) : string :=
  foldl (λ content f, if String.eqb (spec_name f) name then spec_data f else content) "" files.

Definition classifyMaterial (files : list fileSpec) (now : Z) : materialIdentity * bool :=
  match parseCertificateBytes (content_of files "ca.crt"), parseCertificateBytes (content_of files "server.crt"),
        parseCertificateBytes (content_of files "client.crt") with
  | Some ca, Some server, Some client =>
      if negb (keyBytesMatch (content_of files "server.key") server)
         || negb (keyBytesMatch (content_of files "client.key") client)
      then (identityUnknown, false)
      else if negb (CheckSignatureFrom ca ca) || negb (CheckSignatureFrom server ca)
              || negb (CheckSignatureFrom client ca)
              || negb (String.eqb (c_RawIssuer server) (c_RawSubject ca))
              || negb (String.eqb (c_RawIssuer client) (c_RawSubject ca))
      then (identityUnknown, false)
      else
        let ident :=
          if exactProfilesForIdentity ca server client "agent-fitness-functions-dev-ca" "agent-fitness-functions"
          then identityTarget
          else if exactProfilesForIdentity ca server client "calm-poc-dev-ca" "stack-fitness-functions"
          then identityPredecessor
          else identityUnknown in
        (ident, certificateFresh ca now && certificateFresh server now && certificateFresh client now)
  | _, _, _ => (identityUnknown, false)
  end.

(** ** Generation *)

Definition common_name (cn : string) : Name := mkName cn 0 0 0 0 0 0 0 "" 0 0.

(** [randomSerialWith]: a positive draw within the attempts left; [t] numbers the
    draws. *)
Fixpoint randomSerial (attempts t : nat) : result goerror Z :=
  match attempts with
  | O => Err (ErrNew "generate positive development certificate serial")
  | S attempts' =>
      match rand_Int t with
      | Err _ => Err (ErrNew "generate development certificate serial")
      | Ok serial => if (0 <? serial)%Z then Ok serial else randomSerial attempts' (S t)
      end
  end.

Definition createLeaf (t : nat) (serial : Z) (template ca : Certificate) (caKey : string) :
  result goerror (string * string) :=
  match GenerateKey t with
  | Err _ => Err (ErrNew "generate development leaf key")
  | Ok key =>
      match CreateCertificate serial template ca (public_key key) caKey with
      | Err _ => Err (ErrNew "create development leaf certificate")
      | Ok der => Ok (pem_encode "CERTIFICATE" der, pem_encode "RSA PRIVATE KEY" (MarshalPKCS1PrivateKey key))
      end
  end.

(** [generateMaterialWithProfile] without a mutation of the profiles; [t] is the
    first draw. *)
Definition generateMaterialForIdentity (t : nat) (at_ : Z) (caCommonName serverDNSName : string) :
  result goerror (list fileSpec) :=
  match GenerateKey t with
  | Err _ => Err (ErrNew "generate development CA key")
  | Ok caKey =>
      let now := (at_ - at_ mod second)%Z in
      let notBefore := (now - 3600 * second)%Z in
      let notAfter := (notBefore + validity)%Z in
      let? caSerial := randomSerial maxNameAttempts t in
      let? serverSerial := randomSerial maxNameAttempts (t + maxNameAttempts) in
      let? clientSerial := randomSerial maxNameAttempts (t + 2 * maxNameAttempts) in
      let caTemplate :=
        mkCertificate (common_name caCommonName) "" "" notBefore notAfter
          (Z.lor KeyUsageCertSign KeyUsageDigitalSignature) true true [] 0 [] [] [] [] "" in
      let leafUsage := Z.lor KeyUsageDigitalSignature KeyUsageKeyEncipherment in
      let serverTemplate :=
        mkCertificate (common_name "localhost") "" "" notBefore notAfter leafUsage false false
          [ExtKeyUsageServerAuth] 0 ["localhost"; serverDNSName] [IPv4_loopback; IPv6_loopback] [] [] "" in
      let clientTemplate :=
        mkCertificate (common_name "dev-hook-pool") "" "" notBefore notAfter leafUsage false false
          [ExtKeyUsageClientAuth] 0 [] [] [] [] "" in
      match CreateCertificate caSerial caTemplate caTemplate (public_key caKey) caKey with
      | Err _ => Err (ErrNew "create development CA certificate")
      | Ok caDER =>
          match ParseCertificate caDER with
          | None => Err (ErrNew "parse generated development CA certificate")
          | Some ca =>
              let? server := createLeaf (S t) serverSerial serverTemplate ca caKey in
              let? client := createLeaf (S (S t)) clientSerial clientTemplate ca caKey in
              Ok [mkFileSpec "ca.crt" mode_public (pem_encode "CERTIFICATE" caDER);
                  mkFileSpec "server.crt" mode_public server.1; mkFileSpec "server.key" mode_private server.2;
                  mkFileSpec "client.crt" mode_public client.1; mkFileSpec "client.key" mode_private client.2]
          end
      end
  end.

Definition generateMaterialAt (t : nat) (at_ : Z) : result goerror (list fileSpec) :=
  generateMaterialForIdentity t at_ "agent-fitness-functions-dev-ca" "agent-fitness-functions".
End material.

(** ** What is generated is recognized *)

(** The certificate that [CreateCertificate] makes of a template. *)
Definition parsed_name (n : Name) : Name :=
  mkName (n_CommonName n) (n_Country n) (n_Organization n) (n_OrganizationalUnit n) (n_Locality n)
    (n_Province n) (n_StreetAddress n) (n_PostalCode n) (n_SerialNumber n) 1 0.
Definition subject_bytes {X : X509} (c : Certificate) : string :=
  if String.eqb (c_RawSubject c) "" then raw_name (c_Subject c) else c_RawSubject c.
Definition issued {X : X509} (template parent : Certificate) (pub : string) : Certificate :=
  mkCertificate (parsed_name (c_Subject template)) (subject_bytes parent) (subject_bytes template)
    (c_NotBefore template) (c_NotAfter template) (c_KeyUsage template)
    (c_BasicConstraintsValid template) (c_IsCA template) (c_ExtKeyUsage template) 0
    (c_DNSNames template) (c_IPAddresses template) (c_EmailAddresses template) (c_URIs template) pub.

(** A template that is read back as it is: its subject has a common name only and its
    times are whole seconds. *)
Definition plain_template (t : Certificate) : Prop :=
  (∃ cn, c_Subject t = common_name cn) ∧ (c_NotBefore t mod second = 0)%Z ∧ (c_NotAfter t mod second = 0)%Z.

(** The documented behaviour of packages [x509] and [pem]: encodings can be read
    back, a parsed certificate carries the fields of its template, the subject of
    its parent and the public key it was made for, and a signature made with a key
    is verified by a certificate authority that holds the public key. *)
Class X509Laws (X : X509) : Prop := {
  pem_roundtrip type bytes : type ∈ ["CERTIFICATE"; "RSA PRIVATE KEY"] →
    pem_decode (pem_encode type bytes) = Some (type, bytes, "");
  pkcs1_roundtrip key : ParsePKCS1PrivateKey (MarshalPKCS1PrivateKey key) = Some key;
  raw_name_nonempty n : raw_name n ≠ "";
  created_parses serial template parent pub signer der :
    CreateCertificate serial template parent pub signer = Ok der →
    plain_template template →
    ParseCertificate der = Some (issued template parent pub);
  created_verifies serial template parent pub signer der cert ca :
    CreateCertificate serial template parent pub signer = Ok der → ParseCertificate der = Some cert →
    c_PublicKey ca = public_key signer → c_IsCA ca = true → c_BasicConstraintsValid ca = true →
    Z.testbit (c_KeyUsage ca) 5 = true → CheckSignatureFrom cert ca = true;
}.

Section generated.
Context {X : X509} {XL : X509Laws X}.

Lemma parse_pem_certificate der : parseCertificateBytes (pem_encode "CERTIFICATE" der) = ParseCertificate der.
Proof. unfold parseCertificateBytes. rewrite pem_roundtrip by by left. done. Qed.

Lemma key_matches key cert :
  c_PublicKey cert = public_key key →
  keyBytesMatch (pem_encode "RSA PRIVATE KEY" (MarshalPKCS1PrivateKey key)) cert = true.
Proof.
  intros Hk. unfold keyBytesMatch. rewrite pem_roundtrip by by right; left. cbn [String.eqb andb Ascii.eqb Bool.eqb].
  change (String.eqb "RSA PRIVATE KEY" "RSA PRIVATE KEY" && String.eqb "" "") with true. cbn iota.
  rewrite pkcs1_roundtrip, Hk. apply String.eqb_refl.
Qed.

(** A created leaf: its certificate and its key. *)
Lemma createLeaf_spec t serial template ca caKey crt key :
  createLeaf t serial template ca caKey = Ok (crt, key) → plain_template template →
  c_PublicKey ca = public_key caKey → c_IsCA ca = true → c_BasicConstraintsValid ca = true →
  Z.testbit (c_KeyUsage ca) 5 = true →
  ∃ pub, let cert := issued template ca pub in
    parseCertificateBytes crt = Some cert ∧ keyBytesMatch key cert = true ∧ CheckSignatureFrom cert ca = true.
Proof.
  unfold createLeaf. intros H Hn Hpub Hca Hbc Hku.
  destruct (GenerateKey t) as [k|]; [|done].
  destruct (CreateCertificate _ _ _ _ _) as [der|] eqn:Hc; [|done]. injection H as <- <-.
  exists (public_key k). cbn zeta. rewrite parse_pem_certificate.
  pose proof (created_parses _ _ _ _ _ _ Hc Hn) as Hp. split_and!; [done|by apply key_matches|].
  by eapply created_verifies.
Qed.

(** The generator and the recognizer agree.  Material that
    [generateMaterialAt] makes has exactly the managed names and modes, is
    recognized as the product's own, and is fresh exactly from one hour before
    the second it was made in until 365 days after that. *)
Theorem generateMaterialAt_recognized t at_ files now (H : generateMaterialAt t at_ = Ok files) :
  (λ f, (spec_name f, spec_mode f)) <$> files = managedFiles ∧
  let start := (at_ - at_ mod second - 3600 * second)%Z in
  classifyMaterial files now = (identityTarget, ((start <=? now) && (now <? start + validity))%Z).
Proof.
  unfold generateMaterialAt, generateMaterialForIdentity in H.
  destruct (GenerateKey t) as [caKey|]; [|done].
  destruct (randomSerial _ t) as [s1|]; [|done]. destruct (randomSerial _ (t + maxNameAttempts)) as [s2|]; [|done].
  destruct (randomSerial _ (t + 2 * maxNameAttempts)) as [s3|]; [|done].
  set (start := (at_ - at_ mod second - 3600 * second)%Z) in *.
  set (caT := mkCertificate (common_name "agent-fitness-functions-dev-ca") _ _ _ _ _ _ _ _ _ _ _ _ _ _) in H.
  set (srvT := mkCertificate (common_name "localhost") _ _ _ _ _ _ _ _ _ _ _ _ _ _) in H.
  set (cliT := mkCertificate (common_name "dev-hook-pool") _ _ _ _ _ _ _ _ _ _ _ _ _ _) in H.
  destruct (CreateCertificate s1 caT caT _ _) as [caDER|] eqn:Hca; [|done].
  assert (start mod second = 0 ∧ (start + validity) mod second = 0)%Z as [Hsec Hsec'].
  { unfold start, validity. pose proof (Z.div_mod at_ second ltac:(done)) as Hd.
    replace (at_ - at_ mod second)%Z with (at_ / second * second)%Z by lia.
    split; [by rewrite <-Z.mul_sub_distr_r, Z.mod_mul|].
    replace (at_ / second * second - 3600 * second + _)%Z with ((at_ / second - 3600 + 365 * 24 * 3600) * second)%Z by (unfold second; lia).
    by rewrite Z.mod_mul. }
  pose proof (created_parses _ _ _ _ _ _ Hca ltac:(by split; [eexists|])) as Hp. rewrite Hp in H.
  set (ca := issued caT caT (public_key caKey)) in *.
  destruct (createLeaf (S t) s2 srvT ca caKey) as [[srvCrt srvKey]|] eqn:Hsrv; [|done].
  destruct (createLeaf (S (S t)) s3 cliT ca caKey) as [[cliCrt cliKey]|] eqn:Hcli; [|done].
  injection H as <-. split; [done|]. cbn zeta.
  apply createLeaf_spec in Hsrv as (sp & Hs1 & Hs2 & Hs3); [|by split; [eexists|]|done..].
  apply createLeaf_spec in Hcli as (cp & Hc1 & Hc2 & Hc3); [|by split; [eexists|]|done..].
  assert (CheckSignatureFrom ca ca = true) as Hself by by eapply created_verifies.
  unfold classifyMaterial, content_of. cbn -[parseCertificateBytes keyBytesMatch exactProfilesForIdentity certificateFresh].
  rewrite parse_pem_certificate, Hp, Hs1, Hc1, Hs2, Hc2, Hself, Hs3, Hc3. cbn [negb orb].
  assert (subject_bytes ca = c_RawSubject ca) as Hsub.
  { unfold subject_bytes. cbn. unfold subject_bytes. cbn.
    destruct (String.eqb_spec (raw_name (common_name "agent-fitness-functions-dev-ca")) ""); [|done].
    exfalso. by eapply raw_name_nonempty. }
  cbn [c_RawIssuer issued]. rewrite Hsub, String.eqb_refl. cbn [negb orb].
  assert (exactProfilesForIdentity ca (issued srvT ca sp) (issued cliT ca cp)
    "agent-fitness-functions-dev-ca" "agent-fitness-functions" = true) as ->.
  { unfold exactProfilesForIdentity. cbn -[validity].
    replace (start + validity - start)%Z with validity by lia. rewrite Z.eqb_refl. reflexivity. }
  f_equal. unfold certificateFresh. cbn -[validity].
  destruct (Z.ltb_spec now start), (Z.leb_spec start now), (Z.ltb_spec now (start + validity)); cbn; lia || done.
Qed.
End generated.
