(* ===== verification/CertStore.v ===== *)
(** * Development certificates: the store

    [internal/devcerts]: the managed root with its versions, the publication
    lock, the transaction journal, publication, recovery after a crash, and the
    lifecycle around them ([publish.go], [lock.go], [transaction.go], [state.go],
    [lifecycle.go]).  Paths are lists of components below any [root]; time, random
    identifiers, the host and the processes are parameters, and so are the
    failures that the tests inject at the checkpoints.  Observers only report
    progress and are left out. *)

From stdpp Require Import base gmap strings list fin_maps.
From Stdlib Require Import ZArith Lia Ascii.
From S2P Require Import Prelude GoStrings GoErrors GoJson GoJsonPrint GoOS GoFS CertMaterial.
Set Default Goal Selector "!".

Definition lockName : string := ".certificate-publication.lock".
Definition journalName : string := ".certificate-publication-transaction.json".

Definition ErrUnsupportedForBootstrap : goerror :=
  ErrNew "managed certificate state is unsupported for bootstrap".
Definition ErrLockOwnerMismatch : goerror :=
  ErrNew "certificate publication lock ownership could not be verified".
Definition ErrRandomNameCollisions : goerror :=
  ErrNew "certificate publication random name collisions exhausted".

Definition mode_dir : Z := 493.  (* 0o755 *)
Definition mode_lock : Z := 448. (* 0o700 *)

(** ** Names *)

Definition is_hex (a : ascii) : bool :=
  let b := byte_val a in (((48 <=? b) && (b <=? 57)) || ((97 <=? b) && (b <=? 102)))%Z.
Definition hex128Pattern (s : string) : bool :=
  Nat.eqb (String.length s) 32 && forallb is_hex (bytes s).
Definition str_drop (n : nat) (s : string) : string := of_bytes (drop n (bytes s)).
Definition trim_prefix (s p : string) : string := if has_prefix s p then str_drop (String.length p) s else s.
Definition versionPattern (s : string) : bool := has_prefix s "v-" && hex128Pattern (str_drop 2 s).

(** [journalTempPattern]: the transaction of the name of a journal temp. *)
Definition journalTempPattern (name : string) : option string :=
  let p := ".certificate-publication.transaction-" in
  let rest := str_drop (String.length p) name in
  let tx := str_take 32 rest in
  let tail := str_drop 32 rest in
  let id := str_take 32 (str_drop 1 tail) in
  if has_prefix name p && hex128Pattern tx && has_prefix tail "-" && hex128Pattern id
     && String.eqb (str_drop 33 tail) ".tmp"
  then Some tx else None.

(** [retentionDeletePattern]: the transaction and the version of a claimed
    directory. *)
Definition retentionDeletePattern (name : string) : option (string * string) :=
  let p := ".retention-delete-" in
  let rest := str_drop (String.length p) name in
  let tx := str_take 32 rest in
  let tail := str_drop 32 rest in
  if has_prefix name p && hex128Pattern tx && has_prefix tail "-" && versionPattern (str_drop 1 tail)
  then Some (tx, str_drop 1 tail) else None.

(** [filepath.Join(root, filepath.FromSlash(relative))]. *)
Definition under (root : path) (relative : string) : path := root ++ clean_elems relative.

Definition safeVersionPath (relative : string) : bool :=
  String.eqb (path_dir relative) "versions" && versionPattern (path_base relative).

(** ** Documents *)

Record ownerDocument := mkOwner {
  own_Schema : Z;
  own_Hostname : string;
  own_PID : Z;
  own_Token : string;
  own_AcquiredAt : string;
}.

Record candidateOwnerDocument := mkCandidateOwner {
  co_Schema : Z;
  co_TransactionID : string;
  co_CandidatePath : string;
  co_VersionPath : string;
}.

Record journalDocument := mkJournal {
  j_Schema : Z;
  j_TransactionID : string;
  j_CandidatePath : string;
  j_VersionPath : string;
  j_PredecessorVersion : option string;
  j_Stage : string;
  j_DirectRootSHA256 : option (gmap string string);
}.

(** A map in key order. *)
Definition json_string_map (m : gmap string string) : json :=
  JObj ((λ k, (k, JStr (default "" (m !! k)))) <$> sort_strings (elements (dom m : gset string))).

Definition json_owner (d : ownerDocument) : json :=
  JObj [("schema", json_int (own_Schema d)); ("hostname", JStr (own_Hostname d)); ("pid", json_int (own_PID d));
        ("token", JStr (own_Token d)); ("acquired_at", JStr (own_AcquiredAt d))].
Definition json_candidate_owner (d : candidateOwnerDocument) : json :=
  JObj [("schema", json_int (co_Schema d)); ("transaction_id", JStr (co_TransactionID d));
        ("candidate_path", JStr (co_CandidatePath d)); ("version_path", JStr (co_VersionPath d))].
Definition json_journal (d : journalDocument) : json :=
  JObj [("schema", json_int (j_Schema d)); ("transaction_id", JStr (j_TransactionID d));
        ("candidate_path", JStr (j_CandidatePath d)); ("version_path", JStr (j_VersionPath d));
        ("predecessor_version", match j_PredecessorVersion d with Some p => JStr p | None => JNull end);
        ("stage", JStr (j_Stage d));
        ("direct_root_sha256", match j_DirectRootSHA256 d with Some m => json_string_map m | None => JNull end)].

(** [canonicalJSON]: the compact text and a newline; numbers are integers. *)
Definition canonicalJSON (j : json) : string := Marshal (N := id) j +:+ String (byte_of 10) "".

Definition dec_owner : decoder ownerDocument :=
  dec_struct
    [("schema", λ j d, (λ x, mkOwner x (own_Hostname d) (own_PID d) (own_Token d) (own_AcquiredAt d)) <$> dec_int j (own_Schema d));
     ("hostname", λ j d, (λ x, mkOwner (own_Schema d) x (own_PID d) (own_Token d) (own_AcquiredAt d)) <$> dec_string j (own_Hostname d));
     ("pid", λ j d, (λ x, mkOwner (own_Schema d) (own_Hostname d) x (own_Token d) (own_AcquiredAt d)) <$> dec_int j (own_PID d));
     ("token", λ j d, (λ x, mkOwner (own_Schema d) (own_Hostname d) (own_PID d) x (own_AcquiredAt d)) <$> dec_string j (own_Token d));
     ("acquired_at", λ j d, (λ x, mkOwner (own_Schema d) (own_Hostname d) (own_PID d) (own_Token d) x) <$> dec_string j (own_AcquiredAt d))].
Definition dec_candidate_owner : decoder candidateOwnerDocument :=
  dec_struct
    [("schema", λ j d, (λ x, mkCandidateOwner x (co_TransactionID d) (co_CandidatePath d) (co_VersionPath d)) <$> dec_int j (co_Schema d));
     ("transaction_id", λ j d, (λ x, mkCandidateOwner (co_Schema d) x (co_CandidatePath d) (co_VersionPath d)) <$> dec_string j (co_TransactionID d));
     ("candidate_path", λ j d, (λ x, mkCandidateOwner (co_Schema d) (co_TransactionID d) x (co_VersionPath d)) <$> dec_string j (co_CandidatePath d));
     ("version_path", λ j d, (λ x, mkCandidateOwner (co_Schema d) (co_TransactionID d) (co_CandidatePath d) x) <$> dec_string j (co_VersionPath d))].

Definition with_stage (stage : string) (d : journalDocument) : journalDocument :=
  mkJournal (j_Schema d) (j_TransactionID d) (j_CandidatePath d) (j_VersionPath d)
    (j_PredecessorVersion d) stage (j_DirectRootSHA256 d).
Definition dec_journal : decoder journalDocument :=
  dec_struct
    [("schema", λ j d, (λ x, mkJournal x (j_TransactionID d) (j_CandidatePath d) (j_VersionPath d) (j_PredecessorVersion d) (j_Stage d) (j_DirectRootSHA256 d)) <$> dec_int j (j_Schema d));
     ("transaction_id", λ j d, (λ x, mkJournal (j_Schema d) x (j_CandidatePath d) (j_VersionPath d) (j_PredecessorVersion d) (j_Stage d) (j_DirectRootSHA256 d)) <$> dec_string j (j_TransactionID d));
     ("candidate_path", λ j d, (λ x, mkJournal (j_Schema d) (j_TransactionID d) x (j_VersionPath d) (j_PredecessorVersion d) (j_Stage d) (j_DirectRootSHA256 d)) <$> dec_string j (j_CandidatePath d));
     ("version_path", λ j d, (λ x, mkJournal (j_Schema d) (j_TransactionID d) (j_CandidatePath d) x (j_PredecessorVersion d) (j_Stage d) (j_DirectRootSHA256 d)) <$> dec_string j (j_VersionPath d));
     ("predecessor_version", λ j d, (λ x, mkJournal (j_Schema d) (j_TransactionID d) (j_CandidatePath d) (j_VersionPath d) x (j_Stage d) (j_DirectRootSHA256 d)) <$> dec_ptr "" dec_string j (j_PredecessorVersion d));
     ("stage", λ j d, (λ x, with_stage x d) <$> dec_string j (j_Stage d));
     ("direct_root_sha256", λ j d, (λ x, mkJournal (j_Schema d) (j_TransactionID d) (j_CandidatePath d) (j_VersionPath d) (j_PredecessorVersion d) (j_Stage d) x) <$> dec_map "" dec_string j (j_DirectRootSHA256 d))].

(** A strict read of a canonical document: one value with known fields only, and
    the very bytes [canonicalJSON] writes for it. *)
Definition read_canonical {A} (names : list string) (d : decoder A) (zero : A) (encode : A → json)
    (content : string) : option A :=
  match json_parse content with
  | None => None
  | Some j =>
      if negb (known_fields names j) then None
      else match d j zero with
           | None => None
           | Some x => if String.eqb content (canonicalJSON (encode x)) then Some x else None
           end
  end.

Definition owner_fields : list string := ["schema"; "hostname"; "pid"; "token"; "acquired_at"].
Definition candidate_fields : list string := ["schema"; "transaction_id"; "candidate_path"; "version_path"].
Definition journal_fields : list string :=
  ["schema"; "transaction_id"; "candidate_path"; "version_path"; "predecessor_version"; "stage"; "direct_root_sha256"].

(** *** The journal *)

Definition stages : list string :=
  ["candidate_ready"; "version_ready"; "current_published"; "cleaning_direct_root"; "retaining"].

(** 64 hexadecimal digits without upper-case letters. *)
Definition digest_text (value : string) : bool :=
  Nat.eqb (String.length value) 64 && forallb is_hex (bytes value).

Definition validateJournal (d : journalDocument) : option goerror :=
  if negb (j_Schema d =? 1)%Z || negb (hex128Pattern (j_TransactionID d))
     || negb (String.eqb (j_CandidatePath d) ("versions/.candidate-" +:+ j_TransactionID d))
     || negb (String.eqb (j_VersionPath d) ("versions/v-" +:+ j_TransactionID d))
  then Some (ErrNew "invalid certificate publication journal ident")
  else if match j_PredecessorVersion d with Some p => negb (safeVersionPath p) | None => false end
  then Some (ErrNew "invalid certificate publication predecessor")
  else if negb (bool_decide (j_Stage d ∈ stages))
  then Some (ErrNew "invalid certificate publication journal stage")
  else match j_DirectRootSHA256 d with
  | None =>
      if String.eqb (j_Stage d) "cleaning_direct_root"
      then Some (ErrNew "direct-root cleanup stage lacks digests") else None
  | Some digests =>
      if negb (Nat.eqb (size digests) (length managedFiles))
      then Some (ErrNew "invalid direct-root digest set")
      else if forallb (λ spec : string * Z, match digests !! spec.1 with
                                            | Some value => digest_text value
                                            | None => false
                                            end) managedFiles
      then None else Some (ErrNew "invalid direct-root digest")
  end.

Definition sameJournalImmutable (left right : journalDocument) : bool :=
  String.eqb (canonicalJSON (json_journal (with_stage "" left))) (canonicalJSON (json_journal (with_stage "" right))).

Definition legalAdjacentStage (from to : string) (direct : bool) : bool :=
  if String.eqb from "current_published" then
    if direct then String.eqb to "cleaning_direct_root" else String.eqb to "retaining"
  else if String.eqb from "candidate_ready" then String.eqb to "version_ready"
  else if String.eqb from "version_ready" then String.eqb to "current_published"
  else if String.eqb from "cleaning_direct_root" then String.eqb to "retaining"
  else String.eqb to "".

(** ** Parameters *)

Inductive processState := processUnverifiable | processLive | processDead.
#[export] Instance processState_eq_dec : EqDecision processState.
Proof. solve_decision. Defined.

(** [publicationOperations], by the step they are used at: random identifiers, the
    failures injected at the checkpoints, the host and its processes. *)
Record publicationOperations := mkOperations {
  op_nextID : nat → result goerror string;
  op_checkpoint : nat → string → option goerror;
  op_hostname : nat → result goerror string;
  op_pid : Z;
  op_process : nat → Z → processState;
}.

(** [time.Format] and [time.Parse] with RFC3339Nano in UTC, and SHA-256 in
    hexadecimal. *)
Class TextTools := {
  format_utc : Z → string;
  parses_utc : string → bool;
  sha256_hex : string → string;
}.

Section store.
Context {E : OSEnv} {I : Interference FS} {K : Crash} {X : X509} {TT : TextTools}.
Abbreviation FM := (M FS).

(** Go on with a result, or return the error. *)
Definition rbind {A B} (m : FM (result goerror A)) (k : A → FM (result goerror B)) : FM (result goerror B) :=
  let! r := m in
  match r with Ok a => k a | Err e => ret (Err e) end.
#[local] Notation "'try!' x ':=' m 'in' k" :=
  (rbind m (λ x, k)) (at level 10, x pattern, m at level 100, k at level 200).

Definition done : FM (result goerror unit) := ret (Ok tt).
Definition fails {A} (e : goerror) : FM (result goerror A) := ret (Err e).
Definition refuse {A} : FM (result goerror A) := fails ErrUnsupportedForBootstrap.
(** The error of a call as a result; an error replaced by another. *)
Definition must (m : FM (option goerror)) : FM (result goerror unit) :=
  let! r := m in ret (match r with None => Ok tt | Some e => Err e end).
Definition reported {A} (f : goerror → goerror) (m : FM (result goerror A)) : FM (result goerror A) :=
  let! r := m in ret (match r with Ok a => Ok a | Err e => Err (f e) end).
Definition saying {A} (message : string) : FM (result goerror A) → FM (result goerror A) :=
  reported (λ _, ErrNew message).
Definition wrapping {A} (before : string) : FM (result goerror A) → FM (result goerror A) :=
  reported (λ e, ErrWrap before e "").

Definition nextID (ops : publicationOperations) : FM (result goerror string) :=
  λ w, (Returned (op_nextID ops (w_clock w)), tick w).
Definition checkpoint (ops : publicationOperations) (name : string) : FM (result goerror unit) :=
  λ w, (Returned (match op_checkpoint ops (w_clock w) name with None => Ok tt | Some e => Err e end), tick w).

(** ** Pinned files and directories *)

Definition pathExists (p : path) : FM bool :=
  let! r := Lstat p in ret (match r with Ok _ => true | Err _ => false end).
Definition pathAbsent (p : path) : FM bool :=
  let! r := Lstat p in ret (match r with Ok _ => false | Err e => errors_is e ErrNotExist end).

Definition dir_ok (required : option Z) (i : FileInfo) : bool :=
  IsDir i && match required with Some mode => (fi_perm i =? mode)%Z | None => true end.
Definition regular_ok (mode : Z) (i : FileInfo) : bool := IsRegular i && (fi_perm i =? mode)%Z.

(** A second observation must be of the same object. *)
Definition again (ok : FileInfo → bool) (observed : FileInfo) (r : result goerror FileInfo) : bool :=
  match r with Ok i => ok i && SameFile observed i | Err _ => false end.

Definition openPinnedDirectory (p : path) (required : option Z) : FM (result goerror (handle * FileInfo)) :=
  let! observed := Lstat p in
  match observed with
  | Err _ => refuse
  | Ok observed =>
      if negb (dir_ok required observed) then refuse
      else
        try! directory := Open p in
        let! pinned := File_Stat directory in
        if negb (again (dir_ok required) observed pinned)
        then let! _ := File_Close directory in refuse
        else
          let! reobserved := Lstat p in
          if negb (again (dir_ok required) observed reobserved)
          then let! _ := File_Close directory in refuse
          else ret (Ok (directory, observed))
  end.

Definition pinned_directory (p : path) (required : option Z) : FM (option FileInfo) :=
  let! opened := openPinnedDirectory p required in
  match opened with
  | Err _ => ret None
  | Ok (directory, observed) =>
      let! closed := File_Close directory in
      ret (match closed with None => Some observed | Some _ => None end)
  end.
Definition pinnedDirectory (p : path) (mode : Z) : FM (option FileInfo) := pinned_directory p (Some mode).
Definition pinnedDirectoryAnyMode (p : path) : FM (option FileInfo) := pinned_directory p None.

Definition readPinnedDirectory (p : path) (mode : Z) : FM (result goerror (list string)) :=
  try! opened := openPinnedDirectory p (Some mode) in
  let! entries := File_ReadDir opened.1 in
  let! _ := File_Close opened.1 in
  ret entries.

Definition syncPinnedDirectory (p : path) (required : option Z) : FM (result goerror unit) :=
  try! opened := openPinnedDirectory p required in
  let! synced := File_Sync opened.1 in
  let! _ := File_Close opened.1 in
  ret (match synced with None => Ok tt | Some e => Err (ErrWrap "sync directory: " e "") end).
Definition syncDir (p : path) : FM (result goerror unit) := syncPinnedDirectory p (Some mode_dir).

Definition readPinnedRegular (p : path) (mode : Z) : FM (result goerror (string * FileInfo)) :=
  try! observed := Lstat p in
  if negb (regular_ok mode observed) then refuse
  else
    try! file := Open p in
    let close_with r := (let! _ := File_Close file in ret r) in
    let! pinned := File_Stat file in
    if negb (again (regular_ok mode) observed pinned) then close_with (Err ErrUnsupportedForBootstrap)
    else
      let! content := ReadAll file in
      match content with
      | Err e => close_with (Err e)
      | Ok content =>
          let! reobserved := Lstat p in
          if negb (again (regular_ok mode) observed reobserved) then close_with (Err ErrUnsupportedForBootstrap)
          else
            let! repinned := File_Stat file in
            if negb (again (regular_ok mode) observed repinned) then close_with (Err ErrUnsupportedForBootstrap)
            else close_with (Ok (content, observed))
      end.

(** The body of [writeExclusive] once the file is open. *)
Definition write_opened (p : path) (file : handle) (content : string) (mode : Z) : FM (result goerror unit) :=
  try! _ := must (File_Chmod file mode) in
  let! observed := Lstat p in
  match observed with
  | Err _ => refuse
  | Ok observed =>
      if negb (regular_ok mode observed) then refuse
      else
        let! pinned := File_Stat file in
        if negb (again (regular_ok mode) observed pinned) then refuse
        else
          try! _ := must (File_Write file content) in
          try! _ := must (File_Sync file) in
          let! reobserved := Lstat p in
          if negb (again (regular_ok mode) observed reobserved) then refuse
          else
            let! repinned := File_Stat file in
            if negb (again (regular_ok mode) observed repinned) then refuse else done
  end.

Definition writeExclusive (p : path) (content : string) (mode : Z) : FM (result goerror unit) :=
  let! existing := Lstat p in
  match existing with
  | Ok _ => fails (ErrSentinel ErrExist)
  | Err e =>
      if negb (errors_is e ErrNotExist) then fails e
      else
        try! file := CreateExclusive p mode in
        let! written := write_opened p file content mode in
        match written with
        | Err e => let! _ := File_Close file in fails e
        | Ok _ => must (File_Close file)
        end
  end.

Definition validateRegularDestination (p : path) (mode : Z) : FM (result goerror unit) :=
  let! r := Lstat p in
  match r with
  | Err e => if errors_is e ErrNotExist then done else fails e
  | Ok _ => let! read := readPinnedRegular p mode in
            match read with Ok _ => done | Err _ => refuse end
  end.

Definition renamePinnedRegular (source destination : path) (mode : Z) : FM (result goerror unit) :=
  try! _ := readPinnedRegular source mode in
  try! _ := validateRegularDestination destination mode in
  must (Rename_path source destination).

Definition removePinnedRegular (p : path) (mode : Z) : FM (result goerror unit) :=
  try! _ := readPinnedRegular p mode in
  must (Remove_path p).

Definition renamePinnedDirectory (source destination : path) (mode : Z) : FM (result goerror unit) :=
  let! pinned := pinnedDirectory source mode in
  match pinned with
  | None => refuse
  | Some _ =>
      let! absent := pathAbsent destination in
      if negb absent then refuse else must (Rename_path source destination)
  end.

Definition removePinnedDirectory (p : path) (mode : Z) : FM (result goerror unit) :=
  let! pinned := pinnedDirectory p mode in
  match pinned with
  | None => refuse
  | Some _ => must (Remove_path p)
  end.

Definition removeObservedRegular (p : path) (mode : Z) (observed : FileInfo) : FM (result goerror unit) :=
  let! current := Lstat p in
  if negb (again (regular_ok mode) observed current) then fails (ErrNew "file ident changed before removal")
  else must (Remove_path p).

Definition ensureDirectory (p : path) (mode : Z) : FM (result goerror unit) :=
  let! made := Mkdir p mode in
  try! _ := match made with
            | None => must (Chmod p mode)
            | Some e => if errors_is e ErrExist then done else fails e
            end in
  let! pinned := pinnedDirectory p mode in
  match pinned with Some _ => done | None => refuse end.

(** ** Random names *)

Definition invalid_id : goerror := ErrNew "invalid certificate publication random identifier".

Fixpoint writeRandomExclusive (attempts : nat) (ops : publicationOperations) (pathForID : string → path)
    (contentForID : string → string) (mode : Z) : FM (result goerror (string * path)) :=
  match attempts with
  | O => fails ErrRandomNameCollisions
  | S attempts' =>
      try! id := nextID ops in
      if negb (hex128Pattern id) then fails invalid_id
      else
        let! written := writeExclusive (pathForID id) (contentForID id) mode in
        match written with
        | Ok _ => ret (Ok (id, pathForID id))
        | Err e => if errors_is e ErrExist
                   then writeRandomExclusive attempts' ops pathForID contentForID mode
                   else fails e
        end
  end.

Fixpoint anyPathExists (paths : list path) : FM (result goerror bool) :=
  match paths with
  | [] => ret (Ok false)
  | p :: paths' =>
      let! r := Lstat p in
      match r with
      | Ok _ => ret (Ok true)
      | Err e => if errors_is e ErrNotExist then anyPathExists paths' else fails e
      end
  end.

Fixpoint createCandidateDirectory (attempts : nat) (root : path) (ops : publicationOperations) :
  FM (result goerror (string * path)) :=
  match attempts with
  | O => fails ErrRandomNameCollisions
  | S attempts' =>
      try! id := nextID ops in
      if negb (hex128Pattern id) then fails invalid_id
      else
        let candidate := root ++ ["versions"; ".candidate-" +:+ id] in
        try! collision := anyPathExists [candidate; root ++ ["versions"; "v-" +:+ id]; root ++ [".current-" +:+ id]] in
        if (collision : bool) then createCandidateDirectory attempts' root ops
        else
          let! made := Mkdir candidate mode_dir in
          match made with
          | Some e => if errors_is e ErrExist then createCandidateDirectory attempts' root ops else fails e
          | None =>
              try! _ := must (Chmod candidate mode_dir) in
              let! pinned := pinnedDirectory candidate mode_dir in
              match pinned with
              | None => refuse
              | Some _ => ret (Ok (id, candidate))
              end
          end
  end.

Fixpoint createRandomSymlink (attempts : nat) (ops : publicationOperations) (pathForID : string → path)
    (target : string) : FM (result goerror (string * path)) :=
  match attempts with
  | O => fails ErrRandomNameCollisions
  | S attempts' =>
      try! id := nextID ops in
      if negb (hex128Pattern id) then fails invalid_id
      else
        let! made := Symlink target (pathForID id) in
        match made with
        | None => ret (Ok (id, pathForID id))
        | Some e => if errors_is e ErrExist then createRandomSymlink attempts' ops pathForID target else fails e
        end
  end.

(** ** Material on disk *)

(** The managed files of a directory, in their order. *)
Fixpoint read_specs (p : path) (specs : list (string * Z)) : FM (result goerror (list fileSpec)) :=
  match specs with
  | [] => ret (Ok [])
  | spec :: specs' =>
      try! read := readPinnedRegular (p ++ [spec.1]) spec.2 in
      try! files := read_specs p specs' in
      ret (Ok (mkFileSpec spec.1 spec.2 read.1 :: files))
  end.

Definition want_names : list string := ["ca.crt"; "client.crt"; "client.key"; "server.crt"; "server.key"].
Definition candidate_owner_name : string := ".candidate-owner.json".

Definition readManagedMaterial (p : path) (candidate : bool) : FM (result goerror (list fileSpec)) :=
  let! pinned := pinnedDirectory p mode_dir in
  match pinned with
  | None => refuse
  | Some _ =>
      let! entries := readPinnedDirectory p mode_dir in
      match entries with
      | Err _ => refuse
      | Ok names =>
          if negb (equalStrings names (if candidate then candidate_owner_name :: want_names else want_names))
          then refuse
          else
            try! _ := if candidate
                      then reported (λ _, ErrUnsupportedForBootstrap)
                             (readPinnedRegular (p ++ [candidate_owner_name]) mode_private)
                      else ret (Ok ("", mkInfo KFile 0 0)) in
            reported (λ _, ErrUnsupportedForBootstrap) (read_specs p managedFiles)
      end
  end.

Definition validateMaterial (p : path) (candidate : bool) : FM (result goerror unit) :=
  try! files := readManagedMaterial p candidate in
  let! now := Now in
  let '(ident, fresh) := classifyMaterial files now in
  if bool_decide (ident = identityTarget) && fresh then done else refuse.

Definition validateTargetIdentity (p : path) (candidate : bool) : FM (result goerror unit) :=
  try! files := readManagedMaterial p candidate in
  if bool_decide ((classifyMaterial files 0).1 = identityTarget) then done else refuse.

Record materialObservation := mkObservation {
  obs_directory : path;
  obs_dirInfo : FileInfo;
  obs_files : list (string * Z * FileInfo);
}.

Fixpoint observe_specs (p : path) (specs : list (string * Z)) : FM (result goerror (list (string * Z * FileInfo))) :=
  match specs with
  | [] => ret (Ok [])
  | spec :: specs' =>
      try! read := readPinnedRegular (p ++ [spec.1]) spec.2 in
      try! infos := observe_specs p specs' in
      ret (Ok ((spec, read.2) :: infos))
  end.

Definition observeValidatedMaterial (p : path) (candidate : bool) : FM (result goerror materialObservation) :=
  try! _ := validateTargetIdentity p candidate in
  let! pinned := pinnedDirectory p mode_dir in
  match pinned with
  | None => refuse
  | Some dirInfo =>
      try! files := observe_specs p managedFiles in
      ret (Ok (mkObservation p dirInfo files))
  end.

Fixpoint specs_unchanged (p : path) (infos : list (string * Z * FileInfo)) : FM bool :=
  match infos with
  | [] => ret true
  | ((name, mode), observed) :: infos' =>
      let! current := Lstat (p ++ [name]) in
      if again (regular_ok mode) observed current then specs_unchanged p infos' else ret false
  end.

Definition unchanged (observation : materialObservation) : FM bool :=
  let! currentDir := pinnedDirectory (obs_directory observation) mode_dir in
  match currentDir with
  | None => ret false
  | Some current =>
      if SameFile (obs_dirInfo observation) current
      then specs_unchanged (obs_directory observation) (obs_files observation)
      else ret false
  end.

Definition readSafeCurrent (root : path) : FM (result goerror string) :=
  let p := root ++ ["current"] in
  let! info := Lstat p in
  match info with
  | Err _ => refuse
  | Ok info =>
      if negb (IsSymlink info) then refuse
      else
        let! target := Readlink p in
        match target with
        | Err _ => refuse
        | Ok target =>
            if is_abs target || negb (safeVersionPath target) then refuse
            else
              let! reobserved := Lstat p in
              if negb (again (λ _, true) info reobserved) then refuse else ret (Ok target)
        end
  end.
End store.

Notation "'try!' x ':=' m 'in' k" :=
  (rbind m (λ x, k)) (at level 10, x pattern, m at level 100, k at level 200) : go_scope.
