(* ===== verification/CertPublish.v ===== *)
(** * Development certificates: publication and recovery

    The rest of [internal/devcerts]: the publication lock ([lock.go],
    [publish.go]), the transaction and its recovery ([transaction.go]), the
    classification of the managed root ([state.go]) and the lifecycle
    ([lifecycle.go]). *)

From stdpp Require Import base gmap strings list fin_maps.
From Stdlib Require Import ZArith Lia Ascii.
From S2P Require Import Prelude GoStrings GoErrors GoJson GoJsonPrint GoOS GoFS CertMaterial CertStore.
Set Default Goal Selector "!".

Section publish.
Context {E : OSEnv} {I : Interference FS} {K : Crash} {X : X509} {TT : TextTools}.
Abbreviation FM := (M FS).

(** ** The lock *)

Definition zero_owner : ownerDocument := mkOwner 0 "" 0 "" "".

(** The checks that [readCanonicalOwner] and [canonicalOwnerMatches] share. *)
Definition canonical_owner (content : string) : option ownerDocument :=
  match read_canonical owner_fields dec_owner zero_owner json_owner content with
  | None => None
  | Some d =>
      if (own_Schema d =? 1)%Z && negb (String.eqb (own_Hostname d) "") && (0 <? own_PID d)%Z
         && hex128Pattern (own_Token d) && parses_utc (own_AcquiredAt d)
      then Some d else None
  end.

Definition readCanonicalOwner (p : path) : FM (result goerror ownerDocument) :=
  try! read := readPinnedRegular p mode_private in
  ret (match canonical_owner read.1 with Some d => Ok d | None => Err ErrLockOwnerMismatch end).

Definition canonicalOwnerMatches (p : path) (token : string) : FM bool :=
  let! read := readPinnedRegular p mode_private in
  ret (match read with
       | Err _ => false
       | Ok (content, _) =>
           match canonical_owner content with
           | Some d => String.eqb (own_Token d) token
           | None => false
           end
       end).

Definition acquireLockOnce (root : path) (ops : publicationOperations) : FM (result goerror string) :=
  let lock := root ++ [lockName] in
  try! _ := must (Mkdir lock mode_lock) in
  try! _ := saying "set certificate publication lock mode" (must (Chmod lock mode_lock)) in
  let! pinned := pinnedDirectory lock mode_lock in
  match pinned with
  | None => refuse
  | Some _ =>
      let! hostname := (λ w, (Returned (op_hostname ops (w_clock w)), tick w)) in
      match hostname with
      | Err _ => fails (ErrNew "determine certificate publication hostname")
      | Ok hostname =>
          if String.eqb hostname "" then fails (ErrNew "determine certificate publication hostname")
          else
            let! now := Now in
            let acquiredAt := format_utc now in
            try! written := saying "write certificate publication owner"
              (writeRandomExclusive maxNameAttempts ops (λ id, lock ++ ["owner." +:+ id +:+ ".tmp"])
                 (λ id, canonicalJSON (json_owner (mkOwner 1 hostname (op_pid ops) id acquiredAt))) mode_private) in
            let '(token, temp) := written in
            try! _ := saying "publish certificate publication owner"
              (renamePinnedRegular temp (lock ++ ["owner.json"]) mode_private) in
            try! _ := saying "sync certificate publication lock" (syncPinnedDirectory lock (Some mode_lock)) in
            try! _ := syncDir root in
            (* the token is returned together with the error of the checkpoint *)
            try! _ := checkpoint ops "lock_owner_published" in
            ret (Ok token)
      end
  end.

Definition reapDeadLock (root : path) (ops : publicationOperations) : FM (result goerror bool) :=
  let lock := root ++ [lockName] in
  let! owner := readCanonicalOwner (lock ++ ["owner.json"]) in
  match owner with
  | Err _ => ret (Ok false)
  | Ok document =>
      let! dead := (λ w, (Returned (match op_hostname ops (w_clock w) with
                                    | Ok hostname => negb (String.eqb hostname "")
                                        && String.eqb (own_Hostname document) hostname
                                        && bool_decide (op_process ops (w_clock w) (own_PID document) = processDead)
                                    | Err _ => false
                                    end), tick w)) in
      if negb dead then ret (Ok false)
      else
        let reap := root ++ [".certificate-publication.reap-" +:+ own_Token document] in
        let! renamed := renamePinnedDirectory lock reap mode_lock in
        match renamed with
        | Err _ => ret (Ok false)
        | Ok _ =>
            try! _ := syncDir root in
            let! reaped := readCanonicalOwner (reap ++ ["owner.json"]) in
            match reaped with
            | Err _ => fails ErrLockOwnerMismatch
            | Ok again =>
                if negb (String.eqb (own_Token again) (own_Token document)) then fails ErrLockOwnerMismatch
                else
                  let! entries := readPinnedDirectory reap mode_lock in
                  if negb (match entries with Ok names => equalStrings names ["owner.json"] | Err _ => false end)
                  then fails ErrLockOwnerMismatch
                  else
                    try! _ := removePinnedRegular (reap ++ ["owner.json"]) mode_private in
                    try! _ := removePinnedDirectory reap mode_lock in
                    try! _ := syncDir root in
                    ret (Ok true)
            end
        end
  end.

Definition lockWait : Z := 10 * second.
Definition lock_timeout : goerror := ErrNew "certificate publication lock wait timed out".

(** [sleep]: the clock goes on. *)
Definition sleep : FM unit := λ w, (Returned tt, tick w).

(** The loop of [acquireLockWithWait]; [first] is the attempt that does not look at
    the deadline.  The fuel stands for the clock that ends the wait; without any
    left the call does not return. *)
Fixpoint acquire_attempts (fuel : nat) (first : bool) (deadline : Z) (root : path)
    (ops : publicationOperations) : FM (result goerror string) :=
  match fuel with
  | O => diverge
  | S fuel' =>
      let! expired := if first then ret false else (let! now := Now in ret (deadline <=? now)%Z) in
      if (expired : bool) then fails lock_timeout
      else
        let! attempt := acquireLockOnce root ops in
        match attempt with
        | Ok token => ret (Ok token)
        | Err e =>
            if negb (errors_is e ErrExist) then fails e
            else
              try! reaped := reapDeadLock root ops in
              let! _ := if (reaped : bool) then ret tt else (let! _ := Now in sleep) in
              acquire_attempts fuel' false deadline root ops
        end
  end.

Definition lock_fuel : nat := 256.
Definition acquireLockWithWait (root : path) (ops : publicationOperations) : FM (result goerror string) :=
  let! now := Now in
  acquire_attempts lock_fuel true (now + lockWait)%Z root ops.

Definition releaseLock (root : path) (token : string) : FM (result goerror unit) :=
  let lock := root ++ [lockName] in
  let! owned := canonicalOwnerMatches (lock ++ ["owner.json"]) token in
  if negb owned then fails ErrLockOwnerMismatch
  else
    let release := root ++ [".certificate-publication.release-" +:+ token] in
    try! _ := saying "rename certificate publication lock for release" (renamePinnedDirectory lock release mode_lock) in
    try! _ := syncDir root in
    let! still := canonicalOwnerMatches (release ++ ["owner.json"]) token in
    if negb still then fails ErrLockOwnerMismatch
    else
      let wantTemp := "owner." +:+ token +:+ ".tmp" in
      let! entries := readPinnedDirectory release mode_lock in
      match entries with
      | Err _ => fails ErrLockOwnerMismatch
      | Ok names =>
          if negb (forallb (λ name, String.eqb name "owner.json" || String.eqb name wantTemp) names)
             || negb (existsb (String.eqb "owner.json") names)
             || (2 <? length names)%nat
          then fails ErrLockOwnerMismatch
          else
            let hasTemp := existsb (String.eqb wantTemp) names in
            try! _ := if hasTemp
                      then reported (λ _, ErrLockOwnerMismatch) (readPinnedRegular (release ++ [wantTemp]) mode_private)
                      else ret (Ok ("", mkInfo KFile 0 0)) in
            try! _ := saying "remove certificate publication owner"
                        (removePinnedRegular (release ++ ["owner.json"]) mode_private) in
            try! _ := if hasTemp
                      then saying "remove certificate publication owner temp"
                             (removePinnedRegular (release ++ [wantTemp]) mode_private)
                      else done in
            try! _ := saying "remove certificate publication lock" (removePinnedDirectory release mode_lock) in
            syncDir root
      end.

(** ** The journal on disk *)

Definition zero_journal : journalDocument := mkJournal 0 "" "" "" None "" None.

Definition decodeJournal (content : string) : result goerror journalDocument :=
  match read_canonical journal_fields dec_journal zero_journal json_journal content with
  | None => Err (ErrNew "invalid certificate publication journal")
  | Some d => match validateJournal d with None => Ok d | Some e => Err e end
  end.

Definition readJournal (p : path) : FM (result goerror journalDocument) :=
  try! read := readPinnedRegular p mode_private in
  ret (decodeJournal read.1).

Definition journalTempPathForDocument (root : path) (transactionID tempID : string) : path :=
  root ++ [".certificate-publication.transaction-" +:+ transactionID +:+ "-" +:+ tempID +:+ ".tmp"].

Definition replaceJournalWithOperations (root : path) (document : journalDocument) (ops : publicationOperations) :
  FM (result goerror unit) :=
  match validateJournal document with
  | Some e => fails e
  | None =>
      try! written := wrapping "write certificate publication journal: "
        (writeRandomExclusive maxNameAttempts ops (journalTempPathForDocument root (j_TransactionID document))
           (λ _, canonicalJSON (json_journal document)) mode_private) in
      try! _ := checkpoint ops ("journal_temp_synced_" +:+ j_Stage document) in
      try! _ := wrapping "replace certificate publication journal: "
        (renamePinnedRegular written.2 (root ++ [journalName]) mode_private) in
      try! _ := checkpoint ops ("journal_renamed_" +:+ j_Stage document) in
      try! _ := syncDir root in
      checkpoint ops ("journal_" +:+ j_Stage document)
  end.

(** ** Publication *)

(** [currentMatches], which is also the test of [replaceCurrentSymlink]: [current]
    still is what the journal says it was. *)
Definition currentMatches (root : path) (predecessor : option string) : FM bool :=
  let! current := readSafeCurrent root in
  match predecessor with
  | None =>
      if match current with Err e => errors_is e ErrNotExist | Ok _ => false end then ret true
      else let! present := pathExists (root ++ ["current"]) in ret (negb present)
  | Some p => ret (match current with Ok c => String.eqb c p | Err _ => false end)
  end.

Definition replaceCurrentSymlink (root source : path) (journal : journalDocument) (ops : publicationOperations) :
  FM (result goerror unit) :=
  let! observed := Lstat source in
  match observed with
  | Err _ => refuse
  | Ok observed =>
      if negb (IsSymlink observed) then refuse
      else
        let! target := Readlink source in
        if negb (match target with Ok t => String.eqb t (j_VersionPath journal) | Err _ => false end) then refuse
        else
          try! _ := checkpoint ops "current_temp_validated" in
          let! expected := currentMatches root (j_PredecessorVersion journal) in
          if negb expected then refuse
          else
            let! reobserved := Lstat source in
            if negb (again IsSymlink observed reobserved) then refuse
            else
              let! revalidated := Readlink source in
              if negb (match revalidated with Ok t => String.eqb t (j_VersionPath journal) | Err _ => false end)
              then refuse
              else must (Rename_path source (root ++ ["current"]))
  end.

Definition publishCurrent (root : path) (journal : journalDocument) (ops : publicationOperations) :
  FM (result goerror unit) :=
  let version := under root (j_VersionPath journal) in
  try! material := saying "final material is invalid before current publication"
                     (observeValidatedMaterial version false) in
  try! temp := createRandomSymlink maxNameAttempts ops (λ id, root ++ [".current-" +:+ id]) (j_VersionPath journal) in
  try! _ := syncDir root in
  try! _ := checkpoint ops "current_temp_created" in
  let! same := unchanged material in
  if negb same then fails (ErrNew "final material changed before current publication")
  else
    try! _ := replaceCurrentSymlink root temp.2 journal ops in
    try! _ := syncDir root in
    checkpoint ops "current_renamed".

Definition digestDirectState (files : list fileSpec) : gmap string string :=
  list_to_map ((λ spec : string * Z, (spec.1, sha256_hex (content_of files spec.1))) <$> managedFiles).

Fixpoint cleanup_specs (root : path) (digests : gmap string string) (ops : publicationOperations)
    (specs : list (string * Z)) : FM (result goerror unit) :=
  match specs with
  | [] => done
  | spec :: specs' =>
      let p := root ++ [spec.1] in
      let! read := readPinnedRegular p spec.2 in
      match read with
      | Err e => if errors_is e ErrNotExist then cleanup_specs root digests ops specs'
                 else fails (ErrNew "direct-root cleanup evidence is unverifiable")
      | Ok (content, observed) =>
          if negb (String.eqb (sha256_hex content) (default "" (digests !! spec.1)))
          then fails (ErrNew "direct-root cleanup digest changed after publication")
          else
            try! _ := checkpoint ops ("direct_root_digest_validated_" +:+ spec.1) in
            try! _ := removeObservedRegular p spec.2 observed in
            try! _ := checkpoint ops ("direct_root_removed_" +:+ spec.1) in
            cleanup_specs root digests ops specs'
      end
  end.
Definition cleanupDirectRoot (root : path) (digests : gmap string string) (ops : publicationOperations) :
  FM (result goerror unit) :=
  try! _ := cleanup_specs root digests ops managedFiles in
  syncDir root.

(** ** Retention *)

Definition validateDeletionRemainder (p : path) (removed : nat) : FM (result goerror unit) :=
  let! entries := readPinnedDirectory p mode_dir in
  match entries with
  | Err _ => fails (ErrNew "retention deletion remainder is invalid")
  | Ok names =>
      if negb (Nat.eqb (length names + removed) (length managedFiles))
      then fails (ErrNew "retention deletion remainder is invalid")
      else if forallb (λ spec, existsb (String.eqb spec.1) names) (drop removed managedFiles)
              && forallb (λ spec, negb (existsb (String.eqb spec.1) names)) (take removed managedFiles)
      then done else fails (ErrNew "retention deletion remainder is noncanonical")
  end.

(** [deletionProgress] from a number of removed files on. *)
Fixpoint deletion_progress (p : path) (left_ : nat) : FM (result goerror nat) :=
  let removed := (length managedFiles - left_)%nat in
  let! r := validateDeletionRemainder p removed in
  match r with
  | Ok _ => ret (Ok removed)
  | Err _ => match left_ with
             | O => fails (ErrNew "retention deletion progress is invalid")
             | S left' => deletion_progress p left'
             end
  end.
Definition deletionProgress (p : path) : FM (result goerror nat) := deletion_progress p (length managedFiles).

Fixpoint remove_remaining (p : path) (originalName : string) (ops : publicationOperations) (index : nat)
    (specs : list (string * Z)) : FM (result goerror unit) :=
  match specs with
  | [] => done
  | spec :: specs' =>
      try! _ := validateDeletionRemainder p index in
      try! read := readPinnedRegular (p ++ [spec.1]) spec.2 in
      try! _ := removeObservedRegular (p ++ [spec.1]) spec.2 read.2 in
      try! _ := syncDir p in
      try! _ := checkpoint ops ("retained_version_file_removed_" +:+ originalName +:+ "_" +:+ spec.1) in
      remove_remaining p originalName ops (S index) specs'
  end.

Definition resumeClaimedVersionDeletion (versions : path) (claimedName originalName : string)
    (ops : publicationOperations) : FM (result goerror unit) :=
  let p := versions ++ [claimedName] in
  let! pinned := pinnedDirectory p mode_dir in
  match pinned with
  | None => refuse
  | Some _ =>
      try! removed := deletionProgress p in
      try! _ := remove_remaining p originalName ops removed (drop removed managedFiles) in
      try! _ := validateDeletionRemainder p (length managedFiles) in
      try! _ := removePinnedDirectory p mode_dir in
      try! _ := syncDir versions in
      checkpoint ops ("retained_version_directory_removed_" +:+ originalName)
  end.

Definition validateCompleteVersionStructure (p : path) : FM (result goerror unit) :=
  let! entries := readPinnedDirectory p mode_dir in
  if negb (match entries with Ok names => Nat.eqb (length names) (length managedFiles) | Err _ => false end)
  then refuse
  else let! files := read_specs p managedFiles in
       match files with Ok _ => done | Err _ => refuse end.

Fixpoint resume_claims (versions : path) (journal : journalDocument) (ops : publicationOperations)
    (entries : list string) : FM (result goerror unit) :=
  match entries with
  | [] => done
  | name :: entries' =>
      match retentionDeletePattern name with
      | None => resume_claims versions journal ops entries'
      | Some (tx, original) =>
          if negb (String.eqb tx (j_TransactionID journal))
          then fails (ErrNew "retention deletion artifact belongs to another transaction")
          else
            try! _ := resumeClaimedVersionDeletion versions name original ops in
            resume_claims versions journal ops entries'
      end
  end.

(** The versions that stay: the published one and its predecessor. *)
Definition protected (journal : journalDocument) (name : string) : bool :=
  String.eqb ("versions/" +:+ name) (j_VersionPath journal)
  || match j_PredecessorVersion journal with Some p => String.eqb ("versions/" +:+ name) p | None => false end.

Fixpoint delete_excess (versions : path) (journal : journalDocument) (ops : publicationOperations)
    (entries : list string) : FM (result goerror unit) :=
  match entries with
  | [] => done
  | name :: entries' =>
      if protected journal name then delete_excess versions journal ops entries'
      else if negb (versionPattern name) then refuse
      else
        let p := versions ++ [name] in
        try! _ := reported (λ _, ErrUnsupportedForBootstrap) (validateCompleteVersionStructure p) in
        let claimedName := ".retention-delete-" +:+ j_TransactionID journal +:+ "-" +:+ name in
        try! _ := renamePinnedDirectory p (versions ++ [claimedName]) mode_dir in
        try! _ := syncDir versions in
        try! _ := checkpoint ops ("retained_version_claimed_" +:+ name) in
        try! _ := resumeClaimedVersionDeletion versions claimedName name ops in
        delete_excess versions journal ops entries'
  end.

Definition retainRecordedVersions (root : path) (journal : journalDocument) (ops : publicationOperations) :
  FM (result goerror unit) :=
  let versions := root ++ ["versions"] in
  try! entries := readPinnedDirectory versions mode_dir in
  try! _ := resume_claims versions journal ops entries in
  try! entries := readPinnedDirectory versions mode_dir in
  try! _ := delete_excess versions journal ops entries in
  try! _ := syncDir versions in
  syncDir root.

Definition finishPublishedTransaction (root : path) (journal : journalDocument) (ops : publicationOperations) :
  FM (result goerror unit) :=
  try! _ := match j_DirectRootSHA256 journal with
            | None => done
            | Some digests =>
                try! _ := if String.eqb (j_Stage journal) "current_published"
                          then replaceJournalWithOperations root (with_stage "cleaning_direct_root" journal) ops
                          else done in
                cleanupDirectRoot root digests ops
            end in
  let journal := with_stage "retaining" journal in
  try! _ := replaceJournalWithOperations root journal ops in
  try! _ := retainRecordedVersions root journal ops in
  try! _ := checkpoint ops "retention_complete" in
  try! _ := saying "final material changed before journal removal"
              (validateTargetIdentity (under root (j_VersionPath journal)) false) in
  try! _ := removePinnedRegular (root ++ [journalName]) mode_private in
  try! _ := syncDir root in
  checkpoint ops "journal_removed".

(** ** The transaction *)

Fixpoint write_material (candidate : path) (ops : publicationOperations) (material : list fileSpec) :
  FM (result goerror unit) :=
  match material with
  | [] => done
  | file :: material' =>
      try! _ := wrapping "write development certificate candidate: "
                  (writeExclusive (candidate ++ [spec_name file]) (spec_data file) (spec_mode file)) in
      try! _ := checkpoint ops ("candidate_file_synced_" +:+ spec_name file) in
      write_material candidate ops material'
  end.

Definition publishTransaction (root : path) (material : list fileSpec) (predecessor : option string)
    (directDigests : option (gmap string string)) (ops : publicationOperations) : FM (result goerror unit) :=
  try! created := createCandidateDirectory maxNameAttempts root ops in
  let '(transactionID, candidate) := created in
  let candidateRelative := "versions/.candidate-" +:+ transactionID in
  let versionRelative := "versions/v-" +:+ transactionID in
  let version := under root versionRelative in
  let versions := root ++ ["versions"] in
  try! _ := checkpoint ops "candidate_created" in
  let ownerContent := canonicalJSON (json_candidate_owner
                        (mkCandidateOwner 1 transactionID candidateRelative versionRelative)) in
  try! written := saying "write certificate candidate owner"
    (writeRandomExclusive maxNameAttempts ops (λ id, candidate ++ [".candidate-owner." +:+ id +:+ ".tmp"])
       (λ _, ownerContent) mode_private) in
  try! _ := checkpoint ops "candidate_owner_temp_synced" in
  let ownerPath := candidate ++ [candidate_owner_name] in
  try! _ := saying "publish certificate candidate owner" (renamePinnedRegular written.2 ownerPath mode_private) in
  try! _ := syncDir candidate in
  try! _ := checkpoint ops "candidate_owner_published" in
  try! _ := write_material candidate ops material in
  try! _ := syncDir candidate in
  try! _ := checkpoint ops "candidate_material_synced" in
  try! _ := wrapping "validate certificate candidate: " (validateMaterial candidate true) in
  try! _ := syncDir versions in
  let journal := mkJournal 1 transactionID candidateRelative versionRelative predecessor "candidate_ready" directDigests in
  try! _ := replaceJournalWithOperations root journal ops in
  try! _ := removePinnedRegular ownerPath mode_private in
  try! _ := syncDir candidate in
  try! _ := checkpoint ops "candidate_owner_removed" in
  try! _ := renamePinnedDirectory candidate version mode_dir in
  try! _ := syncDir versions in
  try! _ := checkpoint ops "version_renamed" in
  let journal := with_stage "version_ready" journal in
  try! _ := replaceJournalWithOperations root journal ops in
  try! _ := publishCurrent root journal ops in
  let journal := with_stage "current_published" journal in
  try! _ := replaceJournalWithOperations root journal ops in
  finishPublishedTransaction root journal ops.
End publish.
