(* ===== verification/CertRecover.v ===== *)
(** * Development certificates: recovery and lifecycle

    The recovery of an interrupted publication ([transaction.go]), the
    classification of the managed root ([state.go]) and the lifecycle that ties
    them together ([lifecycle.go], [publish.go]). *)

From stdpp Require Import base gmap strings list fin_maps.
From Stdlib Require Import ZArith Lia Ascii.
From S2P Require Import Prelude GoStrings GoErrors GoJson GoJsonPrint GoOS GoFS CertMaterial CertStore CertPublish.
Set Default Goal Selector "!".

Inductive lifecycleState :=
| stateEmpty
| statePublishedTarget
| stateLegacyDirectRootTarget
| stateRecognizedPredecessor
| statePartial
| stateUnknownComplete.
#[export] Instance lifecycleState_eq_dec : EqDecision lifecycleState.
Proof. solve_decision. Defined.

Record classifiedRoot := mkClassified {
  cr_state : lifecycleState;
  cr_fresh : bool;
  cr_current : option string;
  cr_directFiles : list fileSpec;
  cr_unsafe : bool;
}.

Section recover.
Context {E : OSEnv} {I : Interference FS} {K : Crash} {X : X509} {TT : TextTools}.
Abbreviation FM := (M FS).

(** ** Leftovers of locks *)

(** The token of a lock that was being released or reaped. *)
Definition lock_artifact (name : string) : option string :=
  let release := ".certificate-publication.release-" in
  let reap := ".certificate-publication.reap-" in
  if has_prefix name release then Some (trim_prefix name release)
  else if has_prefix name reap then Some (trim_prefix name reap)
  else None.

Fixpoint remove_lock_children (p : path) (token : string) (children : list string) : FM (result goerror unit) :=
  match children with
  | [] => done
  | child :: children' =>
      if negb (String.eqb child "owner.json") && negb (String.eqb child ("owner." +:+ token +:+ ".tmp"))
      then fails ErrLockOwnerMismatch
      else
        try! _ := removePinnedRegular (p ++ [child]) mode_private in
        remove_lock_children p token children'
  end.

Fixpoint cleanup_lock_entries (root : path) (entries : list string) : FM (result goerror unit) :=
  match entries with
  | [] => done
  | name :: entries' =>
      match lock_artifact name with
      | None => cleanup_lock_entries root entries'
      | Some token =>
          if negb (hex128Pattern token) then fails (ErrNew "invalid certificate publication lock cleanup artifact")
          else
            let p := root ++ [name] in
            let! owner := readCanonicalOwner (p ++ ["owner.json"]) in
            if negb (match owner with Ok d => String.eqb (own_Token d) token | Err _ => false end)
            then fails ErrLockOwnerMismatch
            else
              let! children := readPinnedDirectory p mode_lock in
              match children with
              | Err _ => fails ErrLockOwnerMismatch
              | Ok children =>
                  if (length children <? 1)%nat || (2 <? length children)%nat then fails ErrLockOwnerMismatch
                  else
                    try! _ := remove_lock_children p token children in
                    try! _ := removePinnedDirectory p mode_lock in
                    try! _ := syncDir root in
                    cleanup_lock_entries root entries'
              end
      end
  end.
Definition cleanupLockArtifacts (root : path) : FM (result goerror unit) :=
  try! entries := readPinnedDirectory root mode_dir in
  cleanup_lock_entries root entries.

(** ** Candidates without a journal *)

Definition durable_evidence : goerror := ErrNew "candidate without journal has durable evidence".
Definition candidate_name (name : string) : bool :=
  has_prefix name ".candidate-" && hex128Pattern (trim_prefix name ".candidate-").
Definition candidate_temp_name (name : string) : bool :=
  has_prefix name ".candidate-owner." && has_suffix name ".tmp"
  && hex128Pattern (trim_suffix (trim_prefix name ".candidate-owner.") ".tmp").

Fixpoint cleanup_candidates (versions : path) (entries : list string) : FM (result goerror unit) :=
  match entries with
  | [] => done
  | name :: entries' =>
      if negb (candidate_name name) then cleanup_candidates versions entries'
      else
        let candidate := versions ++ [name] in
        try! children := reported (λ _, ErrUnsupportedForBootstrap) (readPinnedDirectory candidate mode_dir) in
        try! _ := match children with
                  | [] => done
                  | [child] => if negb (candidate_temp_name child) then fails durable_evidence
                               else removePinnedRegular (candidate ++ [child]) mode_private
                  | _ => fails durable_evidence
                  end in
        try! _ := removePinnedDirectory candidate mode_dir in
        try! _ := syncDir versions in
        cleanup_candidates versions entries'
  end.
Definition cleanupIncompleteCandidates (root : path) : FM (result goerror unit) :=
  let versions := root ++ ["versions"] in
  try! entries := readPinnedDirectory versions mode_dir in
  cleanup_candidates versions entries.

(** ** The journal and its temporary *)

Definition zero_candidate_owner : candidateOwnerDocument := mkCandidateOwner 0 "" "" "".

Definition candidate_owner_bound (d : candidateOwnerDocument) (journal : journalDocument) : bool :=
  (co_Schema d =? 1)%Z && String.eqb (co_TransactionID d) (j_TransactionID journal)
  && String.eqb (co_CandidatePath d) (j_CandidatePath journal)
  && String.eqb (co_VersionPath d) (j_VersionPath journal).

Definition validateCandidateOwner (p : path) (journal : journalDocument) : FM (result goerror FileInfo) :=
  try! read := saying "candidate owner is unverifiable" (readPinnedRegular p mode_private) in
  match read_canonical candidate_fields dec_candidate_owner zero_candidate_owner json_candidate_owner read.1 with
  | None => fails (ErrNew "candidate owner is malformed")
  | Some d => if candidate_owner_bound d journal then ret (Ok read.2)
              else fails (ErrNew "candidate owner transaction binding conflicts")
  end.

Definition candidateEvidenceMatches (root : path) (document : journalDocument) : FM bool :=
  let candidate := under root (j_CandidatePath document) in
  let! owner := validateCandidateOwner (candidate ++ [candidate_owner_name]) document in
  match owner with
  | Err _ => ret false
  | Ok _ => let! valid := validateTargetIdentity candidate true in
            ret (match valid with Ok _ => true | Err _ => false end)
  end.

Definition reconcileJournalTemps (root : path) : FM (result goerror (option journalDocument)) :=
  try! entries := readPinnedDirectory root mode_dir in
  let temps := filter (λ name, is_Some (journalTempPattern name)) entries in
  let fixed_path := root ++ [journalName] in
  match temps with
  | _ :: _ :: _ => fails (ErrNew "multiple certificate publication journal temps")
  | _ =>
      let! fixed := readJournal fixed_path in
      try! fixed := ret (match fixed with
                         | Ok d => Ok (Some d)
                         | Err e => if errors_is e ErrNotExist then Ok None else Err e
                         end) in
      match temps with
      | [] => ret (Ok fixed)
      | name :: _ =>
          let temp := root ++ [name] in
          try! temporary := readJournal temp in
          if negb (bool_decide (journalTempPattern name = Some (j_TransactionID temporary)))
          then fails (ErrNew "certificate publication journal temp filename does not match transaction")
          else
            let promote := (try! _ := renamePinnedRegular temp fixed_path mode_private in
                            try! _ := syncDir root in
                            ret (Ok (Some temporary))) in
            match fixed with
            | None =>
                let unmatched := fails (ErrNew "unmatched certificate publication journal temp") in
                if negb (String.eqb (j_Stage temporary) "candidate_ready") then unmatched
                else
                  let! matches := candidateEvidenceMatches root temporary in
                  if negb matches then unmatched else promote
            | Some fixed =>
                if negb (sameJournalImmutable fixed temporary)
                then fails (ErrNew "certificate publication journal temp changed immutable fields")
                else if String.eqb (j_Stage fixed) (j_Stage temporary) then
                  try! _ := removePinnedRegular temp mode_private in
                  try! _ := syncDir root in
                  ret (Ok (Some fixed))
                else if negb (legalAdjacentStage (j_Stage fixed) (j_Stage temporary)
                                (bool_decide (is_Some (j_DirectRootSHA256 fixed))))
                then fails (ErrNew "certificate publication journal temp stage is nonadjacent")
                else promote
            end
      end
  end.

(** ** Resuming *)

Fixpoint matching_temps (root : path) (target : string) (entries : list string) : FM (result goerror (list path)) :=
  match entries with
  | [] => ret (Ok [])
  | name :: entries' =>
      if negb (has_prefix name ".current-") || negb (hex128Pattern (trim_prefix name ".current-"))
      then matching_temps root target entries'
      else
        let p := root ++ [name] in
        let! got := Readlink p in
        if negb (match got with Ok t => String.eqb t target | Err _ => false end)
        then fails (ErrNew "unmatched current publication temp")
        else try! rest := matching_temps root target entries' in ret (Ok (p :: rest))
  end.
Definition matchingCurrentTemp (root : path) (target : string) : FM (result goerror (option path)) :=
  try! entries := readPinnedDirectory root mode_dir in
  try! temps := matching_temps root target entries in
  match temps with
  | [] => ret (Ok None)
  | [p] => ret (Ok (Some p))
  | _ => fails (ErrNew "multiple current publication temps")
  end.

(** [candidate_ready]: the candidate becomes the version. *)
Definition resume_candidate (root : path) (journal : journalDocument) (ops : publicationOperations) :
  FM (result goerror unit) :=
  let candidate := under root (j_CandidatePath journal) in
  let version := under root (j_VersionPath journal) in
  let! candidateExists := pathExists candidate in
  let! versionExists := pathExists version in
  let conflict := fails (ErrNew "candidate_ready recovery evidence conflicts") in
  if Bool.eqb candidateExists versionExists then conflict
  else
    let! matches := currentMatches root (j_PredecessorVersion journal) in
    if negb matches then conflict
    else if (candidateExists : bool) then
      let owner := candidate ++ [candidate_owner_name] in
      let! ownerExists := pathExists owner in
      try! material :=
        (if (ownerExists : bool) then
           try! ownerInfo := validateCandidateOwner owner journal in
           try! _ := checkpoint ops "candidate_owner_validated" in
           try! material := saying "candidate_ready material is invalid" (observeValidatedMaterial candidate true) in
           try! _ := removeObservedRegular owner mode_private ownerInfo in
           try! _ := syncDir candidate in
           ret (Ok material)
         else saying "candidate_ready material without owner is invalid" (observeValidatedMaterial candidate false)) in
      try! _ := checkpoint ops "candidate_recovery_material_validated" in
      let! same := unchanged material in
      if negb same then fails (ErrNew "candidate_ready material changed before rename")
      else
        try! _ := renamePinnedDirectory candidate version mode_dir in
        syncDir (root ++ ["versions"])
    else saying "candidate_ready final material is invalid" (validateTargetIdentity version false).

(** [version_ready]: the version becomes current; the stage reached. *)
Definition resume_version (root : path) (journal : journalDocument) (ops : publicationOperations) :
  FM (result goerror unit) :=
  let candidate := under root (j_CandidatePath journal) in
  let version := under root (j_VersionPath journal) in
  let published := with_stage "current_published" journal in
  let! candidateExists := pathExists candidate in
  let! versionExists := if candidateExists then ret false else pathExists version in
  if candidateExists || negb versionExists then fails (ErrNew "version_ready recovery evidence conflicts")
  else
    try! _ := saying "version_ready material is invalid" (validateTargetIdentity version false) in
    let! current := readSafeCurrent root in
    if match current with Ok c => String.eqb c (j_VersionPath journal) | Err _ => false end
    then replaceJournalWithOperations root published ops
    else
      let! matches := currentMatches root (j_PredecessorVersion journal) in
      if negb matches then fails (ErrNew "version_ready current conflicts")
      else
        try! temp := matchingCurrentTemp root (j_VersionPath journal) in
        try! _ := match temp with
                  | None => publishCurrent root journal ops
                  | Some temp =>
                      try! _ := replaceCurrentSymlink root temp journal ops in
                      syncDir root
                  end in
        replaceJournalWithOperations root published ops.

(** The published stages: cleanup, retention, and the end of the journal. *)
Definition resume_published (root : path) (journal : journalDocument) (ops : publicationOperations) :
  FM (result goerror unit) :=
  let version := under root (j_VersionPath journal) in
  let conflict := fails (ErrNew "published recovery evidence conflicts") in
  let! current := readSafeCurrent root in
  if negb (match current with Ok c => String.eqb c (j_VersionPath journal) | Err _ => false end) then conflict
  else
    let! versionExists := pathExists version in
    if negb versionExists then conflict
    else
      try! _ := saying "published recovery material is invalid" (validateTargetIdentity version false) in
      if String.eqb (j_Stage journal) "retaining" then
        try! _ := retainRecordedVersions root journal ops in
        try! _ := checkpoint ops "retention_complete" in
        try! _ := saying "final material changed before recovered journal removal"
                    (validateTargetIdentity version false) in
        try! _ := removePinnedRegular (root ++ [journalName]) mode_private in
        syncDir root
      else finishPublishedTransaction root journal ops.

(** [resumeJournal]: each stage falls through to the next. *)
Definition resumeJournal (root : path) (journal : journalDocument) (ops : publicationOperations) :
  FM (result goerror unit) :=
  let ready := with_stage "version_ready" journal in
  let published := with_stage "current_published" journal in
  if String.eqb (j_Stage journal) "candidate_ready" then
    try! _ := resume_candidate root journal ops in
    try! _ := replaceJournalWithOperations root ready ops in
    try! _ := resume_version root ready ops in
    resume_published root published ops
  else if String.eqb (j_Stage journal) "version_ready" then
    try! _ := resume_version root journal ops in
    resume_published root published ops
  else if bool_decide (j_Stage journal ∈ ["current_published"; "cleaning_direct_root"; "retaining"])
  then resume_published root journal ops
  else fails (ErrNew "unsupported certificate publication journal stage").

Definition recoverPublication (root : path) (ops : publicationOperations) : FM (result goerror unit) :=
  try! _ := cleanupLockArtifacts root in
  try! journal := reconcileJournalTemps root in
  match journal with
  | None => cleanupIncompleteCandidates root
  | Some journal => resumeJournal root journal ops
  end.

(** ** Classification *)

Definition classified (state : lifecycleState) (unsafe : bool) : result goerror classifiedRoot :=
  Ok (mkClassified state false None [] unsafe).

Definition validateParent (root : path) : FM (result goerror unit) :=
  let parent := removelast root in
  try! info := wrapping "inspect managed certificate root parent: " (Lstat parent) in
  if negb (IsDir info) then refuse
  else
    let! pinned := pinnedDirectoryAnyMode parent in
    match pinned with Some _ => done | None => refuse end.

Definition regular_at (p : path) : FM bool :=
  let! info := Lstat p in ret (match info with Ok i => IsRegular i | Err _ => false end).
Definition safeGitignore (root : path) : FM bool := regular_at (root ++ [".gitignore"]).
Definition safeDaemonLog (root : path) : FM bool := regular_at (root ++ ["daemon.log"]).

Definition validEmptyVersions (root : path) : FM bool :=
  let p := root ++ ["versions"] in
  let! pinned := pinnedDirectory p mode_dir in
  match pinned with
  | None => ret false
  | Some _ => let! entries := readPinnedDirectory p mode_dir in
              ret (match entries with Ok names => empty_list names | Err _ => false end)
  end.

(** The managed files present in the root. *)
Fixpoint count_managed (root : path) (specs : list (string * Z)) : FM nat :=
  match specs with
  | [] => ret 0%nat
  | spec :: specs' =>
      let! present := pathExists (root ++ [spec.1]) in
      let! rest := count_managed root specs' in
      ret (if present then S rest else rest)
  end.

(** Every entry of the root is one the product knows. *)
Fixpoint known_entries (root : path) (lockHeld : bool) (entries : list string) : FM bool :=
  match entries with
  | [] => ret true
  | name :: entries' =>
      let! gitignore := if String.eqb name ".gitignore" then safeGitignore root else ret false in
      let! log := if negb gitignore && String.eqb name "daemon.log" then safeDaemonLog root else ret false in
      if gitignore || log || String.eqb name "current" || String.eqb name "versions" || isManagedName name
         || (lockHeld && String.eqb name lockName)
      then known_entries root lockHeld entries' else ret false
  end.

Definition readAndClassifyMaterial (p : path) (now : Z) :
  FM (result goerror (list fileSpec * materialIdentity * bool)) :=
  let! entries := readPinnedDirectory p mode_dir in
  if negb (match entries with Ok names => Nat.eqb (length names) (length managedFiles) | Err _ => false end)
  then refuse
  else
    try! files := read_specs p managedFiles in
    let '(ident, fresh) := classifyMaterial files now in
    ret (Ok (files, ident, fresh)).

Definition readDirectAndClassifyMaterial (p : path) (now : Z) :
  FM (result goerror (list fileSpec * materialIdentity * bool)) :=
  try! files := read_specs p managedFiles in
  let '(ident, fresh) := classifyMaterial files now in
  ret (Ok (files, ident, fresh)).

Fixpoint readPresentDirectMaterial (p : path) (specs : list (string * Z)) : FM (result goerror (list fileSpec)) :=
  match specs with
  | [] => ret (Ok [])
  | spec :: specs' =>
      let! present := pathExists (p ++ [spec.1]) in
      if negb present then readPresentDirectMaterial p specs'
      else
        try! read := readPinnedRegular (p ++ [spec.1]) spec.2 in
        try! files := readPresentDirectMaterial p specs' in
        ret (Ok (mkFileSpec spec.1 spec.2 read.1 :: files))
  end.

(** The loop over the versions: the identity and freshness of the current one, if
    it is among them; [Err] carries the classification that ends the loop. *)
Fixpoint scan_versions (versions : path) (target : string) (now : Z) (found : option (materialIdentity * bool))
    (entries : list string) : FM (result classifiedRoot (option (materialIdentity * bool))) :=
  let partial := mkClassified statePartial false None [] false in
  match entries with
  | [] => ret (Ok found)
  | name :: entries' =>
      if negb (versionPattern name) then ret (Err partial)
      else
        let! pinned := pinnedDirectory (versions ++ [name]) mode_dir in
        match pinned with
        | None => ret (Err partial)
        | Some _ =>
            let! material := readAndClassifyMaterial (versions ++ [name]) now in
            match material with
            | Err _ => ret (Err partial)
            | Ok (_, ident, fresh) =>
                if negb (String.eqb name (path_base target))
                then scan_versions versions target now found entries'
                else if bool_decide (ident = identityUnknown)
                then ret (Err (mkClassified stateUnknownComplete false (Some target) [] false))
                else scan_versions versions target now (Some (ident, fresh)) entries'
            end
        end
  end.

Definition classifyVersionedRoot (root : path) (now : Z) : FM (result goerror classifiedRoot) :=
  let partial := classified statePartial false in
  let! target := readSafeCurrent root in
  match target with
  | Err _ => ret partial
  | Ok target =>
      let versions := root ++ ["versions"] in
      let! entries := readPinnedDirectory versions mode_dir in
      match entries with
      | Err _ => ret partial
      | Ok names =>
          if empty_list names || (2 <? length names)%nat then ret partial
          else
            let! scanned := scan_versions versions target now None names in
            ret (match scanned with
                 | Err c => Ok c
                 | Ok None => partial
                 | Ok (Some (ident, fresh)) =>
                     Ok (mkClassified (if bool_decide (ident = identityTarget) then statePublishedTarget
                                       else stateRecognizedPredecessor) fresh (Some target) [] false)
                 end)
      end
  end.

(** The root once its entries are known. *)
Definition classify_entries (root : path) (now : Z) (managedPresent : nat) (currentPresent versionsPresent : bool) :
  FM (result goerror classifiedRoot) :=
  if currentPresent then
    if negb (Nat.eqb managedPresent 0) || negb versionsPresent then ret (classified statePartial false)
    else classifyVersionedRoot root now
  else
    let! versionsOk := if versionsPresent then validEmptyVersions root else ret true in
    if negb versionsOk then ret (classified statePartial true)
    else if Nat.eqb managedPresent 0 then ret (classified stateEmpty false)
    else if negb (Nat.eqb managedPresent (length managedFiles)) then
      let! files := readPresentDirectMaterial root managedFiles in
      ret (Ok (match files with
               | Ok files => mkClassified statePartial false None files false
               | Err _ => mkClassified statePartial false None [] true
               end))
    else
      let! material := readDirectAndClassifyMaterial root now in
      ret (Ok (match material with
               | Err _ => mkClassified stateUnknownComplete false None [] true
               | Ok (files, ident, fresh) =>
                   match ident with
                   | identityUnknown => mkClassified stateUnknownComplete false None files false
                   | identityTarget => mkClassified stateLegacyDirectRootTarget fresh None files false
                   | identityPredecessor => mkClassified stateRecognizedPredecessor fresh None files false
                   end
               end)).

Definition classifyRoot (root : path) (now : Z) (lockHeld : bool) : FM (result goerror classifiedRoot) :=
  let! info := Lstat root in
  match info with
  | Err e =>
      if errors_is e ErrNotExist then
        try! _ := validateParent root in ret (classified stateEmpty false)
      else fails e
  | Ok info =>
      if negb (dir_ok (Some mode_dir) info) then ret (classified statePartial true)
      else
        try! entries := readPinnedDirectory root mode_dir in
        let! managedPresent := count_managed root managedFiles in
        let! currentPresent := pathExists (root ++ ["current"]) in
        let! versionsPresent := pathExists (root ++ ["versions"]) in
        let! known := known_entries root lockHeld entries in
        if negb known then ret (classified statePartial true)
        else classify_entries root now managedPresent currentPresent versionsPresent
  end.

(** ** The lock-free fast path *)

Definition published_observation : Type := string * FileInfo * list (string * FileInfo * list FileInfo).

Fixpoint observe_versions (versions : path) (entries : list string) :
  FM (option (list (string * FileInfo * list FileInfo))) :=
  match entries with
  | [] => ret (Some [])
  | name :: entries' =>
      let! version := pinnedDirectory (versions ++ [name]) mode_dir in
      match version with
      | None => ret None
      | Some info =>
          let! files := observe_specs (versions ++ [name]) managedFiles in
          match files with
          | Err _ => ret None
          | Ok infos =>
              let! rest := observe_versions versions entries' in
              ret (match rest with Some l => Some ((name, info, infos.*2) :: l) | None => None end)
          end
      end
  end.

Definition observePublished (root : path) : FM (option published_observation) :=
  let! now := Now in
  let! state := classifyRoot root now false in
  if negb (match state with
           | Ok c => bool_decide (cr_state c = statePublishedTarget) && cr_fresh c
           | Err _ => false
           end) then ret None
  else
    let! current := Lstat (root ++ ["current"]) in
    match current with
    | Err _ => ret None
    | Ok current =>
        if negb (IsSymlink current) then ret None
        else
          let! target := Readlink (root ++ ["current"]) in
          match target with
          | Err _ => ret None
          | Ok target =>
              let! entries := readPinnedDirectory (root ++ ["versions"]) mode_dir in
              match entries with
              | Err _ => ret None
              | Ok names =>
                  let! versions := observe_versions (root ++ ["versions"]) names in
                  ret (match versions with Some l => Some (target, current, l) | None => None end)
              end
          end
    end.

Definition same_infos (left right : list FileInfo) : bool :=
  Nat.eqb (length left) (length right) && forallb (λ p, SameFile p.1 p.2) (zip left right).
Definition same_version (left right : string * FileInfo * list FileInfo) : bool :=
  String.eqb left.1.1 right.1.1 && SameFile left.1.2 right.1.2 && same_infos left.2 right.2.
Definition same_published (left right : published_observation) : bool :=
  String.eqb left.1.1 right.1.1 && SameFile left.1.2 right.1.2
  && Nat.eqb (length left.2) (length right.2) && forallb (λ p, same_version p.1 p.2) (zip left.2 right.2).

Definition fastPathPublished (root : path) : FM bool :=
  let journal := root ++ [journalName] in
  let lock := root ++ [lockName] in
  let! noJournal := pathAbsent journal in
  let! noLock := if noJournal then pathAbsent lock else ret false in
  if negb noLock then ret false
  else
    let! first := observePublished root in
    match first with
    | None => ret false
    | Some first =>
        let! noLock := pathAbsent lock in
        let! noJournal := if noLock then pathAbsent journal else ret false in
        if negb noJournal then ret false
        else
          let! second := observePublished root in
          match second with
          | None => ret false
          | Some second => if same_published first second then pathAbsent lock else ret false
          end
    end.

(** ** Lifecycle *)

(** [filepath.WalkDir] over the root: path, identity, link target and size of
    everything below it; the inode counter bounds the depth. *)
Fixpoint observe_tree (fuel : nat) (relative : path) (n : node) : list (path * FileInfo * string * nat) :=
  match fuel with
  | O => []
  | S fuel' =>
      match n with
      | NFile _ _ content => [(relative, info_of n, "", String.length content)]
      | NLink _ target => [(relative, info_of n, target, String.length target)]
      | NDir _ _ es =>
          (relative, info_of n, "", 0%nat)
          :: (entry_names n ≫= λ name, match es !! name with
                                        | Some c => observe_tree fuel' (relative ++ [name]) c
                                        | None => []
                                        end)
      end
  end.
Definition observeManagedTree (root : path) : FM (result goerror (list (path * FileInfo * string * nat))) :=
  reading "walk" root (λ fs, let? n := resolve "walk" root fs in Ok (observe_tree (S (fs_next fs)) [] n)).

#[export] Instance FileInfo_eq_dec : EqDecision FileInfo.
Proof. solve_decision. Defined.
#[export] Instance fileSpec_eq_dec : EqDecision fileSpec.
Proof. solve_decision. Defined.

(** [sameTimes] says that no modification time differs; the tree does not hold them. *)
Definition sameTreeObservation (sameTimes : bool) (left right : list (path * FileInfo * string * nat)) : bool :=
  bool_decide (left = right) && sameTimes.
Definition materialBytesEqual (left right : list fileSpec) : bool :=
  bool_decide ((λ f, (spec_name f, spec_data f)) <$> left = (λ f, (spec_name f, spec_data f)) <$> right).
Definition sameClassification (left right : classifiedRoot) : bool :=
  bool_decide (cr_state left = cr_state right) && Bool.eqb (cr_fresh left) (cr_fresh right)
  && Bool.eqb (cr_unsafe left) (cr_unsafe right) && bool_decide (cr_current left = cr_current right)
  && materialBytesEqual (cr_directFiles left) (cr_directFiles right).

(** [os.ReadDir]; a failure lists nothing. *)
Definition list_dir (p : path) : FM (list string) :=
  let! r := reading "open" p (λ fs, let? n := resolve "open" p fs in
              match n with NDir _ _ _ => Ok (entry_names n) | _ => Err (wrong_kind "open" p) end) in
  ret (match r with Ok names => names | Err _ => [] end).

Definition hasTransactionTemp (root : path) : FM bool :=
  let! names := list_dir root in
  ret (existsb (λ name, bool_decide (is_Some (journalTempPattern name))) names).
Definition hasCandidateArtifact (root : path) : FM bool :=
  let! names := list_dir (root ++ ["versions"]) in
  ret (existsb (λ name, has_prefix name ".candidate-") names).
Definition hasLockCleanupArtifact (root : path) : FM bool :=
  let! names := list_dir root in
  ret (existsb (λ name, match lock_artifact name with Some token => hex128Pattern token | None => false end) names).

(** A disjunction of observations, evaluated from the left. *)
Fixpoint any_of (ms : list (FM bool)) : FM bool :=
  match ms with
  | [] => ret false
  | m :: ms' => let! b := m in if (b : bool) then ret true else any_of ms'
  end.

Definition refusalRequired (state : lifecycleState) (force : bool) : bool :=
  (bool_decide (state = statePartial) || bool_decide (state = stateUnknownComplete)) && negb force.

Definition prepareRootForLifecycle (root : path) : FM (result goerror unit) :=
  try! _ := wrapping "prepare managed certificate root: " (ensureDirectory root mode_dir) in
  try! _ := syncDir root in
  try! _ := syncPinnedDirectory (removelast root) None in
  let versions := root ++ ["versions"] in
  try! _ := wrapping "prepare certificate versions directory: " (ensureDirectory versions mode_dir) in
  try! _ := syncDir versions in
  syncDir root.

(** What happens while the lock is held. *)
Definition publish_locked (root : path) (force : bool) (ops : publicationOperations) : FM (result goerror unit) :=
  try! _ := recoverPublication root ops in
  let! now := Now in
  try! state := wrapping "classify managed certificate root under lock: " (classifyRoot root now true) in
  if bool_decide (cr_state state = statePublishedTarget) && cr_fresh state then done
  else if cr_unsafe state || refusalRequired (cr_state state) force then refuse
  else
    let directDigests := if empty_list (cr_directFiles state) then None
                         else Some (digestDirectState (cr_directFiles state)) in
    try! material := (if bool_decide (cr_state state = stateLegacyDirectRootTarget) && cr_fresh state
                      then ret (Ok (cr_directFiles state))
                      else let! now := Now in λ w, (Returned (generateMaterialAt (w_clock w) now), tick w)) in
    publishTransaction root material (cr_current state) directDigests ops.

(** The refusal before the lock: the state is observed twice, and refused only if
    it is stable.  Whether the modification times agree is up to the step. *)
Definition prelock_refusal (root : path) (state : classifiedRoot) (ops : publicationOperations) :
  FM (result goerror unit) :=
  let! first := observeManagedTree root in
  try! _ := checkpoint ops "prelock_classified" in
  let! now := Now in
  let! reclassified := classifyRoot root now false in
  let! second := observeManagedTree root in
  let! sameTimes := (λ w, (Returned (os_select (w_clock w)), tick w)) in
  if match reclassified, first, second with
     | Ok c, Ok first, Ok second => sameClassification state c && sameTreeObservation sameTimes first second
     | _, _, _ => false
     end
  then refuse else done.

Definition publishWithOperations (root : path) (force : bool) (ops : publicationOperations) :
  FM (result goerror unit) :=
  let! hasRecoveryEvidence :=
    any_of [pathExists (root ++ [lockName]); pathExists (root ++ [journalName]); hasTransactionTemp root;
            hasCandidateArtifact root; hasLockCleanupArtifact root] in
  let! now := Now in
  try! state := wrapping "classify managed certificate root: " (classifyRoot root now false) in
  let! fast := if bool_decide (cr_state state = statePublishedTarget) && cr_fresh state
               then fastPathPublished root else ret false in
  if (fast : bool) then done
  else
    try! _ := if negb hasRecoveryEvidence && (cr_unsafe state || refusalRequired (cr_state state) force)
              then prelock_refusal root state ops else done in
    let! journalPresent := pathExists (root ++ [journalName]) in
    let! versionsMissing := if journalPresent
                            then (let! present := pathExists (root ++ ["versions"]) in ret (negb present))
                            else ret false in
    if (versionsMissing : bool) then refuse
    else
      try! _ := prepareRootForLifecycle root in
      try! token := acquireLockWithWait root ops in
      with_deferred (publish_locked root force ops) (releaseLock root token)
        (λ result released,
           match released with
           | Ok _ => result
           | Err releaseErr =>
               Err (ErrJoin (match result with Ok _ => [releaseErr] | Err e => [e; releaseErr] end))
           end).
End recover.
