(* ===== verification/CertFrame.v ===== *)
(** * Development certificates: what each operation leaves alone

    The frame of the publication: every operation of [CertStore], [CertPublish]
    and [CertRecover] except the switch of [current] leaves the [current] link as
    it is, and every operation except retention leaves every version directory
    that exists untouched, whatever calls fail and wherever the process dies. *)

From stdpp Require Import base gmap strings list fin_maps.
From Stdlib Require Import ZArith Lia Ascii.
From S2P Require Import Prelude GoStrings GoErrors GoJson GoJsonPrint GoOS GoFS CertMaterial CertStore CertPublish CertRecover.
Set Default Goal Selector "!".

(** ** The tree *)

(** The node at a path below a node. *)
Definition look (p : path) (n : node) : option node :=
  match walk p n with Found m => Some m | _ => None end.

Lemma look_cons x p i m es : look (x :: p) (NDir i m es) = es !! x ≫= look p.
Proof. unfold look. cbn. by destruct (es !! x). Qed.

Lemma look_app p q n : look (p ++ q) n = look p n ≫= look q.
Proof.
  revert n. induction p as [|x p IH]; intros n; [done|].
  destruct n as [| |i m es]; [done..|]. rewrite <-app_comm_cons, !look_cons.
  destruct (es !! x) as [c|]; [|done]. cbn. apply IH.
Qed.

(** A replacement with the same nodes strictly below it is seen only on the path to
    the place that is replaced. *)
Lemma look_put_shape p v n q :
  ¬ q `prefix_of` p → (∀ s, s ≠ [] → v ≫= look s = look p n ≫= look s) →
  look q (put p v n) = look q n.
Proof.
  revert n q. induction p as [|x p IH]; intros n q Hq Hv; [by destruct n|].
  destruct q as [|y q]; [by destruct Hq; apply prefix_nil|].
  destruct n as [| |i m es]; [by destruct p..|].
  destruct p as [|x' p].
  - cbn [put]. rewrite !look_cons. destruct (decide (y = x)) as [->|Hne].
    + rewrite lookup_partial_alter_eq, Hv; [|intros ->; by destruct Hq].
      unfold look at 2. cbn. by destruct (es !! x).
    + by rewrite lookup_partial_alter_ne.
  - change (put (x :: x' :: p) v (NDir i m es))
      with (match es !! x with Some c => NDir i m (<[x := put (x' :: p) v c]> es) | None => NDir i m es end).
    destruct (es !! x) as [c|] eqn:Hx; [|done]. rewrite !look_cons.
    destruct (decide (y = x)) as [->|Hne]; [|by rewrite lookup_insert_ne].
    rewrite lookup_insert_eq, Hx. cbn. apply IH.
    + intros H. by apply Hq, prefix_cons.
    + intros s Hs. rewrite Hv by done. by rewrite look_cons, Hx.
Qed.

(** Away from the place that is replaced nothing changes. *)
Lemma look_put_apart p v n q :
  ¬ q `prefix_of` p → ¬ p `prefix_of` q → look q (put p v n) = look q n.
Proof.
  revert n q. induction p as [|x p IH]; intros n q Hq Hp; [by destruct Hp; apply prefix_nil|].
  destruct q as [|y q]; [by destruct Hq; apply prefix_nil|].
  destruct n as [| |i m es]; [by destruct p..|].
  destruct p as [|x' p].
  - cbn [put]. rewrite !look_cons, lookup_partial_alter_ne; [done|].
    intros ->. apply Hp, prefix_cons, prefix_nil.
  - change (put (x :: x' :: p) v (NDir i m es))
      with (match es !! x with Some c => NDir i m (<[x := put (x' :: p) v c]> es) | None => NDir i m es end).
    destruct (es !! x) as [c|] eqn:Hx; [|done]. rewrite !look_cons.
    destruct (decide (y = x)) as [->|Hne]; [|by rewrite lookup_insert_ne].
    rewrite lookup_insert_eq, Hx. cbn. apply IH; intros H; [by apply Hq, prefix_cons|by apply Hp, prefix_cons].
Qed.

(** The directory of a replaced entry. *)
Lemma look_put_dir p x v n i m es :
  look p n = Some (NDir i m es) →
  look p (put (p ++ [x]) v n) = Some (NDir i m (partial_alter (λ _, v) x es)).
Proof.
  revert n. induction p as [|y p IH]; intros n; [by intros [= ->]|].
  destruct n as [| |j k fs]; [done..|]. rewrite look_cons.
  destruct (fs !! y) as [c|] eqn:Hy; [|done]. cbn [mbind option_bind]. intros Hc.
  replace (put ((y :: p) ++ [x]) v (NDir j k fs)) with (NDir j k (<[y := put (p ++ [x]) v c]> fs)).
  - rewrite look_cons, lookup_insert_eq. by apply IH.
  - cbn [app put]. rewrite Hy. by destruct p.
Qed.
Lemma look_put_eq p x v n i m es :
  look p n = Some (NDir i m es) → look (p ++ [x]) (put (p ++ [x]) v n) = v.
Proof.
  intros H. rewrite look_app, (look_put_dir _ _ _ _ _ _ _ H). cbn [mbind option_bind].
  rewrite look_cons, lookup_partial_alter_eq. by destruct v.
Qed.

Lemma look_at p fs : at_path p fs = look p (fs_tree fs).
Proof. done. Qed.
Lemma resolve_look op p fs n : resolve op p fs = Ok n → at_path p fs = Some n.
Proof. unfold resolve, at_path. destruct (walk _ _); congruence. Qed.
Lemma walk_missing p q n : walk p n = Missing → p `prefix_of` q → look q n = None.
Proof. intros Hp [s ->]. rewrite look_app.
  assert (look p n = None) as -> by (unfold look; by rewrite Hp). done. Qed.

(** ** Triples *)

(** The process is alone: nothing else changes the tree. *)
#[export] Instance alone : Interference FS := no_interference.

(** From a tree with [P], every run of [m], also one that dies on the way, changes
    the tree as [T] allows; if it returns, [Q] holds of the value and the tree. *)
Definition safe {A} (T : relation FS) (P : FS → Prop) (m : M FS A) (Q : A → FS → Prop) : Prop :=
  ∀ w, P (w_app w) → T (w_app w) (w_app (m w).2) ∧ ∀ a, (m w).1 = Returned a → Q a (w_app (m w).2).
(** The same with no demand on the tree and a fact of the value alone. *)
Abbreviation frames T φ m := (safe T (λ _, True) m (λ a _, φ a)).
(** A fact of the value of a successful call. *)
Definition oks {A} (φ : A → Prop) (r : result goerror A) : Prop := match r with Ok a => φ a | Err _ => True end.
Definition okst {A} (Q : A → FS → Prop) (r : result goerror A) (fs : FS) : Prop :=
  match r with Ok a => Q a fs | Err _ => True end.
Abbreviation anything := (λ _, True).

Section triples.
Context (T : relation FS) {HT : PreOrder T}.

Lemma safe_weaken {A} (P P' : FS → Prop) (m : M FS A) (Q Q' : A → FS → Prop) :
  safe T P m Q → (∀ fs, P' fs → P fs) → (∀ a fs, Q a fs → Q' a fs) → safe T P' m Q'.
Proof using. intros H HP HQ w Hw. destruct (H w (HP _ Hw)). naive_solver. Qed.
Lemma safe_stable {A} (P J : FS → Prop) (m : M FS A) (Q : A → FS → Prop) :
  (∀ a b, T a b → J a → J b) → safe T P m Q → safe T (λ fs, J fs ∧ P fs) m (λ a fs, J fs ∧ Q a fs).
Proof using. intros HJ H w [Hj Hw]. destruct (H w Hw). naive_solver. Qed.
Lemma safe_pure {A} (φ : Prop) (P : FS → Prop) (m : M FS A) (Q : A → FS → Prop) :
  (φ → safe T P m Q) → safe T (λ fs, φ ∧ P fs) m Q.
Proof using. intros H w [? ?]. by apply H. Qed.
Lemma safe_fact {A} (φ : Prop) (m : M FS A) (Q : A → FS → Prop) :
  (φ → safe T anything m Q) → safe T (λ _, φ) m Q.
Proof using. intros H w ?. by apply H. Qed.

Lemma safe_ret {A} (a : A) (P : FS → Prop) (Q : A → FS → Prop) :
  (∀ fs, P fs → Q a fs) → safe T P (ret a) Q.
Proof using HT. intros H w Hw. split; [done|]. intros b [= <-]. by apply H. Qed.
Lemma safe_bind {A B} (P : FS → Prop) (m : M FS A) (Q : A → FS → Prop) (k : A → M FS B) (Q' : B → FS → Prop) :
  safe T P m Q → (∀ a, safe T (Q a) (k a) Q') → safe T P (bind m k) Q'.
Proof using HT.
  intros Hm Hk w Hw. destruct (Hm w Hw) as [HT1 HQ]. unfold bind.
  destruct (m w) as [[a|p|] w'] eqn:Heq; cbn [fst snd] in *; [|done..].
  destruct (Hk a w' (HQ a eq_refl)) as [HT2 HQ']. split; [by etrans|done].
Qed.
Lemma safe_try {A B} (P : FS → Prop) (m : M FS (result goerror A)) (Q : A → FS → Prop)
    (k : A → M FS (result goerror B)) (Q' : B → FS → Prop) :
  safe T P m (okst Q) → (∀ a, safe T (Q a) (k a) (okst Q')) → safe T P (rbind m k) (okst Q').
Proof using HT.
  intros Hm Hk. unfold rbind. eapply safe_bind; [exact Hm|]. intros [a|e]; [apply Hk|]. by apply safe_ret.
Qed.
Lemma safe_deferred {A B} (P : FS → Prop) (m : M FS A) (d : M FS B) combine (Q : A → FS → Prop) (Q' : B → FS → Prop) :
  safe T P m Q → (∀ a, safe T (Q a) d (λ b fs, Q' b fs ∧ Q a fs)) → frames T anything d →
  safe T P (with_deferred m d combine) (λ r fs, ∃ a b, r = combine a b ∧ Q a fs ∧ Q' b fs).
Proof using HT.
  intros Hm Hd Hd' w Hw. destruct (Hm w Hw) as [HT1 HQ]. unfold with_deferred.
  destruct (m w) as [[a|p|] w'] eqn:Heq; cbn [fst snd] in *; [| |done].
  - destruct (Hd a w' (HQ a eq_refl)) as [HT2 HQ'].
    destruct (d w') as [[b|p|] w'']; cbn [fst snd] in *; split; try done; try by etrans.
    intros c [= <-]. exists a, b. destruct (HQ' b eq_refl). done.
  - destruct (Hd' w' I) as [HT2 _].
    destruct (d w') as [[b|q|] w'']; cbn [fst snd] in *; split; try done; by etrans.
Qed.

Lemma frames_ret {A} (a : A) (φ : A → Prop) : φ a → frames T φ (ret a).
Proof using HT. intros H. by apply safe_ret. Qed.
Lemma frames_weaken {A} (φ ψ : A → Prop) (m : M FS A) : frames T φ m → (∀ a, φ a → ψ a) → frames T ψ m.
Proof using. intros H Hφ. eapply safe_weaken; [exact H|done|auto]. Qed.
Lemma frames_bind {A B} (φ : A → Prop) (ψ : B → Prop) (m : M FS A) (k : A → M FS B) :
  frames T φ m → (∀ a, φ a → frames T ψ (k a)) → frames T ψ (bind m k).
Proof using HT. intros Hm Hk. eapply safe_bind; [exact Hm|]. intros a. apply (safe_fact (φ a)), Hk. Qed.
Lemma frames_try {A B} (φ : A → Prop) (ψ : B → Prop) (m : M FS (result goerror A)) (k : A → M FS (result goerror B)) :
  frames T (oks φ) m → (∀ a, φ a → frames T (oks ψ) (k a)) → frames T (oks ψ) (rbind m k).
Proof using HT.
  intros Hm Hk. unfold rbind. eapply frames_bind; [exact Hm|]. intros [a|e] Ha; [by apply Hk|]. by apply frames_ret.
Qed.
Lemma frames_deferred {A B} (φ : A → Prop) (m : M FS A) (d : M FS B) combine :
  frames T φ m → frames T anything d → frames T anything (with_deferred m d combine).
Proof using HT.
  intros Hm Hd. eapply safe_weaken.
  - eapply (safe_deferred _ _ _ _ (λ a _, φ a) (λ _ _, True)); [exact Hm| |exact Hd].
    intros a w Ha. destruct (Hd w I). done.
  - done.
  - done.
Qed.
Lemma frames_any {A} (φ : A → Prop) (m : M FS A) : frames T φ m → frames T anything m.
Proof using. intros H. by eapply frames_weaken. Qed.

(** A call of the operating system. *)
Lemma safe_sys `{OSEnv, Crash} {A} op p failed effect (P : FS → Prop) (Q : A → FS → Prop) :
  (∀ e fs, P fs → T fs (failed e fs).2 ∧ Q (failed e fs).1 (failed e fs).2) →
  (∀ fs, P fs → T fs (effect fs).2 ∧ Q (effect fs).1 (effect fs).2) →
  safe T P (sys op p failed effect) Q.
Proof using HT.
  intros Hf He w Hw. unfold sys. destruct (fs_crash _); [by split|].
  destruct (os_fault _ _ _) as [e|]; unfold access; cbn [interfere alone no_interference].
  - change (interfere (w_clock w) (w_app w)) with (w_app w). specialize (Hf e _ Hw).
    destruct (failed e (w_app w)) as [a fs']; cbn in *. split; [tauto|]. intros b [= <-]. tauto.
  - change (interfere (w_clock w) (w_app w)) with (w_app w). specialize (He _ Hw).
    destruct (effect (w_app w)) as [a fs']; cbn in *. split; [tauto|]. intros b [= <-]. tauto.
Qed.
Lemma safe_reading `{OSEnv, Crash} {A} op p (f : FS → result goerror A) (P : FS → Prop) :
  safe T P (reading op p f) (λ r fs, P fs ∧ oks (λ a, f fs = Ok a) r).
Proof using HT.
  apply safe_sys; [done|]. intros fs HP. cbn. split; [done|]. split; [done|]. by destruct (f fs).
Qed.
Lemma safe_writing `{OSEnv, Crash} op p change (P : FS → Prop) (Q : option goerror → FS → Prop) :
  (∀ fs e, P fs → Q (Some e) fs) → (∀ fs fs', P fs → change fs = Ok fs' → T fs fs' ∧ Q None fs') →
  safe T P (writing op p change) Q.
Proof using HT.
  intros Hf He. apply safe_sys; cbn; [intros e fs HP; split; [done|auto]|]. intros fs HP.
  specialize (He fs).
  destruct (change fs); cbn; [by apply He|]. split; [done|auto].
Qed.
Lemma frames_reading `{OSEnv, Crash} {A} op p (f : FS → result goerror A) : frames T anything (reading op p f).
Proof using HT. eapply safe_weaken; [apply (safe_reading op p f anything)|done|done]. Qed.
Lemma frames_writing `{OSEnv, Crash} op p change :
  (∀ fs fs', change fs = Ok fs' → T fs fs') → frames T anything (writing op p change).
Proof using HT. intros H1. apply safe_writing; [done|]. intros fs fs' _ H2. split; [by eapply H1|done]. Qed.
Lemma frames_tick {A} (f : nat → A) : frames T anything (λ w, (Returned (f (w_clock w)), tick w)).
Proof using HT. intros w _. by split. Qed.
Lemma frames_ticks {A} (m : M FS A) : (∀ w, (m w).2 = tick w) → frames T anything m.
Proof using HT. intros H w _. rewrite H. by split. Qed.
Lemma frames_Now `{OSEnv} : frames T anything Now.
Proof using HT. apply frames_tick. Qed.
Lemma frames_diverge {A} (φ : A → Prop) : frames T φ diverge.
Proof using HT. intros w _. by split. Qed.
End triples.

(** ** Observations *)

Create HintDb frame.
Create HintDb frame_facts.
#[export] Hint Extern 0 (PreOrder _) => typeclasses eauto : frame frame_facts.

Section walking.
Context (T : relation FS) {HT : PreOrder T}.

Lemma frames_bind_any {A B} (m : M FS A) (k : A → M FS B) :
  frames T anything m → (∀ a, frames T anything (k a)) → frames T anything (bind m k).
Proof using HT. intros Hm Hk. by eapply (frames_bind T). Qed.
Lemma frames_bind_fact {A B} (φ : A → Prop) (m : M FS A) (k : A → M FS B) :
  frames T φ m → (∀ a, φ a → frames T anything (k a)) → frames T anything (bind m k).
Proof using HT. intros Hm Hk. by eapply (frames_bind T). Qed.
Lemma frames_try_fact {A B} (φ : A → Prop) (m : M FS (result goerror A)) (k : A → M FS (result goerror B)) :
  frames T (oks φ) m → (∀ a, φ a → frames T anything (k a)) → frames T anything (rbind m k).
Proof using HT.
  intros Hm Hk. unfold rbind. eapply (frames_bind T); [exact Hm|]. intros [a|e] Ha; [by apply Hk|by apply frames_ret].
Qed.
Lemma frames_try_any {A B} (m : M FS (result goerror A)) (k : A → M FS (result goerror B)) :
  frames T anything m → (∀ a, frames T anything (k a)) → frames T anything (rbind m k).
Proof using HT.
  intros Hm Hk. unfold rbind. eapply (frames_bind T); [exact Hm|]. intros [a|e] _; [by apply Hk|by apply frames_ret].
Qed.
Lemma frames_oks {A} (m : M FS (result goerror A)) : frames T anything m → frames T (oks anything) m.
Proof using. intros H. eapply (frames_weaken T); [exact H|]. by intros []. Qed.
Lemma frames_must (m : M FS (option goerror)) : frames T anything m → frames T anything (must m).
Proof using HT. intros Hm. unfold must. eapply (frames_bind T); [exact Hm|]. intros a _. by apply frames_ret. Qed.
Lemma frames_reported {A} f (m : M FS (result goerror A)) : frames T anything m → frames T anything (reported f m).
Proof using HT. intros Hm. unfold reported. eapply (frames_bind T); [exact Hm|]. intros a _. by apply frames_ret. Qed.
Lemma safe_reported {A} f (P : FS → Prop) (m : M FS (result goerror A)) (Q : A → FS → Prop) :
  safe T P m (okst Q) → safe T P (reported f m) (okst Q).
Proof using HT.
  intros Hm. unfold reported. eapply (safe_bind T); [exact Hm|]. intros [a|e]; by apply safe_ret.
Qed.
Lemma frames_reported_fact {A} f φ (m : M FS (result goerror A)) : frames T (oks φ) m → frames T (oks φ) (reported f m).
Proof using HT. apply (safe_reported f anything m (λ a _, φ a)). Qed.
End walking.

#[export] Hint Extern 1 (safe _ _ Now _) => simple apply frames_Now : frame.
#[export] Hint Extern 1 (safe _ _ (λ w, (Returned _, tick w)) _) => apply frames_ticks; [typeclasses eauto|reflexivity] : frame.
#[export] Hint Extern 1 (safe _ _ (reading _ _ _) _) => simple apply frames_reading : frame.
#[export] Hint Extern 1 (safe _ _ diverge _) => simple apply frames_diverge : frame.

(** A pair whose second component is known. *)
Ltac use_fact :=
  repeat match goal with
  | H : _ ∧ ?a.2 = _ |- _ => is_var a; destruct a; cbn [fst snd] in H |- *; destruct H as [? ->]
  end.
(** Walk a computation, with the facts of the calls that have some. *)
Ltac frame_step :=
  match goal with
  | |- safe ?T _ (ret _) _ => apply (frames_ret T); exact I
  | |- safe ?T _ done _ => apply (frames_ret T); exact I
  | |- safe ?T _ (fails _) _ => apply (frames_ret T); exact I
  | |- safe ?T _ refuse _ => apply (frames_ret T); exact I
  | |- safe ?T _ (rbind _ _) _ =>
      first [ eapply (frames_try_fact T); [solve [eauto 3 with frame_facts]|let H := fresh in intros ? H; cbv beta in H; use_fact]
            | apply (frames_try_any T); [|intros ?] ]
  | |- safe ?T _ (bind _ _) _ =>
      first [ eapply (frames_bind_fact T); [solve [eauto 3 with frame_facts]|let H := fresh in intros ? H; cbv beta in H; use_fact]
            | apply (frames_bind_any T); [|intros ?] ]
  | |- safe ?T _ (let _ := _ in _) _ => cbv zeta
  | |- safe ?T _ (with_deferred _ _ _) _ => eapply (frames_deferred T)
  | |- safe ?T _ (must _) _ => apply (frames_must T)
  | |- safe ?T _ (reported _ _) _ => apply (frames_reported T)
  | |- safe ?T _ (saying _ _) _ => apply (frames_reported T)
  | |- safe ?T _ (wrapping _ _) _ => apply (frames_reported T)
  | |- safe ?T _ (match ?x with _ => _ end) _ => destruct x eqn:?
  | |- safe ?T _ (if ?x then _ else _) _ => destruct x eqn:?
  | |- safe ?T _ (let '(_, _) := ?x in _) _ => destruct x eqn:?
  end.
Ltac frame_tac := repeat first [ solve [eauto 6 with frame] | frame_step ].

(** The calls and functions that only look at the tree; they are framed by any
    preorder. *)
Section observers.
Context {E : OSEnv} {K : Crash} {X : X509} {TT : TextTools} (T : relation FS) {HT : PreOrder T}.

Lemma frames_Lstat p : frames T anything (Lstat p).
Proof using HT. unfold Lstat. frame_tac. Qed.
Lemma frames_Readlink p : frames T anything (Readlink p).
Proof using HT. unfold Readlink. frame_tac. Qed.
Lemma frames_Open p : frames T anything (Open p).
Proof using HT. unfold Open. frame_tac. Qed.
Lemma frames_Stat h : frames T anything (File_Stat h).
Proof using HT. unfold File_Stat. frame_tac. Qed.
Lemma frames_ReadAll h : frames T anything (ReadAll h).
Proof using HT. unfold ReadAll. frame_tac. Qed.
Lemma frames_ReadDir h : frames T anything (File_ReadDir h).
Proof using HT. unfold File_ReadDir. frame_tac. Qed.
Lemma frames_Sync h : frames T anything (File_Sync h).
Proof using HT. apply frames_writing; [done|]. by intros fs fs' [= <-]. Qed.
Lemma frames_Close h : frames T anything (File_Close h).
Proof using HT. apply frames_writing; [done|]. by intros fs fs' [= <-]. Qed.
Lemma frames_nextID ops : frames T anything (nextID ops).
Proof using HT. apply frames_tick, HT. Qed.
Lemma frames_checkpoint ops name : frames T anything (checkpoint ops name).
Proof using HT. unfold checkpoint. apply (frames_tick T (λ t, match op_checkpoint ops t name with None => Ok tt | Some e => Err e end)). Qed.
End observers.

#[export] Hint Resolve frames_Lstat frames_Readlink frames_Open frames_Stat frames_ReadAll frames_ReadDir
  frames_Sync frames_Close frames_nextID frames_checkpoint : frame.

Section observations.
Context {E : OSEnv} {K : Crash} {X : X509} {TT : TextTools} (T : relation FS) {HT : PreOrder T}.

Lemma frames_pathExists p : frames T anything (pathExists p).
Proof using HT. unfold pathExists. frame_tac. Qed.
#[local] Hint Resolve frames_pathExists : frame.
Lemma frames_pathAbsent p : frames T anything (pathAbsent p).
Proof using HT. unfold pathAbsent. frame_tac. Qed.
#[local] Hint Resolve frames_pathAbsent : frame.
Lemma frames_openPinnedDirectory p mode : frames T anything (openPinnedDirectory p mode).
Proof using HT. unfold openPinnedDirectory. frame_tac. Qed.
#[local] Hint Resolve frames_openPinnedDirectory : frame.
Lemma frames_pinned_directory p mode : frames T anything (pinned_directory p mode).
Proof using HT. unfold pinned_directory. frame_tac. Qed.
#[local] Hint Resolve frames_pinned_directory : frame.
Lemma frames_pinnedDirectory p mode : frames T anything (pinnedDirectory p mode).
Proof using HT. unfold pinnedDirectory. frame_tac. Qed.
#[local] Hint Resolve frames_pinnedDirectory : frame.
Lemma frames_pinnedDirectoryAnyMode p : frames T anything (pinnedDirectoryAnyMode p).
Proof using HT. unfold pinnedDirectoryAnyMode. frame_tac. Qed.
#[local] Hint Resolve frames_pinnedDirectoryAnyMode : frame.
Lemma frames_readPinnedDirectory p mode : frames T anything (readPinnedDirectory p mode).
Proof using HT. unfold readPinnedDirectory. frame_tac. Qed.
#[local] Hint Resolve frames_readPinnedDirectory : frame.
Lemma frames_syncPinnedDirectory p mode : frames T anything (syncPinnedDirectory p mode).
Proof using HT. unfold syncPinnedDirectory. frame_tac. Qed.
#[local] Hint Resolve frames_syncPinnedDirectory : frame.
Lemma frames_syncDir p : frames T anything (syncDir p).
Proof using HT. unfold syncDir. frame_tac. Qed.
#[local] Hint Resolve frames_syncDir : frame.
Lemma frames_readPinnedRegular p mode : frames T anything (readPinnedRegular p mode).
Proof using HT. unfold readPinnedRegular. frame_tac. Qed.
#[local] Hint Resolve frames_readPinnedRegular : frame.
Lemma frames_validateRegularDestination p mode : frames T anything (validateRegularDestination p mode).
Proof using HT. unfold validateRegularDestination. frame_tac. Qed.
#[local] Hint Resolve frames_validateRegularDestination : frame.
Lemma frames_anyPathExists paths : frames T anything (anyPathExists paths).
Proof using HT. induction paths; cbn [anyPathExists]; frame_tac. Qed.
#[local] Hint Resolve frames_anyPathExists : frame.
Lemma frames_read_specs p specs : frames T anything (read_specs p specs).
Proof using HT. induction specs; cbn [read_specs]; frame_tac. Qed.
#[local] Hint Resolve frames_read_specs : frame.
Lemma frames_readManagedMaterial p candidate : frames T anything (readManagedMaterial p candidate).
Proof using HT. unfold readManagedMaterial. frame_tac. Qed.
#[local] Hint Resolve frames_readManagedMaterial : frame.
Lemma frames_validateMaterial p candidate : frames T anything (validateMaterial p candidate).
Proof using HT. unfold validateMaterial. frame_tac. Qed.
#[local] Hint Resolve frames_validateMaterial : frame.
Lemma frames_validateTargetIdentity p candidate : frames T anything (validateTargetIdentity p candidate).
Proof using HT. unfold validateTargetIdentity. frame_tac. Qed.
#[local] Hint Resolve frames_validateTargetIdentity : frame.
Lemma frames_observe_specs p specs : frames T anything (observe_specs p specs).
Proof using HT. induction specs; cbn [observe_specs]; frame_tac. Qed.
#[local] Hint Resolve frames_observe_specs : frame.
Lemma frames_observeValidatedMaterial p candidate : frames T anything (observeValidatedMaterial p candidate).
Proof using HT. unfold observeValidatedMaterial. frame_tac. Qed.
#[local] Hint Resolve frames_observeValidatedMaterial : frame.
Lemma frames_specs_unchanged p infos : frames T anything (specs_unchanged p infos).
Proof using HT. induction infos; cbn [specs_unchanged]; frame_tac. Qed.
#[local] Hint Resolve frames_specs_unchanged : frame.
Lemma frames_unchanged o : frames T anything (unchanged o).
Proof using HT. unfold unchanged. frame_tac. Qed.
#[local] Hint Resolve frames_unchanged : frame.
Lemma frames_readSafeCurrent root : frames T anything (readSafeCurrent root).
Proof using HT. unfold readSafeCurrent. frame_tac. Qed.
#[local] Hint Resolve frames_readSafeCurrent : frame.
Lemma frames_readCanonicalOwner p : frames T anything (readCanonicalOwner p).
Proof using HT. unfold readCanonicalOwner. frame_tac. Qed.
#[local] Hint Resolve frames_readCanonicalOwner : frame.
Lemma frames_canonicalOwnerMatches p token : frames T anything (canonicalOwnerMatches p token).
Proof using HT. unfold canonicalOwnerMatches. frame_tac. Qed.
#[local] Hint Resolve frames_canonicalOwnerMatches : frame.
Lemma frames_readJournal p : frames T anything (readJournal p).
Proof using HT. unfold readJournal. frame_tac. Qed.
#[local] Hint Resolve frames_readJournal : frame.
Lemma frames_currentMatches root pred : frames T anything (currentMatches root pred).
Proof using HT. unfold currentMatches. frame_tac. Qed.
#[local] Hint Resolve frames_currentMatches : frame.
Lemma frames_validateDeletionRemainder p removed : frames T anything (validateDeletionRemainder p removed).
Proof using HT. unfold validateDeletionRemainder. frame_tac. Qed.
#[local] Hint Resolve frames_validateDeletionRemainder : frame.
Lemma frames_deletion_progress p left_ : frames T anything (deletion_progress p left_).
Proof using HT. induction left_; cbn [deletion_progress]; frame_tac. Qed.
#[local] Hint Resolve frames_deletion_progress : frame.
Lemma frames_deletionProgress p : frames T anything (deletionProgress p).
Proof using HT. unfold deletionProgress. frame_tac. Qed.
#[local] Hint Resolve frames_deletionProgress : frame.
Lemma frames_validateCompleteVersionStructure p : frames T anything (validateCompleteVersionStructure p).
Proof using HT. unfold validateCompleteVersionStructure. frame_tac. Qed.
#[local] Hint Resolve frames_validateCompleteVersionStructure : frame.
Lemma frames_validateCandidateOwner p journal : frames T anything (validateCandidateOwner p journal).
Proof using HT. unfold validateCandidateOwner. frame_tac. Qed.
#[local] Hint Resolve frames_validateCandidateOwner : frame.
Lemma frames_candidateEvidenceMatches root journal : frames T anything (candidateEvidenceMatches root journal).
Proof using HT. unfold candidateEvidenceMatches. frame_tac. Qed.
#[local] Hint Resolve frames_candidateEvidenceMatches : frame.
Lemma frames_matching_temps root target entries : frames T anything (matching_temps root target entries).
Proof using HT. induction entries; cbn [matching_temps]; frame_tac. Qed.
#[local] Hint Resolve frames_matching_temps : frame.
Lemma frames_matchingCurrentTemp root target : frames T anything (matchingCurrentTemp root target).
Proof using HT. unfold matchingCurrentTemp. frame_tac. Qed.
#[local] Hint Resolve frames_matchingCurrentTemp : frame.
Lemma frames_validateParent root : frames T anything (validateParent root).
Proof using HT. unfold validateParent. frame_tac. Qed.
#[local] Hint Resolve frames_validateParent : frame.
Lemma frames_regular_at p : frames T anything (regular_at p).
Proof using HT. unfold regular_at. frame_tac. Qed.
#[local] Hint Resolve frames_regular_at : frame.
Lemma frames_safeGitignore root : frames T anything (safeGitignore root).
Proof using HT. unfold safeGitignore. frame_tac. Qed.
#[local] Hint Resolve frames_safeGitignore : frame.
Lemma frames_safeDaemonLog root : frames T anything (safeDaemonLog root).
Proof using HT. unfold safeDaemonLog. frame_tac. Qed.
#[local] Hint Resolve frames_safeDaemonLog : frame.
Lemma frames_validEmptyVersions root : frames T anything (validEmptyVersions root).
Proof using HT. unfold validEmptyVersions. frame_tac. Qed.
#[local] Hint Resolve frames_validEmptyVersions : frame.
Lemma frames_count_managed root specs : frames T anything (count_managed root specs).
Proof using HT. induction specs; cbn [count_managed]; frame_tac. Qed.
#[local] Hint Resolve frames_count_managed : frame.
Lemma frames_known_entries root held entries : frames T anything (known_entries root held entries).
Proof using HT. induction entries; cbn [known_entries]; frame_tac. Qed.
#[local] Hint Resolve frames_known_entries : frame.
Lemma frames_readAndClassifyMaterial p now : frames T anything (readAndClassifyMaterial p now).
Proof using HT. unfold readAndClassifyMaterial. frame_tac. Qed.
#[local] Hint Resolve frames_readAndClassifyMaterial : frame.
Lemma frames_readDirectAndClassifyMaterial p now : frames T anything (readDirectAndClassifyMaterial p now).
Proof using HT. unfold readDirectAndClassifyMaterial. frame_tac. Qed.
#[local] Hint Resolve frames_readDirectAndClassifyMaterial : frame.
Lemma frames_readPresentDirectMaterial p specs : frames T anything (readPresentDirectMaterial p specs).
Proof using HT. induction specs; cbn [readPresentDirectMaterial]; frame_tac. Qed.
#[local] Hint Resolve frames_readPresentDirectMaterial : frame.
Lemma frames_scan_versions versions target now found entries : frames T anything (scan_versions versions target now found entries).
Proof using HT. revert found. induction entries; intros; cbn [scan_versions]; frame_tac. Qed.
#[local] Hint Resolve frames_scan_versions : frame.
Lemma frames_classifyVersionedRoot root now : frames T anything (classifyVersionedRoot root now).
Proof using HT. unfold classifyVersionedRoot. frame_tac. Qed.
#[local] Hint Resolve frames_classifyVersionedRoot : frame.
Lemma frames_classify_entries root now managed current versions : frames T anything (classify_entries root now managed current versions).
Proof using HT. unfold classify_entries. frame_tac. Qed.
#[local] Hint Resolve frames_classify_entries : frame.
Lemma frames_classifyRoot root now held : frames T anything (classifyRoot root now held).
Proof using HT. unfold classifyRoot. frame_tac. Qed.
#[local] Hint Resolve frames_classifyRoot : frame.
Lemma frames_observe_versions versions entries : frames T anything (observe_versions versions entries).
Proof using HT. induction entries; cbn [observe_versions]; frame_tac. Qed.
#[local] Hint Resolve frames_observe_versions : frame.
Lemma frames_observePublished root : frames T anything (observePublished root).
Proof using HT. unfold observePublished. frame_tac. Qed.
#[local] Hint Resolve frames_observePublished : frame.
Lemma frames_fastPathPublished root : frames T anything (fastPathPublished root).
Proof using HT. unfold fastPathPublished. frame_tac. Qed.
#[local] Hint Resolve frames_fastPathPublished : frame.
Lemma frames_observeManagedTree root : frames T anything (observeManagedTree root).
Proof using HT. unfold observeManagedTree. frame_tac. Qed.
#[local] Hint Resolve frames_observeManagedTree : frame.
Lemma frames_list_dir p : frames T anything (list_dir p).
Proof using HT. unfold list_dir. frame_tac. Qed.
#[local] Hint Resolve frames_list_dir : frame.
Lemma frames_hasTransactionTemp root : frames T anything (hasTransactionTemp root).
Proof using HT. unfold hasTransactionTemp. frame_tac. Qed.
#[local] Hint Resolve frames_hasTransactionTemp : frame.
Lemma frames_hasCandidateArtifact root : frames T anything (hasCandidateArtifact root).
Proof using HT. unfold hasCandidateArtifact. frame_tac. Qed.
#[local] Hint Resolve frames_hasCandidateArtifact : frame.
Lemma frames_hasLockCleanupArtifact root : frames T anything (hasLockCleanupArtifact root).
Proof using HT. unfold hasLockCleanupArtifact. frame_tac. Qed.
#[local] Hint Resolve frames_hasLockCleanupArtifact : frame.
Lemma frames_prelock_refusal root state ops : frames T anything (prelock_refusal root state ops).
Proof using HT. unfold prelock_refusal. frame_tac. Qed.
#[local] Hint Resolve frames_prelock_refusal : frame.
Lemma frames_any_of ms : Forall (λ m, frames T anything m) ms → frames T anything (any_of ms).
Proof using HT. induction 1; cbn [any_of]; frame_tac. Qed.
End observations.

#[export] Hint Resolve frames_pathExists frames_pathAbsent frames_openPinnedDirectory frames_pinned_directory
  frames_pinnedDirectory frames_pinnedDirectoryAnyMode frames_readPinnedDirectory frames_syncPinnedDirectory
  frames_syncDir frames_readPinnedRegular frames_validateRegularDestination frames_anyPathExists
  frames_read_specs frames_readManagedMaterial frames_validateMaterial frames_validateTargetIdentity
  frames_observe_specs frames_observeValidatedMaterial frames_specs_unchanged frames_unchanged
  frames_readSafeCurrent frames_readCanonicalOwner frames_canonicalOwnerMatches frames_readJournal
  frames_currentMatches frames_validateDeletionRemainder frames_deletion_progress frames_deletionProgress
  frames_validateCompleteVersionStructure frames_validateCandidateOwner frames_candidateEvidenceMatches frames_matching_temps
  frames_matchingCurrentTemp frames_validateParent frames_regular_at frames_safeGitignore
  frames_safeDaemonLog frames_validEmptyVersions frames_count_managed frames_known_entries
  frames_readAndClassifyMaterial frames_readDirectAndClassifyMaterial frames_readPresentDirectMaterial frames_scan_versions
  frames_classifyVersionedRoot frames_classify_entries frames_classifyRoot frames_observe_versions
  frames_observePublished frames_fastPathPublished frames_observeManagedTree frames_list_dir
  frames_hasTransactionTemp frames_hasCandidateArtifact frames_hasLockCleanupArtifact frames_prelock_refusal : frame.

(** ** The frame of the published versions *)

(** [current] is as it was, and every kept version that exists is as it was. *)
Record framed (root : path) (keep : string → Prop) (a b : FS) : Prop := mkFramed {
  framed_current : at_path (root ++ ["current"]) b = at_path (root ++ ["current"]) a;
  framed_version v n : keep v → at_path (root ++ ["versions"; v]) a = Some n → at_path (root ++ ["versions"; v]) b = Some n;
}.
#[export] Instance framed_preorder root keep : PreOrder (framed root keep).
Proof.
  split; [by intros a|]. intros a b c [H1 H2] [H3 H4]. split; [by rewrite H3|]. eauto.
Qed.

(** Below the root, paths that are not inside [current] or a kept version. *)
Definition clear (keep : string → Prop) (s : path) : Prop :=
  ¬ ["current"] `prefix_of` s ∧ ∀ v, keep v → ¬ ["versions"; v] `prefix_of` s.
(** And that do not contain them either. *)
Definition apart (keep : string → Prop) (s : path) : Prop :=
  clear keep s ∧ ¬ s `prefix_of` ["current"] ∧ ∀ v, keep v → ¬ s `prefix_of` ["versions"; v].

Lemma clear_root keep : clear keep [].
Proof. split; [|intros v _]; by intros ?%prefix_nil_inv. Qed.
Lemma clear_versions keep : clear keep ["versions"].
Proof. split; [|intros v _]; intros H; [by apply prefix_cons_inv_1 in H|]. by apply prefix_cons_inv_2, prefix_nil_inv in H. Qed.
Lemma apart_top keep x s : x ≠ "current" → x ≠ "versions" → apart keep (x :: s).
Proof.
  intros Hc Hv. split; [split|split]; try intros v _; intros H; apply prefix_cons_inv_1 in H; congruence.
Qed.
Lemma apart_version (keep : string → Prop) y s : ¬ keep y → apart keep ("versions" :: y :: s).
Proof.
  intros Hy. split; [split|split]; try intros v Hv; intros H.
  - by apply prefix_cons_inv_1 in H.
  - apply prefix_cons_inv_2, prefix_cons_inv_1 in H. congruence.
  - by apply prefix_cons_inv_1 in H.
  - apply prefix_cons_inv_2, prefix_cons_inv_1 in H. congruence.
Qed.
Lemma apart_clear keep s : apart keep s → clear keep s.
Proof. by intros []. Qed.

(** The same for full paths. *)
Definition reach (root : path) (keep : string → Prop) (p : path) : Prop := ∃ s, p = root ++ s ∧ clear keep s.
Definition away (root : path) (keep : string → Prop) (p : path) : Prop := ∃ s, p = root ++ s ∧ apart keep s.

Section paths.
Context (root : path) (keep : string → Prop) (Hkeep : ∀ v, keep v → versionPattern v = true).

Lemma away_reach p : away root keep p → reach root keep p.
Proof using. intros (s & -> & Hs). exists s. split; [done|by apply apart_clear]. Qed.
Lemma away_app p t : away root keep p → away root keep (p ++ t).
Proof using.
  intros (s & -> & [Hc Hk] & Hc' & Hk'). exists (s ++ t). rewrite app_assoc. split; [done|].
  split; [split|split]; try intros v Hv; intros H.
  - destruct (prefix_weak_total _ s _ H (prefix_app_r s s t (reflexivity s))); [done|done].
  - destruct (prefix_weak_total _ s _ H (prefix_app_r s s t (reflexivity s))); [by eapply Hk|by eapply Hk'].
  - apply Hc'. by eapply prefix_app_l.
  - eapply Hk'; [done|]. by eapply prefix_app_l.
Qed.
Lemma away_top x : x ≠ "current" → x ≠ "versions" → away root keep (root ++ [x]).
Proof using. intros ? ?. exists [x]. split; [done|by apply apart_top]. Qed.
Lemma away_version y : versionPattern y = false → away root keep (root ++ ["versions"; y]).
Proof using Hkeep. intros Hy. exists ["versions"; y]. split; [done|]. apply apart_version. intros ?%Hkeep. congruence. Qed.
Lemma away_in_versions y : ¬ keep y → away root keep ((root ++ ["versions"]) ++ [y]).
Proof using. intros Hy. exists ["versions"; y]. rewrite <-app_assoc. split; [done|]. by apply apart_version. Qed.
Lemma away_claimed y : versionPattern y = false → away root keep ((root ++ ["versions"]) ++ [y]).
Proof using Hkeep. intros Hy. apply away_in_versions. intros ?%Hkeep. congruence. Qed.
Lemma reach_root : reach root keep root.
Proof using. exists []. rewrite app_nil_r. split; [done|apply clear_root]. Qed.
Lemma reach_versions : reach root keep (root ++ ["versions"]).
Proof using. exists ["versions"]. split; [done|apply clear_versions]. Qed.
End paths.

Section writers.
Context {E : OSEnv} {K : Crash} (root : path) (keep : string → Prop).
Abbreviation T := (framed root keep).

Lemma framed_shape s v tree next next' : clear keep s →
  (∀ t, t ≠ [] → v ≫= look t = look (root ++ s) tree ≫= look t) →
  T (mkFS tree next) (mkFS (put (root ++ s) v tree) next').
Proof using.
  intros [Hc Hk] Hv. split; [|intros v' n Hv' <-]; rewrite !look_at; cbn [fs_tree]; apply look_put_shape; try done;
    intros H%prefix_app_inv; [done|by apply (Hk v')].
Qed.
Lemma framed_apart s v tree next next' : apart keep s → T (mkFS tree next) (mkFS (put (root ++ s) v tree) next').
Proof using.
  intros [[Hc Hk] [Hc' Hk']]. split; [|intros v' n Hv' <-]; rewrite !look_at; cbn [fs_tree]; apply look_put_apart;
    intros H%prefix_app_inv; [done|done|by apply (Hk v')|by apply (Hk' v')].
Qed.

(** A node without anything below it. *)
Definition leaf (v : option node) : Prop := ∀ t, t ≠ [] → v ≫= look t = None.
Lemma leaf_none : leaf None.
Proof using. done. Qed.
Lemma leaf_file i m c : leaf (Some (NFile i m c)).
Proof using. by intros [|x t] ?. Qed.
Lemma leaf_link i t : leaf (Some (NLink i t)).
Proof using. by intros [|x s] ?. Qed.
Lemma leaf_empty i m : leaf (Some (NDir i m ∅)).
Proof using. intros [|x s] ?; [done|]. cbn [mbind option_bind]. by rewrite look_cons, lookup_empty. Qed.

Lemma framed_create op s n fs fs' : clear keep s → (∀ i, leaf (Some (n i))) →
  create op (root ++ s) n fs = Ok fs' → T fs fs'.
Proof using.
  intros Hs Hn. unfold create. destruct (walk (root ++ s) (fs_tree fs)) eqn:Hw; [done| |done].
  destruct (walk (removelast _) _) as [[| |]| |]; [done..| |done|done]. intros [= <-].
  destruct fs as [tree next]. apply framed_shape; [done|]. intros t Ht. rewrite Hn by done. symmetry.
  rewrite <-look_app. by eapply walk_missing; [exact Hw|apply prefix_app_r].
Qed.
Lemma framed_change op s f fs fs' : clear keep s →
  (∀ n v t, f n = Ok v → t ≠ [] → v ≫= look t = look t n) →
  change_at op (root ++ s) f fs = Ok fs' → T fs fs'.
Proof using.
  intros Hs Hf. unfold change_at. destruct (resolve _ _ _) as [n|] eqn:Hr; [|done]. cbn [rbind].
  destruct (f n) as [v|] eqn:Hv; [|done]. intros [= <-]. apply resolve_look in Hr.
  destruct fs as [tree next]. apply framed_shape; [done|]. intros t Ht. rewrite <-(look_at _ (mkFS tree next)), Hr.
  by apply Hf.
Qed.

Lemma frames_Mkdir p mode : reach root keep p → frames T anything (Mkdir p mode).
Proof using.
  intros (s & -> & Hs). apply frames_writing; [apply _|]. intros fs fs'. apply framed_create; [done|]. intros i. apply leaf_empty.
Qed.
Lemma frames_Symlink target p : reach root keep p → frames T anything (Symlink target p).
Proof using.
  intros (s & -> & Hs). apply frames_writing; [apply _|]. intros fs fs'. apply framed_create; [done|]. intros i. apply leaf_link.
Qed.
Lemma frames_CreateExclusive p mode : reach root keep p →
  frames T (oks (λ h, h_path h = p)) (CreateExclusive p mode).
Proof using.
  intros (s & -> & Hs). apply safe_sys; [apply _|done|]. intros fs _.
  destruct (create _ _ _ _) as [fs'|] eqn:Hc; [|done]. split; [|done].
  eapply framed_create; [exact Hs| |exact Hc]. intros i. apply leaf_file.
Qed.
Lemma frames_Chmod p mode : reach root keep p → frames T anything (Chmod p mode).
Proof using.
  intros (s & -> & Hs). apply frames_writing; [apply _|]. intros fs fs'. apply framed_change; [done|].
  intros n v [|x t] [= <-] Ht; [done|]. by destruct n.
Qed.
Lemma frames_File_Write h content : reach root keep (h_path h) → frames T anything (File_Write h content).
Proof using.
  intros (s & Hh & Hs) w Hw. unfold File_Write. rewrite Hh. revert w Hw.
  assert (∀ c fs fs', change_at "write" (root ++ s) (write_node c "write" (root ++ s)) fs = Ok fs' → T fs fs') as Hc.
  { intros c fs fs'. apply framed_change; [done|]. intros n v [|x t]; [done|]. by destruct n; intros [= <-]. }
  intros w. refine (safe_sys T _ _ _ _ (λ _, True) (λ _ _, True) _ _ w).
  - intros e fs _. cbn. split; [|done]. destruct (change_at _ _ _ _) eqn:?; [eauto|done].
  - intros fs _. destruct (change_at _ _ _ _) eqn:?; [eauto|done].
Qed.
Lemma frames_Remove p : reach root keep p → frames T anything (Remove_path p).
Proof using.
  intros (s & -> & Hs). apply frames_writing; [apply _|]. intros fs fs'. apply framed_change; [done|].
  intros n v [|x t] Hv Ht; [done|]. destruct n as [| |i m es]; [by injection Hv as <-..|].
  destruct (decide (es = ∅)) as [->|]; [|done]. injection Hv as <-. by rewrite look_cons, lookup_empty.
Qed.

Lemma rename_ok src dst fs fs' : rename_change src dst fs = Ok fs' →
  ∃ n i m es, at_path src fs = Some n ∧ walk (removelast dst) (fs_tree fs) = Found (NDir i m es) ∧
    (∀ j k fs0, n = NDir j k fs0 → walk dst (fs_tree fs) = Missing) ∧
    fs' = mkFS (put dst (Some n) (put src None (fs_tree fs))) (fs_next fs).
Proof using.
  unfold rename_change. destruct (resolve _ _ _) as [n|] eqn:Hr; [|done]. apply resolve_look in Hr. cbn.
  destruct (walk (removelast dst) _) as [[| |i m es]| |] eqn:Hp; [done..| |done|done].
  destruct (walk dst _) as [[| |]| |] eqn:Hd; destruct n; try done; intros [= <-]; by do 4 eexists.
Qed.
Lemma framed_rename s d fs fs' : apart keep s → apart keep d → rename_change (root ++ s) (root ++ d) fs = Ok fs' → T fs fs'.
Proof using.
  intros Hs Hd (n & i & m & es & _ & _ & _ & ->)%rename_ok. destruct fs as [tree next]. cbn [fs_tree fs_next].
  etrans; [by apply (framed_apart s None tree next next)|by apply framed_apart].
Qed.
Lemma frames_Rename p q : away root keep p → away root keep q → frames T anything (Rename_path p q).
Proof using.
  intros (s & -> & Hs) (d & -> & Hd). apply frames_writing; [apply _|]. intros fs fs'. by apply framed_rename.
Qed.

(** A directory that is renamed to a version: there was no such version. *)
Lemma framed_arrive s v i m es fs fs' : apart keep s → at_path (root ++ s) fs = Some (NDir i m es) →
  rename_change (root ++ s) (root ++ ["versions"; v]) fs = Ok fs' → T fs fs'.
Proof using.
  intros Hs Hdir (n & ? & ? & ? & Hn & _ & Hm & ->)%rename_ok. rewrite Hdir in Hn. injection Hn as <-.
  specialize (Hm _ _ _ eq_refl). destruct fs as [tree next]. cbn [fs_tree fs_next] in *.
  pose proof (framed_apart s None tree next next Hs) as [Hc Hv]. split.
  - rewrite <-Hc, !look_at. cbn [fs_tree]. apply look_put_apart; intros H%prefix_app_inv; by apply prefix_cons_inv_1 in H.
  - intros v' k Hv' Hk. rewrite look_at. cbn [fs_tree]. destruct (decide (v' = v)) as [->|Hne].
    + rewrite look_at in Hk. cbn [fs_tree] in Hk. by rewrite (walk_missing _ _ _ Hm) in Hk.
    + rewrite look_put_apart; [by apply Hv| |]; intros H%prefix_app_inv;
        apply prefix_cons_inv_2, prefix_cons_inv_1 in H; congruence.
Qed.
End writers.

#[export] Hint Resolve frames_Mkdir frames_Symlink frames_Chmod frames_File_Write frames_Remove frames_Rename : frame.
#[export] Hint Resolve reach_root reach_versions away_app away_top away_version : frame.
#[export] Hint Extern 3 (reach _ _ (_ ++ _)) => simple apply away_reach : frame.
#[export] Hint Extern 1 (_ ≠ _) => discriminate : frame.
#[export] Hint Extern 1 (versionPattern _ = false) => reflexivity : frame.
#[export] Hint Resolve frames_CreateExclusive : frame_facts.

(** ** The operations that write *)

(** Names that start with a dot are neither versions nor [current]. *)
Definition starts_dot (x : string) : bool :=
  match x with String a _ => Ascii.eqb a "." | EmptyString => false end.
Lemma dotted x p : has_prefix x (String "." p) = true → ∃ x', x = String "." x'.
Proof.
  destruct x as [|a x]; [done|]. unfold has_prefix. cbn [String.prefix].
  destruct (ascii_dec "." a) as [<-|]; [|done]. by exists x.
Qed.
Ltac undot H := apply dotted in H as [? ->].
Lemma retention_dotted name tx v : retentionDeletePattern name = Some (tx, v) → starts_dot name = true.
Proof.
  unfold retentionDeletePattern. destruct (has_prefix name ".retention-delete-") eqn:H; [|done].
  undot H; intros; reflexivity.
Qed.
Lemma journal_temp_dotted name tx : journalTempPattern name = Some tx → starts_dot name = true.
Proof.
  unfold journalTempPattern. destruct (has_prefix name ".certificate-publication.transaction-") eqn:H; [|done].
  undot H; intros; reflexivity.
Qed.
Lemma lock_artifact_dotted name token : lock_artifact name = Some token → starts_dot name = true.
Proof.
  unfold lock_artifact. destruct (has_prefix name _) eqn:H; [undot H; intros; reflexivity|].
  destruct (has_prefix name ".certificate-publication.reap-") eqn:H'; [undot H'; intros; reflexivity|done].
Qed.
Lemma candidate_name_dotted name : candidate_name name = true → starts_dot name = true.
Proof. unfold candidate_name. intros [H _]%andb_true_iff. undot H; intros; reflexivity. Qed.
Lemma dotted_not_version x : starts_dot x = true → versionPattern x = false.
Proof. destruct x as [|a x]; [done|]. by intros ->%Ascii.eqb_eq. Qed.

Section operations.
Context {E : OSEnv} {K : Crash} {X : X509} {TT : TextTools} (root : path) (keep : string → Prop)
  (Hkeep : ∀ v, keep v → versionPattern v = true).
Abbreviation T := (framed root keep).
Abbreviation reach := (reach root keep).
Abbreviation away := (away root keep).
#[local] Hint Resolve Hkeep : frame.

Lemma frames_write_opened p file content mode : reach p → h_path file = p →
  frames T anything (write_opened p file content mode).
Proof using. intros Hp <-. unfold write_opened, File_Chmod. frame_tac. Qed.
#[local] Hint Resolve frames_write_opened : frame.
Lemma frames_writeExclusive p content mode : reach p → frames T anything (writeExclusive p content mode).
Proof using. intros Hp. unfold writeExclusive. frame_tac. Qed.
#[local] Hint Resolve frames_writeExclusive : frame.
Lemma frames_renamePinnedRegular p q mode : away p → away q → frames T anything (renamePinnedRegular p q mode).
Proof using. intros Hp Hq. unfold renamePinnedRegular. frame_tac. Qed.
#[local] Hint Resolve frames_renamePinnedRegular : frame.
Lemma frames_removePinnedRegular p mode : reach p → frames T anything (removePinnedRegular p mode).
Proof using. intros Hp. unfold removePinnedRegular. frame_tac. Qed.
#[local] Hint Resolve frames_removePinnedRegular : frame.
Lemma frames_renamePinnedDirectory p q mode : away p → away q → frames T anything (renamePinnedDirectory p q mode).
Proof using. intros Hp Hq. unfold renamePinnedDirectory. frame_tac. Qed.
#[local] Hint Resolve frames_renamePinnedDirectory : frame.
Lemma frames_removePinnedDirectory p mode : reach p → frames T anything (removePinnedDirectory p mode).
Proof using. intros Hp. unfold removePinnedDirectory. frame_tac. Qed.
#[local] Hint Resolve frames_removePinnedDirectory : frame.
Lemma frames_removeObservedRegular p mode o : reach p → frames T anything (removeObservedRegular p mode o).
Proof using. intros Hp. unfold removeObservedRegular. frame_tac. Qed.
#[local] Hint Resolve frames_removeObservedRegular : frame.
Lemma frames_ensureDirectory p mode : reach p → frames T anything (ensureDirectory p mode).
Proof using. intros Hp. unfold ensureDirectory. frame_tac. Qed.
#[local] Hint Resolve frames_ensureDirectory : frame.

(** The random names. *)
Lemma frames_writeRandomExclusive attempts ops f content mode :
  (∀ id, reach (f id)) →
  frames T (oks (λ r : string * path, hex128Pattern r.1 = true ∧ r.2 = f r.1)) (writeRandomExclusive attempts ops f content mode).
Proof using.
  intros Hf. induction attempts as [|n IH]; cbn [writeRandomExclusive]; [by apply (frames_ret T)|].
  eapply (frames_try T); [apply frames_oks, frames_nextID, _|].
  intros id _. destruct (hex128Pattern id) eqn:Hid; [|by apply (frames_ret T)]. cbn [negb].
  eapply (frames_bind T); [by apply frames_writeExclusive|]. intros [r|e] _; [by apply (frames_ret T)|].
  destruct (errors_is e ErrExist); [exact IH|by apply (frames_ret T)].
Qed.
Lemma frames_createRandomSymlink attempts ops f target :
  (∀ id, reach (f id)) →
  frames T (oks (λ r : string * path, hex128Pattern r.1 = true ∧ r.2 = f r.1)) (createRandomSymlink attempts ops f target).
Proof using.
  intros Hf. induction attempts as [|n IH]; cbn [createRandomSymlink]; [by apply (frames_ret T)|].
  eapply (frames_try T); [apply frames_oks, frames_nextID, _|].
  intros id _. destruct (hex128Pattern id) eqn:Hid; [|by apply (frames_ret T)]. cbn [negb].
  eapply (frames_bind T); [by apply frames_Symlink|]. intros [e|] _; [|by apply (frames_ret T)].
  destruct (errors_is e ErrExist); [exact IH|by apply (frames_ret T)].
Qed.
Definition candidate_at (id : string) : path := root ++ ["versions"; ".candidate-" +:+ id].
Lemma away_candidate id : away (candidate_at id).
Proof using Hkeep. unfold candidate_at. eauto with frame. Qed.
Lemma frames_createCandidateDirectory attempts ops :
  frames T (oks (λ r : string * path, hex128Pattern r.1 = true ∧ r.2 = candidate_at r.1)) (createCandidateDirectory attempts root ops).
Proof using Hkeep.
  induction attempts as [|n IH]; cbn [createCandidateDirectory]; [by apply (frames_ret T)|].
  eapply (frames_try T); [apply frames_oks, frames_nextID, _|].
  intros id _. destruct (hex128Pattern id) eqn:Hid; [|by apply (frames_ret T)]. cbn [negb].
  eapply (frames_try T); [apply frames_oks, frames_anyPathExists, _|].
  intros [] _; [exact IH|]. change (root ++ ["versions"; ".candidate-" +:+ id]) with (candidate_at id).
  pose proof (away_reach _ _ _ (away_candidate id)) as Hr.
  eapply (frames_bind T); [by apply frames_Mkdir|]. intros [e|] _.
  - destruct (errors_is e ErrExist); [exact IH|by apply (frames_ret T)].
  - eapply (frames_try T).
    { apply frames_oks, frames_must; [apply _|]. by apply frames_Chmod. }
    intros _ _. eapply (frames_bind T); [apply frames_pinnedDirectory, _|].
    intros [i|] _; by apply (frames_ret T).
Qed.

(** *** The lock *)
Lemma away_name x : starts_dot x = true → away (root ++ [x]).
Proof using. intros Hx. apply away_top; intros ->; done. Qed.
Lemma away_lock : away (root ++ [lockName]).
Proof using. by apply away_name. Qed.
#[local] Hint Resolve away_lock away_candidate : frame.
#[local] Hint Extern 1 (∀ _ : string, reach _) => intros; solve [eauto with frame] : frame_facts.
#[local] Hint Resolve frames_writeRandomExclusive frames_createRandomSymlink frames_createCandidateDirectory
  frames_reported_fact : frame_facts.

Lemma frames_acquireLockOnce ops : frames T anything (acquireLockOnce root ops).
Proof using. unfold acquireLockOnce. cbv zeta. frame_tac. Qed.
#[local] Hint Resolve frames_acquireLockOnce : frame.
Lemma frames_reapDeadLock ops : frames T anything (reapDeadLock root ops).
Proof using. unfold reapDeadLock. cbv zeta. frame_tac. Qed.
#[local] Hint Resolve frames_reapDeadLock : frame.
Lemma frames_acquire_attempts fuel first deadline ops : frames T anything (acquire_attempts fuel first deadline root ops).
Proof using. revert first. induction fuel; intros first; cbn [acquire_attempts]; unfold sleep; frame_tac. Qed.
#[local] Hint Resolve frames_acquire_attempts : frame.
Lemma frames_acquireLockWithWait ops : frames T anything (acquireLockWithWait root ops).
Proof using. unfold acquireLockWithWait. frame_tac. Qed.
Lemma frames_releaseLock token : frames T anything (releaseLock root token).
Proof using. unfold releaseLock. cbv zeta. frame_tac. Qed.

(** *** The journal *)
Lemma frames_replaceJournal document ops : frames T anything (replaceJournalWithOperations root document ops).
Proof using. unfold replaceJournalWithOperations, journalTempPathForDocument. frame_tac. Qed.
#[local] Hint Resolve frames_replaceJournal : frame.

(** *** Cleanup and retention *)
Lemma frames_cleanup_specs digests ops specs :
  Forall (λ spec : string * Z, spec.1 ≠ "current" ∧ spec.1 ≠ "versions") specs →
  frames T anything (cleanup_specs root digests ops specs).
Proof using. induction 1 as [|spec specs [? ?]]; cbn [cleanup_specs]; frame_tac. Qed.
Lemma frames_cleanupDirectRoot digests ops : frames T anything (cleanupDirectRoot root digests ops).
Proof using.
  unfold cleanupDirectRoot. pose proof (frames_cleanup_specs digests ops managedFiles).
  assert (frames T anything (cleanup_specs root digests ops managedFiles)) by (apply H; repeat constructor; done).
  frame_tac.
Qed.
#[local] Hint Resolve frames_cleanupDirectRoot : frame.
Lemma frames_remove_remaining p name ops index specs : away p → frames T anything (remove_remaining p name ops index specs).
Proof using. intros Hp. revert index. induction specs; intros index; cbn [remove_remaining]; frame_tac. Qed.
#[local] Hint Resolve frames_remove_remaining : frame.
Lemma frames_resumeClaimed versions name original ops : away (versions ++ [name]) →
  frames T anything (resumeClaimedVersionDeletion versions name original ops).
Proof using. intros Hp. unfold resumeClaimedVersionDeletion. cbv zeta. frame_tac. Qed.
#[local] Hint Resolve frames_resumeClaimed : frame.
Lemma away_dotted x : starts_dot x = true → away ((root ++ ["versions"]) ++ [x]).
Proof using Hkeep. intros H. apply away_in_versions. intros ?%Hkeep. by rewrite dotted_not_version in *. Qed.
#[local] Hint Resolve away_dotted away_name : frame.
Lemma frames_resume_claims journal ops entries :
  frames T anything (resume_claims (root ++ ["versions"]) journal ops entries).
Proof using Hkeep.
  induction entries as [|name entries IH]; cbn [resume_claims]; [frame_tac|].
  destruct (retentionDeletePattern name) as [[tx original]|] eqn:Hr; [|exact IH].
  pose proof (retention_dotted _ _ _ Hr). frame_tac.
Qed.
#[local] Hint Resolve frames_resume_claims : frame.
Lemma frames_delete_excess journal ops entries : (∀ v, keep v → protected journal v = true) →
  frames T anything (delete_excess (root ++ ["versions"]) journal ops entries).
Proof using Hkeep.
  intros Hp. induction entries as [|name entries IH]; cbn [delete_excess]; [frame_tac|].
  destruct (protected journal name) eqn:Hn; [exact IH|].
  assert (away ((root ++ ["versions"]) ++ [name])) by (apply away_in_versions; intros ?%Hp; congruence).
  frame_tac.
Qed.
#[local] Hint Resolve frames_delete_excess : frame.
(** Retention keeps the versions the journal protects. *)
Lemma frames_retain journal ops : (∀ v, keep v → protected journal v = true) →
  frames T anything (retainRecordedVersions root journal ops).
Proof using Hkeep. intros Hp. unfold retainRecordedVersions. cbv zeta. frame_tac. Qed.
#[local] Hint Resolve frames_retain : frame.
Lemma frames_finish journal ops : (∀ v, keep v → protected journal v = true) →
  frames T anything (finishPublishedTransaction root journal ops).
Proof using Hkeep.
  intros Hp. unfold finishPublishedTransaction. cbv zeta.
  assert (frames T anything (retainRecordedVersions root (with_stage "retaining" journal) ops)) by (by apply frames_retain).
  frame_tac.
Qed.

(** *** Recovery *)
Lemma frames_remove_lock_children p token children : away p → frames T anything (remove_lock_children p token children).
Proof using. intros Hp. induction children; cbn [remove_lock_children]; frame_tac. Qed.
#[local] Hint Resolve frames_remove_lock_children : frame.
Lemma frames_cleanup_lock_entries entries : frames T anything (cleanup_lock_entries root entries).
Proof using.
  induction entries as [|name entries IH]; cbn [cleanup_lock_entries]; [frame_tac|].
  destruct (lock_artifact name) eqn:Hl; [|exact IH].
  pose proof (away_name _ (lock_artifact_dotted _ _ Hl)). frame_tac.
Qed.
#[local] Hint Resolve frames_cleanup_lock_entries : frame.
Lemma frames_cleanupLockArtifacts : frames T anything (cleanupLockArtifacts root).
Proof using. unfold cleanupLockArtifacts. frame_tac. Qed.
Lemma frames_cleanup_candidates entries : frames T anything (cleanup_candidates (root ++ ["versions"]) entries).
Proof using Hkeep.
  induction entries as [|name entries IH]; cbn [cleanup_candidates]; [frame_tac|].
  destruct (candidate_name name) eqn:Hl; [|exact IH]. cbn [negb].
  pose proof (away_dotted _ (candidate_name_dotted _ Hl)). frame_tac.
Qed.
#[local] Hint Resolve frames_cleanup_candidates : frame.
Lemma frames_cleanupIncompleteCandidates : frames T anything (cleanupIncompleteCandidates root).
Proof using Hkeep. unfold cleanupIncompleteCandidates. frame_tac. Qed.

Lemma frames_readJournal_valid p : frames T (oks (λ d, validateJournal d = None)) (readJournal p).
Proof using.
  unfold readJournal. eapply (frames_try T); [apply frames_oks, frames_readPinnedRegular, _|].
  intros [content i] _. apply (frames_ret T). unfold decodeJournal. cbn [fst].
  destruct (read_canonical _ _ _ _ _) as [d|]; [|done]. by destruct (validateJournal d) eqn:?.
Qed.
(** The journal that recovery goes on with is well-formed. *)
Definition journal_found (o : option journalDocument) : Prop := ∀ d, o = Some d → validateJournal d = None.
End operations.

(** ** What the observations say *)

Section facts.
Context {E : OSEnv} {K : Crash} {X : X509} {TT : TextTools}.

(** An observation leaves the tree alone, so that its fact holds of the tree it
    started with and joins whatever was known. *)
Lemma safe_observe {A} (T : relation FS) `{!PreOrder T} (P : FS → Prop) (m : M FS A) (Q : A → FS → Prop) :
  safe eq anything m Q → safe T P m (λ a fs, P fs ∧ Q a fs).
Proof using.
  intros H w Hw. destruct (H w I) as [Heq HQ]. rewrite <-Heq in *. split; [done|]. intros a Ha. split; [done|].
  by apply HQ.
Qed.
Lemma safe_observe_ok {A} (T : relation FS) `{!PreOrder T} (P : FS → Prop) (m : M FS (result goerror A)) (Q : A → FS → Prop) :
  safe eq anything m (okst Q) → safe T P m (okst (λ a fs, P fs ∧ Q a fs)).
Proof using.
  intros H. eapply safe_weaken; [by apply (safe_observe T P), H|done|]. by intros [].
Qed.
Lemma safe_frame {A} (T : relation FS) `{!PreOrder T} (P J : FS → Prop) (m : M FS A) (φ : A → Prop) :
  (∀ a b, T a b → J a → J b) → (∀ fs, P fs → J fs) → frames T φ m → safe T P m (λ a fs, J fs ∧ φ a).
Proof using. intros HJ HP H w Hw. destruct (H w I). naive_solver. Qed.
(** The same when the rest of an observation matters no more. *)
Lemma safe_rest {A} (P : FS → Prop) (m : M FS A) : frames eq anything m → safe eq P m (λ _, P).
Proof using. intros H w Hw. destruct (H w I) as [<- _]. done. Qed.

Abbreviation sees m Q := (safe eq anything m Q).

Lemma sees_reading {A} op p (f : FS → result goerror A) : sees (reading op p f) (λ r fs, oks (λ a, f fs = Ok a) r).
Proof using.
  eapply safe_weaken; [apply (safe_reading eq op p f anything)|done|]. by intros r fs [_ H].
Qed.
Lemma sees_Lstat p : sees (Lstat p) (okst (λ i fs, ∃ n, at_path p fs = Some n ∧ i = info_of n)).
Proof using.
  eapply safe_weaken; [apply sees_reading|done|]. intros [i|e] fs H; [|done]. cbn [oks okst] in *.
  destruct (resolve _ _ _) as [n|] eqn:Hr; [|done]. injection H as <-. apply resolve_look in Hr. eauto.
Qed.
Lemma sees_Readlink p : sees (Readlink p) (okst (λ t fs, ∃ i, at_path p fs = Some (NLink i t))).
Proof using.
  eapply safe_weaken; [apply sees_reading|done|]. intros [t|e] fs H; [|done]. cbn [oks okst] in *.
  destruct (resolve _ _ _) as [n|] eqn:Hr; [|done]. apply resolve_look in Hr. destruct n; try done.
  injection H as <-. eauto.
Qed.
Lemma sees_Open p : sees (Open p) (okst (λ h fs, h_path h = p ∧
  ∃ n, at_path p fs = Some n ∧ h_info h = info_of n ∧ ∀ i m c, n = NFile i m c → h_content h = c)).
Proof using.
  eapply safe_weaken; [apply sees_reading|done|]. intros [t|e] fs H; [|done]. cbn [oks okst] in *.
  destruct (resolve _ _ _) as [n|] eqn:Hr; [|done]. apply resolve_look in Hr.
  destruct n; try done; injection H as <-; cbn; naive_solver.
Qed.

Definition dir_at (p : path) (required : option Z) (fs : FS) : Prop :=
  ∃ i m es, at_path p fs = Some (NDir i m es) ∧ (∀ mode, required = Some mode → m = mode).
Lemma dir_ok_at p required i fs :
  dir_ok required i = true → (∃ n, at_path p fs = Some n ∧ i = info_of n) → dir_at p required fs.
Proof using.
  intros [H1%bool_decide_eq_true H2]%andb_true_iff (n & Hn & ->). destruct n as [| |j m es]; try done.
  exists j, m, es. split; [done|]. intros mode ->. by apply Z.eqb_eq.
Qed.
Lemma sees_openPinnedDirectory p required :
  sees (openPinnedDirectory p required) (okst (λ r fs, dir_at p required fs ∧ h_path r.1 = p)).
Proof using.
  unfold openPinnedDirectory. eapply safe_bind; [apply _|apply sees_Lstat|].
  intros [i|e]; [|by apply safe_ret; [apply _|]].
  destruct (dir_ok required i) eqn:Hok; [|by apply safe_ret; [apply _|]]. cbn [negb].
  eapply safe_weaken with (P := dir_at p required); [|intros fs; by apply dir_ok_at|done].
  eapply (safe_try eq); [apply (safe_observe_ok eq), sees_Open|]. intros h. eapply safe_weaken with (P := λ fs, h_path h = p ∧ dir_at p required fs); [|naive_solver|done].
  apply safe_pure. intros Hh.
  eapply safe_bind; [apply _|apply safe_rest; frame_tac|]. intros r.
  destruct (again _ _ _); cbn [negb].
  2: { eapply safe_bind; [apply _|apply safe_rest; frame_tac|]. intros c. by apply safe_ret; [apply _|]. }
  eapply safe_bind; [apply _|apply safe_rest; frame_tac|]. intros r'.
  destruct (again _ _ _); cbn [negb].
  2: { eapply safe_bind; [apply _|apply safe_rest; frame_tac|]. intros c. by apply safe_ret; [apply _|]. }
  by apply safe_ret; [apply _|].
Qed.
Lemma sees_pinnedDirectory p mode :
  sees (pinnedDirectory p mode) (λ r fs, ∀ i, r = Some i → dir_at p (Some mode) fs).
Proof using.
  unfold pinnedDirectory, pinned_directory. eapply safe_bind; [apply _|apply sees_openPinnedDirectory|].
  intros [[h i]|e]; [|by apply safe_ret; [apply _|]].
  eapply safe_bind; [apply _|apply safe_rest; frame_tac|]. intros r. apply safe_ret; [apply _|].
  intros fs [H _]. by destruct r.
Qed.
End facts.
