(* ===== verification/CertSafety.v ===== *)
(** * Development certificates: publication is crash safe

    Whatever calls fail and wherever the process dies, a publication never leaves
    [current] pointing to anything but what it pointed to before, untouched, or a
    version directory with complete target material; and a publication that
    reports success has left [current] at such a directory. *)

From stdpp Require Import base gmap strings list fin_maps.
From Stdlib Require Import ZArith Lia Ascii.
From S2P Require Import Prelude GoStrings GoErrors GoJson GoJsonPrint GoOS GoFS CertMaterial CertStore CertPublish CertRecover CertFrame.
Set Default Goal Selector "!".

(** ** Complete material *)

(** The managed files of a directory node, if they are regular files with their
    modes. *)
Definition managed_file (es : gmap string node) (spec : string * Z) : option fileSpec :=
  match es !! spec.1 with
  | Some (NFile _ mode content) => if (mode =? spec.2)%Z then Some (mkFileSpec spec.1 spec.2 content) else None
  | _ => None
  end.
Definition material_of (n : node) : option (list fileSpec) :=
  match n with
  | NDir _ mode es => if (mode =? mode_dir)%Z then mapM (managed_file es) managedFiles else None
  | _ => None
  end.

(** The managed files and nothing else, and they are the product's own material. *)
Definition complete {X : X509} (n : node) : Prop :=
  length (entry_names n) = length managedFiles ∧ ∃ files, material_of n = Some files ∧ (classifyMaterial files 0).1 = identityTarget.

Ltac look_on := eapply safe_bind; [apply _|apply safe_rest; frame_tac|]; intros ?.
Ltac stop_here := by apply safe_ret; [apply _|].

Section facts.
Context {E : OSEnv} {K : Crash} {X : X509} {TT : TextTools}.
Abbreviation sees m Q := (safe eq anything m Q).

Lemma regular_ok_at mode i p fs :
  regular_ok mode i = true → (∃ n, at_path p fs = Some n ∧ i = info_of n) → ∃ j c, at_path p fs = Some (NFile j mode c).
Proof using.
  intros [H1%bool_decide_eq_true H2%Z.eqb_eq]%andb_true_iff (n & Hn & ->). destruct n as [j m c| |]; try done.
  cbn in H2. subst. eauto.
Qed.
Lemma sees_readPinnedRegular p mode :
  sees (readPinnedRegular p mode) (okst (λ r fs, ∃ j, at_path p fs = Some (NFile j mode r.1))).
Proof using.
  unfold readPinnedRegular. eapply (safe_try eq); [apply sees_Lstat|]. intros i.
  destruct (regular_ok mode i) eqn:Hok; [|stop_here]. cbn [negb].
  eapply safe_weaken with (P := λ fs, ∃ j c, at_path p fs = Some (NFile j mode c)); [|intros fs; by apply regular_ok_at|done].
  eapply (safe_try eq); [apply (safe_observe_ok eq), sees_Open|]. intros h. cbv zeta.
  eapply safe_weaken with (P := λ fs, ∃ j, at_path p fs = Some (NFile j mode (h_content h))); [| |done].
  2: { intros fs ((j & c & Hj) & _ & n & Hn & _ & Hc). rewrite Hj in Hn. injection Hn as <-. exists j.
       by rewrite (Hc _ _ _ eq_refl). }
  look_on. destruct (again _ _ _); cbn [negb]; [|look_on; stop_here].
  eapply safe_bind with (Q := λ r fs, oks (λ c, c = h_content h) r ∧ ∃ j, at_path p fs = Some (NFile j mode (h_content h)));
    [apply _| |].
  { eapply safe_weaken; [apply (safe_observe eq (λ fs, ∃ j, at_path p fs = Some (NFile j mode (h_content h)))), (sees_reading _ _ (λ _, Ok (h_content h)))|done|].
    intros r fs [? Hr]. split; [|done]. destruct r; [|done]. cbn in *. congruence. }
  intros [c|e]; [|look_on; stop_here]. apply safe_pure. cbn [oks]. intros ->.
  do 2 (look_on; destruct (again _ _ _); cbn [negb]; [|look_on; stop_here]).
  look_on. stop_here.
Qed.
Lemma sees_readPinnedDirectory p mode :
  sees (readPinnedDirectory p mode)
    (okst (λ names fs, ∃ i es, at_path p fs = Some (NDir i mode es) ∧ names = entry_names (NDir i mode es))).
Proof using.
  unfold readPinnedDirectory. eapply (safe_try eq); [apply sees_openPinnedDirectory|]. intros [h i]. cbn [fst].
  eapply safe_weaken with (P := λ fs, h_path h = p ∧ dir_at p (Some mode) fs); [|naive_solver|done].
  apply safe_pure. intros Hh. eapply safe_bind; [apply _| |].
  { unfold File_ReadDir. rewrite Hh. apply (safe_observe eq), sees_reading. }
  intros r. look_on. apply safe_ret; [apply _|]. intros fs [(j & m & es & Hat & Hm) Hr].
  destruct r as [names|]; [|done]. cbn in *. rewrite (Hm mode eq_refl) in Hat.
  destruct (resolve _ _ _) as [n|] eqn:Hn; [|done]. apply resolve_look in Hn. rewrite Hat in Hn.
  injection Hn as <-. injection Hr as <-. eauto.
Qed.
Lemma sees_read_specs p specs :
  sees (read_specs p specs) (okst (λ files fs, mapM (λ spec : string * Z,
    match at_path (p ++ [spec.1]) fs with
    | Some (NFile _ mode c) => if (mode =? spec.2)%Z then Some (mkFileSpec spec.1 spec.2 c) else None
    | _ => None end) specs = Some files)).
Proof using.
  induction specs as [|spec specs IH]; cbn [read_specs]; [stop_here|].
  eapply (safe_try eq); [apply sees_readPinnedRegular|]. intros [c i]. cbn [fst].
  eapply (safe_try eq); [apply (safe_observe_ok eq), IH|]. intros files. apply safe_ret; [apply _|]. intros fs [(j & Hj) Hfiles]. cbn [okst mapM].
  rewrite Hj, Z.eqb_refl. cbn [mbind option_bind]. by rewrite Hfiles.
Qed.

Lemma at_entry p x fs i m es : at_path p fs = Some (NDir i m es) → at_path (p ++ [x]) fs = es !! x.
Proof using.
  rewrite !look_at, look_app. intros ->. cbn [mbind option_bind]. rewrite look_cons. by destruct (es !! x).
Qed.
Lemma mapM_ext_opt {A B} (f g : A → option B) l : (∀ x, f x = g x) → mapM f l = mapM g l.
Proof using. intros H. induction l as [|x l IH]; [done|]. cbn. by rewrite H, IH. Qed.

(** The directory holds exactly the managed files, and these are [files]. *)
Definition holds (p : path) (files : list fileSpec) (fs : FS) : Prop :=
  ∃ n, at_path p fs = Some n ∧ length (entry_names n) = length managedFiles ∧ material_of n = Some files.
Lemma sees_readManagedMaterial p : sees (readManagedMaterial p false) (okst (holds p)).
Proof using.
  unfold readManagedMaterial. look_on. destruct a; [|stop_here].
  eapply safe_bind; [apply _|apply sees_readPinnedDirectory|]. intros [names|e]; [|stop_here].
  destruct (equalStrings names want_names) eqn:Heq; [|stop_here]. cbn [negb]. apply bool_decide_eq_true in Heq as ->.
  cbn [okst]. eapply (safe_try eq) with (Q := λ _ fs, ∃ i es, at_path p fs = Some (NDir i mode_dir es) ∧
    want_names = entry_names (NDir i mode_dir es)); [by apply safe_ret; [apply _|]|]. intros _.
  apply safe_reported; [apply _|]. eapply safe_weaken; [apply (safe_observe_ok eq), sees_read_specs|intros fs Hfs; exact Hfs|].
  intros [files|]; [|done]. intros fs [(i & es & Hat & Hnames) Hfiles]. cbn [okst]. exists (NDir i mode_dir es).
  split; [done|]. split; [by rewrite <-Hnames|]. unfold material_of. rewrite Z.eqb_refl, <-Hfiles. apply mapM_ext_opt.
  intros spec. by rewrite (at_entry _ _ _ _ _ _ Hat).
Qed.

Definition complete_at (p : path) (fs : FS) : Prop := ∃ n, at_path p fs = Some n ∧ complete n.
Lemma sees_validateTargetIdentity p : sees (validateTargetIdentity p false) (okst (λ _, complete_at p)).
Proof using.
  unfold validateTargetIdentity. eapply (safe_try eq); [apply sees_readManagedMaterial|]. intros files.
  destruct (bool_decide _) eqn:Hid; [|stop_here]. apply bool_decide_eq_true in Hid. apply safe_ret; [apply _|].
  intros fs (n & Hn & Hnames & Hfiles). exists n. split; [done|]. split; [done|]. by exists files.
Qed.
Lemma sees_observeValidatedMaterial p : sees (observeValidatedMaterial p false) (okst (λ _, complete_at p)).
Proof using.
  unfold observeValidatedMaterial. eapply (safe_try eq); [apply sees_validateTargetIdentity|]. intros u.
  look_on. destruct a; [|stop_here].
  eapply (safe_try eq) with (Q := λ _, complete_at p); [|intros infos; by apply safe_ret; [apply _|]].
  eapply safe_weaken; [apply safe_rest; frame_tac|done|]. by intros [].
Qed.

Lemma sees_readSafeCurrent root : sees (readSafeCurrent root)
  (okst (λ t fs, safeVersionPath t = true ∧ ∃ i, at_path (root ++ ["current"]) fs = Some (NLink i t))).
Proof using.
  unfold readSafeCurrent. cbv zeta. look_on. destruct a as [i|]; [|stop_here].
  destruct (IsSymlink i); [|stop_here]. cbn [negb].
  eapply safe_bind; [apply _|apply sees_Readlink|]. intros [t|]; [|stop_here].
  destruct (is_abs t || negb (safeVersionPath t)) eqn:Ht; [stop_here|].
  apply orb_false_iff in Ht as [_ Ht%negb_false_iff].
  look_on. destruct (again _ _ _); [|stop_here]. cbn [negb]. by apply safe_ret; [apply _|].
Qed.
End facts.

(** ** Names of versions *)

(** A path element. *)
Record element (v : string) : Prop := mkElement {
  element_bytes : Forall (λ a, a ≠ slash) (bytes v);
  element_empty : v ≠ "";
  element_dot : v ≠ ".";
  element_dots : v ≠ "..";
}.

Lemma split_plain l cur : Forall (λ a, a ≠ slash) l → split_bytes slash cur l = [of_bytes (rev cur ++ l)].
Proof.
  intros H. revert cur. induction H as [|a l Ha _ IH]; intros cur; cbn [split_bytes]; [by rewrite app_nil_r|].
  destruct (Ascii.eqb_spec a slash); [done|]. rewrite IH. cbn [rev]. by rewrite <-app_assoc.
Qed.
Lemma split_versions v : element v → split ("versions/" +:+ v) slash = ["versions"; v].
Proof.
  intros H. unfold split. rewrite bytes_app.
  change (split_bytes slash [] (bytes "versions/" ++ bytes v)) with ("versions" :: split_bytes slash [] (bytes v)).
  rewrite split_plain by apply H. cbn [rev app]. by rewrite of_bytes_bytes.
Qed.
Lemma under_version root v : element v → under root ("versions/" +:+ v) = root ++ ["versions"; v].
Proof.
  intros H. unfold under, clean_elems. rewrite split_versions by done. f_equal.
  destruct H as [_ He Hd Hds]. cbn [foldl]. change (is_abs _) with false. unfold clean_push at 2. cbn [String.eqb].
  change (("versions" =? "")%string || ("versions" =? ".")%string) with false. cbn iota.
  change ("versions" =? "..")%string with false. cbn iota. unfold clean_push.
  apply String.eqb_neq in He, Hd, Hds. by rewrite He, Hd, Hds.
Qed.
Lemma drop_while_end_snoc {A} p (l : list A) a : p a = false → drop_while_end p (l ++ [a]) = l ++ [a].
Proof. intros H. unfold drop_while_end. rewrite rev_app_distr. cbn. rewrite H. cbn. by rewrite rev_involutive. Qed.
Lemma drop_while_all {A} p (l k : list A) : Forall (λ a, p a = true) l → drop_while p (l ++ k) = drop_while p k.
Proof. induction 1 as [|a l Ha _ IH]; [done|]. cbn. by rewrite Ha. Qed.
Lemma base_version v : element v → path_base ("versions/" +:+ v) = v.
Proof.
  intros H. unfold path_base. change (("versions/" +:+ v) =? "")%string with false. cbn iota.
  pose proof (element_bytes _ H) as Hb. pose proof (element_empty _ H) as He.
  destruct (bytes v) as [|a l _] eqn:Hv using rev_ind.
  { destruct He. rewrite <-(of_bytes_bytes v), Hv. done. }
  assert (trim_right ("versions/" +:+ v) "/" = "versions/" +:+ v) as ->.
  { unfold trim_right. rewrite bytes_app, Hv, app_assoc, drop_while_end_snoc.
    - rewrite <-app_assoc, <-Hv, <-bytes_app. apply of_bytes_bytes.
    - apply Forall_app in Hb as [_ Hb]. inversion Hb; subst. unfold contains_byte. cbn.
      destruct (Ascii.eqb_spec a "/"); done. }
  rewrite split_versions by done. cbn. by destruct (String.eqb_spec v "").
Qed.
Lemma dir_version v : element v → path_dir ("versions/" +:+ v) = "versions".
Proof.
  intros H. unfold path_dir, drop_while_end. rewrite bytes_app, rev_app_distr, drop_while_all; [done|].
  apply Forall_rev. eapply Forall_impl; [apply H|]. intros a Ha. cbn. by destruct (Ascii.eqb_spec a slash).
Qed.

Lemma hex_element tx : hex128Pattern tx = true → element ("v-" +:+ tx) ∧ versionPattern ("v-" +:+ tx) = true.
Proof.
  intros Hh. pose proof Hh as [_ Hx]%andb_true_iff. split.
  - split; [|done..]. rewrite bytes_app. apply Forall_app. split; [by repeat constructor|].
    apply Forall_forall. intros a Ha ->. apply list_elem_of_In in Ha.
    pose proof (proj1 (forallb_forall is_hex (bytes tx)) Hx _ Ha). done.
  - unfold versionPattern. change (has_prefix ("v-" +:+ tx) "v-") with (has_prefix tx ""). 
    unfold str_drop. rewrite bytes_app. change (drop 2 (bytes "v-" ++ bytes tx)) with (bytes tx). rewrite of_bytes_bytes, Hh.
    by destruct tx.
Qed.

(** What the well-formedness of a journal says about its paths, at every stage. *)
Record journal_ok (d : journalDocument) : Prop := mkJournalOk {
  jo_id : hex128Pattern (j_TransactionID d) = true;
  jo_candidate : j_CandidatePath d = "versions/.candidate-" +:+ j_TransactionID d;
  jo_version : j_VersionPath d = "versions/v-" +:+ j_TransactionID d;
}.
Definition version_of (d : journalDocument) : string := "v-" +:+ j_TransactionID d.
Lemma validateJournal_ok d : validateJournal d = None → journal_ok d.
Proof.
  unfold validateJournal. intros H.
  destruct (negb (j_Schema d =? 1)%Z || _ || _ || _) eqn:Hid in H; [done|].
  apply orb_false_iff in Hid as [[[_ H1]%orb_false_iff H2]%orb_false_iff H3].
  apply negb_false_iff in H1, H2, H3. apply String.eqb_eq in H2, H3. by split.
Qed.

Section journals.
Context (d : journalDocument) (Hd : journal_ok d).

Lemma version_element : element (version_of d).
Proof using Hd. apply hex_element, Hd. Qed.
Lemma version_pattern : versionPattern (version_of d) = true.
Proof using Hd. apply hex_element, Hd. Qed.
Lemma version_path : j_VersionPath d = "versions/" +:+ version_of d.
Proof using Hd. apply (jo_version d Hd). Qed.
Lemma under_version_path root : under root (j_VersionPath d) = root ++ ["versions"; version_of d].
Proof using Hd. rewrite version_path. apply under_version, version_element. Qed.
Lemma under_candidate_path root : under root (j_CandidatePath d) = root ++ ["versions"; ".candidate-" +:+ j_TransactionID d].
Proof using Hd.
  rewrite (jo_candidate d Hd). change ("versions/.candidate-" +:+ ?x) with ("versions/" +:+ (".candidate-" +:+ x)).
  apply under_version. destruct (hex_element _ (jo_id d Hd)) as [[Hb _ _ _] _]. split; [|done..].
  rewrite bytes_app in *. apply Forall_app in Hb as [_ Hb]. apply Forall_app. split; [by repeat constructor|done].
Qed.
Lemma version_base : path_base (j_VersionPath d) = version_of d.
Proof using Hd. rewrite version_path. apply base_version, version_element. Qed.
Lemma version_safe : safeVersionPath (j_VersionPath d) = true.
Proof using Hd.
  unfold safeVersionPath. rewrite version_base, version_path, dir_version by apply version_element.
  by rewrite version_pattern.
Qed.
Lemma version_protected v : v = version_of d → protected d v = true.
Proof using Hd. intros ->. unfold protected. rewrite version_path, String.eqb_refl. done. Qed.
End journals.

(** ** Steadiness *)

Definition version_dir (root : path) (target : string) : path := root ++ ["versions"; path_base target].

Section steady.
Context {X : X509} (root : path).

(** [current] points to a version with complete target material. *)
Definition published (fs : FS) : Prop :=
  ∃ i t, at_path (root ++ ["current"]) fs = Some (NLink i t) ∧ safeVersionPath t = true ∧ complete_at (version_dir root t) fs.

(** [current] is as it was, and so is the version it points to. *)
Definition undisturbed (a b : FS) : Prop :=
  at_path (root ++ ["current"]) b = at_path (root ++ ["current"]) a ∧
  ∀ i t n, at_path (root ++ ["current"]) a = Some (NLink i t) → safeVersionPath t = true →
    at_path (version_dir root t) a = Some n → at_path (version_dir root t) b = Some n.

(** The change a publication may make, at any moment of it. *)
Definition steady (a b : FS) : Prop := undisturbed a b ∨ published b.

Lemma undisturbed_published a b : undisturbed a b → published a → published b.
Proof using.
  intros [Hc Hv] (i & t & Hi & Ht & n & Hn & Hcomplete). exists i, t. rewrite Hc. split; [done|]. split; [done|].
  exists n. eauto.
Qed.
#[export] Instance steady_preorder : PreOrder steady.
Proof using.
  split; [intros a; left; by split|]. intros a b c [Hab|Hb] [Hbc|Hc]; [|by right| |by right].
  - left. destruct Hab as [H1 H2], Hbc as [H3 H4]. split; [by rewrite H3|].
    intros i t n Hi Ht Hn. rewrite <-H1 in Hi. eauto using eq_trans.
  - right. by eapply undisturbed_published.
Qed.

Definition versions_kept (v : string) : Prop := versionPattern v = true.
Lemma framed_steady a b : framed root versions_kept a b → steady a b.
Proof using.
  intros [Hc Hv]. left. split; [done|]. intros i t n _ Ht Hn. apply Hv; [|done].
  by apply andb_true_iff in Ht as [_ Ht].
Qed.
(** While [current] points to a version, it is enough to keep that one. *)
Lemma framed_one_steady t i a b : at_path (root ++ ["current"]) a = Some (NLink i t) →
  framed root (eq (path_base t)) a b → steady a b.
Proof using.
  intros Ha [Hc Hv]. left. split; [done|]. intros j t' n Hj Ht Hn. rewrite Ha in Hj. injection Hj as <- <-.
  by apply Hv.
Qed.
Lemma safe_steady {A} (T : relation FS) (P : FS → Prop) (m : M FS A) Q :
  (∀ a b, P a → T a b → steady a b) → safe T P m Q → safe steady P m Q.
Proof using. intros HT H w Hw. destruct (H w Hw) as [H1 H2]. split; [by eapply HT|done]. Qed.
End steady.

(** ** The switch *)

Section protocol.
Context {E : OSEnv} {K : Crash} {X : X509} {TT : TextTools} (root : path).
Abbreviation Tall := (framed root versions_kept).
Abbreviation steady := (steady root).
Abbreviation published := (published root).

#[local] Instance steady_here : PreOrder steady := steady_preorder root.

(** [current] points to the version of the journal, and that is complete. *)
Definition current_is (d : journalDocument) (fs : FS) : Prop :=
  (∃ i, at_path (root ++ ["current"]) fs = Some (NLink i (j_VersionPath d))) ∧
  complete_at (root ++ ["versions"; version_of d]) fs.
Lemma current_is_published d fs : journal_ok d → current_is d fs → published fs.
Proof using.
  intros Hd [[i Hi] Hv]. exists i, (j_VersionPath d). split; [done|]. split; [by apply version_safe|].
  unfold version_dir. by rewrite version_base.
Qed.

Lemma switch_published d x fs fs' i : journal_ok d → apart versions_kept [x] →
  at_path (root ++ [x]) fs = Some (NLink i (j_VersionPath d)) →
  complete_at (root ++ ["versions"; version_of d]) fs →
  rename_change (root ++ [x]) (root ++ ["current"]) fs = Ok fs' → current_is d fs'.
Proof using.
  intros Hd Hx Hl (v & Hv & Hc) (n & j & m & es & Hn & Hw & _ & ->)%rename_ok.
  rewrite Hl in Hn. injection Hn as <-. rewrite removelast_last in Hw. destruct fs as [tree next].
  cbn [fs_tree fs_next] in *. assert (look root tree = Some (NDir j m es)) as Hr by (unfold look; by rewrite Hw).
  split.
  - exists i. rewrite look_at. cbn [fs_tree]. by erewrite look_put_eq; [|apply (look_put_dir _ _ _ _ _ _ _ Hr)].
  - exists v. split; [|done]. rewrite look_at. cbn [fs_tree].
    rewrite look_put_apart; [|intros H%prefix_app_inv; by apply prefix_cons_inv_1 in H..].
    apply (framed_version _ _ _ _ (framed_apart root versions_kept [x] None tree next next Hx) _ _ (version_pattern d Hd) Hv).
Qed.

(** A tree with complete material for the journal's version. *)
Abbreviation ready d := (complete_at (root ++ ["versions"; version_of d])).
Lemma ready_kept d a b : journal_ok d → Tall a b → ready d a → ready d b.
Proof using.
  intros Hd [_ H] (n & Hn & Hc). exists n. split; [|done]. by apply H; [apply version_pattern|].
Qed.

Lemma safe_replaceCurrentSymlink d x ops : journal_ok d → apart versions_kept [x] →
  safe steady (ready d) (replaceCurrentSymlink root (root ++ [x]) d ops) (okst (λ _, current_is d)).
Proof using.
  intros Hd Hx. unfold replaceCurrentSymlink.
  assert (∀ {A} (m : M FS A), frames eq anything m → safe steady (ready d) m (λ _, ready d)) as Hrest.
  { intros A m Hm. eapply safe_steady; [|by apply safe_rest]. intros a b _ <-. done. }
  eapply (safe_bind steady); [apply Hrest; frame_tac|]. intros [o|]; [|stop_here].
  destruct (IsSymlink o); [|stop_here]. cbn [negb].
  eapply (safe_bind steady); [apply Hrest; frame_tac|]. intros target.
  destruct (match target with Ok _ => _ | Err _ => _ end); [|stop_here]. cbn [negb].
  eapply (safe_try steady) with (Q := λ _, ready d).
  { eapply (safe_weaken steady); [apply Hrest; frame_tac|done|by intros []]. }
  intros _. eapply (safe_bind steady); [apply Hrest; frame_tac|]. intros []; [|stop_here]. cbn [negb].
  eapply (safe_bind steady); [apply Hrest; frame_tac|]. intros r.
  destruct (again _ _ _); [|stop_here]. cbn [negb].
  eapply (safe_bind steady); [apply (safe_observe steady), sees_Readlink|]. intros [t|]; [|stop_here].
  destruct (String.eqb_spec t (j_VersionPath d)) as [->|]; [|stop_here]. cbn [negb okst].
  unfold must. eapply (safe_bind steady) with (Q := λ e fs, e = None → current_is d fs).
  - apply safe_writing; [apply _|done|]. intros fs fs' [Hr [i Hi]] Hren.
    assert (current_is d fs') by (by eapply switch_published). split; [|done].
    right. by eapply current_is_published.
  - intros [e|]; apply safe_ret; [apply _|done|apply _|]. intros fs H. by apply H.
Qed.

(** Facts that the quiet operations leave alone. *)
Class Stable (J : FS → Prop) : Prop := stable a b : Tall a b → J a → J b.
#[local] Instance stable_anything : Stable anything.
Proof using. done. Qed.
#[local] Instance stable_ready d (Hd : journal_ok d) : Stable (ready d).
Proof using. intros a b. by apply ready_kept. Qed.
#[local] Instance stable_current d (Hd : journal_ok d) : Stable (current_is d).
Proof using.
  intros a b Hab [[i Hi] Hr]. split; [exists i; by rewrite (framed_current _ _ _ _ Hab)|by eapply ready_kept].
Qed.
#[local] Instance stable_published : Stable published.
Proof using.
  intros a b Hab Hp. destruct (framed_steady root a b Hab) as [H|H]; [by eapply undisturbed_published|done].
Qed.

Section quiet.
Context (J : FS → Prop) `{!Stable J}.
Lemma safe_quiet {A} φ (m : M FS A) : frames Tall φ m → safe steady J m (λ a fs, J fs ∧ φ a).
Proof using Stable0.
  intros Hm. apply (safe_steady root Tall); [intros a b _; apply framed_steady|].
  apply safe_frame; [apply _|apply stable|done|done].
Qed.
Lemma safe_bind_quiet {A B} (m : M FS A) (k : A → M FS B) Q :
  frames Tall anything m → (∀ a, safe steady J (k a) Q) → safe steady J (bind m k) Q.
Proof using Stable0.
  intros Hm Hk. eapply (safe_bind steady); [by apply safe_quiet|]. intros a.
  eapply (safe_weaken steady); [apply Hk|by intros fs []|done].
Qed.
Lemma safe_try_quiet {A B} (m : M FS (result goerror A)) (k : A → M FS (result goerror B)) Q :
  frames Tall anything m → (∀ a, safe steady J (k a) (okst Q)) → safe steady J (rbind m k) (okst Q).
Proof using Stable0.
  intros Hm Hk. unfold rbind. apply safe_bind_quiet; [done|]. intros [a|e]; [apply Hk|by apply safe_ret; [apply _|]].
Qed.
Lemma safe_try_fact {A B} φ (m : M FS (result goerror A)) (k : A → M FS (result goerror B)) Q :
  frames Tall (oks φ) m → (∀ a, φ a → safe steady J (k a) (okst Q)) → safe steady J (rbind m k) (okst Q).
Proof using Stable0.
  intros Hm Hk. unfold rbind. eapply (safe_bind steady); [apply safe_quiet, Hm|].
  intros [a|e]; [|by apply safe_ret; [apply _|]]. cbn [oks].
  eapply (safe_weaken steady) with (P := λ fs, φ a ∧ J fs); [|by intros fs []|done]. apply safe_pure, Hk.
Qed.
(** An observation whose fact is kept from then on. *)
Lemma safe_try_see {A B} (m : M FS (result goerror A)) (k : A → M FS (result goerror B)) (Q' : A → FS → Prop) Q :
  safe eq anything m (okst Q') → (∀ a, safe steady (λ fs, J fs ∧ Q' a fs) (k a) (okst Q)) →
  safe steady J (rbind m k) (okst Q).
Proof using. intros Hm Hk. eapply (safe_try steady); [by apply (safe_observe_ok steady)|apply Hk]. Qed.
End quiet.

Lemma kept_pattern v : versions_kept v → versionPattern v = true.
Proof using. done. Qed.
#[local] Hint Resolve kept_pattern : frame frame_facts.

(** A directory that becomes a version. *)
Lemma frames_arrive p v mode : away root versions_kept p →
  frames Tall anything (renamePinnedDirectory p (root ++ ["versions"; v]) mode).
Proof using.
  intros (s & -> & Hs). unfold renamePinnedDirectory.
  eapply (safe_bind Tall); [apply (safe_observe Tall), sees_pinnedDirectory|]. intros [i|]; [|stop_here].
  eapply (safe_weaken Tall) with (P := λ fs, True ∧ dir_at (root ++ s) (Some mode) fs) (Q := λ _ _, True);
    [|intros fs [_ H]; split; [done|by eapply H]|done].
  eapply (safe_bind Tall) with (Q := λ _ fs, dir_at (root ++ s) (Some mode) fs).
  { eapply (safe_weaken Tall); [apply (safe_observe Tall (λ fs, dir_at (root ++ s) (Some mode) fs)), (frames_pathAbsent eq)|by intros fs []|].
    by intros a fs []. }
  intros []; [|stop_here]. cbn [negb]. unfold must.
  eapply (safe_bind Tall) with (Q := λ _ _, True); [|intros; stop_here].
  apply safe_writing; [apply _|done|]. intros fs fs' (j & m & es & Hat & _) Hr. split; [|done].
  by eapply framed_arrive.
Qed.
#[local] Hint Resolve frames_arrive : frame.
#[local] Hint Resolve frames_writeExclusive frames_renamePinnedRegular frames_removePinnedRegular
  frames_removeObservedRegular frames_ensureDirectory frames_acquireLockWithWait frames_releaseLock
  frames_replaceJournal frames_cleanupLockArtifacts frames_cleanupIncompleteCandidates away_candidate away_name : frame.
#[local] Hint Extern 1 (∀ _ : string, reach _ _ _) => intros; solve [eauto with frame] : frame_facts.
#[local] Hint Resolve frames_writeRandomExclusive frames_createRandomSymlink frames_createCandidateDirectory
  frames_reported_fact : frame_facts.

Lemma with_stage_ok stage d : journal_ok d → journal_ok (with_stage stage d).
Proof using. by intros []. Qed.

Lemma safe_publishCurrent d ops : journal_ok d →
  safe steady anything (publishCurrent root d ops) (okst (λ _, current_is d)).
Proof using.
  intros Hd. unfold publishCurrent. cbv zeta. rewrite under_version_path by done.
  eapply (safe_try steady) with (Q := λ _, ready d).
  { apply safe_reported; [apply _|]. eapply (safe_weaken steady); [apply (safe_observe_ok steady anything), sees_observeValidatedMaterial|done|].
    intros [] fs; [by intros []|done]. }
  intros material. pose proof (stable_ready d Hd).
  eapply (safe_try_fact (ready d)).
  { apply frames_createRandomSymlink. intros id. eauto with frame. }
  intros [id p] [_ Hp]. cbn [fst snd] in Hp |- *. subst p.
  do 2 (apply (safe_try_quiet (ready d)); [frame_tac|intros _]).
  apply (safe_bind_quiet (ready d)); [frame_tac|]. intros []; [|stop_here]. cbn [negb].
  eapply (safe_try steady); [apply safe_replaceCurrentSymlink; [done|by apply apart_top]|]. intros u.
  pose proof (stable_current d Hd).
  apply (safe_try_quiet (current_is d)); [frame_tac|intros _].
  eapply (safe_weaken steady); [apply (safe_quiet (current_is d)), frames_checkpoint, _|done|]. by intros [] fs [].
Qed.

(** The end of the transaction: [current] already is the new version, and stays. *)
Lemma framed_current_is d a b : journal_ok d → framed root (eq (version_of d)) a b → current_is d a → current_is d b.
Proof using.
  intros Hd Hab [[i Hi] (n & Hn & Hc)]. split; [exists i; by rewrite (framed_current _ _ _ _ Hab)|].
  exists n. split; [|done]. by apply (framed_version _ _ _ _ Hab).
Qed.
Lemma safe_published_tail {A} d (m : M FS (result goerror A)) : journal_ok d →
  frames (framed root (eq (version_of d))) anything m → safe steady (current_is d) m (okst (λ _, current_is d)).
Proof using.
  intros Hd Hm w Hw. destruct (Hm w I) as [H _]. split.
  - destruct Hw as [[i Hi] _]. eapply (framed_one_steady root _ i); [exact Hi|]. by rewrite version_base.
  - intros [a|e] _; [|done]. by eapply framed_current_is.
Qed.
Lemma only_pattern d v : journal_ok d → version_of d = v → versionPattern v = true.
Proof using. intros Hd <-. by apply version_pattern. Qed.
Lemma safe_finishPublished d ops : journal_ok d →
  safe steady (current_is d) (finishPublishedTransaction root d ops) (okst (λ _, current_is d)).
Proof using.
  intros Hd. apply safe_published_tail; [done|]. apply frames_finish; intros v Hv; [by eapply only_pattern|].
  by apply version_protected.
Qed.

Lemma frames_write_material candidate ops material : away root versions_kept candidate →
  frames Tall anything (write_material candidate ops material).
Proof using. intros Hc. induction material; cbn [write_material]; frame_tac. Qed.
#[local] Hint Resolve frames_write_material : frame.

(** From the published stage on. *)
Lemma safe_after_switch d ops : journal_ok d →
  safe steady (current_is d)
    (try! _ := replaceJournalWithOperations root d ops in finishPublishedTransaction root d ops)
    (okst (λ _, published)).
Proof using.
  intros Hd. pose proof (stable_current d Hd). apply (safe_try_quiet (current_is d)); [frame_tac|]. intros _.
  eapply (safe_weaken steady); [by apply safe_finishPublished|done|]. intros [] fs; [|done]. by apply current_is_published.
Qed.

Lemma safe_publishTransaction material predecessor digests ops :
  safe steady anything (publishTransaction root material predecessor digests ops) (okst (λ _, published)).
Proof using.
  unfold publishTransaction. eapply (safe_try_fact anything); [apply frames_createCandidateDirectory, kept_pattern|].
  intros [tx candidate] [Htx Hcandidate]. cbn [fst snd] in *. subst candidate. cbv zeta.
  pose proof (away_candidate root versions_kept kept_pattern tx) as Hc.
  set (d := mkJournal _ _ _ _ _ _ _). assert (journal_ok d) as Hd by done.
  change (under root ("versions/v-" +:+ tx)) with (under root (j_VersionPath d)). rewrite (under_version_path d Hd).
  apply (safe_try_quiet anything); [frame_tac|intros _].
  eapply (safe_try_fact anything).
  { apply frames_reported_fact; [apply _|]. apply frames_writeRandomExclusive. intros id. by apply away_reach, away_app. }
  intros [id temp] [_ Htemp]. cbn [fst snd] in *. subst temp.
  do 17 (apply (safe_try_quiet anything); [solve [frame_tac]|intros _]).
  eapply (safe_try steady); [apply safe_publishCurrent; by apply with_stage_ok|]. intros u.
  apply (safe_after_switch (with_stage "current_published" d)). by apply with_stage_ok.
Qed.

(** ** Recovery *)

Lemma frames_reconcile : frames Tall (oks journal_found) (reconcileJournalTemps root).
Proof using.
  unfold reconcileJournalTemps. eapply (frames_try Tall); [apply frames_oks, frames_readPinnedDirectory, _|].
  intros entries _. cbv zeta.
  assert (∀ name, name ∈ filter (λ name, is_Some (journalTempPattern name)) entries →
    away root versions_kept (root ++ [name])) as Htemps.
  { intros name [[tx Htx] _]%list_elem_of_filter. apply away_name. by eapply journal_temp_dotted. }
  destruct (filter _ entries) as [|name temps]; [|specialize (Htemps name ltac:(by left)); destruct temps];
    [| |by apply (frames_ret Tall)].
  all: eapply (frames_bind Tall); [apply frames_readJournal_valid|]; intros fixed Hfixed;
    eapply (frames_try Tall) with (φ := journal_found).
  1,3: apply (frames_ret Tall); destruct fixed as [d|e]; [by intros d' [= <-]|by destruct (errors_is e ErrNotExist)].
  - intros o Ho. by apply (frames_ret Tall).
  - intros o Ho. eapply (frames_try Tall); [apply frames_readJournal_valid|]. intros temporary Htemp.
    destruct (bool_decide _); [|by apply (frames_ret Tall)]. cbn [negb].
    assert (frames Tall (oks journal_found)
      (try! _ := renamePinnedRegular (root ++ [name]) (root ++ [journalName]) mode_private in
       try! _ := syncDir root in ret (Ok (Some temporary)))) as Hpromote.
    { eapply (frames_try Tall); [apply frames_oks; solve [frame_tac]|]. intros _ _.
      eapply (frames_try Tall); [apply frames_oks; solve [frame_tac]|]. intros _ _.
      apply (frames_ret Tall). by intros d [= <-]. }
    destruct o as [d|].
    + destruct (sameJournalImmutable d temporary); [|by apply (frames_ret Tall)]. cbn [negb].
      destruct (String.eqb _ _).
      * eapply (frames_try Tall); [apply frames_oks; solve [frame_tac]|]. intros _ _.
        eapply (frames_try Tall); [apply frames_oks; solve [frame_tac]|]. intros _ _. by apply (frames_ret Tall).
      * destruct (legalAdjacentStage _ _ _); [exact Hpromote|by apply (frames_ret Tall)].
    + destruct (String.eqb _ _); [|by apply (frames_ret Tall)]. cbn [negb].
      eapply (frames_bind Tall); [apply frames_candidateEvidenceMatches, _|]. intros [] _; [exact Hpromote|].
      by apply (frames_ret Tall).
Qed.

Lemma frames_resume_candidate d ops : journal_ok d → frames Tall anything (resume_candidate root d ops).
Proof using.
  intros Hd. unfold resume_candidate. cbv zeta. rewrite under_version_path, under_candidate_path by done.
  pose proof (away_candidate root versions_kept kept_pattern (j_TransactionID d)) as Hc. unfold candidate_at in Hc.
  frame_tac.
Qed.

Definition top_temp (p : path) : Prop := ∃ x, p = root ++ [x] ∧ apart versions_kept [x].
Lemma frames_matching_temps_top target entries : frames Tall (oks (Forall top_temp)) (matching_temps root target entries).
Proof using.
  induction entries as [|name entries IH]; cbn [matching_temps]; [apply (frames_ret Tall); constructor|].
  destruct (has_prefix name ".current-") eqn:Hn; [|exact IH]. cbn [negb orb].
  destruct (hex128Pattern _); [|exact IH]. cbn [negb].
  eapply (frames_bind Tall); [apply frames_Readlink, _|]. intros got _.
  destruct (negb _); [by apply (frames_ret Tall)|]. cbn [negb].
  eapply (frames_try Tall); [exact IH|]. intros rest Hrest. apply (frames_ret Tall). constructor; [|done].
  apply dotted in Hn as [x ->]. eexists; split; [done|]. by apply apart_top.
Qed.
Lemma frames_matchingCurrentTemp_top target :
  frames Tall (oks (λ o, ∀ p, o = Some p → top_temp p)) (matchingCurrentTemp root target).
Proof using.
  unfold matchingCurrentTemp. eapply (frames_try Tall); [apply frames_oks, frames_readPinnedDirectory, _|].
  intros entries _. eapply (frames_try Tall); [apply frames_matching_temps_top|].
  intros [|p [|]] H; apply (frames_ret Tall); [done| |done]. intros q [= <-]. by inversion H.
Qed.

(** The observations of the current target. *)
Lemma sees_current_target d : safe eq anything (readSafeCurrent root)
  (λ r fs, match r with Ok c => String.eqb c (j_VersionPath d) | Err _ => false end = true →
           ∃ i, at_path (root ++ ["current"]) fs = Some (NLink i (j_VersionPath d))).
Proof using.
  eapply safe_weaken; [apply sees_readSafeCurrent|done|]. intros [c|] fs; [|done]. intros [_ H] ->%String.eqb_eq. done.
Qed.

Lemma safe_replace_at d J stage ops : journal_ok d → Stable J →
  safe steady J (replaceJournalWithOperations root (with_stage stage d) ops) (okst (λ _, J)).
Proof using.
  intros Hd HJ. eapply (safe_weaken steady); [apply (safe_quiet J), frames_replaceJournal|done|]. by intros [] fs [].
Qed.

Lemma safe_resume_version d ops : journal_ok d →
  safe steady anything (resume_version root d ops) (okst (λ _, current_is d)).
Proof using.
  intros Hd. pose proof (stable_ready d Hd). pose proof (stable_current d Hd).
  unfold resume_version. cbv zeta. rewrite under_version_path by done.
  apply (safe_bind_quiet anything); [frame_tac|]. intros candidateExists.
  apply (safe_bind_quiet anything); [frame_tac|]. intros versionExists.
  destruct (candidateExists || negb versionExists); [stop_here|].
  eapply (safe_try steady) with (Q := λ _, ready d).
  { apply safe_reported; [apply _|].
    eapply (safe_weaken steady); [apply (safe_observe_ok steady anything), sees_validateTargetIdentity|done|].
    intros [] fs; [by intros []|done]. }
  intros u. eapply (safe_bind steady); [apply (safe_observe steady), (sees_current_target d)|]. intros current.
  destruct (match current with Ok _ => _ | Err _ => _ end) eqn:Hm.
  { eapply (safe_weaken steady); [by apply (safe_replace_at d (current_is d))|intros fs [Hr Hc]; split; [by apply Hc|done]|done]. }
  eapply (safe_weaken steady) with (P := ready d); [|by intros fs []|done].
  apply (safe_bind_quiet (ready d)); [frame_tac|]. intros []; [|stop_here]. cbn [negb].
  eapply (safe_try_fact (ready d)); [apply frames_matchingCurrentTemp_top|]. intros temp Htemp.
  eapply (safe_try steady) with (Q := λ _, current_is d); [|intros u'; by apply safe_replace_at].
  destruct temp as [p|].
  - destruct (Htemp p eq_refl) as (x & -> & Hx).
    eapply (safe_try steady); [by apply safe_replaceCurrentSymlink|]. intros u'.
    eapply (safe_weaken steady); [apply (safe_quiet (current_is d) anything); frame_tac|done|]. by intros [] fs [].
  - eapply (safe_weaken steady); [by apply safe_publishCurrent|done|done].
Qed.

Lemma safe_resume_published d ops : journal_ok d →
  safe steady anything (resume_published root d ops) (okst (λ _, published)).
Proof using.
  intros Hd. pose proof (stable_current d Hd). unfold resume_published. cbv zeta. rewrite under_version_path by done.
  eapply (safe_bind steady); [apply (safe_observe steady anything), (sees_current_target d)|]. intros current.
  destruct (match current with Ok _ => _ | Err _ => _ end) eqn:Hm; [|stop_here]. cbn [negb].
  set (P := λ fs, ∃ i, at_path (root ++ ["current"]) fs = Some (NLink i (j_VersionPath d))).
  eapply (safe_weaken steady) with (P := P) (Q := okst (λ _, published)); [|intros fs [_ H1]; by apply H1|done].
  eapply (safe_bind steady) with (Q := λ _, P).
  { eapply (safe_weaken steady); [apply (safe_observe steady P), (frames_pathExists eq)|done|]. by intros ? fs []. }
  intros []; [|stop_here]. cbn [negb].
  eapply (safe_try steady) with (Q := λ _, current_is d).
  { apply safe_reported; [apply _|].
    eapply (safe_weaken steady); [apply (safe_observe_ok steady P), sees_validateTargetIdentity|done|].
    by intros [] fs. }
  intros u. eapply (safe_weaken steady) with (P := current_is d) (Q := okst (λ _, current_is d));
    [|done|intros [] fs; [by apply current_is_published|done]].
  destruct (String.eqb _ _); [|by apply safe_finishPublished].
  apply safe_published_tail; [done|].
  pose proof (frames_retain root (eq (version_of d)) (λ v, only_pattern d v Hd) d ops
    (λ v Hv, version_protected d Hd v (eq_sym Hv))).
  pose proof (frames_removePinnedRegular root (eq (version_of d)) (root ++ [journalName]) mode_private
    (away_reach _ _ _ (away_name root _ journalName eq_refl))).
  frame_tac.
Qed.

Lemma safe_resumeJournal d ops : journal_ok d →
  safe steady anything (resumeJournal root d ops) (okst (λ _, published)).
Proof using.
  intros Hd. unfold resumeJournal. cbv zeta.
  pose proof (with_stage_ok "version_ready" d Hd) as Hready. pose proof (with_stage_ok "current_published" d Hd) as Hpub.
  destruct (String.eqb _ "candidate_ready"); [|destruct (String.eqb _ "version_ready"); [|destruct (bool_decide _)]].
  - apply (safe_try_quiet anything); [by apply frames_resume_candidate|intros _].
    apply (safe_try_quiet anything); [frame_tac|intros _].
    eapply (safe_try steady) with (Q := λ _, anything).
    + eapply (safe_weaken steady); [by apply safe_resume_version|done|by intros []].
    + intros u. by apply safe_resume_published.
  - eapply (safe_try steady) with (Q := λ _, anything).
    + eapply (safe_weaken steady); [by apply safe_resume_version|done|by intros []].
    + intros u. by apply safe_resume_published.
  - by apply safe_resume_published.
  - stop_here.
Qed.

Lemma safe_recoverPublication ops : safe steady anything (recoverPublication root ops) (okst (λ _, anything)).
Proof using.
  unfold recoverPublication. apply (safe_try_quiet anything); [frame_tac|intros _].
  eapply (safe_try_fact anything); [apply frames_reconcile|]. intros [d|] Hd.
  - eapply (safe_weaken steady); [apply safe_resumeJournal, validateJournal_ok, Hd, eq_refl|done|by intros []].
  - eapply (safe_weaken steady); [apply (safe_quiet anything anything); frame_tac|done|by intros []].
Qed.

(** ** Classification *)

Lemma identity_timeless files now now' : (classifyMaterial files now).1 = (classifyMaterial files now').1.
Proof using. unfold classifyMaterial. repeat case_match; done. Qed.

Lemma sees_readAndClassify p now : safe eq anything (readAndClassifyMaterial p now)
  (okst (λ r fs, r.1.2 = identityTarget → complete_at p fs)).
Proof using.
  unfold readAndClassifyMaterial. eapply safe_bind; [apply _|apply sees_readPinnedDirectory|]. intros [names|]; [|stop_here].
  destruct (Nat.eqb_spec (length names) (length managedFiles)) as [Hlen|]; [|stop_here]. cbn [negb].
  eapply (safe_try eq); [apply (safe_observe_ok eq), sees_read_specs|]. intros files.
  destruct (classifyMaterial files now) as [ident fresh] eqn:Hc. apply safe_ret; [apply _|].
  intros fs [(i & es & Hat & ->) Hfiles] Hid. cbn [fst snd] in Hid. subst ident.
  exists (NDir i mode_dir es). split; [done|]. split; [done|]. exists files. split.
  - unfold material_of. rewrite Z.eqb_refl, <-Hfiles. apply mapM_ext_opt. intros spec.
    by rewrite (at_entry _ _ _ _ _ _ Hat).
  - by rewrite (identity_timeless files 0 now), Hc.
Qed.

(** What the loop over the versions knows of the current one. *)
Lemma sees_scan_versions versions target now found entries :
  safe eq (λ fs, ∀ fresh, found = Some (identityTarget, fresh) → complete_at (versions ++ [path_base target]) fs)
    (scan_versions versions target now found entries)
    (λ r fs, match r with
             | Ok o => ∀ fresh, o = Some (identityTarget, fresh) → complete_at (versions ++ [path_base target]) fs
             | Err c => cr_state c ≠ statePublishedTarget
             end).
Proof using.
  revert found. induction entries as [|name entries IH]; intros found; cbn [scan_versions]; [by apply safe_ret; [apply _|]|].
  destruct (versionPattern name); [|stop_here]. cbn [negb].
  eapply safe_bind; [apply _|apply safe_rest; frame_tac|]. intros [i|]; [|stop_here].
  eapply safe_bind; [apply _|apply (safe_observe eq), sees_readAndClassify|].
  intros [[[files ident] fresh]|e]; [|stop_here]. cbn [okst fst snd].
  destruct (String.eqb_spec name (path_base target)) as [->|]; cbn [negb].
  - destruct (bool_decide (ident = identityUnknown)); [stop_here|].
    eapply safe_weaken; [apply IH| |done]. intros fs [_ H] fresh' [= -> ->]. by apply H.
  - eapply safe_weaken; [apply IH| |done]. by intros fs [H _].
Qed.

Lemma sees_classifyVersionedRoot now : safe eq anything (classifyVersionedRoot root now)
  (okst (λ c fs, cr_state c = statePublishedTarget → published fs)).
Proof using.
  unfold classifyVersionedRoot. cbv zeta. eapply safe_bind; [apply _|apply sees_readSafeCurrent|].
  intros [t|]; [|stop_here]. cbn [okst]. look_on. destruct a as [names|]; [|stop_here].
  destruct (empty_list names || _); [stop_here|].
  eapply safe_bind; [apply _| |].
  { eapply (safe_weaken eq); [apply (safe_stable eq), sees_scan_versions; by intros a b <-| |].
    - intros fs Hfs. split; [exact Hfs|done].
    - intros r fs Hr. exact Hr. }
  intros scanned. apply safe_ret; [apply _|]. intros fs [[Ht [i Hi]] Hs]. cbn [okst].
  destruct scanned as [[[ident fresh]|]|c]; cbn [okst cr_state]; [|done|done].
  destruct (bool_decide (ident = identityTarget)) eqn:Hid; [|done]. apply bool_decide_eq_true in Hid as ->. intros _.
  exists i, t. split; [done|]. split; [done|]. unfold version_dir.
  specialize (Hs fresh eq_refl). by rewrite <-app_assoc in Hs.
Qed.
Lemma sees_classifyRoot now held : safe eq anything (classifyRoot root now held)
  (okst (λ c fs, cr_state c = statePublishedTarget → published fs)).
Proof using.
  assert (∀ managed current versions, safe eq anything (classify_entries root now managed current versions)
    (okst (λ c fs, cr_state c = statePublishedTarget → published fs))) as Hentries.
  { intros managed current versions. unfold classify_entries. destruct current.
    - destruct (_ || _); [stop_here|apply sees_classifyVersionedRoot].
    - look_on. destruct a; [|stop_here]. cbn [negb]. destruct (Nat.eqb managed 0); [stop_here|].
      destruct (Nat.eqb managed _); cbn [negb].
      + look_on. destruct a as [[[files []] fresh]|]; stop_here.
      + look_on. destruct a; stop_here. }
  unfold classifyRoot. look_on. destruct a as [i|e].
  - destruct (dir_ok _ i); [|stop_here]. cbn [negb].
    eapply (safe_try eq) with (Q := λ _, anything).
    { eapply safe_weaken; [apply (safe_rest anything); frame_tac|done|by intros []]. }
    intros entries. do 4 look_on. destruct a2; [|stop_here]. apply Hentries.
  - destruct (errors_is e ErrNotExist); [|stop_here].
    eapply (safe_try eq) with (Q := λ _, anything); [|intros; stop_here].
    eapply safe_weaken; [apply (safe_rest anything); frame_tac|done|by intros []].
Qed.

(** ** The lifecycle *)

Lemma safe_publish_locked force ops :
  safe steady anything (publish_locked root force ops) (okst (λ _, published)).
Proof using.
  unfold publish_locked. eapply (safe_try steady); [apply safe_recoverPublication|]. intros u.
  apply (safe_bind_quiet anything); [frame_tac|]. intros now.
  eapply (safe_try_see anything); [apply safe_reported; [apply _|apply sees_classifyRoot]|]. intros state.
  destruct (bool_decide (cr_state state = statePublishedTarget)) eqn:Hs.
  - apply bool_decide_eq_true in Hs. destruct (cr_fresh state); cbn [andb].
    + apply safe_ret; [apply _|]. intros fs [_ H]. by apply H.
    + destruct (cr_unsafe state || _); [stop_here|]. cbv zeta.
      eapply (safe_weaken steady) with (P := anything); [|done|done].
      apply (safe_try_quiet anything); [frame_tac|]. intros material. apply safe_publishTransaction.
  - cbn [andb]. destruct (cr_unsafe state || _); [stop_here|]. cbv zeta.
    eapply (safe_weaken steady) with (P := anything); [|done|done].
    apply (safe_try_quiet anything); [frame_tac|]. intros material. apply safe_publishTransaction.
Qed.

Lemma frames_prepareRoot : frames Tall anything (prepareRootForLifecycle root).
Proof using. unfold prepareRootForLifecycle. cbv zeta. frame_tac. Qed.
#[local] Hint Resolve frames_prepareRoot : frame.

Lemma sees_fastPath : safe eq anything (fastPathPublished root) (λ b fs, b = true → published fs).
Proof using.
  assert (safe eq anything (observePublished root) (λ o fs, is_Some o → published fs)) as Hobs.
  { unfold observePublished. look_on. eapply safe_bind; [apply _|apply sees_classifyRoot|].
    intros [c|]; [|apply safe_ret; [apply _|]; by intros fs _ []].
    destruct (bool_decide (cr_state c = statePublishedTarget)) eqn:Hc; cbn [andb negb];
      [|apply safe_ret; [apply _|]; by intros fs _ []].
    apply bool_decide_eq_true in Hc. destruct (cr_fresh c); cbn [negb]; [|apply safe_ret; [apply _|]; by intros fs _ []].
    eapply safe_weaken with (P := published) (Q := λ _, published); [|intros fs H; by apply H|done].
    apply safe_rest. frame_tac. }
  unfold fastPathPublished. cbv zeta. do 2 look_on. destruct a0; [|stop_here]. cbn [negb].
  eapply safe_bind; [apply _|apply Hobs|]. intros [first|]; [|stop_here].
  eapply safe_weaken with (P := published) (Q := λ _, published); [|intros fs H; by apply H|done].
  apply safe_rest. frame_tac.
Qed.

Lemma safe_publish force ops :
  safe steady anything (publishWithOperations root force ops) (okst (λ _, published)).
Proof using.
  unfold publishWithOperations. apply (safe_bind_quiet anything).
  { apply frames_any_of; [apply _|]. do 5 (constructor; [frame_tac|]). constructor. }
  intros evidence. apply (safe_bind_quiet anything); [frame_tac|]. intros now.
  apply (safe_try_quiet anything); [frame_tac|]. intros state.
  eapply (safe_bind steady) with (Q := λ b fs, b = true → published fs).
  { destruct (_ && cr_fresh state); [|by apply safe_ret; [apply _|]].
    eapply (safe_weaken steady); [apply (safe_observe steady anything), sees_fastPath|done|]. by intros b fs []. }
  intros []; [apply safe_ret; [apply _|]; intros fs H; by apply H|].
  eapply (safe_weaken steady) with (P := anything) (Q := okst (λ _, published)); [|done|done].
  apply (safe_try_quiet anything); [frame_tac|]. intros _.
  apply (safe_bind_quiet anything); [frame_tac|]. intros journalPresent.
  apply (safe_bind_quiet anything); [frame_tac|]. intros []; [stop_here|].
  apply (safe_try_quiet anything); [frame_tac|]. intros _.
  apply (safe_try_quiet anything); [frame_tac|]. intros token.
  eapply (safe_weaken steady);
    [apply (safe_deferred steady anything _ _ _ (okst (λ _, published)) (λ _, anything)); [apply safe_publish_locked| |]|done|].
  - intros [[]|e]; cbn [okst].
    + eapply (safe_weaken steady); [apply (safe_quiet published anything), frames_releaseLock|done|]. by intros b fs [].
    + eapply (safe_weaken steady); [apply (safe_quiet anything anything), frames_releaseLock|done|done].
  - eapply (safe_weaken steady); [apply (safe_quiet anything anything), frames_releaseLock|done|done].
  - intros r fs (a & b & -> & Ha & _). by destruct b.
Qed.
End protocol.

(** ** The guarantees *)

(** One attempt to publish: the faults, the point where it dies, and the
    operations it is given. *)
Record attempt := mkAttempt {
  at_os : OSEnv;
  at_crash : Crash;
  at_tools : TextTools;
  at_force : bool;
  at_ops : publicationOperations;
}.
Definition try_publish {X : X509} (root : path) (a : attempt) (w : world FS) : world FS :=
  (publishWithOperations (E := at_os a) (I := alone) (K := at_crash a) (TT := at_tools a) root (at_force a) (at_ops a) w).2.

(** C5: whatever calls fail and wherever the process dies, in any number of
    attempts one after the other with no other process at work, the [current] link
    and the version it points to are as they were before, or [current] points to a
    version directory with complete target material. *)
Theorem publication_crash_safe {X : X509} (root : path) (attempts : list attempt) (w : world FS) :
  steady root (w_app w) (w_app (foldl (λ w a, try_publish root a w) w attempts)).
Proof.
  pose proof (steady_preorder root). revert w. induction attempts as [|a attempts IH]; intros w; [done|].
  cbn [foldl]. etrans; [|apply IH].
  unfold try_publish.
  exact (proj1 (safe_publish (E := at_os a) (K := at_crash a) (TT := at_tools a) root (at_force a) (at_ops a) w I)).
Qed.

(** C24: a publication that reports success has left [current] pointing to a version
    directory with complete target material. *)
Theorem publication_success {X : X509} {E : OSEnv} {K : Crash} {TT : TextTools} (root : path) (force : bool)
    (ops : publicationOperations) (w w' : world FS)
    (H : publishWithOperations root force ops w = (Returned (Ok tt), w')) : published root (w_app w').
Proof.
  destruct (safe_publish root force ops w I) as [_ HQ]. rewrite H in HQ. exact (HQ _ eq_refl).
Qed.
