(* ===== verification/CertJournal.v ===== *)
(** * Development certificates: the journal and the lock

    The journal that a publication writes is the journal that recovery reads, and
    a lock that another process may still hold is never taken. *)

From stdpp Require Import base gmap strings list fin_maps.
From Stdlib Require Import ZArith Lia Ascii.
From S2P Require Import Prelude GoStrings GoErrors GoJson GoJsonPrint GoOS GoFS CertMaterial CertStore CertPublish CertRecover CertFrame CertSafety.
Set Default Goal Selector "!".

(** ** The journal round trip *)

Lemma hex_ascii s : forallb is_hex (bytes s) = true → ascii_text s = true.
Proof.
  unfold ascii_text. rewrite !forallb_forall. intros H a Ha. specialize (H a Ha). unfold is_hex in H. lia.
Qed.

(** The keys of a map are the given ones if there are as many and all are there. *)
Lemma dom_is (m : gmap string string) (ks : list string) :
  NoDup ks → size m = length ks → Forall (λ k, is_Some (m !! k)) ks → dom m = (list_to_set ks : gset string).
Proof.
  intros Hnd Hsize Hks. symmetry. apply set_subseteq_size_eq.
  - intros k Hk%elem_of_list_to_set. rewrite elem_of_dom. by eapply Forall_forall in Hks.
  - by rewrite size_list_to_set, size_dom, Hsize.
Qed.

(** One member of an object decoded into a map of strings. *)
Definition add_member (acc : option (option (gmap string string))) (kv : string * json) : option (option (gmap string string)) :=
  match acc, dec_string kv.2 "" with
  | Some (Some m), Some v => Some (Some (<[kv.1 := v]> m))
  | _, _ => None
  end.
Lemma dec_string_map (m : gmap string string) : dec_map "" dec_string (json_string_map m) None = Some (Some m).
Proof.
  unfold dec_map, json_string_map. set (entry := λ k : string, (k, JStr (default "" (m !! k)))).
  assert (∀ (ks : list string) (acc : gmap string string), Forall (λ k, is_Some (m !! k)) ks →
    foldl add_member (Some (Some acc)) (entry <$> ks)
    = Some (Some (foldl (λ (acc : gmap string string) k, <[k := default "" (m !! k)]> acc) acc ks))) as Hfold.
  { induction ks as [|k ks IH]; intros acc Hks; [done|]. apply Forall_cons in Hks as [_ Hks]. rewrite fmap_cons. cbn [foldl]. by apply IH. }
  set (ks := sort_strings (elements (dom m))). 
  assert (∀ k, k ∈ ks ↔ is_Some (m !! k)) as Hks.
  { intros k. unfold ks. rewrite sort_strings_perm, elem_of_elements, elem_of_dom. done. }
  change (foldl add_member (Some (Some ∅)) (entry <$> ks) = Some (Some m)).
  rewrite Hfold by (apply Forall_forall; intros k; by apply Hks). do 2 f_equal. cbn [default].
  assert (∀ l (acc : gmap string string) k, foldl (λ (acc : gmap string string) k, <[k := default "" (m !! k)]> acc) acc l !! k =
    if decide (k ∈ l) then Some (default "" (m !! k)) else acc !! k) as Hl.
  { induction l as [|x l IH]; intros acc k; [done|]. cbn [foldl]. rewrite IH.
    destruct (decide (k ∈ l)) as [Hin|Hin]; destruct (decide (k ∈ x :: l)) as [Hin'|Hin']; try done.
    - destruct Hin'. by right.
    - apply elem_of_cons in Hin' as [->|]; [by rewrite lookup_insert_eq|done].
    - rewrite lookup_insert_ne; [done|]. intros ->. destruct Hin'. by left. }
  apply map_eq. intros k. rewrite Hl, lookup_empty. destruct (decide (k ∈ ks)) as [Hk|Hk].
  - apply Hks in Hk as [v Hv]. by rewrite Hv.
  - destruct (m !! k) eqn:Hv; [|done]. destruct Hk. apply Hks. by rewrite Hv.
Qed.

Lemma json_string_map_plain (m : gmap string string) :
  (∀ k v, m !! k = Some v → ascii_text k = true ∧ ascii_text v = true) → plain (N := id) (json_string_map m) = true.
Proof.
  intros H. cbn [json_string_map plain]. apply forallb_forall. intros [k j] Hin%list_elem_of_In.
  apply list_elem_of_fmap in Hin as (k' & [= -> ->] & Hk). cbn [fst snd].
  rewrite sort_strings_perm, elem_of_elements, elem_of_dom in Hk. destruct Hk as [v Hv].
  destruct (H _ _ Hv) as [Ha Hb]. rewrite Hv. cbn [default plain]. by rewrite andb_true_iff.
Qed.

(** The digests of a well-formed journal are those of the managed files. *)
Lemma digests_ascii d m : validateJournal d = None → j_DirectRootSHA256 d = Some m →
  ∀ k v, m !! k = Some v → ascii_text k = true ∧ ascii_text v = true.
Proof.
  unfold validateJournal. intros H Hm. rewrite Hm in H.
  destruct (negb (j_Schema d =? 1)%Z || _ || _ || _) in H; [done|].
  destruct (match j_PredecessorVersion d with Some _ => _ | None => _ end) in H; [done|].
  destruct (negb (bool_decide (j_Stage d ∈ stages))) in H; [done|].
  destruct (Nat.eqb_spec (size m) (length managedFiles)) as [Hsize|]; [|done]. cbn [negb] in H.
  destruct (forallb _ managedFiles) eqn:Hall; [|done]. rewrite forallb_forall in Hall.
  assert (∀ spec, spec ∈ managedFiles → ∃ v, m !! spec.1 = Some v ∧ digest_text v = true) as Hspec.
  { intros spec Hin%list_elem_of_In. specialize (Hall spec Hin). destruct (m !! spec.1); [|done]. eauto. }
  assert (dom m = (list_to_set managedFiles.*1 : gset string)) as Hdom.
  { apply dom_is; [by apply (bool_decide_unpack _)|done|]. apply Forall_fmap, Forall_forall. intros spec Hin.
    destruct (Hspec spec Hin) as (v & Hv & _). cbn. by rewrite Hv. }
  intros k v Hk. assert (k ∈ managedFiles.*1) as Hin.
  { apply (elem_of_list_to_set (C := gset string)). rewrite <-Hdom. apply elem_of_dom. by rewrite Hk. }
  apply list_elem_of_fmap in Hin as (spec & -> & Hin). split.
  - assert (Forall (λ spec : string * Z, ascii_text spec.1 = true) managedFiles) as Hnames by by repeat constructor.
    by eapply Forall_forall in Hnames.
  - destruct (Hspec spec Hin) as (v' & Hv' & Hd). rewrite Hk in Hv'. injection Hv' as <-.
    apply andb_true_iff in Hd as [_ Hd]. by apply hex_ascii.
Qed.

Lemma journal_plain d : validateJournal d = None →
  (∀ p, j_PredecessorVersion d = Some p → ascii_text p = true) → plain (N := id) (json_journal d) = true.
Proof.
  intros Hv Hp. pose proof (validateJournal_ok d Hv) as [Hid Hc Hver]. pose proof (digests_ascii d) as Hdig.
  assert (ascii_text (j_TransactionID d) = true) as Htx.
  { apply hex_ascii. by apply andb_true_iff in Hid as [_ ?]. }
  assert (j_Schema d = 1%Z ∧ j_Stage d ∈ stages) as [Hs Hstage].
  { unfold validateJournal in Hv. destruct (Z.eqb_spec (j_Schema d) 1); [|done]. split; [done|].
    destruct (_ || _) in Hv; [done|]. destruct (match j_PredecessorVersion d with Some _ => _ | None => _ end) in Hv; [done|].
    destruct (bool_decide_reflect (j_Stage d ∈ stages)); [done|done]. }
  assert (ascii_text (j_Stage d) = true) as Hst.
  { assert (Forall (λ s, ascii_text s = true) stages) as Hall by by repeat constructor. by eapply Forall_forall in Hall. }
  unfold json_journal. rewrite Hs, Hc, Hver.
  change (plain (JObj ?l)) with (forallb (λ kv : string * json, ascii_text kv.1 && plain (N := id) kv.2) l).
  cbn [forallb fst snd]. change (plain (JStr ?s)) with (ascii_text s).
  rewrite !(ascii_text_app _ (j_TransactionID d)), Htx, Hst, !andb_true_iff. repeat split.
  - destruct (j_PredecessorVersion d) as [p|] eqn:Hpred; [|done]. by apply Hp.
  - destruct (j_DirectRootSHA256 d) as [m|] eqn:Hm; [|done]. apply json_string_map_plain. by apply Hdig.
Qed.

Lemma dec_json_journal d : j_Schema d = 1%Z → dec_journal (json_journal d) zero_journal = Some d.
Proof.
  destruct d as [schema tx candidate version predecessor stage digests]. cbn [j_Schema]. intros ->.
  unfold json_journal, dec_journal, dec_struct.
  cbn [foldl fst snd j_Schema j_TransactionID j_CandidatePath j_VersionPath j_PredecessorVersion j_Stage j_DirectRootSHA256].
  lazy [select_field List.find String.eqb Ascii.eqb Bool.eqb fst snd foldl].
  change (dec_int (json_int 1) (j_Schema zero_journal)) with (Some 1%Z).
  cbn [fmap option_fmap option_map dec_string with_stage zero_journal
       j_Schema j_TransactionID j_CandidatePath j_VersionPath j_PredecessorVersion j_Stage j_DirectRootSHA256].
  assert (dec_ptr "" dec_string (match predecessor with Some p => JStr p | None => JNull end) None = Some predecessor)
    as -> by by destruct predecessor.
  cbn [fmap option_fmap option_map with_stage j_Schema j_TransactionID j_CandidatePath j_VersionPath
       j_PredecessorVersion j_Stage j_DirectRootSHA256].
  destruct digests as [m|]; [|done]. by rewrite dec_string_map.
Qed.

(** The journal that a publication writes is the journal that recovery reads:
    every well-formed journal, at every stage, with or without a predecessor and
    digests of the direct root, is read back from its canonical text unchanged. *)
Theorem journal_roundtrip d (Hd : validateJournal d = None)
    (Hp : ∀ p, j_PredecessorVersion d = Some p → ascii_text p = true) :
  decodeJournal (canonicalJSON (json_journal d)) = Ok d.
Proof.
  unfold decodeJournal, read_canonical, canonicalJSON, Marshal.
  rewrite (json_text_parse (N := id) Compact (json_journal d) (String (byte_of 10) "") (journal_plain d Hd Hp) eq_refl).
  change (known_fields journal_fields (json_journal d)) with true. cbn [negb].
  rewrite dec_json_journal.
  - by rewrite String.eqb_refl, Hd.
  - unfold validateJournal in Hd. by destruct (Z.eqb_spec (j_Schema d) 1).
Qed.

(** ** The lock *)

(** The lock of [root] may still be held: there is a lock, and no probe finds that
    its recorded owner is dead. *)
Definition lock_live (root : path) (ops : publicationOperations) {TT : TextTools} (fs : FS) : Prop :=
  is_Some (at_path (root ++ [lockName]) fs) ∧
  ∀ j content d t, at_path ((root ++ [lockName]) ++ ["owner.json"]) fs = Some (NFile j mode_private content) →
    canonical_owner content = Some d → op_process ops t (own_PID d) ≠ processDead.

Section lock.
Context {E : OSEnv} {K : Crash} {X : X509} {TT : TextTools} (root : path) (ops : publicationOperations).
Abbreviation live := (lock_live root ops).

Lemma live_acquireOnce : safe eq live (acquireLockOnce root ops) (λ r fs, live fs ∧ ∀ token, r ≠ Ok token).
Proof using.
  unfold acquireLockOnce. cbv zeta.
  eapply (safe_bind eq) with (Q := λ r fs, live fs ∧ ∃ e, r = Err e).
  - unfold must. eapply (safe_bind eq) with (Q := λ r fs, live fs ∧ ∃ e, r = Some e).
    + apply safe_writing; [apply _|eauto|]. intros fs fs' [[n Hn] _] Hc. unfold create in Hc. unfold at_path in Hn.
      by destruct (walk _ _).
    + intros r. apply safe_ret; [apply _|]. intros fs [? [e ->]]. eauto.
  - intros [u|e]; [|apply safe_ret; [apply _|]; intros fs [Hl _]; by split].
    eapply (safe_weaken eq) with (P := λ _, False) (Q := λ _ _, False); [by intros w []|naive_solver|done].
Qed.
Lemma live_reap : safe eq live (reapDeadLock root ops) (λ r fs, live fs ∧ r = Ok false).
Proof using.
  unfold reapDeadLock. cbv zeta. unfold readCanonicalOwner.
  eapply (safe_bind eq) with (Q := λ r fs, live fs ∧
    oks (λ d, ∀ t, op_process ops t (own_PID d) ≠ processDead) r).
  - eapply (safe_bind eq); [apply (safe_observe eq), sees_readPinnedRegular|]. intros [[content i]|e].
    + apply safe_ret; [apply _|]. intros fs [Hl [j Hj]]. split; [done|]. cbn [fst] in *.
      destruct (canonical_owner content) as [d|] eqn:Hd; [|done]. cbn [oks]. intros t. by eapply (proj2 Hl).
    + apply safe_ret; [apply _|]. by intros fs [].
  - intros [d|e]; [|apply safe_ret; [apply _|]; naive_solver].
    eapply (safe_weaken eq) with (P := λ fs, (∀ t, op_process ops t (own_PID d) ≠ processDead) ∧ live fs)
      (Q := λ r fs, live fs ∧ r = Ok false); [|intros fs []; done|done].
    apply safe_pure. intros Halive. eapply (safe_bind eq) with (Q := λ b fs, live fs ∧ b = false).
    + intros w Hw. split; [done|]. intros b [= <-]. split; [done|]. destruct (op_hostname _ _); [|done].
      rewrite (bool_decide_eq_false_2 (_ = processDead)) by done. by rewrite andb_false_r.
    + intros []; [|apply safe_ret; [apply _|]; naive_solver].
      eapply (safe_weaken eq) with (P := λ _, False) (Q := λ _ _, False); [by intros w []|naive_solver|done].
Qed.

(** A lock that may still be held is never taken: while there is a lock whose
    recorded owner, if any, is not known to be dead, acquiring it leaves the tree
    as it is and returns no token, whatever calls fail. *)
Theorem held_lock_excludes (w : world FS) (Hlive : lock_live root ops (w_app w)) :
  w_app (acquireLockWithWait root ops w).2 = w_app w ∧
  ∀ token, (acquireLockWithWait root ops w).1 ≠ Returned (Ok token).
Proof using.
  assert (safe eq live (acquireLockWithWait root ops) (λ r fs, ∀ token, r ≠ Ok token)) as H.
  { unfold acquireLockWithWait.
    eapply (safe_bind eq); [apply (safe_rest live), frames_Now; apply _|]. intros now.
    generalize true at 1. generalize lock_fuel. intros fuel. induction fuel as [|fuel IH]; intros first;
      cbn [acquire_attempts]; [intros v Hv; by split|].
    eapply (safe_bind eq) with (Q := λ _, live); [destruct first; apply safe_rest; frame_tac|].
    intros []; [by apply safe_ret; [apply _|]|].
    eapply (safe_bind eq); [apply live_acquireOnce|]. intros [token|e]; [apply safe_ret; [apply _|]; intros fs [_ H]; by destruct (H token)|].
    eapply (safe_weaken eq) with (P := live) (Q := λ r _, ∀ token, r ≠ Ok token); [|by intros fs []|done].
    destruct (errors_is e ErrExist); [|by apply safe_ret; [apply _|]]. cbn [negb]. unfold rbind.
    eapply (safe_bind eq); [apply live_reap|]. intros [reaped|]; [|apply safe_ret; [apply _|]; naive_solver].
    eapply (safe_bind eq) with (Q := λ _, live); [|intros; apply IH].
    eapply (safe_weaken eq); [apply (safe_rest live); unfold sleep; frame_tac|by intros fs []|done]. }
  destruct (H w Hlive) as [Heq Hr]. split; [done|]. intros token Ht. by eapply Hr.
Qed.
End lock.
