(* ===== verification/CertExamples.v ===== *)
(** * Development certificates: runs

    A toy X.509 that satisfies the laws the theorems rely on, and concrete runs of
    the publication: a first publication, a rotation, a crash at every point of a
    publication followed by a second attempt, and the state in which a forced
    publication can no longer be completed. *)

From stdpp Require Import base gmap strings list fin_maps.
From Stdlib Require Import ZArith Lia Ascii.
From S2P Require Import Prelude GoStrings GoErrors GoJson GoJsonPrint GoOS GoFS CertMaterial CertStore CertPublish CertRecover CertFrame CertSafety CertJournal.
Set Default Goal Selector "!".

(** ** A toy X.509 *)

#[export] Instance Name_eq_dec : EqDecision Name.
Proof. solve_decision. Defined.
#[export] Instance Certificate_eq_dec : EqDecision Certificate.
Proof. solve_decision. Defined.

Module CertExamples.

Definition toy_raw_name (n : Name) : string := "n:" +:+ n_CommonName n.
Definition toy_key : string := "k".

(** The certificates by the letter of their kind and their start. *)
Definition toy_cert (kind : ascii) (start : Z) : option Certificate :=
  let leaf := Z.lor KeyUsageDigitalSignature KeyUsageKeyEncipherment in
  let name cn := mkName cn 0 0 0 0 0 0 0 "" 1 0 in
  let cert ca subject usage isCA ext dns ips :=
    mkCertificate (name subject) ("n:" +:+ ca) ("n:" +:+ subject) start (start + validity) usage isCA isCA ext 0 dns ips [] [] toy_key in
  let root ca := cert ca ca (Z.lor KeyUsageCertSign KeyUsageDigitalSignature) true [] [] [] in
  let server ca dns := cert ca "localhost" leaf false [ExtKeyUsageServerAuth] ["localhost"; dns] [IPv4_loopback; IPv6_loopback] in
  let client ca := cert ca "dev-hook-pool" leaf false [ExtKeyUsageClientAuth] [] [] in
  let target := "agent-fitness-functions-dev-ca" in
  let before := "calm-poc-dev-ca" in
  if Ascii.eqb kind "a" then Some (root target)
  else if Ascii.eqb kind "b" then Some (server target "agent-fitness-functions")
  else if Ascii.eqb kind "c" then Some (client target)
  else if Ascii.eqb kind "x" then Some (root before)
  else if Ascii.eqb kind "y" then Some (server before "stack-fitness-functions")
  else if Ascii.eqb kind "z" then Some (client before)
  else None.
Definition toy_parse (der : string) : option Certificate :=
  match der with
  | String kind rest => toy_cert kind (digits_val (bytes rest))
  | EmptyString => None
  end.
Definition toy_issue (template parent : Certificate) (pub : string) : Certificate :=
  let subject c := if String.eqb (c_RawSubject c) "" then toy_raw_name (c_Subject c) else c_RawSubject c in
  mkCertificate (parsed_name (c_Subject template)) (subject parent) (subject template)
    (c_NotBefore template) (c_NotAfter template) (c_KeyUsage template)
    (c_BasicConstraintsValid template) (c_IsCA template) (c_ExtKeyUsage template) 0
    (c_DNSNames template) (c_IPAddresses template) (c_EmailAddresses template) (c_URIs template) pub.

#[export] Instance toy_x509 : X509 := {|
  GenerateKey _ := Ok toy_key;
  rand_Int t := Ok (Z.of_nat t + 1)%Z;
  public_key k := k;
  MarshalPKCS1PrivateKey k := k;
  ParsePKCS1PrivateKey k := Some k;
  CreateCertificate _ template parent pub _ :=
    let cert := toy_issue template parent pub in
    let made := filter (λ der, toy_parse der = Some cert)
                  ((λ kind, String kind (itoa (c_NotBefore template))) <$> ["a"; "b"; "c"; "x"; "y"; "z"]%char) in
    match made with der :: _ => Ok der | [] => Err (ErrNew "unsupported") end;
  ParseCertificate := toy_parse;
  CheckSignatureFrom _ _ := true;
  pem_encode type bytes := (if String.eqb type "CERTIFICATE" then "C" else "K") +:+ bytes;
  pem_decode s :=
    match s with
    | String a bytes => if Ascii.eqb a "C" then Some ("CERTIFICATE", bytes, "")
                        else if Ascii.eqb a "K" then Some ("RSA PRIVATE KEY", bytes, "") else None
    | EmptyString => None
    end;
  raw_name := toy_raw_name;
|}.

#[export] Instance toy_laws : X509Laws toy_x509.
Proof.
  split.
  - intros type bytes [->|[->|[]%elem_of_nil]%elem_of_cons]%elem_of_cons; done.
  - done.
  - done.
  - cbn [CreateCertificate ParseCertificate toy_x509]. intros serial template parent pub signer der H _.
    destruct (filter _ _) as [|der' l] eqn:Hf; [done|]. injection H as <-.
    assert (der' ∈ der' :: l) as Hin by by left. rewrite <-Hf in Hin. by apply list_elem_of_filter in Hin as [? _].
  - done.
Qed.

#[export] Instance toy_tools : TextTools := {|
  format_utc z := itoa z;
  parses_utc _ := true;
  sha256_hex s := of_bytes (replicate 64 (if (Nat.even (String.length s)) then "a" else "b")%char);
|}.

(** Material that is made is recognized; the laws can hold. *)
Lemma generateMaterialAt_recognized_witness :
  (∃ files, generateMaterialAt 7 (1700000000 * second) = Ok files) ∧
  ∀ files, generateMaterialAt 7 (1700000000 * second) = Ok files →
  (λ f, (spec_name f, spec_mode f)) <$> files = managedFiles ∧
  classifyMaterial files (1700000000 * second) = (identityTarget, true).
Proof.
  split; [eexists; vm_compute; reflexivity|]. intros files H.
  exact (generateMaterialAt_recognized 7 (1700000000 * second) files (1700000000 * second) H).
Defined.

(** ** Runs *)

(** No faults; ten milliseconds a step. *)
Definition clock_os (start : Z) : OSEnv := {|
  os_now t := (start + Z.of_nat t * 10000000)%Z;
  os_fault _ _ _ := None;
  os_written _ := 0%nat;
  os_temp_name _ _ _ := "";
  os_select _ := true;
|}.
Definition never : Crash := λ _, false.
Definition crash_at (n : nat) : Crash := λ t, Nat.eqb t n.
Definition hex_id (n : nat) : string :=
  let d := itoa (Z.of_nat n) in of_bytes (replicate (32 - String.length d) "0"%char) +:+ d.
(** A process that finds every other process dead. *)
Definition ops_of (pid : Z) : publicationOperations := {|
  op_nextID t := Ok (hex_id t);
  op_checkpoint _ _ := None;
  op_hostname _ := Ok "host";
  op_pid := pid;
  op_process _ p := if (p =? pid)%Z then processLive else processDead;
|}.

Definition root : path := ["home"; "certs"].
Definition day : Z := (1700000000 * second)%Z.
Definition empty_world : world FS := mkWorld (mkFS (NDir 0 493 {["home" := NDir 1 493 ∅]}) 2) ∅ ∅ 0.
Definition run (now : Z) (k : Crash) (pid : Z) (force : bool) (w : world FS) : outcome (result goerror unit) * world FS :=
  publishWithOperations (E := clock_os now) (I := alone) (K := k) root force (ops_of pid) w.
Definition first_run : outcome (result goerror unit) * world FS := run day never 1 false empty_world.

Lemma first_run_ok : first_run.1 = Returned (Ok tt).
Proof. vm_compute. reflexivity. Qed.
Lemma pair_eq {A B} (p : A * B) a : p.1 = a → p = (a, p.2).
Proof. by destruct p; intros <-. Qed.

(** Publishing into an empty root succeeds, and what it leaves is published. *)
Lemma publication_success_witness :
  publishWithOperations (E := clock_os day) (K := never) root false (ops_of 1) empty_world
    = (Returned (Ok tt), first_run.2) ∧ published root (w_app first_run.2).
Proof.
  assert (publishWithOperations (E := clock_os day) (K := never) root false (ops_of 1) empty_world
    = (Returned (Ok tt), first_run.2)) as H by (exact (pair_eq first_run _ first_run_ok)).
  split; [exact H|]. exact (publication_success (E := clock_os day) (K := never) root false (ops_of 1) empty_world first_run.2 H).
Defined.

(** A journal in the middle of its life is read back. *)
Definition some_journal : journalDocument :=
  mkJournal 1 (hex_id 142) ("versions/.candidate-" +:+ hex_id 142) ("versions/v-" +:+ hex_id 142)
    (Some ("versions/v-" +:+ hex_id 7)) "current_published"
    (Some (digestDirectState [mkFileSpec "ca.crt" 420 "x"])).
Lemma journal_roundtrip_witness :
  decodeJournal (canonicalJSON (json_journal some_journal)) = Ok some_journal.
Proof.
  apply (journal_roundtrip some_journal); [vm_compute; reflexivity|]. intros p [= <-]. vm_compute. reflexivity.
Defined.

(** The lock of a live process is respected. *)
Definition locked_world : world FS :=
  mkWorld (mkFS (NDir 0 493 {["home" := NDir 1 493 {["certs" := NDir 2 493 {[lockName := NDir 3 448
    {["owner.json" := NFile 4 384 (canonicalJSON (json_owner (mkOwner 1 "host" 9 (hex_id 3) "t")))]}]}]}]}) 5) ∅ ∅ 0.
Definition cautious : publicationOperations := mkOperations (λ t, Ok (hex_id t)) (λ _ _, None) (λ _, Ok "host") 1 (λ _ _, processLive).
Lemma held_lock_excludes_witness :
  w_app (acquireLockWithWait (E := clock_os day) (K := never) root cautious locked_world).2 = w_app locked_world ∧
  ∀ token, (acquireLockWithWait (E := clock_os day) (K := never) root cautious locked_world).1 ≠ Returned (Ok token).
Proof.
  apply (held_lock_excludes (E := clock_os day) (K := never) root cautious locked_world). split.
  - vm_compute. eexists. reflexivity.
  - intros j content d t _ _. discriminate.
Defined.

(** *** Crashes *)

Definition is_ok (o : outcome (result goerror unit)) : bool := match o with Returned (Ok _) => true | _ => false end.
Definition second_run (n : nat) : outcome (result goerror unit) * world FS :=
  run day never 2 false (run day (crash_at n) 1 false empty_world).2.

(** A process that dies between two steps of the transaction (the candidate
    renamed, the journal replaced, [current] switched, the journal removed) leaves
    a root that the next attempt completes. *)
Lemma crash_recovers : forallb (λ n, is_ok (second_run n).1) [100; 320; 345; 380; 430; 490; 519; 530; 570; 650; 715]%nat = true.
Proof. vm_compute. reflexivity. Qed.

(** *** Forced publication beside [current] *)

Definition with_stray (w : world FS) : world FS :=
  set_app (mkFS (put (root ++ ["ca.crt"]) (Some (NFile 99 420 "stray")) (fs_tree (w_app w))) 100) w.
Definition without_stray (w : world FS) : world FS :=
  set_app (mkFS (put (root ++ ["ca.crt"]) None (fs_tree (w_app w))) (fs_next (w_app w))) w.
Definition forced : outcome (result goerror unit) * world FS := run day never 2 true (with_stray first_run.2).
Definition conflict : outcome (result goerror unit) := Returned (Err (ErrNew "version_ready current conflicts")).

(** A root that is partial although it has a [current] link (here: a stray managed
    file beside a published version) is accepted for a forced publication with no
    predecessor recorded; the switch then refuses, and the journal stays at
    [version_ready].  From then on every attempt fails, forced or not, even after
    the stray file is gone. *)
Lemma forced_partial_wedges :
  forced.1 = Returned (Err ErrUnsupportedForBootstrap) ∧
  (run day never 3 true forced.2).1 = conflict ∧
  (run day never 4 false (without_stray forced.2)).1 = conflict ∧
  (run day never 5 true (without_stray forced.2)).1 = conflict.
Proof. split_and!; vm_compute; reflexivity. Qed.
End CertExamples.
