(* ===== verification/CertManaged.v ===== *)
(** * Development certificates: the managed version

    [internal/devcerts/managed.go]: how the daemon and the client find the version
    [current] names, fingerprint its five files, and load their side of the
    material.  Key pairs and chain verification are those of packages [crypto/tls]
    and [crypto/x509] (class [TLS]); the file operations are the defaults, whose
    failures and interleavings are those of [GoFS]. *)

From stdpp Require Import base gmap strings list fin_maps.
From Stdlib Require Import ZArith Lia Ascii.
From S2P Require Import Prelude GoStrings GoErrors GoJson GoOS GoFS CertMaterial CertStore.
Set Default Goal Selector "!".

(** ** Package [crypto/tls] *)

(** [tls.Certificate]: the DER texts of the chain, the private key and the leaf. *)
Record tls_Certificate := mkTlsCertificate {
  tc_Certificate : list string;
  tc_PrivateKey : string;
  tc_Leaf : option Certificate;
}.

(** [x509.VerifyOptions] as they are used here; a zero time means now. *)
Record VerifyOptions := mkVerifyOptions {
  vo_Roots : list Certificate;
  vo_DNSName : string;
  vo_KeyUsages : list Z;
}.

Class TLS := {
  X509KeyPair : string → string → result goerror tls_Certificate;
  Verify : VerifyOptions → Z → Certificate → bool;
  (* an [*rsa.PublicKey] with a positive modulus *)
  rsa_positive : string → bool;
}.

(** ** Data *)

Record ManagedPaths := mkManagedPaths {
  mp_CA : path;
  mp_ClientCertificate : path;
  mp_ClientKey : path;
  mp_ServerCertificate : path;
  mp_ServerKey : path;
}.

(** A certificate pool is the list of its certificates. *)
Record ClientMaterial := mkClientMaterial {
  cm_Certificate : tls_Certificate;
  cm_RootCAs : list Certificate;
}.
Record ServerMaterial := mkServerMaterial {
  sm_Certificate : tls_Certificate;
  sm_ClientCAs : list Certificate;
  sm_CA : string;
}.

Record managedVersionState := mkVersionState {
  mv_relativePath : string;
  mv_paths : ManagedPaths;
  mv_versionDirectory : FileInfo;
  mv_files : gmap path FileInfo;
}.
(** [ManagedVersion]: the zero value has no state. *)
Definition ManagedVersion : Type := option managedVersionState.

Definition RelativePath (v : ManagedVersion) : string :=
  match v with None => "" | Some state => mv_relativePath state end.
Definition Paths (v : ManagedVersion) : ManagedPaths :=
  match v with None => mkManagedPaths [] [] [] [] [] | Some state => mv_paths state end.

(** [^versions/v-[0-9a-f]{32}$]. *)
Definition validManagedTarget (target : string) : bool :=
  has_prefix target "versions/v-" && hex128Pattern (str_drop 11 target).

(** ** Identities *)

Definition exactCertificateLifetime (cert : Certificate) (now : Z) : bool :=
  (c_NotAfter cert - c_NotBefore cert =? validity)%Z && negb (now <? c_NotBefore cert)%Z && (now <? c_NotAfter cert)%Z.

(** The checks of the authority, shared by both identities. *)
Definition valid_authority {X : X509} (ca : Certificate) (now : Z) : bool :=
  negb (negb (exactCertificateLifetime ca now) || negb (exactCommonName (c_Subject ca) "agent-fitness-functions-dev-ca")
        || negb (c_IsCA ca) || negb (c_BasicConstraintsValid ca)
        || negb (c_KeyUsage ca =? Z.lor KeyUsageCertSign KeyUsageDigitalSignature)%Z
        || negb (empty_list (c_ExtKeyUsage ca)) || negb (Nat.eqb (c_UnknownExtKeyUsage ca) 0) || hasNames ca)
  && CheckSignatureFrom ca ca.

Definition leaf_usage : Z := Z.lor KeyUsageDigitalSignature KeyUsageKeyEncipherment.

Definition validManagedClientIdentity {X : X509} {T : TLS} (ca client : Certificate) (now : Z) : bool :=
  if negb (valid_authority ca now) then false
  else if negb (exactCertificateLifetime client now) || negb (exactCommonName (c_Subject client) "dev-hook-pool")
          || c_IsCA client || negb (c_KeyUsage client =? leaf_usage)%Z
          || negb (equalExtUsage (c_ExtKeyUsage client) [ExtKeyUsageClientAuth])
          || negb (Nat.eqb (c_UnknownExtKeyUsage client) 0) || hasNames client
  then false
  else rsa_positive (c_PublicKey client).

Definition validManagedServerIdentity {X : X509} {T : TLS} (ca server : Certificate) (now : Z) : bool :=
  if negb (valid_authority ca now) then false
  else if negb (exactCertificateLifetime server now) || negb (exactCommonName (c_Subject server) "localhost")
          || c_IsCA server || negb (c_KeyUsage server =? leaf_usage)%Z
          || negb (equalExtUsage (c_ExtKeyUsage server) [ExtKeyUsageServerAuth])
          || negb (Nat.eqb (c_UnknownExtKeyUsage server) 0)
          || negb (equalStrings (c_DNSNames server) ["localhost"; "agent-fitness-functions"])
          || negb (equalIPs (c_IPAddresses server) [IPv4_loopback; IPv6_loopback])
          || negb (empty_list (c_EmailAddresses server)) || negb (empty_list (c_URIs server))
  then false
  else rsa_positive (c_PublicKey server).

(** [parseOneCertificate]. *)
Definition parseOneCertificate {X : X509} (content : string) : option Certificate :=
  match pem_decode content with
  | Some (type, bytes, rest) =>
      if negb (String.eqb type "CERTIFICATE") || negb (String.eqb rest "") then None else ParseCertificate bytes
  | None => None
  end.

Section managed.
Context {E : OSEnv} {I : Interference FS} {K : Crash} {X : X509} {T : TLS}.
Abbreviation FM := (M FS).

(** ** Resolution *)

Definition mode_ok (good : FileInfo → bool) (mode : Z) (i : FileInfo) : bool := good i && (fi_perm i =? mode)%Z.

(** Observe, open, and check that the open file is the one observed. *)
Definition pin (good : FileInfo → bool) (p : path) (mode : Z) : FM (result goerror FileInfo) :=
  let! observed := Lstat p in
  match observed with
  | Err _ => refuse
  | Ok observed =>
      if negb (mode_ok good mode observed) || IsSymlink observed then refuse
      else
        let! file := Open p in
        match file with
        | Err _ => refuse
        | Ok file =>
            let! pinned := File_Stat file in
            let! closed := File_Close file in
            match pinned, closed with
            | Ok pinned, None =>
                if negb (mode_ok good mode pinned) || negb (SameFile observed pinned) then refuse
                else ret (Ok observed)
            | _, _ => refuse
            end
        end
  end.
Definition pinManagedDirectory : path → Z → FM (result goerror FileInfo) := pin IsDir.
Definition fingerprintManagedFile : path → Z → FM (result goerror FileInfo) := pin IsRegular.

Definition validateManagedEntries (versionRoot : path) : FM (result goerror unit) :=
  let! directory := Open versionRoot in
  match directory with
  | Err _ => fails (ErrNew "open managed certificate version directory")
  | Ok directory =>
      let! entries := File_ReadDir directory in
      let! closed := File_Close directory in
      match entries, closed with
      | Ok names, None =>
          if negb (equalStrings (sort_strings names) want_names)
          then fails (ErrNew "managed certificate version must contain exactly five material files")
          else done
      | _, _ => fails (ErrNew "read managed certificate version directory")
      end
  end.

Fixpoint fingerprint_files (versionRoot : path) (specs : list (string * Z)) (files : gmap path FileInfo) :
  FM (result goerror (gmap path FileInfo)) :=
  match specs with
  | [] => ret (Ok files)
  | spec :: specs' =>
      let p := versionRoot ++ [spec.1] in
      try! info := wrapping ("fingerprint managed certificate file " +:+ spec.1 +:+ ": ")
                     (fingerprintManagedFile p spec.2) in
      fingerprint_files versionRoot specs' (<[p := info]> files)
  end.

Definition ResolveManagedVersion (root : path) : FM (result goerror ManagedVersion) :=
  try! _ := saying "invalid managed certificate root" (pinManagedDirectory root mode_dir) in
  try! _ := saying "invalid managed certificate versions directory"
              (pinManagedDirectory (root ++ ["versions"]) mode_dir) in
  let current := root ++ ["current"] in
  let! currentInfo := Lstat current in
  if negb (match currentInfo with Ok info => IsSymlink info | Err _ => false end)
  then fails (ErrNew "invalid managed certificate current link")
  else
    let! target := Readlink current in
    match target with
    | Err _ => fails (ErrNew "invalid managed certificate current target")
    | Ok target =>
        if negb (validManagedTarget target) then fails (ErrNew "invalid managed certificate current target")
        else
          let versionRoot := under root target in
          try! versionDirectory := saying "invalid managed certificate version directory"
                                     (pinManagedDirectory versionRoot mode_dir) in
          let paths := mkManagedPaths (versionRoot ++ ["ca.crt"]) (versionRoot ++ ["client.crt"])
                         (versionRoot ++ ["client.key"]) (versionRoot ++ ["server.crt"])
                         (versionRoot ++ ["server.key"]) in
          try! _ := validateManagedEntries versionRoot in
          try! files := fingerprint_files versionRoot managedFiles ∅ in
          let! revalidated := pinManagedDirectory versionRoot mode_dir in
          if negb (match revalidated with Ok again => SameFile versionDirectory again | Err _ => false end)
          then fails (ErrNew "managed certificate version changed during resolution")
          else ret (Ok (Some (mkVersionState target paths versionDirectory files)))
    end.

(** ** Loading *)

Definition revalidateManagedDirectory (versionRoot : path) (state : managedVersionState) : FM (result goerror unit) :=
  let! directory := pinManagedDirectory versionRoot mode_dir in
  if negb (match directory with Ok again => SameFile (mv_versionDirectory state) again | Err _ => false end)
  then fails (ErrNew "managed certificate version directory changed")
  else done.

(** [closeManagedFile] joins the error of the close to the cause. *)
Definition closeManagedFile {A} (file : handle) (cause : goerror) : FM (result goerror A) :=
  let! closed := File_Close file in
  fails (default cause (errors_join [Some cause; closed])).

Definition readFingerprintedManagedFile (p : path) (mode : Z) (state : managedVersionState) : FM (result goerror string) :=
  let! observed := Lstat p in
  match observed, mv_files state !! p with
  | Ok observed, Some want =>
      if negb (mode_ok IsRegular mode observed) || IsSymlink observed || negb (SameFile want observed) then refuse
      else
        let! file := Open p in
        match file with
        | Err _ => refuse
        | Ok file =>
            let! pinned := File_Stat file in
            if negb (match pinned with Ok i => mode_ok IsRegular mode i && SameFile want i | Err _ => false end)
            then closeManagedFile file ErrUnsupportedForBootstrap
            else
              let! content := ReadAll file in
              match content with
              | Err _ => closeManagedFile file ErrUnsupportedForBootstrap
              | Ok content =>
                  let! reobserved := Lstat p in
                  if negb (match reobserved with Ok i => SameFile want i | Err _ => false end)
                  then closeManagedFile file ErrUnsupportedForBootstrap
                  else
                    let! repinned := File_Stat file in
                    if negb (match repinned with Ok i => SameFile want i | Err _ => false end)
                    then closeManagedFile file ErrUnsupportedForBootstrap
                    else
                      let! closed := File_Close file in
                      match closed with Some _ => refuse | None => ret (Ok content) end
              end
        end
  | _, _ => refuse
  end.

(** The three files of one side, read between two checks of the directory. *)
Definition read_side (state : managedVersionState) (side : string) (certificate key : path) :
  FM (result goerror (string * string * string)) :=
  let versionRoot := removelast (mp_CA (mv_paths state)) in
  try! _ := revalidateManagedDirectory versionRoot state in
  try! caPEM := wrapping "load managed CA certificate: "
                  (readFingerprintedManagedFile (mp_CA (mv_paths state)) mode_public state) in
  try! certPEM := wrapping ("load managed " +:+ side +:+ " certificate: ")
                    (readFingerprintedManagedFile certificate mode_public state) in
  try! keyPEM := wrapping ("load managed " +:+ side +:+ " key: ")
                   (readFingerprintedManagedFile key mode_private state) in
  try! _ := revalidateManagedDirectory versionRoot state in
  ret (Ok (caPEM, certPEM, keyPEM)).

Definition with_leaf (leaf : Certificate) (keypair : tls_Certificate) : tls_Certificate :=
  mkTlsCertificate (tc_Certificate keypair) (tc_PrivateKey keypair) (Some leaf).

Definition LoadManagedClient (version : ManagedVersion) : FM (result goerror ClientMaterial) :=
  match version with
  | None => fails (ErrNew "invalid managed certificate version")
  | Some state =>
      try! read := read_side state "client" (mp_ClientCertificate (mv_paths state)) (mp_ClientKey (mv_paths state)) in
      let '(caPEM, certPEM, keyPEM) := read in
      match parseOneCertificate caPEM with
      | None => fails (ErrNew "parse managed CA certificate")
      | Some ca =>
          match X509KeyPair certPEM keyPEM with
          | Err _ => fails (ErrNew "parse managed client certificate and key")
          | Ok keypair =>
              match tc_Certificate keypair with
              | [der] =>
                  match ParseCertificate der with
                  | None => fails (ErrNew "parse managed client leaf certificate")
                  | Some leaf =>
                      let! now := Now in
                      if negb (validManagedClientIdentity ca leaf now)
                      then fails (ErrNew "managed client certificate identity mismatch")
                      else
                        let! verifiedAt := Now in
                        if negb (Verify (mkVerifyOptions [ca] "" [ExtKeyUsageClientAuth]) verifiedAt leaf)
                        then fails (ErrNew "verify managed client certificate")
                        else ret (Ok (mkClientMaterial (with_leaf leaf keypair) [ca]))
                  end
              | _ => fails (ErrNew "managed client certificate must contain exactly one certificate")
              end
          end
      end
  end.

Definition LoadManagedServer (version : ManagedVersion) : FM (result goerror ServerMaterial) :=
  match version with
  | None => fails (ErrNew "invalid managed certificate version")
  | Some state =>
      try! read := read_side state "server" (mp_ServerCertificate (mv_paths state)) (mp_ServerKey (mv_paths state)) in
      let '(caPEM, certPEM, keyPEM) := read in
      match parseOneCertificate caPEM with
      | None => fails (ErrNew "parse managed CA certificate")
      | Some ca =>
          match X509KeyPair certPEM keyPEM with
          | Ok (mkTlsCertificate [der] _ _ as keypair) =>
              match ParseCertificate der with
              | None => fails (ErrNew "managed server certificate identity mismatch")
              | Some leaf =>
                  let! now := Now in
                  if negb (validManagedServerIdentity ca leaf now)
                  then fails (ErrNew "managed server certificate identity mismatch")
                  else
                    let! verifiedAt := Now in
                    if negb (Verify (mkVerifyOptions [ca] "localhost" [ExtKeyUsageServerAuth]) verifiedAt leaf)
                    then fails (ErrNew "verify managed server certificate")
                    else ret (Ok (mkServerMaterial (with_leaf leaf keypair) [ca] caPEM))
              end
          | _ => fails (ErrNew "parse managed server certificate and key")
          end
      end
  end.
End managed.
