(* ===== verification/CertManagedProofs.v ===== *)
(** * Development certificates: what is published can be loaded

    Two results on [CertManaged].  Under any faults and any interference that
    never rewrites a file in place, the two sides loaded from one resolved version
    belong together.  Without faults and interference, a version that publication
    leaves behind is resolved and both sides are loaded from it. *)

From stdpp Require Import base gmap strings sorting list fin_maps.
From Stdlib Require Import ZArith Lia Ascii.
From S2P Require Import Prelude GoStrings GoErrors GoJson HooksText GoOS GoFS CertMaterial CertStore CertFrame CertSafety CertManaged.
Set Default Goal Selector "!".

(** ** Packages [crypto/tls] and [crypto/x509] *)

(** No unhandled critical extension and no name constraint. *)
Class Extensions := plain : Certificate → bool.

(** The documented behaviour: [X509KeyPair] accepts a certificate with the key it
    was made for and nothing else, a PKCS #1 key is an RSA key, and [Verify] builds a chain to a root that
    signed the leaf. *)
Class TLSLaws (X : X509) (T : TLS) (P : Extensions) : Prop := {
  keypair_loads certPEM keyPEM der cert :
    pem_decode certPEM = Some ("CERTIFICATE", der, "") → ParseCertificate der = Some cert →
    keyBytesMatch keyPEM cert = true →
    ∃ key leaf, X509KeyPair certPEM keyPEM = Ok (mkTlsCertificate [der] key leaf);
  keypair_matches certPEM keyPEM der ders key leaf cert :
    X509KeyPair certPEM keyPEM = Ok (mkTlsCertificate (der :: ders) key leaf) → ParseCertificate der = Some cert →
    public_key key = c_PublicKey cert;
  verify_issued opts now ca leaf :
    vo_Roots opts = [ca] → c_IsCA ca = true → c_BasicConstraintsValid ca = true →
    Z.testbit (c_KeyUsage ca) 5 = true → c_ExtKeyUsage ca = [] → c_UnknownExtKeyUsage ca = 0%nat →
    certificateFresh ca now = true → certificateFresh leaf now = true →
    c_RawIssuer leaf = c_RawSubject ca → CheckSignatureFrom leaf ca = true →
    plain ca = true → plain leaf = true →
    (∃ usage, usage ∈ vo_KeyUsages opts ∧ usage ∈ c_ExtKeyUsage leaf) →
    vo_DNSName opts = "" ∨ vo_DNSName opts ∈ c_DNSNames leaf →
    Verify opts now leaf = true;
  verify_signed opts now leaf :
    Verify opts now leaf = true →
    leaf ∈ vo_Roots opts ∨ ∃ ca, ca ∈ vo_Roots opts ∧ CheckSignatureFrom leaf ca = true;
  pkcs1_keys_rsa der key : ParsePKCS1PrivateKey der = Some key → rsa_positive (public_key key) = true;
}.

(** ** Facts of values under interference *)

(** [m] keeps the invariant [P] of the tree, and what it returns satisfies [Q]. *)
Definition produces {A} (P : FS → Prop) (m : M FS A) (Q : A → Prop) : Prop :=
  ∀ w, P (w_app w) → P (w_app (m w).2) ∧ ∀ a, (m w).1 = Returned a → Q a.

Section produces.
Context {E : OSEnv} {I : Interference FS} {K : Crash} (P : FS → Prop) {HP : KeptByOthers I P}.

Lemma produces_ret {A} (a : A) (Q : A → Prop) : Q a → produces P (ret a) Q.
Proof using. intros HQ w Hw. split; [done|]. by intros ? [= <-]. Qed.
Lemma produces_bind {A B} (m : M FS A) (k : A → M FS B) Q Q' :
  produces P m Q → (∀ a, Q a → produces P (k a) Q') → produces P (bind m k) Q'.
Proof using.
  intros Hm Hk w Hw. destruct (Hm w Hw) as [H1 H2]. unfold bind.
  destruct (m w) as [[a|p|] w']; cbn [fst snd] in *; [by apply Hk; [apply H2|]|by split..].
Qed.
Lemma produces_weaken {A} (m : M FS A) (Q Q' : A → Prop) : produces P m Q → (∀ a, Q a → Q' a) → produces P m Q'.
Proof using. intros Hm HQ w Hw. destruct (Hm w Hw) as [H1 H2]. eauto. Qed.
Lemma produces_try {A B} (m : M FS (result goerror A)) (k : A → M FS (result goerror B)) Q Q' :
  produces P m (oks Q) → (∀ a, Q a → produces P (k a) (oks Q')) → produces P (rbind m k) (oks Q').
Proof using.
  intros Hm Hk. unfold rbind. eapply produces_bind; [exact Hm|]. intros [a|e] Ha; [by apply Hk|by apply produces_ret].
Qed.
Lemma produces_reported {A} f (m : M FS (result goerror A)) Q : produces P m (oks Q) → produces P (reported f m) (oks Q).
Proof using. intros Hm. eapply produces_bind; [exact Hm|]. intros [a|e] Ha; by apply produces_ret. Qed.
Lemma produces_fails {A} e (Q : A → Prop) : produces P (fails e) (oks Q).
Proof using. by apply produces_ret. Qed.

Lemma produces_reading {A} op p (look : FS → result goerror A) (Q : A → Prop) :
  (∀ fs a, P fs → look fs = Ok a → Q a) → produces P (reading op p look) (oks Q).
Proof using HP.
  intros Hlook w Hw. unfold reading, sys. destruct (fs_crash _); [by split|].
  pose proof (kept_by_others (w_clock w) _ Hw) as Hi.
  destruct (os_fault _ _ _) as [e|]; cbn; (split; [done|]); intros a [= <-]; [done|].
  destruct (look _) eqn:Hl; cbn [oks]; [by eapply Hlook|done].
Qed.
Lemma produces_Close h : produces P (File_Close h) (λ _, True).
Proof using HP.
  intros w Hw. unfold File_Close, writing, sys. destruct (fs_crash _); [by split|].
  pose proof (kept_by_others (w_clock w) _ Hw) as Hi. by destruct (os_fault _ _ _); cbn.
Qed.
Lemma produces_Now : produces P Now (λ now, ∃ t, now = os_now t).
Proof using. intros w Hw. split; [done|]. intros a [= <-]. eauto. Qed.
Lemma produces_any {A} op p (look : FS → result goerror A) : produces P (reading op p look) (oks (λ _, True)).
Proof using HP. by apply produces_reading. Qed.
End produces.

(** ** The two sides of one version belong together *)

(** Every file of the tree has the content its inode stands for: files are
    replaced, never rewritten in place. *)
Definition history (content : nat → string) (fs : FS) : Prop :=
  ∀ p i m c, at_path p fs = Some (NFile i m c) → c = content i.

Section together.
Context {E : OSEnv} {I : Interference FS} {K : Crash} {X : X509} {T : TLS} {Ext : Extensions} {TL : TLSLaws X T Ext}.
Context (content : nat → string) {HI : KeptByOthers I (history content)}.
Abbreviation gives m Q := (produces (history content) m (oks Q)).

Lemma gives_Open p : gives (Open p) (λ h, IsRegular (h_info h) = true → h_content h = content (fi_ino (h_info h))).
Proof using HI.
  apply (produces_reading (history content)). intros fs h Hh H. destruct (resolve _ _ _) as [n|] eqn:Hn; [|done].
  apply resolve_look in Hn. destruct n; [|done|]; injection H as <-; [|done]. intros _. by eapply Hh.
Qed.
Lemma gives_Stat h : gives (File_Stat h) (λ i, i = h_info h).
Proof using HI. apply (produces_reading (history content)). congruence. Qed.
Lemma gives_ReadAll h : gives (ReadAll h) (λ c, c = h_content h).
Proof using HI. apply (produces_reading (history content)). congruence. Qed.

Lemma gives_pin good p mode : gives (pin good p mode) (λ _, True).
Proof using HI.
  unfold pin. eapply produces_bind; [apply (produces_any (history content))|]. intros [i|] _; [|apply produces_fails].
  destruct (negb _ || _); [apply produces_fails|].
  eapply produces_bind; [apply (produces_any (history content))|]. intros [h|] _; [|apply produces_fails].
  eapply produces_bind; [apply (produces_any (history content))|]. intros s _. eapply produces_bind; [apply (produces_Close (history content))|]. intros c _.
  destruct s, c; try apply produces_fails. destruct (negb _ || _); [apply produces_fails|by apply produces_ret].
Qed.
Lemma gives_revalidate p state : gives (revalidateManagedDirectory p state) (λ _, True).
Proof using HI.
  unfold revalidateManagedDirectory. eapply produces_bind; [apply gives_pin|]. intros r _.
  destruct (negb _); [apply produces_fails|by apply produces_ret].
Qed.
Lemma gives_closing {A} h e (Q : A → Prop) : gives (closeManagedFile (A := A) h e) Q.
Proof using HI. eapply produces_bind; [apply (produces_Close (history content))|]. intros c _. apply produces_fails. Qed.

(** A fingerprinted file is read from the inode that was fingerprinted. *)
Lemma gives_readFingerprinted p mode state :
  gives (readFingerprintedManagedFile p mode state)
    (λ c, ∃ want, mv_files state !! p = Some want ∧ c = content (fi_ino want)).
Proof using HI.
  unfold readFingerprintedManagedFile. eapply produces_bind; [apply (produces_any (history content))|]. intros [i|] _; [|apply produces_fails].
  destruct (mv_files state !! p) as [want|]; [|apply produces_fails].
  destruct (negb _ || _ || _); [apply produces_fails|].
  eapply produces_bind; [apply gives_Open|]. intros [h|] Hh; [|apply produces_fails]. cbn [oks] in Hh.
  eapply produces_bind; [apply gives_Stat|]. intros [s|] Hs; [|apply gives_closing]. cbn [oks] in Hs. subst s.
  destruct (mode_ok IsRegular mode (h_info h) && SameFile want (h_info h)) eqn:Hok; [|apply gives_closing]. cbn [negb].
  apply andb_true_iff in Hok as [[Hr _]%andb_true_iff Hsame%Nat.eqb_eq].
  eapply produces_bind; [apply gives_ReadAll|]. intros [c|] Hc; [|apply gives_closing]. cbn [oks] in Hc. subst c.
  eapply produces_bind; [apply (produces_any (history content))|]. intros r _. destruct (negb _); [apply gives_closing|].
  eapply produces_bind; [apply (produces_any (history content))|]. intros r' _. destruct (negb _); [apply gives_closing|].
  eapply produces_bind; [apply (produces_Close (history content))|]. intros [e|] _; [apply produces_fails|]. apply produces_ret.
  exists want. split; [done|]. rewrite Hh by done. by rewrite Hsame.
Qed.

(** What the inode fingerprinted for a file stands for. *)
Definition fingerprinted (state : managedVersionState) (p : path) : string :=
  match mv_files state !! p with Some want => content (fi_ino want) | None => "" end.

Lemma gives_read_side state side certificate key :
  gives (read_side state side certificate key) (λ r,
    r = (fingerprinted state (mp_CA (mv_paths state)), fingerprinted state certificate, fingerprinted state key)).
Proof using HI.
  unfold read_side. cbv zeta. eapply produces_try; [apply gives_revalidate|]. intros _ _.
  do 3 (eapply produces_try; [apply produces_reported, gives_readFingerprinted|]; intros ? (? & ? & ?)).
  eapply produces_try; [apply gives_revalidate|]. intros _ _. apply produces_ret. cbn [oks]. unfold fingerprinted.
  by simplify_option_eq.
Qed.

(** What one side of the material is: a leaf for its use that the authority
    signed, with its key, both valid at some moment of the load. *)
Definition genuine (commonName : string) (usage : Z) (ca : Certificate) (keypair : tls_Certificate) : Prop :=
  n_CommonName (c_Subject ca) = "agent-fitness-functions-dev-ca" ∧ c_IsCA ca = true ∧
  ∃ leaf t, tc_Leaf keypair = Some leaf ∧ n_CommonName (c_Subject leaf) = commonName ∧
    c_ExtKeyUsage leaf = [usage] ∧ CheckSignatureFrom leaf ca = true ∧
    public_key (tc_PrivateKey keypair) = c_PublicKey leaf ∧
    certificateFresh ca (os_now t) = true ∧ certificateFresh leaf (os_now t) = true.

Lemma lifetime_fresh cert now : exactCertificateLifetime cert now = true → certificateFresh cert now = true.
Proof using. unfold exactCertificateLifetime, certificateFresh. by destruct (_ =? _)%Z; cbn. Qed.

Lemma verified_signed ca leaf opts now :
  vo_Roots opts = [ca] → Verify opts now leaf = true → c_IsCA ca = true → c_IsCA leaf = false →
  CheckSignatureFrom leaf ca = true.
Proof using TL.
  intros Hr Hv Hca Hleaf. destruct (verify_signed _ _ _ Hv) as [H|(ca' & H & Hs)]; rewrite Hr in H;
    apply list_elem_of_singleton in H; subst; [congruence|done].
Qed.

(** A keypair of one certificate that passed the checks of its side. *)
Lemma checked_genuine commonName usage ca leaf opts t t' certPEM keyPEM der key l :
  X509KeyPair certPEM keyPEM = Ok (mkTlsCertificate [der] key l) → ParseCertificate der = Some leaf →
  valid_authority ca (os_now t) = true → exactCertificateLifetime leaf (os_now t) = true →
  exactCommonName (c_Subject leaf) commonName = true → c_IsCA leaf = false →
  equalExtUsage (c_ExtKeyUsage leaf) [usage] = true →
  vo_Roots opts = [ca] → Verify opts (os_now t') leaf = true →
  genuine commonName usage ca (with_leaf leaf (mkTlsCertificate [der] key l)).
Proof using TL.
  intros Hpair Hder Hca Hlife Hcn Hleaf Hext Hroots Hv.
  apply andb_true_iff in Hca as [Hca _]. rewrite !negb_orb, !negb_involutive, !andb_true_iff in Hca.
  destruct Hca as [[[[[[[Hca1 Hca2] Hca3] _] _] _] _] _].
  unfold exactCommonName in Hcn, Hca2. rewrite !andb_true_iff in Hcn, Hca2.
  split; [apply String.eqb_eq; tauto|]. split; [done|]. exists leaf, t.
  split; [done|]. split; [apply String.eqb_eq; tauto|]. split; [by apply bool_decide_eq_true in Hext|].
  split; [by eapply verified_signed|]. split; [by eapply keypair_matches|].
  split; by apply lifetime_fresh.
Qed.

Lemma gives_LoadManagedClient state :
  gives (LoadManagedClient (Some state)) (λ client, ∃ ca, cm_RootCAs client = [ca] ∧
    parseOneCertificate (fingerprinted state (mp_CA (mv_paths state))) = Some ca ∧
    genuine "dev-hook-pool" ExtKeyUsageClientAuth ca (cm_Certificate client)).
Proof using HI TL.
  unfold LoadManagedClient. eapply produces_try; [apply gives_read_side|]. intros ? ->.
  destruct (parseOneCertificate _) as [ca|]; [|apply produces_fails].
  destruct (X509KeyPair _ _) as [[ders key l]|] eqn:Hpair; [|apply produces_fails]. cbn [tc_Certificate].
  destruct ders as [|der [|]]; [apply produces_fails| |apply produces_fails].
  destruct (ParseCertificate der) as [leaf|] eqn:Hder; [|apply produces_fails].
  eapply produces_bind; [apply produces_Now|]. intros ? [t ->].
  destruct (validManagedClientIdentity ca leaf (os_now t)) eqn:Hid; [|apply produces_fails]. cbn [negb].
  eapply produces_bind; [apply produces_Now|]. intros ? [t' ->].
  destruct (Verify _ _ _) eqn:Hv; [|apply produces_fails]. cbn [negb]. apply produces_ret. cbn [oks].
  unfold validManagedClientIdentity in Hid. destruct (valid_authority ca (os_now t)) eqn:Hca; [|done]. cbn [negb] in Hid.
  destruct (_ || hasNames leaf) eqn:Hleaf; [done|].
  rewrite !orb_false_iff, !negb_false_iff in Hleaf. destruct Hleaf as [[[[[[H1 H2] H3] _] H5] _] _].
  exists ca. split; [done|]. split; [done|]. by eapply (checked_genuine _ _ _ _ (mkVerifyOptions [ca] _ _)).
Qed.

Lemma gives_LoadManagedServer state :
  gives (LoadManagedServer (Some state)) (λ server, ∃ ca, sm_ClientCAs server = [ca] ∧
    parseOneCertificate (fingerprinted state (mp_CA (mv_paths state))) = Some ca ∧
    genuine "localhost" ExtKeyUsageServerAuth ca (sm_Certificate server)).
Proof using HI TL.
  unfold LoadManagedServer. eapply produces_try; [apply gives_read_side|]. intros ? ->.
  destruct (parseOneCertificate _) as [ca|]; [|apply produces_fails].
  destruct (X509KeyPair _ _) as [[ders key l]|] eqn:Hpair; [|apply produces_fails].
  destruct ders as [|der [|]]; [apply produces_fails| |apply produces_fails].
  destruct (ParseCertificate der) as [leaf|] eqn:Hder; [|apply produces_fails].
  eapply produces_bind; [apply produces_Now|]. intros ? [t ->].
  destruct (validManagedServerIdentity ca leaf (os_now t)) eqn:Hid; [|apply produces_fails]. cbn [negb].
  eapply produces_bind; [apply produces_Now|]. intros ? [t' ->].
  destruct (Verify _ _ _) eqn:Hv; [|apply produces_fails]. cbn [negb]. apply produces_ret. cbn [oks].
  unfold validManagedServerIdentity in Hid. destruct (valid_authority ca (os_now t)) eqn:Hca; [|done]. cbn [negb] in Hid.
  destruct (_ || negb (empty_list (c_URIs leaf))) eqn:Hleaf; [done|].
  rewrite !orb_false_iff, !negb_false_iff in Hleaf. destruct Hleaf as [[[[[[[[[H1 H2] H3] _] H5] _] _] _] _] _].
  exists ca. split; [done|]. split; [done|]. by eapply (checked_genuine _ _ _ _ (mkVerifyOptions [ca] _ _)).
Qed.
End together.

(** C8: the client and the daemon load from one resolved version what belongs
    together.  They may run as two processes, with any faults, and beside other
    processes that replace files but never rewrite one in place: if both loads
    succeed, the authority the client trusts is the one the daemon trusts, the
    client holds a client certificate and the daemon a server certificate that
    this authority signed, each with its key and valid at a moment of its load. *)
Theorem managed_sides_agree {X : X509} {T : TLS} {Ext : Extensions} {TL : TLSLaws X T Ext}
    (content : nat → string) (state : managedVersionState)
    (E1 E2 : OSEnv) (I1 I2 : Interference FS) (K1 K2 : Crash)
    (H1 : KeptByOthers I1 (history content)) (H2 : KeptByOthers I2 (history content))
    (w1 w2 : world FS) (Hw1 : history content (w_app w1)) (Hw2 : history content (w_app w2))
    (client : ClientMaterial) (server : ServerMaterial)
    (Hclient : (LoadManagedClient (E := E1) (I := I1) (K := K1) (Some state) w1).1 = Returned (Ok client))
    (Hserver : (LoadManagedServer (E := E2) (I := I2) (K := K2) (Some state) w2).1 = Returned (Ok server)) :
  ∃ ca, cm_RootCAs client = [ca] ∧ sm_ClientCAs server = [ca] ∧
    genuine (E := E1) "dev-hook-pool" ExtKeyUsageClientAuth ca (cm_Certificate client) ∧
    genuine (E := E2) "localhost" ExtKeyUsageServerAuth ca (sm_Certificate server).
Proof.
  destruct (proj2 (gives_LoadManagedClient (E := E1) (I := I1) (K := K1) content state w1 Hw1) _ Hclient) as (ca & Hr & Hp & Hg).
  destruct (proj2 (gives_LoadManagedServer (E := E2) (I := I2) (K := K2) content state w2 Hw2) _ Hserver) as (ca' & Hr' & Hp' & Hg').
  rewrite Hp in Hp'. injection Hp' as <-. eauto 6.
Qed.

(** ** What is published is loaded *)

(** No faults, no other process, no crash. *)
Class Quiet (E : OSEnv) (I : Interference FS) (K : Crash) : Prop := {
  quiet_fault t op p : os_fault t op p = None;
  quiet_others t fs : interfere t fs = fs;
  quiet_crash t : fs_crash t = false;
}.

(** From the tree [fs], [m] returns a value with [Q] and leaves the tree. *)
Definition runs {A} (m : M FS A) (fs : FS) (Q : A → Prop) : Prop :=
  ∀ w, w_app w = fs → ∃ a w', m w = (Returned a, w') ∧ w_app w' = fs ∧ Q a.

Section quiet.
Context {E : OSEnv} {I : Interference FS} {K : Crash} {HQ : Quiet E I K} (fs : FS).

Lemma runs_ret {A} (a : A) (Q : A → Prop) : Q a → runs (ret a) fs Q.
Proof using. intros HQa w Hw. exists a, w. done. Qed.
Lemma runs_bind {A B} (m : M FS A) (k : A → M FS B) Q Q' :
  runs m fs Q → (∀ a, Q a → runs (k a) fs Q') → runs (bind m k) fs Q'.
Proof using.
  intros Hm Hk w Hw. destruct (Hm w Hw) as (a & w' & Hr & Hw' & Ha). unfold bind. rewrite Hr. by apply Hk.
Qed.
(** A step with one possible value. *)
Lemma runs_step {A B} (m : M FS A) (k : A → M FS B) a Q : runs m fs (eq a) → runs (k a) fs Q → runs (bind m k) fs Q.
Proof using. intros Hm Hk. eapply runs_bind; [exact Hm|]. by intros ? <-. Qed.
Lemma runs_try {A B} (m : M FS (result goerror A)) (k : A → M FS (result goerror B)) a Q :
  runs m fs (eq (Ok a)) → runs (k a) fs Q → runs (rbind m k) fs Q.
Proof using. intros Hm Hk. by eapply runs_step. Qed.
Lemma runs_reported {A} f (m : M FS (result goerror A)) a : runs m fs (eq (Ok a)) → runs (reported f m) fs (eq (Ok a)).
Proof using. intros Hm. eapply runs_step; [exact Hm|]. by apply runs_ret. Qed.

Lemma runs_reading {A} op p (look : FS → result goerror A) : runs (reading op p look) fs (eq (look fs)).
Proof using HQ.
  intros w Hw. unfold reading, sys. rewrite quiet_crash, quiet_fault. unfold access. rewrite quiet_others, Hw.
  eexists _, _. split; [reflexivity|]. done.
Qed.
Lemma runs_Close h : runs (File_Close h) fs (eq None).
Proof using HQ.
  intros w Hw. unfold File_Close, writing, sys. rewrite quiet_crash, quiet_fault. unfold access. rewrite quiet_others, Hw.
  eexists _, _. split; [reflexivity|]. done.
Qed.
Lemma runs_Now : runs Now fs (λ now, ∃ t, now = os_now t).
Proof using. intros w Hw. eexists _, _. split; [reflexivity|]. split; [done|]. eauto. Qed.

Lemma resolve_at op p n : at_path p fs = Some n → resolve op p fs = Ok n.
Proof using. unfold at_path, resolve. by destruct (walk p _) as [x| |]; intros [= ->]. Qed.
Lemma runs_Lstat p n : at_path p fs = Some n → runs (Lstat p) fs (eq (Ok (info_of n))).
Proof using HQ.
  intros Hn. unfold Lstat. pose proof (runs_reading "lstat" p (λ fs, let? n := resolve "lstat" p fs in Ok (info_of n))) as H.
  cbn beta in H. rewrite (resolve_at _ _ _ Hn) in H. exact H.
Qed.
Lemma runs_Readlink p i t : at_path p fs = Some (NLink i t) → runs (Readlink p) fs (eq (Ok t)).
Proof using HQ.
  intros Hn. unfold Readlink. pose proof (runs_reading "readlink" p (λ fs, let? n := resolve "readlink" p fs in
    match n with NLink _ target => Ok target | _ => Err (wrong_kind "readlink" p) end)) as H.
  cbn beta in H. rewrite (resolve_at _ _ _ Hn) in H. exact H.
Qed.
(** The handle of an object that is not a link. *)
Definition opened (p : path) (n : node) : handle :=
  mkHandle p (info_of n) (match n with NFile _ _ content => content | _ => "" end).
Lemma runs_Open p n : at_path p fs = Some n → IsSymlink (info_of n) = false → runs (Open p) fs (eq (Ok (opened p n))).
Proof using HQ.
  intros Hn Hl. unfold Open. pose proof (runs_reading "open" p (λ fs, let? n := resolve "open" p fs in
    match n with
    | NFile _ _ content => Ok (mkHandle p (info_of n) content)
    | NDir _ _ _ => Ok (mkHandle p (info_of n) "")
    | NLink _ _ => Err (wrong_kind "open" p)
    end)) as H. cbn beta in H. rewrite (resolve_at _ _ _ Hn) in H. by destruct n.
Qed.
Lemma runs_ReadDir p n : at_path p fs = Some n → IsDir (info_of n) = true →
  runs (File_ReadDir (opened p n)) fs (eq (Ok (entry_names n))).
Proof using HQ.
  intros Hn Hd. unfold File_ReadDir. cbn [h_path opened].
  pose proof (runs_reading "readdirent" p (λ fs, let? n := resolve "readdirent" p fs in
    match n with NDir _ _ _ => Ok (entry_names n) | _ => Err (wrong_kind "readdirent" p) end)) as H.
  cbn beta in H. rewrite (resolve_at _ _ _ Hn) in H. by destruct n.
Qed.

Lemma runs_pin good p mode n :
  at_path p fs = Some n → mode_ok good mode (info_of n) = true → IsSymlink (info_of n) = false →
  runs (pin good p mode) fs (eq (Ok (info_of n))).
Proof using HQ.
  intros Hn Hok Hl. unfold pin. eapply runs_step; [by apply runs_Lstat|]. cbv beta iota. rewrite Hok, Hl. cbn [negb orb].
  eapply runs_step; [by apply runs_Open|]. cbv beta iota.
  eapply runs_step; [apply (runs_reading "stat" p (λ _, Ok (info_of n)))|].
  eapply runs_step; [apply runs_Close|]. cbv beta iota. rewrite Hok. unfold SameFile. rewrite Nat.eqb_refl.
  by apply runs_ret.
Qed.
Lemma runs_pin_dir p i es : at_path p fs = Some (NDir i mode_dir es) →
  runs (pinManagedDirectory p mode_dir) fs (eq (Ok (mkInfo KDir mode_dir i))).
Proof using HQ. intros H. by apply (runs_pin IsDir p mode_dir _ H). Qed.
Lemma runs_fingerprint p mode i c : at_path p fs = Some (NFile i mode c) →
  runs (fingerprintManagedFile p mode) fs (eq (Ok (mkInfo KFile mode i))).
Proof using HQ.
  intros H. apply (runs_pin IsRegular p mode _ H); [|done]. unfold mode_ok. cbn [fi_perm info_of]. by rewrite Z.eqb_refl.
Qed.
Lemma runs_revalidate p i es state : at_path p fs = Some (NDir i mode_dir es) →
  mv_versionDirectory state = mkInfo KDir mode_dir i → runs (revalidateManagedDirectory p state) fs (eq (Ok tt)).
Proof using HQ.
  intros H Hv. unfold revalidateManagedDirectory. eapply runs_step; [by eapply runs_pin_dir|]. cbv beta iota.
  rewrite Hv. unfold SameFile. rewrite Nat.eqb_refl. by apply runs_ret.
Qed.
Lemma runs_readFingerprinted p mode i c state :
  at_path p fs = Some (NFile i mode c) → mv_files state !! p = Some (mkInfo KFile mode i) →
  runs (readFingerprintedManagedFile p mode state) fs (eq (Ok c)).
Proof using HQ.
  intros H Hf. unfold readFingerprintedManagedFile. eapply runs_step; [by apply runs_Lstat|]. cbv beta iota. rewrite Hf.
  unfold mode_ok, SameFile. cbn [fi_perm fi_ino fi_kind info_of]. rewrite Z.eqb_refl, Nat.eqb_refl. cbn [negb orb andb].
  eapply runs_step; [by eapply runs_Open|]. cbv beta iota.
  eapply runs_step; [apply (runs_reading "stat" p (λ _, Ok (mkInfo KFile mode i)))|]. cbv beta iota.
  cbn [fi_perm fi_ino fi_kind]. rewrite Z.eqb_refl, Nat.eqb_refl. cbn [negb orb andb].
  eapply runs_step; [apply (runs_reading "read" p (λ _, Ok c))|]. cbv beta iota.
  eapply runs_step; [by apply runs_Lstat|]. cbv beta iota. cbn [fi_ino info_of]. rewrite Nat.eqb_refl. cbn [negb].
  eapply runs_step; [apply (runs_reading "stat" p (λ _, Ok (mkInfo KFile mode i)))|]. cbv beta iota.
  cbn [fi_ino]. rewrite Nat.eqb_refl. cbn [negb].
  eapply runs_step; [apply runs_Close|]. by apply runs_ret.
Qed.
End quiet.

(** *** The version on disk *)

#[local] Instance string_leb_anti : AntiSymm (=) (λ x y, string_leb x y = true).
Proof. intros x y. apply string_leb_antisym. Qed.
Lemma sorted_names_unique (l k : list string) : l ≡ₚ k → sort_strings l = sort_strings k.
Proof.
  intros H. apply (StronglySorted_unique (λ x y, string_leb x y = true)).
  - apply (stable_sort_sorted id string_leb string_leb_total string_leb_trans).
  - apply (stable_sort_sorted id string_leb string_leb_total string_leb_trans).
  - by rewrite !sort_strings_perm.
Qed.

Lemma managed_file_some es spec f : managed_file es spec = Some f →
  ∃ j, es !! spec.1 = Some (NFile j spec.2 (spec_data f)) ∧ spec_name f = spec.1.
Proof.
  unfold managed_file. destruct (es !! spec.1) as [[j m c| |]|]; try done.
  destruct (Z.eqb_spec m spec.2) as [->|]; [|done]. intros [= <-]. eauto.
Qed.

(** Exactly the five files, each with its mode and content. *)
Lemma holds_files p files fs : holds p files fs → ∃ i es,
  at_path p fs = Some (NDir i mode_dir es) ∧ entry_names (NDir i mode_dir es) = want_names ∧
  Forall (λ spec, ∃ j, at_path (p ++ [spec.1]) fs = Some (NFile j spec.2 (content_of files spec.1))) managedFiles.
Proof.
  intros (n & Hn & Hlen & Hm). destruct n as [| |i m es]; try done. cbn [material_of] in Hm.
  destruct (Z.eqb_spec m mode_dir) as [->|]; [|done]. exists i, es. split; [done|].
  apply mapM_Some in Hm. unfold managedFiles in Hm |- *.
  repeat match goal with
  | H : Forall2 _ (_ :: _) _ |- _ => apply Forall2_cons_inv_l in H as (? & ? & (? & ? & ?)%managed_file_some & H & ->)
  end. apply Forall2_nil_inv_l in Hm as ->. cbn [fst snd] in *. split.
  - cbn [entry_names] in *. transitivity (sort_strings want_names); [|reflexivity]. apply sorted_names_unique.
    symmetry. apply submseteq_length_Permutation; [|].
    + apply NoDup_submseteq; [by apply (bool_decide_unpack _); vm_compute|]. intros name Hx. apply elem_of_elements, elem_of_dom.
      unfold want_names in Hx. repeat (apply elem_of_cons in Hx as [->|Hx]; [eexists; eassumption|]). by apply elem_of_nil in Hx.
    + pose proof (Permutation_length (sort_strings_perm (elements (dom es)))) as Hl. rewrite <-Hl, Hlen. cbn. lia.
  - repeat (constructor; [rewrite (at_entry _ _ _ _ _ _ Hn); eexists; cbn [fst snd];
      unfold content_of; cbn [foldl]; repeat match goal with H : spec_name _ = _ |- _ => rewrite H end; eassumption|]).
    constructor.
Qed.

(** *** Target material passes the checks of both sides *)

Section material.
Context {X : X509} {T : TLS} {Ext : Extensions} {TL : TLSLaws X T Ext}.

Lemma parse_one content : parseOneCertificate content = parseCertificateBytes content.
Proof using.
  unfold parseOneCertificate, parseCertificateBytes. destruct (pem_decode content) as [[[type der] rest]|]; [|done].
  by destruct (String.eqb type _), (String.eqb rest _).
Qed.
Lemma parse_inv content cert : parseCertificateBytes content = Some cert →
  ∃ der, pem_decode content = Some ("CERTIFICATE", der, "") ∧ ParseCertificate der = Some cert.
Proof using.
  unfold parseCertificateBytes. destruct (pem_decode content) as [[[type der] rest]|]; [|done].
  destruct (String.eqb_spec type "CERTIFICATE") as [->|], (String.eqb_spec rest "") as [->|]; eauto; done.
Qed.
Lemma key_rsa content cert : keyBytesMatch content cert = true → rsa_positive (c_PublicKey cert) = true.
Proof using TL.
  unfold keyBytesMatch. destruct (pem_decode content) as [[[type der] rest]|]; [|done]. destruct (_ && _); [|done].
  destruct (ParsePKCS1PrivateKey der) as [key|] eqn:Hkey; [|done]. intros <-%String.eqb_eq. by eapply pkcs1_keys_rsa.
Qed.

(** The certificates of the material and what is known of them. *)
Record target_certs (files : list fileSpec) (ca server client : Certificate) : Prop := mkTargetCerts {
  tg_ca : parseCertificateBytes (content_of files "ca.crt") = Some ca;
  tg_server : parseCertificateBytes (content_of files "server.crt") = Some server;
  tg_client : parseCertificateBytes (content_of files "client.crt") = Some client;
  tg_serverKey : keyBytesMatch (content_of files "server.key") server = true;
  tg_clientKey : keyBytesMatch (content_of files "client.key") client = true;
  tg_self : CheckSignatureFrom ca ca = true;
  tg_serverSig : CheckSignatureFrom server ca = true;
  tg_clientSig : CheckSignatureFrom client ca = true;
  tg_serverIssuer : c_RawIssuer server = c_RawSubject ca;
  tg_clientIssuer : c_RawIssuer client = c_RawSubject ca;
  tg_profiles : exactProfilesForIdentity ca server client "agent-fitness-functions-dev-ca" "agent-fitness-functions" = true;
}.
Lemma classified_target files : (classifyMaterial files 0).1 = identityTarget →
  ∃ ca server client, target_certs files ca server client ∧
    ∀ now, (classifyMaterial files now).2 = certificateFresh ca now && certificateFresh server now && certificateFresh client now.
Proof using.
  unfold classifyMaterial. destruct (parseCertificateBytes _) as [ca|] eqn:H1; [|done].
  destruct (parseCertificateBytes (content_of files "server.crt")) as [server|] eqn:H2; [|done].
  destruct (parseCertificateBytes (content_of files "client.crt")) as [client|] eqn:H3; [|done].
  destruct (negb (keyBytesMatch _ _) || _) eqn:Hk; [done|].
  destruct (negb (CheckSignatureFrom ca ca) || _ || _ || _ || _) eqn:Hs; [done|].
  rewrite !orb_false_iff, !negb_false_iff in Hk. rewrite !orb_false_iff, !negb_false_iff, !String.eqb_eq in Hs.
  cbv zeta. cbn [fst snd]. destruct (exactProfilesForIdentity _ _ _ "agent-fitness-functions-dev-ca" _) eqn:Hp; [|by case_match].
  destruct Hk as [? ?], Hs as [[[[? ?] ?] ?] ?]. intros _. exists ca, server, client. split; [by split|done].
Qed.

Context (files : list fileSpec) (ca server client : Certificate) (Htg : target_certs files ca server client).
Context (now : Z) (Hfresh : certificateFresh ca now && certificateFresh server now && certificateFresh client now = true).

Lemma profile_facts :
  valid_authority ca now = true ∧
  validManagedClientIdentity ca client now = true ∧ validManagedServerIdentity ca server now = true ∧
  c_IsCA ca = true ∧ c_BasicConstraintsValid ca = true ∧ Z.testbit (c_KeyUsage ca) 5 = true ∧
  c_ExtKeyUsage ca = [] ∧ c_UnknownExtKeyUsage ca = 0%nat ∧ c_ExtKeyUsage client = [ExtKeyUsageClientAuth] ∧
  c_ExtKeyUsage server = [ExtKeyUsageServerAuth] ∧ "localhost" ∈ c_DNSNames server.
Proof using Htg Hfresh TL.
  destruct Htg as [_ _ _ Hsk%key_rsa Hck%key_rsa Hself _ _ _ _ Hp].
  unfold exactProfilesForIdentity in Hp. rewrite !andb_true_iff, !negb_true_iff in Hp.
  destruct Hp as [[[[[Pca Psrv] Pcli] [[[[[[Ca1 Ca2] Ca3] Ca4] Ca5] Ca6] Ca7]] [[[[[[[[S1 S2] S3] S4] S5] S6] S7] S8] S9]] [[[[[C1 C2] C3] C4] C5] C6]].
  unfold certificateFresh in Hfresh. rewrite !andb_true_iff in Hfresh. destruct Hfresh as [[[Fa1 Fa2] [Fs1 Fs2]] [Fc1 Fc2]].
  assert (valid_authority ca now = true) as Hca.
  { unfold valid_authority, exactCertificateLifetime. by rewrite Pca, Fa1, Fa2, Ca1, Ca2, Ca3, Ca4, Ca5, Ca6, Ca7, Hself. }
  split; [done|]. split.
  { unfold validManagedClientIdentity, exactCertificateLifetime, leaf_usage.
    by rewrite Hca, Pcli, Fc1, Fc2, C1, C2, C3, C4, C5, C6, Hck. }
  split.
  { unfold validManagedServerIdentity, exactCertificateLifetime, leaf_usage.
    by rewrite Hca, Psrv, Fs1, Fs2, S1, S2, S3, S4, S5, S6, S7, S8, S9, Hsk. }
  apply Z.eqb_eq in Ca4. apply bool_decide_eq_true in C4, S4, S6. apply Nat.eqb_eq in Ca6.
  rewrite Ca4, C4, S4, S6. split_and!; try done; [by destruct (c_ExtKeyUsage ca)|by left].
Qed.
End material.

(** *** Resolution and the loads *)

Lemma managed_target t : validManagedTarget t = true → ∃ tx, hex128Pattern tx = true ∧ t = "versions/" +:+ ("v-" +:+ tx).
Proof.
  intros [[q ->]%has_prefix_spec Hx]%andb_true_iff. exists q. split; [|done].
  by rewrite <-(str_drop_app "versions/v-" q).
Qed.
Lemma under_target root t : validManagedTarget t = true → under root t = version_dir root t.
Proof.
  intros (tx & Hx & ->)%managed_target. destruct (hex_element tx Hx) as [He _]. unfold version_dir.
  by rewrite under_version, base_version.
Qed.

Section loads.
Context {E : OSEnv} {I : Interference FS} {K : Crash} {HQ : Quiet E I K}.
Context {X : X509} {T : TLS} {Ext : Extensions} {TL : TLSLaws X T Ext} (fs : FS) (files : list fileSpec).

Definition file_at (p : path) (spec : string * Z) (j : nat) : Prop :=
  at_path (p ++ [spec.1]) fs = Some (NFile j spec.2 (content_of files spec.1)).

(** The state describes the version at [p]. *)
Record resolved (p : path) (state : managedVersionState) : Prop := mkResolved {
  re_paths : mv_paths state = mkManagedPaths (p ++ ["ca.crt"]) (p ++ ["client.crt"]) (p ++ ["client.key"])
               (p ++ ["server.crt"]) (p ++ ["server.key"]);
  re_directory : ∃ i es, at_path p fs = Some (NDir i mode_dir es) ∧ mv_versionDirectory state = mkInfo KDir mode_dir i;
  re_files spec : spec ∈ managedFiles → ∃ j, file_at p spec j ∧ mv_files state !! (p ++ [spec.1]) = Some (mkInfo KFile spec.2 j);
}.

Lemma runs_fingerprint_files p specs m :
  NoDup specs.*1 → Forall (λ spec, ∃ j, file_at p spec j) specs →
  runs (fingerprint_files p specs m) fs (λ r, ∃ m', r = Ok m' ∧
    (∀ q, (∀ name, name ∈ specs.*1 → q ≠ p ++ [name]) → m' !! q = m !! q) ∧
    ∀ spec, spec ∈ specs → ∃ j, file_at p spec j ∧ m' !! (p ++ [spec.1]) = Some (mkInfo KFile spec.2 j)).
Proof using HQ.
  revert m. induction specs as [|spec specs IH]; intros m Hnd Hspecs; cbn [fingerprint_files].
  { apply runs_ret. exists m. split; [done|]. split; [done|]. by intros spec Hin%elem_of_nil. }
  apply Forall_cons in Hspecs as [[j Hj] Hspecs]. cbn [fmap list_fmap] in Hnd. apply NoDup_cons in Hnd as [Hnew Hnd]. cbv zeta.
  eapply runs_try; [by eapply runs_reported, runs_fingerprint|].
  intros w Hw. destruct (IH (<[p ++ [spec.1] := mkInfo KFile spec.2 j]> m) Hnd Hspecs w Hw) as (r & w' & Hr & Hw' & m' & -> & Hold & Hnew').
  exists (Ok m'), w'. split; [done|]. split; [done|]. exists m'. split; [done|]. split.
  - intros q Hq. rewrite Hold; [|intros name Hin; apply Hq; by right].
    rewrite lookup_insert_ne; [done|]. intros Heq. apply (Hq spec.1); [by left|done].
  - intros spec' [->|Hin]%elem_of_cons; [|by apply Hnew']. exists j. split; [done|].
    rewrite Hold; [by rewrite lookup_insert_eq|]. intros name Hname Heq. apply app_inj_2 in Heq as [_ [= Heq]]; [|done].
    by rewrite Heq in Hnew.
Qed.

Lemma runs_Resolve root t i i1 es1 i2 es2 :
  at_path root fs = Some (NDir i1 mode_dir es1) → at_path (root ++ ["versions"]) fs = Some (NDir i2 mode_dir es2) →
  at_path (root ++ ["current"]) fs = Some (NLink i t) → validManagedTarget t = true →
  holds (version_dir root t) files fs →
  runs (ResolveManagedVersion root) fs (λ r, ∃ state, r = Ok (Some state) ∧ mv_relativePath state = t ∧
    resolved (version_dir root t) state).
Proof using HQ.
  intros H1 H2 Hc Ht (j & es & Hv & Hnames & Hspecs)%holds_files. unfold ResolveManagedVersion.
  eapply runs_try; [by eapply runs_reported, runs_pin_dir|]. eapply runs_try; [by eapply runs_reported, runs_pin_dir|]. cbv zeta.
  eapply runs_step; [by eapply runs_Lstat|]. cbn [IsSymlink info_of fi_kind negb bool_decide].
  eapply runs_step; [by eapply runs_Readlink|]. cbv beta iota. rewrite Ht. cbn [negb]. rewrite under_target by done.
  eapply runs_try; [by eapply runs_reported, runs_pin_dir|].
  eapply runs_try with (a := tt).
  { unfold validateManagedEntries. eapply runs_step; [by eapply runs_Open|]. cbv beta iota.
    eapply runs_step; [by eapply runs_ReadDir|]. eapply runs_step; [apply runs_Close|]. cbv beta iota.
    rewrite Hnames. by apply runs_ret. }
  eapply runs_bind; [apply runs_fingerprint_files; [by apply (bool_decide_unpack _); vm_compute|exact Hspecs]|].
  intros r (m & -> & _ & Hm). cbv beta iota. eapply runs_step; [by eapply runs_pin_dir|]. cbv beta iota.
  unfold SameFile. rewrite Nat.eqb_refl. cbn [negb]. apply runs_ret. eexists. split; [reflexivity|]. split; [done|].
  split; [done| |done]. eauto.
Qed.

Lemma runs_read_side p state side name key : resolved p state →
  (name, mode_public) ∈ managedFiles → (key, mode_private) ∈ managedFiles →
  runs (read_side state side (p ++ [name]) (p ++ [key])) fs
    (eq (Ok (content_of files "ca.crt", content_of files name, content_of files key))).
Proof using HQ.
  intros [Hp (i & es & Hdir & Hi) Hf] Hname Hkey. unfold read_side. rewrite Hp. cbn [mp_CA]. rewrite removelast_last.
  destruct (Hf ("ca.crt", mode_public) ltac:(by left)) as (j1 & Ha1 & Hm1). destruct (Hf _ Hname) as (j2 & Ha2 & Hm2).
  destruct (Hf _ Hkey) as (j3 & Ha3 & Hm3). cbv zeta.
  eapply runs_try; [by eapply runs_revalidate|].
  do 3 (eapply runs_try; [by eapply runs_reported, runs_readFingerprinted|]).
  eapply runs_try; [by eapply runs_revalidate|]. by apply runs_ret.
Qed.

Context (ca server client : Certificate) (Htg : target_certs files ca server client).
Context (Hfresh : ∀ t, certificateFresh ca (os_now t) && certificateFresh server (os_now t) && certificateFresh client (os_now t) = true).
Context (Hplain : plain ca && plain server && plain client = true).

Lemma runs_LoadClient p state : resolved p state →
  runs (LoadManagedClient (Some state)) fs (λ r, ∃ c, r = Ok c ∧ cm_RootCAs c = [ca] ∧ tc_Leaf (cm_Certificate c) = Some client).
Proof using HQ TL Htg Hfresh Hplain.
  intros Hre. unfold LoadManagedClient. rewrite (re_paths _ _ Hre). cbn [mp_ClientCertificate mp_ClientKey].
  eapply runs_try; [apply runs_read_side; [done|by repeat (left || right)..]|]. cbv beta iota.
  destruct (parse_inv _ _ (tg_client _ _ _ _ Htg)) as (der & Hpem & Hder).
  rewrite parse_one, (tg_ca _ _ _ _ Htg).
  destruct (keypair_loads _ _ _ _ Hpem Hder (tg_clientKey _ _ _ _ Htg)) as (key & leaf & ->). cbn [tc_Certificate].
  rewrite Hder. eapply runs_bind; [apply runs_Now|]. intros ? [t ->].
  destruct (profile_facts _ _ _ _ Htg _ (Hfresh t)) as (_ & -> & _ & F1 & F2 & F3 & F4 & F5 & F6 & _). cbn [negb].
  eapply runs_bind; [apply runs_Now|]. intros ? [t' ->]. pose proof (Hfresh t') as Hf. rewrite !andb_true_iff in Hf, Hplain.
  destruct Hf as [[Hf1 _] Hf3], Hplain as [[Hp1 _] Hp3].
  rewrite (verify_issued (mkVerifyOptions [ca] "" [ExtKeyUsageClientAuth]) (os_now t') ca client); try done.
  - apply runs_ret. eexists. by split.
  - apply Htg.
  - apply Htg.
  - exists ExtKeyUsageClientAuth. rewrite F6. split; by left.
  - by left.
Qed.
Lemma runs_LoadServer p state : resolved p state →
  runs (LoadManagedServer (Some state)) fs (λ r, ∃ s, r = Ok s ∧ sm_ClientCAs s = [ca] ∧
    tc_Leaf (sm_Certificate s) = Some server ∧ sm_CA s = content_of files "ca.crt").
Proof using HQ TL Htg Hfresh Hplain.
  intros Hre. unfold LoadManagedServer. rewrite (re_paths _ _ Hre). cbn [mp_ServerCertificate mp_ServerKey].
  eapply runs_try; [apply runs_read_side; [done|by repeat (left || right)..]|]. cbv beta iota.
  destruct (parse_inv _ _ (tg_server _ _ _ _ Htg)) as (der & Hpem & Hder).
  rewrite parse_one, (tg_ca _ _ _ _ Htg).
  destruct (keypair_loads _ _ _ _ Hpem Hder (tg_serverKey _ _ _ _ Htg)) as (key & leaf & ->).
  rewrite Hder. eapply runs_bind; [apply runs_Now|]. intros ? [t ->].
  destruct (profile_facts _ _ _ _ Htg _ (Hfresh t)) as (_ & _ & -> & F1 & F2 & F3 & F4 & F5 & _ & F7 & F8). cbn [negb].
  eapply runs_bind; [apply runs_Now|]. intros ? [t' ->]. pose proof (Hfresh t') as Hf. rewrite !andb_true_iff in Hf, Hplain.
  destruct Hf as [[Hf1 Hf2] _], Hplain as [[Hp1 Hp2] _].
  rewrite (verify_issued (mkVerifyOptions [ca] "localhost" [ExtKeyUsageServerAuth]) (os_now t') ca server); try done.
  - apply runs_ret. eexists. by split.
  - apply Htg.
  - apply Htg.
  - exists ExtKeyUsageServerAuth. rewrite F7. split; by left.
  - by right.
Qed.
End loads.

(** C23: what publication leaves behind can be used.  When [current] names a version
    directory with complete target material, as after a successful publication,
    under a root and a [versions] directory with their modes, and the material is
    in its period of validity, then without faults and other processes the version
    is resolved, and both the client and the daemon load their side of it: each
    gets its own leaf and trusts exactly the authority of the material. *)
Theorem managed_material_loads {E : OSEnv} {I : Interference FS} {K : Crash} {X : X509} {T : TLS} {Ext : Extensions}
    (HQ : Quiet E I K) (TL : TLSLaws X T Ext) (root : path) (w : world FS) (files : list fileSpec)
    (t : string) (i i1 i2 : nat) (es1 es2 : gmap string node)
    (Hroot : at_path root (w_app w) = Some (NDir i1 mode_dir es1))
    (Hversions : at_path (root ++ ["versions"]) (w_app w) = Some (NDir i2 mode_dir es2))
    (Hcurrent : at_path (root ++ ["current"]) (w_app w) = Some (NLink i t)) (Ht : validManagedTarget t = true)
    (Hfiles : holds (version_dir root t) files (w_app w)) (Hid : (classifyMaterial files 0).1 = identityTarget)
    (Hfresh : ∀ step, (classifyMaterial files (os_now step)).2 = true)
    (Hplain : ∀ name cert, parseOneCertificate (content_of files name) = Some cert → plain cert = true) :
  ∃ version client server w1 w2 w3,
    ResolveManagedVersion root w = (Returned (Ok version), w1) ∧ RelativePath version = t ∧
    LoadManagedClient version w1 = (Returned (Ok client), w2) ∧
    LoadManagedServer version w2 = (Returned (Ok server), w3) ∧ w_app w3 = w_app w ∧
    ∃ ca, parseOneCertificate (content_of files "ca.crt") = Some ca ∧
      cm_RootCAs client = [ca] ∧ sm_ClientCAs server = [ca] ∧ sm_CA server = content_of files "ca.crt" ∧
      tc_Leaf (cm_Certificate client) = parseOneCertificate (content_of files "client.crt") ∧
      tc_Leaf (sm_Certificate server) = parseOneCertificate (content_of files "server.crt").
Proof.
  destruct (classified_target files Hid) as (ca & server & client & Htg & Hf). setoid_rewrite Hf in Hfresh.
  assert (plain ca && plain server && plain client = true) as Hp.
  { rewrite !andb_true_iff. split_and!; [apply (Hplain "ca.crt")|apply (Hplain "server.crt")|apply (Hplain "client.crt")];
      rewrite parse_one; apply Htg. }
  destruct (runs_Resolve (w_app w) files root t i i1 es1 i2 es2 Hroot Hversions Hcurrent Ht Hfiles w eq_refl)
    as (r & w1 & Hr & Hw1 & state & -> & Hrel & Hre).
  destruct (runs_LoadClient _ _ _ _ _ Htg Hfresh Hp _ _ Hre w1 Hw1) as (r & w2 & Hc & Hw2 & c & -> & Hc1 & Hc2).
  destruct (runs_LoadServer _ _ _ _ _ Htg Hfresh Hp _ _ Hre w2 Hw2) as (r & w3 & Hs & Hw3 & s & -> & Hs1 & Hs2 & Hs3).
  exists (Some state), c, s, w1, w2, w3. split_and!; try done. exists ca. rewrite !parse_one.
  by rewrite (tg_ca _ _ _ _ Htg), (tg_client _ _ _ _ Htg), (tg_server _ _ _ _ Htg).
Qed.
