(* ===== verification/CertManagedExamples.v ===== *)
(** * Development certificates: a published version is loaded

    The toy X.509 of [CertExamples] with key pairs and chains, and the version its
    first publication leaves, resolved and loaded by both sides. *)

From stdpp Require Import base gmap strings list fin_maps.
From Stdlib Require Import ZArith Lia Ascii.
From S2P Require Import Prelude GoStrings GoErrors GoJson GoOS GoFS CertMaterial CertStore CertPublish CertFrame CertSafety CertExamples CertManaged CertManagedProofs.
Import CertExamples.
Set Default Goal Selector "!".

Module CertManagedExamples.

#[export] Instance toy_tls : TLS := {|
  X509KeyPair certPEM keyPEM :=
    match pem_decode certPEM with
    | Some (_, der, _) =>
        match ParseCertificate der with
        | Some cert => if keyBytesMatch keyPEM cert then Ok (mkTlsCertificate [der] (c_PublicKey cert) None)
                       else Err (ErrNew "mismatch")
        | None => Err (ErrNew "parse")
        end
    | None => Err (ErrNew "pem")
    end;
  Verify opts now leaf := existsb (λ ca, certificateFresh ca now && certificateFresh leaf now) (vo_Roots opts);
  rsa_positive _ := true;
|}.
#[export] Instance toy_extensions : Extensions := λ _, true.

#[export] Instance toy_tls_laws : TLSLaws toy_x509 toy_tls toy_extensions.
Proof.
  split.
  - intros certPEM keyPEM der cert Hp Hc Hk. cbn [X509KeyPair toy_tls]. rewrite Hp, Hc, Hk. eauto.
  - intros certPEM keyPEM der ders key leaf cert H Hc. cbn [X509KeyPair toy_tls] in H.
    destruct (pem_decode certPEM) as [[[? der'] ?]|]; [|done]. destruct (ParseCertificate der') eqn:Hd; [|done].
    destruct (keyBytesMatch _ _); [|done]. injection H as -> _ <- _. rewrite Hc in Hd. by injection Hd as ->.
  - intros opts now ca leaf Hr _ _ _ _ _ Hca Hleaf _ _ _ _ _ _. cbn [Verify toy_tls]. rewrite Hr. cbn [existsb].
    by rewrite Hca, Hleaf.
  - intros opts now leaf H. right. cbn [Verify toy_tls] in H. apply existsb_exists in H as (ca & Hin & _).
    exists ca. split; [by apply list_elem_of_In|done].
  - done.
Qed.

(** The first publication, and a clock that stands still on its day. *)
Definition after : world FS := first_run.2.
Definition still : OSEnv := {|
  os_now _ := day; os_fault _ _ _ := None; os_written _ := 0%nat; os_temp_name _ _ _ := ""; os_select _ := true;
|}.
#[export] Instance still_quiet : Quiet still no_interference never.
Proof. by split. Qed.

Definition target : string := Eval vm_compute in match at_path (root ++ ["current"]) (w_app after) with Some (NLink _ t) => t | _ => "" end.
Definition version_node : option node := at_path (version_dir root target) (w_app after).
Definition material : list fileSpec := Eval vm_compute in
  match version_node with Some n => default [] (material_of n) | None => [] end.

Lemma managed_material_loads_witness :
  ∃ version client server w1 w2 w3,
    ResolveManagedVersion (E := still) (I := no_interference) (K := never) root after = (Returned (Ok version), w1) ∧
    RelativePath version = target ∧
    LoadManagedClient (E := still) (I := no_interference) (K := never) version w1 = (Returned (Ok client), w2) ∧
    LoadManagedServer (E := still) (I := no_interference) (K := never) version w2 = (Returned (Ok server), w3) ∧
    w_app w3 = w_app after ∧
    ∃ ca, parseOneCertificate (content_of material "ca.crt") = Some ca ∧
      cm_RootCAs client = [ca] ∧ sm_ClientCAs server = [ca] ∧ sm_CA server = content_of material "ca.crt" ∧
      tc_Leaf (cm_Certificate client) = parseOneCertificate (content_of material "client.crt") ∧
      tc_Leaf (sm_Certificate server) = parseOneCertificate (content_of material "server.crt").
Proof.
  assert (∃ i1 es1, at_path root (w_app after) = Some (NDir i1 mode_dir es1)) as (i1 & es1 & H1)
    by (eexists _, _; vm_compute; reflexivity).
  assert (∃ i2 es2, at_path (root ++ ["versions"]) (w_app after) = Some (NDir i2 mode_dir es2)) as (i2 & es2 & H2)
    by (eexists _, _; vm_compute; reflexivity).
  assert (∃ i, at_path (root ++ ["current"]) (w_app after) = Some (NLink i target)) as (i & H3)
    by (eexists; vm_compute; reflexivity).
  assert (holds (version_dir root target) material (w_app after)) as H4.
  { unfold holds. eexists. split; [vm_compute; reflexivity|]. split; vm_compute; reflexivity. }
  assert (∀ step, (classifyMaterial material (os_now (OSEnv := still) step)).2 = true) as H5 by (intros; vm_compute; reflexivity).
  exact (managed_material_loads (E := still) (I := no_interference) (K := never) still_quiet toy_tls_laws root after material
    target i i1 i2 es1 es2 H1 H2 H3 ltac:(vm_compute; reflexivity) H4 ltac:(vm_compute; reflexivity) H5 ltac:(done)).
Defined.

(** *** A version by itself *)

(** The same material in a small tree; inode [n] stands for the text of file [n]. *)
Definition content (n : nat) : string := spec_data (nth n material (mkFileSpec "" 0 "")).
Definition files_map : gmap string node :=
  list_to_map (imap (λ n spec, (spec_name spec, NFile n (spec_mode spec) (spec_data spec))) material).
Definition alone_world : world FS := mkWorld (mkFS (NDir 90 mode_dir {["v" := NDir 91 mode_dir files_map]}) 100) ∅ ∅ 0.
Definition alone_state : managedVersionState :=
  mkVersionState target
    (mkManagedPaths ["v"; "ca.crt"] ["v"; "client.crt"] ["v"; "client.key"] ["v"; "server.crt"] ["v"; "server.key"])
    (mkInfo KDir mode_dir 91)
    (list_to_map (imap (λ n spec, (["v"; spec_name spec], mkInfo KFile (spec_mode spec) n)) material)).

Lemma alone_history : history content (w_app alone_world).
Proof.
  assert (map_Forall (λ _ n, match n with NFile i _ c => c = content i | _ => False end) files_map) as H.
  { intros x n Hx. apply elem_of_list_to_map_2 in Hx. apply elem_of_lookup_imap in Hx as (k & spec & [= -> ->] & Hk).
    unfold content. by erewrite nth_lookup_Some. }
  unfold history, at_path. intros [|x p] i m c; [done|]. cbn [walk alone_world w_app fs_tree].
  destruct (decide (x = "v")) as [->|Hx]; [|by rewrite lookup_singleton_ne].
  rewrite lookup_singleton_eq. destruct p as [|y p]; [done|]. cbn [walk].
  destruct (files_map !! y) as [n|] eqn:Hn; [|done]. pose proof (H y n Hn) as Hc. cbn beta in Hc.
  destruct n; [|done..]. destruct p; [|done]. by intros [= <- <- <-].
Qed.
#[export] Instance alone_kept : KeptByOthers no_interference (history content).
Proof. intros t s H. exact H. Qed.

(** The outcome of a load, by its value. *)
Definition loaded {A} (r : outcome (result goerror A) * world FS) (zero : A) : A :=
  match r.1 with Returned (Ok a) => a | _ => zero end.
Definition some_client : ClientMaterial :=
  loaded (LoadManagedClient (E := still) (I := no_interference) (K := never) (Some alone_state) alone_world)
    (mkClientMaterial (mkTlsCertificate [] "" None) []).
Definition some_server : ServerMaterial :=
  loaded (LoadManagedServer (E := clock_os day) (I := no_interference) (K := never) (Some alone_state) alone_world)
    (mkServerMaterial (mkTlsCertificate [] "" None) [] "").

Lemma managed_sides_agree_witness :
  ∃ ca, cm_RootCAs some_client = [ca] ∧ sm_ClientCAs some_server = [ca] ∧
    genuine (E := still) "dev-hook-pool" ExtKeyUsageClientAuth ca (cm_Certificate some_client) ∧
    genuine (E := clock_os day) "localhost" ExtKeyUsageServerAuth ca (sm_Certificate some_server).
Proof.
  assert ((LoadManagedClient (E := still) (I := no_interference) (K := never) (Some alone_state) alone_world).1
    = Returned (Ok some_client)) as Hclient by (vm_compute; reflexivity).
  assert ((LoadManagedServer (E := clock_os day) (I := no_interference) (K := never) (Some alone_state) alone_world).1
    = Returned (Ok some_server)) as Hserver by (vm_compute; reflexivity).
  exact (managed_sides_agree content alone_state still (clock_os day) no_interference no_interference never never
    alone_kept alone_kept alone_world alone_world alone_history alone_history some_client some_server Hclient Hserver).
Defined.
End CertManagedExamples.
