(* ===== verification/ManagedRuntime.v ===== *)
(** * The runtime directory of the daemon

    [internal/server/runtime.go]: a daemon that serves with a managed certificate
    version publishes the version it pinned and the authority for health probes
    into its runtime directory.  Each file is written to an exclusive temporary
    name, synced and renamed.

    The calls of package [os] are those of [GoFS]; the random names are a parameter. *)

From stdpp Require Import base gmap strings list fin_maps.
From Stdlib Require Import ZArith Lia Ascii.
From S2P Require Import Prelude GoStrings GoErrors GoJson GoOS GoFS CertMaterial CertStore.
Set Default Goal Selector "!".

Definition runtimeNameAttempts : nat := 16.
Definition runtimeIDPattern (s : string) : bool := hex128Pattern s.

Record managedRuntime := mkRuntime {
  mr_version : string;
  mr_ca : string;
}.

(** [runtimeOperations]: [nextID] by the step it is used at. *)
Record runtimeOperations := mkRuntimeOperations {
  ro_nextID : nat → result goerror string;
}.

(** [errors.Join] of the result and the error of a deferred call. *)
Definition join_deferred {A} (r : result goerror A) (deferred : option goerror) : result goerror A :=
  match r, deferred with
  | Ok a, None => Ok a
  | Ok _, Some e => Err (ErrJoin [e])
  | Err e, None => Err (ErrJoin [e])
  | Err e, Some e' => Err (ErrJoin [e; e'])
  end.

Definition runtime_temp (name id : string) : string := "." +:+ name +:+ "." +:+ id +:+ ".tmp".

Section runtime.
Context {E : OSEnv} {I : Interference FS} {K : Crash} (operations : runtimeOperations).
Abbreviation FM := (M FS).

Definition runtime_nextID : FM (result goerror string) :=
  λ w, (Returned (ro_nextID operations (w_clock w)), tick w).

Definition openRuntimeDirectory (p : path) : FM (result goerror (handle * FileInfo)) :=
  let! observed := Lstat p in
  match observed with
  | Err _ => fails (ErrNew "runtime directory must be a non-symlink directory with mode 0755")
  | Ok observed =>
      if negb (dir_ok (Some mode_dir) observed)
      then fails (ErrNew "runtime directory must be a non-symlink directory with mode 0755")
      else
        try! directory := wrapping "open runtime directory: " (Open p) in
        let! pinned := File_Stat directory in
        if negb (again (λ _, true) observed pinned) then
          let! _ := File_Close directory in fails (ErrNew "runtime directory changed during open")
        else ret (Ok (directory, observed))
  end.

(** [os.File.Write] reports an error unless it wrote everything, so the loop of the
    source runs at most once. *)
Definition writeRuntimeBytes (file : handle) (data : string) : FM (result goerror unit) :=
  if String.eqb data "" then done else must (File_Write file data).

Definition removeRuntimeTemp (file : handle) (p : path) (want : option FileInfo) : FM (option goerror) :=
  let! _ := File_Close file in
  let! info := Lstat p in
  match info, want with
  | Err e, _ => ret (if errors_is e ErrNotExist then None else Some e)
  | Ok _, None => ret None
  | Ok info, Some want =>
      if negb (IsRegular info) || negb (SameFile want info) then ret None else Remove_path p
  end.

(** A destination may be absent or a regular file with mode 0644. *)
Definition safe_destination (destination : path) (unsafe inspect : string) : FM (result goerror unit) :=
  let! info := Lstat destination in
  match info with
  | Ok info => if negb (regular_ok mode_public info) then fails (ErrNew unsafe) else done
  | Err e => if negb (errors_is e ErrNotExist) then fails (ErrWrap inspect e "") else done
  end.

(** The part of [finishRuntimeFile] after [tempInfo] is set, up to the rename. *)
Definition fill_runtime_temp (file : handle) (observed : FileInfo) (temp destination : path) (data : string)
    (directory : handle) (directoryInfo : FileInfo) : FM (result goerror unit) :=
  let! pinned := File_Stat file in
  if negb (again (λ _, true) observed pinned) then fails (ErrNew "runtime temp changed during open")
  else
    try! _ := wrapping "write runtime temp: " (writeRuntimeBytes file data) in
    try! _ := wrapping "sync runtime temp: " (must (File_Sync file)) in
    try! _ := wrapping "chmod runtime temp: " (must (File_Chmod file mode_public)) in
    try! _ := wrapping "sync chmodded runtime temp: " (must (File_Sync file)) in
    try! _ := wrapping "close runtime temp: " (must (File_Close file)) in
    let! info := Lstat temp in
    if negb (again (regular_ok mode_public) observed info) then fails (ErrNew "runtime temp changed before rename")
    else
      try! _ := safe_destination destination "runtime destination changed before rename" "reinspect runtime destination: " in
      let! currentDirectory := File_Stat directory in
      if negb (again (λ _, true) directoryInfo currentDirectory)
      then fails (ErrNew "runtime directory changed before rename")
      else wrapping "rename runtime temp: " (must (Rename_path temp destination)).

(** The deferred call runs as long as [removeTemp] holds; no call of the body
    panics. *)
Definition finishRuntimeFile (file : handle) (temp destination : path) (data : string)
    (directory : handle) (directoryInfo : FileInfo) : FM (result goerror unit) :=
  let cleanup (tempInfo : option FileInfo) (e : goerror) : FM (result goerror unit) :=
    let! removed := removeRuntimeTemp file temp tempInfo in
    ret (join_deferred (Err e) removed) in
  let! mode := File_Chmod file mode_private in
  match mode with
  | Some e => cleanup None (ErrWrap "chmod exclusive runtime temp: " e "")
  | None =>
      let! observed := Lstat temp in
      match observed with
      | Err _ => cleanup None (ErrNew "runtime temp has unsafe type or mode")
      | Ok observed =>
          if negb (regular_ok mode_private observed) then cleanup None (ErrNew "runtime temp has unsafe type or mode")
          else
            let! filled := fill_runtime_temp file observed temp destination data directory directoryInfo in
            match filled with
            | Err e => cleanup (Some observed) e
            | Ok _ => wrapping "sync runtime directory: " (must (File_Sync directory))
            end
      end
  end.

Fixpoint runtime_attempts (attempts : nat) (dir : path) (name data : string) (directory : handle)
    (directoryInfo : FileInfo) : FM (result goerror unit) :=
  match attempts with
  | O => fails (ErrNew "runtime temporary name collisions exhausted")
  | S attempts' =>
      try! id := runtime_nextID in
      if negb (runtimeIDPattern id) then fails (ErrNew "invalid runtime temporary name")
      else
        let temp := dir ++ [runtime_temp name id] in
        let! file := CreateExclusive temp mode_private in
        match file with
        | Err e => if errors_is e ErrExist then runtime_attempts attempts' dir name data directory directoryInfo
                   else fails (ErrWrap "create exclusive runtime temp: " e "")
        | Ok file => finishRuntimeFile file temp (dir ++ [name]) data directory directoryInfo
        end
  end.

Definition replaceRuntimeFile (dir : path) (name data : string) (directory : handle) (directoryInfo : FileInfo) :
  FM (result goerror unit) :=
  try! _ := safe_destination (dir ++ [name]) "runtime destination has unsafe type or mode" "inspect runtime destination: " in
  runtime_attempts runtimeNameAttempts dir name data directory directoryInfo.

Definition runtime_artifacts (material : managedRuntime) : list (string * string) :=
  [("pinned-dev-cert-version", mr_version material +:+ String (byte_of 10) ""); ("health-ca.crt", mr_ca material)].

Fixpoint replace_artifacts (dir : path) (artifacts : list (string * string)) (directory : handle)
    (observed : FileInfo) : FM (result goerror unit) :=
  match artifacts with
  | [] => done
  | (name, data) :: artifacts' =>
      try! _ := wrapping ("publish managed runtime " +:+ name +:+ ": ")
                  (replaceRuntimeFile dir name data directory observed) in
      replace_artifacts dir artifacts' directory observed
  end.

Definition publishManagedRuntime (dir : path) (material : managedRuntime) : FM (result goerror unit) :=
  try! opened := openRuntimeDirectory dir in
  let! result := replace_artifacts dir (runtime_artifacts material) opened.1 opened.2 in
  let! closed := File_Close opened.1 in
  ret (join_deferred result closed).
End runtime.
