(* ===== verification/ManagedRuntimeProofs.v ===== *)
(** * The runtime directory of the daemon: replaced whole or not at all

    Whatever calls fail and wherever the process dies, the published files are as
    before or complete, and nothing else but temporary names is touched; a
    publication that reports success has replaced both files. *)

From stdpp Require Import base gmap strings list fin_maps.
From Stdlib Require Import ZArith Lia Ascii.
From S2P Require Import Prelude GoStrings GoErrors GoJson GoOS GoFS CertMaterial CertStore CertFrame CertSafety ManagedRuntime.
Set Default Goal Selector "!".

(** ** The frame *)

(** A complete regular file with mode 0644. *)
Definition published_file (p : path) (data : string) (fs : FS) : Prop :=
  ∃ i, at_path p fs = Some (NFile i mode_public data).

Definition is_runtime_temp (x : string) : Prop := ∃ name id, runtimeIDPattern id = true ∧ x = runtime_temp name id.

(** What a publication may do to the tree: the files it names are as before or
    complete, and apart from them and temporary names everything is as before. *)
Record runtime_step (dir : path) (artifacts : list (string * string)) (a b : FS) : Prop := mkRuntimeStep {
  rs_artifact name data : (name, data) ∈ artifacts →
    at_path (dir ++ [name]) b = at_path (dir ++ [name]) a ∨ published_file (dir ++ [name]) data b;
  rs_other q : ¬ q `prefix_of` dir →
    (∀ x, is_runtime_temp x ∨ x ∈ artifacts.*1 → ¬ dir ++ [x] `prefix_of` q) → at_path q b = at_path q a;
}.
#[export] Instance runtime_step_preorder dir artifacts : PreOrder (runtime_step dir artifacts).
Proof.
  split; [by intros a; split; auto|]. intros a b c [H1 H2] [H3 H4]. split.
  - intros name data Hin. destruct (H3 _ _ Hin) as [H|H]; [|by right]. destruct (H1 _ _ Hin) as [H'|(i & H')].
    + left. by rewrite H.
    + right. exists i. by rewrite H.
  - intros q Hq Hx. by rewrite H4, H2.
Qed.

Section frame.
Context (dir : path) (artifacts : list (string * string)).
Context (Hplain : Forall (λ a, starts_dot a.1 = false) artifacts) (Hdistinct : NoDup artifacts.*1).
#[local] Abbreviation T := (runtime_step dir artifacts).

Lemma temp_not_artifact x a : is_runtime_temp x → a ∈ artifacts → a.1 ≠ x.
Proof using Hplain.
  intros (name & id & _ & ->) Ha. rewrite Forall_forall in Hplain. specialize (Hplain _ Ha). intros Heq. cbn beta in Hplain. by rewrite Heq in Hplain.
Qed.
Lemma beside_prefix q x : q `prefix_of` dir ++ [x] → q `prefix_of` dir ∨ q = dir ++ [x].
Proof using.
  intros [s Hs]. destruct s as [|y s _] using rev_ind; [right; by rewrite app_nil_r in Hs|].
  rewrite app_assoc in Hs. apply app_inj_tail in Hs as [-> ->]. left. by exists s.
Qed.
Lemma entry_not_prefix x y : x ≠ y → ¬ dir ++ [x] `prefix_of` dir ++ [y].
Proof using. intros Hne [s Hs]. rewrite <-app_assoc in Hs. apply app_inv_head in Hs. by injection Hs. Qed.

(** A change at a temporary name. *)
Lemma step_temp x v tree next next' : is_runtime_temp x → T (mkFS tree next) (mkFS (put (dir ++ [x]) v tree) next').
Proof using Hplain.
  intros Hx. split.
  - intros name data Hin. left. pose proof (temp_not_artifact x _ Hx Hin) as Hne. cbn [fst] in Hne.
    rewrite !look_at. cbn [fs_tree]. apply look_put_apart; by apply entry_not_prefix.
  - intros q Hq Hd. rewrite !look_at. cbn [fs_tree]. apply look_put_apart; [|by apply Hd; left].
    intros [H|H]%beside_prefix; [done|]. apply (Hd x); [by left|]. by rewrite H.
Qed.
(** A complete file at the name of an artifact. *)
Lemma step_artifact name data i tree next di dm des :
  (name, data) ∈ artifacts → look dir tree = Some (NDir di dm des) →
  T (mkFS tree next) (mkFS (put (dir ++ [name]) (Some (NFile i mode_public data)) tree) next).
Proof using Hdistinct.
  intros Hin Hd. split.
  - intros name' data' Hin'. destruct (decide (name' = name)) as [->|Hne].
    + right. assert (data' = data) as ->.
      { apply list_elem_of_lookup in Hin as [j Hj], Hin' as [k Hk].
        assert (j = k) as ->; [|congruence]. eapply (NoDup_lookup artifacts.*1 j k name); [done|..];
          by rewrite list_lookup_fmap, ?Hj, ?Hk. }
      exists i. rewrite look_at. cbn [fs_tree]. by eapply look_put_eq.
    + left. rewrite !look_at. cbn [fs_tree]. apply look_put_apart; by apply entry_not_prefix.
  - intros q Hq Hx. rewrite !look_at. cbn [fs_tree].
    assert (¬ dir ++ [name] `prefix_of` q).
    { apply Hx. right. apply list_elem_of_fmap. by exists (name, data). }
    apply look_put_apart; [|done]. intros [H'|H']%beside_prefix; [done|]. by rewrite H' in *.
Qed.
Lemma published_stable name data a b : (name, data) ∈ artifacts → T a b →
  published_file (dir ++ [name]) data a → published_file (dir ++ [name]) data b.
Proof using. intros Hin [H _] (i & Hi). destruct (H _ _ Hin) as [Heq|H']; [|done]. exists i. by rewrite Heq. Qed.

(** ** The operations *)

Context {E : OSEnv} {K : Crash}.

(** The temporary file with its mode and content, in an existing directory. *)
Definition temp_file (t : string) (mode : Z) (content : string) (fs : FS) : Prop :=
  (∃ di dm des, look dir (fs_tree fs) = Some (NDir di dm des)) ∧
  ∃ i, at_path (dir ++ [t]) fs = Some (NFile i mode content).

Lemma temp_file_put t mode content i v tree next di dm des :
  look dir tree = Some (NDir di dm des) → v = NFile i mode content →
  temp_file t mode content (mkFS (put (dir ++ [t]) (Some v) tree) next).
Proof using.
  intros Hd ->. split; [do 3 eexists; by eapply look_put_dir|]. exists i. rewrite look_at. by eapply look_put_eq.
Qed.

Lemma safe_create t mode : is_runtime_temp t →
  safe T anything (CreateExclusive (dir ++ [t]) mode) (okst (λ h fs, h_path h = dir ++ [t] ∧ temp_file t mode "" fs)).
Proof using Hplain.
  intros Ht. apply safe_sys; [apply _|done|]. intros [tree next] _. unfold create. cbn [fs_tree fs_next].
  destruct (walk _ _); [done| |done]. rewrite removelast_last.
  destruct (walk dir tree) as [[| |di dm des]| |] eqn:Hd; try done. cbn [fst snd okst].
  split; [by apply step_temp|]. split; [done|]. eapply (temp_file_put t mode "" next); [|done]. unfold look. by rewrite Hd.
Qed.
Lemma change_temp op t mode content f fs fs' : temp_file t mode content fs →
  change_at op (dir ++ [t]) f fs = Ok fs' →
  ∃ i v, f (NFile i mode content) = Ok v ∧ fs' = mkFS (put (dir ++ [t]) v (fs_tree fs)) (fs_next fs).
Proof using.
  intros (_ & i & Hi) H. unfold change_at in H. destruct (resolve _ _ _) as [n|] eqn:Hr; [|done].
  apply resolve_look in Hr. rewrite Hi in Hr. injection Hr as <-. cbn in H.
  destruct (f _) as [v|] eqn:Hf; [|done]. injection H as <-. eauto.
Qed.
Lemma safe_chmod_temp t mode mode' content h : is_runtime_temp t → h_path h = dir ++ [t] →
  safe T (temp_file t mode content) (File_Chmod h mode')
    (λ r fs, temp_file t (match r with None => mode' | Some _ => mode end) content fs).
Proof using Hplain.
  intros Ht Hh. unfold File_Chmod, Chmod. rewrite Hh. apply safe_writing; [apply _|done|]. intros [tree next] fs' Hfs Hc.
  pose proof Hfs as [(di & dm & des & Hd) _].
  destruct (change_temp _ _ _ _ _ _ _ Hfs Hc) as (i & v & [= <-] & ->). split; [by apply step_temp|].
  by eapply temp_file_put.
Qed.
Lemma safe_write_temp t mode data h : is_runtime_temp t → h_path h = dir ++ [t] →
  safe T (temp_file t mode "") (writeRuntimeBytes h data) (okst (λ _, temp_file t mode data)).
Proof using Hplain.
  intros Ht Hh. unfold writeRuntimeBytes. destruct (String.eqb_spec data "") as [->|_]; [by apply safe_ret; [apply _|]|].
  eapply safe_bind; [apply _| |]; cycle 1.
  { intros r. apply safe_ret; [apply _|]. intros fs Hr. pattern r, fs in Hr. exact Hr. }
  cbv beta. intros w Hw. unfold File_Write. rewrite Hh. revert w Hw.
  assert (∀ c fs fs', temp_file t mode "" fs → change_at "write" (dir ++ [t]) (write_node c "write" (dir ++ [t])) fs = Ok fs' →
            T fs fs' ∧ temp_file t mode c fs') as Hc.
  { intros c [tree next] fs' Hfs Hc. pose proof Hfs as [(di & dm & des & Hd) _].
    destruct (change_temp _ _ _ _ _ _ _ Hfs Hc) as (i & v & [= <-] & ->). split; [by apply step_temp|].
    by eapply temp_file_put. }
  intros w. refine (safe_sys T _ _ _ _ _ (λ r fs, okst (λ _ : unit, temp_file t mode data) (match r with None => Ok tt | Some e => Err e end) fs) _ _ w).
  - intros e fs Hfs. cbn. split; [|done]. destruct (change_at _ _ _ _) eqn:?; [by eapply Hc|done].
  - intros fs Hfs. destruct (change_at _ _ _ _) eqn:Heq; cbn; [by eapply Hc|done].
Qed.
Lemma frames_remove_temp t h want : is_runtime_temp t →
  frames T anything (removeRuntimeTemp h (dir ++ [t]) want).
Proof using Hplain.
  intros Ht. unfold removeRuntimeTemp. frame_tac. apply frames_writing; [apply _|]. intros [tree next] fs' Hc.
  unfold change_at in Hc. destruct (resolve _ _ _) as [n|]; [|done]. cbn in Hc.
  destruct (match n with NDir _ _ _ => _ | _ => _ end) as [v|]; [|done]. injection Hc as <-. by apply step_temp.
Qed.
Lemma safe_rename_temp t name data : is_runtime_temp t → (name, data) ∈ artifacts →
  safe T (temp_file t mode_public data) (must (Rename_path (dir ++ [t]) (dir ++ [name])))
    (okst (λ _, published_file (dir ++ [name]) data)).
Proof using Hplain Hdistinct.
  intros Ht Hin. eapply safe_bind with (Q := λ r fs, r = None → published_file (dir ++ [name]) data fs); [apply _| |].
  - apply safe_writing; [apply _|done|].
    intros [tree next] fs' [(di & dm & des & Hd) (i & Hi)] (n & _ & _ & _ & Hn & _ & _ & ->)%rename_ok.
    rewrite Hi in Hn. injection Hn as <-. cbn [fs_tree fs_next] in *.
    pose proof (look_put_dir dir t None tree di dm des Hd) as Hd'. split.
    + etrans; [by apply (step_temp t None tree next next)|by eapply step_artifact].
    + intros _. exists i. rewrite look_at. by eapply look_put_eq.
  - intros [e|]; apply safe_ret; [apply _|done|apply _|]. intros fs H. by apply H.
Qed.

Lemma safe_look {A} (P : FS → Prop) (m : M FS A) : frames eq anything m → safe T P m (λ _, P).
Proof using. intros H. eapply safe_weaken; [by apply (safe_observe T P), H|done|]. by intros a fs []. Qed.
Lemma safe_look_ok {A} (P : FS → Prop) (m : M FS (result goerror A)) : frames eq anything m → safe T P m (okst (λ _, P)).
Proof using. intros H. eapply safe_weaken; [by apply safe_look, H|done|]. by intros []. Qed.
Lemma safe_failed {A} (P : FS → Prop) e (Q : A → FS → Prop) : safe T P (fails e) (okst Q).
Proof using. by apply safe_ret; [apply _|]. Qed.

Lemma safe_fill h t observed name data directory info : is_runtime_temp t → h_path h = dir ++ [t] → (name, data) ∈ artifacts →
  safe T (temp_file t mode_private "") (fill_runtime_temp h observed (dir ++ [t]) (dir ++ [name]) data directory info)
    (okst (λ _, published_file (dir ++ [name]) data)).
Proof using Hplain Hdistinct.
  intros Ht Hh Hin. unfold fill_runtime_temp.
  eapply safe_bind; [apply _|apply safe_look; frame_tac|]. intros r. destruct (again _ _ _); [|apply safe_failed]. cbn [negb].
  eapply (safe_try T); [by apply safe_reported; [apply _|]; apply safe_write_temp|]. intros ?; cbv beta.
  eapply (safe_try T); [apply safe_look_ok; frame_tac|]. intros ?; cbv beta.
  eapply (safe_try T) with (Q := λ _, temp_file t mode_public data).
  { apply safe_reported; [apply _|]. eapply safe_bind; [apply _|by apply safe_chmod_temp|]. intros [e|]; by apply safe_ret; [apply _|]. }
  intros ?; cbv beta. do 2 (eapply (safe_try T); [apply safe_look_ok; frame_tac|]; intros ?; cbv beta).
  eapply safe_bind; [apply _|apply safe_look; frame_tac|]. intros i. destruct (again _ _ _); [|apply safe_failed]. cbn [negb].
  eapply (safe_try T); [apply safe_look_ok; unfold safe_destination; frame_tac|]. intros ?; cbv beta.
  eapply safe_bind; [apply _|apply safe_look; frame_tac|]. intros i'. destruct (again _ _ _); [|apply safe_failed]. cbn [negb].
  apply safe_reported; [apply _|]. by apply safe_rename_temp.
Qed.
Lemma safe_finish_runtime h t name data directory info : is_runtime_temp t → h_path h = dir ++ [t] → (name, data) ∈ artifacts →
  safe T (temp_file t mode_private "") (finishRuntimeFile h (dir ++ [t]) (dir ++ [name]) data directory info)
    (okst (λ _, published_file (dir ++ [name]) data)).
Proof using Hplain Hdistinct.
  intros Ht Hh Hin. unfold finishRuntimeFile.
  assert (∀ (P : FS → Prop) want e, safe T P
    (bind (removeRuntimeTemp h (dir ++ [t]) want) (λ removed, ret (join_deferred (Err e) removed)))
    (okst (λ _ : unit, published_file (dir ++ [name]) data))) as Hcleanup.
  { intros P want e. eapply safe_bind with (Q := λ _ _, True); [apply _| |].
    - by eapply safe_weaken; [by apply frames_remove_temp|..].
    - intros [e'|]; by apply safe_ret; [apply _|]. }
  eapply safe_bind; [apply _|by apply safe_chmod_temp|]. intros [e|]; [apply Hcleanup|].
  eapply safe_bind; [apply _|apply safe_look; frame_tac|]. intros [i|e]; [|apply Hcleanup].
  destruct (regular_ok _ _); [|apply Hcleanup]. cbn [negb].
  eapply safe_bind; [apply _|by apply safe_fill|]. intros [[]|e]; [|apply Hcleanup].
  apply safe_look_ok. frame_tac.
Qed.
Lemma safe_attempts operations attempts name data directory info : (name, data) ∈ artifacts →
  safe T anything (runtime_attempts operations attempts dir name data directory info)
    (okst (λ _, published_file (dir ++ [name]) data)).
Proof using Hplain Hdistinct.
  intros Hin. induction attempts as [|attempts IH]; cbn [runtime_attempts]; [apply safe_failed|].
  eapply (safe_try T) with (Q := λ _ _, True).
  { eapply safe_weaken; [apply frames_tick, _|done|]. by intros []. }
  intros id. destruct (runtimeIDPattern id) eqn:Hid; [|apply safe_failed]. cbn [negb]. cbv zeta.
  assert (is_runtime_temp (runtime_temp name id)) as Ht by (by exists name, id).
  eapply safe_bind; [apply _|by apply safe_create|]. intros [h|e]; cbn [okst].
  - apply safe_pure. intros Hh. by apply safe_finish_runtime.
  - destruct (errors_is e ErrExist); [|apply safe_failed]. exact IH.
Qed.
Lemma safe_replace_artifacts operations todo directory info : todo ⊆ artifacts →
  safe T anything (replace_artifacts operations dir todo directory info)
    (okst (λ _ fs, ∀ name data, (name, data) ∈ todo → published_file (dir ++ [name]) data fs)).
Proof using Hplain Hdistinct.
  induction todo as [|[name data] todo IH]; intros Hsub; cbn [replace_artifacts].
  { apply safe_ret; [apply _|]. intros fs _ name data H. by apply not_elem_of_nil in H. }
  assert ((name, data) ∈ artifacts) as Hin by (apply Hsub; left).
  eapply (safe_try T) with (Q := λ _, published_file (dir ++ [name]) data).
  { apply safe_reported; [apply _|]. unfold replaceRuntimeFile.
    eapply (safe_try T) with (Q := λ _ _, True); [apply safe_look_ok; unfold safe_destination; frame_tac|].
    intros _. by apply safe_attempts. }
  intros _. eapply safe_weaken; [apply (safe_stable T anything (published_file (dir ++ [name]) data)), IH| |].
  - intros a b. by apply published_stable.
  - intros x Hx. apply Hsub. by right.
  - done.
  - intros [[]|e] fs; [|done]. intros [H1 H2] name' data' [[= -> ->]|H]%elem_of_cons; [done|by apply H2].
Qed.
End frame.

(** ** The publication *)

Section publication.
Context {E : OSEnv} {K : Crash} (operations : runtimeOperations).

(** C28: publishing the managed runtime is atomic per file.  Whatever calls fail, whatever
    random names come up and wherever the process dies, the pinned version and the
    health authority in the runtime directory are each as they were before or a
    complete file of the new material with mode 0644; apart from them and from
    temporary names nothing in the file system changes; and a publication that
    reports success has left both files complete. *)
Theorem publishManagedRuntime_atomic (dir : path) (material : managedRuntime) (w : world FS) :
  let r := publishManagedRuntime operations dir material w in
  runtime_step dir (runtime_artifacts material) (w_app w) (w_app r.2) ∧
  (r.1 = Returned (Ok tt) →
     published_file (dir ++ ["pinned-dev-cert-version"]) (mr_version material +:+ String (byte_of 10) "") (w_app r.2) ∧
     published_file (dir ++ ["health-ca.crt"]) (mr_ca material) (w_app r.2)).
Proof using.
  intros r. subst r. pose (artifacts := runtime_artifacts material). pose (T := runtime_step dir artifacts).
  assert (Forall (λ a, starts_dot a.1 = false) artifacts) as Hplain by (by repeat constructor).
  assert (NoDup artifacts.*1) as Hdistinct.
  { unfold artifacts, runtime_artifacts. cbn [fmap list_fmap fst]. apply NoDup_cons. split; [|apply NoDup_singleton].
    by rewrite list_elem_of_singleton. }
  assert (safe T anything (publishManagedRuntime operations dir material)
    (okst (λ _ fs, ∀ name data, (name, data) ∈ artifacts → published_file (dir ++ [name]) data fs))) as H.
  { unfold publishManagedRuntime. eapply (safe_try T) with (Q := λ _ _, True).
    { apply safe_look_ok. unfold openRuntimeDirectory. frame_tac. }
    intros opened. eapply safe_bind; [apply _|by apply safe_replace_artifacts|]. intros result.
    eapply safe_bind; [apply _|apply safe_look; frame_tac|]. intros closed. apply safe_ret; [apply _|].
    intros fs. by destruct result, closed. }
  destruct (H w I) as [HT HQ]. split; [exact HT|]. intros Hr. specialize (HQ _ Hr). cbn [okst] in HQ.
  split; apply HQ; unfold artifacts, runtime_artifacts; [left|right; left].
Qed.
End publication.

(** ** Runs *)

Module ManagedRuntimeExamples.
Definition quiet_os : OSEnv := {|
  os_now _ := 0%Z; os_fault _ _ _ := None; os_written _ := 0%nat; os_temp_name _ _ _ := ""; os_select _ := true;
|}.
Definition ids : runtimeOperations := mkRuntimeOperations (λ _, Ok "0123456789abcdef0123456789abcdef").
Definition some_runtime : managedRuntime := mkRuntime "versions/v-1" "CA".
(** A runtime directory that an earlier run has filled. *)
Definition runtime_world : world FS :=
  mkWorld (mkFS (NDir 1 mode_dir {["run" := NDir 2 mode_dir
    (list_to_map [("pinned-dev-cert-version", NFile 3 mode_public "old"); ("health-ca.crt", NFile 4 mode_public "OLD")])]}) 5) ∅ ∅ 0.

(** Both files are replaced, and no temporary file is left. *)
Example runtime_replaced :
  let r := publishManagedRuntime (E := quiet_os) (I := no_interference) (K := λ _, false) ids ["run"] some_runtime runtime_world in
  (r.1, at_path ["run"; "pinned-dev-cert-version"] (w_app r.2), at_path ["run"; "health-ca.crt"] (w_app r.2),
   entry_names <$> at_path ["run"] (w_app r.2)) =
  (Returned (Ok tt), Some (NFile 5 mode_public ("versions/v-1" +:+ String (byte_of 10) "")), Some (NFile 6 mode_public "CA"),
   Some ["health-ca.crt"; "pinned-dev-cert-version"]).
Proof. vm_compute. reflexivity. Qed.

(** Another process puts a new directory, with the same files, in the place of the
    runtime directory before the temporary file is renamed. *)
Definition swapped (at_step : nat) : Interference FS := λ t fs,
  if Nat.eqb t at_step then
    match at_path ["run"] fs with
    | Some (NDir _ m es) => mkFS (put ["run"] (Some (NDir 99 m es)) (fs_tree fs)) (fs_next fs)
    | _ => fs
    end
  else fs.

(** The check before the rename asks the open directory for its identity, which is
    the one it was opened with, so a runtime directory that was replaced meanwhile
    is not noticed. *)
Lemma replaced_directory_unnoticed :
  let r := publishManagedRuntime (E := quiet_os) (I := swapped 12) (K := λ _, false) ids ["run"] some_runtime runtime_world in
  (r.1, info_of <$> at_path ["run"] (w_app runtime_world), info_of <$> at_path ["run"] (w_app r.2),
   at_path ["run"; "health-ca.crt"] (w_app r.2)) =
  (Returned (Ok tt), Some (mkInfo KDir mode_dir 2), Some (mkInfo KDir mode_dir 99), Some (NFile 6 mode_public "CA")).
Proof. vm_compute. reflexivity. Qed.
End ManagedRuntimeExamples.
