(* ===== verification/ConfigStore.v ===== *)
(** * Configuration store

    [internal/server/configstore.go], [configstore_register.go] and [loadConfig]
    of [config.go]: the mounted repository configurations, their reload on file
    events, and self-service registration.  Each critical section of the store's
    mutex is one [access]; the watcher goroutine is the step function
    [watch_step]. *)

From stdpp Require Import base gmap strings list fin_maps relations.
From Stdlib Require Import ZArith Lia Ascii.
From S2P Require Import Prelude GoStrings GoErrors GoJson GoJsonPrint GoOS RepoName GovConfig Auth.
Set Default Goal Selector "!".

(** ** State *)

Section data.
Context {R : RegexpEngine}.

(** [LastValidAt] is the zero time when absent. *)
Record ConfigEntry := mkEntry {
  ent_Config : Config;
  ent_Valid : bool;
  ent_Error : string;
  ent_LastValidAt : option Z;
}.

Record ConfigStore := mkStore {
  cs_entries : gmap string ConfigEntry;
  cs_repoDirs : gmap string string;
  cs_callerPolicy : CallerRepoPolicy;
  cs_loadedAt : Z;
  cs_dir : string;
  cs_callerPolicyPath : string;
  cs_retryBackoff : Z;
  cs_readRetries : Z;
  cs_watchedPaths : gset string;
}.

Definition invalid_entry (message : string) : ConfigEntry := mkEntry zero_config false message None.
Definition valid_entry (config : Config) (at_ : option Z) : ConfigEntry := mkEntry config true "" at_.

Definition set_entries (m : gmap string ConfigEntry) (at_ : Z) (s : ConfigStore) : ConfigStore :=
  mkStore m (cs_repoDirs s) (cs_callerPolicy s) at_ (cs_dir s) (cs_callerPolicyPath s)
    (cs_retryBackoff s) (cs_readRetries s) (cs_watchedPaths s).
Definition set_repoDirs (m : gmap string string) (s : ConfigStore) : ConfigStore :=
  mkStore (cs_entries s) m (cs_callerPolicy s) (cs_loadedAt s) (cs_dir s) (cs_callerPolicyPath s)
    (cs_retryBackoff s) (cs_readRetries s) (cs_watchedPaths s).
Definition set_policy (p : CallerRepoPolicy) (s : ConfigStore) : ConfigStore :=
  mkStore (cs_entries s) (cs_repoDirs s) p (cs_loadedAt s) (cs_dir s) (cs_callerPolicyPath s)
    (cs_retryBackoff s) (cs_readRetries s) (cs_watchedPaths s).
Definition set_watched (p : gset string) (s : ConfigStore) : ConfigStore :=
  mkStore (cs_entries s) (cs_repoDirs s) (cs_callerPolicy s) (cs_loadedAt s) (cs_dir s)
    (cs_callerPolicyPath s) (cs_retryBackoff s) (cs_readRetries s) p.

(** Copies are values here. *)
Definition cloneConfig (config : Config) : Config :=
  mkConfig (cfg_EnforcementMode config) (cfg_EnforcementOnError config)
    (cfg_FitnessFunctions config) (cfg_ExcludePatterns config) (cfg_FitnessFunctionSettings config).
Definition cloneConfigEntry (entry : ConfigEntry) : ConfigEntry :=
  mkEntry (cloneConfig (ent_Config entry)) (ent_Valid entry) (ent_Error entry) (ent_LastValidAt entry).

(** ** Readers *)

Definition Lookup (repo : string) (s : ConfigStore) : option ConfigEntry :=
  match cs_entries s !! repo with
  | None => None
  | Some entry => Some (cloneConfigEntry entry)
  end.

Definition SnapshotState (s : ConfigStore) : Z * gmap string ConfigEntry :=
  (cs_loadedAt s, cloneConfigEntry <$> cs_entries s).
Definition store_Snapshot (s : ConfigStore) : gmap string ConfigEntry := (SnapshotState s).2.
Definition LoadedAt (s : ConfigStore) : Z := (SnapshotState s).1.
Definition store_CallerRepoPolicy (s : ConfigStore) : CallerRepoPolicy :=
  cloneCallerRepoPolicy (cs_callerPolicy s).
Definition CallerAllowed (caller repo : string) (s : ConfigStore) : bool :=
  Allows (cs_callerPolicy s) caller repo.
Definition CallerIsAdmin (caller : string) (s : ConfigStore) : bool :=
  IsAdmin (cs_callerPolicy s) caller.

(** ** Writers: the critical sections *)

Definition storeEntry (now : Z) (repo : string) (entry : ConfigEntry) (s : ConfigStore) : ConfigStore :=
  let cloned := cloneConfigEntry entry in
  let stamped :=
    if ent_Valid cloned
    then mkEntry (ent_Config cloned) true (ent_Error cloned) (Some now)
    else match cs_entries s !! repo with
         | Some previous =>
             match ent_LastValidAt previous with
             | Some t => mkEntry (ent_Config cloned) false (ent_Error cloned) (Some t)
             | None => cloned
             end
         | None => cloned
         end in
  set_entries (<[repo := stamped]> (cs_entries s)) now s.

Definition storeCallerRepoPolicy (policy : CallerRepoPolicy) (s : ConfigStore) : ConfigStore :=
  set_policy (cloneCallerRepoPolicy policy) s.

Definition setRepoDir (repo dirName : string) (s : ConfigStore) : ConfigStore :=
  if String.eqb repo "" || String.eqb dirName "" then s
  else set_repoDirs (<[repo := dirName]> (cs_repoDirs s)) s.

Definition repoDir (repo : string) (s : ConfigStore) : string :=
  let dirName := default "" (cs_repoDirs s !! repo) in
  if String.eqb dirName "" then repo else dirName.

Definition forgetWatch (path : string) (s : ConfigStore) : ConfigStore :=
  set_watched (cs_watchedPaths s ∖ {[path]}) s.
End data.

(** ** Paths under the configuration root *)

Definition configFileName : string := "config.json".

(** [rel] is [None] when [filepath.Rel] failed. *)
Definition invalidRelConfigPath (rel : option string) : bool :=
  match rel with
  | None => true
  | Some r => String.eqb r "." || String.eqb r ".." || has_prefix r "../"
  end.

Definition relPathPartsMatchShape (parts : list string) (wantsConfig : bool) : bool :=
  if wantsConfig then match parts with [_; f] => String.eqb f configFileName | _ => false end
  else match parts with [_] => true | _ => false end.

Section paths.
Context {U : UnicodeTables}.

Definition repoNameForPath (root path : string) (wantsConfig : bool) : option string :=
  let rel := path_rel (path_clean root) (path_clean path) in
  if invalidRelConfigPath rel then None
  else
    let parts := split (default "" rel) slash in
    if negb (relPathPartsMatchShape parts wantsConfig) then None
    else match validateRepoName (nth 0 parts "") with
         | Err _ => None
         | Ok repoName => Some repoName
         end.

Definition repoNameForConfigPath (root path : string) : option string := repoNameForPath root path true.
Definition repoNameForRepoDir (root path : string) : option string := repoNameForPath root path false.

Definition configReadError (err : goerror) : string :=
  if errors_is err ErrNotExist then "config file missing"
  else "read config: " +:+ error_string err.
End paths.

(** ** Loading *)

Section operations.
Context {R : RegexpEngine} {O : GoMapOrder} {U : UnicodeTables} {J : JsonErrorText}
        {E : OSEnv} {I : Interference ConfigStore}.

Abbreviation SM := (M ConfigStore).

Definition loadConfig (store : option ConfigStore) (repo : string) : result goerror (Config * string) :=
  match store with
  | None => Err (infrastructureError "config store is not configured" None)
  | Some s =>
      let? repoName := canonicalRepoName repo in
      match Lookup repoName s with
      | None => Err (notFoundError ("repository " +:+ quote repoName +:+ " is not configured") None)
      | Some entry =>
          if negb (ent_Valid entry)
          then Err (infrastructureError
                      ("repository " +:+ quote repoName +:+ " has an invalid config: " +:+ ent_Error entry)
                      (Some (ErrNew (ent_Error entry))))
          else Ok (ent_Config entry, repoName)
      end
  end.

(** The loop of [readConfigWithRetry] with [retries] attempts left after the
    next one. *)
Fixpoint read_attempts (ctx : context) (backoff : Z) (path : string) (retries : nat) :
  SM (result goerror string) :=
  let! read := ReadFile path in
  match read with
  | Ok content => ret (Ok content)
  | Err readErr =>
      if errors_is readErr ErrNotExist then ret (Err readErr)
      else match retries with
           | 0%nat => ret (Err readErr)
           | S retries' =>
               let! slept := wait_for ctx backoff in
               match slept with
               | Some sleepErr => ret (Err sleepErr)
               | None => read_attempts ctx backoff path retries'
               end
           end
  end.

Definition sleepWithContext (ctx : context) (delay : Z) : SM (option goerror) := wait_for ctx delay.

Definition readConfigWithRetry (ctx : context) (path : string) : SM (result goerror string) :=
  λ w, read_attempts ctx (cs_retryBackoff (w_app w)) path (Z.to_nat (cs_readRetries (w_app w))) w.

Definition is_context_error (e : goerror) : bool :=
  errors_is e Canceled || errors_is e DeadlineExceeded.

(** [s.storeEntry] reads the clock inside its critical section. *)
Definition store_entry (repo : string) (entry : ConfigEntry) : SM unit :=
  λ w, modify (storeEntry (os_now (w_clock w)) repo entry) w.

(** A field that is never written after construction. *)
Definition field {A} (f : ConfigStore → A) : SM A := λ w, (Returned (f (w_app w)), w).

Definition reloadRepo (ctx : context) (repo : string) : SM (option goerror) :=
  let! dir := field cs_dir in
  let! sub := get (repoDir repo) in
  let path := path_join [dir; sub; configFileName] in
  let! read := readConfigWithRetry ctx path in
  match read with
  | Err err =>
      if is_context_error err then ret (Some err)
      else let! _ := store_entry repo (invalid_entry (configReadError err)) in ret None
  | Ok content =>
      match Parse content with
      | Err err => let! _ := store_entry repo (invalid_entry (error_string err)) in ret None
      | Ok config => let! _ := store_entry repo (valid_entry config None) in ret None
      end
  end.

Definition reloadCallerRepoPolicy (ctx : context) : SM (option goerror) :=
  let! path := field cs_callerPolicyPath in
  let! read := readConfigWithRetry ctx path in
  match read with
  | Err err =>
      if is_context_error err then ret (Some err)
      else let! _ := modify (storeCallerRepoPolicy emptyCallerRepoPolicy) in ret None
  | Ok content =>
      match parseCallerRepoPolicy content with
      | Err _ => let! _ := modify (storeCallerRepoPolicy emptyCallerRepoPolicy) in ret None
      | Ok policy => let! _ := modify (storeCallerRepoPolicy policy) in ret None
      end
  end.

Definition loadCallerRepoPolicy (path : string) : SM (result goerror CallerRepoPolicy) :=
  let! read := ReadFile path in
  match read with
  | Err err =>
      if errors_is err ErrNotExist then ret (Ok emptyCallerRepoPolicy)
      else ret (Err (ErrWrap ("read caller policy " +:+ quote path +:+ ": ") err ""))
  | Ok content => ret (parseCallerRepoPolicy content)
  end.

(** ** The initial scan *)

(** The read and parse of [loadChildConfig], after the directory is recorded. *)
Definition load_child (dir name repo : string) (repoDirs : gmap string string) :
  SM (result goerror (option (string * ConfigEntry) * gmap string string)) :=
  let! read := ReadFile (path_join [dir; name; configFileName]) in
  match read with
  | Err readErr =>
      if errors_is readErr ErrNotExist then ret (Ok (None, repoDirs))
      else ret (Ok (Some (repo, invalid_entry (configReadError readErr)), repoDirs))
  | Ok content =>
      match Parse content with
      | Err parseErr => ret (Ok (Some (repo, invalid_entry (error_string parseErr)), repoDirs))
      | Ok config =>
          let! now := Now in ret (Ok (Some (repo, valid_entry config (Some now)), repoDirs))
      end
  end.

(** [loadChildConfig]: the entry of one child, if any, and the directory table,
    which it updates in place. *)
Definition loadChildConfig (dir : string) (child : string * bool) (repoDirs : gmap string string) :
  SM (result goerror (option (string * ConfigEntry) * gmap string string)) :=
  let '(name, isDir) := child in
  if negb isDir then ret (Ok (None, repoDirs))
  else match validateRepoName name with
  | Err _ => ret (Ok (None, repoDirs))
  | Ok repo =>
      match repoDirs !! repo with
      | Some previous =>
          if negb (String.eqb previous name)
          then ret (Err (ErrNew ("duplicate normalized repository name " +:+ quote repo +:+ " from "
                                 +:+ quote previous +:+ " and " +:+ quote name)))
          else load_child dir name repo (<[repo := name]> repoDirs)
      | None => load_child dir name repo (<[repo := name]> repoDirs)
      end
  end.

(** The loop of [scanMountedConfigs]. *)
Fixpoint scan_children (dir : string) (children : list (string * bool))
    (entries : gmap string ConfigEntry) (repoDirs : gmap string string) (validCount : Z) :
  SM (result goerror (gmap string ConfigEntry * gmap string string * Z)) :=
  match children with
  | [] => ret (Ok (entries, repoDirs, validCount))
  | child :: rest =>
      let! loaded := loadChildConfig dir child repoDirs in
      match loaded with
      | Err err => ret (Err err)
      | Ok (None, repoDirs') => scan_children dir rest entries repoDirs' validCount
      | Ok (Some (repo, entry), repoDirs') =>
          scan_children dir rest (<[repo := entry]> entries) repoDirs'
            (if ent_Valid entry then validCount + 1 else validCount)%Z
      end
  end.

Definition statConfigDir (dir : string) : SM (option goerror) :=
  let! info := Stat dir in
  match info with
  | Err err => ret (Some (ErrWrap ("stat config directory " +:+ quote dir +:+ ": ") err ""))
  | Ok true => ret None
  | Ok false => ret (Some (ErrNew ("config directory " +:+ quote dir +:+ " is not a directory")))
  end.

Definition scanMountedConfigs (dir : string) :
  SM (result goerror (gmap string ConfigEntry * gmap string string * Z)) :=
  let! bad := statConfigDir dir in
  match bad with
  | Some err => ret (Err err)
  | None =>
      let! listed := ReadDir dir in
      match listed with
      | Err err => ret (Err (ErrWrap ("read config directory " +:+ quote dir +:+ ": ") err ""))
      | Ok children => scan_children dir children ∅ ∅ 0
      end
  end.

(** ** Watching *)

Definition ensureWatch (path : string) : SM (option goerror) :=
  let cleanPath := path_clean path in
  let! info := Stat cleanPath in
  match info with
  | Err err => if errors_is err ErrNotExist then ret None else ret (Some err)
  | Ok false => ret None
  | Ok true =>
      λ w, access (λ s, if decide (cleanPath ∈ cs_watchedPaths s) then (None, s)
                        else match os_fault (w_clock w) "watch" cleanPath with
                             | Some err => (Some err, s)
                             | None => (None, set_watched ({[cleanPath]} ∪ cs_watchedPaths s) s)
                             end) w
  end.

(** The repository directories, each watched until one fails. *)
Fixpoint watch_repoDirs (dir : string) (repoDirs : list (string * string)) : SM (option goerror) :=
  match repoDirs with
  | [] => ret None
  | (_, repoDir) :: rest =>
      let! failed := ensureWatch (path_join [dir; repoDir]) in
      match failed with
      | Some err =>
          ret (Some (ErrWrap ("watch repository config directory " +:+ quote repoDir +:+ ": ") err ""))
      | None => watch_repoDirs dir rest
      end
  end.

Definition watchInitialPaths (dir callerPolicyPath : string) (repoDirs : gmap string string) :
  SM (option goerror) :=
  let! failed := ensureWatch dir in
  match failed with
  | Some err => ret (Some (ErrWrap ("watch config directory " +:+ quote dir +:+ ": ") err ""))
  | None =>
      let! failed := watch_repoDirs dir (map_order string repoDirs) in
      match failed with
      | Some err => ret (Some err)
      | None =>
          let callerPolicyDir := path_dir callerPolicyPath in
          if String.eqb callerPolicyDir dir then ret None
          else
            let! failed := ensureWatch callerPolicyDir in
            match failed with
            | Some err =>
                ret (Some (ErrWrap ("watch caller policy directory " +:+ quote callerPolicyDir
                                    +:+ ": ") err ""))
            | None => ret None
            end
      end
  end.

(** [withConfigStoreDefaults]: backoff and retries. *)
Record configStoreOptions := mkStoreOptions { opts_retryBackoff : Z; opts_readRetries : Z }.
Definition millisecond : Z := 1000000.
Definition withConfigStoreDefaults (opts : configStoreOptions) : configStoreOptions :=
  mkStoreOptions
    (if opts_retryBackoff opts <=? 0 then 200 * millisecond else opts_retryBackoff opts)%Z
    (if opts_readRetries opts =? 0 then 3
     else if opts_readRetries opts <? 0 then 0 else opts_readRetries opts)%Z.

(** [newConfigStore]: the store is installed as the state once it is built; the
    watcher's own creation is the operation "inotify". *)
Definition newConfigStore (dir : string) (opts : configStoreOptions) : SM (option goerror) :=
  let opts := withConfigStoreDefaults opts in
  let cleanDir := path_clean dir in
  let! scanned := scanMountedConfigs cleanDir in
  match scanned with
  | Err err => ret (Some err)
  | Ok (entries, repoDirs, _) =>
      let callerPolicyPath := callerRepoBindingsPath cleanDir in
      let! loaded := loadCallerRepoPolicy callerPolicyPath in
      match loaded with
      | Err err => ret (Some err)
      | Ok callerPolicy => λ w,
          match os_fault (w_clock w) "inotify" "" with
          | Some err => (Returned (Some (ErrWrap "creating config watcher: " err "")), tick w)
          | None =>
              watchInitialPaths cleanDir callerPolicyPath repoDirs
                (tick (set_app (mkStore entries repoDirs callerPolicy (os_now (w_clock w)) cleanDir
                                  callerPolicyPath (opts_retryBackoff opts) (opts_readRetries opts) ∅) w))
          end
      end
  end.

(** An fsnotify event: its name and the bits of its operation. *)
Record watch_event := mkEvent {
  ev_Name : string;
  ev_Create : bool;
  ev_Write : bool;
  ev_Remove : bool;
  ev_Rename : bool;
}.

Definition callerPolicyReloadKey : string := "__caller_repo_policy__".

(** [handleEvent]: the key to reload, if any. *)
Definition handleEvent (event : watch_event) : SM (option string) := λ w,
  let s := w_app w in
  let name := path_clean (ev_Name event) in
  (if negb (ev_Create event || ev_Write event || ev_Remove event || ev_Rename event) then ret None
   else if String.eqb name (path_clean (cs_callerPolicyPath s)) then ret (Some callerPolicyReloadKey)
   else match repoNameForConfigPath (cs_dir s) (ev_Name event) with
   | Some repo =>
       let! _ := modify (setRepoDir repo (path_base (path_dir name))) in ret (Some repo)
   | None =>
       match repoNameForRepoDir (cs_dir s) (ev_Name event) with
       | None => ret None
       | Some repo =>
           let! _ := modify (setRepoDir repo (path_base name)) in
           if ev_Remove event || ev_Rename event then
             let! _ := modify (forgetWatch name) in
             let! found := get (Lookup repo) in
             ret (match found with Some _ => Some repo | None => None end)
           else
             let! failed := ensureWatch name in
             match failed with
             | Some _ => ret None
             | None =>
                 let! info := Stat (path_join [name; configFileName]) in
                 ret (match info with Ok _ => Some repo | Err _ => None end)
             end
       end
   end) w.

(** [reloadPendingKey]. *)
Definition reloadPendingKey (ctx : context) (key : string) : SM (option goerror) :=
  if String.eqb key callerPolicyReloadKey then reloadCallerRepoPolicy ctx else reloadRepo ctx key.

(** The loop of [flushPendingReloads]: whether the watcher goes on, and the keys
    still pending. *)
Fixpoint flush_keys (ctx : context) (keys : list string) (pending : gset string) :
  SM (bool * gset string) :=
  match keys with
  | [] => ret (true, pending)
  | key :: rest =>
      let! failed := reloadPendingKey ctx key in
      match failed with
      | Some _ =>
          let! done := ctx_Err ctx in
          match done with
          | Some _ => ret (false, pending)
          | None => flush_keys ctx rest (pending ∖ {[key]})
          end
      | None => flush_keys ctx rest (pending ∖ {[key]})
      end
  end.

Definition flushPendingReloads (ctx : context) (pending : gset string) : SM (bool * gset string) :=
  flush_keys ctx (map_order unit (gset_to_gmap tt pending)).*1 pending.

(** The local variables of the [watch] loop. *)
Record watch_state := mkWatch { wt_pending : gset string; wt_timerActive : bool; wt_running : bool }.

(** What the [select] of the loop receives. *)
Inductive watch_input :=
| WatchDone
| WatchEvent (event : watch_event)
| WatchError
| WatchTimer.

(** [recordWatchEvent]. *)
Definition recordWatchEvent (event : watch_event) (l : watch_state) : SM watch_state :=
  let! key := handleEvent event in
  ret (match key with
       | None => l
       | Some k => mkWatch ({[k]} ∪ wt_pending l) true (wt_running l)
       end).

(** One iteration of the [watch] loop; the timer channel is nil while the timer
    is inactive. *)
Definition watch_step (ctx : context) (i : watch_input) (l : watch_state) : SM watch_state :=
  if negb (wt_running l) then ret l
  else match i with
  | WatchDone => ret (mkWatch (wt_pending l) (wt_timerActive l) false)
  | WatchEvent event => recordWatchEvent event l
  | WatchError => ret l
  | WatchTimer =>
      if wt_timerActive l then
        let! flushed := flushPendingReloads ctx (wt_pending l) in
        ret (mkWatch flushed.2 false flushed.1)
      else ret l
  end.
End operations.

(** ** Registration *)

Section marshal.
Context {R : RegexpEngine}.

Definition json_strings (l : list string) : json := JArr (JStr <$> l).

(** The optional settings; a registered configuration has none. *)
Definition json_LayerRule (r : LayerRule) : json :=
  JObj [("name", JStr (lay_Name r)); ("paths", json_strings (lay_Paths r));
        ("forbidden-patterns", json_strings (lay_ForbiddenPatterns r))].
Definition json_settings (s : FitnessFunctionSettings) : json :=
  JObj (omap id
    [(λ ls, ("layer-sovereignty", JObj [("layers", JArr (json_LayerRule <$> ls_Layers ls))]))
       <$> ffs_LayerSovereignty s;
     (λ d, ("deterministic-ordering", JObj [("tie-breaker-tokens", json_strings (dos_TieBreakerTokens d))]))
       <$> ffs_DeterministicOrdering s;
     (λ t, ("temporal-purity", JObj [("csharp-policy", JStr (tps_CSharpPolicy t))]))
       <$> ffs_TemporalPurity s]).

(** The JSON of a [Config], by its field tags. *)
Definition json_Config (c : Config) : json :=
  JObj ([("enforcement-mode", JStr (cfg_EnforcementMode c))]
    ++ (if String.eqb (cfg_EnforcementOnError c) "" then []
        else [("enforcement-on-error", JStr (cfg_EnforcementOnError c))])
    ++ [("fitness-functions", match cfg_FitnessFunctions c with
                              | None => JNull
                              | Some m => obj_of (JBool <$> m)
                              end)]
    ++ (match default [] (cfg_ExcludePatterns c) with
        | [] => []
        | ps => [("exclude-patterns", json_strings ps)]
        end)
    ++ (match cfg_FitnessFunctionSettings c with
        | None => []
        | Some s => [("fitness-function-settings", json_settings s)]
        end)).

(** [reflect.DeepEqual] on configurations.  Compiled patterns are determined by
    their sources, so the sources are compared. *)
Definition layer_sources (r : LayerRule) : string * list string * list string :=
  (lay_Name r, lay_Paths r, lay_ForbiddenPatterns r).
Definition settings_sources (s : FitnessFunctionSettings) :
  option (list (string * list string * list string)) * option (list string) * option string :=
  ((λ ls, layer_sources <$> ls_Layers ls) <$> ffs_LayerSovereignty s,
   dos_TieBreakerTokens <$> ffs_DeterministicOrdering s, tps_CSharpPolicy <$> ffs_TemporalPurity s).
Definition config_sources (c : Config) :
  string * string * option (gmap string bool) * option (list string) *
  option (option (list (string * list string * list string)) * option (list string) * option string) :=
  (cfg_EnforcementMode c, cfg_EnforcementOnError c, cfg_FitnessFunctions c, cfg_ExcludePatterns c,
   settings_sources <$> cfg_FitnessFunctionSettings c).
Definition DeepEqual (a b : Config) : bool := bool_decide (config_sources a = config_sources b).
End marshal.

Section register.
Context {R : RegexpEngine} {O : GoMapOrder} {U : UnicodeTables} {J : JsonErrorText}
        {N : JsonNumberText} {E : OSEnv} {I : Interference ConfigStore}.

Abbreviation SM := (M ConfigStore).

(** [planRegistration]: created and writeConfig, or the conflict. *)
Definition planRegistration (repo : string) (config : Config) (callerIsAdmin : bool)
    (s : ConfigStore) : result goerror (bool * bool) :=
  match Lookup repo s with
  | None => Ok (true, true)
  | Some existing =>
      if negb (ent_Valid existing) then Ok (true, true)
      else if DeepEqual (ent_Config existing) config then Ok (false, false)
      else if negb callerIsAdmin then Err (ErrConflict repo)
      else Ok (false, true)
  end.

Definition writeFileAtomic (dir path content : string) : SM (option goerror) :=
  let! created := CreateTemp dir "config-*.tmp" in
  match created with
  | Err err => ret (Some err)
  | Ok tempName =>
      let! failed := Write tempName content in
      match failed with
      | Some err => let! _ := Close tempName in let! _ := Remove tempName in ret (Some err)
      | None =>
          let! failed := Close tempName in
          match failed with
          | Some err => let! _ := Remove tempName in ret (Some err)
          | None =>
              let! failed := Rename tempName path in
              match failed with
              | Some err => let! _ := Remove tempName in ret (Some err)
              | None => ret None
              end
          end
      end
  end.

Definition newline_text : string := String (byte_of 10) "".

Definition writeRegisteredConfig (repo : string) (config : Config) : SM (option goerror) :=
  let! root := field cs_dir in
  let dir := path_join [root; repo] in
  let! failed := MkdirAll dir in
  match failed with
  | Some err => ret (Some (infrastructureError "creating repository config directory" (Some err)))
  | None =>
      let encoded := MarshalIndent (json_Config config) +:+ newline_text in
      let! failed := writeFileAtomic dir (path_join [dir; configFileName]) encoded in
      match failed with
      | Some err => ret (Some (infrastructureError "writing repository config" (Some err)))
      | None => ret None
      end
  end.

(** The watcher of a store built by [newConfigStore] is never nil. *)
Definition activateRepoConfig (ctx : context) (repo : string) : SM (option goerror) :=
  let! _ := modify (setRepoDir repo repo) in
  let! root := field cs_dir in
  let! failed := ensureWatch (path_join [root; repo]) in
  match failed with
  | Some err => ret (Some (infrastructureError "watching repository config directory" (Some err)))
  | None => reloadRepo ctx repo
  end.

Definition callerBindingIsPersistable (callerCN : string) : bool :=
  negb (String.eqb callerCN localCallerName).

(** [loadCallerBindingsDocument]; a nil map is [None]. *)
Definition loadCallerBindingsDocument (path : string) :
  SM (result goerror (option (gmap string json))) :=
  let! read := ReadFile path in
  match read with
  | Err err =>
      if errors_is err ErrNotExist then ret (Ok (Some ∅))
      else ret (Err (ErrWrap ("reading " +:+ path +:+ ": ") err ""))
  | Ok content =>
      if String.eqb content "" then ret (Ok (Some ∅))
      else match json_parse content ≫= dec_any_map with
      | Some document => ret (Ok document)
      | None => ret (Err (ErrWrap ("parsing " +:+ path +:+ ": ") (ErrNew (json_error_text content)) ""))
      end
  end.

(** [callerBindingsMap]: the callers, created in the document when absent. *)
Definition callerBindingsMap (document : gmap string json) : gmap string json :=
  match document !! "callers" with
  | Some (JObj fs) => members (JObj fs)
  | _ => ∅
  end.

Definition callerRepoNames (callers : gmap string json) (callerCN : string) : list string :=
  match callers !! callerCN with
  | Some (JArr raw) => omap (λ item, match item with JStr repo => Some repo | _ => None end) raw
  | _ => []
  end.

Definition repoListContains (values : list string) (want : string) : bool :=
  existsb (String.eqb want) values.

Definition writeCallerBindingsDocument (path : string) (document : gmap string json) :
  SM (option goerror) :=
  let! failed := WriteFile path (MarshalIndent (obj_of document) +:+ newline_text) in
  match failed with
  | Some err => ret (Some (ErrWrap ("writing " +:+ path +:+ ": ") err ""))
  | None => ret None
  end.

(** The document with the caller's list replaced; [callers] is the map inside the
    document. *)
Definition bind_document (document : gmap string json) (callerCN repo : string) : gmap string json :=
  let callers := callerBindingsMap document in
  <["callers" := obj_of (<[callerCN := json_strings (callerRepoNames callers callerCN ++ [repo])]> callers)]>
    document.

(** [bindCallerToRepo]: changed, or the error.  Writing into a nil map panics. *)
Definition bindCallerToRepo (callerCN repo : string) : SM (result goerror bool) :=
  let! path := field cs_callerPolicyPath in
  let! loaded := loadCallerBindingsDocument path in
  match loaded with
  | Err err => ret (Err (infrastructureError "reading caller bindings" (Some err)))
  | Ok None => panic "assignment to entry in nil map"
  | Ok (Some document) =>
      if repoListContains (callerRepoNames (callerBindingsMap document) callerCN) repo
      then ret (Ok false)
      else
        let! failed := writeCallerBindingsDocument path (bind_document document callerCN repo) in
        match failed with
        | Some err => ret (Err (infrastructureError "writing caller bindings" (Some err)))
        | None => ret (Ok true)
        end
  end.

Definition registerCallerBinding (ctx : context) (callerCN repo : string) : SM (option goerror) :=
  if negb (callerBindingIsPersistable callerCN) then ret None
  else
    let! bound := bindCallerToRepo callerCN repo in
    match bound with
    | Err err => ret (Some err)
    | Ok false => ret None
    | Ok true => reloadCallerRepoPolicy ctx
    end.

(** [Register], under [registerMu]: created, or the error. *)
Definition Register (ctx : context) (repo : string) (config : Config) (callerCN : string)
    (callerIsAdmin : bool) : SM (result goerror bool) :=
  let! plan := get (planRegistration repo config callerIsAdmin) in
  match plan with
  | Err err => ret (Err err)
  | Ok (created, writeConfig) =>
      let! failed :=
        (if writeConfig : bool then
           let! failed := writeRegisteredConfig repo config in
           match failed with
           | Some err => ret (Some err)
           | None => activateRepoConfig ctx repo
           end
         else ret None) in
      match failed with
      | Some err => ret (Err err)
      | None =>
          let! failed := registerCallerBinding ctx callerCN repo in
          match failed with
          | Some err => ret (Err err)
          | None => ret (Ok created)
          end
      end
  end.
End register.

(** ** The invariant of the store *)

Section invariant.
Context {R : RegexpEngine} {O : GoMapOrder} {OL : GoMapOrderLaws O} {U : UnicodeTables}
        {UL : UnicodeLaws U} {J : JsonErrorText} {N : JsonNumberText} {E : OSEnv}
        {I : Interference ConfigStore}.

(** Every entry has a valid key; a valid entry holds a well-formed configuration,
    the time it was loaded and no error. *)
Definition entry_wf (repo : string) (e : ConfigEntry) : Prop :=
  repoNamePattern repo = true ∧
  (ent_Valid e = true → config_wf (ent_Config e) ∧ is_Some (ent_LastValidAt e) ∧ ent_Error e = "").
Definition store_wf (s : ConfigStore) : Prop := map_Forall entry_wf (cs_entries s).

Context {HI : KeptByOthers I store_wf}.

Lemma cloneConfig_id c : cloneConfig c = c.
Proof. by destruct c. Qed.
Lemma cloneConfigEntry_id e : cloneConfigEntry e = e.
Proof. destruct e. unfold cloneConfigEntry. cbn. by rewrite cloneConfig_id. Qed.

Lemma store_wf_storeEntry now repo e s :
  repoNamePattern repo = true →
  (ent_Valid e = true → config_wf (ent_Config e) ∧ ent_Error e = "") →
  store_wf s → store_wf (storeEntry now repo e s).
Proof.
  intros Hr He Hs. unfold storeEntry, store_wf. cbn [cs_entries set_entries].
  apply map_Forall_insert_2; [|done]. split; [done|].
  rewrite cloneConfigEntry_id. destruct (ent_Valid e) eqn:Hv; cbn.
  - intros _. destruct (He eq_refl). eauto.
  - repeat case_match; cbn; congruence.
Qed.

Lemma keeps_store_entry repo e :
  repoNamePattern repo = true →
  (ent_Valid e = true → config_wf (ent_Config e) ∧ ent_Error e = "") →
  keeps store_wf (store_entry repo e).
Proof.
  intros Hr He w. unfold store_entry. apply (keeps_modify store_wf). intros s. by apply store_wf_storeEntry.
Qed.

Lemma keeps_field {A} (f : ConfigStore → A) : keeps store_wf (field f).
Proof. by intros w. Qed.

Lemma keeps_read_attempts ctx backoff path n : keeps store_wf (read_attempts ctx backoff path n).
Proof. induction n as [|n IH]; cbn [read_attempts]; keeps_tac; exact IH. Qed.

Lemma keeps_readConfigWithRetry ctx path : keeps store_wf (readConfigWithRetry ctx path).
Proof. intros w. apply keeps_read_attempts. Qed.

Lemma keeps_reloadRepo ctx repo :
  repoNamePattern repo = true → keeps store_wf (reloadRepo ctx repo).
Proof.
  intros Hr. unfold reloadRepo.
  apply keeps_bind; [apply keeps_field|intros dir]. apply keeps_bind; [apply (keeps_get store_wf)|intros sub].
  apply keeps_bind; [apply keeps_readConfigWithRetry|intros [content|err]].
  - destruct (Parse content) as [config|err] eqn:Hp;
      (apply keeps_bind; [|intros; apply keeps_ret]); apply keeps_store_entry; try done.
    intros _. cbn. split; [|done]. by destruct (Parse_ok _ _ Hp) as (raw & _ & Hwf & _).
  - destruct (is_context_error err); [apply keeps_ret|].
    apply keeps_bind; [by apply keeps_store_entry|intros; apply keeps_ret].
Qed.

Lemma keeps_reloadCallerRepoPolicy ctx : keeps store_wf (reloadCallerRepoPolicy ctx).
Proof.
  unfold reloadCallerRepoPolicy. apply keeps_bind; [apply keeps_field|intros path].
  apply keeps_bind; [apply keeps_readConfigWithRetry|intros [content|err]]; keeps_tac.
  all: by apply (keeps_modify store_wf).
Qed.

Lemma keeps_ensureWatch path : keeps store_wf (ensureWatch path).
Proof.
  unfold ensureWatch. apply keeps_bind; [apply keeps_Stat|intros [[]|err]]; keeps_tac.
  intros w. apply (keeps_access store_wf). intros s Hs. by repeat case_match.
Qed.

(** A key that may be pending: a repository name or the policy key. *)
Definition key_wf (k : string) : Prop := repoNamePattern k = true ∨ k = callerPolicyReloadKey.

Lemma keeps_reloadPendingKey ctx k : key_wf k → keeps store_wf (reloadPendingKey ctx k).
Proof.
  intros Hk. unfold reloadPendingKey. destruct (String.eqb_spec k callerPolicyReloadKey) as [->|Hne].
  - apply keeps_reloadCallerRepoPolicy.
  - apply keeps_reloadRepo. by destruct Hk.
Qed.

Lemma repoNameForPath_wf root path b repo :
  repoNameForPath root path b = Some repo → repoNamePattern repo = true.
Proof.
  unfold repoNameForPath. destruct (invalidRelConfigPath _); [done|].
  destruct (relPathPartsMatchShape _ _); cbn [negb]; [|done].
  destruct (validateRepoName _) as [name|] eqn:Hv; [|done]. intros [= <-].
  by apply validateRepoName_ok in Hv as [? _].
Qed.

Lemma store_wf_setRepoDir repo dir s : store_wf s → store_wf (setRepoDir repo dir s).
Proof. unfold setRepoDir. by case_match. Qed.

(** What [m] yields satisfies [Q]. *)
Definition yields {A} (Q : A → Prop) (m : M ConfigStore A) : Prop :=
  ∀ w a w', m w = (Returned a, w') → Q a.

Lemma yields_ret {A} (Q : A → Prop) a : Q a → yields Q (ret a).
Proof. by intros Ha w a' w' [= <- _]. Qed.
Lemma yields_bind {A B} (Q : B → Prop) (m : M ConfigStore A) k :
  (∀ a, yields Q (k a)) → yields Q (bind m k).
Proof.
  intros Hk w b w'. unfold bind. destruct (m w) as [[a| |] w1]; [|done..]. apply Hk.
Qed.

Lemma handleEvent_spec event :
  keeps store_wf (handleEvent event) ∧ yields (λ k, from_option key_wf True k) (handleEvent event).
Proof.
  unfold handleEvent. split.
  - intros w. match goal with |- _ → store_wf (w_app (?m w).2) => enough (keeps store_wf m) as H by apply H end.
    destruct (negb _); [apply keeps_ret|]. destruct (String.eqb _ _); [apply keeps_ret|].
    destruct (repoNameForConfigPath _ _); [|destruct (repoNameForRepoDir _ _); [|apply keeps_ret]].
    + apply keeps_bind; [|intros; apply keeps_ret]. apply (keeps_modify store_wf).
      intros s'. apply store_wf_setRepoDir.
    + apply keeps_bind; [apply (keeps_modify store_wf); intros s'; apply store_wf_setRepoDir|intros _].
      destruct (_ || _).
      * apply keeps_bind; [by apply (keeps_modify store_wf)|intros _].
        apply keeps_bind; [apply (keeps_get store_wf)|intros; apply keeps_ret].
      * apply keeps_bind; [apply keeps_ensureWatch|intros [err|]]; [apply keeps_ret|].
        apply keeps_bind; [apply keeps_Stat|intros; apply keeps_ret].
  - intros w. match goal with |- ∀ a w', ?m w = _ → _ => enough (yields (λ k, from_option key_wf True k) m) as H by apply H end.
    destruct (negb _); [by apply yields_ret|].
    destruct (String.eqb _ _); [apply yields_ret; by right|].
    destruct (repoNameForConfigPath _ _) eqn:H1.
    { apply yields_bind. intros _. apply yields_ret. left. by eapply repoNameForPath_wf. }
    destruct (repoNameForRepoDir _ _) eqn:H2; [|by apply yields_ret].
    assert (key_wf s) as Hs by (left; by eapply repoNameForPath_wf).
    apply yields_bind. intros _. destruct (_ || _).
    + apply yields_bind. intros _. apply yields_bind. intros [e|]; by apply yields_ret.
    + apply yields_bind. intros [e|]; [by apply yields_ret|]. apply yields_bind.
      intros [e|]; by apply yields_ret.
Qed.

Lemma flush_keys_spec ctx keys : ∀ pending,
  Forall key_wf keys →
  keeps store_wf (flush_keys ctx keys pending) ∧
  yields (λ r, r.2 ⊆ pending ∧ (r.1 = true → r.2 = pending ∖ list_to_set keys))
    (flush_keys ctx keys pending).
Proof.
  induction keys as [|k keys IH]; intros pending Hk; cbn [flush_keys].
  { split; [apply keeps_ret|]. apply yields_ret. cbn. split; [done|]. set_solver. }
  apply Forall_cons in Hk as [Hk Hks]. destruct (IH (pending ∖ {[k]}) Hks) as [IHk IHr].
  assert (yields (λ r, r.2 ⊆ pending ∧ (r.1 = true → r.2 = pending ∖ list_to_set (k :: keys)))
            (flush_keys ctx keys (pending ∖ {[k]}))) as Hr.
  { intros w [go left] w' Hw. apply IHr in Hw as [Hsub Heq]. cbn in *.
    split; [set_solver|]. intros Hgo. rewrite (Heq Hgo). set_solver. }
  split.
  - apply keeps_bind; [by apply keeps_reloadPendingKey|intros [err|]]; [|done].
    apply keeps_bind; [by intros w|intros [e|]]; [apply keeps_ret|done].
  - apply yields_bind. intros [err|]; [|done]. apply yields_bind.
    intros [e|]; [|done]. by apply yields_ret.
Qed.

Lemma elem_of_pending_order (pending : gset string) k :
  k ∈ (map_order unit (gset_to_gmap tt pending)).*1 ↔ k ∈ pending.
Proof.
  rewrite list_elem_of_fmap. split.
  - intros ([k' []] & -> & Hin). apply elem_of_map_order in Hin.
    by apply lookup_gset_to_gmap_Some in Hin as [? _].
  - intros Hin. exists (k, tt). split; [done|]. apply elem_of_map_order.
    by apply lookup_gset_to_gmap_Some.
Qed.

(** The watcher's variables: pending keys are valid, and a running watcher with
    something pending has its timer armed. *)
Definition watch_wf (l : watch_state) : Prop :=
  (∀ k, k ∈ wt_pending l → key_wf k) ∧
  (wt_running l = true → wt_pending l ≠ ∅ → wt_timerActive l = true).

Lemma watch_step_spec ctx i l :
  watch_wf l → keeps store_wf (watch_step ctx i l) ∧ yields watch_wf (watch_step ctx i l).
Proof.
  intros [Hk Ht]. unfold watch_step. destruct (wt_running l) eqn:Hrun; cbn [negb].
  2:{ split; [apply keeps_ret|]. apply yields_ret. split; [done|]. congruence. }
  destruct i as [|event| |].
  - split; [apply keeps_ret|]. by apply yields_ret.
  - unfold recordWatchEvent. destruct (handleEvent_spec event) as [Hkeep Hret]. split.
    + apply keeps_bind; [done|intros; apply keeps_ret].
    + intros w l' w'. unfold bind. destruct (handleEvent event w) as [[key| |] w1] eqn:Hw; [|done..].
      apply Hret in Hw. intros [= <- _]. destruct key as [k|]; cbn in Hw.
      * split; [|done]. cbn. intros k' [->%elem_of_singleton|Hin]%elem_of_union; auto.
      * split; [done|]. intros _ Hne. exact (Ht eq_refl Hne).
  - split; [apply keeps_ret|]. apply yields_ret. split; [done|]. intros _ Hne. exact (Ht eq_refl Hne).
  - destruct (wt_timerActive l) eqn:Hact.
    2:{ split; [apply keeps_ret|]. apply yields_ret. split; [done|]. intros _ Hne.
        rewrite Hact. exact (Ht eq_refl Hne). }
    unfold flushPendingReloads.
    destruct (flush_keys_spec ctx (map_order unit (gset_to_gmap tt (wt_pending l))).*1 (wt_pending l))
      as [Hkeep Hret].
    { apply Forall_forall. intros k Hin. apply Hk. by apply elem_of_pending_order. }
    split; [apply keeps_bind; [done|intros; apply keeps_ret]|].
    intros w l' w'. unfold bind. destruct (flush_keys _ _ _ w) as [[[go left]| |] w1] eqn:Hw; [|done..].
    apply Hret in Hw as [Hsub Heq]. intros [= <- _]. cbn in *. split; cbn.
    + intros k Hin. apply Hk. set_solver.
    + intros Hgo Hne. exfalso. apply Hne. rewrite (Heq Hgo). apply set_eq. intros k.
      rewrite elem_of_difference, elem_of_list_to_set, elem_of_pending_order. set_solver.
Qed.

Lemma keeps_Register ctx repo config caller admin :
  repoNamePattern repo = true → keeps store_wf (Register ctx repo config caller admin).
Proof.
  intros Hr.
  assert (∀ dir path content, keeps store_wf (writeFileAtomic dir path content)) as Hatomic.
  { intros. unfold writeFileAtomic. keeps_tac. }
  assert (keeps store_wf (writeRegisteredConfig repo config)) as Hwrite.
  { unfold writeRegisteredConfig. apply keeps_bind; [apply keeps_field|intros]. keeps_tac. }
  assert (keeps store_wf (activateRepoConfig ctx repo)) as Hactivate.
  { unfold activateRepoConfig.
    apply keeps_bind; [apply (keeps_modify store_wf); intros s; apply store_wf_setRepoDir|intros _].
    apply keeps_bind; [apply keeps_field|intros root].
    apply keeps_bind; [apply keeps_ensureWatch|intros [err|]]; [apply keeps_ret|].
    by apply keeps_reloadRepo. }
  assert (keeps store_wf (registerCallerBinding ctx caller repo)) as Hbind.
  { unfold registerCallerBinding. destruct (negb _); [apply keeps_ret|].
    apply keeps_bind; [|intros [[]|]]; [|apply keeps_reloadCallerRepoPolicy|apply keeps_ret..].
    unfold bindCallerToRepo, loadCallerBindingsDocument, writeCallerBindingsDocument.
    apply keeps_bind; [apply keeps_field|intros]. keeps_tac. }
  unfold Register. apply keeps_bind; [apply (keeps_get store_wf)|intros [[c [|]]|]]; keeps_tac.
Qed.

Lemma load_child_returns dir name repo repoDirs :
  repoNamePattern repo = true →
  yields (λ r, match r with Ok (Some (k, e), _) => entry_wf k e | _ => True end)
    (load_child dir name repo repoDirs).
Proof.
  intros Hr. unfold load_child. apply yields_bind. intros [content|err].
  - destruct (Parse content) as [config|err] eqn:Hp.
    + apply yields_bind. intros now. apply yields_ret. split; [done|]. intros _.
      destruct (Parse_ok _ _ Hp) as (raw & _ & Hwf & _). cbn. eauto.
    + by apply yields_ret.
  - destruct (errors_is err ErrNotExist); by apply yields_ret.
Qed.

Lemma loadChildConfig_returns dir child repoDirs :
  yields (λ r, match r with Ok (Some (k, e), _) => entry_wf k e | _ => True end)
    (loadChildConfig dir child repoDirs).
Proof.
  destruct child as [name isDir]. unfold loadChildConfig. destruct isDir; cbn [negb]; [|by apply yields_ret].
  destruct (validateRepoName name) as [repo|] eqn:Hv; [|by apply yields_ret].
  apply validateRepoName_ok in Hv as [Hr _].
  destruct (repoDirs !! repo) as [previous|]; [destruct (negb _); [by apply yields_ret|]|];
    by apply load_child_returns.
Qed.

Lemma scan_children_returns dir children : ∀ entries repoDirs n,
  map_Forall entry_wf entries →
  yields (λ r, match r with Ok (es, _, _) => map_Forall entry_wf es | Err _ => True end)
    (scan_children dir children entries repoDirs n).
Proof.
  induction children as [|child children IH]; intros entries repoDirs n Hes; cbn [scan_children].
  { by apply yields_ret. }
  intros w r w'. unfold bind. destruct (loadChildConfig dir child repoDirs w) as [[loaded| |] w1] eqn:Hw; [|done..].
  apply loadChildConfig_returns in Hw. destruct loaded as [[[[k e]|] repoDirs']|err].
  - apply IH. by apply map_Forall_insert_2.
  - by apply IH.
  - by intros [= <- _].
Qed.

Lemma watch_repoDirs_keeps dir l : keeps store_wf (watch_repoDirs dir l).
Proof.
  induction l as [|[k d] l IH]; cbn [watch_repoDirs]; [apply keeps_ret|].
  apply keeps_bind; [apply keeps_ensureWatch|intros [err|]]; [apply keeps_ret|exact IH].
Qed.

Lemma newConfigStore_wf dir opts w w' :
  newConfigStore dir opts w = (Returned None, w') → store_wf (w_app w').
Proof.
  unfold newConfigStore, bind at 1.
  destruct (scanMountedConfigs (path_clean dir) w) as [[scanned| |] w1] eqn:Hs; [|done..].
  destruct scanned as [[[entries repoDirs] n]|err]; [|done].
  assert (map_Forall entry_wf entries) as Hwf.
  { revert Hs. unfold scanMountedConfigs, bind at 1.
    destruct (statConfigDir _ w) as [[[err|]| |] w2]; [done| |done..].
    unfold bind at 1. destruct (ReadDir _ w2) as [[[children|err]| |] w3]; [|done..].
    intros Hscan. exact (scan_children_returns _ _ _ _ _ (map_Forall_empty _) _ _ _ Hscan). }
  unfold bind at 1. destruct (loadCallerRepoPolicy _ w1) as [[[policy|err]| |] w2]; [|done..].
  destruct (os_fault _ _ _); [done|].
  intros Hw. change w' with ((Returned (A := option goerror) None, w').2). rewrite <-Hw.
  match goal with |- store_wf (w_app (?m ?x).2) => enough (keeps store_wf m) as Hk by (apply Hk; exact Hwf) end.
  unfold watchInitialPaths. apply keeps_bind; [apply keeps_ensureWatch|intros [err|]]; [apply keeps_ret|].
  apply keeps_bind; [apply watch_repoDirs_keeps|intros [err|]]; [apply keeps_ret|].
  destruct (String.eqb _ _); [apply keeps_ret|].
  apply keeps_bind; [apply keeps_ensureWatch|intros [err|]]; apply keeps_ret.
Qed.

(** ** Reachable stores *)

(** The steps of a running store: an iteration of the watcher, a registration of a
    valid name, or a change of the files and directories by others, while time
    passes. *)
Inductive store_step : watch_state * world ConfigStore → watch_state * world ConfigStore → Prop :=
| step_watch ctx i l w l' w' :
    watch_step ctx i l w = (Returned l', w') → store_step (l, w) (l', w')
| step_register ctx repo config caller admin l w o w' :
    repoNamePattern repo = true → Register ctx repo config caller admin w = (o, w') →
    store_step (l, w) (l, w')
| step_files l w files dirs clock :
    (w_clock w ≤ clock)%nat → store_step (l, w) (l, mkWorld (w_app w) files dirs clock).

Definition initial_watch : watch_state := mkWatch ∅ false true.

Lemma store_step_wf x y :
  store_step x y → watch_wf x.1 → store_wf (w_app x.2) → watch_wf y.1 ∧ store_wf (w_app y.2).
Proof.
  destruct 1 as [ctx i l w l' w' Hw|ctx repo config caller admin l w o w' Hr Hw|]; cbn; intros Hl Hs; [| |done].
  - destruct (watch_step_spec ctx i l Hl) as [Hkeep Hret]. split; [by eapply Hret|].
    specialize (Hkeep w Hs). by rewrite Hw in Hkeep.
  - split; [done|]. pose proof (keeps_Register ctx repo config caller admin Hr w Hs) as Hk.
    by rewrite Hw in Hk.
Qed.

Lemma reachable_wf x y :
  rtc store_step x y → watch_wf x.1 → store_wf (w_app x.2) → watch_wf y.1 ∧ store_wf (w_app y.2).
Proof.
  induction 1 as [|x y z Hxy _ IH]; [done|]. intros Hl Hs.
  destruct (store_step_wf _ _ Hxy Hl Hs). by apply IH.
Qed.

(** C16: from start-up and through any run of file events, reloads, registrations
    and changes of the files between them, with any faults and any interference that respects the store,
    a check is only ever served a well-formed configuration under its canonical
    name, an unknown repository is a not-found error and an invalid or unreadable
    one an infrastructure error; and a running watcher never holds a pending
    reload without its timer armed. *)
Theorem served_configs_wf dir opts w0 w l w'
    (Hnew : newConfigStore dir opts w0 = (Returned None, w))
    (Hrun : rtc store_step (initial_watch, w) (l, w')) :
  (wt_running l = true → wt_pending l ≠ ∅ → wt_timerActive l = true) ∧
  ∀ repo, match loadConfig (Some (w_app w')) repo with
          | Ok (c, name) => config_wf c ∧ canonicalRepoName repo = Ok name
          | Err e =>
              match canonicalRepoName repo with
              | Err e' => e = e'
              | Ok name => error_kind e = Some (if decide (is_Some (cs_entries (w_app w') !! name))
                                                then ErrorKindInfrastructure else ErrorKindNotFound)
              end
          end.
Proof.
  destruct (reachable_wf _ _ Hrun) as [[_ Ht] Hs].
  { split; [|done]. cbn. set_solver. }
  { by eapply newConfigStore_wf. }
  split; [done|]. intros repo. unfold loadConfig, Lookup.
  destruct (canonicalRepoName repo) as [name|e]; [|done]. cbn in Hs.
  destruct (cs_entries (w_app w') !! name) as [e|] eqn:He.
  - rewrite cloneConfigEntry_id. destruct (ent_Valid e) eqn:Hv; cbn [negb].
    + split; [|done]. destruct (Hs _ _ He) as [_ Hok]. by apply Hok.
    + rewrite decide_True by eauto. done.
  - rewrite decide_False by (by intros [? ?]). done.
Qed.
End invariant.

(** ** Functional behaviour of reloads and registration

    Sequential runs: no other goroutine writes the store meanwhile; faults are
    still arbitrary. *)

Section sequential.
Context {R : RegexpEngine} {O : GoMapOrder} {OL : GoMapOrderLaws O} {U : UnicodeTables}
        {UL : UnicodeLaws U} {J : JsonErrorText} {N : JsonNumberText} {E : OSEnv}.
#[local] Instance alone : Interference ConfigStore := no_interference.

Lemma ReadFile_spec (w : world ConfigStore) path r w' :
  ReadFile path w = (Returned r, w') →
  w_app w' = w_app w ∧ w_files w' = w_files w ∧ w_dirs w' = w_dirs w ∧
  ∀ content, r = Ok content → w_files w !! path = Some content.
Proof.
  unfold ReadFile, os_op. destruct (os_fault _ _ _).
  - by intros [= <- <-].
  - destruct (w_files w !! path) eqn:Hp; intros [= <- <-]; split_and!; try done.
    by intros content [= <-].
Qed.

Lemma read_attempts_spec ctx backoff path n : ∀ (w : world ConfigStore) r w',
  read_attempts ctx backoff path n w = (Returned r, w') →
  w_app w' = w_app w ∧ w_files w' = w_files w ∧ w_dirs w' = w_dirs w ∧
  ∀ content, r = Ok content → w_files w !! path = Some content.
Proof.
  induction n as [|n IH]; intros w r w'; cbn [read_attempts]; unfold bind at 1;
    destruct (ReadFile path w) as [[[content|err]| |] w1] eqn:Hr;
    try (apply ReadFile_spec in Hr as (Ha & Hf & Hd & Hc)); try done.
  - intros [= <- <-]. eauto 10.
  - destruct (errors_is err ErrNotExist); by intros [= <- <-].
  - intros [= <- <-]. eauto 10.
  - destruct (errors_is err ErrNotExist); [by intros [= <- <-]|].
    unfold bind, wait_for, bind, Now, ret. destruct (ctx_err_at _ _); [by intros [= <- <-]|].
    intros H. apply IH in H as (Ha' & Hf' & Hd' & Hc'). cbn in *. rewrite Ha', Hf', Hd'.
    split_and!; [done..|]. intros content Heq. rewrite <-Hf. auto.
Qed.

(** The path a repository's configuration is read from. *)
Definition config_path (s : ConfigStore) (repo : string) : string :=
  path_join [cs_dir s; repoDir repo s; configFileName].

Lemma reloadRepo_run ctx repo (w : world ConfigStore) r w' :
  reloadRepo ctx repo w = (Returned r, w') →
  w_files w' = w_files w ∧ w_dirs w' = w_dirs w ∧
  match r with
  | Some err => is_context_error err = true ∧ w_app w' = w_app w
  | None => ∃ now entry, w_app w' = storeEntry now repo entry (w_app w) ∧
      ((∃ message, entry = invalid_entry message) ∨
       ∃ content config, w_files w !! config_path (w_app w) repo = Some content ∧
         Parse content = Ok config ∧ entry = valid_entry config None)
  end.
Proof.
  unfold reloadRepo, bind, field, get, access, readConfigWithRetry.
  cbn [w_app tick set_app w_clock w_files w_dirs interfere alone no_interference].
  unfold interfere, alone, no_interference.
  destruct (read_attempts _ _ _ _ _) as [[[content|err]| |] w1] eqn:Hr; [| |done..];
    apply read_attempts_spec in Hr as (Ha & Hf & Hd & Hc); cbn in Ha, Hf, Hd.
  - specialize (Hc content eq_refl). cbn in Hc.
    destruct (Parse content) as [config|err] eqn:Hp; intros [= <- <-]; cbn; rewrite Ha, Hf, Hd.
    + split_and!; [done..|]. eexists _, _. split; [done|]. right. exists content, config. done.
    + split_and!; [done..|]. eexists _, _. split; [done|]. left. eauto.
  - destruct (is_context_error err) eqn:He; intros [= <- <-]; cbn; rewrite Ha, Hf, Hd;
      (split_and!; [done..|]); [done|].
    eexists _, _. split; [done|]. left. eauto.
Qed.

Lemma storeEntry_lookup now repo entry s other :
  cs_entries (storeEntry now repo entry s) !! other =
  if decide (other = repo) then
    Some (mkEntry (ent_Config entry) (ent_Valid entry) (ent_Error entry)
            (if ent_Valid entry then Some now
             else match cs_entries s !! repo ≫= ent_LastValidAt with
                  | Some t => Some t
                  | None => ent_LastValidAt entry
                  end))
  else cs_entries s !! other.
Proof.
  unfold storeEntry. cbn [cs_entries set_entries]. rewrite cloneConfigEntry_id.
  destruct (decide (other = repo)) as [->|Hne].
  - rewrite lookup_insert_eq. f_equal. destruct (ent_Valid entry) eqn:Hv; [done|].
    destruct (cs_entries s !! repo) as [previous|]; cbn; [destruct (ent_LastValidAt previous)|];
      try done; destruct entry; cbn in *; by subst.
  - by rewrite lookup_insert_ne.
Qed.

(** C38: a reload is fail-closed and local.  If it is canceled nothing changes;
    otherwise only this repository's entry changes, it is valid exactly with the
    parse of the file on disk, and when the file is missing, unreadable or
    rejected the repository stops being served while the time it was last valid
    is kept. *)
Theorem reloadRepo_fail_closed ctx repo (w : world ConfigStore) r w'
    (H : reloadRepo ctx repo w = (Returned r, w')) :
  match r with
  | Some err => is_context_error err = true ∧ w_app w' = w_app w
  | None =>
      (∀ other, other ≠ repo → cs_entries (w_app w') !! other = cs_entries (w_app w) !! other) ∧
      ∃ e, cs_entries (w_app w') !! repo = Some e ∧
        if ent_Valid e then
          ∃ content, w_files w !! config_path (w_app w) repo = Some content ∧
            Parse content = Ok (ent_Config e)
        else ent_LastValidAt e = cs_entries (w_app w) !! repo ≫= ent_LastValidAt ∧
             (canonicalRepoName repo = Ok repo → is_ok (loadConfig (Some (w_app w')) repo) = false)
  end.
Proof.
  apply reloadRepo_run in H as (_ & _ & H). destruct r as [err|]; [done|].
  destruct H as (now & entry & -> & Hentry). split.
  { intros other Hne. by rewrite storeEntry_lookup, decide_False. }
  eexists. split; [by rewrite storeEntry_lookup, decide_True|]. cbn.
  destruct Hentry as [[message ->]|(content & config & Hf & Hp & ->)]; cbn; [|eauto].
  split; [by destruct (cs_entries (w_app w) !! repo ≫= ent_LastValidAt)|].
  intros Hc. unfold loadConfig, Lookup. rewrite Hc, storeEntry_lookup, decide_True by done.
  by rewrite cloneConfigEntry_id.
Qed.

Lemma reloadCallerRepoPolicy_run ctx (w : world ConfigStore) r w' :
  reloadCallerRepoPolicy ctx w = (Returned r, w') →
  match r with
  | Some err => is_context_error err = true ∧ w_app w' = w_app w
  | None => ∃ policy, w_app w' = storeCallerRepoPolicy policy (w_app w) ∧
      (policy = emptyCallerRepoPolicy ∨
       ∃ content, w_files w !! cs_callerPolicyPath (w_app w) = Some content ∧
         parseCallerRepoPolicy content = Ok policy)
  end.
Proof.
  unfold reloadCallerRepoPolicy, bind, field, modify, access, readConfigWithRetry.
  cbn [w_app tick set_app w_clock w_files w_dirs].
  unfold interfere, alone, no_interference.
  destruct (read_attempts _ _ _ _ _) as [[[content|err]| |] w1] eqn:Hr; [| |done..];
    apply read_attempts_spec in Hr as (Ha & Hf & Hd & Hc); cbn in Ha, Hf, Hd.
  - specialize (Hc content eq_refl).
    destruct (parseCallerRepoPolicy content) as [policy|err] eqn:Hp; intros [= <- <-]; cbn; rewrite Ha;
      eexists; (split; [done|]); [right; eauto|by left].
  - destruct (is_context_error err) eqn:He; intros [= <- <-]; cbn; rewrite Ha; [done|].
    eexists; (split; [done|]). by left.
Qed.

Lemma Allows_empty caller repo : Allows emptyCallerRepoPolicy caller repo = false.
Proof. unfold Allows. cbn. rewrite lookup_empty. by case_match. Qed.
Lemma IsAdmin_empty caller : IsAdmin emptyCallerRepoPolicy caller = false.
Proof. unfold IsAdmin. case_match; [done|]. by apply bool_decide_eq_false. Qed.

(** Reloading the caller policy is fail-closed: unless it is canceled, either
    the new policy is the parse of the file on disk, or (missing, unreadable or
    malformed file) no caller is allowed anything and nobody is an admin; the
    repository entries are untouched. *)
Theorem reloadCallerRepoPolicy_fail_closed ctx (w : world ConfigStore) r w'
    (H : reloadCallerRepoPolicy ctx w = (Returned r, w')) :
  cs_entries (w_app w') = cs_entries (w_app w) ∧
  match r with
  | Some err => is_context_error err = true ∧ w_app w' = w_app w
  | None =>
      (∃ content, w_files w !! cs_callerPolicyPath (w_app w) = Some content ∧
         parseCallerRepoPolicy content = Ok (cs_callerPolicy (w_app w'))) ∨
      ∀ caller repo, CallerAllowed caller repo (w_app w') = false ∧
                     CallerIsAdmin caller (w_app w') = false
  end.
Proof.
  apply reloadCallerRepoPolicy_run in H. destruct r as [err|].
  { destruct H as [? ->]. done. }
  destruct H as (policy & -> & Hp). split; [done|].
  destruct Hp as [->|(content & Hf & Hp)].
  - right. intros caller repo. split; [apply Allows_empty|apply IsAdmin_empty].
  - left. exists content. split; [done|]. rewrite Hp. by destruct policy.
Qed.

(** Nothing but the caller bindings and the policy changes. *)
Definition only_bindings (w w' : world ConfigStore) : Prop :=
  cs_entries (w_app w') = cs_entries (w_app w) ∧
  cs_callerPolicyPath (w_app w') = cs_callerPolicyPath (w_app w) ∧
  ∀ path, path ≠ cs_callerPolicyPath (w_app w) → w_files w' !! path = w_files w !! path.

#[local] Instance only_bindings_preorder : PreOrder only_bindings.
Proof.
  split; [done|]. intros x y z (H1 & H2 & H3) (H4 & H5 & H6). split_and!; [congruence..|].
  intros path Hp. rewrite H6 by congruence. by apply H3.
Qed.

Lemma only_bindings_reload ctx : transits only_bindings (reloadCallerRepoPolicy ctx).
Proof.
  unfold reloadCallerRepoPolicy. apply (transits_bind only_bindings); [by intros w|intros path].
  apply (transits_bind only_bindings); [ |].
  { intros w. unfold readConfigWithRetry. revert w.
    assert (∀ b n, transits only_bindings (read_attempts ctx b path n)) as H; [|intros w; apply H].
    intros b n. induction n as [|n IH]; cbn [read_attempts];
      (apply (transits_bind only_bindings); [by apply transits_ReadFile|intros [c|e]]);
      try apply (transits_ret only_bindings); destruct (errors_is e ErrNotExist);
      try by apply (transits_ret only_bindings).
    apply (transits_bind only_bindings); [by intros w|intros [se|]];
      [apply (transits_ret only_bindings)|exact IH]. }
  assert (∀ p, transits only_bindings (modify (storeCallerRepoPolicy p))) as Hm by (by intros p w).
  intros [content|err].
  - destruct (parseCallerRepoPolicy content);
      (apply (transits_bind only_bindings); [apply Hm|intros; apply (transits_ret only_bindings)]).
  - destruct (is_context_error err); [apply (transits_ret only_bindings)|].
    apply (transits_bind only_bindings); [apply Hm|intros; apply (transits_ret only_bindings)].
Qed.

Lemma only_bindings_register ctx caller repo :
  transits only_bindings (registerCallerBinding ctx caller repo).
Proof.
  unfold registerCallerBinding. destruct (negb _); [apply (transits_ret only_bindings)|].
  apply (transits_bind only_bindings); [ |intros [[]|]];
    [|apply only_bindings_reload|apply (transits_ret only_bindings)..].
  unfold bindCallerToRepo. intros w. unfold bind at 1, field at 1.
  set (path := cs_callerPolicyPath (w_app w)). unfold bind at 1.
  assert (transits only_bindings (loadCallerBindingsDocument path)) as Hload.
  { unfold loadCallerBindingsDocument. apply (transits_bind only_bindings); [by apply transits_ReadFile|].
    intros [c|e]; repeat case_match; apply (transits_ret only_bindings). }
  specialize (Hload w). destruct (loadCallerBindingsDocument path w) as [[[[doc|]|err]| |] w1];
    cbn [snd] in Hload; try done.
  destruct (repoListContains _ _); [done|]. destruct Hload as (H1 & H2 & H3).
  etrans; [by split_and!|]. unfold bind at 1, writeCallerBindingsDocument, WriteFile, bind at 1, Write, os_op.
  destruct (os_fault _ _ _); cbn; (split_and!; [done..|]); cbn;
    intros p Hp; rewrite lookup_insert_ne; [done|unfold path; congruence|done|unfold path; congruence].
Qed.

(** Registering over a valid configuration: a non-admin asking for a
    different configuration gets the conflict error and changes no file, entry or
    binding; replaying the identical configuration never rewrites the
    configuration, and the reserved local identity is never written to the caller
    bindings. *)
Theorem Register_existing ctx repo config caller admin (w : world ConfigStore) existing o w'
    (Hex : Lookup repo (w_app w) = Some existing) (Hvalid : ent_Valid existing = true)
    (H : Register ctx repo config caller admin w = (o, w')) :
  if DeepEqual (ent_Config existing) config then
    cs_entries (w_app w') = cs_entries (w_app w) ∧
    (∀ path, path ≠ cs_callerPolicyPath (w_app w) → w_files w' !! path = w_files w !! path) ∧
    (caller = localCallerName → o = Returned (Ok false) ∧ w_files w' = w_files w ∧ w_app w' = w_app w)
  else admin = false →
    o = Returned (Err (ErrConflict repo)) ∧ w_files w' = w_files w ∧ w_app w' = w_app w.
Proof.
  revert H. unfold Register. pose proof (only_bindings_register ctx caller repo) as Hb.
  assert (caller = localCallerName → registerCallerBinding ctx caller repo = ret None) as Hlocal
    by (by intros ->).
  set (m := registerCallerBinding ctx caller repo) in *. clearbody m.
  unfold get, access, bind, interfere, alone, no_interference, planRegistration.
  rewrite Hex, Hvalid. cbn [negb]. destruct (DeepEqual (ent_Config existing) config).
  2:{ intros H ->. cbn in H. injection H as <- <-. done. }
  set (w1 := tick (set_app (w_app w) w)). cbn [ret]. specialize (Hb w1). intros H.
  assert (w' = (m w1).2 ∧ (m w1 = (Returned None, w1) → o = Returned (Ok false))) as [-> Ho].
  { destruct (m w1) as [[[err|]|p|] w2]; inversion H; subst; done. }
  destruct Hb as (H1 & H2 & H3). split_and!; [done|done|]. intros Hl. specialize (Hlocal Hl).
  subst m. split_and!; [by apply Ho|done|done].
Qed.
End sequential.

(** ** What a registration writes is what a reload reads *)

(** [RegisterRequest] of [register.go], and the configuration it asks for. *)
Record RegisterRequest := mkRegister {
  reg_Repo : string;
  reg_EnforcementMode : string;
  reg_FitnessFunctions : option (gmap string bool);
}.

Section roundtrip.
Context {R : RegexpEngine} {O : GoMapOrder} {OL : GoMapOrderLaws O} {U : UnicodeTables}
        {J : JsonErrorText} {N : JsonNumberText}.

Definition buildRegisterConfig (request : RegisterRequest) : result goerror Config :=
  let mode := if String.eqb (reg_EnforcementMode request) "" then EnforcementAdvisory
              else reg_EnforcementMode request in
  if negb (bool_decide (mode ∈ [EnforcementBlock; EnforcementAdvisory; EnforcementOff]))
  then Err (inputError ("unsupported enforcement mode " +:+ quote mode) None)
  else match NormalizeFitnessFunctions (reg_FitnessFunctions request) with
       | Err err => Err (inputError (error_string err) None)
       | Ok fitnessFunctions =>
           Ok (mkConfig mode EnforcementOnErrorBlock (Some fitnessFunctions) None None)
       end.

Definition ascii_only (s : string) : bool := forallb (λ a, byte_val a <? 128)%Z (bytes s).

Lemma catalog_ascii name : is_Some (defaultFitnessFunctions !! name) → ascii_only name = true.
Proof.
  intros [b Hb]. assert (name ∈ (map_to_list defaultFitnessFunctions).*1) as Hin.
  { apply list_elem_of_fmap. exists (name, b). by rewrite elem_of_map_to_list. }
  assert (Forall (λ n, ascii_only n = true) (map_to_list defaultFitnessFunctions).*1) as H.
  { apply (bool_decide_unpack _). vm_compute. done. }
  rewrite Forall_forall in H. by apply H.
Qed.

Lemma obj_of_members {A} (f : A → json) (m : gmap string A) :
  ∃ l, obj_of (f <$> m) = JObj ((λ kv, (kv.1, f kv.2)) <$> l) ∧ l ≡ₚ map_to_list m.
Proof.
  unfold obj_of. rewrite map_to_list_fmap.
  exists (stable_sort fst string_leb (map_to_list m)). split; [|apply stable_sort_perm].
  f_equal. unfold stable_sort. induction (map_to_list m) as [|[k x] l IH]; [done|].
  cbn [foldr fmap list_fmap]. cbn [foldr fmap list_fmap] in IH.
  rewrite IH. cbn [prod_map fst snd id]. clear IH.
  induction (foldr (stable_insert fst string_leb) [] l) as [|[k' x'] l' IH]; [done|].
  cbn [stable_insert fmap list_fmap fst snd]. destruct (string_leb k k'); [done|].
  cbn [fmap list_fmap]. by f_equal.
Qed.

Lemma dec_map_members {A} (zero : A) (d : decoder A) (f : A → json) (l : list (string * A)) m0 :
  (∀ a, d (f a) zero = Some a) → NoDup l.*1 → (∀ k, k ∈ l.*1 → m0 !! k = None) →
  foldl (λ acc kv,
           match acc, d kv.2 zero with
           | Some (Some m), Some v => Some (Some (<[kv.1 := v]> m))
           | _, _ => None
           end) (Some (Some m0)) ((λ kv, (kv.1, f kv.2)) <$> l)
  = Some (Some (list_to_map l ∪ m0 : gmap string A)).
Proof.
  intros Hd. revert m0. induction l as [|[k b] l IH]; intros m0 Hnd Hm0.
  { cbn. by rewrite (left_id_L ∅ (∪)). }
  inversion Hnd as [|? ? Hk Hnd']; subst. cbn [fmap list_fmap foldl fst snd]. rewrite Hd.
  rewrite IH; [|done|].
  - do 2 f_equal. rewrite list_to_map_cons, <-insert_union_l. symmetry.
    apply insert_union_r. by apply not_elem_of_list_to_map_1.
  - intros k' Hin. rewrite lookup_insert_ne; [apply Hm0; by right|]. by intros ->.
Qed.

(** A map is read back from the object it is printed as, when its values are. *)
Lemma dec_map_obj_of {A} (zero : A) (d : decoder A) (f : A → json) (m : gmap string A) :
  (∀ a, d (f a) zero = Some a) → dec_map zero d (obj_of (f <$> m)) None = Some (Some m).
Proof.
  intros Hd. destruct (obj_of_members f m) as (l & -> & Hl). cbn [dec_map default].
  assert (NoDup l.*1) by (rewrite Hl; apply NoDup_fst_map_to_list).
  rewrite dec_map_members; [|done..]. do 2 f_equal. rewrite (right_id_L ∅ (∪)).
  rewrite <-(list_to_map_to_list m). by apply list_to_map_proper.
Qed.
Lemma dec_map_obj (m : gmap string bool) :
  dec_map false dec_bool (obj_of (JBool <$> m)) None = Some (Some m).
Proof. by apply dec_map_obj_of. Qed.

Lemma plain_obj (m : gmap string bool) :
  (∀ k, is_Some (m !! k) → ascii_only k = true) → plain (obj_of (JBool <$> m)) = true.
Proof.
  intros Hm. destruct (obj_of_members JBool m) as (l & -> & Hl). cbn [plain].
  apply forallb_forall. intros [k j] Hin. apply list_elem_of_In, list_elem_of_fmap in Hin.
  destruct Hin as ([k' b] & [= -> ->] & Hin). cbn. rewrite andb_true_r.
  apply Hm. rewrite Hl in Hin. apply elem_of_map_to_list in Hin. eauto.
Qed.

Lemma map_order_empty {A} : map_order A ∅ = [].
Proof.
  destruct (map_order A ∅) as [|[k x] l] eqn:H; [done|].
  assert ((k, x) ∈ map_order A ∅) as Hin by (rewrite H; by left).
  apply elem_of_map_order in Hin. by rewrite lookup_empty in Hin.
Qed.

(** A function map that covers the catalog is its own normal form. *)
Lemma Normalize_normal m :
  dom m = (dom defaultFitnessFunctions : gset string) → NormalizeFitnessFunctions (Some m) = Ok m.
Proof.
  intros Hdom. cbn [NormalizeFitnessFunctions].
  assert (is_ok (overlay defaultFitnessFunctions (map_order bool m)) = true) as Hok.
  { apply overlay_total, Forall_forall. intros [k b] Hin%elem_of_map_order.
    cbn [fst]. apply (elem_of_dom (D:=gset string)). rewrite <-Hdom. apply elem_of_dom. eauto. }
  destruct (overlay _ _) as [m'|] eqn:H; [|done]. f_equal.
  apply overlay_ok in H as [Hm _]; [|apply map_order_nodup]. rewrite map_order_to_map in Hm.
  apply map_eq. intros k. rewrite Hm. destruct (m !! k) eqn:Hk; [done|]. cbn.
  apply (not_elem_of_dom (D:=gset string)). rewrite <-Hdom. by apply not_elem_of_dom.
Qed.

Definition layers_missing : goerror :=
  ErrNew "layer-sovereignty is enabled but fitness-function-settings.layer-sovereignty.layers is empty".

(** Reading back the document of a configuration without settings. *)
Lemma Parse_document mode m :
  mode ∈ [EnforcementBlock; EnforcementAdvisory; EnforcementOff] →
  dom m = (dom defaultFitnessFunctions : gset string) →
  let c := mkConfig mode EnforcementOnErrorBlock (Some m) None None in
  Parse (MarshalIndent (json_Config c) +:+ newline_text) =
  if Enabled c "layer-sovereignty" then Err layers_missing else Ok c.
Proof.
  intros Hmode Hdom c.
  assert (json_Config c = JObj [("enforcement-mode", JStr mode); ("enforcement-on-error", JStr "block");
                                ("fitness-functions", obj_of (JBool <$> m))]) as Hj by done.
  assert (plain (obj_of (JBool <$> m)) = true) as Hpm.
  { apply plain_obj. intros k Hk. apply catalog_ascii. apply (elem_of_dom (D:=gset string)).
    rewrite <-Hdom. by apply elem_of_dom. }
  assert (plain (json_Config c) = true) as Hp.
  { rewrite Hj. cbn [plain forallb fst snd]. rewrite Hpm.
    rewrite !elem_of_cons in Hmode. destruct Hmode as [->|[->|[->|[]%elem_of_nil]]]; reflexivity. }
  unfold Parse, rejectUnknownFitnessFunctionSettingsKeys, unmarshal.
  rewrite (json_print_parse_space _ newline_text Hp) by reflexivity. rewrite Hj.
  set (d := obj_of (JBool <$> m)).
  assert (dec_Config (JObj [("enforcement-mode", JStr mode); ("enforcement-on-error", JStr "block");
                            ("fitness-functions", d)]) zero_config = Some c) as ->.
  { unfold dec_Config. cbn [dec_struct foldl fst snd].
    cbn -[dec_map]. change d with (obj_of (JBool <$> m)).
    rewrite dec_map_obj. done. }
  assert (dec_wrapper (JObj [("enforcement-mode", JStr mode); ("enforcement-on-error", JStr "block");
                             ("fitness-functions", d)]) None = Some None) as -> by reflexivity.
  cbn [default]. rewrite map_order_empty.
  cbn [cfg_EnforcementMode cfg_EnforcementOnError cfg_FitnessFunctions c List.find].
  rewrite Normalize_normal by done.
  rewrite !elem_of_cons in Hmode. destruct Hmode as [->|[->|[->|[]%elem_of_nil]]];
    unfold validateFitnessFunctionSettings; cbn -[Enabled];
    rewrite ?andb_true_r; reflexivity.
Qed.

(** What a registration writes to disk is what a later reload reads: parsing
    the document written for a registered configuration gives that configuration
    back, except that enabling layer-sovereignty, for which a registration
    cannot state the layers, writes a document that is always rejected. *)
Theorem register_config_roundtrip request c (H : buildRegisterConfig request = Ok c) :
  Parse (MarshalIndent (json_Config c) +:+ newline_text) =
  if Enabled c "layer-sovereignty" then Err layers_missing else Ok c.
Proof.
  revert H. unfold buildRegisterConfig. set (mode := if String.eqb _ _ then _ else _).
  case_bool_decide as Hmode; cbn [negb]; [|done].
  destruct (NormalizeFitnessFunctions _) as [m|] eqn:Hm; [|done]. intros [= <-].
  apply Parse_document; [done|]. by apply NormalizeFitnessFunctions_ok in Hm as [].
Qed.
End roundtrip.

(** ** Examples *)

Module ConfigStoreExamples.
#[local] Existing Instances literal_regexp canonical_map_order canonical_map_order_laws
  basic_unicode basic_unicode_laws reliable_os.
#[local] Instance plain_json_error : JsonErrorText := id.
#[local] Instance plain_json_number : JsonNumberText := id.
#[local] Instance alone : Interference ConfigStore := no_interference.
#[local] Instance alone_keeps : KeptByOthers alone store_wf.
Proof. by intros t s. Qed.

Lemma run_eq {A B} (p : A * B) a : p.1 = a → p = (a, p.2).
Proof. by destruct p; intros <-. Qed.

Definition q (s : string) : string := String (byte_of 34) (s +:+ String (byte_of 34) "").

(** A mount with an empty configuration directory and the given caller file. *)
Definition mount (callers : string) : world ConfigStore :=
  mkWorld (mkStore ∅ ∅ emptyCallerRepoPolicy 0 "" "" 0 3 ∅)
    {["/srv/caller-repos.json" := callers]} {["/srv/configs"; "/srv"]} 0.
Definition opened (callers : string) : world ConfigStore :=
  (newConfigStore "/srv/configs" (mkStoreOptions 0 0) (mount callers)).2.
Definition default_config : Config :=
  mkConfig "advisory" "block" (Some defaultFitnessFunctions) None None.
Definition block_config : Config :=
  mkConfig "block" "block" (Some defaultFitnessFunctions) None None.
Definition layered_config : Config :=
  mkConfig "advisory" "block" (Some (<["layer-sovereignty" := true]> defaultFitnessFunctions)) None None.

Definition fresh : world ConfigStore := opened ("{" +:+ q "callers" +:+ ": {}}").
Definition registered : world ConfigStore :=
  (Register Background "tools" default_config "bob" false fresh).2.
Lemma opened_ok :
  (newConfigStore "/srv/configs" (mkStoreOptions 0 0) (mount ("{" +:+ q "callers" +:+ ": {}}"))).1
  = Returned None.
Proof. vm_compute. reflexivity. Qed.
Definition serves {A} (r : result goerror A) : bool := is_ok r.

(** A registered repository is served, and its caller may use it. *)
Lemma register_serves :
  (Register Background "tools" default_config "bob" false fresh).1 = Returned (Ok true) ∧
  serves (loadConfig (Some (w_app registered)) "tools") = true ∧
  CallerAllowed "bob" "tools" (w_app registered) = true.
Proof. by vm_compute. Qed.

Lemma served_configs_wf_witness :
  match loadConfig (Some (w_app registered)) "tools" with
  | Ok (c, name) => config_wf c ∧ canonicalRepoName "tools" = Ok name
  | Err e =>
      match canonicalRepoName "tools" with
      | Err e' => e = e'
      | Ok name => error_kind e = Some (if decide (is_Some (cs_entries (w_app registered) !! name))
                                        then ErrorKindInfrastructure else ErrorKindNotFound)
      end
  end.
Proof.
  apply (served_configs_wf "/srv/configs" (mkStoreOptions 0 0) (mount ("{" +:+ q "callers" +:+ ": {}}"))
           fresh initial_watch registered).
  - unfold fresh, opened. exact (run_eq _ _ opened_ok).
  - apply rtc_once. eapply (step_register Background "tools" default_config "bob" false); [by vm_compute|].
    apply surjective_pairing.
Defined.

(** The file of a served repository becomes garbage and is reloaded. *)
Definition corrupted : world ConfigStore :=
  mkWorld (w_app registered) (<["/srv/configs/tools/config.json" := "{"]> (w_files registered))
    (w_dirs registered) (w_clock registered).

Lemma reloadRepo_fail_closed_witness :
  serves (loadConfig (Some (w_app corrupted)) "tools") = true ∧
  ∃ e, cs_entries (w_app (reloadRepo Background "tools" corrupted).2) !! "tools" = Some e ∧
    if ent_Valid e then
      ∃ content, w_files corrupted !! config_path (w_app corrupted) "tools" = Some content ∧
        Parse content = Ok (ent_Config e)
    else ent_LastValidAt e = cs_entries (w_app corrupted) !! "tools" ≫= ent_LastValidAt ∧
         (canonicalRepoName "tools" = Ok "tools" →
          is_ok (loadConfig (Some (w_app (reloadRepo Background "tools" corrupted).2)) "tools") = false).
Proof.
  split; [by vm_compute|].
  eapply (reloadRepo_fail_closed Background "tools" corrupted None).
  apply run_eq. vm_compute. reflexivity.
Defined.

Definition callers_removed : world ConfigStore :=
  mkWorld (w_app registered) ∅ (w_dirs registered) (w_clock registered).

Lemma reloadCallerRepoPolicy_fail_closed_witness :
  cs_entries (w_app (reloadCallerRepoPolicy Background callers_removed).2) =
  cs_entries (w_app callers_removed).
Proof.
  eapply (reloadCallerRepoPolicy_fail_closed Background callers_removed None).
  apply run_eq. vm_compute. reflexivity.
Defined.

Definition tools_entry : ConfigEntry :=
  default (invalid_entry "") (Lookup "tools" (w_app registered)).

Lemma Register_existing_witness :
  (Register Background "tools" block_config "eve" false registered).1 =
    Returned (Err (ErrConflict "tools")) ∧
  w_files (Register Background "tools" block_config "eve" false registered).2 = w_files registered ∧
  w_app (Register Background "tools" block_config "eve" false registered).2 = w_app registered.
Proof.
  assert (DeepEqual (ent_Config tools_entry) block_config = false) as Hd by (vm_compute; reflexivity).
  pose proof (Register_existing Background "tools" block_config "eve" false registered tools_entry
    (Register Background "tools" block_config "eve" false registered).1
    (Register Background "tools" block_config "eve" false registered).2) as H.
  rewrite Hd in H. apply H; [vm_compute; reflexivity..|apply run_eq; reflexivity|reflexivity].
Defined.

Lemma register_config_roundtrip_witness :
  Parse (MarshalIndent (json_Config default_config) +:+ newline_text) =
  if Enabled default_config "layer-sovereignty" then Err layers_missing else Ok default_config.
Proof.
  apply (register_config_roundtrip (mkRegister "tools" "" None) default_config).
  vm_compute. reflexivity.
Defined.

(** A registration that enables layer-sovereignty is reported as created, yet the
    repository is not served. *)
Lemma register_layers_unservable :
  (Register Background "web" layered_config "bob" false fresh).1 = Returned (Ok true) ∧
  serves (loadConfig (Some (w_app (Register Background "web" layered_config "bob" false fresh).2)) "web")
  = false.
Proof. vm_compute. split; reflexivity. Qed.

(** A caller file in the flat legacy layout: the registration of one caller
    revokes every binding it held. *)
Definition legacy : world ConfigStore := opened ("{" +:+ q "alice" +:+ ": [" +:+ q "api" +:+ "]}").
Lemma register_drops_legacy_bindings :
  CallerAllowed "alice" "api" (w_app legacy) = true ∧
  (Register Background "tools" default_config "bob" false legacy).1 = Returned (Ok true) ∧
  CallerAllowed "alice" "api"
    (w_app (Register Background "tools" default_config "bob" false legacy).2) = false.
Proof. vm_compute. split_and!; reflexivity. Qed.

(** A caller file holding the document null makes a registration panic. *)
Lemma register_panics_on_null :
  match (Register Background "tools" default_config "bob" false (opened "null")).1 with
  | Panicked _ => True
  | _ => False
  end.
Proof. vm_compute. exact I. Qed.
End ConfigStoreExamples.
