(* ===== verification/Governance.v ===== *)
(** * The shipped governance pattern

    [patterns/governance.json], embedded by [patterns/embed.go] as
    [GovernanceJSON], and the rules it loads to. *)

From stdpp Require Import base gmap strings list fin_maps.
From Stdlib Require Import ZArith Ascii.
From S2P Require Import Prelude GoStrings GoErrors GoFloat GoJson GoJsonPrint Fitness GovConfig.
Set Default Goal Selector "!".

(** The document, with an apostrophe for each quotation mark. *)
Definition governance_text : string := "{
  '$schema': 'https://calm.finos.org/release/1.2/meta/calm.json',
  '$id': 'https://stackoverflow.com/calm-poc/patterns/governance.json',
  'title': 'Agent Fitness Functions',
  'description': 'FINOS CALM pattern enforcing Agent Fitness Functions governance.',
  'type': 'object',
  'properties': {
    'nodes': {
      'type': 'array',
      'items': {
        '$ref': 'https://calm.finos.org/release/1.2/meta/core.json#/defs/node',
        'type': 'object',
        'properties': {
          'metadata': {
            'type': 'object',
            'properties': {
              'fitness': {
                'type': 'object',
                'properties': {
                  'cyclomatic-complexity': {
                    'description': 'Maximum cyclomatic complexity per function',
                    'type': 'number',
                    'maximum': 9
                  },
                  'interface-width': {
                    'description': 'Maximum declared interface width within a CALM node',
                    'type': 'number',
                    'maximum': 20
                  },
                  'implementation-depth': {
                    'description': 'Minimum average implementation LOC per public method',
                    'type': 'number',
                    'minimum': 0.722
                  },
                  'logic-density': {
                    'description': 'Minimum logic density ratio per file',
                    'type': 'number',
                    'minimum': 0.255
                  },
                  'dependency-discipline': {
                    'description': 'Minimum used-import ratio per file',
                    'type': 'number',
                    'minimum': 0.8
                  },
                  'layer-sovereignty': {
                    'description': 'Maximum layer-sovereignty violations per file',
                    'type': 'number',
                    'exclusiveMaximum': 1
                  },
                  'temporal-purity': {
                    'description': 'Maximum temporal-purity violations per file',
                    'type': 'number',
                    'exclusiveMaximum': 1
                  },
                  'sql-composition-safety': {
                    'description': 'Maximum sql-composition-safety violations per file',
                    'type': 'number',
                    'exclusiveMaximum': 1
                  },
                  'deterministic-ordering': {
                    'description': 'Maximum deterministic-ordering violations per file',
                    'type': 'number',
                    'exclusiveMaximum': 1
                  }
                },
                'required': [
                  'cyclomatic-complexity',
                  'interface-width',
                  'implementation-depth',
                  'dependency-discipline'
                ]
              }
            },
            'if': {
              'type': 'object',
              'required': ['file_metrics'],
              'properties': {
                'file_metrics': {
                  'type': 'object',
                  'required': ['source_kind'],
                  'properties': {
                    'source_kind': {'const': 'go-embed-assets'}
                  }
                }
              }
            },
            'else': {
              'properties': {
                'fitness': {
                  'type': 'object',
                  'required': ['logic-density']
                }
              }
            },
            'required': [
              'fitness'
            ]
          }
        },
        'required': [
          'metadata'
        ]
      }
    },
    'relationships': {
      'type': 'array'
    }
  },
  'required': [
    'nodes',
    'relationships'
  ]
}
".

Definition GovernanceJSON : string := replace_byte "'"%char quote_byte governance_text.

Definition default_rules : list (string * (string * float64)) :=
  [("cyclomatic-complexity", ("lte", f64_of_int 9));
   ("interface-width", ("lte", f64_of_int 20));
   ("implementation-depth", ("gte", f64_of_decimal 722 3));
   ("logic-density", ("gte", f64_of_decimal 255 3));
   ("dependency-discipline", ("gte", f64_of_decimal 8 1));
   ("layer-sovereignty", ("lte", f64_of_int 0));
   ("temporal-purity", ("lte", f64_of_int 0));
   ("sql-composition-safety", ("lte", f64_of_int 0));
   ("deterministic-ordering", ("lte", f64_of_int 0))].

Definition operator_and_limit (r : FitnessRule) : string * float64 :=
  (rule_Operator r, rule_Threshold r).

(** The pattern the document decodes to. *)
Definition governance_schema : patternSchema :=
  default zero_schema (json_parse GovernanceJSON ≫= λ j, dec_patternSchema j zero_schema).
Definition governance_pattern : Pattern :=
  mkPattern (sch_Schema governance_schema) (sch_ID governance_schema) (sch_Title governance_schema)
    (sch_Description governance_schema)
    (fitnessFunctions (default ∅ (sch_Properties governance_schema))).

Lemma governance_loads {J : JsonErrorText} label :
  parsePattern label GovernanceJSON = Ok governance_pattern.
Proof.
  assert (bool_decide (is_Some (json_parse GovernanceJSON ≫= λ j, dec_patternSchema j zero_schema))
          = true) as Hd%bool_decide_eq_true by (vm_compute; reflexivity).
  assert (unmarshal dec_patternSchema zero_schema GovernanceJSON = Ok governance_schema) as Hs.
  { unfold unmarshal, governance_schema. destruct (json_parse GovernanceJSON) as [j|]; [|by destruct Hd].
    cbn [mbind option_bind] in *. by destruct (dec_patternSchema j zero_schema); [|destruct Hd]. }
  unfold parsePattern. rewrite Hs. clear Hs Hd.
  assert (bool_decide (fitnessFunctions (default ∅ (sch_Properties governance_schema)) = ∅) = false)
    as He%bool_decide_eq_false by (vm_compute; reflexivity).
  by rewrite decide_False.
Qed.

Lemma same_keys {A B} (m1 : gmap string A) (m2 : gmap string B) :
  const tt <$> m1 = const tt <$> m2 → ∀ k, is_Some (m1 !! k) ↔ is_Some (m2 !! k).
Proof.
  intros H k. assert ((const tt <$> m1) !! k = (const tt <$> m2) !! k) as Hk by by rewrite H.
  rewrite !lookup_fmap in Hk. destruct (m1 !! k), (m2 !! k); try done;
    split; intros [? ?]; (done || eauto).
Qed.

(** The embedded governance pattern loads, under any label, to exactly these
    nine rules with their operators and limits, one for every fitness function a
    repository configuration can switch. *)
Theorem governance_rules {J : JsonErrorText} label :
  ∃ p, LoadPatternFromBytes label GovernanceJSON = Ok p ∧
    operator_and_limit <$> pat_FitnessFunctions p = list_to_map default_rules ∧
    ∀ name, is_Some (defaultFitnessFunctions !! name) ↔ is_Some (pat_FitnessFunctions p !! name).
Proof.
  exists governance_pattern. split; [apply governance_loads|]. split; [apply (bool_decide_eq_true_1 _); vm_compute; reflexivity|].
  assert (const tt <$> defaultFitnessFunctions = const tt <$> pat_FitnessFunctions governance_pattern)
    as H by (apply (bool_decide_eq_true_1 _); vm_compute; reflexivity).
  exact (same_keys _ _ H).
Qed.
