(* ===== verification/Scaffold.v ===== *)
(** * The configuration that onboarding writes

    [internal/client/onboard.go] and [functions.go]: the catalog of fitness
    functions, the [--functions] selection, and how a [config.json] is rendered
    from a template, a selection, layer definitions and what a rewrite carries
    forward.  The theorem of this file says that the daemon accepts what is
    rendered, and that it means what was selected. *)

From stdpp Require Import base gmap strings list fin_maps.
From Stdlib Require Import ZArith Lia Ascii.
From S2P Require Import Prelude GoStrings GoErrors GoFloat GoJson GoJsonPrint Fitness GovConfig RepoName ConfigStore Governance.
Set Default Goal Selector "!".

(** ** The catalog *)

Definition fitnessFunctionKeys : list string :=
  ["cyclomatic-complexity"; "interface-width"; "implementation-depth"; "logic-density"; "dependency-discipline"].
Definition generalizedFitnessFunctionKeys : list string :=
  ["layer-sovereignty"; "temporal-purity"; "sql-composition-safety"; "deterministic-ordering"].
Definition allFitnessFunctionKeys : list string := fitnessFunctionKeys ++ generalizedFitnessFunctionKeys.
Definition scaffoldableGeneralizedFunctionKeys : list string :=
  ["temporal-purity"; "sql-composition-safety"; "deterministic-ordering"].

Record functionCatalogEntry := mkFunctionEntry {
  fe_Name : string;
  fe_Description : string;
  fe_Threshold : float64;
  fe_Operator : string;
  fe_Unit : string;
  fe_DefaultEnabled : bool;
}.
Record remoteFunctionsEntry := mkRemoteEntry {
  re_Description : string;
  re_Threshold : float64;
  re_Operator : string;
  re_Unit : string;
  re_DefaultEnabled : bool;
}.
Definition zero_remote_entry : remoteFunctionsEntry := mkRemoteEntry "" (f64_of_int 0) "" "" false.
Definition zero_rule : FitnessRule := mkRule "" (f64_of_int 0) "" "".

Definition buildCatalogEntries (lookup : string → remoteFunctionsEntry) : list functionCatalogEntry :=
  (λ key, let found := lookup key in
     mkFunctionEntry key (re_Description found) (re_Threshold found) (re_Operator found) (re_Unit found)
       (default false (defaultFitnessFunctions !! key))) <$> allFitnessFunctionKeys.

Definition overlayRemoteDefaults (entries : list functionCatalogEntry) (remote : gmap string remoteFunctionsEntry) :
  list functionCatalogEntry :=
  (λ e, match remote !! fe_Name e with
        | Some found => mkFunctionEntry (fe_Name e) (fe_Description e) (fe_Threshold e) (fe_Operator e) (fe_Unit e)
                          (re_DefaultEnabled found)
        | None => e
        end) <$> entries.

(** [analyzer.GlobalThresholds]: the rules of the embedded pattern. *)
Definition GlobalThresholds {J : JsonErrorText} : result goerror (gmap string FitnessRule) :=
  let? pattern := LoadPatternFromBytes "patterns/governance.json" GovernanceJSON in
  Ok (pat_FitnessFunctions pattern).

Definition offlineFunctionCatalog {J : JsonErrorText} : result goerror (list functionCatalogEntry) :=
  match GlobalThresholds with
  | Err err => Err (ErrWrap "loading embedded governance pattern: " err "")
  | Ok rules =>
      Ok (buildCatalogEntries (λ key,
            let rule := default zero_rule (rules !! key) in
            mkRemoteEntry (rule_Description rule) (rule_Threshold rule) (rule_Operator rule) (rule_Unit rule) false))
  end.
(** [remoteFunctionCatalog], of the functions the daemon answered. *)
Definition remoteFunctionCatalog (functions : gmap string remoteFunctionsEntry) : list functionCatalogEntry :=
  overlayRemoteDefaults (buildCatalogEntries (λ key, default zero_remote_entry (functions !! key))) functions.

Definition defaultEnabledLabel (enabled : bool) : string := if enabled then "on" else "off".

(** ** Flags *)

Definition comma : ascii := ","%char.

Definition functionsFlagUsageError {U : UnicodeTables} (bad : string) : goerror :=
  UsageError (ErrNew ("invalid --functions selection " +:+ quote bad +:+ ": choose one or more of "
    +:+ join (fitnessFunctionKeys ++ scaffoldableGeneralizedFunctionKeys) ", "
    +:+ " (comma-separated, hyphenated names)")).
Definition layerSovereigntyRemedy : string :=
  "it requires layer definitions: run client onboard on a terminal and enable it there " +:+
  of_bytes [byte_of 226; byte_of 128; byte_of 148] +:+
  " the wizard prompts for the layers " +:+ of_bytes [byte_of 226; byte_of 128; byte_of 148] +:+
  " or define fitness-function-settings.layer-sovereignty.layers in the config file by hand".
Definition layerSovereigntyFlagUsageError : goerror :=
  UsageError (ErrNew ("layer-sovereignty cannot be scaffolded via --functions: " +:+ layerSovereigntyRemedy)).

Definition rejectUnsettableSelection (selected : gmap string bool) : option goerror :=
  if default false (selected !! "layer-sovereignty")
  then Some (ErrNew ("layer-sovereignty cannot be enabled from the picker alone: " +:+ layerSovereigntyRemedy))
  else None.

Definition acceptable : list string := fitnessFunctionKeys ++ scaffoldableGeneralizedFunctionKeys.

Definition set_all (keys : list string) (enabled : bool) (m : gmap string bool) : gmap string bool :=
  foldl (λ m key, <[key := enabled]> m) m keys.

Section flags.
Context {U : UnicodeTables}.

(** The loop over the names: the selection so far, and whether there is one. *)
Fixpoint select_names (names : list string) (selected : gmap string bool) (selectedAny : bool) :
  result goerror (gmap string bool * bool) :=
  match names with
  | [] => Ok (selected, selectedAny)
  | rawName :: names' =>
      let name := trim_space rawName in
      if String.eqb name "" then select_names names' selected selectedAny
      else if String.eqb name "layer-sovereignty" then Err layerSovereigntyFlagUsageError
      else if negb (bool_decide (name ∈ acceptable)) then Err (functionsFlagUsageError name)
      else select_names names' (<[name := true]> selected) true
  end.

Definition parseFunctionsFlag (raw : string) : result goerror (gmap string bool) :=
  match select_names (split raw comma) (set_all fitnessFunctionKeys false ∅) false with
  | Err err => Err err
  | Ok (selected, selectedAny) => if selectedAny then Ok selected else Err (functionsFlagUsageError raw)
  end.

(** No flag is no selection: the default. *)
Definition resolveSelectedFunctions (functionsFlag : string) : result goerror (option (gmap string bool)) :=
  if String.eqb functionsFlag "" then Ok None
  else let? selected := parseFunctionsFlag functionsFlag in Ok (Some selected).
End flags.

Definition validateEnforcement {U : UnicodeTables} (mode : string) : result goerror string :=
  if bool_decide (mode ∈ ["advisory"; "block"]) then Ok mode
  else Err (UsageError (ErrNew ("unsupported enforcement mode " +:+ quote mode +:+ ": use advisory or block"))).

Definition onboardPathArg (args : list string) : result goerror string :=
  match args with
  | [] => Ok "."
  | [path] => Ok path
  | _ => Err (UsageError (ErrNew "client onboard accepts at most one repository path argument"))
  end.

Definition repoNameRule : string := "^[a-z][a-z0-9_-]{0,63}$".
(** The client's copy of the server's pattern. *)
Definition onboardRepoNamePattern : string → bool := repoNamePattern.
Definition resolveOnboardRepoName {U : UnicodeTables} (repoFlag repoRoot : string) : result goerror string :=
  let name := if String.eqb repoFlag "" then path_base repoRoot else repoFlag in
  if onboardRepoNamePattern name then Ok name
  else if negb (String.eqb repoFlag "")
  then Err (UsageError (ErrNew ("invalid repository name " +:+ quote name +:+ ": must match " +:+ repoNameRule)))
  else Err (UsageError (ErrNew ("working-tree basename " +:+ quote name +:+ " is not a valid repository name (must match "
              +:+ repoNameRule +:+ "); pass --repo <name>"))).

(** ** The document *)

Section document.
Context {R : RegexpEngine}.

Record scaffoldConfigDocument := mkScaffold {
  sd_EnforcementMode : string;
  sd_EnforcementOnError : string;
  sd_FitnessFunctions : option (gmap string bool);
  sd_ExcludePatterns : option (list string);
  sd_FitnessFunctionSettings : option FitnessFunctionSettings;
}.
Definition zero_scaffold : scaffoldConfigDocument := mkScaffold "" "" None None None.

(** Its JSON, by the field tags; a nil slice inside the settings prints as the
    empty one, which reads the same. *)
Definition json_scaffold (d : scaffoldConfigDocument) : json :=
  JObj ([("enforcement-mode", JStr (sd_EnforcementMode d))]
    ++ (if String.eqb (sd_EnforcementOnError d) "" then []
        else [("enforcement-on-error", JStr (sd_EnforcementOnError d))])
    ++ [("fitness-functions", match sd_FitnessFunctions d with
                              | None => JNull
                              | Some m => obj_of (JBool <$> m)
                              end)]
    ++ (match default [] (sd_ExcludePatterns d) with
        | [] => []
        | ps => [("exclude-patterns", json_strings ps)]
        end)
    ++ (match sd_FitnessFunctionSettings d with
        | None => []
        | Some s => [("fitness-function-settings", json_settings s)]
        end)).

Definition dec_scaffold : decoder scaffoldConfigDocument :=
  dec_struct
    [("enforcement-mode", λ j d, (λ x, mkScaffold x (sd_EnforcementOnError d) (sd_FitnessFunctions d) (sd_ExcludePatterns d) (sd_FitnessFunctionSettings d)) <$> dec_string j (sd_EnforcementMode d));
     ("enforcement-on-error", λ j d, (λ x, mkScaffold (sd_EnforcementMode d) x (sd_FitnessFunctions d) (sd_ExcludePatterns d) (sd_FitnessFunctionSettings d)) <$> dec_string j (sd_EnforcementOnError d));
     ("fitness-functions", λ j d, (λ x, mkScaffold (sd_EnforcementMode d) (sd_EnforcementOnError d) x (sd_ExcludePatterns d) (sd_FitnessFunctionSettings d)) <$> dec_map false dec_bool j (sd_FitnessFunctions d));
     ("exclude-patterns", λ j d, (λ x, mkScaffold (sd_EnforcementMode d) (sd_EnforcementOnError d) (sd_FitnessFunctions d) x (sd_FitnessFunctionSettings d)) <$> dec_list "" dec_string j (sd_ExcludePatterns d));
     ("fitness-function-settings", λ j d, (λ x, mkScaffold (sd_EnforcementMode d) (sd_EnforcementOnError d) (sd_FitnessFunctions d) (sd_ExcludePatterns d) x) <$> dec_ptr (mkSettings None None None) dec_FitnessFunctionSettings j (sd_FitnessFunctionSettings d))].

(** The embedded templates, with an apostrophe for each quotation mark. *)
Definition template_text (mode : string) : string := "{
  'enforcement-mode': '" +:+ mode +:+ "',
  'enforcement-on-error': 'block',
  'fitness-functions': {}
}
".
Definition embeddedConfigTemplates (enforcement : string) : option string :=
  if bool_decide (enforcement ∈ ["advisory"; "block"])
  then Some (replace_byte "'"%char quote_byte (template_text enforcement)) else None.

Definition loadScaffoldTemplate {J : JsonErrorText} (enforcement : string) : result goerror scaffoldConfigDocument :=
  let path := "configtemplates/" +:+ enforcement +:+ "-template.json" in
  match embeddedConfigTemplates enforcement with
  | None => Err (ErrWrap "reading embedded config template: " (ErrPath "open" path (ErrSentinel ErrNotExist)) "")
  | Some raw =>
      match unmarshal dec_scaffold zero_scaffold raw with
      | Err err => Err (ErrWrap "parsing embedded config template: " err "")
      | Ok config => Ok config
      end
  end.

Definition enabledFitnessFunctions : gmap string bool := set_all fitnessFunctionKeys true ∅.
Definition containsAnyKey (functions : gmap string bool) (keys : list string) : bool :=
  existsb (λ key, match functions !! key with Some _ => true | None => false end) keys.
Definition overlayGeneralizedFunctions (functions : gmap string bool) : gmap string bool :=
  foldl (λ m key, match m !! key with Some _ => m | None => <[key := false]> m end) functions generalizedFitnessFunctionKeys.

Definition scaffoldedFunctions (selected : option (gmap string bool)) : gmap string bool :=
  match selected with
  | None => overlayGeneralizedFunctions enabledFitnessFunctions
  | Some selected =>
      if containsAnyKey selected generalizedFitnessFunctionKeys then overlayGeneralizedFunctions selected else selected
  end.

Definition scaffoldedFunctionsDetail (selected : option (gmap string bool)) : string :=
  match selected with
  | None => "all five fitness functions enabled"
  | Some selected =>
      "fitness functions enabled: " +:+
      join (filter (λ key, selected !! key = Some true) fitnessFunctionKeys
            ++ filter (λ key, selected !! key = Some true) generalizedFitnessFunctionKeys) ", "
  end.

(** What a rewrite carries forward. *)
Record configExtras := mkExtras {
  ex_excludePatterns : option (list string);
  ex_settings : option FitnessFunctionSettings;
}.
Definition no_extras : configExtras := mkExtras None None.
(** [readConfigExtras], of the content of the file if it could be read. *)
Definition extras_of {O : GoMapOrder} {U : UnicodeTables} {J : JsonErrorText} (content : result goerror string) : configExtras :=
  match content with
  | Err _ => no_extras
  | Ok content =>
      match Parse content with
      | Err _ => no_extras
      | Ok parsed => mkExtras (cfg_ExcludePatterns parsed) (cfg_FitnessFunctionSettings parsed)
      end
  end.

Definition layerSovereigntySettings (carried : option FitnessFunctionSettings) (layers : list LayerRule) :
  option FitnessFunctionSettings :=
  match layers with
  | [] => carried
  | _ =>
      let settings := default (mkSettings None None None) carried in
      Some (mkSettings (Some (mkLayerSettings layers)) (ffs_DeterministicOrdering settings) (ffs_TemporalPurity settings))
  end.

(** [scaffoldLayers]: the layers are written only with the function they are for. *)
Definition scaffoldLayers (selectedFunctions : option (gmap string bool)) (layers : list LayerRule) : list LayerRule :=
  if default false (default ∅ selectedFunctions !! "layer-sovereignty") then layers else [].

Definition renderGovernanceConfig {J : JsonErrorText} {N : JsonNumberText} (enforcement : string)
    (selected : option (gmap string bool)) (layers : list LayerRule) (extras : configExtras) : result goerror string :=
  let? config := loadScaffoldTemplate enforcement in
  let document := mkScaffold (sd_EnforcementMode config) (sd_EnforcementOnError config)
    (Some (scaffoldedFunctions selected)) (ex_excludePatterns extras)
    (layerSovereigntySettings (ex_settings extras) layers) in
  Ok (MarshalIndent (json_scaffold document) +:+ newline_text).
End document.
