(* ===== verification/ScaffoldProofs.v ===== *)
(** * The daemon accepts the configuration that onboarding writes

    Reading back a rendered document gives the mode, the functions, the exclude
    patterns and the settings it was rendered from. *)

From stdpp Require Import base gmap strings list fin_maps.
From Stdlib Require Import ZArith Lia Ascii.
From S2P Require Import Prelude GoStrings GoErrors GoFloat GoJson GoJsonPrint Fitness GovConfig RepoName ConfigStore Governance Scaffold.
Set Default Goal Selector "!".

Section documents.
Context {R : RegexpEngine} {O : GoMapOrder} {OL : GoMapOrderLaws O} {U : UnicodeTables}
        {J : JsonErrorText} {N : JsonNumberText}.

(** ** Sources *)

(** A layer and settings without the compiled patterns: what is written. *)
Definition strip_layer (r : LayerRule) : LayerRule := mkLayer (lay_Name r) (lay_Paths r) (lay_ForbiddenPatterns r) [] [].
Definition strip_settings (s : FitnessFunctionSettings) : FitnessFunctionSettings :=
  mkSettings ((λ ls, mkLayerSettings (strip_layer <$> ls_Layers ls)) <$> ffs_LayerSovereignty s)
    (ffs_DeterministicOrdering s) (ffs_TemporalPurity s).

(** All texts are ASCII. *)
Definition ascii_layer (r : LayerRule) : bool :=
  ascii_only (lay_Name r) && forallb ascii_only (lay_Paths r) && forallb ascii_only (lay_ForbiddenPatterns r).
Definition ascii_settings (s : FitnessFunctionSettings) : bool :=
  from_option (λ ls, forallb ascii_layer (ls_Layers ls)) true (ffs_LayerSovereignty s)
  && from_option (λ d, forallb ascii_only (dos_TieBreakerTokens d)) true (ffs_DeterministicOrdering s)
  && from_option (λ t, ascii_only (tps_CSharpPolicy t)) true (ffs_TemporalPurity s).
Definition ascii_extras (x : configExtras) : bool :=
  forallb ascii_only (default [] (ex_excludePatterns x)) && from_option ascii_settings true (ex_settings x).

(** ** Reading back *)

Lemma plain_strings l : forallb ascii_only l = true → plain (json_strings l) = true.
Proof using. 
  intros H. cbn [json_strings plain]. induction l as [|s l IH]; [done|]. cbn [fmap list_fmap forallb plain] in *.
  apply andb_true_iff in H as [Hs ?]. unfold ascii_only in Hs. rewrite Hs. by apply IH.
Qed.
Lemma dec_strings_json l old : dec_strings (json_strings l) old = Some l.
Proof using.
  unfold dec_strings, json_strings. cbn [dec_list]. assert (mapM (λ j, dec_string j "") (JStr <$> l) = Some l) as ->.
  { induction l as [|s l IH]; [done|]. cbn. by rewrite IH. }
  done.
Qed.
Lemma dec_excludes l old : dec_list "" dec_string (json_strings l) old = Some (Some l).
Proof using. pose proof (dec_strings_json l []) as H. unfold dec_strings in H. cbn in *. by destruct (mapM _ _) as [x|]; [injection H as ->|]. Qed.

Lemma plain_layer r : ascii_layer r = true → plain (json_LayerRule r) = true.
Proof using.
  intros [[H1 H2]%andb_true_iff H3]%andb_true_iff. unfold json_LayerRule.
  apply plain_strings in H2, H3. cbn [plain forallb fst snd] in *. unfold ascii_only in H1. by rewrite H1, H2, H3.
Qed.
Lemma dec_layer r : dec_LayerRule (json_LayerRule r) zero_layer = Some (strip_layer r).
Proof using.
  unfold dec_LayerRule, json_LayerRule. cbn [dec_struct foldl fst snd]. cbn -[dec_strings json_strings].
  rewrite dec_strings_json. cbn -[dec_strings json_strings]. by rewrite dec_strings_json.
Qed.
Lemma dec_layers ls old :
  dec_LayerSovereigntySettings (JObj [("layers", JArr (json_LayerRule <$> ls))]) old = Some (mkLayerSettings (strip_layer <$> ls)).
Proof using.
  unfold dec_LayerSovereigntySettings. cbn [dec_struct foldl fst snd]. cbn -[json_LayerRule dec_LayerRule].
  assert (mapM (λ j, dec_LayerRule j zero_layer) (json_LayerRule <$> ls) = Some (strip_layer <$> ls)) as ->.
  { induction ls as [|r ls IH]; [done|]. cbn [fmap list_fmap mapM]. rewrite dec_layer. cbn. by rewrite IH. }
  done.
Qed.

Lemma plain_settings s : ascii_settings s = true → plain (json_settings s) = true.
Proof using.
  intros [[H1 H2]%andb_true_iff H3]%andb_true_iff. unfold json_settings. destruct s as [l d t]. cbn in H1, H2, H3.
  assert (∀ ls, forallb ascii_layer ls = true → forallb plain (json_LayerRule <$> ls) = true) as Hls.
  { induction ls as [|r ls IH]; [done|]. cbn [forallb fmap list_fmap]. intros [Hr Hrs]%andb_true_iff. by rewrite plain_layer, IH. }
  destruct l as [[ls]|], d as [[toks]|], t as [[pol]|]; cbn [from_option ls_Layers dos_TieBreakerTokens tps_CSharpPolicy] in *;
    try (apply Hls in H1); try (apply plain_strings in H2; cbn [plain json_strings] in H2); unfold ascii_only in H3;
    cbn [omap list_omap option_fmap option_map fmap id ffs_LayerSovereignty ffs_DeterministicOrdering ffs_TemporalPurity
         ls_Layers dos_TieBreakerTokens tps_CSharpPolicy];
    repeat (first [reflexivity | assumption | apply andb_true_intro; split | progress cbn [plain forallb fst snd json_strings]]).
Qed.
Lemma dec_settings s : dec_ptr (mkSettings None None None) dec_FitnessFunctionSettings (json_settings s) None = Some (Some (strip_settings s)).
Proof using.
  destruct s as [[[ls]|] [[toks]|] [[pol]|]]; unfold json_settings, dec_FitnessFunctionSettings;
    repeat progress (cbn -[json_LayerRule json_strings dec_strings dec_LayerSovereigntySettings];
                     rewrite ?dec_layers, ?dec_strings_json); done.
Qed.

(** *** The names of the settings *)

Lemma dec_keys fs m0 : ∃ m, foldl (λ acc (kv : string * json),
    match acc, (λ _ _, Some tt) kv.2 tt with
    | Some (Some m), Some v => Some (Some (<[kv.1 := v]> m))
    | _, _ => None
    end) (Some (Some m0)) fs = Some (Some (m : gmap string unit)) ∧
  ∀ k, is_Some (m !! k) → is_Some (m0 !! k) ∨ k ∈ fs.*1.
Proof using.
  revert m0. induction fs as [|[k j] fs IH]; intros m0; cbn [foldl]; [eauto|].
  destruct (IH (<[k := tt]> m0)) as (m & Hm & Hk). exists m. split; [exact Hm|]. intros k' [H|H]%Hk; [|right; by right].
  destruct (decide (k' = k)) as [->|]; [right; by left|]. rewrite lookup_insert_ne in H by done. by left.
Qed.
Lemma settings_known s : ∃ fs, json_settings s = JObj fs ∧ Forall (λ k, k ∈ allowedFitnessFunctionSettingsKeys) fs.*1.
Proof using.
  eexists. split; [reflexivity|]. destruct s as [[l|] [d|] [t|]]; cbn; repeat constructor; apply (bool_decide_unpack _); done.
Qed.

(** The settings pass the check of their names. *)
Lemma known_settings content s rest :
  json_parse content = Some (JObj (rest ++ match s with None => [] | Some s => [("fitness-function-settings", json_settings s)] end)) →
  dec_wrapper (JObj rest) None = Some None →
  rejectUnknownFitnessFunctionSettingsKeys content = None.
Proof using OL.
  intros Hp Hw. unfold rejectUnknownFitnessFunctionSettingsKeys, unmarshal. rewrite Hp. clear Hp.
  unfold dec_wrapper, dec_struct in *. rewrite foldl_app, Hw. destruct s as [s|]; cbn [foldl].
  2: { cbn [default]. by rewrite map_order_empty. }
  destruct (settings_known s) as (fs & -> & Hfs). cbn [fst snd].
  change (select_field _ _) with (Some (dec_map tt (λ (_ : json) (_ : unit), Some tt))). cbn iota. cbn [dec_map default].
  destruct (dec_keys fs ∅) as (m & Hm & Hk). cbn beta in Hm. rewrite Hm. cbn [default].
  destruct (List.find _ _) as [[k x]|] eqn:Hf; [|done]. exfalso. apply List.find_some in Hf as [Hin Hbad].
  apply list_elem_of_In, elem_of_map_order in Hin. cbn [fst] in Hbad. apply negb_true_iff, bool_decide_eq_false in Hbad.
  destruct (Hk k) as [[? H]|H]; [by eexists|by rewrite lookup_empty in H|]. rewrite Forall_forall in Hfs. by apply Hbad, Hfs.
Qed.

Lemma Normalize_union m : (∀ k, is_Some (m !! k) → is_Some (defaultFitnessFunctions !! k)) →
  NormalizeFitnessFunctions (Some m) = Ok (m ∪ defaultFitnessFunctions).
Proof using OL.
  intros Hm. pose proof (NormalizeFitnessFunctions_spec (Some m)) as H. destruct (NormalizeFitnessFunctions _) as [m'|].
  - cbn in H. by destruct H as [_ ->].
  - destruct H as (k & Hk & Hn). cbn in Hk. apply Hm in Hk. rewrite Hn in Hk. by destruct Hk.
Qed.

(** The exclude patterns as they are read back: an empty list is not written. *)
Definition nonempty (l : option (list string)) : option (list string) :=
  match default [] l with [] => None | l => Some l end.

(** The members of a document before its settings. *)
Definition head_members (e : string) (m : gmap string bool) (excludes : option (list string)) : list (string * json) :=
  [("enforcement-mode", JStr e); ("enforcement-on-error", JStr "block"); ("fitness-functions", obj_of (JBool <$> m))]
  ++ match default [] excludes with [] => [] | ps => [("exclude-patterns", json_strings ps)] end.
Lemma scaffold_members e m excludes s :
  json_scaffold (mkScaffold e "block" (Some m) excludes s)
  = JObj (head_members e m excludes ++ match s with None => [] | Some s => [("fitness-function-settings", json_settings s)] end).
Proof using.
  unfold json_scaffold, head_members.
  cbn [sd_EnforcementMode sd_EnforcementOnError sd_FitnessFunctions sd_ExcludePatterns sd_FitnessFunctionSettings].
  rewrite <-!app_assoc. reflexivity.
Qed.

Lemma plain_app l k : plain (JObj (l ++ k)) = plain (JObj l) && plain (JObj k).
Proof using. cbn [plain]. apply forallb_app. Qed.

Context (e : string) (m : gmap string bool) (excludes : option (list string)) (s : option FitnessFunctionSettings).
Context (He : e ∈ ["advisory"; "block"]) (Hm : ∀ k, is_Some (m !! k) → is_Some (defaultFitnessFunctions !! k)).
Context (Hx : forallb ascii_only (default [] excludes) = true) (Hs : from_option ascii_settings true s = true).

Lemma plain_scaffold : plain (json_scaffold (mkScaffold e "block" (Some m) excludes s)) = true.
Proof using He Hm Hx Hs.
  rewrite scaffold_members, plain_app. apply andb_true_intro. split.
  - unfold head_members. rewrite plain_app. apply andb_true_intro. split.
    + assert (plain (obj_of (JBool <$> m)) = true) as Hp by (apply plain_obj; intros k Hk; by apply catalog_ascii, Hm).
      cbn [plain forallb fst snd]. rewrite Hp.
      apply elem_of_cons in He as [->|[->|[]%elem_of_nil]%elem_of_cons]; reflexivity.
    + apply plain_strings in Hx. destruct (default [] excludes); [done|]. cbn [plain forallb fst snd] in *.
      rewrite Hx. reflexivity.
  - destruct s as [s'|]; [|done]. cbn [from_option] in Hs. apply plain_settings in Hs.
    cbn [plain forallb fst snd]. rewrite Hs. reflexivity.
Qed.

Lemma dec_scaffolded :
  dec_Config (json_scaffold (mkScaffold e "block" (Some m) excludes s)) zero_config
  = Some (mkConfig e "block" (Some m) (nonempty excludes) (strip_settings <$> s)).
Proof using.
  clear Hx Hs. rewrite scaffold_members. unfold head_members, nonempty. destruct (default [] excludes) as [|x xs], s as [s'|];
    unfold dec_Config; cbn [app dec_struct foldl fst snd];
    repeat progress (cbn -[dec_map dec_list dec_ptr json_strings json_settings obj_of dec_FitnessFunctionSettings];
                     rewrite ?dec_map_obj, ?dec_excludes, ?dec_settings); done.
Qed.

(** Reading back a document: its mode and settings are validated like those of
    any other. *)
Lemma Parse_scaffold :
  Parse (MarshalIndent (json_scaffold (mkScaffold e "block" (Some m) excludes s)) +:+ newline_text)
  = validateFitnessFunctionSettings
      (mkConfig e "block" (Some (m ∪ defaultFitnessFunctions)) (nonempty excludes) (strip_settings <$> s)).
Proof using He Hm Hx Hs OL.
  set (j := json_scaffold _). assert (json_parse (MarshalIndent j +:+ newline_text) = Some j) as Hp
    by (apply json_print_parse_space; [apply plain_scaffold|reflexivity]).
  unfold Parse, unmarshal. rewrite Hp. unfold j at 1. rewrite dec_scaffolded.
  cbn [cfg_EnforcementMode cfg_EnforcementOnError cfg_FitnessFunctions cfg_ExcludePatterns cfg_FitnessFunctionSettings].
  rewrite (Normalize_union m Hm).
  rewrite (known_settings _ s (head_members e m excludes)); [|by rewrite Hp; unfold j; rewrite scaffold_members|].
  - apply elem_of_cons in He as [->|[->|[]%elem_of_nil]%elem_of_cons]; reflexivity.
  - unfold head_members. destruct (default [] excludes); reflexivity.
Qed.
End documents.

(** ** Settings that were accepted once are accepted again *)

Section settings.
Context {R : RegexpEngine} {O : GoMapOrder} {OL : GoMapOrderLaws O} {U : UnicodeTables}
        {J : JsonErrorText} {N : JsonNumberText}.

Lemma compile_strip ls : compile_layers (strip_layer <$> ls) = compile_layers ls.
Proof using. induction ls as [|r ls IH]; [done|]. cbn [fmap list_fmap compile_layers]. by rewrite IH. Qed.
Lemma compiled_layers ls compiled : compile_layers ls = Ok compiled → strip_layer <$> compiled = strip_layer <$> ls.
Proof using.
  revert compiled. induction ls as [|r ls IH]; intros compiled; cbn [compile_layers]; [by intros [= <-]|].
  destruct (compileLayerRule r) as [r'|] eqn:Hr; [|done]. destruct (compile_layers ls) as [rest|]; [|done].
  intros [= <-]. cbn [fmap list_fmap]. rewrite (IH rest) by done. f_equal. unfold compileLayerRule in Hr.
  destruct (String.eqb _ _); [done|]. case_bool_decide; [done|]. case_bool_decide; [done|].
  destruct (compile_all globToRegexp _ _ _); [|done]. destruct (compile_all regexp_compile _ _ _); [|done].
  by injection Hr as <-.
Qed.
Lemma validate_strip s : validate_settings (strip_settings s) = validate_settings s.
Proof using.
  destruct s as [[[ls]|] d t]; [|done]. unfold validate_settings, strip_settings.
  cbn [ffs_LayerSovereignty ffs_DeterministicOrdering ffs_TemporalPurity option_fmap option_map fmap ls_Layers].
  by rewrite compile_strip.
Qed.
Lemma compile_all_again compile what layer sources ps :
  Forall2 (λ s p, compile s = Ok p) sources ps → compile_all compile what layer sources = Ok ps.
Proof using. induction 1 as [|s p sources ps H _ IH]; [done|]. cbn [compile_all]. by rewrite H, IH. Qed.
Lemma compile_again ls : Forall layer_wf ls → compile_layers ls = Ok ls.
Proof using.
  induction 1 as [|r ls (H1 & H2 & H3 & H4 & H5) _ IH]; [done|]. cbn [compile_layers].
  assert (compileLayerRule r = Ok r) as ->; [|by rewrite IH]. unfold compileLayerRule.
  apply String.eqb_neq in H1. rewrite H1, !bool_decide_false by done.
  rewrite (compile_all_again _ _ _ _ _ H4), (compile_all_again _ _ _ _ _ H5). by destruct r.
Qed.

(** The settings of an accepted configuration. *)
Definition settings_wf (s : FitnessFunctionSettings) : Prop :=
  from_option (λ ls, Forall layer_wf (ls_Layers ls)) True (ffs_LayerSovereignty s) ∧
  from_option (λ t, tps_CSharpPolicy t ∈ [""; "naive-only"; "require-offset"]) True (ffs_TemporalPurity s).
Lemma accepted_settings c s : config_wf c → cfg_FitnessFunctionSettings c = Some s → settings_wf s.
Proof using.
  intros H Hs. pose proof (wf_layers _ H) as Hl. pose proof (wf_policy _ H) as Hp.
  unfold LayerRules, policy_wf, TemporalPurityCSharpPolicy in *. rewrite Hs in Hl, Hp. split.
  - by destruct (ffs_LayerSovereignty s).
  - destruct (ffs_TemporalPurity s) as [t|]; [|done]. cbn [from_option].
    destruct (String.eqb_spec (tps_CSharpPolicy t) "") as [->|]; [by left|]. right.
    destruct Hp as [->| ->]; [by left|right; by left].
Qed.
Lemma validate_again s : settings_wf s → validate_settings s = Ok s.
Proof using.
  destruct s as [l d t]. intros [H1 H2]. cbn [ffs_LayerSovereignty ffs_TemporalPurity] in *. unfold validate_settings.
  assert (∀ l, (match t with
    | None => Ok (mkSettings l d t)
    | Some t' => if bool_decide (tps_CSharpPolicy t' ∈ [""; "naive-only"; "require-offset"]) then Ok (mkSettings l d t)
                 else Err (ErrNew ("unsupported temporal-purity csharp-policy " +:+ quote (tps_CSharpPolicy t')))
    end : result goerror FitnessFunctionSettings) = Ok (mkSettings l d t)) as Ht.
  { intros l'. destruct t as [t|]; [|done]. cbn [from_option] in H2. by rewrite bool_decide_true. }
  destruct l as [[ls]|]; cbn [ffs_LayerSovereignty ls_Layers]; [|exact (Ht None)].
  cbn [from_option ls_Layers] in H1. rewrite compile_again by done. exact (Ht (Some (mkLayerSettings ls))).
Qed.

(** The settings [s] are accepted and compiled to [s']. *)
Definition validated (s s' : option FitnessFunctionSettings) : Prop :=
  match s with
  | None => s' = None
  | Some x => ∃ y, validate_settings x = Ok y ∧ s' = Some y
  end.
Lemma validated_again s : from_option settings_wf True s → validated s s.
Proof using. destruct s as [s|]; [|done]. intros H. exists s. split; [by apply validate_again|done]. Qed.

(** The verdict on a configuration with such settings. *)
Lemma validate_config mode on_error m excludes s s' :
  validated s s' →
  (Enabled (mkConfig mode on_error (Some m) excludes s') "layer-sovereignty" = true →
   LayerRules (mkConfig mode on_error (Some m) excludes s') ≠ []) →
  validateFitnessFunctionSettings (mkConfig mode on_error (Some m) excludes (strip_settings <$> s))
  = Ok (mkConfig mode on_error (Some m) excludes s').
Proof using.
  intros Hs Hl. unfold validateFitnessFunctionSettings. cbn [cfg_FitnessFunctionSettings].
  assert (∀ c, (Enabled c "layer-sovereignty" = true → LayerRules c ≠ []) →
    (if Enabled c "layer-sovereignty" && bool_decide (length (LayerRules c) = 0)
     then Err layers_missing else Ok c) = Ok c) as Hc.
  { intros c H. destruct (Enabled c _); [|done]. cbn [andb]. rewrite bool_decide_false; [done|].
    intros Hn%nil_length_inv. by apply H. }
  destruct s as [s|]; cbn [fmap option_fmap option_map].
  - destruct Hs as (y & Hy & ->). rewrite validate_strip, Hy. by apply Hc.
  - cbn in Hs. subst s'. by apply Hc.
Qed.

(** *** Selections *)

Lemma set_all_lookup keys b m k : set_all keys b m !! k = if bool_decide (k ∈ keys) then Some b else m !! k.
Proof using.
  unfold set_all. revert m. induction keys as [|key keys IH]; intros m; [done|]. cbn [foldl]. rewrite IH.
  case_bool_decide; case_bool_decide as H2; try done.
  - exfalso. apply H2. by right.
  - apply elem_of_cons in H2 as [->|?]; [|done]. by rewrite lookup_insert_eq.
  - rewrite lookup_insert_ne; [done|]. intros ->. apply H2. by left.
Qed.
Lemma overlay_lookup f k : overlayGeneralizedFunctions f !! k =
  match f !! k with
  | Some b => Some b
  | None => if bool_decide (k ∈ generalizedFitnessFunctionKeys) then Some false else None
  end.
Proof using.
  unfold overlayGeneralizedFunctions. generalize generalizedFitnessFunctionKeys as keys. intros keys. revert f.
  induction keys as [|key keys IH]; intros f; cbn [foldl]; [by destruct (f !! k)|]. rewrite IH.
  destruct (f !! key) eqn:Hk.
  - destruct (f !! k) eqn:Hk'; [done|]. case_bool_decide; case_bool_decide as H2; try done.
    + exfalso. apply H2. by right.
    + apply elem_of_cons in H2 as [->|?]; [congruence|done].
  - destruct (decide (k = key)) as [->|Hne].
    + rewrite lookup_insert_eq, Hk. rewrite bool_decide_true by by left. done.
    + rewrite lookup_insert_ne by done. destruct (f !! k); [done|]. case_bool_decide; case_bool_decide as H2; try done.
      * exfalso. apply H2. by right.
      * apply elem_of_cons in H2 as [->|?]; done.
Qed.
Lemma catalog_member k : is_Some (defaultFitnessFunctions !! k) ↔ k ∈ allFitnessFunctionKeys.
Proof using.
  assert (dom defaultFitnessFunctions = (list_to_set allFitnessFunctionKeys : gset string)) as H
    by (apply (bool_decide_unpack _); vm_compute; done).
  rewrite <-(elem_of_dom (D := gset string)), H. apply elem_of_list_to_set.
Qed.
Lemma catalog_value k : k ∈ allFitnessFunctionKeys → defaultFitnessFunctions !! k = Some (bool_decide (k ∈ fitnessFunctionKeys)).
Proof using.
  intros Hk. unfold allFitnessFunctionKeys, fitnessFunctionKeys, generalizedFitnessFunctionKeys in Hk. cbn [app] in Hk.
  repeat (apply elem_of_cons in Hk as [->|Hk]; [reflexivity|]). by apply elem_of_nil in Hk.
Qed.

Lemma catalog_off k : k ∉ fitnessFunctionKeys → default false (defaultFitnessFunctions !! k) = false.
Proof using.
  intros Hn. destruct (decide (k ∈ allFitnessFunctionKeys)) as [Hin|Hout].
  - rewrite catalog_value by done. by rewrite bool_decide_false.
  - assert (defaultFitnessFunctions !! k = None) as ->; [|done]. apply eq_None_not_Some. by rewrite catalog_member.
Qed.
(** The functions the daemon sees for a selection that states the five. *)
Lemma scaffolded_enabled selected k :
  (∀ key, key ∈ fitnessFunctionKeys → is_Some (selected !! key)) →
  (∀ key, is_Some (selected !! key) → key ∈ allFitnessFunctionKeys) →
  default false ((scaffoldedFunctions (Some selected) ∪ defaultFitnessFunctions) !! k) = default false (selected !! k).
Proof using.
  intros Hfive Hdom. destruct (selected !! k) as [b|] eqn:Hk.
  - rewrite (lookup_union_Some_l _ _ _ b); [done|]. unfold scaffoldedFunctions. destruct (containsAnyKey _ _); [|done].
    by rewrite overlay_lookup, Hk.
  - assert (k ∉ fitnessFunctionKeys) as Hn by (intros [? ?]%Hfive; congruence).
    pose proof (catalog_off k Hn) as Hd.
    cbn [default]. destruct (scaffoldedFunctions (Some selected) !! k) as [b|] eqn:Hs.
    + rewrite (lookup_union_Some_l _ _ _ b) by done. unfold scaffoldedFunctions in Hs. destruct (containsAnyKey _ _); [|congruence].
      rewrite overlay_lookup, Hk in Hs. case_bool_decide; [|done]. by injection Hs as <-.
    + by rewrite lookup_union_r.
Qed.
Lemma scaffolded_names selected k :
  (∀ key, is_Some (selected !! key) → key ∈ allFitnessFunctionKeys) →
  is_Some (scaffoldedFunctions (Some selected) !! k) → is_Some (defaultFitnessFunctions !! k).
Proof using.
  intros Hdom Hk. apply catalog_member. unfold scaffoldedFunctions in Hk. destruct (containsAnyKey _ _); [|by apply Hdom].
  rewrite overlay_lookup in Hk. destruct (selected !! k) eqn:Hs; [apply Hdom; eauto|].
  case_bool_decide; [|by destruct Hk]. unfold allFitnessFunctionKeys. apply elem_of_app. by right.
Qed.
End settings.

(** ** The rendered document *)

Section rendered.
Context {R : RegexpEngine} {O : GoMapOrder} {OL : GoMapOrderLaws O} {U : UnicodeTables}
        {J : JsonErrorText} {N : JsonNumberText}.

Lemma template_loads e : e ∈ ["advisory"; "block"] → loadScaffoldTemplate e = Ok (mkScaffold e "block" (Some ∅) None None).
Proof using. intros [->|[->|[]%elem_of_nil]%elem_of_cons]%elem_of_cons; reflexivity. Qed.

(** Rendering succeeds, and the document is read back as the configuration it
    was rendered from. *)
Lemma rendered_accepted e selected layers extras s' :
  e ∈ ["advisory"; "block"] →
  (∀ k, is_Some (scaffoldedFunctions selected !! k) → is_Some (defaultFitnessFunctions !! k)) →
  forallb ascii_only (default [] (ex_excludePatterns extras)) = true →
  let s := layerSovereigntySettings (ex_settings extras) layers in
  from_option ascii_settings true s = true → validated s s' →
  let c := mkConfig e "block" (Some (scaffoldedFunctions selected ∪ defaultFitnessFunctions))
             (nonempty (ex_excludePatterns extras)) s' in
  (Enabled c "layer-sovereignty" = true → LayerRules c ≠ []) →
  ∃ content, renderGovernanceConfig e selected layers extras = Ok content ∧ Parse content = Ok c.
Proof using OL.
  intros He Hm Hx s Hs Hwf c Hl. unfold renderGovernanceConfig. rewrite template_loads by done.
  eexists. split; [reflexivity|]. cbn [sd_EnforcementMode sd_EnforcementOnError]. fold s.
  rewrite Parse_scaffold by done. by apply validate_config.
Qed.

(** *** The selection of the flag *)

(** The names a [--functions] text gives. *)
Definition named (raw : string) : list string := filter (λ name, name ≠ "") (trim_space <$> split raw comma).

Lemma select_names_ok names : ∀ selected any selected' any',
  select_names names selected any = Ok (selected', any') →
  Forall (λ name, name ∈ acceptable) (filter (λ name, name ≠ "") (trim_space <$> names)) ∧
  ∀ k, selected' !! k = if bool_decide (k ∈ filter (λ name, name ≠ "") (trim_space <$> names)) then Some true else selected !! k.
Proof using.
  induction names as [|raw names IH]; intros selected any selected' any'; cbn [select_names fmap list_fmap].
  { intros [= <- <-]. split; [constructor|done]. }
  rewrite filter_cons. destruct (String.eqb_spec (trim_space raw) "") as [He|Hne].
  { rewrite decide_False by (intros H; by apply H). apply IH. }
  rewrite decide_True by done. destruct (String.eqb _ "layer-sovereignty"); [done|].
  case_bool_decide as Hacc; cbn [negb]; [|done]. intros [H1 H2]%IH. split; [by constructor|]. intros k. rewrite H2.
  case_bool_decide; case_bool_decide as H3; try done.
  - exfalso. apply H3. by right.
  - apply elem_of_cons in H3 as [->|?]; [by rewrite lookup_insert_eq|done].
  - rewrite lookup_insert_ne; [done|]. intros <-. apply H3. by left.
Qed.

Lemma parseFunctionsFlag_ok raw selected : parseFunctionsFlag raw = Ok selected →
  (∀ key, key ∈ fitnessFunctionKeys → is_Some (selected !! key)) ∧
  (∀ key, is_Some (selected !! key) → key ∈ allFitnessFunctionKeys ∧ key ≠ "layer-sovereignty") ∧
  ∀ key, default false (selected !! key) = bool_decide (key ∈ named raw).
Proof using.
  unfold parseFunctionsFlag. destruct (select_names _ _ _) as [[selected' any]|] eqn:H; [|done].
  destruct any; [|done]. intros [= <-]. apply select_names_ok in H as [Hacc Hlook].
  assert (∀ key, (set_all fitnessFunctionKeys false ∅ : gmap string bool) !! key =
    if bool_decide (key ∈ fitnessFunctionKeys) then Some false else None) as Hbase by (intros key; by rewrite set_all_lookup).
  fold (named raw) in *. rewrite Forall_forall in Hacc. split_and!; intros key.
  - intros Hk. rewrite Hlook, Hbase. case_bool_decide; [eauto|]. rewrite bool_decide_true by done. eauto.
  - rewrite Hlook, Hbase. intros Hk.
    assert (key ∈ acceptable) as Ha.
    { case_bool_decide as H1; [by apply Hacc|]. case_bool_decide; [|by destruct Hk].
      unfold acceptable. apply elem_of_app. by left. }
    unfold acceptable, fitnessFunctionKeys, scaffoldableGeneralizedFunctionKeys in Ha. cbn [app] in Ha.
    repeat (apply elem_of_cons in Ha as [->|Ha]; [split; [|done]; by apply (bool_decide_unpack _)|]). by apply elem_of_nil in Ha.
  - rewrite Hlook, Hbase. case_bool_decide; [done|]. by case_bool_decide.
Qed.

(** What the extras of an existing configuration are. *)
Lemma extras_wf existing : from_option settings_wf True (ex_settings (extras_of existing)).
Proof using OL.
  unfold extras_of. destruct existing as [content|]; [|done]. destruct (Parse content) as [c|] eqn:Hp; [|done].
  cbn [ex_settings]. destruct (cfg_FitnessFunctionSettings c) as [s|] eqn:Hs; [|done].
  apply Parse_ok in Hp as (raw & _ & Hwf & _). by eapply accepted_settings.
Qed.

(** C31: the daemon accepts what a run of onboarding without a terminal writes, and
    it means what was asked for.  Whatever the existing file of the repository
    (none, unreadable, invalid or accepted; its texts ASCII), for every mode and
    [--functions] text that the command accepts the rendered document is parsed:
    to the requested mode, with exactly the named functions enabled (without the
    flag those of the catalog's default), and with the exclude patterns and the
    settings of the existing configuration, compiled patterns included. *)
Theorem onboarded_config_accepted (existing : result goerror string) (functionsFlag mode e : string)
    (selected : option (gmap string bool))
    (Hf : resolveSelectedFunctions functionsFlag = Ok selected) (He : validateEnforcement mode = Ok e)
    (Hx : ascii_extras (extras_of existing) = true) :
  ∃ content c, renderGovernanceConfig e selected [] (extras_of existing) = Ok content ∧ Parse content = Ok c ∧
    cfg_EnforcementMode c = mode ∧ cfg_EnforcementOnError c = "block" ∧
    default [] (cfg_ExcludePatterns c) = default [] (ex_excludePatterns (extras_of existing)) ∧
    cfg_FitnessFunctionSettings c = ex_settings (extras_of existing) ∧
    ∀ name, Enabled c name = if String.eqb functionsFlag "" then default false (defaultFitnessFunctions !! name)
                             else bool_decide (name ∈ named functionsFlag).
Proof using OL.
  unfold validateEnforcement in He. case_bool_decide as Hmode; [|done]. injection He as <-.
  apply andb_true_iff in Hx as [Hx1 Hx2].
  assert ((∀ k, is_Some (scaffoldedFunctions selected !! k) → is_Some (defaultFitnessFunctions !! k)) ∧
    (∀ name, default false ((scaffoldedFunctions selected ∪ defaultFitnessFunctions) !! name) =
      if String.eqb functionsFlag "" then default false (defaultFitnessFunctions !! name)
      else bool_decide (name ∈ named functionsFlag)) ∧
    default false ((scaffoldedFunctions selected ∪ defaultFitnessFunctions) !! "layer-sovereignty") = false)
    as (Hnames & Hen & Hls).
  { unfold resolveSelectedFunctions in Hf. destruct (String.eqb functionsFlag "").
    - injection Hf as <-. assert (scaffoldedFunctions None = defaultFitnessFunctions) as ->
        by (apply (bool_decide_unpack _); vm_compute; done).
      rewrite (idemp_L (∪)). done.
    - destruct (parseFunctionsFlag functionsFlag) as [sel|] eqn:Hp; [|done]. injection Hf as <-.
      apply parseFunctionsFlag_ok in Hp as (H1 & H2 & H3).
      assert (∀ key, is_Some (sel !! key) → key ∈ allFitnessFunctionKeys) as H2' by (intros key Hk; by apply H2).
      split; [intros k; by apply scaffolded_names|]. setoid_rewrite (scaffolded_enabled sel _ H1 H2'). split; [done|].
      destruct (sel !! "layer-sovereignty") eqn:Hl; [|done]. exfalso. by eapply (proj2 (H2 "layer-sovereignty" ltac:(eauto))). }
  destruct (rendered_accepted mode selected [] (extras_of existing) (ex_settings (extras_of existing))) as (content & Hr & Hp);
    try done; [apply validated_again, extras_wf| |].
  { unfold Enabled. cbn [cfg_FitnessFunctions default from_option id]. unfold default in Hls.
    destruct (_ !! "layer-sovereignty") as [[]|]; done. }
  eexists content, _. split; [exact Hr|]. split; [exact Hp|]. cbn [cfg_EnforcementMode cfg_EnforcementOnError
    cfg_ExcludePatterns cfg_FitnessFunctionSettings layerSovereigntySettings]. split_and!; try done.
  unfold nonempty. by destruct (default [] _).
Qed.
End rendered.
