(* ===== verification/Baseline.v ===== *)
(** * Baselines

    [internal/analyzer/baseline.go] and [internal/analyzer/onboarding.go]: the
    distributions of the metrics of a repository, their percentiles, and the
    recommendation that [baseline --onboard] derives from them.

    The JSON of a whole report ([WriteBaselineReport]) is not modelled. *)

From stdpp Require Import base gmap strings list fin_maps.
From Stdlib Require Import ZArith Lia SpecFloat Ascii.
From S2P Require Import Prelude GoStrings GoErrors GoFloat GoJson GoJsonPrint Fitness Metrics GovConfig GoOS ConfigStore Scaffold.
Set Default Goal Selector "!".

(** ** Arithmetic and sorting *)

Definition f64_mul (x y : float64) : float64 := SFmul f64_prec f64_emax x y.
(** [int(x)], which truncates. *)
Definition f64_to_int (x : float64) : Z :=
  match x with
  | S754_finite s m e =>
      let n := if (0 <=? e)%Z then (Zpos m * 2 ^ e)%Z else (Zpos m / 2 ^ (- e))%Z in
      if s then (- n)%Z else n
  | _ => 0%Z
  end.

(** [sort.Ints], and [sort.Float64s], which puts NaN first. *)
Definition sort_Ints : list Z → list Z := stable_sort id Z.leb.
Definition f64_less (x y : float64) : bool :=
  f64_lt x y || (match x, y with S754_nan, S754_nan => false | S754_nan, _ => true | _, _ => false end).
Definition sort_Float64s : list float64 → list float64 := stable_sort id (λ x y, negb (f64_less y x)).

(** ** Distributions *)

Record BaselineSummary := mkSummary {
  bs_FileCount : Z;
  bs_FunctionCount : Z;
  bs_P90CyclomaticComplexity : Z;
  bs_P90PublicMethods : Z;
  bs_P10AverageLOCPerPublicAPI : float64;
  bs_P10LogicDensityRatio : float64;
  bs_P10DependencyDiscipline : float64;
}.
Record BaselineDistributions := mkDistributions {
  bd_CyclomaticComplexity : list Z;
  bd_PublicMethods : list Z;
  bd_AverageLOCPerPublicMethod : list float64;
  bd_LogicDensityRatio : list float64;
  bd_DependencyDiscipline : list float64;
}.

(** What one result adds to the distributions. *)
Definition depth_sample (result : AnalysisResult) : option float64 :=
  let module := ar_ModuleMetric (EnsureModuleMetric result) in
  if (0 <? mod_PublicMethods module)%Z then Some (mod_AverageLOCPerPublicMethod module) else None.
Definition density_sample (result : AnalysisResult) : option float64 :=
  if (0 <? file_TotalLOC (ar_FileMetric result))%Z && LogicDensityApplicable result
  then Some (file_LDR (ar_FileMetric result)) else None.
Definition discipline_sample (result : AnalysisResult) : option float64 :=
  if (0 <? imp_Total (ar_Imports result))%Z then Some (imp_DDC (ar_Imports result)) else None.

Definition distributions (results : list AnalysisResult) : BaselineDistributions :=
  mkDistributions (sort_Ints (results ≫= λ result, fn_CyclomaticComplexity <$> ar_Functions result))
    (sort_Ints (InterfaceWidth <$> (EnsureModuleMetric <$> results)))
    (sort_Float64s (omap depth_sample results))
    (sort_Float64s (omap density_sample results))
    (sort_Float64s (omap discipline_sample results)).

Definition percentileIndex (length : Z) (percentile : float64) : Z :=
  let index := f64_to_int (f64_mul percentile (f64_of_int (length - 1))) in
  if (index <? 0)%Z then 0%Z else if (length <=? index)%Z then (length - 1)%Z else index.
Definition at_percentile {A} (zero : A) (values : list A) (percentile : float64) : A :=
  nth (Z.to_nat (percentileIndex (Z.of_nat (length values)) percentile)) values zero.
Definition percentileInt (values : list Z) (percentile : float64) : Z :=
  match values with [] => 0%Z | _ => at_percentile 0%Z (sort_Ints values) percentile end.
Definition percentileFloat (values : list float64) (percentile : float64) : float64 :=
  match values with [] => f64_zero | _ => at_percentile f64_zero (sort_Float64s values) percentile end.

Definition p90 : float64 := f64_of_decimal 90 2.
Definition p10 : float64 := f64_of_decimal 10 2.
Definition summarize (d : BaselineDistributions) (fileCount : Z) : BaselineSummary :=
  mkSummary fileCount (Z.of_nat (length (bd_CyclomaticComplexity d)))
    (percentileInt (bd_CyclomaticComplexity d) p90) (percentileInt (bd_PublicMethods d) p90)
    (percentileFloat (bd_AverageLOCPerPublicMethod d) p10) (percentileFloat (bd_LogicDensityRatio d) p10)
    (percentileFloat (bd_DependencyDiscipline d) p10).
Definition SummarizeResults (results : list AnalysisResult) : BaselineSummary :=
  summarize (distributions results) (Z.of_nat (length results)).

(** [ratio] of baseline.go. *)
Definition ratio (numerator denominator : Z) : float64 :=
  if (denominator =? 0)%Z then f64_one else f64_div (f64_of_int numerator) (f64_of_int denominator).

(** ** The recommendation *)

Record ThresholdDelta := mkDelta {
  td_FitnessFunction : string;
  td_Operator : string;
  td_PercentileLabel : string;
  td_RepositoryValue : float64;
  td_GlobalThreshold : float64;
  td_Delta : float64;
  td_NeedsLooser : bool;
  td_ViolatingCount : nat;
  td_ViolationUnit : string;
}.
Record OnboardingRecommendation := mkRecommendation {
  or_Repository : string;
  or_EnforcementMode : string;
  or_TotalViolations : nat;
  or_Deltas : list ThresholdDelta;
}.

(** How many of the elements satisfy a condition. *)
Definition count_if {A} (p : A → bool) (l : list A) : nat := length (filter (λ x, p x = true) l).

Definition newDelta (name percentileLabel unit_ : string) (repoValue : float64) (count : nat) (rule : FitnessRule) :
  ThresholdDelta :=
  mkDelta name (rule_Operator rule) percentileLabel repoValue (rule_Threshold rule)
    (f64_sub repoValue (rule_Threshold rule))
    (if String.eqb (rule_Operator rule) "lte" then f64_lt (rule_Threshold rule) repoValue
     else f64_lt repoValue (rule_Threshold rule)) count unit_.

Definition countCyclomaticViolations (results : list AnalysisResult) (threshold : float64) : nat :=
  count_if (λ f, f64_lt threshold (f64_of_int (fn_CyclomaticComplexity f))) (results ≫= ar_Functions).
Definition countInterfaceViolations (results : list AnalysisResult) (threshold : float64) : nat :=
  count_if (λ result, f64_lt threshold (f64_of_int (InterfaceWidth result))) results.
(** A sample below the threshold. *)
Definition below (threshold : float64) (sample : option float64) : bool :=
  match sample with Some value => f64_lt value threshold | None => false end.
Definition countDepthViolations (results : list AnalysisResult) (threshold : float64) : nat :=
  count_if (λ result, below threshold (depth_sample result)) results.
Definition countDensityViolations (results : list AnalysisResult) (threshold : float64) : nat :=
  count_if (λ result, below threshold (density_sample result)) results.
Definition countDisciplineViolations (results : list AnalysisResult) (threshold : float64) : nat :=
  count_if (λ result, below threshold (discipline_sample result)) results.
Definition countFindings (results : list AnalysisResult) (rule : string) : nat :=
  count_if (λ finding, String.eqb (find_Rule finding) rule) (results ≫= ar_Findings).

Section deltas.
Context (results : list AnalysisResult) (summary : BaselineSummary) (rules : gmap string FitnessRule).

(** A missing key reads as the zero rule. *)
Definition rule_of (name : string) : FitnessRule := default zero_rule (rules !! name).
Definition cyclomaticDelta : ThresholdDelta :=
  let rule := rule_of "cyclomatic-complexity" in
  newDelta "cyclomatic-complexity" "P90" "functions" (f64_of_int (bs_P90CyclomaticComplexity summary))
    (countCyclomaticViolations results (rule_Threshold rule)) rule.
Definition interfaceDelta : ThresholdDelta :=
  let rule := rule_of "interface-width" in
  newDelta "interface-width" "P90" "files" (f64_of_int (bs_P90PublicMethods summary))
    (countInterfaceViolations results (rule_Threshold rule)) rule.
Definition depthDelta : ThresholdDelta :=
  let rule := rule_of "implementation-depth" in
  newDelta "implementation-depth" "P10" "files" (bs_P10AverageLOCPerPublicAPI summary)
    (countDepthViolations results (rule_Threshold rule)) rule.
Definition densityDelta : ThresholdDelta :=
  let rule := rule_of "logic-density" in
  newDelta "logic-density" "P10" "files" (bs_P10LogicDensityRatio summary)
    (countDensityViolations results (rule_Threshold rule)) rule.
Definition disciplineDelta : ThresholdDelta :=
  let rule := rule_of "dependency-discipline" in
  newDelta "dependency-discipline" "P10" "files" (bs_P10DependencyDiscipline summary)
    (countDisciplineViolations results (rule_Threshold rule)) rule.

Definition findingsDelta (name : string) (rule : FitnessRule) : ThresholdDelta :=
  let count := countFindings results name in
  newDelta name "count" "findings" (f64_of_int (Z.of_nat count)) count rule.
Definition findingsDeltas : list ThresholdDelta :=
  omap (λ name, findingsDelta name <$> rules !! name) ["temporal-purity"; "sql-composition-safety"].

Definition hasLogicDensitySamples : bool := existsb (λ result, bool_decide (is_Some (density_sample result))) results.
Definition thresholdDeltas : list ThresholdDelta :=
  [cyclomaticDelta; interfaceDelta; depthDelta]
  ++ (if hasLogicDensitySamples then [densityDelta] else [])
  ++ [disciplineDelta] ++ findingsDeltas.
End deltas.

Definition BuildOnboardingRecommendation (repository : string) (results : list AnalysisResult)
    (rules : gmap string FitnessRule) : OnboardingRecommendation :=
  let deltas := thresholdDeltas results (SummarizeResults results) rules in
  let total := foldl (λ acc delta, (acc + td_ViolatingCount delta)%nat) 0%nat deltas in
  mkRecommendation repository (if (0 <? total)%nat then "advisory" else "block") total deltas.

(** ** The emitted configuration and the report *)

Record EmittedConfig := mkEmitted {
  em_EnforcementMode : string;
  em_EnforcementOnError : string;
  em_FitnessFunctions : gmap string bool;
}.
Definition json_EmittedConfig (c : EmittedConfig) : json :=
  JObj [("enforcement-mode", JStr (em_EnforcementMode c)); ("enforcement-on-error", JStr (em_EnforcementOnError c));
        ("fitness-functions", obj_of (JBool <$> em_FitnessFunctions c))].
Definition emitted (enforcementMode : string) : EmittedConfig :=
  mkEmitted enforcementMode "block"
    (list_to_map [("cyclomatic-complexity", true); ("interface-width", true); ("implementation-depth", true);
                  ("logic-density", true); ("dependency-discipline", true)]).
Definition emitted_text {N : JsonNumberText} (enforcementMode : string) : string :=
  MarshalIndent (json_EmittedConfig (emitted enforcementMode)) +:+ newline_text.
Definition WriteOnboardingConfig {S} {E : OSEnv} {N : JsonNumberText} (path enforcementMode : string) : M S (option goerror) :=
  WriteFile path (emitted_text enforcementMode).

(** [%-<width>s] and [%-+<width>.3f]. *)
Definition pad_right (width : nat) (s : string) : string :=
  s +:+ of_bytes (replicate (width - length (runes s)) " "%char).
Definition format_signed (p : nat) (x : float64) : string :=
  let s := format_f p x in
  if has_prefix s "-" || has_prefix s "+" then s else "+" +:+ s.
Definition looserLabel (needsLooser : bool) : string := if needsLooser then "yes" else "no".
Definition delta_row (d : ThresholdDelta) : string :=
  "  " +:+ pad_right 22 (td_FitnessFunction d) +:+ " " +:+ pad_right 4 (td_Operator d) +:+ " "
  +:+ pad_right 9 (format_f 3 (td_RepositoryValue d)) +:+ " " +:+ pad_right 9 (format_f 3 (td_GlobalThreshold d)) +:+ " "
  +:+ pad_right 9 (format_signed 3 (td_Delta d)) +:+ " " +:+ pad_right 14 (looserLabel (td_NeedsLooser d)) +:+ " "
  +:+ itoa (Z.of_nat (td_ViolatingCount d)) +:+ " " +:+ td_ViolationUnit d +:+ newline_text.
Definition deltaTable (deltas : list ThresholdDelta) : string :=
  "  " +:+ pad_right 22 "fitness function" +:+ " " +:+ pad_right 4 "op" +:+ " " +:+ pad_right 9 "repo" +:+ " "
  +:+ pad_right 9 "global" +:+ " " +:+ pad_right 9 "delta" +:+ " " +:+ pad_right 14 "needs looser?" +:+ " violations" +:+ newline_text
  +:+ join (delta_row <$> deltas) "".
