(* ===== verification/BaselineProofs.v ===== *)
(** * Correctness of baselines

    The recommendation counts what the check would report, and a row that asks for a
    looser threshold is explained by a violation or by the lack of samples. *)

From stdpp Require Import base gmap strings list fin_maps.
From Stdlib Require Import ZArith Lia SpecFloat Ascii.
From S2P Require Import Prelude GoStrings GoErrors GoFloat GoFloatOrder GoJson GoJsonPrint Fitness Metrics GovConfig Scoring ContentScoring ConfigStore Governance Scaffold ScaffoldProofs Baseline.
Set Default Goal Selector "!".

(** ** Counting *)

Definition indicator (b : bool) : nat := if b then 1 else 0.
Lemma count_cons {A} (p : A → bool) x l : count_if p (x :: l) = (indicator (p x) + count_if p l)%nat.
Proof. unfold count_if. rewrite filter_cons. unfold indicator. destruct (p x) eqn:H; [rewrite decide_True by done|rewrite decide_False by done]; done. Qed.
Lemma count_app {A} (p : A → bool) l1 l2 : count_if p (l1 ++ l2) = (count_if p l1 + count_if p l2)%nat.
Proof. unfold count_if. by rewrite filter_app, length_app. Qed.
Lemma count_sum {A} (p : A → bool) l : count_if p l = sum_list_with (λ x, indicator (p x)) l.
Proof. induction l as [|x l IH]; [done|]. rewrite count_cons, IH. done. Qed.
Lemma count_bind {A B} (p : B → bool) (f : A → list B) l : count_if p (l ≫= f) = sum_list_with (λ x, count_if p (f x)) l.
Proof. induction l as [|x l IH]; [done|]. rewrite bind_cons, count_app, IH. done. Qed.
Lemma count_positive {A} (p : A → bool) x l : x ∈ l → p x = true → (0 < count_if p l)%nat.
Proof. intros Hx Hp. induction l as [|y l IH]; [by apply elem_of_nil in Hx|]. rewrite count_cons. apply elem_of_cons in Hx as [->|Hx]; [rewrite Hp; cbn; lia|]. specialize (IH Hx). lia. Qed.
Lemma count_omap {A B} (f : A → option B) (p : A → bool) l : (∀ x, x ∈ l → is_Some (f x) ↔ p x = true) → length (omap f l) = count_if p l.
Proof.
  induction l as [|x l IH]; intros H; [done|]. rewrite count_cons, <-IH by (intros y Hy; apply H; by right).
  specialize (H x ltac:(by left)). cbn. destruct (f x) eqn:Hf, (p x) eqn:Hp; cbn; try done; exfalso; naive_solver.
Qed.
Lemma sum_add {A} (f g : A → nat) l : (sum_list_with f l + sum_list_with g l)%nat = sum_list_with (λ x, f x + g x)%nat l.
Proof. induction l as [|x l IH]; [done|]. cbn [sum_list_with]. rewrite <-IH. lia. Qed.
Lemma sum_ext {A} (f g : A → nat) l : (∀ x, x ∈ l → f x = g x) → sum_list_with f l = sum_list_with g l.
Proof.
  intros H. induction l as [|x l IH]; [done|]. cbn [sum_list_with].
  rewrite IH by (intros y Hy; apply H; by right). by rewrite H by (by left).
Qed.
Lemma sum_zero {A} (f : A → nat) l : sum_list_with f l = 0%nat ↔ ∀ x, x ∈ l → f x = 0%nat.
Proof.
  induction l as [|x l IH]; [split; [intros _ y Hy; by apply elem_of_nil in Hy|done]|]. cbn [sum_list_with].
  rewrite Nat.eq_add_0, IH. split.
  - intros [H1 H2] y Hy. by apply elem_of_cons in Hy as [->|Hy]; [|apply H2].
  - intros H. split; [apply H; by left|]. intros y Hy. apply H. by right.
Qed.

(** ** Rules and results *)

(** A rule with its direction and a limit that is a number. *)
Definition rule_ok (rules : gmap string FitnessRule) (name op : string) : Prop :=
  ∃ rule, rules !! name = Some rule ∧ rule_Operator rule = op ∧ f64_nan (rule_Threshold rule) = false ∧
    (op = "lte" → f64_le f64_zero (rule_Threshold rule) = true).
(** The rules of the functions that the recommendation covers. *)
Definition rules_ok (rules : gmap string FitnessRule) : Prop :=
  rule_ok rules "cyclomatic-complexity" "lte" ∧ rule_ok rules "interface-width" "lte" ∧
  rule_ok rules "implementation-depth" "gte" ∧ rule_ok rules "logic-density" "gte" ∧
  rule_ok rules "dependency-discipline" "gte" ∧ rule_ok rules "temporal-purity" "lte" ∧
  rule_ok rules "sql-composition-safety" "lte".
(** What analyzers report: counts, and ratios that are numbers. *)
Definition countable (n : Z) : Prop := (0 ≤ n < 2 ^ 53)%Z.
Definition measured (r : AnalysisResult) : Prop :=
  let module := ar_ModuleMetric (EnsureModuleMetric r) in
  Forall (λ f, countable (fn_CyclomaticComplexity f)) (ar_Functions r) ∧
  Forall (λ i, countable (if_PublicMethods i)) (ar_Interfaces r) ∧
  countable (mod_PublicMethods module) ∧ countable (file_TotalLOC (ar_FileMetric r)) ∧ countable (imp_Total (ar_Imports r)) ∧
  f64_nan (mod_AverageLOCPerPublicMethod module) = false ∧ f64_nan (file_LDR (ar_FileMetric r)) = false ∧
  f64_nan (imp_DDC (ar_Imports r)) = false.

Lemma int_not_nan n : countable n → f64_nan (f64_of_int n) = false.
Proof.
  intros [H0 H1]. destruct n as [|p|p]; [done| |lia]. rewrite f64_of_int_pos; [done|].
  pose proof (digits2_bounds p). destruct (Z.le_gt_cases (Zpos (digits2_pos p)) 53) as [|Hgt]; [done|].
  pose proof (Z.pow_le_mono_r 2 53 (Zpos (digits2_pos p) - 1)). lia.
Qed.
Lemma Ensure_again r : EnsureModuleMetric (EnsureModuleMetric r) = EnsureModuleMetric r.
Proof.
  unfold EnsureModuleMetric at 2 3. destruct (_ && _) eqn:H; [|by unfold EnsureModuleMetric; rewrite H].
  unfold EnsureModuleMetric. cbn [ar_ModuleMetric set_ModuleMetric BuildModuleMetric mod_PublicMethods mod_TotalLOC mod_PrivateLOC mod_AverageLOCPerPublicMethod].
  unfold averageLOCPerPublicMethod. destruct (file_PublicMethods (ar_FileMetric r) =? 0)%Z; [|done].
  by rewrite andb_comm.
Qed.
Lemma width_again r : InterfaceWidth (EnsureModuleMetric r) = InterfaceWidth r.
Proof.
  unfold InterfaceWidth. rewrite Ensure_again. assert (ar_Interfaces (EnsureModuleMetric r) = ar_Interfaces r) as ->; [|done].
  unfold EnsureModuleMetric. by destruct (_ && _).
Qed.

(** ** What is counted is what the check reports *)

Section counts.
Context {R : RegexpEngine} {U : UnicodeTables} (p : Pattern).
Context (Hrules : rules_ok (pat_FitnessFunctions p)).
Abbreviation limit name := (rule_Threshold (rule_of (pat_FitnessFunctions p) name)).

Lemma cyclomatic_count r : measured r →
  count_if (λ f, f64_lt (limit "cyclomatic-complexity") (f64_of_int (fn_CyclomaticComplexity f))) (ar_Functions r)
  = length (cyclomaticComplexityViolations r p).
Proof using Hrules.
  intros (Hf & _). destruct Hrules as [(rule & Hr & Hop & Hn & _) _]. unfold rule_of, cyclomaticComplexityViolations. rewrite Hr, Hop.
  cbn [default from_option id String.eqb negb]. symmetry. apply count_omap. intros f Hin. rewrite Forall_forall in Hf.
  rewrite f64_lt_le; [|exact (int_not_nan _ (Hf f Hin))|exact Hn]. cbn [negb]. destruct (f64_le _ _); cbn; (split; [|done]); [by intros []|done].
Qed.

Lemma width_max (l : list InterfaceMetric) w0 : Forall (λ i, countable (if_PublicMethods i)) l → countable w0 →
  let w := foldl (λ width metric, if width <? if_PublicMethods metric then if_PublicMethods metric else width)%Z w0 l in
  countable w ∧ (w0 ≤ w)%Z ∧ (∀ i, i ∈ l → if_PublicMethods i ≤ w)%Z ∧ (w = w0 ∨ ∃ i, i ∈ l ∧ w = if_PublicMethods i).
Proof using.
  clear. revert w0. induction l as [|i l IH]; intros w0 Hl H0; cbn [foldl].
  { split_and!; [done|lia|intros i Hi; by apply elem_of_nil in Hi|by left]. }
  apply Forall_cons in Hl as [Hi Hl]. destruct (Z.ltb_spec w0 (if_PublicMethods i)) as [Hlt|Hge].
  - destruct (IH _ Hl Hi) as (H1 & H2 & H3 & H4). split_and!; [done|lia| |].
    + intros j Hj. apply elem_of_cons in Hj as [->|Hj]; [done|by apply H3].
    + right. destruct H4 as [->|(j & Hj & ->)]; [exists i; split; [by left|done]|exists j; split; [by right|done]].
  - destruct (IH _ Hl H0) as (H1 & H2 & H3 & H4). split_and!; [done|lia| |].
    + intros j Hj. apply elem_of_cons in Hj as [->|Hj]; [lia|by apply H3].
    + destruct H4 as [->|(j & Hj & ->)]; [by left|right; exists j; split; [by right|done]].
Qed.

Lemma interface_count r : measured r →
  f64_lt (limit "interface-width") (f64_of_int (InterfaceWidth r)) = negb (bool_decide (interfaceWidthViolations r p = [])).
Proof using Hrules.
  intros (_ & Hi & Hp & _). destruct Hrules as (_ & (rule & Hr & Hop & Hn & H0) & _). specialize (H0 eq_refl).
  unfold rule_of, interfaceWidthViolations, InterfaceWidth. rewrite Hr, Hop. cbn [default from_option id]. change (String.eqb "lte" "lte") with true. cbn [negb].
  destruct (ar_Interfaces r) as [|i l] eqn:Hl.
  { clear H0. rewrite f64_lt_le; [|by apply int_not_nan|done]. destruct (f64_le _ _); [by rewrite bool_decide_true|by rewrite bool_decide_false]. }
  destruct (width_max (i :: l) 0 Hi ltac:(done)) as (Hw & Hw0 & Hle & Hmax). revert Hw Hw0 Hle Hmax. set (w := foldl _ _ _). intros Hw Hw0 Hle Hmax.
  rewrite f64_lt_le; [|by apply int_not_nan|done]. f_equal.
  assert (omap (interface_record_violation r rule) (i :: l) = [] ↔ ∀ x, x ∈ i :: l → f64_le (f64_of_int (if_PublicMethods x)) (rule_Threshold rule) = true) as Hall.
  { clear. generalize (i :: l) as ls. induction ls as [|x ls IH].
    { split; [intros _ x Hx; by apply elem_of_nil in Hx|done]. }
    cbn. unfold interface_record_violation at 1. destruct (f64_le (f64_of_int (if_PublicMethods x)) _) eqn:Hx.
    - rewrite IH. split; [intros H y Hy; by apply elem_of_cons in Hy as [->|Hy]; [|apply H]|intros H y Hy; apply H; by right].
    - split; [by destruct (String.eqb _ _)|]. intros H. rewrite (H x ltac:(by left)) in Hx. done. }
  apply eq_true_iff_eq. rewrite bool_decide_eq_true, Hall. split.
  - intros H x Hx. eapply (f64_le_int _ w); [|apply Hw|exact H]. rewrite Forall_forall in Hi. specialize (Hi x Hx). specialize (Hle x Hx). unfold countable in Hi. lia.
  - intros H. destruct Hmax as [->|(x & Hx & ->)]; [exact H0|by apply H].
Qed.

(** The three ratios: a file has at most one violation. *)
Lemma below_lte (threshold : float64) sample : f64_nan threshold = false → from_option f64_nan false sample = false →
  below threshold sample = match sample with Some v => negb (f64_ge v threshold) | None => false end.
Proof using. clear. intros Ht Hs. destruct sample as [v|]; [|done]. cbn in *. by apply f64_lt_le. Qed.
Lemma depth_count r : measured r → indicator (below (limit "implementation-depth") (depth_sample r)) = length (implementationDepthViolations r p).
Proof using Hrules.
  intros (_ & _ & Hp & _ & _ & Ha & _). destruct Hrules as (_ & _ & (rule & Hr & Hop & Hn & _) & _).
  unfold rule_of, implementationDepthViolations. rewrite Hr, Hop. cbn [default from_option id]. change (String.eqb "gte" "gte") with true. cbn [negb orb].
  unfold depth_sample. rewrite below_lte; [|done|by destruct (0 <? _)%Z]. unfold countable in Hp.
  destruct (Z.ltb_spec 0 (mod_PublicMethods (ar_ModuleMetric (EnsureModuleMetric r)))), (Z.eqb_spec (mod_PublicMethods (ar_ModuleMetric (EnsureModuleMetric r))) 0);
    cbn [orb]; try done; try lia. by destruct (f64_ge _ _).
Qed.
Lemma density_count r : measured r → indicator (below (limit "logic-density") (density_sample r)) = length (logicDensityViolations r p).
Proof using Hrules.
  intros (_ & _ & _ & Hp & _ & _ & Ha & _). destruct Hrules as (_ & _ & _ & (rule & Hr & Hop & Hn & _) & _).
  unfold rule_of, logicDensityViolations. rewrite Hr, Hop. cbn [default from_option id]. change (String.eqb "gte" "gte") with true. cbn [negb orb].
  unfold density_sample. rewrite below_lte; [|done|by destruct (_ && _)]. unfold countable in Hp.
  destruct (Z.ltb_spec 0 (file_TotalLOC (ar_FileMetric r))), (Z.eqb_spec (file_TotalLOC (ar_FileMetric r)) 0); cbn [andb orb]; try done; try lia.
  destruct (LogicDensityApplicable r); cbn [negb orb]; [|done]. by destruct (f64_ge _ _).
Qed.
Lemma discipline_count r : measured r →
  indicator (below (limit "dependency-discipline") (discipline_sample r)) = length (dependencyDisciplineViolations r p).
Proof using Hrules.
  intros (_ & _ & _ & _ & Hp & _ & _ & Ha). destruct Hrules as (_ & _ & _ & _ & (rule & Hr & Hop & Hn & _) & _).
  unfold rule_of, dependencyDisciplineViolations. rewrite Hr, Hop. cbn [default from_option id]. change (String.eqb "gte" "gte") with true. cbn [negb orb].
  unfold discipline_sample. rewrite below_lte; [|done|by destruct (0 <? _)%Z]. unfold countable in Hp.
  destruct (Z.ltb_spec 0 (imp_Total (ar_Imports r))), (Z.eqb_spec (imp_Total (ar_Imports r)) 0); cbn [orb]; try done; try lia. by destruct (f64_ge _ _).
Qed.
Lemma findings_count r rule : count_if (λ finding, String.eqb (find_Rule finding) rule) (ar_Findings r) = length (findingsForRule (ar_Findings r) rule).
Proof using.
  clear. unfold findingsForRule, count_if. f_equal. induction (ar_Findings r) as [|f l IH]; [done|]. rewrite !filter_cons, IH.
  destruct (String.eqb_spec (find_Rule f) rule); [rewrite !decide_True by done|rewrite !decide_False by done]; done.
Qed.

(** What the recommendation is to count of a file: each function that is too complex,
    whether an interface is too wide (the file, once, however many are), each ratio
    that is too low, and each finding. *)
Definition reported_count (r : AnalysisResult) : nat :=
  length (cyclomaticComplexityViolations r p) + indicator (negb (bool_decide (interfaceWidthViolations r p = [])))
  + length (implementationDepthViolations r p) + length (logicDensityViolations r p) + length (dependencyDisciplineViolations r p)
  + length (findingsForRule (ar_Findings r) "temporal-purity") + length (findingsForRule (ar_Findings r) "sql-composition-safety").

(** The violations and findings that the scorers of the check report of a file, one for
    each interface that is too wide. *)
Definition scored_count (r : AnalysisResult) : nat :=
  length (fitnessViolations r p)
  + length (findingsForRule (ar_Findings r) "temporal-purity") + length (findingsForRule (ar_Findings r) "sql-composition-safety").
Lemma reported_scored r : (reported_count r ≤ scored_count r)%nat ∧
  ((length (interfaceWidthViolations r p) ≤ 1)%nat → reported_count r = scored_count r).
Proof using.
  clear. unfold reported_count, scored_count, fitnessViolations. rewrite !length_app.
  destruct (interfaceWidthViolations r p) as [|x [|y l]]; [rewrite bool_decide_true by done|rewrite bool_decide_false by done..];
    cbn [indicator negb length]; lia.
Qed.
Lemma sum_reported results : (sum_list_with reported_count results ≤ sum_list_with scored_count results)%nat ∧
  (Forall (λ r, length (interfaceWidthViolations r p) ≤ 1)%nat results → sum_list_with reported_count results = sum_list_with scored_count results).
Proof using.
  clear. induction results as [|r results [IH1 IH2]]; [done|]. destruct (reported_scored r) as [H1 H2]. cbn [sum_list_with]. split; [lia|].
  intros [Hr Hl]%Forall_cons. rewrite IH2, H2 by done. done.
Qed.

Lemma total_rows (l : list ThresholdDelta) n : foldl (λ acc d, (acc + td_ViolatingCount d)%nat) n l = (n + sum_list_with td_ViolatingCount l)%nat.
Proof using. clear. revert n. induction l as [|d l IH]; intros n; cbn [foldl sum_list_with]; [lia|]. rewrite IH. lia. Qed.
Lemma density_rows results : sum_list_with td_ViolatingCount (if hasLogicDensitySamples results
    then [densityDelta results (SummarizeResults results) (pat_FitnessFunctions p)] else [])
  = countDensityViolations results (limit "logic-density").
Proof using.
  clear Hrules. destruct (hasLogicDensitySamples results) eqn:H; [cbn; lia|]. cbn. unfold countDensityViolations. rewrite count_sum. symmetry.
  apply sum_zero. intros r Hr. destruct (density_sample r) eqn:Hd; [|done]. exfalso. unfold hasLogicDensitySamples in H.
  apply not_true_iff_false in H. apply H, existsb_exists. exists r. split; [by apply list_elem_of_In|]. rewrite Hd. by apply bool_decide_true.
Qed.
Lemma findings_rows results : sum_list_with td_ViolatingCount (findingsDeltas results (pat_FitnessFunctions p))
  = (countFindings results "temporal-purity" + countFindings results "sql-composition-safety")%nat.
Proof using Hrules.
  destruct Hrules as (_ & _ & _ & _ & _ & (r1 & H1 & _) & (r2 & H2 & _)). unfold findingsDeltas. cbn [omap list_omap]. rewrite H1, H2. cbn. lia.
Qed.
Lemma recommendation_total repository results : Forall measured results →
  or_TotalViolations (BuildOnboardingRecommendation repository results (pat_FitnessFunctions p)) = sum_list_with reported_count results.
Proof using Hrules.
  intros Hm. rewrite Forall_forall in Hm. cbn [BuildOnboardingRecommendation or_TotalViolations]. rewrite total_rows. unfold thresholdDeltas.
  rewrite !sum_list_with_app, density_rows, findings_rows. cbn [sum_list_with td_ViolatingCount cyclomaticDelta interfaceDelta depthDelta disciplineDelta newDelta].
  unfold countCyclomaticViolations, countInterfaceViolations, countDepthViolations, countDensityViolations, countDisciplineViolations, countFindings.
  rewrite !count_bind, !count_sum. unfold reported_count.
  rewrite <-!sum_add. rewrite (sum_ext _ _ results (λ r H, cyclomatic_count r (Hm r H))).
  rewrite (sum_ext (λ r, indicator (f64_lt _ _)) _ results (λ r H, f_equal indicator (interface_count r (Hm r H)))).
  rewrite (sum_ext _ _ results (λ r H, depth_count r (Hm r H))), (sum_ext _ _ results (λ r H, density_count r (Hm r H))),
    (sum_ext _ _ results (λ r H, discipline_count r (Hm r H))).
  rewrite (sum_ext _ _ results (λ r _, findings_count r "temporal-purity")), (sum_ext _ _ results (λ r _, findings_count r "sql-composition-safety")).
  lia.
Qed.
End counts.

(** ** The emitted configuration *)

Section emitted.
Context {R : RegexpEngine} {MO : GoMapOrder} {OL : GoMapOrderLaws MO} {U : UnicodeTables} {J : JsonErrorText} {N : JsonNumberText}.

Lemma emitted_accepted mode : mode ∈ ["advisory"; "block"] →
  ∃ c, Parse (emitted_text mode) = Ok c ∧ cfg_EnforcementMode c = mode ∧
    ∀ name, Enabled c name = default false (defaultFitnessFunctions !! name).
Proof using OL.
  intros Hmode. set (five := em_FitnessFunctions (emitted mode)).
  assert (five ∪ defaultFitnessFunctions = defaultFitnessFunctions) as Hunion by (apply (bool_decide_unpack _); vm_compute; done).
  assert (∀ k, is_Some (five !! k) → is_Some (defaultFitnessFunctions !! k)) as Hfive.
  { intros k Hk. rewrite <-Hunion. apply lookup_union_is_Some. by left. }
  unfold emitted_text. assert (json_EmittedConfig (emitted mode) = json_scaffold (mkScaffold mode "block" (Some five) None None)) as -> by reflexivity.
  eexists. split; [rewrite Parse_scaffold by done; rewrite Hunion; apply (validate_config mode "block" _ _ None None); done|].
  split; [done|]. intros name. unfold Enabled. cbn [cfg_FitnessFunctions default from_option id]. done.
Qed.
End emitted.

(** ** Percentiles *)

Lemma percentileIndex_range n q : (0 < n)%Z → (0 ≤ percentileIndex n q < n)%Z.
Proof. intros Hn. unfold percentileIndex. destruct (Z.ltb_spec (f64_to_int (f64_mul q (f64_of_int (n - 1)))) 0); [lia|]. destruct (Z.leb_spec n (f64_to_int (f64_mul q (f64_of_int (n - 1))))); lia. Qed.
Lemma at_percentile_elem {A} (zero : A) values q : values ≠ [] → at_percentile zero values q ∈ values.
Proof.
  intros Hv. apply list_elem_of_In, nth_In. assert (0 < Z.of_nat (length values))%Z as Hl by (destruct values; [done|cbn; lia]).
  pose proof (percentileIndex_range _ q Hl). lia.
Qed.
Lemma sorted_nonempty {A} (leb : A → A → bool) l : l ≠ [] → stable_sort id leb l ≠ [].
Proof. intros Hl H. pose proof (stable_sort_perm id leb l) as Hp. rewrite H in Hp. by apply Permutation_nil_l in Hp. Qed.
Lemma at_percentile_sorted {A} (zero : A) leb values q : values ≠ [] → at_percentile zero (stable_sort id leb values) q ∈ values.
Proof.
  intros Hv. pose proof (at_percentile_elem zero (stable_sort id leb values) q (sorted_nonempty leb values Hv)) as H. revert H.
  generalize (at_percentile zero (stable_sort id leb values) q) as x. intros x H. by rewrite stable_sort_perm in H.
Qed.
(** A percentile of a sorted sample is one of the sample, and zero of none. *)
Lemma percentileInt_elem l q : let values := sort_Ints l in
  (l = [] ∧ percentileInt values q = 0%Z) ∨ percentileInt values q ∈ l.
Proof.
  intros values. destruct (decide (l = [])) as [->|Hl]; [by left|right].
  assert (percentileInt values q ∈ values) as H.
  { unfold percentileInt. destruct values as [|v l'] eqn:Hv; [by destruct (sorted_nonempty Z.leb l Hl)|].
    apply at_percentile_sorted. done. }
  revert H. generalize (percentileInt values q) as x. intros x H. unfold values, sort_Ints in H. by rewrite stable_sort_perm in H.
Qed.
Lemma percentileFloat_elem l q : let values := sort_Float64s l in
  (l = [] ∧ percentileFloat values q = f64_zero) ∨ percentileFloat values q ∈ l.
Proof.
  intros values. destruct (decide (l = [])) as [->|Hl]; [by left|right].
  assert (percentileFloat values q ∈ values) as H.
  { unfold percentileFloat. destruct values as [|v l'] eqn:Hv; [by destruct (sorted_nonempty (λ x y, negb (f64_less y x)) l Hl)|].
    apply at_percentile_sorted. done. }
  revert H. generalize (percentileFloat values q) as x. intros x H. unfold values, sort_Float64s in H. by rewrite stable_sort_perm in H.
Qed.

(** ** The shipped rules *)

Section shipped.
Context {R : RegexpEngine} {MO : GoMapOrder} {OL : GoMapOrderLaws MO} {U : UnicodeTables} {J : JsonErrorText} {N : JsonNumberText}.
Context (p : Pattern) (Hp : LoadPatternFromBytes "patterns/governance.json" GovernanceJSON = Ok p).

Lemma shipped_rule name op : (match (list_to_map default_rules : gmap string (string * float64)) !! name with
    | Some (op', t) => String.eqb op' op && negb (f64_nan t) && (negb (String.eqb op "lte") || f64_le f64_zero t)
    | None => false
    end) = true → rule_ok (pat_FitnessFunctions p) name op.
Proof using Hp.
  destruct (governance_rules "patterns/governance.json") as (p' & Hp' & Hr & _). rewrite Hp in Hp'. injection Hp' as <-.
  pose proof (f_equal (λ m : gmap string (string * float64), m !! name) Hr) as Hl. cbn beta in Hl. rewrite lookup_fmap in Hl.
  rewrite <-Hl. destruct (pat_FitnessFunctions p !! name) as [rule|] eqn:Hrule; [|done]. cbn [fmap option_fmap option_map operator_and_limit].
  unfold operator_and_limit. rewrite !andb_true_iff. intros [[Hop%String.eqb_eq Hn%negb_true_iff] Hz].
  exists rule. split_and!; [done..|]. intros ->. exact Hz.
Qed.
Lemma shipped_rules : rules_ok (pat_FitnessFunctions p).
Proof using Hp. unfold rules_ok. split_and!; apply shipped_rule; vm_compute; reflexivity. Qed.


(** *** Rows *)

Lemma looser_lte name label unit_ value count rule : rule_Operator rule = "lte" →
  td_NeedsLooser (newDelta name label unit_ value count rule) = f64_lt (rule_Threshold rule) value.
Proof using. clear. unfold newDelta. by intros ->. Qed.
Lemma looser_gte name label unit_ value count rule : rule_Operator rule = "gte" →
  td_NeedsLooser (newDelta name label unit_ value count rule) = f64_lt value (rule_Threshold rule).
Proof using. clear. unfold newDelta. by intros ->. Qed.
Lemma zero_respects name rule : rule_ok (pat_FitnessFunctions p) name "lte" → pat_FitnessFunctions p !! name = Some rule →
  f64_lt (rule_Threshold rule) (f64_of_int 0) = false.
Proof using.
  clear. intros (rule' & Hr & _ & Hn & Hz) Hrule. rewrite Hrule in Hr. injection Hr as <-. change (f64_of_int 0) with f64_zero.
  rewrite f64_lt_le by done. by rewrite Hz.
Qed.
Lemma floats_looser results sample (threshold : float64) : omap sample results ≠ [] →
  f64_lt (percentileFloat (sort_Float64s (omap sample results)) p10) threshold = true →
  (0 < count_if (λ r : AnalysisResult, below threshold (sample r)) results)%nat.
Proof using.
  clear. intros Hne Hlt. destruct (percentileFloat_elem (omap sample results) p10) as [[? _]|Hin]; [done|]. 
  apply list_elem_of_omap in Hin as (r & Hr & Hs). apply (count_positive _ r); [done|]. by rewrite Hs.
Qed.

(** A row that asks for a looser limit: its function is violated, or nothing was
    measured for it. *)
Definition explained (results : list AnalysisResult) (d : ThresholdDelta) : Prop :=
  (0 < td_ViolatingCount d)%nat ∨
  (td_FitnessFunction d = "implementation-depth" ∧ omap depth_sample results = []) ∨
  (td_FitnessFunction d = "dependency-discipline" ∧ omap discipline_sample results = []).

Lemma cyclomatic_explained results : let d := cyclomaticDelta results (SummarizeResults results) (pat_FitnessFunctions p) in
  td_NeedsLooser d = true → explained results d.
Proof using Hp.
  destruct shipped_rules as [Hok _]. pose proof Hok as (rule & Hr & Hop & _). clear Hp. intros d. subst d. unfold cyclomaticDelta, rule_of. rewrite Hr. cbn [default from_option id].
  rewrite looser_lte by done. intros Hlt. left. cbn [td_ViolatingCount newDelta bs_P90CyclomaticComplexity SummarizeResults summarize bd_CyclomaticComplexity distributions] in *.
  destruct (percentileInt_elem (results ≫= λ result, fn_CyclomaticComplexity <$> ar_Functions result) p90) as [[_ Hz]|Hin].
  - rewrite Hz in Hlt. by rewrite (zero_respects _ _ Hok Hr) in Hlt.
  - apply list_elem_of_bind in Hin as (r & Hin & Hres). apply list_elem_of_fmap in Hin as (f & Heq & Hf). rewrite Heq in Hlt.
    apply (count_positive _ f); [apply list_elem_of_bind; by exists r|done].
Qed.
Lemma interface_explained results : let d := interfaceDelta results (SummarizeResults results) (pat_FitnessFunctions p) in
  td_NeedsLooser d = true → explained results d.
Proof using Hp.
  destruct shipped_rules as (_ & Hok & _). pose proof Hok as (rule & Hr & Hop & _). clear Hp. intros d. subst d. unfold interfaceDelta, rule_of. rewrite Hr. cbn [default from_option id].
  rewrite looser_lte by done. intros Hlt. left. cbn [td_ViolatingCount newDelta bs_P90PublicMethods SummarizeResults summarize bd_PublicMethods distributions] in *.
  destruct (percentileInt_elem (InterfaceWidth <$> (EnsureModuleMetric <$> results)) p90) as [[_ Hz]|Hin].
  - rewrite Hz in Hlt. by rewrite (zero_respects _ _ Hok Hr) in Hlt.
  - apply list_elem_of_fmap in Hin as (r' & Heq & Hin). apply list_elem_of_fmap in Hin as (r & -> & Hres). rewrite Heq, width_again in Hlt.
    by apply (count_positive _ r).
Qed.
Lemma findings_explained results name d : rule_ok (pat_FitnessFunctions p) name "lte" →
  findingsDelta results name <$> pat_FitnessFunctions p !! name = Some d → td_NeedsLooser d = true → explained results d.
Proof using.
  clear. intros Hok. pose proof Hok as (rule & Hr & Hop & _). rewrite Hr. intros [= <-]. unfold findingsDelta. rewrite looser_lte by done.
  intros Hlt. left. cbn [td_ViolatingCount newDelta]. destruct (countFindings results name); [|lia].
  change (Z.of_nat 0) with 0%Z in Hlt. by rewrite (zero_respects _ _ Hok Hr) in Hlt.
Qed.

(** A row of the recommendation that says that a looser limit is needed is explained:
    its count is not zero, or it is the row of implementation depth or of dependency
    discipline and no file was measured for it, in which case the percentile reads as
    zero. *)
Theorem looser_explained (repository : string) (results : list AnalysisResult) (d : ThresholdDelta)
    (Hd : d ∈ or_Deltas (BuildOnboardingRecommendation repository results (pat_FitnessFunctions p)))
    (Hl : td_NeedsLooser d = true) : explained results d.
Proof using Hp.
  pose proof (cyclomatic_explained results) as Hc. pose proof (interface_explained results) as Hi.
  pose proof shipped_rules as (_ & _ & (r3 & Hr3 & Ho3 & _) & (r4 & Hr4 & Ho4 & _) & (r5 & Hr5 & Ho5 & _) & H6 & H7). clear Hp.
  cbn [BuildOnboardingRecommendation or_Deltas] in Hd. unfold thresholdDeltas in Hd. rewrite !elem_of_app, !elem_of_cons, !elem_of_nil in Hd.
  destruct Hd as [[->|[->|[->|[]]]]|[Hd|[[->|[]]|Hd]]].
  - by apply Hc.
  - by apply Hi.
  - revert Hl. unfold depthDelta, rule_of. rewrite Hr3. cbn [default from_option id]. rewrite looser_gte by done. intros Hl.
    destruct (decide (omap depth_sample results = [])) as [He|Hne]; [right; by left|left; by apply floats_looser].
  - destruct (hasLogicDensitySamples results) eqn:Hs; [|by apply elem_of_nil in Hd]. apply list_elem_of_singleton in Hd as ->.
    revert Hl. unfold densityDelta, rule_of. rewrite Hr4. cbn [default from_option id]. rewrite looser_gte by done. intros Hl. left.
    apply floats_looser; [|done]. unfold hasLogicDensitySamples in Hs. apply existsb_exists in Hs as (r & Hr%list_elem_of_In & [v Hv]%bool_decide_eq_true).
    intros He. assert (v ∈ omap density_sample results) as Hin by (apply list_elem_of_omap; by exists r). rewrite He in Hin. by apply elem_of_nil in Hin.
  - revert Hl. unfold disciplineDelta, rule_of. rewrite Hr5. cbn [default from_option id]. rewrite looser_gte by done. intros Hl.
    destruct (decide (omap discipline_sample results = [])) as [He|Hne]; [right; by right|left; by apply floats_looser].
  - unfold findingsDeltas in Hd. apply list_elem_of_omap in Hd as (name & Hname & Hd). apply elem_of_cons in Hname as [->|Hname].
    + by apply (findings_explained results "temporal-purity").
    + apply list_elem_of_singleton in Hname as ->. by apply (findings_explained results "sql-composition-safety").
Qed.
End shipped.

(** ** Examples *)

Module BaselineExamples.
#[local] Existing Instances literal_regexp canonical_map_order canonical_map_order_laws basic_unicode.
#[local] Instance plain_errors : JsonErrorText := id.
#[local] Instance plain_numbers : JsonNumberText := id.

(** A Go file with two functions and no imports, one of them too complex. *)
Definition cart (complexity : Z) : AnalysisResult :=
  mkAnalysis "shop" "go" "cart.go" "" [mkFunction "Total" complexity true 10; mkFunction "add" 2 false 4] (mkModule 0 0 0 f64_zero)
    (mkFile 20 12 1 (f64_of_decimal 6 1)) (mkImport 0 0 [] f64_one) [] ∅ [].
Lemma countable_small n : (0 <=? n)%Z && (n <? 2 ^ 53)%Z = true → countable n.
Proof. rewrite andb_true_iff, Z.leb_le, Z.ltb_lt. done. Qed.
Lemma cart_measured n : countable n → measured (cart n).
Proof.
  intros Hn. unfold measured. split; [|split; [constructor|]].
  - constructor; [exact Hn|]. constructor; [apply countable_small; reflexivity|constructor].
  - split; [apply countable_small; vm_compute; reflexivity|]. split; [apply countable_small; vm_compute; reflexivity|].
    split; [apply countable_small; vm_compute; reflexivity|]. split_and!; vm_compute; reflexivity.
Qed.


Lemma looser_explained_witness : ∃ d,
  d ∈ or_Deltas (BuildOnboardingRecommendation "shop" [cart 12] (pat_FitnessFunctions governance_pattern)) ∧ explained [cart 12] d.
Proof.
  set (d := cyclomaticDelta [cart 12; cart 12] (SummarizeResults [cart 12]) (pat_FitnessFunctions governance_pattern)).
  set (d' := nth 4 (or_Deltas (BuildOnboardingRecommendation "shop" [cart 12] (pat_FitnessFunctions governance_pattern))) d).
  assert (d' ∈ or_Deltas (BuildOnboardingRecommendation "shop" [cart 12] (pat_FitnessFunctions governance_pattern))) as Hd.
  { apply list_elem_of_In, nth_In. apply Nat.ltb_lt. vm_compute. reflexivity. }
  exists d'. split; [exact Hd|]. apply (looser_explained governance_pattern (governance_loads _) "shop" [cart 12] d' Hd). vm_compute. reflexivity.
Defined.

(** Without imports the row of dependency discipline asks for a looser limit although
    nothing violates it. *)
Lemma unmeasured_needs_looser :
  (λ d, (td_FitnessFunction d, td_NeedsLooser d, td_ViolatingCount d)) <$>
    or_Deltas (BuildOnboardingRecommendation "shop" [cart 3] (pat_FitnessFunctions governance_pattern)) =
  [("cyclomatic-complexity", false, 0%nat); ("interface-width", false, 0%nat); ("implementation-depth", false, 0%nat);
   ("logic-density", false, 0%nat); ("dependency-discipline", true, 0%nat);
   ("temporal-purity", false, 0%nat); ("sql-composition-safety", false, 0%nat)].
Proof. vm_compute. reflexivity. Qed.
End BaselineExamples.
