(* ===== verification/Wizard.v ===== *)
(** * The onboarding wizard

    [internal/client/wizard.go] and [picker.go]: the questions that
    [client onboard] asks on a terminal, and what is made of the answers.

    The state is the input: the lines still to be read.  What the wizard prints is
    not modelled; nothing depends on it.  The facts it shows are gathered by the
    caller; of them only the governance in force matters to the answers. *)

From stdpp Require Import base gmap strings list fin_maps.
From Stdlib Require Import ZArith Lia Ascii.
From S2P Require Import Prelude GoStrings GoErrors GoFloat GoJson GoJsonPrint Fitness GovConfig RepoName ConfigStore Governance Scaffold.
Set Default Goal Selector "!".

(** ** Input *)

(** The input cut at its newlines: complete lines, and what follows the last
    newline. *)
Record stdin := mkStdin { in_lines : list string; in_last : string }.
Definition no_input : stdin := mkStdin [] "".

(** [strconv.Atoi]. *)
Definition Atoi (text : string) : option Z :=
  let '(negative, digits) :=
    match bytes text with
    | a :: rest => if Ascii.eqb a "-" then (true, rest) else if Ascii.eqb a "+" then (false, rest) else (false, a :: rest)
    | [] => (false, [])
    end in
  if empty_list digits || negb (forallb is_digit digits) then None
  else
    let value := if negative then (- digits_val digits)%Z else digits_val digits in
    if ((- 2 ^ 63 <=? value) && (value <? 2 ^ 63))%Z then Some value else None.

Definition wizardEnforcementAdvisory : string := "advisory".
Definition wizardEnforcementBlock : string := "block".
Definition wizardPromptAttempts : nat := 5.
Definition wizardLayerLimit : nat := 32.
(** [bufio.MaxScanTokenSize]. *)
Definition maxScanTokenSize : Z := 65536.

(** ** The picker *)

Record functionOption := mkOption {
  fo_name : string;
  fo_description : string;
  fo_threshold : float64;
  fo_operator : string;
  fo_unit : string;
  fo_enabled : bool;
  fo_requiresSettings : bool;
}.
Definition with_enabled (enabled : bool) (o : functionOption) : functionOption :=
  mkOption (fo_name o) (fo_description o) (fo_threshold o) (fo_operator o) (fo_unit o) enabled (fo_requiresSettings o).

Definition loadPickerOptions {J : JsonErrorText} : result goerror (list functionOption) :=
  match GlobalThresholds with
  | Err err => Err (ErrWrap "loading embedded governance pattern: " err "")
  | Ok rules =>
      Ok ((λ key, let rule := default zero_rule (rules !! key) in
             mkOption key (rule_Description rule) (rule_Threshold rule) (rule_Operator rule) (rule_Unit rule)
               (default false (defaultFitnessFunctions !! key)) (String.eqb key "layer-sovereignty"))
          <$> allFitnessFunctionKeys)
  end.

Definition anyPickerSelected (options : list functionOption) : bool := existsb fo_enabled options.
Definition setAllPickerOptions (options : list functionOption) (enabled : bool) : list functionOption :=
  with_enabled enabled <$> options.
Definition pickerSelections (options : list functionOption) : gmap string bool :=
  foldl (λ m o, <[fo_name o := fo_enabled o]> m) ∅ options.
Definition togglePickerDigit (options : list functionOption) (text : string) : list functionOption :=
  match Atoi text with
  | None => options
  | Some n =>
      if ((n <? 1) || (Z.of_nat (length options) <? n))%Z then options
      else alter (λ o, with_enabled (negb (fo_enabled o)) o) (Z.to_nat (n - 1)) options
  end.

(** [applyPickerLine]: the options after the line, and whether it confirms. *)
Definition applyPickerLine (options : list functionOption) (line : string) : list functionOption * bool :=
  let trimmed := trim_space line in
  if String.eqb trimmed "" then (options, anyPickerSelected options)
  else if String.eqb trimmed "a" then (setAllPickerOptions options true, false)
  else if String.eqb trimmed "n" then (setAllPickerOptions options false, false)
  else (togglePickerDigit options trimmed, false).

Definition ErrTooLong : goerror := ErrNew "bufio.Scanner: token too long".
Definition too_long (line : string) : bool := (maxScanTokenSize <=? Z.of_nat (String.length line))%Z.

Section wizard.
Context {R : RegexpEngine} {MO : GoMapOrder} {U : UnicodeTables} {J : JsonErrorText} {N : JsonNumberText}.
(** The error that ends the input instead of its end. *)
Context (read_error : option goerror).

(** [runFunctionPicker] with a scanner over the lines: after the complete lines
    comes the rest as a last line, unless it is empty. *)
Fixpoint pick_lines (lines : list string) (last : string) (options : list functionOption) :
  result goerror (gmap string bool) * stdin :=
  match lines with
  | line :: rest =>
      if too_long line then (Err ErrTooLong, no_input)
      else match applyPickerLine options line with
           | (options', true) => (Ok (pickerSelections options'), mkStdin rest last)
           | (options', false) => pick_lines rest last options'
           end
  | [] =>
      let ends options := match read_error with
                          | Some err => Err err
                          | None => Ok (pickerSelections options)
                          end in
      if too_long last then (Err ErrTooLong, no_input)
      else if String.eqb last "" then (ends options, no_input)
      else match applyPickerLine options last with
           | (options', true) => (Ok (pickerSelections options'), no_input)
           | (options', false) => (ends options', no_input)
           end
  end.
Definition runFunctionPicker (i : stdin) (options : list functionOption) : result goerror (gmap string bool) * stdin :=
  pick_lines (in_lines i) (in_last i) options.

(** ** Answers *)

(** [readWizardValue]: the end of the input is an empty answer. *)
Definition readWizardValue (i : stdin) : result goerror string * stdin :=
  match in_lines i with
  | line :: rest => (Ok (trim_space line), mkStdin rest (in_last i))
  | [] => (match read_error with
           | Some err => Err err
           | None => Ok (trim_space (in_last i))
           end, no_input)
  end.
Definition readWizardLine (i : stdin) : result goerror string * stdin :=
  let '(r, i') := readWizardValue i in (let? line := r in Ok (to_lower line), i').

Fixpoint prompt_enforcement (attempts : nat) (i : stdin) (defaultMode : string) : result goerror string * stdin :=
  match attempts with
  | O => (Ok defaultMode, i)
  | S attempts' =>
      match readWizardLine i with
      | (Err err, i') => (Err err, i')
      | (Ok line, i') =>
          if String.eqb line "" then (Ok defaultMode, i')
          else if bool_decide (line ∈ [wizardEnforcementAdvisory; wizardEnforcementBlock]) then (Ok line, i')
          else prompt_enforcement attempts' i' defaultMode
      end
  end.
Definition promptWizardEnforcement : stdin → string → result goerror string * stdin :=
  prompt_enforcement wizardPromptAttempts.

Definition confirmWizardChoices (i : stdin) : result goerror bool * stdin :=
  match readWizardLine i with
  | (Err err, i') => (Err err, i')
  | (Ok line, i') => (Ok (String.eqb line "y" || String.eqb line "yes"), i')
  end.

(** ** Facts and outcome *)

(** [wizardFacts]: the governance in force. *)
Record wizardFacts := mkFacts { wf_Current : option Config }.
Record wizardOutcome := mkOutcome {
  wo_Enforcement : string;
  wo_Functions : gmap string bool;
  wo_Confirmed : bool;
  wo_Layers : list LayerRule;
}.

(** [readRepoLocalGovernance], of the content of the file if it could be read. *)
Definition readRepoLocalGovernance (content : result goerror string) : option Config :=
  match content with
  | Err _ => None
  | Ok content => match Parse content with Ok parsed => Some parsed | Err _ => None end
  end.

Definition defaultWizardEnforcement (facts : wizardFacts) : string :=
  match wf_Current facts with
  | None => wizardEnforcementAdvisory
  | Some current =>
      if bool_decide (cfg_EnforcementMode current ∈ [wizardEnforcementAdvisory; wizardEnforcementBlock])
      then cfg_EnforcementMode current else wizardEnforcementAdvisory
  end.

Definition seedPickerOptions (options : list functionOption) (current : option Config) : list functionOption :=
  match current with
  | None => options
  | Some current =>
      (λ o, match default ∅ (cfg_FitnessFunctions current) !! fo_name o with
            | Some enabled => with_enabled enabled o
            | None => o
            end) <$> options
  end.
Definition promptWizardFunctions (i : stdin) (facts : wizardFacts) : result goerror (gmap string bool) * stdin :=
  match loadPickerOptions with
  | Err err => (Err err, i)
  | Ok options => runFunctionPicker i (seedPickerOptions options (wf_Current facts))
  end.

(** ** Layers *)

Fixpoint compilable (fields patterns : list string) : result goerror (list string) :=
  match fields with
  | [] => match patterns with
          | [] => Err (ErrNew "invalid entry: name at least one pattern")
          | _ => Ok patterns
          end
  | field :: fields' =>
      let pattern := trim_space field in
      if String.eqb pattern "" then compilable fields' patterns
      else match regexp_compile pattern with
           | Err err => Err (ErrWrap ("invalid pattern " +:+ quote pattern +:+ ": ") err "")
           | Ok _ => compilable fields' (patterns ++ [pattern])
           end
  end.
Definition compilablePatterns (line : string) : result goerror (list string) := compilable (split line comma) [].

Fixpoint prompt_patterns (attempts : nat) (i : stdin) : result goerror (list string) * stdin :=
  match attempts with
  | O => (Err (ErrNew ("no valid pattern entered after " +:+ itoa (Z.of_nat wizardPromptAttempts) +:+ " attempts")), i)
  | S attempts' =>
      match readWizardValue i with
      | (Err err, i') => (Err err, i')
      | (Ok line, i') =>
          match compilablePatterns line with
          | Ok patterns => (Ok patterns, i')
          | Err _ => prompt_patterns attempts' i'
          end
      end
  end.
Definition promptWizardPatterns : stdin → result goerror (list string) * stdin := prompt_patterns wizardPromptAttempts.

Definition promptWizardLayer (i : stdin) (name : string) : result goerror LayerRule * stdin :=
  match promptWizardPatterns i with
  | (Err err, i') => (Err err, i')
  | (Ok paths, i') =>
      match promptWizardPatterns i' with
      | (Err err, i'') => (Err err, i'')
      | (Ok forbidden, i'') => (Ok (mkLayer name paths forbidden [] []), i'')
      end
  end.

(** [readWizardLayers]; [room] is how many more layers the limit allows. *)
Fixpoint read_layers (room : nat) (i : stdin) (layers : list LayerRule) : result goerror (list LayerRule) * stdin :=
  match readWizardValue i with
  | (Err err, i') => (Err err, i')
  | (Ok name, i') =>
      if String.eqb name "" then (Ok layers, i')
      else match room with
      | O => (Err (ErrNew ("layer limit of " +:+ itoa (Z.of_nat wizardLayerLimit)
                +:+ " reached; define the remainder in fitness-function-settings directly")), i')
      | S room' =>
          match promptWizardLayer i' name with
          | (Err err, i'') => (Err err, i'')
          | (Ok layer, i'') => read_layers room' i'' (layers ++ [layer])
          end
      end
  end.
Definition readWizardLayers (i : stdin) : result goerror (list LayerRule) * stdin := read_layers wizardLayerLimit i [].

Definition validateWizardLayers (enforcement : string) (functions : gmap string bool) (layers : list LayerRule) :
  option goerror :=
  match renderGovernanceConfig enforcement (Some functions) layers no_extras with
  | Err err => Some err
  | Ok content => Validate content
  end.

Fixpoint prompt_layers (attempts : nat) (i : stdin) (enforcement : string) (functions : gmap string bool) :
  result goerror (list LayerRule) * stdin :=
  match attempts with
  | O => (Err (ErrNew ("layer-sovereignty was selected but no usable layer was defined after "
            +:+ itoa (Z.of_nat wizardPromptAttempts) +:+ " attempts")), i)
  | S attempts' =>
      match readWizardLayers i with
      | (Err err, i') => (Err err, i')
      | (Ok layers, i') =>
          match validateWizardLayers enforcement functions layers with
          | Some _ => prompt_layers attempts' i' enforcement functions
          | None => (Ok layers, i')
          end
      end
  end.
Definition promptWizardLayers : stdin → string → gmap string bool → result goerror (list LayerRule) * stdin :=
  prompt_layers wizardPromptAttempts.

Definition currentLayerRules (facts : wizardFacts) : list LayerRule :=
  match wf_Current facts with None => [] | Some current => LayerRules current end.

Definition selects (functions : gmap string bool) (name : string) : bool := default false (functions !! name).
Definition resolveWizardLayers (i : stdin) (facts : wizardFacts) (enforcement : string) (functions : gmap string bool) :
  result goerror (list LayerRule) * stdin :=
  if negb (selects functions "layer-sovereignty") then (Ok [], i)
  else match currentLayerRules facts with
       | [] => promptWizardLayers i enforcement functions
       | existing => (Ok existing, i)
       end.

(** ** The flow *)

Definition runOnboardWizard (i : stdin) (facts : wizardFacts) : result goerror wizardOutcome * stdin :=
  match promptWizardEnforcement i (defaultWizardEnforcement facts) with
  | (Err err, i) => (Err err, i)
  | (Ok enforcement, i) =>
      match promptWizardFunctions i facts with
      | (Err err, i) => (Err err, i)
      | (Ok functions, i) =>
          match resolveWizardLayers i facts enforcement functions with
          | (Err err, i) => (Err err, i)
          | (Ok layers, i) =>
              match confirmWizardChoices i with
              | (Err err, i) => (Err err, i)
              | (Ok confirmed, i) => (Ok (mkOutcome enforcement functions confirmed layers), i)
              end
          end
      end
  end.

(** *** What is made of the outcome *)

Definition enabledWord (enabled : bool) : string := if enabled then "enabled" else "disabled".
Definition functionChangeLines (current : Config) (functions : gmap string bool) : list string :=
  omap (λ key, let was := Enabled current key in
     let now := selects functions key in
     if Bool.eqb was now then None else Some (key +:+ ": " +:+ enabledWord was +:+ " -> " +:+ enabledWord now))
    allFitnessFunctionKeys.
Definition wizardOutcomeChanges (current : Config) (outcome : wizardOutcome) : list string :=
  (if String.eqb (cfg_EnforcementMode current) (wo_Enforcement outcome) then []
   else ["enforcement: " +:+ cfg_EnforcementMode current +:+ " -> " +:+ wo_Enforcement outcome])
  ++ functionChangeLines current (wo_Functions outcome).

Definition joinEnabledFunctions (functions : gmap string bool) : string :=
  match filter (λ key, selects functions key = true) allFitnessFunctionKeys with
  | [] => "none"
  | enabled => join enabled ", "
  end.
Definition describeWizardChoice (outcome : wizardOutcome) : string :=
  "enforcement=" +:+ wo_Enforcement outcome +:+ " with " +:+ joinEnabledFunctions (wo_Functions outcome).

Record onboardGovernance := mkGovernance {
  og_enforcement : string;
  og_functions : option (gmap string bool);
  og_layers : list LayerRule;
  og_update : bool;
}.
Definition wizardGovernance (facts : wizardFacts) (outcome : wizardOutcome) : onboardGovernance :=
  mkGovernance (wo_Enforcement outcome) (Some (wo_Functions outcome)) (wo_Layers outcome)
    (match wf_Current facts with
     | None => false
     | Some current => negb (empty_list (wizardOutcomeChanges current outcome))
     end).

Definition resolveWizardOutcome (i : stdin) (facts : wizardFacts) : result goerror onboardGovernance :=
  match (runOnboardWizard i facts).1 with
  | Err err => Err err
  | Ok outcome =>
      if negb (wo_Confirmed outcome)
      then Err (UsageError (ErrNew ("onboard declined at the confirmation step: " +:+ describeWizardChoice outcome
                  +:+ " was not applied and nothing was written")))
      else Ok (wizardGovernance facts outcome)
  end.
End wizard.
