(* ===== verification/WizardProofs.v ===== *)
(** * What the wizard confirms is what the daemon enforces

    Whatever is typed: the wizard always ends; a governance it hands on was
    confirmed, and the configuration written for it is accepted and means it. *)

From stdpp Require Import base gmap strings list fin_maps.
From Stdlib Require Import ZArith Lia Ascii.
From S2P Require Import Prelude GoStrings GoErrors GoFloat GoJson GoJsonPrint Fitness GovConfig RepoName ConfigStore Governance Scaffold ScaffoldProofs Wizard.
Set Default Goal Selector "!".

(** ** The picker keeps the catalog *)

Lemma with_enabled_name b o : fo_name (with_enabled b o) = fo_name o.
Proof. done. Qed.
Lemma alter_names f n (options : list functionOption) :
  (∀ o, fo_name (f o) = fo_name o) → fo_name <$> alter f n options = fo_name <$> options.
Proof.
  intros Hf. revert n. induction options as [|o options IH]; intros [|n]; [done|done|..]; cbn.
  - by rewrite Hf.
  - f_equal. apply IH.
Qed.
Lemma map_names f (options : list functionOption) :
  (∀ o, fo_name (f o) = fo_name o) → fo_name <$> (f <$> options) = fo_name <$> options.
Proof. intros Hf. induction options as [|o options IH]; [done|]. cbn. by rewrite Hf, IH. Qed.
Lemma applyPickerLine_names options line : fo_name <$> (applyPickerLine options line).1 = fo_name <$> options.
Proof.
  unfold applyPickerLine. destruct (String.eqb _ ""); [done|].
  destruct (String.eqb _ "a"); [by apply map_names|]. destruct (String.eqb _ "n"); [by apply map_names|]. cbn [fst].
  unfold togglePickerDigit. destruct (Atoi _); [|done]. destruct (_ || _)%Z; [done|]. by apply alter_names.
Qed.

Lemma pickerSelections_lookup options k : is_Some (pickerSelections options !! k) ↔ k ∈ fo_name <$> options.
Proof.
  unfold pickerSelections.
  assert (∀ m, is_Some (foldl (λ m o, <[fo_name o := fo_enabled o]> m) m options !! k) ↔
    is_Some ((m : gmap string bool) !! k) ∨ k ∈ fo_name <$> options) as H.
  { induction options as [|o options IH]; intros m; cbn [foldl fmap list_fmap]; [rewrite elem_of_nil; tauto|].
    rewrite IH, elem_of_cons. destruct (decide (k = fo_name o)) as [->|Hne].
    - rewrite lookup_insert_eq. split; [tauto|]. intros _. left. eauto.
    - rewrite lookup_insert_ne by done. tauto. }
  rewrite H, lookup_empty. split; [|tauto]. by intros [[]|?].
Qed.

Lemma options_names {J : JsonErrorText} options : loadPickerOptions = Ok options → fo_name <$> options = allFitnessFunctionKeys.
Proof. unfold loadPickerOptions. destruct GlobalThresholds; [|done]. intros [= <-]. reflexivity. Qed.

Section proofs.
Context {R : RegexpEngine} {MO : GoMapOrder} {OL : GoMapOrderLaws MO} {U : UnicodeTables} {J : JsonErrorText} {N : JsonNumberText}.
Context (read_error : option goerror).

Lemma pick_lines_names lines last : ∀ options sel i,
  pick_lines read_error lines last options = (Ok sel, i) →
  ∃ options', fo_name <$> options' = fo_name <$> options ∧ sel = pickerSelections options'.
Proof using.
  induction lines as [|line lines IH]; intros options sel i; cbn [pick_lines].
  - destruct (too_long last); [done|]. destruct (String.eqb last "").
    + destruct read_error; [done|]. intros [= <- <-]. eauto.
    + pose proof (applyPickerLine_names options last) as Hn. destruct (applyPickerLine options last) as [options' []]; cbn in Hn.
      * intros [= <- <-]. eauto.
      * destruct read_error; [done|]. intros [= <- <-]. eauto.
  - destruct (too_long line); [done|]. pose proof (applyPickerLine_names options line) as Hn.
    destruct (applyPickerLine options line) as [options' []]; cbn in Hn.
    + intros [= <- <-]. eauto.
    + intros (o'' & H1 & H2)%IH. exists o''. by rewrite H1, Hn.
Qed.
Lemma prompted_functions i facts functions i' :
  promptWizardFunctions read_error i facts = (Ok functions, i') →
  ∀ k, is_Some (functions !! k) ↔ k ∈ allFitnessFunctionKeys.
Proof using.
  unfold promptWizardFunctions. destruct loadPickerOptions as [options|] eqn:Ho; [|done].
  intros (options' & Hn & ->)%pick_lines_names k. rewrite pickerSelections_lookup, Hn, <-(options_names _ Ho).
  unfold seedPickerOptions. destruct (wf_Current facts); [|done]. rewrite map_names; [done|].
  intros o. by destruct (_ !! fo_name o).
Qed.

(** ** The mode *)

Lemma default_enforcement facts : defaultWizardEnforcement facts ∈ ["advisory"; "block"].
Proof using. unfold defaultWizardEnforcement. destruct (wf_Current facts); [case_bool_decide|]; try done; by left. Qed.
Lemma prompted_enforcement attempts : ∀ i d e i',
  d ∈ ["advisory"; "block"] → prompt_enforcement read_error attempts i d = (Ok e, i') → e ∈ ["advisory"; "block"].
Proof using.
  induction attempts as [|n IH]; intros i d e i' Hd; cbn [prompt_enforcement]; [by intros [= <- <-]|].
  destruct (readWizardLine read_error i) as [[line|] i'']; [|done]. destruct (String.eqb line ""); [by intros [= <- <-]|].
  case_bool_decide; [by intros [= <- <-]|]. by apply IH.
Qed.

(** ** The layers *)

(** The settings with these layers are accepted. *)
Lemma layered_validated carried layers compiled :
  from_option settings_wf True carried → layers ≠ [] → compile_layers layers = Ok compiled →
  ∃ s', validated (layerSovereigntySettings carried layers) (Some s') ∧ ffs_LayerSovereignty s' = Some (mkLayerSettings compiled).
Proof using.
  intros Hc Hl Hcomp. destruct layers as [|l ls]; [done|]. unfold layerSovereigntySettings.
  set (d := default _ carried). exists (mkSettings (Some (mkLayerSettings compiled)) (ffs_DeterministicOrdering d) (ffs_TemporalPurity d)).
  split; [|done]. eexists. split; [|reflexivity]. unfold validate_settings. cbn [ffs_LayerSovereignty ls_Layers].
  rewrite Hcomp. cbn [ffs_TemporalPurity]. destruct (ffs_TemporalPurity d) as [t|] eqn:Ht; [|done].
  assert (tps_CSharpPolicy t ∈ [""; "naive-only"; "require-offset"]) as Hp; [|by rewrite bool_decide_true].
  subst d. destruct carried as [s|]; [|done]. destruct Hc as [_ Hc]. cbn [default from_option id] in Ht. by rewrite Ht in Hc.
Qed.

Lemma layered_ascii carried layers : from_option ascii_settings true carried = true → forallb ascii_layer layers = true →
  from_option ascii_settings true (layerSovereigntySettings carried layers) = true.
Proof using.
  intros Hc Hl. destruct layers as [|l ls]; [done|]. cbn [layerSovereigntySettings from_option]. unfold ascii_settings.
  cbn [ffs_LayerSovereignty ffs_DeterministicOrdering ffs_TemporalPurity from_option ls_Layers]. rewrite Hl. cbn [andb].
  destruct carried as [s|]; [|done]. unfold ascii_settings in Hc. cbn [from_option default id] in Hc |- *.
  by apply andb_true_iff in Hc as [[_ ->]%andb_true_iff ->].
Qed.

Context (e : string) (functions : gmap string bool).
Context (He : e ∈ ["advisory"; "block"]) (Hf : ∀ k, is_Some (functions !! k) ↔ k ∈ allFitnessFunctionKeys).

Lemma nine_enabled k : default false ((scaffoldedFunctions (Some functions) ∪ defaultFitnessFunctions) !! k) = selects functions k.
Proof using Hf.
  apply scaffolded_enabled; intros key Hk; apply Hf; [|done]. unfold allFitnessFunctionKeys. apply elem_of_app. by left.
Qed.
Lemma nine_names k : is_Some (scaffoldedFunctions (Some functions) !! k) → is_Some (defaultFitnessFunctions !! k).
Proof using Hf. apply scaffolded_names. intros key. by apply Hf. Qed.

(** Layers that pass the check of the wizard compile, and there is one. *)
Lemma validated_layers layers :
  selects functions "layer-sovereignty" = true → forallb ascii_layer layers = true →
  validateWizardLayers e functions layers = None →
  layers ≠ [] ∧ ∃ compiled, compiled ≠ [] ∧ compile_layers layers = Ok compiled.
Proof using He Hf OL.
  intros Hsel Hl. unfold validateWizardLayers, Validate, renderGovernanceConfig. rewrite template_loads by done.
  cbn [sd_EnforcementMode sd_EnforcementOnError ex_excludePatterns ex_settings no_extras].
  rewrite Parse_scaffold; [|done|apply nine_names|done|by apply (layered_ascii None)].
  unfold validateFitnessFunctionSettings. cbn [cfg_FitnessFunctionSettings].
  assert (∀ x s, Enabled (mkConfig e "block" (Some (scaffoldedFunctions (Some functions) ∪ defaultFitnessFunctions)) x s)
    "layer-sovereignty" = true) as Hen.
  { intros x s. exact (eq_trans (nine_enabled "layer-sovereignty") Hsel). }
  destruct layers as [|l ls].
  - cbn [layerSovereigntySettings fmap option_fmap option_map]. rewrite Hen. done.
  - cbn [layerSovereigntySettings fmap option_fmap option_map]. rewrite validate_strip. unfold validate_settings.
    cbn [ffs_LayerSovereignty ls_Layers default ffs_DeterministicOrdering ffs_TemporalPurity].
    destruct (compile_layers (l :: ls)) as [compiled|] eqn:Hc; [|done]. cbn [ffs_TemporalPurity]. rewrite Hen.
    unfold LayerRules. cbn [cfg_FitnessFunctionSettings ffs_LayerSovereignty ls_Layers andb].
    case_bool_decide as Hlen; [done|]. intros _. split; [done|]. exists compiled. split; [|done]. by intros ->.
Qed.
Lemma prompted_layers attempts : ∀ i layers i',
  selects functions "layer-sovereignty" = true → forallb ascii_layer layers = true →
  prompt_layers read_error attempts i e functions = (Ok layers, i') →
  layers ≠ [] ∧ ∃ compiled, compiled ≠ [] ∧ compile_layers layers = Ok compiled.
Proof using He Hf OL.
  induction attempts as [|n IH]; intros i layers i' Hsel Hl; cbn [prompt_layers]; [done|].
  destruct (readWizardLayers read_error i) as [[ls|] i'']; [|done].
  destruct (validateWizardLayers e functions ls) eqn:Hv; [by apply IH|]. intros [= -> <-]. by apply validated_layers.
Qed.

Lemma resolved_layers i existing layers i' :
  selects functions "layer-sovereignty" = true → forallb ascii_layer layers = true →
  resolveWizardLayers read_error i (mkFacts (readRepoLocalGovernance existing)) e functions = (Ok layers, i') →
  layers ≠ [] ∧ ∃ compiled, compiled ≠ [] ∧ compile_layers layers = Ok compiled.
Proof using He Hf OL.
  intros Hsel Hl. unfold resolveWizardLayers. rewrite Hsel. cbn [negb].
  destruct (currentLayerRules _) as [|l ls] eqn:Hcur; [by apply prompted_layers|]. intros [= <- <-]. split; [done|].
  exists (l :: ls). split; [done|]. apply compile_again. rewrite <-Hcur. unfold currentLayerRules, readRepoLocalGovernance.
  cbn [wf_Current]. destruct existing as [content|]; [|constructor]. destruct (Parse content) as [c|] eqn:Hp; [|constructor].
  apply Parse_ok in Hp as (raw & _ & Hwf & _). apply Hwf.
Qed.
End proofs.

(** ** Nothing is confirmed but by an answer *)

(** [i'] is what is left of [i]. *)
Definition leaves (i i' : stdin) : Prop :=
  i' = no_input ∨ (in_last i' = in_last i ∧ ∃ read, in_lines i = read ++ in_lines i').
#[export] Instance leaves_preorder : PreOrder leaves.
Proof.
  split; [intros i; right; split; [done|]; by exists []|].
  intros a b c [->|[H1 [p Hp]]] [->|[H2 [q Hq]]]; try (by left).
  - left. destruct c as [ls l]. cbn in *. symmetry in Hq. apply app_eq_nil in Hq as [_ ->]. by subst.
  - right. split; [congruence|]. exists (p ++ q). by rewrite Hp, Hq, app_assoc.
Qed.

(** Some line is a yes. *)
Definition answered {U : UnicodeTables} (i : stdin) : Prop :=
  ∃ line, (line ∈ in_lines i ∨ line = in_last i) ∧ to_lower (trim_space line) ∈ ["y"; "yes"].
Lemma leaves_answered {U : UnicodeTables} i i' : leaves i i' → answered i' → answered i.
Proof.
  intros [->|[H1 [read H2]]] (line & Hin & Hyes).
  - destruct Hin as [Hin|Hin]; [by apply elem_of_nil in Hin|]. cbn in Hin. subst line.
    change (to_lower (trim_space "")) with "" in Hyes. by apply elem_of_cons in Hyes as [?|[?|[]%elem_of_nil]%elem_of_cons].
  - exists line. split; [|done]. rewrite H2, <-H1, elem_of_app. tauto.
Qed.

Section confirmation.
Context {R : RegexpEngine} {MO : GoMapOrder} {OL : GoMapOrderLaws MO} {U : UnicodeTables} {J : JsonErrorText} {N : JsonNumberText}.
Context (read_error : option goerror).

Lemma leaves_readValue i : leaves i (readWizardValue read_error i).2.
Proof using. unfold readWizardValue. destruct (in_lines i) as [|l ls] eqn:H; cbn; [by left|]. right. split; [done|]. exists [l]. by rewrite H. Qed.
Lemma leaves_readLine i : leaves i (readWizardLine read_error i).2.
Proof using. unfold readWizardLine. pose proof (leaves_readValue i) as H. by destruct (readWizardValue read_error i). Qed.
Lemma leaves_enforcement attempts : ∀ i d, leaves i (prompt_enforcement read_error attempts i d).2.
Proof using.
  induction attempts as [|n IH]; intros i d; cbn [prompt_enforcement]; [done|].
  pose proof (leaves_readLine i) as H. destruct (readWizardLine read_error i) as [[line|] i']; cbn [snd] in H; [|done].
  destruct (String.eqb line ""); [done|]. case_bool_decide; [done|]. etrans; [exact H|apply IH].
Qed.
Lemma leaves_pick lines last : ∀ options, leaves (mkStdin lines last) (pick_lines read_error lines last options).2.
Proof using.
  induction lines as [|line lines IH]; intros options; cbn [pick_lines].
  - destruct (too_long last); [by left|]. destruct (String.eqb last ""); [by left|]. destruct (applyPickerLine _ _) as [? []]; by left.
  - destruct (too_long line); [by left|]. destruct (applyPickerLine _ _) as [options' []].
    + right. split; [done|]. by exists [line].
    + etrans; [|apply IH]. right. split; [done|]. by exists [line].
Qed.
Lemma leaves_functions i facts : leaves i (promptWizardFunctions read_error i facts).2.
Proof using. unfold promptWizardFunctions. destruct loadPickerOptions; [|done]. destruct i. apply leaves_pick. Qed.
Lemma leaves_patterns attempts : ∀ i, leaves i (prompt_patterns read_error attempts i).2.
Proof using.
  induction attempts as [|n IH]; intros i; cbn [prompt_patterns]; [done|].
  pose proof (leaves_readValue i) as H. destruct (readWizardValue read_error i) as [[line|] i']; cbn [snd] in H; [|done].
  destruct (compilablePatterns line); [done|]. etrans; [exact H|apply IH].
Qed.
Lemma leaves_layer i name : leaves i (promptWizardLayer read_error i name).2.
Proof using.
  unfold promptWizardLayer, promptWizardPatterns. pose proof (leaves_patterns wizardPromptAttempts i) as H.
  destruct (prompt_patterns _ _ i) as [[ps|] i']; cbn [snd] in H; [|done].
  pose proof (leaves_patterns wizardPromptAttempts i') as H'.
  destruct (prompt_patterns _ _ i') as [[fs|] i'']; cbn [snd] in H' |- *; by etrans.
Qed.
Lemma leaves_read_layers room : ∀ i layers, leaves i (read_layers read_error room i layers).2.
Proof using.
  induction room as [|n IH]; intros i layers; cbn [read_layers]; pose proof (leaves_readValue i) as H;
    destruct (readWizardValue read_error i) as [[name|] i']; cbn [snd] in H; try done; destruct (String.eqb name ""); try done.
  pose proof (leaves_layer i' name) as H'. destruct (promptWizardLayer read_error i' name) as [[layer|] i'']; cbn [snd] in H' |- *.
  - etrans; [exact H|]. etrans; [exact H'|apply IH].
  - by etrans.
Qed.
Lemma leaves_layers attempts e functions : ∀ i, leaves i (prompt_layers read_error attempts i e functions).2.
Proof using.
  induction attempts as [|n IH]; intros i; cbn [prompt_layers]; [done|].
  pose proof (leaves_read_layers wizardLayerLimit i []) as H. fold (readWizardLayers read_error i) in H.
  destruct (readWizardLayers read_error i) as [[ls|] i']; cbn [snd] in H; [|done].
  destruct (validateWizardLayers _ _ _); [|done]. etrans; [exact H|apply IH].
Qed.
Lemma leaves_resolved i facts e functions : leaves i (resolveWizardLayers read_error i facts e functions).2.
Proof using.
  unfold resolveWizardLayers. destruct (negb _); [done|]. destruct (currentLayerRules facts); [|done]. apply leaves_layers.
Qed.
Lemma confirm_answered i i' : confirmWizardChoices read_error i = (Ok true, i') → answered i.
Proof using.
  unfold confirmWizardChoices, readWizardLine, readWizardValue.
  assert (∀ x, String.eqb (to_lower x) "y" || String.eqb (to_lower x) "yes" = true → to_lower x ∈ ["y"; "yes"]) as Hyes.
  { intros x [->%String.eqb_eq| ->%String.eqb_eq]%orb_true_iff; [by left|right; by left]. }
  destruct (in_lines i) as [|l ls] eqn:Hl.
  - destruct read_error; [done|]. intros [= H _]. exists (in_last i). eauto.
  - intros [= H _]. exists l. split; [left; rewrite Hl; by left|eauto].
Qed.

(** The steps of a confirmed run. *)
Lemma confirmed_run i facts g : resolveWizardOutcome read_error i facts = Ok g →
  ∃ functions i1 i2 i3 i4, og_functions g = Some functions ∧
    promptWizardEnforcement read_error i (defaultWizardEnforcement facts) = (Ok (og_enforcement g), i1) ∧
    promptWizardFunctions read_error i1 facts = (Ok functions, i2) ∧
    resolveWizardLayers read_error i2 facts (og_enforcement g) functions = (Ok (og_layers g), i3) ∧
    confirmWizardChoices read_error i3 = (Ok true, i4).
Proof using.
  unfold resolveWizardOutcome, runOnboardWizard. destruct (promptWizardEnforcement _ _ _) as [[e|] i1] eqn:H1; [|done].
  destruct (promptWizardFunctions _ _ _) as [[f|] i2] eqn:H2; [|done].
  destruct (resolveWizardLayers _ _ _ _ _) as [[l|] i3] eqn:H3; [|done].
  destruct (confirmWizardChoices _ _) as [[c|] i4] eqn:H4; [|done]. cbn [fst wo_Confirmed].
  destruct c; [|done]. intros [= <-]. cbn. eauto 10.
Qed.

(** C12: nothing that the wizard hands on was not confirmed, and what was confirmed
    is what the daemon will enforce.  Whatever is typed and however the input
    ends: if the wizard yields a governance, one of the lines is a yes, and, where the
    texts of its layers and of the existing file are ASCII, the configuration that
    onboarding then renders is accepted: it has the governance's mode, exactly its
    functions, the existing exclude patterns and, where layer-sovereignty was chosen,
    exactly its layers, in order, with their paths and patterns; there is at least one. *)
Theorem wizard_config_accepted (i : stdin) (existing : result goerror string) (g : onboardGovernance)
    (Hg : resolveWizardOutcome read_error i (mkFacts (readRepoLocalGovernance existing)) = Ok g)
    (Hx : ascii_extras (extras_of existing) = true) (Hl : forallb ascii_layer (og_layers g) = true) :
  answered i ∧
  ∃ functions content c, og_functions g = Some functions ∧
    renderGovernanceConfig (og_enforcement g) (og_functions g) (scaffoldLayers (og_functions g) (og_layers g))
      (extras_of existing) = Ok content ∧ Parse content = Ok c ∧
    cfg_EnforcementMode c = og_enforcement g ∧ (∀ name, Enabled c name = selects functions name) ∧
    default [] (cfg_ExcludePatterns c) = default [] (ex_excludePatterns (extras_of existing)) ∧
    (Enabled c "layer-sovereignty" = true →
     og_layers g ≠ [] ∧ strip_layer <$> LayerRules c = strip_layer <$> og_layers g).
Proof using OL.
  apply confirmed_run in Hg as (functions & i1 & i2 & i3 & i4 & Hfun & H1 & H2 & H3 & H4). split.
  { apply confirm_answered in H4. pose proof (leaves_resolved i2 (mkFacts (readRepoLocalGovernance existing)) (og_enforcement g) functions) as L3.
    rewrite H3 in L3. pose proof (leaves_functions i1 (mkFacts (readRepoLocalGovernance existing))) as L2. rewrite H2 in L2.
    pose proof (leaves_enforcement wizardPromptAttempts i (defaultWizardEnforcement (mkFacts (readRepoLocalGovernance existing)))) as L1.
    unfold promptWizardEnforcement in H1. rewrite H1 in L1.
    eapply leaves_answered; [exact L1|]. eapply leaves_answered; [exact L2|]. by eapply leaves_answered. }
  apply andb_true_iff in Hx as [Hx1 Hx2]. rewrite Hfun.
  pose proof (prompted_functions _ _ _ _ _ H2) as Hf. apply prompted_enforcement in H1; [|apply default_enforcement].
  unfold scaffoldLayers. cbn [default from_option id]. fold (selects functions "layer-sovereignty").
  assert (∃ s', validated (layerSovereigntySettings (ex_settings (extras_of existing))
      (if selects functions "layer-sovereignty" then og_layers g else [])) s' ∧
    ∀ m x, selects functions "layer-sovereignty" = true →
      LayerRules (mkConfig (og_enforcement g) "block" m x s') ≠ [] ∧ og_layers g ≠ [] ∧
      strip_layer <$> LayerRules (mkConfig (og_enforcement g) "block" m x s') = strip_layer <$> og_layers g)
    as (s' & Hs' & Hrules).
  { destruct (selects functions "layer-sovereignty") eqn:Hsel.
    - eapply resolved_layers in H3 as (Hne & compiled & Hc & Hcomp); [|done..].
      destruct (layered_validated (ex_settings (extras_of existing)) (og_layers g) compiled) as (s' & Hv & Hls); [apply extras_wf|done..|].
      exists (Some s'). split; [done|]. intros m x _. unfold LayerRules. cbn [cfg_FitnessFunctionSettings]. rewrite Hls. split; [done|]. split; [done|]. by apply compiled_layers.
    - exists (ex_settings (extras_of existing)). split; [apply validated_again, extras_wf|done]. }
  destruct (rendered_accepted (og_enforcement g) (Some functions) (if selects functions "layer-sovereignty" then og_layers g else [])
    (extras_of existing) s') as (content & Hr & Hp).
  - exact H1.
  - intros k. by apply nine_names.
  - exact Hx1.
  - apply layered_ascii; [exact Hx2|]. destruct (selects functions "layer-sovereignty"); [exact Hl|reflexivity].
  - exact Hs'.
  - intros Hen. eapply proj1, Hrules. exact (eq_trans (eq_sym (nine_enabled functions Hf "layer-sovereignty")) Hen).
  - eexists functions, content, _. split; [done|]. split; [exact Hr|]. split; [exact Hp|]. split; [done|].
    assert (∀ name, Enabled (mkConfig (og_enforcement g) "block" (Some (scaffoldedFunctions (Some functions) ∪ defaultFitnessFunctions))
      (nonempty (ex_excludePatterns (extras_of existing))) s') name = selects functions name) as Hen
      by (intros name; exact (nine_enabled functions Hf name)).
    split; [exact Hen|]. split; [cbn [cfg_ExcludePatterns]; unfold nonempty; by destruct (default [] _)|].
    rewrite Hen. intros Hsel. exact (proj2 (Hrules _ _ Hsel)).
Qed.
End confirmation.
