(* ===== verification/Checker.v ===== *)
(** * The checker

    [internal/server/checker.go], with [internal/calm/validator.go] and
    [internal/analyzer/csproj.go]: the check of one proposed file, from the
    repository configuration to the verdict and the ledger update.

    The analyzers, the CALM command line tool and the number formatting of
    [encoding/json] are parameters ([Toolchain]); an analyzer reads the file
    system and may return, fail, panic or hang.  Repository locks are calls of
    the semaphore model of [RepoLock]. *)

From stdpp Require Import base gmap strings list fin_maps fin_sets.
From Stdlib Require Import ZArith Lia Ascii.
From S2P Require Import Prelude RepoLock.
From S2P Require Import GoStrings GoErrors GoFloat GoJson GoJsonPrint GoOS Fitness Metrics State.
From S2P Require Import RepoName GovConfig Scoring ContentScoring Report Auth ConfigStore Governance.
Set Default Goal Selector "!".

(** ** Parameters *)

(** [calm.ValidationResult]. *)
Record CalmResult := mkCalm { calm_Valid : bool; calm_Output : string; calm_ErrorOutput : string }.

(** [AnalysisRequest]. *)
Record AnalysisRequest := mkAnalysisRequest {
  arq_Repo : string;
  arq_RepoPath : string;
  arq_File : string;
  arq_Language : string;
  arq_TempPath : string;
}.

Class Toolchain := {
  AnalyzeGoFile : string → external (result goerror AnalysisResult);
  AnalyzePythonFile : context → string → string → external (result goerror AnalysisResult);
  AnalyzeCSharpFile : context → string → string → external (result goerror AnalysisResult);
  AnalyzeCSharpFileWithProjectSource :
    context → string → string → string → string → external (result goerror AnalysisResult);
  (* exit error, standard output and standard error of a command *)
  run_command : context → string → list string → external (option goerror * string * string);
  (* the shortest decimal of a finite float64 *)
  f64_text : float64 → list ascii;
  debug_stack : string;
}.

(** ** State *)

(** A value of an interface type: nil, a nil pointer or function of a concrete
    type, or a usable value. *)
Inductive iface (A : Type) := NilInterface | TypedNil | Value (a : A).
Arguments NilInterface {A}.
Arguments TypedNil {A}.
Arguments Value {A} _.

Definition isNilInterface {A} (value : iface A) : bool :=
  match value with Value _ => false | _ => true end.

Section checker.
Context {R : RegexpEngine} {O : GoMapOrder} {U : UnicodeTables} {J : JsonErrorText}
        {N : JsonNumberText} {E : OSEnv} {T : Toolchain}.

(** A deferred check: the goroutine of [startDeferredCheck], which owns the
    repository lock call it was handed. *)
Record job := mkJob {
  job_request : ValidationRequest;
  job_repo : string;
  job_config : Config;
  job_lock : nat;
}.

(** What the checks share. *)
Record App := mkApp {
  app_state : State;
  app_locks : RepoLock.config;
  app_store : ConfigStore;
  app_jobs : list job;
}.

Definition set_state (s : State) (a : App) : App := mkApp s (app_locks a) (app_store a) (app_jobs a).
Definition set_locks (l : RepoLock.config) (a : App) : App := mkApp (app_state a) l (app_store a) (app_jobs a).
Definition on_state (f : State → State) (a : App) : App := set_state (f (app_state a)) a.
Definition spawn_job (j : job) (a : App) : App :=
  mkApp (app_state a) (app_locks a) (app_store a) (app_jobs a ++ [j]).

Definition SourceAnalyzer : Type := context → AnalysisRequest → external (result goerror AnalysisResult).
Definition Validator : Type := context → string → string → external (CalmResult * option goerror).

(** The pointers to the state and to the configuration store are either nil or
    the ones of [App]. *)
Record Checker := mkChecker {
  chk_PatternPath : string;
  chk_TempDir : string;
  chk_Validator : iface Validator;
  chk_Analyzers : gmap string (iface SourceAnalyzer);
  chk_State : bool;
  chk_ConfigStore : bool;
  chk_DeferredContext : option context;
  chk_BlockOnWarmup : bool;
  chk_AnalyzerTimeout : Z;
  chk_ConcurrencyPermits : Z;
}.

Context {I : Interference App}.
Abbreviation CM := (M App).

Definition state_access {A} (f : State → A * State) : CM A :=
  access (λ a, let '(x, s) := f (app_state a) in (x, set_state s a)).
Definition state_get {A} (f : State → A) : CM A := get (λ a, f (app_state a)).
Definition state_modify (f : State → State) : CM unit := modify (on_state f).

(** ** Repository locks *)

Definition lock_action (act : RepoLock.action) (a : App) : App :=
  set_locks (default (app_locks a) (RepoLock.exec (app_locks a) act)) a.

(** The select of [acquireRepoPermit]: a permit, or the end of the context; with
    neither, the call waits for ever. *)
Definition acquireRepoPermit (ctx : context) (h : nat) : CM (result goerror nat) := λ w,
  let a := interfere (w_clock w) (w_app w) in
  let taken := (Returned (Ok h), tick (set_app (lock_action (RepoLock.AAcquire h) a) w)) in
  let canceled reason :=
    bind (modify (lock_action (RepoLock.ALeave h))) (λ _, ret (Err (ErrSentinel reason)))
      (tick (set_app (lock_action (RepoLock.ACancel h) a) w)) in
  match RepoLock.exec (app_locks a) (RepoLock.AAcquire h), ctx_done ctx with
  | Some _, Some (t, reason) =>
      if (t <=? os_now (w_clock w))%Z && negb (os_select (w_clock w)) then canceled reason else taken
  | Some _, None => taken
  | None, Some (_, reason) => canceled reason
  | None, None => (Blocked, tick (set_app a w))
  end.

(** [LockRepo]: the call gets a fresh handle. *)
Definition LockRepo (ctx : context) (repo : string) : CM (result goerror nat) :=
  let! h := access (λ a, let h := fresh (dom (RepoLock.cf_calls (app_locks a)) : gset nat) in
                         (h, lock_action (RepoLock.ALock h repo 1) a)) in
  acquireRepoPermit ctx h.

(** The release closure; a second call finds nothing to do. *)
Definition unlockRepo (h : nat) : CM unit :=
  let! _ := modify (lock_action (RepoLock.ARelease h)) in
  modify (lock_action (RepoLock.ALeave h)).

(** Run [m] holding the lock, which is released however [m] ends. *)
Definition holding {A} (h : nat) (m : CM A) : CM A := with_deferred m (unlockRepo h) (λ r _, r).

(** ** Temporary files *)

(** A cleanup function: nothing, or the removal of one file. *)
Definition run_cleanup (cleanup : option string) : CM (option goerror) :=
  match cleanup with
  | None => ret None
  | Some file => Remove file
  end.

(** A deferred cleanup whose failure is joined to the result. *)
Definition cleaning {A} (message : string) (cleanup : option string)
    (m : CM (result goerror A)) : CM (result goerror A) :=
  with_deferred m (run_cleanup cleanup) (λ r cleanupErr,
    match cleanupErr with
    | None => r
    | Some e =>
        let failed := infrastructureError message (Some e) in
        match r with
        | Ok _ => Err (ErrJoin [failed])
        | Err err => Err (ErrJoin [err; failed])
        end
    end).

(** What is reported when the removal that follows a failure fails too: the three
    writers join it, the pattern writer drops it. *)
Definition joined (err : goerror) (cleanupErr : option goerror) : goerror :=
  ErrJoin (err :: match cleanupErr with Some e => [e] | None => [] end).
Definition dropped (err : goerror) (cleanupErr : option goerror) : goerror := err.

(** Create, fill and close a temporary file: [content] may fail to encode, and
    [report] gives the error of a failed write or close after the removal. *)
Definition write_temp (dir pattern : string) (content : result goerror string)
    (create_failed write_failed close_failed : goerror → goerror)
    (report : goerror → option goerror → goerror) : CM (result goerror (string * option string)) :=
  let! created := CreateTemp dir pattern in
  match created with
  | Err err => ret (Err (create_failed err))
  | Ok name =>
      let! failed := match content with
                     | Err err => ret (Some err)
                     | Ok text => Write name text
                     end in
      match failed with
      | Some err =>
          let! _ := Close name in
          let! cleanupErr := Remove name in
          ret (Err (report (write_failed err) cleanupErr))
      | None =>
          let! failed := Close name in
          match failed with
          | Some err =>
              let! cleanupErr := Remove name in
              ret (Err (report (close_failed err) cleanupErr))
          | None => ret (Ok (name, Some name))
          end
      end
  end.

Definition resolvePatternPath (c : Checker) : CM (result goerror (string * option string)) :=
  if negb (String.eqb (chk_PatternPath c) "") then ret (Ok (chk_PatternPath c, None))
  else
    write_temp (chk_TempDir c) "calm-pattern-*.json" (Ok GovernanceJSON)
      (λ err, infrastructureError "creating temp pattern file" (Some err))
      (λ err, infrastructureError "writing temp pattern file" (Some err))
      (λ err, infrastructureError "closing temp pattern file" (Some err)) dropped.

Definition isValidExtensionChar (char : Z) : bool :=
  ((char =? 46) || (char =? 95) || (char =? 45) || (48 <=? char) && (char <=? 57)
   || (65 <=? char) && (char <=? 90) || (97 <=? char) && (char <=? 122))%Z.

Definition validSourceExtension (extension : string) : bool :=
  if (16 <? String.length extension)%nat || contains_byte extension (byte_of 0) then false
  else forallb isValidExtensionChar (runes extension).

Definition writeProposedContent (c : Checker) (request : ValidationRequest) :
  CM (result goerror (string * option string)) :=
  let extension := if String.eqb (path_ext (req_File request)) "" then ".go"
                   else path_ext (req_File request) in
  if negb (validSourceExtension extension)
  then ret (Err (inputError "invalid source file extension" None))
  else
    write_temp (chk_TempDir c) ("calm-check-*" +:+ extension) (Ok (req_ProposedContent request))
      (λ err, infrastructureError "creating temp source file" (Some err))
      (λ err, inputError "writing temp source file" (Some err))
      (λ err, infrastructureError "closing temp source file" (Some err)) joined.

(** *** The architecture document as JSON *)

Definition json_float (x : float64) : json := JNum (f64_text x).
Definition omit_zero (name : string) (x : float64) : list (string * json) :=
  if f64_eq x f64_zero then [] else [(name, json_float x)].
Definition omit_empty (name s : string) : list (string * json) :=
  if String.eqb s "" then [] else [(name, JStr s)].

Definition json_Fitness (f : FitnessValues) : json :=
  JObj ([("cyclomatic-complexity", json_float (fit_CyclomaticComplexity f));
         ("interface-width", json_float (fit_InterfaceWidth f));
         ("implementation-depth", json_float (fit_ImplementationDepth f))]
        ++ (match fit_LogicDensity f with Some x => [("logic-density", json_float x)] | None => [] end)
        ++ [("dependency-discipline", json_float (fit_DependencyDiscipline f))]
        ++ omit_zero "layer-sovereignty" (fit_LayerSovereignty f)
        ++ omit_zero "temporal-purity" (fit_TemporalPurity f)
        ++ omit_zero "sql-composition-safety" (fit_SQLCompositionSafety f)
        ++ omit_zero "deterministic-ordering" (fit_DeterministicOrdering f)).

Definition json_InterfaceMetric (m : InterfaceMetric) : json :=
  JObj (omit_empty "name" (if_Name m)
        ++ [("kind", JStr (if_Kind m)); ("line", json_int (if_Line m));
            ("public_methods", json_int (if_PublicMethods m))]).

Definition json_Metadata (m : Metadata) : json :=
  JObj ([("fitness", json_Fitness (md_Fitness m))]
        ++ (match md_ModuleMetrics m with
            | Some x => [("module_metrics",
                          JObj [("public_method_count", json_int (mod_PublicMethods x));
                                ("total_loc", json_int (mod_TotalLOC x));
                                ("private_loc", json_int (mod_PrivateLOC x));
                                ("avg_loc_per_public_method", json_float (mod_AverageLOCPerPublicMethod x))])]
            | None => []
            end)
        ++ (match md_FileMetrics m with
            | Some x => [("file_metrics",
                          JObj ([("total_lines", json_int (fm_TotalLines x));
                                 ("logic_lines", json_int (fm_LogicLines x));
                                 ("ldr", json_float (fm_LDR x))] ++ omit_empty "source_kind" (fm_SourceKind x)))]
            | None => []
            end)
        ++ (match md_ImportMetrics m with
            | Some x => [("import_metrics",
                          JObj [("total_imports", json_int (im_TotalImports x));
                                ("used_imports", json_int (im_UsedImports x));
                                ("ddc", json_float (im_DDC x))])]
            | None => []
            end)
        ++ (match md_Interfaces m with [] => [] | l => [("interfaces", JArr (json_InterfaceMetric <$> l))] end)).

Definition json_Node (n : Node) : json :=
  JObj [("unique-id", JStr (node_UniqueID n)); ("node-type", JStr (node_NodeType n));
        ("name", JStr (node_Name n)); ("description", JStr (node_Description n));
        ("metadata", json_Metadata (node_Metadata n))].

Definition json_Relationship (r : Relationship) : json :=
  JObj [("unique-id", JStr (rel_UniqueID r)); ("description", JStr (rel_Description r));
        ("relationship-type",
         JObj [("interacts", JObj [("actor", JStr (int_Actor (rel_Interacts r)));
                                   ("nodes", JArr (JStr <$> int_Nodes (rel_Interacts r)))])])].

Definition json_ArchitectureDocument (d : ArchitectureDocument) : json :=
  JObj [("$schema", JStr (doc_Schema d)); ("nodes", JArr (json_Node <$> doc_Nodes d));
        ("relationships", JArr (json_Relationship <$> doc_Relationships d))].

(** The floats of a document; one that is not finite cannot be encoded. *)
Definition finite (x : float64) : bool :=
  match x with SpecFloat.S754_nan | SpecFloat.S754_infinity _ => false | _ => true end.
Definition fitness_floats (f : FitnessValues) : list float64 :=
  [fit_CyclomaticComplexity f; fit_InterfaceWidth f; fit_ImplementationDepth f]
  ++ from_option (λ x, [x]) [] (fit_LogicDensity f)
  ++ [fit_DependencyDiscipline f; fit_LayerSovereignty f; fit_TemporalPurity f;
      fit_SQLCompositionSafety f; fit_DeterministicOrdering f].
Definition metadata_floats (m : Metadata) : list float64 :=
  fitness_floats (md_Fitness m)
  ++ from_option (λ x, [mod_AverageLOCPerPublicMethod x]) [] (md_ModuleMetrics m)
  ++ from_option (λ x, [fm_LDR x]) [] (md_FileMetrics m)
  ++ from_option (λ x, [im_DDC x]) [] (md_ImportMetrics m).
Definition encodable (d : ArchitectureDocument) : bool :=
  forallb (λ n, forallb finite (metadata_floats (node_Metadata n))) (doc_Nodes d).

(** [encoder.Encode] with indentation. *)
Definition Encode (d : ArchitectureDocument) : result goerror string :=
  if encodable d then Ok (MarshalIndent (N := id) (json_ArchitectureDocument d) +:+ newline_text)
  else Err (ErrNew "json: unsupported value").

Definition writeArchitecture (c : Checker) (document : ArchitectureDocument) :
  CM (result goerror (string * option string)) :=
  write_temp (chk_TempDir c) "current-architecture-*.json" (Encode document)
    (λ err, infrastructureError "creating temp architecture file" (Some err))
    (λ err, infrastructureError "writing architecture file" (Some err))
    (λ err, infrastructureError "closing architecture file" (Some err)) joined.

(** ** Analysis *)

Definition physicalRepoPath (repo : string) : CM string :=
  if negb (is_abs repo) then ret ""
  else
    let! info := Stat repo in
    match info with
    | Ok true => ret (path_clean repo)
    | _ => ret ""
    end.

Definition physicalRepoPathFromContext (ctx : context) : string := default "" (ctx_physicalRepo ctx).

Definition localPhysicalRepoPath (repo canonical : string) : CM string :=
  let! repoPath := physicalRepoPath repo in
  if String.eqb repoPath "" then ret ""
  else match canonicalRepoName repoPath with
       | Ok repoName => if String.eqb repoName canonical then ret repoPath else ret ""
       | Err _ => ret ""
       end.

Definition peer_file (entry : string * bool) : bool :=
  negb (entry.2 || negb (has_suffix entry.1 ".go") || has_suffix entry.1 "_generated.go"
        || has_suffix entry.1 "_test.go").

Definition collectPeerGoFiles (dir logicalPath : string) : CM (result goerror (list string)) :=
  let! entries := ReadDir dir in
  match entries with
  | Err err => ret (Err err)
  | Ok entries =>
      ret (Ok (filter (λ path, path_clean path ≠ path_clean logicalPath)
                 ((λ entry, path_join [dir; entry.1]) <$> filter (λ e, peer_file e = true) entries)))
  end.

(** The peers of the same node, or the first error. *)
Fixpoint analyze_peers (node : string) (peers : list string) (results : list AnalysisResult) :
  CM (result goerror (list AnalysisResult)) :=
  match peers with
  | [] => ret (Ok results)
  | path :: peers' =>
      let! existing := call (AnalyzeGoFile path) in
      match existing with
      | Err err => ret (Err err)
      | Ok existing =>
          analyze_peers node peers'
            (if String.eqb (ar_CALMNode existing) node then results ++ [existing] else results)
      end
  end.

Definition analyzeGoWithModuleContext (ctx : context) (request : AnalysisRequest) :
  CM (result goerror AnalysisResult) :=
  let! canceled := ctx_Err ctx in
  match canceled with
  | Some err => ret (Err err)
  | None =>
      let! proposed := call (AnalyzeGoFile (arq_TempPath request)) in
      match proposed with
      | Err err => ret (Err err)
      | Ok proposed =>
          let! canceled := ctx_Err ctx in
          match canceled with
          | Some err => ret (Err err)
          | None =>
              if String.eqb (arq_RepoPath request) "" then ret (Ok proposed)
              else
                let logicalPath := path_join [arq_RepoPath request; arq_File request] in
                let! peers := collectPeerGoFiles (path_dir logicalPath) logicalPath in
                match peers with
                | Err _ => ret (Ok proposed)
                | Ok peers =>
                    let! results := analyze_peers (ar_CALMNode proposed) peers [proposed] in
                    match results with
                    | Err err => ret (Err err)
                    | Ok results =>
                        match AggregateModuleMetrics results with
                        | first :: _ => ret (Ok first)
                        | [] => panic "index out of range"
                        end
                    end
                end
          end
      end
  end.

(** The loop of [FindNearestCsproj], [fuel] bounding the directories visited. *)
Fixpoint nearest_csproj (fuel : nat) (root dir : string) : CM (result goerror string) :=
  match fuel with
  | 0%nat => diverge
  | S fuel' =>
      let! entries := ReadDir dir in
      match entries with
      | Err err => ret (Err (ErrWrap ("reading dir " +:+ dir +:+ ": ") err ""))
      | Ok entries =>
          match List.find (λ e, negb e.2 && has_suffix e.1 ".csproj") entries with
          | Some (name, _) => ret (Ok (path_join [dir; name]))
          | None =>
              if String.eqb dir root then ret (Ok "")
              else if String.eqb (path_dir dir) dir then ret (Ok "")
              else nearest_csproj fuel' root (path_dir dir)
          end
      end
  end.

Definition FindNearestCsproj (csFilePath root : string) : CM (result goerror string) :=
  let dir := path_clean (path_dir csFilePath) in
  nearest_csproj (S (S (String.length dir))) (path_clean root) dir.

Definition analyzeWithCSharpProjectContext (ctx : context) (request : AnalysisRequest) :
  CM (result goerror AnalysisResult) :=
  let! canceled := ctx_Err ctx in
  match canceled with
  | Some err => ret (Err err)
  | None =>
      if String.eqb (arq_RepoPath request) "" then call (AnalyzeCSharpFile ctx (arq_TempPath request) "")
      else
        let logicalPath := path_join [arq_RepoPath request; arq_File request] in
        let! csprojPath := FindNearestCsproj logicalPath (arq_RepoPath request) in
        match csprojPath with
        | Err _ => call (AnalyzeCSharpFile ctx (arq_TempPath request) "")
        | Ok csprojPath =>
            call (AnalyzeCSharpFileWithProjectSource ctx (arq_TempPath request) logicalPath csprojPath "")
        end
  end.

Definition sourceAnalyzer (c : Checker) (language : string) :
  option (context → AnalysisRequest → CM (result goerror AnalysisResult)) :=
  match chk_Analyzers c !! language with
  | Some (Value f) => Some (λ ctx request, call (f ctx request))
  | Some _ => None
  | None =>
      if String.eqb language "go" then Some analyzeGoWithModuleContext
      else if String.eqb language "python"
      then Some (λ ctx request, call (AnalyzePythonFile ctx (arq_TempPath request) ""))
      else if String.eqb language "csharp" then Some analyzeWithCSharpProjectContext
      else None
  end.

Definition analyzerToolingFailures : list string :=
  ["running Roslyn analyzer"; "parsing Roslyn analyzer output"; "radon cc error"; "radon raw error";
   "running radon"; "parsing radon"; "python findings error"; "running findings scan";
   "radon python interpreter unavailable"].

Definition isAnalyzerToolingFailure (message : string) : bool :=
  existsb (λ fragment, contains message fragment) analyzerToolingFailures.

Definition isAnalyzerInfrastructureError (err : goerror) : bool :=
  if errors_is err ErrNotFoundExec || errors_is err ErrNotExist || errors_is err ErrPermission then true
  else if errors_as_path err then true
  else isAnalyzerToolingFailure (error_string err).

Definition classifyAnalysisError (err : goerror) (language : string) : goerror :=
  match errors_as_check err with
  | Some (kind, message, inner) => CheckError kind message inner
  | None =>
      if errors_is err DeadlineExceeded then timeoutError "analyzer timed out" (Some err)
      else if errors_is err Canceled then infrastructureError "check canceled during analysis" (Some err)
      else if isAnalyzerInfrastructureError err
      then infrastructureError ("running " +:+ language +:+ " analyzer") (Some err)
      else inputError ("analyzing " +:+ language +:+ " file") (Some err)
  end.

Definition analyzeSource (c : Checker) (ctx : context) (request : ValidationRequest)
    (repo sourcePath : string) : CM (result goerror AnalysisResult) :=
  match sourceAnalyzer c (req_Language request) with
  | None => ret (Err (inputError ("unsupported language " +:+ quote (req_Language request)) None))
  | Some analyze =>
      let! canceled := ctx_Err ctx in
      match canceled with
      | Some err => ret (Err (infrastructureError "check canceled before analysis" (Some err)))
      | None =>
          let! analyzeCtx := if (0 <? chk_AnalyzerTimeout c)%Z
                             then WithTimeout ctx (chk_AnalyzerTimeout c) else ret ctx in
          let! repoPath := if String.eqb (physicalRepoPathFromContext analyzeCtx) ""
                           then physicalRepoPath (req_Repo request)
                           else ret (physicalRepoPathFromContext analyzeCtx) in
          let! analyzed := analyze analyzeCtx
            (mkAnalysisRequest repo repoPath (req_File request) (req_Language request) sourcePath) in
          match analyzed with
          | Err err => ret (Err (classifyAnalysisError err (req_Language request)))
          | Ok result =>
              let! ended := ctx_Err analyzeCtx in
              match ended with
              | Some err =>
                  if errors_is err DeadlineExceeded
                  then ret (Err (timeoutError "analyzer timed out" (Some err)))
                  else ret (Err (infrastructureError "check canceled after analysis" (Some err)))
              | None => ret (Ok result)
              end
          end
      end
  end.

Definition routeAnalysisError (err : goerror) (config : Config) : result goerror ValidationResult :=
  match errors_as_check err with
  | None => Err err
  | Some (kind, _, _) =>
      if decide (kind = ErrorKindInput) then Err err
      else if String.eqb (cfg_EnforcementOnError config) EnforcementOnErrorAdvisory
      then Ok (verdict StatusAdvisory [])
      else if String.eqb (cfg_EnforcementOnError config) EnforcementOnErrorPass
      then Ok (verdict StatusPass [])
      else Err err
  end.

Definition calmNodeForRequest (request : ValidationRequest) (fallback : string) : string :=
  let base := trim_suffix (path_base (req_File request)) (path_ext (req_File request)) in
  if String.eqb fallback "" || has_prefix fallback "calm-check-"
     || String.eqb (req_Language request) "python"
  then if String.eqb base "" then fallback else base
  else fallback.

(** ** Validation and scoring *)

Fixpoint firstNonBlank (values : list string) : string :=
  match values with
  | [] => ""
  | value :: rest => if String.eqb (trim_space value) "" then firstNonBlank rest else trim_space value
  end.

Definition second : Z := 1000000000.

(** [calm.Validator.Validate] with the configured command and timeout. *)
Definition calm_Validate (CLIPath : string) (Timeout : Z) (ctx : context)
    (architecturePath patternPath : string) : CM (CalmResult * option goerror) :=
  let cliPath := if String.eqb CLIPath "" then "calm" else CLIPath in
  let timeout := if (Timeout =? 0)%Z then (30 * second)%Z else Timeout in
  let! runCtx := WithTimeout ctx timeout in
  let! ran := call (run_command runCtx cliPath
    ["validate"; "--architecture"; architecturePath; "--pattern"; patternPath]) in
  let '(err, stdout, stderr) := ran in
  match err with
  | None => ret (mkCalm true stdout stderr, None)
  | Some err =>
      let wrapped := ErrWrap "calm validate failed: " err (": " +:+ firstNonBlank [stderr; stdout]) in
      let! ended := ctx_Err runCtx in
      ret (mkCalm false stdout stderr,
           Some (match ended with Some e => ErrJoin [e; wrapped] | None => wrapped end))
  end.

Definition hasErrors_text (sep : string) : string :=
  String quote_byte ("hasErrors" +:+ String quote_byte (":" +:+ sep +:+ "true")).

Definition isValidationFailure (result : CalmResult) : bool :=
  negb (calm_Valid result) && (contains (calm_Output result) (hasErrors_text " ")
                               || contains (calm_Output result) (hasErrors_text "")).

Definition scoreClean (repo file : string) (config : Config) (ledger : violationLedger) :
  CM ValidationResult :=
  if String.eqb (cfg_EnforcementMode config) EnforcementBlock then
    let! _ := state_modify (led_ReplaceFile ledger repo file []) in
    let! outstanding := state_get (led_OutstandingAfter ledger repo file []) in
    match outstanding with
    | [] => ret (verdict StatusPass [])
    | _ => ret (verdict StatusBlock outstanding)
    end
  else
    let! _ := state_modify (led_ClearRepo ledger repo) in
    ret (verdict StatusPass []).

Definition scoreDirty (repo file : string) (violations : list Violation) (config : Config)
    (ledger : violationLedger) : CM ValidationResult :=
  if String.eqb (cfg_EnforcementMode config) EnforcementAdvisory then
    let! _ := state_modify (led_ClearRepo ledger repo) in
    ret (verdict StatusAdvisory violations)
  else
    let! _ := state_modify (led_ReplaceFile ledger repo file violations) in
    let! outstanding := state_get (led_OutstandingAfter ledger repo file violations) in
    ret (verdict StatusBlock outstanding).

(** [validator.Validate]: the nil interface is the default validator. *)
Definition validate (c : Checker) (ctx : context) (architecturePath patternPath : string) :
  CM (option (CalmResult * option goerror)) :=
  match chk_Validator c with
  | NilInterface => let! r := calm_Validate "" 0 ctx architecturePath patternPath in ret (Some r)
  | TypedNil => ret None
  | Value f => let! r := call (f ctx architecturePath patternPath) in ret (Some r)
  end.

(** The violations of an analyzed file. *)
Definition all_violations (result : AnalysisResult) (pattern : Pattern)
    (contentViolations : list Violation) (config : Config) : list Violation :=
  filterViolations (fitnessViolations result pattern ++ contentViolations) config.

(** The end of [runValidationAndScore]. *)
Definition score (result : AnalysisResult) (repo : string) (request : ValidationRequest)
    (contentViolations : list Violation) (pattern : Pattern) (config : Config) :
  CM (Prelude.result goerror ValidationResult) :=
  let violations := all_violations result pattern contentViolations config in
  let ledger := newViolationLedger (req_DryRun request) in
  let! r := match violations with
            | [] => scoreClean repo (req_File request) config ledger
            | _ => scoreDirty repo (req_File request) violations config ledger
            end in
  ret (Ok r).

Definition runValidationAndScore (c : Checker) (ctx : context) (result : AnalysisResult)
    (repo : string) (request : ValidationRequest) (patternPath : string) (config : Config) :
  CM (Prelude.result goerror ValidationResult) :=
  let! read := ReadFile patternPath in
  match LoadPattern (λ _, read) patternPath with
  | Err err => ret (Err (infrastructureError "loading governance pattern" (Some err)))
  | Ok pattern =>
      match scoreContentFunctions result request config pattern with
      | None => panic "index out of range"
      | Some (result, contentViolations) =>
          let! written := writeArchitecture c (BuildArchitecture result) in
          match written with
          | Err err => ret (Err err)
          | Ok (architecturePath, cleanup) =>
              cleaning "cleaning temporary architecture file" cleanup
                (let! validation := validate c ctx architecturePath patternPath in
                 match validation with
                 | None => ret (Err (infrastructureError "CALM validator is not configured" None))
                 | Some (validation, err) =>
                     match err with
                     | Some err =>
                         if negb (isValidationFailure validation)
                         then ret (Err (infrastructureError "running CALM validation" (Some err)))
                         else score result repo request contentViolations pattern config
                     | None => score result repo request contentViolations pattern config
                     end
                 end)
          end
      end
  end.

(** ** The check *)

Definition checkSynchronousLocked (c : Checker) (ctx : context) (request : ValidationRequest)
    (repo : string) (config : Config) : CM (result goerror ValidationResult) :=
  let! resolved := resolvePatternPath c in
  match resolved with
  | Err err => ret (Err err)
  | Ok (patternPath, cleanupPattern) =>
      cleaning "cleaning temp pattern file" cleanupPattern
        (let! written := writeProposedContent c request in
         match written with
         | Err err => ret (Err err)
         | Ok (sourcePath, cleanup) =>
             cleaning "cleaning temporary source file" cleanup
               (let! analyzed := analyzeSource c ctx request repo sourcePath in
                match analyzed with
                | Err err => ret (routeAnalysisError err config)
                | Ok result =>
                    let result := EnsureModuleMetric result in
                    let result := set_File_CALMNode (req_File request)
                                    (calmNodeForRequest request (ar_CALMNode result)) result in
                    runValidationAndScore c ctx result repo request patternPath config
                end)
         end)
  end.

Definition lock_canceled (err : goerror) : goerror :=
  infrastructureError "check canceled while waiting for repository lock" (Some err).

Definition checkSynchronous (c : Checker) (ctx : context) (request : ValidationRequest)
    (repo : string) (config : Config) : CM (result goerror ValidationResult) :=
  if (0 <? chk_ConcurrencyPermits c)%Z then checkSynchronousLocked c ctx request repo config
  else
    let! locked := LockRepo ctx repo in
    match locked with
    | Err err => ret (Err (lock_canceled err))
    | Ok h => holding h (checkSynchronousLocked c ctx request repo config)
    end.

Definition hasOtherFileViolation (violations : list Violation) (file : string) : bool :=
  existsb (λ v, negb (String.eqb (v_File v) file)) violations.

(** [checkCSharpEarlyOut]: [None] when the check is to go on. *)
Definition checkCSharpEarlyOut (request : ValidationRequest) (repo : string) :
  CM (option (result goerror ValidationResult)) :=
  let! failure := state_access (TakeWarmupFailure "csharp") in
  match failure with
  | Some message =>
      ret (Some (Err (infrastructureError "csharp warm-up failed" (Some (ErrNew message)))))
  | None =>
      let! outstanding := state_get (Violations repo) in
      if hasOtherFileViolation outstanding (req_File request)
      then ret (Some (Ok (verdict StatusBlock outstanding)))
      else ret None
  end.

Definition startDeferredCheck (request : ValidationRequest) (repo : string) (config : Config)
    (h : nat) : CM unit :=
  modify (spawn_job (mkJob request repo config h)).

Definition checkCSharpWarmup (c : Checker) (ctx : context) (request : ValidationRequest)
    (repo : string) (config : Config) (h : nat) : CM (result goerror ValidationResult) :=
  if chk_BlockOnWarmup c then
    holding h
      (let! resp := checkSynchronousLocked c ctx request repo config in
       match resp with
       | Err err =>
           let! _ := state_modify (FailWarmup "csharp" (error_string err)) in
           ret (Err err)
       | Ok resp =>
           let! _ := state_modify (CompleteWarmup "csharp") in
           ret (Ok resp)
       end)
  else
    let! _ := startDeferredCheck request repo config h in
    ret (Ok (mkResult StatusPass true [])).

Definition checkCSharpWithLock (c : Checker) (ctx : context) (request : ValidationRequest)
    (repo : string) (config : Config) : CM (result goerror ValidationResult) :=
  let! locked := LockRepo ctx repo in
  match locked with
  | Err err => ret (Err (lock_canceled err))
  | Ok h =>
      let! warm := state_get (IsWarm "csharp") in
      if (warm : bool) then holding h (checkSynchronousLocked c ctx request repo config)
      else
        let! early := checkCSharpEarlyOut request repo in
        match early with
        | Some r => let! _ := unlockRepo h in ret r
        | None =>
            let! begun := state_access (BeginWarmup "csharp") in
            if (begun : bool) then checkCSharpWarmup c ctx request repo config h
            else holding h (checkSynchronousLocked c ctx request repo config)
        end
  end.

Definition checkWithCSharpWarmGuard (c : Checker) (ctx : context) (request : ValidationRequest)
    (repo : string) (config : Config) : CM (result goerror ValidationResult) :=
  let! early := checkCSharpEarlyOut request repo in
  match early with
  | Some r => ret r
  | None =>
      let! warm := state_get (IsWarm "csharp") in
      if (warm : bool) then checkSynchronous c ctx request repo config
      else checkCSharpWithLock c ctx request repo config
  end.

Definition Check (c : Checker) (ctx : context) (request : ValidationRequest) :
  CM (result goerror ValidationResult) :=
  if negb (chk_State c) then ret (Err (infrastructureError "checker state is not configured" None))
  else
    let! loaded := get (λ a, loadConfig (if chk_ConfigStore c then Some (app_store a) else None)
                               (req_Repo request)) in
    match loaded with
    | Err err => ret (Err err)
    | Ok (config, repo) =>
        if IsExcluded config (req_File request) then ret (Ok (verdict StatusPass []))
        else if String.eqb (cfg_EnforcementMode config) EnforcementOff then
          let! _ := state_modify (led_ClearRepo (newViolationLedger (req_DryRun request)) repo) in
          ret (Ok (verdict StatusPass []))
        else if String.eqb (req_Language request) "csharp"
                && String.eqb (cfg_EnforcementMode config) EnforcementBlock
        then checkWithCSharpWarmGuard c ctx request repo config
        else checkSynchronous c ctx request repo config
    end.

(** The goroutine of [startDeferredCheck]. *)
Definition runDeferredCheck (c : Checker) (j : job) : CM unit :=
  holding (job_lock j)
    (recovering
       (let! ctx := WithTimeout (default Background (chk_DeferredContext c)) (10 * second) in
        let! resp := checkSynchronousLocked c ctx (job_request j) (job_repo j) (job_config j) in
        match resp with
        | Err err => state_modify (FailWarmup "csharp" (error_string err))
        | Ok _ => state_modify (CompleteWarmup "csharp")
        end)
       (λ recovered, state_modify (FailWarmup "csharp"
          ("panic during deferred csharp check: " +:+ recovered +:+ newline_text +:+ debug_stack)))).
End checker.
