(* ===== verification/CheckerProofs.v ===== *)
(** * Correctness of the checker

    Theorems on the operations of [Checker], for every fault of the operating
    system and, where stated, every interference of concurrent checks. *)

From stdpp Require Import base gmap strings list fin_maps fin_sets pretty.
From Stdlib Require Import ZArith Lia Ascii.
From S2P Require Import Prelude RepoLock.
From S2P Require Import GoStrings GoErrors GoFloat GoJson GoJsonPrint GoOS Fitness Metrics State.
From S2P Require Import RepoName GovConfig Scoring ContentScoring Report Auth ConfigStore Governance.
From S2P Require Import Checker.
Set Default Goal Selector "!".

(** ** Invariants of a locked check *)

(** Violations come from the file of the request. *)
Lemma all_violations_filed {R : RegexpEngine} {U : UnicodeTables}
    result request config pattern result' content vs :
  ar_File result = req_File request →
  scoreContentFunctions result request config pattern = Some (result', content) →
  vs = all_violations result' pattern content config →
  Forall (λ v, v_File v = req_File request) vs.
Proof.
  intros Hf Hs ->. apply Forall_forall. intros v Hv. unfold all_violations in Hv.
  apply elem_of_filterViolations in Hv as [_ Hv]. apply elem_of_app in Hv as [Hv|Hv].
  - apply fitnessViolations_origin in Hv as [-> _]. revert Hs. unfold scoreContentFunctions.
    destruct (run_scorers _ _ _ _ _ _) as [[counts vs']|]; [|done]. by intros [= <- _].
  - by eapply scoreContentFunctions_origin.
Qed.

Section locked.
Context {R : RegexpEngine} {O : GoMapOrder} {U : UnicodeTables} {J : JsonErrorText}
        {E : OSEnv} {T : Toolchain} {I : Interference App}.

(** A property of the shared state that other checks keep and that the two ledger
    updates of this request keep. *)
Context (P : App → Prop) {HI : KeptByOthers I P} (request : ValidationRequest) (repo : string).
Let ledger := newViolationLedger (req_DryRun request).
Hypothesis Hreplace : ∀ vs a, Forall (λ v, v_File v = req_File request) vs → P a →
  P (on_state (led_ReplaceFile ledger repo (req_File request) vs) a).
Hypothesis Hclear : ∀ a, P a → P (on_state (led_ClearRepo ledger repo) a).

Lemma keeps_state_get {A} (f : State → A) : keeps P (state_get f).
Proof using HI. apply (keeps_get P). Qed.
Lemma keeps_write_temp dir pattern content cf wf clf rep :
  keeps P (write_temp dir pattern content cf wf clf rep).
Proof using HI. unfold write_temp. keeps_tac. Qed.
Lemma keeps_cleaning {A} message cleanup (m : M App (result goerror A)) :
  keeps P m → keeps P (cleaning message cleanup m).
Proof using HI. intros Hm. unfold cleaning, run_cleanup. apply keeps_deferred; [done|]. keeps_tac. Qed.
Lemma keeps_physicalRepoPath path : keeps P (physicalRepoPath path).
Proof using HI. unfold physicalRepoPath. keeps_tac. Qed.
Lemma keeps_analyze_peers node peers results : keeps P (analyze_peers node peers results).
Proof using HI.
  revert results. induction peers as [|p peers IH]; intros results; cbn [analyze_peers];
    [apply keeps_ret|]. apply keeps_bind; [apply keeps_call|intros [r|err]]; [apply IH|apply keeps_ret].
Qed.
Lemma keeps_nearest_csproj fuel root dir : keeps P (nearest_csproj fuel root dir).
Proof using HI.
  revert dir. induction fuel as [|fuel IH]; intros dir; cbn [nearest_csproj]; [apply keeps_diverge|].
  apply keeps_bind; [apply keeps_ReadDir|intros [es|err]]; [|apply keeps_ret].
  destruct (List.find _ _) as [[name b]|]; [apply keeps_ret|].
  destruct (String.eqb _ _); [apply keeps_ret|]. destruct (String.eqb _ _); [apply keeps_ret|apply IH].
Qed.
Lemma keeps_sourceAnalyzer c language analyze ctx r :
  sourceAnalyzer c language = Some analyze → keeps P (analyze ctx r).
Proof using HI.
  unfold sourceAnalyzer. destruct (chk_Analyzers c !! _) as [[| |f]|]; try done.
  - intros [= <-]. apply keeps_call.
  - repeat case_match; intros [= <-].
    + unfold analyzeGoWithModuleContext, collectPeerGoFiles. pose proof keeps_analyze_peers. keeps_tac.
    + apply keeps_call.
    + unfold analyzeWithCSharpProjectContext, FindNearestCsproj.
      pose proof keeps_nearest_csproj. keeps_tac.
Qed.
Lemma keeps_analyzeSource c ctx path : keeps P (analyzeSource c ctx request repo path).
Proof using HI.
  unfold analyzeSource. destruct (sourceAnalyzer c _) as [analyze|] eqn:Ha; [|apply keeps_ret].
  pose proof (λ ctx r, keeps_sourceAnalyzer _ _ _ ctx r Ha). pose proof keeps_physicalRepoPath. keeps_tac.
Qed.
Lemma keeps_validate c ctx a p : keeps P (validate c ctx a p).
Proof using HI. unfold validate, calm_Validate. keeps_tac. Qed.

Lemma keeps_score result content pattern config :
  Forall (λ v, v_File v = req_File request) (all_violations result pattern content config) →
  keeps P (score result repo request content pattern config).
Proof using HI Hreplace Hclear.
  intros Hv. unfold score. apply keeps_bind; [|intros ?; apply keeps_ret].
  pose proof @keeps_state_get.
  assert (∀ vs, Forall (λ v, v_File v = req_File request) vs →
                keeps P (state_modify (led_ReplaceFile ledger repo (req_File request) vs))) as Hr.
  { intros vs Hvs. apply (keeps_modify P). intros a. by apply Hreplace. }
  assert (keeps P (state_modify (led_ClearRepo ledger repo))) by by apply (keeps_modify P).
  pose proof (Hr [] (Forall_nil_2 _)). specialize (Hr _ Hv).
  destruct (all_violations _ _ _ _); [unfold scoreClean|unfold scoreDirty]; keeps_tac.
Qed.

Lemma keeps_runValidationAndScore c ctx result path config :
  ar_File result = req_File request →
  keeps P (runValidationAndScore c ctx result repo request path config).
Proof using HI Hreplace Hclear.
  intros Hf. unfold runValidationAndScore. apply keeps_bind; [apply keeps_ReadFile|intros read].
  destruct (LoadPattern _ _) as [pattern|]; [|apply keeps_ret].
  destruct (scoreContentFunctions _ _ _ _) as [[result' content]|] eqn:Hs; [|apply keeps_panic].
  apply keeps_bind; [apply keeps_write_temp|intros [[path' cleanup]|err]]; [|apply keeps_ret].
  apply keeps_cleaning, keeps_bind; [apply keeps_validate|].
  assert (keeps P (score result' repo request content pattern config)).
  { by apply keeps_score; eapply all_violations_filed. }
  intros [[v [err|]]|]; keeps_tac.
Qed.

Lemma keeps_checkSynchronousLocked c ctx config :
  keeps P (checkSynchronousLocked c ctx request repo config).
Proof using HI Hreplace Hclear.
  unfold checkSynchronousLocked, resolvePatternPath, writeProposedContent.
  pose proof keeps_write_temp. apply keeps_bind; [keeps_tac|intros [[path cp]|err]]; [|apply keeps_ret].
  apply keeps_cleaning, keeps_bind; [keeps_tac|intros [[src cl]|err]]; [|apply keeps_ret].
  apply keeps_cleaning, keeps_bind; [apply keeps_analyzeSource|intros [result|err]]; [|apply keeps_ret].
  by apply keeps_runValidationAndScore.
Qed.

(** The rest of the check also touches the locks, the warm-up slot and the list
    of deferred checks. *)
Hypothesis Hlocks : ∀ act a, P a → P (lock_action act a).
Hypothesis Hwarmups : ∀ w f a, P a →
  P (on_state (λ s, mkState (st_violations s) (w s) (f s)) a).
Hypothesis Hjobs : ∀ j a, P a → P (spawn_job j a).

Lemma keeps_lock_action act : keeps P (modify (lock_action act)).
Proof using HI Hlocks. apply (keeps_modify P), Hlocks. Qed.
Lemma keeps_unlockRepo h : keeps P (unlockRepo h).
Proof using HI Hlocks. unfold unlockRepo. apply keeps_bind; [|intros ?]; apply keeps_lock_action. Qed.
Lemma keeps_LockRepo ctx key : keeps P (LockRepo ctx key).
Proof using HI Hlocks.
  unfold LockRepo. apply keeps_bind; [apply (keeps_access P); intros a; apply Hlocks|]. intros h w Hw.
  assert (P (interfere (w_clock w) (w_app w))) as Ha by by apply kept_by_others.
  unfold acquireRepoPermit.
  assert (∀ reason, P (w_app (bind (modify (lock_action (ALeave h)))
            (λ _, ret (Err (A := nat) (ErrSentinel reason)))
            (tick (set_app (lock_action (ACancel h) (interfere (w_clock w) (w_app w))) w))).2)) as Hc.
  { intros reason. apply keeps_bind; [apply keeps_lock_action|intros; apply keeps_ret|]. by apply Hlocks. }
  destruct (exec _ _), (ctx_done ctx) as [[t reason]|]; try done;
    [destruct (_ && _); [apply Hc|]| ]; by apply Hlocks.
Qed.
Lemma keeps_holding {A} h (m : M App A) : keeps P m → keeps P (holding h m).
Proof using HI Hlocks. intros Hm. apply keeps_deferred; [done|apply keeps_unlockRepo]. Qed.
Lemma keeps_FailWarmup l m : keeps P (state_modify (FailWarmup l m)).
Proof using HI Hwarmups. apply (keeps_modify P). intros a. apply (Hwarmups _ _ a). Qed.
Lemma keeps_CompleteWarmup l : keeps P (state_modify (CompleteWarmup l)).
Proof using HI Hwarmups. apply (keeps_modify P). intros a. apply (Hwarmups _ _ a). Qed.

Lemma on_state_id a : on_state (λ s, s) a = a.
Proof using Type. by destruct a. Qed.
Lemma keeps_BeginWarmup l : keeps P (state_access (BeginWarmup l)).
Proof using HI Hwarmups.
  apply (keeps_access P). intros a Ha. unfold BeginWarmup. case_decide; cbn [snd].
  - apply (Hwarmups (λ s, <[l := warmupRunning]> (st_warmups s)) st_warmupFailures a Ha).
  - by change (P (on_state (λ s, s) a)); rewrite on_state_id.
Qed.
Lemma keeps_TakeWarmupFailure l : keeps P (state_access (TakeWarmupFailure l)).
Proof using HI Hwarmups.
  apply (keeps_access P). intros a Ha. unfold TakeWarmupFailure.
  destruct (st_warmupFailures (app_state a) !! l); cbn [snd].
  - apply (Hwarmups st_warmups (λ s, delete l (st_warmupFailures s)) a Ha).
  - by change (P (on_state (λ s, s) a)); rewrite on_state_id.
Qed.

Lemma keeps_checkSynchronous c ctx config : keeps P (checkSynchronous c ctx request repo config).
Proof using HI Hreplace Hclear Hlocks.
  unfold checkSynchronous. pose proof keeps_checkSynchronousLocked.
  case_match; [done|]. apply keeps_bind; [apply keeps_LockRepo|intros [h|err]]; [|apply keeps_ret].
  by apply keeps_holding.
Qed.
Lemma keeps_checkCSharpEarlyOut key : keeps P (checkCSharpEarlyOut request key).
Proof using HI Hwarmups.
  unfold checkCSharpEarlyOut. pose proof keeps_TakeWarmupFailure. pose proof @keeps_state_get. keeps_tac.
Qed.
Lemma keeps_checkCSharpWarmup c ctx config h :
  keeps P (checkCSharpWarmup c ctx request repo config h).
Proof using HI Hreplace Hclear Hlocks Hwarmups Hjobs.
  pose proof keeps_FailWarmup. pose proof keeps_CompleteWarmup. unfold checkCSharpWarmup. case_match.
  - apply keeps_holding, keeps_bind; [apply keeps_checkSynchronousLocked|]. intros [r|err]; keeps_tac.
  - apply keeps_bind; [apply (keeps_modify P), Hjobs|intros ?; apply keeps_ret].
Qed.
Lemma keeps_checkCSharpWithLock c ctx config :
  keeps P (checkCSharpWithLock c ctx request repo config).
Proof using HI Hreplace Hclear Hlocks Hwarmups Hjobs.
  unfold checkCSharpWithLock. apply keeps_bind; [apply keeps_LockRepo|intros [h|err]]; [|apply keeps_ret].
  pose proof (keeps_holding h _ (keeps_checkSynchronousLocked c ctx config)).
  pose proof (keeps_checkCSharpWarmup c ctx config h). pose proof @keeps_state_get.
  pose proof (keeps_checkCSharpEarlyOut repo). pose proof keeps_BeginWarmup.
  pose proof keeps_unlockRepo. keeps_tac.
Qed.
Lemma keeps_checkWithCSharpWarmGuard c ctx config :
  keeps P (checkWithCSharpWarmGuard c ctx request repo config).
Proof using HI Hreplace Hclear Hlocks Hwarmups Hjobs.
  unfold checkWithCSharpWarmGuard. pose proof (keeps_checkCSharpEarlyOut repo).
  pose proof (keeps_checkSynchronous c ctx config). pose proof (keeps_checkCSharpWithLock c ctx config).
  pose proof @keeps_state_get. keeps_tac.
Qed.
End locked.

Lemma loadConfig_name {R : RegexpEngine} {U : UnicodeTables} store repo config name :
  loadConfig store repo = Ok (config, name) → canonicalRepoName repo = Ok name.
Proof.
  unfold loadConfig. destruct store as [s|]; [|done].
  destruct (canonicalRepoName repo) as [n|]; [|done].
  destruct (Lookup n s) as [e|]; [|done]. by destruct (ent_Valid e); intros [= _ <-].
Qed.

(** The whole check keeps what every repository's locked check keeps. *)
Lemma keeps_Check {R : RegexpEngine} {O : GoMapOrder} {U : UnicodeTables} {J : JsonErrorText}
    {E : OSEnv} {T : Toolchain} {I : Interference App} (P : App → Prop) {HI : KeptByOthers I P}
    c ctx request :
  (∀ repo vs a, canonicalRepoName (req_Repo request) = Ok repo →
     Forall (λ v, v_File v = req_File request) vs → P a →
     P (on_state (led_ReplaceFile (newViolationLedger (req_DryRun request)) repo (req_File request) vs) a)) →
  (∀ repo a, canonicalRepoName (req_Repo request) = Ok repo → P a →
     P (on_state (led_ClearRepo (newViolationLedger (req_DryRun request)) repo) a)) →
  (∀ act a, P a → P (lock_action act a)) →
  (∀ w f a, P a → P (on_state (λ s, mkState (st_violations s) (w s) (f s)) a)) →
  (∀ j a, P a → P (spawn_job j a)) →
  keeps P (Check c ctx request).
Proof.
  intros Hr Hc Hl Hw Hj. unfold Check. case_match; [apply keeps_ret|].
  apply (keeps_get_bind P). intros a. destruct (loadConfig _ _) as [[config repo]|err] eqn:Hload;
    [|apply keeps_ret].
  apply loadConfig_name in Hload. case_match; [apply keeps_ret|]. case_match.
  { apply keeps_bind; [|intros ?; apply keeps_ret]. apply (keeps_modify P). auto. }
  case_match; [apply keeps_checkWithCSharpWarmGuard|apply keeps_checkSynchronous]; auto.
Qed.

(** ** The ledger *)

Definition ledger_ok {R : RegexpEngine} (a : App) : Prop := ledger_wf (app_state a).

Section invariant.
Context {R : RegexpEngine} {O : GoMapOrder} {U : UnicodeTables} {J : JsonErrorText}
        {E : OSEnv} {T : Toolchain} {I : Interference App}.

Lemma ledger_wf_same s s' : st_violations s' = st_violations s → ledger_wf s → ledger_wf s'.
Proof. unfold ledger_wf. by intros ->. Qed.

(** Whatever the operating system does, and whatever concurrent checks do to
    the ledger as long as they keep it well formed, a check, whether it returns,
    fails, panics or hangs, leaves the ledger well formed: no empty entries, and
    every violation filed under its own file. *)
Theorem Check_keeps_ledger c ctx request (HI : KeptByOthers I ledger_ok) :
  keeps ledger_ok (Check c ctx request).
Proof.
  apply keeps_Check; try done; unfold ledger_ok.
  - intros repo vs a _ Hvs Ha. cbn. unfold led_ReplaceFile. case_match; [done|].
    by apply ledger_wf_ReplaceFile.
  - intros repo a _ Ha. cbn. unfold led_ClearRepo. case_match; [done|]. by apply ledger_wf_ClearRepo.
Qed.
End invariant.

(** ** Dry runs *)

(** No other check runs meanwhile. *)
Definition alone {R : RegexpEngine} : Interference App := no_interference.

Section dry_run.
Context {R : RegexpEngine} {O : GoMapOrder} {U : UnicodeTables} {J : JsonErrorText}
        {E : OSEnv} {T : Toolchain}.
#[local] Existing Instance alone.
#[local] Instance kept_alone (P : App → Prop) : KeptByOthers alone P.
Proof. by intros t s. Qed.

Definition with_dry (dry : bool) (r : ValidationRequest) : ValidationRequest :=
  mkRequest (req_Repo r) (req_File r) (req_ProposedContent r) (req_Language r) dry.

(** Worlds that differ in the recorded violations and the pending checks only. *)
Record weak (w1 w2 : world App) : Prop := mkWeak {
  weak_files : w_files w1 = w_files w2;
  weak_dirs : w_dirs w1 = w_dirs w2;
  weak_clock : w_clock w1 = w_clock w2;
  weak_locks : app_locks (w_app w1) = app_locks (w_app w2);
  weak_warmups : st_warmups (app_state (w_app w1)) = st_warmups (app_state (w_app w2));
  weak_failures : st_warmupFailures (app_state (w_app w1)) = st_warmupFailures (app_state (w_app w2));
}.

(** Computations that end the same way, from the same world or from worlds that
    differ weakly. *)
Definition coupled {A} (m1 m2 : M App A) : Prop :=
  ∀ w, ledger_ok (w_app w) → (m1 w).1 = (m2 w).1 ∧ weak (m1 w).2 (m2 w).2.
Definition stable {A} (m : M App A) : Prop :=
  ∀ w1 w2, weak w1 w2 → (m w1).1 = (m w2).1 ∧ weak (m w1).2 (m w2).2.

Lemma weak_refl w : weak w w.
Proof. by constructor. Qed.
Lemma coupled_refl {A} (m : M App A) : coupled m m.
Proof. intros w _. split; [done|apply weak_refl]. Qed.
Lemma coupled_bind {A B} (m : M App A) (k1 k2 : A → M App B) :
  keeps ledger_ok m → (∀ a, coupled (k1 a) (k2 a)) → coupled (bind m k1) (bind m k2).
Proof.
  intros Hm Hk w Hw. specialize (Hm w Hw). unfold bind.
  destruct (m w) as [[a|p|] w']; [by apply Hk|split; [done|apply weak_refl]..].
Qed.
Lemma coupled_then {A B} (m1 m2 : M App A) (k : A → M App B) :
  coupled m1 m2 → (∀ a, stable (k a)) → coupled (bind m1 k) (bind m2 k).
Proof.
  intros Hm Hk w Hw. destruct (Hm w Hw) as [Ho Hw']. unfold bind.
  destruct (m1 w) as [o w1], (m2 w) as [o2 w2]. cbn in Ho, Hw'. subst o2.
  destruct o; [by apply Hk|done..].
Qed.
Lemma coupled_deferred {A B} (m1 m2 : M App A) (d : M App B) f :
  coupled m1 m2 → stable d → coupled (with_deferred m1 d f) (with_deferred m2 d f).
Proof.
  intros Hm Hd w Hw. destruct (Hm w Hw) as [Ho Hw']. unfold with_deferred.
  destruct (m1 w) as [o w1], (m2 w) as [o2 w2]. cbn in Ho, Hw'. subst o2.
  destruct (Hd _ _ Hw') as [Hdo Hdw].
  destruct (d w1) as [o1 v1], (d w2) as [o2 v2]. cbn in Hdo, Hdw. subst o2.
  destruct o; [| |done]; by destruct o1.
Qed.

Lemma stable_ret {A} (a : A) : stable (ret a).
Proof. by intros w1 w2. Qed.
Lemma stable_bind {A B} (m : M App A) (k : A → M App B) :
  stable m → (∀ a, stable (k a)) → stable (bind m k).
Proof.
  intros Hm Hk w1 w2 Hw. destruct (Hm _ _ Hw) as [Ho Hw']. unfold bind.
  destruct (m w1) as [o v1], (m w2) as [o2 v2]. cbn in Ho, Hw'. subst o2.
  destruct o; [by apply Hk|done..].
Qed.
Lemma stable_Remove file : stable (Remove file).
Proof.
  intros w1 w2 []. unfold Remove, os_op. rewrite weak_clock0, weak_files0.
  destruct (os_fault _ _ _); [|destruct (w_files w2 !! file)]; split; try done;
    constructor; cbn; congruence.
Qed.
Lemma stable_lock_action act : stable (modify (lock_action act)).
Proof.
  intros w1 w2 []. split; [done|]. constructor; cbn; try done; [by rewrite weak_clock0|].
  unfold interfere, alone, no_interference. by rewrite weak_locks0.
Qed.
Lemma stable_warmup l st m :
  stable (state_modify (λ s, set_warmup l st (m (st_warmupFailures s)) s)).
Proof.
  intros w1 w2 []. split; [done|].
  constructor; cbn; try done; unfold interfere, alone, no_interference; congruence.
Qed.
Lemma stable_cleanup cleanup : stable (run_cleanup cleanup).
Proof. destruct cleanup; [apply stable_Remove|apply stable_ret]. Qed.
Lemma stable_unlockRepo h : stable (unlockRepo h).
Proof. apply stable_bind; [|intros _]; apply stable_lock_action. Qed.

(** Two ledger updates that leave the warm-up slots alone. *)
Definition same_slots (f : State → State) : Prop :=
  ∀ s, st_warmups (f s) = st_warmups s ∧ st_warmupFailures (f s) = st_warmupFailures s.
Lemma same_slots_replace l repo file vs : same_slots (led_ReplaceFile l repo file vs).
Proof. intros s. unfold led_ReplaceFile, ReplaceFile. by repeat case_match. Qed.
Lemma same_slots_clear l repo : same_slots (led_ClearRepo l repo).
Proof. intros s. unfold led_ClearRepo. by case_match. Qed.

Lemma weak_update f1 f2 w :
  same_slots f1 → same_slots f2 →
  weak (state_modify f1 w).2 (state_modify f2 w).2.
Proof.
  intros H1 H2. destruct (H1 (app_state (w_app w))) as [? ?], (H2 (app_state (w_app w))) as [? ?].
  by constructor; cbn; unfold interfere, alone, no_interference; congruence.
Qed.

Lemma coupled_update {A} f1 f2 (k : M App A) :
  same_slots f1 → same_slots f2 → stable k →
  coupled (let! _ := state_modify f1 in k) (let! _ := state_modify f2 in k).
Proof. intros H1 H2 Hk w _. apply Hk. by apply weak_update. Qed.

Lemma coupled_update_read {A B} f1 f2 (g1 g2 : State → B) (k : B → M App A) :
  same_slots f1 → same_slots f2 → (∀ s, ledger_wf s → g1 (f1 s) = g2 (f2 s)) → (∀ x, stable (k x)) →
  coupled (let! _ := state_modify f1 in let! x := state_get g1 in k x)
          (let! _ := state_modify f2 in let! x := state_get g2 in k x).
Proof.
  intros H1 H2 Hg Hk w Hw. pose proof (weak_update f1 f2 w H1 H2) as Hweak.
  unfold bind, state_get, get, access, state_modify, modify in *.
  cbn in *. unfold interfere, alone, no_interference in *.
  change (app_state (on_state f1 (w_app w))) with (f1 (app_state (w_app w))).
  change (app_state (on_state f2 (w_app w))) with (f2 (app_state (w_app w))).
  rewrite (Hg _ Hw). apply Hk. destruct Hweak. by constructor.
Qed.

Lemma stable_verdict (l : list Violation) :
  stable (match l with
          | [] => ret (verdict StatusPass [])
          | _ => ret (verdict StatusBlock l)
          end).
Proof. destruct l; apply stable_ret. Qed.

Lemma coupled_score result repo request content pattern config :
  Forall (λ v, v_File v = req_File request) (all_violations result pattern content config) →
  coupled (score result repo (with_dry true request) content pattern config)
          (score result repo (with_dry false request) content pattern config).
Proof.
  intros Hv. unfold score. cbn [req_DryRun req_File with_dry].
  apply coupled_then; [|intros ?; apply stable_ret].
  pose proof same_slots_replace. pose proof same_slots_clear.
  destruct (all_violations _ _ _ _) as [|v vs] eqn:Hvs; [unfold scoreClean|unfold scoreDirty];
    destruct (String.eqb _ _).
  - apply coupled_update_read; try done; [|apply stable_verdict].
    intros s Hs. by apply dry_run_outstanding.
  - by apply coupled_update.
  - by apply coupled_update.
  - apply coupled_update_read; try done.
    intros s Hs. by apply dry_run_outstanding.
Qed.

Lemma coupled_cleaning {A} message cleanup (m1 m2 : M App (result goerror A)) :
  coupled m1 m2 → coupled (cleaning message cleanup m1) (cleaning message cleanup m2).
Proof. intros Hm. apply coupled_deferred; [done|apply stable_cleanup]. Qed.
Lemma coupled_holding {A} h (m1 m2 : M App A) :
  coupled m1 m2 → coupled (holding h m1) (holding h m2).
Proof. intros Hm. apply coupled_deferred; [done|apply stable_unlockRepo]. Qed.

Lemma scoreContentFunctions_dry result request config pattern d :
  scoreContentFunctions result (with_dry d request) config pattern =
  scoreContentFunctions result request config pattern.
Proof. by destruct request. Qed.

Lemma ledger_ok_replace l repo file vs a :
  Forall (λ v, v_File v = file) vs → ledger_ok a → ledger_ok (on_state (led_ReplaceFile l repo file vs) a).
Proof.
  intros Hvs Ha. unfold ledger_ok in *. cbn. unfold led_ReplaceFile. case_match; [done|].
  by apply ledger_wf_ReplaceFile.
Qed.
Lemma ledger_ok_clear l repo a : ledger_ok a → ledger_ok (on_state (led_ClearRepo l repo) a).
Proof.
  intros Ha. unfold ledger_ok in *. cbn. unfold led_ClearRepo. case_match; [done|].
  by apply ledger_wf_ClearRepo.
Qed.

Lemma coupled_runValidationAndScore c ctx result repo request path config :
  ar_File result = req_File request →
  coupled (runValidationAndScore c ctx result repo (with_dry true request) path config)
          (runValidationAndScore c ctx result repo (with_dry false request) path config).
Proof.
  intros Hf. unfold runValidationAndScore. apply coupled_bind; [apply keeps_ReadFile|intros read].
  destruct (LoadPattern _ _) as [pattern|]; [|apply coupled_refl]. rewrite !scoreContentFunctions_dry.
  destruct (scoreContentFunctions _ _ _ _) as [[result' content]|] eqn:Hs; [|apply coupled_refl].
  apply coupled_bind; [apply (keeps_write_temp ledger_ok)|intros [[p cleanup]|err]]; [|apply coupled_refl].
  apply coupled_cleaning, coupled_bind; [apply (keeps_validate ledger_ok)|].
  assert (coupled (score result' repo (with_dry true request) content pattern config)
                  (score result' repo (with_dry false request) content pattern config)).
  { apply coupled_score. by eapply all_violations_filed. }
  intros [[v [err|]]|]; [case_match|..]; try done; apply coupled_refl.
Qed.

Lemma coupled_checkSynchronousLocked c ctx request repo config :
  coupled (checkSynchronousLocked c ctx (with_dry true request) repo config)
          (checkSynchronousLocked c ctx (with_dry false request) repo config).
Proof.
  unfold checkSynchronousLocked. pose proof (keeps_write_temp ledger_ok).
  apply coupled_bind; [unfold resolvePatternPath; keeps_tac|intros [[path cp]|err]]; [|apply coupled_refl].
  apply coupled_cleaning, coupled_bind;
    [unfold writeProposedContent; keeps_tac|intros [[src cl]|err]]; [|apply coupled_refl].
  apply coupled_cleaning, coupled_bind; [apply (keeps_analyzeSource ledger_ok)|intros [result|err]];
    [|apply coupled_refl].
  by apply coupled_runValidationAndScore.
Qed.

Lemma keeps_ledger_LockRepo ctx repo : keeps ledger_ok (LockRepo ctx repo).
Proof. by apply (keeps_LockRepo ledger_ok). Qed.
Lemma keeps_ledger_early request repo : keeps ledger_ok (checkCSharpEarlyOut request repo).
Proof. by apply (keeps_checkCSharpEarlyOut ledger_ok). Qed.

Lemma coupled_checkSynchronous c ctx request repo config :
  coupled (checkSynchronous c ctx (with_dry true request) repo config)
          (checkSynchronous c ctx (with_dry false request) repo config).
Proof.
  unfold checkSynchronous. pose proof (coupled_checkSynchronousLocked c ctx request repo config).
  case_match; [done|]. apply coupled_bind; [apply keeps_ledger_LockRepo|intros [h|err]];
    [by apply coupled_holding|apply coupled_refl].
Qed.

Lemma coupled_spawn {A} j1 j2 (k : M App A) :
  stable k → coupled (let! _ := modify (spawn_job j1) in k) (let! _ := modify (spawn_job j2) in k).
Proof. intros Hk w _. apply Hk. by constructor. Qed.

Lemma coupled_checkCSharpWarmup c ctx request repo config h :
  coupled (checkCSharpWarmup c ctx (with_dry true request) repo config h)
          (checkCSharpWarmup c ctx (with_dry false request) repo config h).
Proof.
  unfold checkCSharpWarmup, startDeferredCheck. case_match; [|by apply coupled_spawn].
  apply coupled_holding, coupled_then; [apply coupled_checkSynchronousLocked|].
  intros [r|err]; (apply stable_bind; [|intros _; apply stable_ret]).
  - apply (stable_warmup "csharp" warmupComplete (delete "csharp")).
  - apply (stable_warmup "csharp" warmupCold (insert "csharp" (error_string err))).
Qed.

Lemma coupled_checkCSharpWithLock c ctx request repo config :
  coupled (checkCSharpWithLock c ctx (with_dry true request) repo config)
          (checkCSharpWithLock c ctx (with_dry false request) repo config).
Proof.
  unfold checkCSharpWithLock. pose proof (coupled_checkSynchronousLocked c ctx request repo config) as Hc.
  apply coupled_bind; [apply keeps_ledger_LockRepo|intros [h|err]]; [|apply coupled_refl].
  apply coupled_bind; [apply (keeps_state_get ledger_ok)|intros warm].
  destruct warm; [by apply coupled_holding|].
  apply coupled_bind; [apply keeps_ledger_early|intros [r|]]; [apply coupled_refl|].
  apply coupled_bind; [by apply (keeps_BeginWarmup ledger_ok)|intros begun].
  destruct begun; [apply coupled_checkCSharpWarmup|by apply coupled_holding].
Qed.

(** C11: a dry run never changes the recorded violations, and without concurrent
    checks it ends exactly as the real check would: the same verdict with the
    same violations, the same error, the same panic. *)
Theorem Check_dry_run c ctx request (w : world App) (Hw : ledger_ok (w_app w)) :
  st_violations (app_state (w_app (Check c ctx (with_dry true request) w).2)) =
    st_violations (app_state (w_app w)) ∧
  (Check c ctx (with_dry true request) w).1 = (Check c ctx (with_dry false request) w).1.
Proof.
  split.
  - by apply (keeps_Check (λ a, st_violations (app_state a) = st_violations (app_state (w_app w)))).
  - revert w Hw. enough (coupled (Check c ctx (with_dry true request)) (Check c ctx (with_dry false request)))
      as Hc by (intros w Hw; by apply Hc).
    unfold Check. case_match; [apply coupled_refl|].
    apply coupled_bind; [apply (keeps_get ledger_ok)|intros [[config repo]|err]]; [|apply coupled_refl].
    pose proof same_slots_clear. cbn [req_File req_Language with_dry].
    case_match; [apply coupled_refl|]. case_match; [by apply coupled_update|].
    case_match; [|apply coupled_checkSynchronous]. unfold checkWithCSharpWarmGuard.
    apply coupled_bind; [apply keeps_ledger_early|intros [r|]]; [apply coupled_refl|].
    apply coupled_bind; [apply (keeps_state_get ledger_ok)|intros warm].
    destruct warm; [apply coupled_checkSynchronous|apply coupled_checkCSharpWithLock].
Qed.
End dry_run.

(** ** Locks and the warm-up slot *)

Section locks.
Context {R : RegexpEngine} {O : GoMapOrder} {U : UnicodeTables} {J : JsonErrorText}
        {E : OSEnv} {T : Toolchain}.
#[local] Existing Instances alone kept_alone.

(** The lock calls in progress. *)
Definition calls (a : App) : gmap nat RepoLock.call := cf_calls (app_locks a).

Lemma calls_ensureRepoLock repo n c : cf_calls (ensureRepoLock repo n c).2 = cf_calls c.
Proof using.
  unfold ensureRepoLock. destruct (cf_repoLocks c !! repo) as [l|]; [|done].
  destruct (cf_heap c !! l); [|done]. by case_decide.
Qed.

Lemma calls_ALock h repo a :
  calls a !! h = None →
  ∃ l, calls (lock_action (ALock h repo 1) a) = <[h := mkCall repo l Waiting]> (calls a).
Proof.
  intros Hh. unfold lock_action, calls in *. cbn [exec begin_call]. unfold begin_call. rewrite Hh.
  pose proof (calls_ensureRepoLock repo (Z.to_nat (normalizePermits 1)) (app_locks a)) as Hc.
  destruct (ensureRepoLock _ _ _) as [l c']. exists l. cbn in *. by rewrite Hc.
Qed.

Lemma calls_AAcquire h repo l a c' :
  calls a !! h = Some (mkCall repo l Waiting) → exec (app_locks a) (AAcquire h) = Some c' →
  calls (lock_action (AAcquire h) a) = <[h := mkCall repo l Holding]> (calls a).
Proof.
  intros Hh He. unfold lock_action. rewrite He. unfold calls in *. cbn in *. rewrite Hh in He.
  by case_decide; simplify_eq.
Qed.

Lemma calls_ACancel h repo l a :
  calls a !! h = Some (mkCall repo l Waiting) →
  calls (lock_action (ACancel h) a) = <[h := mkCall repo l Leaving]> (calls a).
Proof. intros Hh. unfold lock_action, calls in *. cbn. by rewrite Hh. Qed.

Lemma calls_ALeave h repo l a :
  calls a !! h = Some (mkCall repo l Leaving) →
  calls (lock_action (ALeave h) a) = delete h (calls a).
Proof. intros Hh. unfold lock_action, calls in *. cbn. by rewrite Hh. Qed.

Lemma calls_ARelease h repo l a :
  calls a !! h = Some (mkCall repo l Holding) →
  calls (lock_action (ARelease h) a) = <[h := mkCall repo l Leaving]> (calls a).
Proof. intros Hh. unfold lock_action, calls in *. cbn. by rewrite Hh. Qed.

(** What a lock request leaves behind. *)
Definition locked (repo : string) (c0 : gmap nat RepoLock.call) (o : outcome (result goerror nat))
    (w : world App) : Prop :=
  match o with
  | Returned (Ok h) => c0 !! h = None ∧ ∃ l, calls (w_app w) = <[h := mkCall repo l Holding]> c0
  | Returned (Err _) => calls (w_app w) = c0
  | Panicked _ => False
  | Blocked => ∃ h l, c0 !! h = None ∧ calls (w_app w) = <[h := mkCall repo l Waiting]> c0
  end.

Lemma LockRepo_calls ctx repo w :
  wp (LockRepo ctx repo) (locked repo (calls (w_app w))) w.
Proof.
  unfold LockRepo. apply wp_bind. unfold wp at 1, access. cbn [fst snd chain].
  unfold interfere at 1 2, alone, no_interference.
  set (h := fresh _). assert (calls (w_app w) !! h = None) as Hh.
  { apply (not_elem_of_dom (D := gset nat)). apply is_fresh. }
  destruct (calls_ALock h repo (w_app w) Hh) as [l Hl].
  set (a1 := lock_action (ALock h repo 1) (w_app w)) in *.
  assert (calls a1 !! h = Some (mkCall repo l Waiting)) as Hw by by rewrite Hl, lookup_insert_eq.
  assert (∀ reason, locked repo (calls (w_app w))
    (Returned (Err (ErrSentinel reason)))
    (tick (set_app (lock_action (ALeave h) (lock_action (ACancel h) a1)) w))) as Hcancel.
  { intros reason. cbn.
    rewrite (calls_ALeave h repo l) by by rewrite (calls_ACancel h repo l a1 Hw), lookup_insert_eq.
    by rewrite (calls_ACancel h repo l a1 Hw), Hl, insert_insert_eq, delete_insert_id. }
  unfold wp, acquireRepoPermit, interfere. cbn [w_app tick set_app w_clock].
  change (lock_action (ALock h repo 1) (w_app w)) with a1.
  destruct (exec (app_locks a1) (AAcquire h)) as [c'|] eqn:He.
  - assert (locked repo (calls (w_app w)) (Returned (Ok h)) (set_app (lock_action (AAcquire h) a1) w)) as Htake.
    { split; [done|]. exists l. cbn.
      by rewrite (calls_AAcquire h repo l a1 c' Hw He), Hl, insert_insert_eq. }
    destruct (ctx_done ctx) as [[t reason]|] eqn:Hd; [|exact Htake].
    destruct (_ && _); [exact (Hcancel reason)|exact Htake].
  - destruct (ctx_done ctx) as [[t reason]|] eqn:Hd; [exact (Hcancel reason)|].
    exists h, l. split; [done|]. exact Hl.
Qed.

(** The parts of the state a locked check leaves alone. *)
Definition handles (c0 : gmap nat RepoLock.call) (js : list job) (a : App) : Prop :=
  calls a = c0 ∧ app_jobs a = js.

Lemma handles_locked c ctx request repo config c0 js :
  keeps (handles c0 js) (checkSynchronousLocked c ctx request repo config).
Proof. by apply (keeps_checkSynchronousLocked (handles c0 js)). Qed.

Lemma jobs_LockRepo ctx repo js : keeps (λ a, app_jobs a = js) (LockRepo ctx repo).
Proof. by apply (keeps_LockRepo (λ a, app_jobs a = js)). Qed.

(** Releasing a held lock ends its call. *)
Lemma unlockRepo_handles h repo l c0 js w :
  c0 !! h = None → handles (<[h := mkCall repo l Holding]> c0) js (w_app w) →
  wp (unlockRepo h) (λ o w', o = Returned tt ∧ handles c0 js (w_app w')) w.
Proof.
  intros Hh [Hc Hj]. unfold unlockRepo, wp, bind, modify, access, interfere, alone, no_interference.
  cbn [fst snd w_app tick set_app w_clock]. split; [done|]. split; [|exact Hj].
  assert (calls (w_app w) !! h = Some (mkCall repo l Holding)) as Hw by by rewrite Hc, lookup_insert_eq.
  rewrite (calls_ALeave h repo l) by by rewrite (calls_ARelease h repo l _ Hw), lookup_insert_eq.
  by rewrite (calls_ARelease h repo l _ Hw), Hc, insert_insert_eq, delete_insert_id.
Qed.

Lemma wp_holding {A} h repo l c0 js (m : M App A) w :
  c0 !! h = None → handles (<[h := mkCall repo l Holding]> c0) js (w_app w) →
  (∀ cs, keeps (handles cs js) m) →
  wp (holding h m) (λ o w', o ≠ Blocked → handles c0 js (w_app w')) w.
Proof.
  intros Hh Hw Hm. specialize (Hm _ w Hw). unfold wp, holding, with_deferred.
  destruct (m w) as [[a|p|] w1]; cbn [snd] in Hm; [| |done];
    destruct (unlockRepo_handles h repo l c0 js w1 Hh Hm) as [Ho Hu];
    destruct (unlockRepo h w1) as [o w2]; cbn [fst snd] in *; by subst o.
Qed.

(** How a check leaves the lock calls and the deferred checks: untouched, or with
    one more deferred check that owns one more held lock. *)
Definition settled (c0 : gmap nat RepoLock.call) (js : list job)
    (o : outcome (result goerror ValidationResult)) (w : world App) : Prop :=
  o ≠ Blocked → handles c0 js (w_app w) ∨
  ∃ j l, o = Returned (Ok (mkResult StatusPass true [])) ∧ c0 !! job_lock j = None ∧
    handles (<[job_lock j := mkCall (job_repo j) l Holding]> c0) (js ++ [j]) (w_app w).

Lemma settled_ret c0 js r w : handles c0 js (w_app w) → wp (ret r) (settled c0 js) w.
Proof. intros Hw _. by left. Qed.

Lemma settled_holding h repo l c0 js (m : M App (result goerror ValidationResult)) w :
  c0 !! h = None → handles (<[h := mkCall repo l Holding]> c0) js (w_app w) →
  (∀ cs, keeps (handles cs js) m) → wp (holding h m) (settled c0 js) w.
Proof.
  intros Hh Hw Hm. eapply wp_mono; [by eapply wp_holding|]. intros o w' H Ho. left. auto.
Qed.

(** After a lock request: go on holding it, or stop. *)
Lemma settled_LockRepo ctx repo c0 js (k : result goerror nat → M App (result goerror ValidationResult)) w :
  handles c0 js (w_app w) →
  (∀ h l w', c0 !! h = None → handles (<[h := mkCall repo l Holding]> c0) js (w_app w') →
     wp (k (Ok h)) (settled c0 js) w') →
  (∀ e w', handles c0 js (w_app w') → wp (k (Err e)) (settled c0 js) w') →
  wp (bind (LockRepo ctx repo) k) (settled c0 js) w.
Proof.
  intros [Hc Hj] Hok Herr. apply wp_bind. pose proof (LockRepo_calls ctx repo w) as Hl.
  pose proof (jobs_LockRepo ctx repo js w Hj) as Hj'. rewrite Hc in Hl. unfold wp in *.
  destruct (LockRepo ctx repo w) as [[[h|e]|p|] w1]; cbn [fst snd chain] in *.
  - destruct Hl as (Hh & l & Hl). by eapply Hok.
  - by apply Herr.
  - done.
  - by intros [].
Qed.

(** An access that leaves the locks and the jobs alone. *)
Lemma settled_access {A B} (f : App → A * App) (k : A → M App B) Q cs js w :
  handles cs js (w_app w) → (∀ a, calls (f a).2 = calls a ∧ app_jobs (f a).2 = app_jobs a) →
  (∀ x w', handles cs js (w_app w') → wp (k x) Q w') → wp (bind (access f) k) Q w.
Proof.
  intros [Hc Hj] Hf Hk. apply wp_bind. unfold wp at 1, access, interfere, alone, no_interference.
  destruct (Hf (w_app w)) as [Hfc Hfj]. destruct (f (w_app w)) as [x a'] eqn:He. cbn [fst snd chain] in *.
  apply Hk. split; cbn; congruence.
Qed.

Ltac settled_access_tac :=
  eapply settled_access; [eassumption|intros ?; cbn;
    unfold TakeWarmupFailure, BeginWarmup; repeat case_match; simplify_eq; done|].

Lemma settled_early request repo cs js Q w
    (k : option (result goerror ValidationResult) → M App (result goerror ValidationResult)) :
  handles cs js (w_app w) → (∀ x w', handles cs js (w_app w') → wp (k x) Q w') →
  wp (bind (checkCSharpEarlyOut request repo) k) Q w.
Proof.
  intros Hw Hk. unfold checkCSharpEarlyOut, state_access, state_get, get.
  assert (∀ {X Y Z} (m : M App X) (f : X → M App Y) (g : Y → M App Z) w Q,
    wp (bind m (λ x, bind (f x) g)) Q w → wp (bind (bind m f) g) Q w) as Hassoc.
  { intros X Y Z m f g w0 Q0. unfold wp, bind. by destruct (m w0) as [[] ?]. }
  apply Hassoc. settled_access_tac. intros [message|] w1 H1; [by apply Hk|].
  apply Hassoc. settled_access_tac. intros outstanding w2 H2. case_match; by apply Hk.
Qed.

Lemma settled_checkSynchronous c ctx request repo config c0 js w :
  handles c0 js (w_app w) → wp (checkSynchronous c ctx request repo config) (settled c0 js) w.
Proof.
  intros Hw. unfold checkSynchronous. case_match.
  - intros _. left. by apply handles_locked.
  - apply settled_LockRepo; [done| |intros e w'; apply settled_ret].
    intros h l w1 Hh H1. eapply settled_holding; [done..|]. intros cs. apply handles_locked.
Qed.

Lemma settled_checkCSharpWarmup c ctx request repo config h l c0 js w :
  c0 !! h = None → handles (<[h := mkCall repo l Holding]> c0) js (w_app w) →
  wp (checkCSharpWarmup c ctx request repo config h) (settled c0 js) w.
Proof.
  intros Hh Hw. unfold checkCSharpWarmup. case_match.
  - eapply settled_holding; [done..|]. intros cs. apply keeps_bind; [apply handles_locked|].
    intros [r|err]; (apply keeps_bind; [by apply (keeps_modify (handles cs js))|intros _; apply keeps_ret]).
  - unfold startDeferredCheck. intros _. right. destruct Hw as [Hc Hj].
    exists (mkJob request repo config h), l. split_and!; [done..|]. split; [done|].
    cbn. unfold interfere, alone, no_interference. by rewrite Hj.
Qed.

Lemma settled_checkCSharpWithLock c ctx request repo config c0 js w :
  handles c0 js (w_app w) → wp (checkCSharpWithLock c ctx request repo config) (settled c0 js) w.
Proof.
  intros Hw. unfold checkCSharpWithLock. apply settled_LockRepo; [done| |intros e w'; apply settled_ret].
  intros h l w1 Hh H1. settled_access_tac. intros warm w2 H2.
  assert (∀ w', handles (<[h := mkCall repo l Holding]> c0) js (w_app w') →
            wp (holding h (checkSynchronousLocked c ctx request repo config)) (settled c0 js) w') as Hlocked.
  { intros w' H'. eapply settled_holding; [done..|]. intros cs. apply handles_locked. }
  destruct warm; [by apply Hlocked|]. eapply settled_early; [done|]. intros [r|] w3 H3.
  - apply wp_bind. eapply wp_mono; [by eapply unlockRepo_handles|].
    intros o w4 [-> H4]. by apply settled_ret.
  - settled_access_tac. intros begun w4 H4. destruct begun; [|by apply Hlocked].
    by eapply settled_checkCSharpWarmup.
Qed.

(** A check that does not hang, whether it returns, fails or panics, has released
    every repository lock it took, unless it answered warming: then exactly one
    deferred check was started and it owns the one lock still held. *)
Lemma settled_Check c ctx request c0 js w :
  handles c0 js (w_app w) → wp (Check c ctx request) (settled c0 js) w.
Proof.
  intros Hw. unfold Check. case_match; [by apply settled_ret|].
  eapply settled_access; [done|done|]. intros [[config repo]|err] w1 H1; [|by apply settled_ret].
  case_match; [by apply settled_ret|]. case_match.
  { eapply settled_access; [done|done|]. intros _ w2 ?. by apply settled_ret. }
  case_match; [|by apply settled_checkSynchronous].
  unfold checkWithCSharpWarmGuard. eapply settled_early; [done|]. intros [r|] w2 ?; [by apply settled_ret|].
  settled_access_tac. intros warm w3 ?.
  destruct warm; [by apply settled_checkSynchronous|by apply settled_checkCSharpWithLock].
Qed.

(** The warm-up has ended, with success or with a failure on record. *)
Definition slot_settled (s : State) : Prop :=
  IsWarm "csharp" s = true ∨
  warmup_of "csharp" s = warmupCold ∧ is_Some (st_warmupFailures s !! "csharp").

Lemma slot_settled_complete s : slot_settled (CompleteWarmup "csharp" s).
Proof. left. unfold IsWarm, warmup_of. cbn. by rewrite lookup_insert_eq. Qed.
Lemma slot_settled_fail s m : slot_settled (FailWarmup "csharp" m s).
Proof. right. unfold warmup_of. cbn. rewrite !lookup_insert_eq. eauto. Qed.

(** The body of the deferred goroutine. *)
Lemma deferred_body_settles (check : context → M App (result goerror ValidationResult)) parent d handler w :
  let m := recovering
       (let! ctx := WithTimeout parent d in
        let! resp := check ctx in
        match resp with
        | Err err => state_modify (FailWarmup "csharp" (error_string err))
        | Ok _ => state_modify (CompleteWarmup "csharp")
        end) (λ p, state_modify (FailWarmup "csharp" (handler p))) in
  wp m (λ o w', o ≠ Blocked → o = Returned tt ∧ slot_settled (app_state (w_app w'))) w.
Proof.
  unfold wp, recovering, bind, WithTimeout, Now. cbn.
  destruct (check _ _) as [[[r|err]|p|] w1]; cbn; intros H; [split; [done|]..|done].
  - apply slot_settled_complete.
  - apply slot_settled_fail.
  - apply slot_settled_fail.
Qed.

(** A deferred check that does not hang ends by releasing the lock it owns
    and by ending the warm-up, also when the analysis panics: the slot is warm
    only if the check succeeded, and otherwise cold with the failure on record. *)
Theorem runDeferredCheck_settles c j c0 l (w : world App)
    (Hfree : c0 !! job_lock j = None)
    (Hheld : calls (w_app w) = <[job_lock j := mkCall (job_repo j) l Holding]> c0)
    (Hends : (runDeferredCheck c j w).1 ≠ Blocked) :
  calls (w_app (runDeferredCheck c j w).2) = c0 ∧
  (runDeferredCheck c j w).1 = Returned tt ∧
  slot_settled (app_state (w_app (runDeferredCheck c j w).2)).
Proof.
  revert Hends. unfold runDeferredCheck, holding. set (m := recovering _ _).
  assert (∀ cs js, keeps (handles cs js) m) as Hm.
  { intros cs js. apply keeps_recovering; [|intros p; by apply (keeps_modify (handles cs js))].
    apply keeps_bind; [keeps_tac|intros ctx]. apply keeps_bind; [apply handles_locked|].
    intros [r|err]; by apply (keeps_modify (handles cs js)). }
  pose proof (deferred_body_settles (λ ctx, checkSynchronousLocked c ctx (job_request j) (job_repo j) (job_config j))
    (default Background (chk_DeferredContext c)) (10 * second)
    (λ recovered, "panic during deferred csharp check: " +:+ recovered +:+ newline_text +:+ debug_stack) w) as Hbody.
  change (wp m (λ o w', o ≠ Blocked → o = Returned tt ∧ slot_settled (app_state (w_app w'))) w) in Hbody.
  specialize (Hm _ (app_jobs (w_app w)) w (conj Hheld eq_refl)). unfold wp in Hbody. unfold with_deferred.
  clearbody m. destruct (m w) as [o w1]. cbn [fst snd] in *. intros Hends.
  assert (o ≠ Blocked) as Ho by (intros ->; by apply Hends). destruct (Hbody Ho) as [-> Hslot].
  destruct (unlockRepo_handles _ _ _ _ _ w1 Hfree Hm) as [Hu [Hc _]].
  assert (app_state (w_app (unlockRepo (job_lock j) w1).2) = app_state (w_app w1)) as Hs by done.
  destruct (unlockRepo (job_lock j) w1) as [o2 w2]. cbn [fst snd] in *. subst o2. cbn.
  by rewrite Hs.
Qed.
End locks.

(** ** Temporary files *)

Section files.
Context {R : RegexpEngine} {O : GoMapOrder} {U : UnicodeTables} {J : JsonErrorText}
        {E : OSEnv} {T : Toolchain} {I : Interference App}.

Definition same_files (w w' : world App) : Prop := w_files w' = w_files w.
#[local] Instance same_files_preorder : PreOrder same_files.
Proof. split; [by intros w|]. intros w1 w2 w3. unfold same_files. congruence. Qed.

(** Computations that never write a file. *)
Definition reads {A} (m : M App A) : Prop := transits same_files m.

Lemma reads_ret {A} (a : A) : reads (ret a).
Proof. by intros w. Qed.
Lemma reads_panic {A} p : reads (A := A) (panic p).
Proof. by intros w. Qed.
Lemma reads_diverge {A} : reads (A := A) diverge.
Proof. by intros w. Qed.
Lemma reads_call {A} (f : external A) : reads (call f).
Proof. by intros w. Qed.
Lemma reads_bind {A B} (m : M App A) (k : A → M App B) :
  reads m → (∀ a, reads (k a)) → reads (bind m k).
Proof. apply (transits_bind same_files). Qed.
Lemma reads_access {A} (f : App → A * App) : reads (access f).
Proof. intros w. unfold access. by destruct (f _). Qed.
Lemma reads_Now : reads Now.
Proof. by apply (transits_Now same_files). Qed.
Lemma reads_ReadFile path : reads (ReadFile path).
Proof. by apply (transits_ReadFile same_files). Qed.
Lemma reads_Stat path : reads (Stat path).
Proof. by apply (transits_Stat same_files). Qed.
Lemma reads_ReadDir path : reads (ReadDir path).
Proof. by apply (transits_ReadDir same_files). Qed.

Create HintDb reading discriminated.
Hint Resolve reads_ret reads_panic reads_diverge reads_call reads_access reads_Now reads_ReadFile
  reads_Stat reads_ReadDir : reading.
Ltac reads_step :=
  match goal with
  | |- reads (bind _ _) => apply reads_bind; [|intros ?]
  | |- reads (match ?x with _ => _ end) => destruct x eqn:?
  | |- reads (if ?x then _ else _) => destruct x eqn:?
  | |- reads (ctx_Err _) => unfold ctx_Err
  | |- reads (WithTimeout _ _) => unfold WithTimeout
  | |- reads (get _) => unfold get
  | |- reads (modify _) => unfold modify
  | |- reads (state_get _) => unfold state_get
  | |- reads (state_modify _) => unfold state_modify
  end.
Ltac reads_tac := repeat first [ solve [eauto with reading] | reads_step ].

Lemma reads_analyze_peers node peers results : reads (analyze_peers node peers results).
Proof.
  revert results. induction peers as [|p peers IH]; intros results; cbn [analyze_peers]; reads_tac.
Qed.
Lemma reads_nearest_csproj fuel root dir : reads (nearest_csproj fuel root dir).
Proof. revert dir. induction fuel as [|fuel IH]; intros dir; cbn [nearest_csproj]; reads_tac. Qed.
Lemma reads_physicalRepoPath path : reads (physicalRepoPath path).
Proof. unfold physicalRepoPath. reads_tac. Qed.
Lemma reads_analyzeSource c ctx request repo path : reads (analyzeSource c ctx request repo path).
Proof.
  unfold analyzeSource. destruct (sourceAnalyzer c _) as [analyze|] eqn:Ha; [|apply reads_ret].
  assert (∀ ctx r, reads (analyze ctx r)).
  { intros actx r. revert Ha. unfold sourceAnalyzer. destruct (chk_Analyzers c !! _) as [[| |f]|]; try done.
    - intros [= <-]. apply reads_call.
    - pose proof reads_analyze_peers. pose proof reads_nearest_csproj.
      repeat case_match; intros [= <-];
        unfold analyzeGoWithModuleContext, collectPeerGoFiles, analyzeWithCSharpProjectContext, FindNearestCsproj;
        reads_tac. }
  pose proof reads_physicalRepoPath. reads_tac.
Qed.
Lemma reads_validate c ctx a p : reads (validate c ctx a p).
Proof. unfold validate, calm_Validate. reads_tac. Qed.
Lemma reads_score result repo request content pattern config :
  reads (score result repo request content pattern config).
Proof. unfold score, scoreClean, scoreDirty. reads_tac. Qed.

(** Removals always succeed. *)
Definition removals_succeed : Prop := ∀ t path, os_fault t "remove" path = None.

(** A computation that leaves the files as they were, unless it hangs. *)
Definition restores {A} (m : M App A) : Prop :=
  ∀ w, wp m (λ o w', o ≠ Blocked → w_files w' = w_files w) w.

Lemma restores_reads {A} (m : M App A) : reads m → restores m.
Proof. intros Hm w _. apply Hm. Qed.

Lemma restores_bind {A B} (m : M App A) (k : A → M App B) :
  restores m → (∀ a, restores (k a)) → restores (bind m k).
Proof.
  intros Hm Hk w. apply wp_bind. eapply wp_mono; [apply Hm|]. intros [a|p|] w1 H; cbn.
  - eapply wp_mono; [apply Hk|]. intros o w2 H2 Ho. rewrite H2 by done. auto.
  - intros _. by apply H.
  - done.
Qed.

Lemma Remove_restores name text files (w : world App) :
  removals_succeed → files !! name = None → w_files w = <[name := text]> files →
  wp (Remove name) (λ o w', o = Returned None ∧ w_files w' = files) w.
Proof.
  intros Hremove Hn Hw. unfold wp, Remove, os_op. rewrite Hremove, Hw, lookup_insert_eq. cbn.
  split; [done|]. by rewrite delete_insert_id.
Qed.

(** Closing and removing a temporary file after a failure. *)
Lemma abandon_temp name text files (e : option goerror → goerror) (w : world App) :
  files !! name = None → w_files w = <[name := text]> files →
  wp (let! cleanupErr := Remove name in ret (Err (A := string * option string) (e cleanupErr)))
    (λ o w', (∃ err, o = Returned (Err err)) ∧ (removals_succeed → w_files w' = files)) w.
Proof.
  intros Hn Hw. split.
  - unfold wp, bind, Remove, os_op. destruct (os_fault _ _ _); [cbn; eauto|].
    destruct (w_files w !! name); cbn; eauto.
  - intros Hremove. destruct (Remove_restores name text files w Hremove Hn Hw) as [Ho Hf].
    unfold bind. destruct (Remove name w) as [o w']. cbn in Ho, Hf. by subst o.
Qed.

Lemma wp_Close {A} name (k : option goerror → M App A) Q w :
  (∀ o w', w_files w' = w_files w → wp (k o) Q w') → wp (bind (Close name) k) Q w.
Proof.
  intros Hk. unfold wp, bind, Close, os_op. destruct (os_fault _ _ _); cbn; by apply Hk.
Qed.

(** A temporary file is either handed out, new, or gone again. *)
Definition temp_written (content : result goerror string) (files : gmap string string)
    (o : outcome (result goerror (string * option string))) (w : world App) : Prop :=
  match o with
  | Returned (Ok (name, cleanup)) =>
      cleanup = Some name ∧ files !! name = None ∧
      ∃ text, content = Ok text ∧ w_files w = <[name := text]> files
  | Returned (Err _) => removals_succeed → w_files w = files
  | _ => False
  end.

Lemma write_temp_spec dir pattern content cf wf clf rep w :
  wp (write_temp dir pattern content cf wf clf rep) (temp_written content (w_files w)) w.
Proof.
  unfold write_temp. apply wp_bind. unfold wp at 1, CreateTemp, os_op.
  destruct (os_fault _ _ _); cbn [fst snd chain]; [done|].
  set (name := os_temp_name _ _ _). case_decide as Hn; cbn [fst snd chain]; [done|].
  assert (w_files w !! name = None) as Hnone by (apply eq_None_not_Some; tauto).
  set (w1 := tick _). assert (w_files w1 = <[name := ""]> (w_files w)) as Hw1 by done. clearbody w1.
  assert (∀ e text w2, w_files w2 = <[name := text]> (w_files w) →
    wp (let! cleanupErr := Remove name in ret (Err (e cleanupErr))) (temp_written content (w_files w)) w2)
    as Habandon.
  { intros e text w2 H2. eapply wp_mono; [by eapply abandon_temp|]. by intros o w' [[err ->] H]. }
  apply wp_bind. destruct content as [text|err].
  - unfold wp at 1, Write, os_op. destruct (os_fault _ _ _); cbn [fst snd chain]; apply wp_Close.
    + intros o w2 Hw2. eapply Habandon. rewrite Hw2. cbn. by rewrite Hw1, insert_insert_eq.
    + intros [err|] w2 Hw2.
      * eapply Habandon. rewrite Hw2. cbn. by rewrite Hw1, insert_insert_eq.
      * split_and!; [done..|]. exists text. split; [done|]. cbn. rewrite Hw2. cbn.
        by rewrite Hw1, insert_insert_eq.
  - cbn [wp ret fst snd chain]. apply wp_Close. intros o w2 Hw2. eapply Habandon. by rewrite Hw2.
Qed.

(** A deferred removal takes the new file away again. *)
Context (Hremove : removals_succeed).

Lemma wp_cleaning {A} message name text files (m : M App (result goerror A)) w :
  files !! name = None → w_files w = <[name := text]> files → restores m →
  wp (cleaning message (Some name) m) (λ o w', o ≠ Blocked → w_files w' = files) w.
Proof.
  intros Hn Hw Hm. specialize (Hm w). unfold wp, cleaning, with_deferred, run_cleanup in *.
  destruct (m w) as [[a|p|] w1]; cbn [fst snd] in Hm; [| |done];
    (assert (w_files w1 = <[name := text]> files) as Hw1 by (by rewrite Hm));
    destruct (Remove_restores name text files w1 Hremove Hn Hw1) as [Ho Hf];
    destruct (Remove name w1) as [o w2]; cbn [fst snd] in *; by subst o.
Qed.

(** Write a temporary file, go on with it, remove it. *)
Lemma restores_temp {A} dir pattern content cf wf clf rep
    (k : result goerror (string * option string) → M App (result goerror A)) :
  (∀ name text, content = Ok text →
     ∃ message m, k (Ok (name, Some name)) = cleaning message (Some name) m ∧ restores m) →
  (∀ e, restores (k (Err e))) →
  restores (bind (write_temp dir pattern content cf wf clf rep) k).
Proof.
  intros Hok Herr w. apply wp_bind. eapply wp_mono; [apply write_temp_spec|].
  intros [[[name cleanup]|e]|p|] w1; cbn; [|by intros H; rewrite <-(H Hremove); apply Herr|done..].
  intros (-> & Hn & text & Htext & Hw1). destruct (Hok name text Htext) as (message & m & -> & Hm).
  by eapply wp_cleaning.
Qed.

Lemma restores_runValidationAndScore c ctx result repo request path config :
  restores (runValidationAndScore c ctx result repo request path config).
Proof.
  unfold runValidationAndScore. apply restores_bind; [apply restores_reads, reads_ReadFile|intros read].
  destruct (LoadPattern _ _) as [pattern|]; [|apply restores_reads, reads_ret].
  destruct (scoreContentFunctions _ _ _ _) as [[result' content]|]; [|apply restores_reads, reads_panic].
  apply restores_temp; [|intros e; apply restores_reads, reads_ret].
  intros name text _. do 2 eexists. split; [reflexivity|]. apply restores_reads.
  apply reads_bind; [apply reads_validate|]. pose proof reads_score.
  intros [[v [err|]]|]; reads_tac.
Qed.

Lemma restores_checkSynchronousLocked c ctx request repo config :
  restores (checkSynchronousLocked c ctx request repo config).
Proof.
  unfold checkSynchronousLocked.
  assert (∀ patternPath, restores
    (let! written := writeProposedContent c request in
     match written with
     | Err err => ret (Err err)
     | Ok (sourcePath, cleanup) =>
         cleaning "cleaning temporary source file" cleanup
           (let! analyzed := analyzeSource c ctx request repo sourcePath in
            match analyzed with
            | Err err => ret (routeAnalysisError err config)
            | Ok result =>
                let result := EnsureModuleMetric result in
                let result := set_File_CALMNode (req_File request)
                                (calmNodeForRequest request (ar_CALMNode result)) result in
                runValidationAndScore c ctx result repo request patternPath config
            end)
     end)) as Hinner.
  { intros patternPath. unfold writeProposedContent. case_match; [by intros w|].
    apply restores_temp; [|intros e; apply restores_reads, reads_ret].
    intros name text _. do 2 eexists. split; [reflexivity|].
    apply restores_bind; [apply restores_reads, reads_analyzeSource|].
    intros [r|err]; [apply restores_runValidationAndScore|apply restores_reads, reads_ret]. }
  unfold resolvePatternPath. case_match.
  - intros w. specialize (Hinner (chk_PatternPath c) w). revert Hinner.
    unfold wp, cleaning, with_deferred, run_cleanup, bind at 2, ret at 1. cbn.
    set (m := bind _ _). by destruct (m w) as [[r|p|] w1].
  - apply restores_temp; [|intros e; apply restores_reads, reads_ret].
    intros name text _. do 2 eexists. split; [reflexivity|]. apply Hinner.
Qed.

Lemma reads_unlockRepo h : reads (unlockRepo h).
Proof. unfold unlockRepo. reads_tac. Qed.
Lemma reads_LockRepo ctx repo : reads (LockRepo ctx repo).
Proof.
  unfold LockRepo. apply reads_bind; [apply reads_access|]. intros h w. unfold acquireRepoPermit.
  destruct (exec _ _), (ctx_done ctx) as [[t reason]|]; try done. by destruct (_ && _).
Qed.
Lemma restores_holding {A} h (m : M App A) : restores m → restores (holding h m).
Proof.
  intros Hm w. specialize (Hm w). unfold wp, holding, with_deferred in *.
  destruct (m w) as [[a|p|] w1]; cbn [fst snd] in Hm; [| |done];
    pose proof (reads_unlockRepo h w1) as Hu;
    destruct (unlockRepo h w1) as [[b|q|] w2]; cbn in *; rewrite ?Hu; auto.
Qed.

Lemma restores_checkSynchronous c ctx request repo config :
  restores (checkSynchronous c ctx request repo config).
Proof.
  unfold checkSynchronous. pose proof (restores_checkSynchronousLocked c ctx request repo config).
  case_match; [done|]. apply restores_bind; [apply restores_reads, reads_LockRepo|].
  intros [h|err]; [by apply restores_holding|apply restores_reads, reads_ret].
Qed.
Lemma reads_checkCSharpEarlyOut request repo : reads (checkCSharpEarlyOut request repo).
Proof. unfold checkCSharpEarlyOut, state_access. reads_tac. Qed.
Lemma restores_checkCSharpWarmup c ctx request repo config h :
  restores (checkCSharpWarmup c ctx request repo config h).
Proof.
  unfold checkCSharpWarmup, startDeferredCheck. case_match; [|apply restores_reads; reads_tac].
  apply restores_holding, restores_bind; [apply restores_checkSynchronousLocked|].
  intros [r|err]; apply restores_reads; reads_tac.
Qed.
Lemma restores_checkCSharpWithLock c ctx request repo config :
  restores (checkCSharpWithLock c ctx request repo config).
Proof.
  unfold checkCSharpWithLock.
  pose proof (λ h, restores_holding h _ (restores_checkSynchronousLocked c ctx request repo config)).
  apply restores_bind; [apply restores_reads, reads_LockRepo|].
  intros [h|err]; [|apply restores_reads, reads_ret].
  apply restores_bind; [apply restores_reads; reads_tac|intros warm]. destruct warm; [done|].
  apply restores_bind; [apply restores_reads, reads_checkCSharpEarlyOut|].
  intros [r|]; [apply restores_reads; pose proof reads_unlockRepo; reads_tac|].
  apply restores_bind; [apply restores_reads, reads_access|intros begun].
  destruct begun; [apply restores_checkCSharpWarmup|done].
Qed.

(** C37: when removals succeed, a check that does not hang leaves the file system
    exactly as it found it, however it ends and whatever else fails, analyzer
    panics included: the temporary source, pattern and architecture files are
    all gone. *)
Theorem Check_restores_files c ctx request : restores (Check c ctx request).
Proof.
  unfold Check. case_match; [apply restores_reads, reads_ret|].
  apply restores_bind; [apply restores_reads; reads_tac|].
  intros [[config repo]|err]; [|apply restores_reads, reads_ret].
  case_match; [apply restores_reads, reads_ret|]. case_match; [apply restores_reads; reads_tac|].
  pose proof (restores_checkSynchronous c ctx request repo config).
  case_match; [|done]. unfold checkWithCSharpWarmGuard.
  apply restores_bind; [apply restores_reads, reads_checkCSharpEarlyOut|].
  intros [r|]; [apply restores_reads, reads_ret|].
  apply restores_bind; [apply restores_reads; reads_tac|intros warm].
  destruct warm; [done|apply restores_checkCSharpWithLock].
Qed.
End files.

(** ** Every verdict is earned *)

Section verdicts.
Context {R : RegexpEngine} {O : GoMapOrder} {U : UnicodeTables} {J : JsonErrorText}
        {E : OSEnv} {T : Toolchain} {I : Interference App}.

(** The analyzer of the checker gave [r] on a file holding the proposed content. *)
Definition proposed_analysis (c : Checker) (request : ValidationRequest) (repo : string)
    (r : result goerror AnalysisResult) : Prop :=
  ∃ ctx path (w w' : world App), w_files w !! path = Some (req_ProposedContent request) ∧
    analyzeSource c ctx request repo path w = (Returned r, w').

(** The pattern in force: the embedded one unless the checker names a file. *)
Definition governed_by (c : Checker) (pattern : Pattern) : Prop :=
  if String.eqb (chk_PatternPath c) "" then pattern = governance_pattern
  else ∃ content, parsePattern (chk_PatternPath c) content = Ok pattern.

Definition normalized (request : ValidationRequest) (result : AnalysisResult) : AnalysisResult :=
  let r := EnsureModuleMetric result in
  set_File_CALMNode (req_File request) (calmNodeForRequest request (ar_CALMNode r)) r.

(** The proposed content was analyzed and scores [vs]. *)
Definition scored (c : Checker) (request : ValidationRequest) (config : Config) (repo : string)
    (vs : list Violation) : Prop :=
  ∃ result pattern result' content,
    proposed_analysis c request repo (Ok result) ∧ governed_by c pattern ∧
    scoreContentFunctions (normalized request result) request config pattern = Some (result', content) ∧
    vs = all_violations result' pattern content config.

(** The shared state while a check of [request] on [repo] runs that found it as [a0]:
    what other goroutines make of it, and the updates of the check itself. *)
Inductive reaches (request : ValidationRequest) (repo : string) (a0 : App) : App → Prop :=
| reaches_first : reaches request repo a0 a0
| reaches_others t a : reaches request repo a0 a → reaches request repo a0 (interfere t a)
| reaches_replace vs a : Forall (λ v, v_File v = req_File request) vs → reaches request repo a0 a →
    reaches request repo a0 (on_state (led_ReplaceFile (newViolationLedger (req_DryRun request)) repo (req_File request) vs) a)
| reaches_clear a : reaches request repo a0 a →
    reaches request repo a0 (on_state (led_ClearRepo (newViolationLedger (req_DryRun request)) repo) a)
| reaches_lock act a : reaches request repo a0 a → reaches request repo a0 (lock_action act a)
| reaches_warmup f g a : reaches request repo a0 a →
    reaches request repo a0 (on_state (λ s, mkState (st_violations s) (f s) (g s)) a)
| reaches_job j a : reaches request repo a0 a → reaches request repo a0 (spawn_job j a).
#[local] Instance reaches_kept request repo a0 : KeptByOthers I (reaches request repo a0) := reaches_others request repo a0.

(** The blackboard that is read after the check made an update of one it had before it;
    others may act in between. *)
Definition read_after (seen : App → Prop) (update : State → State) (s : State) : Prop :=
  ∃ t t' a, seen a ∧ s = app_state (interfere t' (on_state update (interfere t a))).

(** The reasons for a verdict; [seen] are the states the check may have found. *)
Inductive justified (seen : App → Prop) (c : Checker) (request : ValidationRequest) (config : Config) (repo : string) :
  ValidationResult → Prop :=
| by_exclusion : IsExcluded config (req_File request) = true →
    justified seen c request config repo (verdict StatusPass [])
| by_mode_off : cfg_EnforcementMode config = EnforcementOff →
    justified seen c request config repo (verdict StatusPass [])
| by_warming : req_Language request = "csharp" → cfg_EnforcementMode config = EnforcementBlock →
    chk_BlockOnWarmup c = false →
    justified seen c request config repo (mkResult StatusPass true [])
| by_other_files s : req_Language request = "csharp" → cfg_EnforcementMode config = EnforcementBlock →
    read_after seen (λ s, (TakeWarmupFailure "csharp" s).2) s →
    hasOtherFileViolation (Violations repo s) (req_File request) = true →
    justified seen c request config repo (verdict StatusBlock (Violations repo s))
| by_error_policy err status : proposed_analysis c request repo (Err err) →
    error_kind err ≠ Some ErrorKindInput →
    (cfg_EnforcementOnError config, status) ∈
      [(EnforcementOnErrorAdvisory, StatusAdvisory); (EnforcementOnErrorPass, StatusPass)] →
    justified seen c request config repo (verdict status [])
| by_clean_score : scored c request config repo [] →
    justified seen c request config repo (verdict StatusPass [])
| by_outstanding s outstanding : scored c request config repo [] →
    cfg_EnforcementMode config = EnforcementBlock → outstanding ≠ [] →
    read_after seen (led_ReplaceFile (newViolationLedger (req_DryRun request)) repo (req_File request) []) s →
    outstanding = led_OutstandingAfter (newViolationLedger (req_DryRun request)) repo (req_File request) [] s →
    justified seen c request config repo (verdict StatusBlock outstanding)
| by_advice vs : scored c request config repo vs → vs ≠ [] →
    cfg_EnforcementMode config = EnforcementAdvisory →
    justified seen c request config repo (verdict StatusAdvisory vs)
| by_violations vs s : scored c request config repo vs → vs ≠ [] →
    cfg_EnforcementMode config ≠ EnforcementAdvisory →
    read_after seen (led_ReplaceFile (newViolationLedger (req_DryRun request)) repo (req_File request) vs) s →
    justified seen c request config repo
      (verdict StatusBlock
         (led_OutstandingAfter (newViolationLedger (req_DryRun request)) repo (req_File request) vs s)).

(** [Q] holds of every verdict returned. *)
Definition gives {A} (Q : A → Prop) (m : M App (result goerror A)) (w : world App) : Prop :=
  wp m (λ o _, match o with Returned (Ok r) => Q r | _ => True end) w.

Lemma gives_err {A} (Q : A → Prop) e w : gives Q (ret (Err e)) w.
Proof. done. Qed.
Lemma gives_bind {A B} (Q : A → Prop) (m : M App B) k w :
  wp m (λ o w', match o with Returned b => gives Q (k b) w' | _ => True end) w → gives Q (bind m k) w.
Proof.
  intros H. unfold gives. apply wp_bind. eapply wp_mono; [exact H|]. by intros [b|p|] w'.
Qed.
Lemma gives_then {A B} (Q : A → Prop) (m : M App B) k w :
  (∀ b w', gives Q (k b) w') → gives Q (bind m k) w.
Proof. intros H. apply gives_bind. unfold wp. destruct (m w).1; [apply H|done..]. Qed.
Lemma gives_deferred {A B} (Q : A → Prop) (m : M App (result goerror A)) (d : M App B) f w :
  (∀ r b, match f r b with Ok x => r = Ok x | Err _ => True end) →
  gives Q m w → gives Q (with_deferred m d f) w.
Proof.
  intros Hf Hm. unfold gives, wp, with_deferred in *.
  destruct (m w) as [[r|p|] w1]; cbn in Hm; [| |done].
  - destruct (d w1) as [[b|q|] w2]; cbn; [|done..]. specialize (Hf r b).
    destruct (f r b); [|done]. by subst r.
  - by destruct (d w1) as [[b|q|] w2].
Qed.
Lemma gives_cleaning {A} (Q : A → Prop) message cleanup (m : M App (result goerror A)) w :
  gives Q m w → gives Q (cleaning message cleanup m) w.
Proof. apply gives_deferred. intros [x|e] [b|]; done. Qed.
Lemma gives_holding {A} (Q : A → Prop) h (m : M App (result goerror A)) w :
  gives Q m w → gives Q (holding h m) w.
Proof. apply gives_deferred. by intros [x|e] b. Qed.
Lemma gives_get {A B} (Q : A → Prop) (f : State → B) k w :
  (∀ s w', gives Q (k (f s)) w') → gives Q (bind (state_get f) k) w.
Proof. intros H. apply gives_bind. unfold wp, state_get, get, access. cbn. apply H. Qed.

Definition yields {A} (Q : A → Prop) (o : outcome A) (w : world App) : Prop :=
  match o with Returned r => Q r | _ => True end.

(** The file the pattern is read from. *)
Definition pattern_file (c : Checker) (path : string) (w : world App) : Prop :=
  if String.eqb (chk_PatternPath c) "" then w_files w !! path = Some GovernanceJSON
  else path = chk_PatternPath c.

Lemma governed_by_file c path read w w' pattern :
  pattern_file c path w → ReadFile path w = (Returned read, w') →
  LoadPattern (λ _, read) path = Ok pattern → governed_by c pattern.
Proof.
  unfold pattern_file, governed_by, LoadPattern, ReadFile, os_op. intros Hp Hr Hl.
  destruct read as [content|]; [|done].
  destruct (String.eqb (chk_PatternPath c) ""); [|subst; eauto].
  destruct (os_fault _ _ _); [done|]. rewrite Hp in Hr. injection Hr as <- _.
  rewrite governance_loads in Hl. by injection Hl as <-.
Qed.

(** The rest of a run that keeps what is seen. *)
Section seen.
Context (request : ValidationRequest) (repo : string) (a0 : App).
#[local] Abbreviation seen := (reaches request repo a0).
#[local] Abbreviation just := (justified seen).

Lemma wp_seen {A} (m : M App A) (Q : outcome A → world App → Prop) w :
  keeps seen m → seen (w_app w) → wp m Q w → wp m (λ o w', Q o w' ∧ seen (w_app w')) w.
Proof. intros Hm Hw HQ. apply wp_and; [done|by apply wp_keeps]. Qed.
Lemma gives_on {A B} (Q : A → Prop) (m : M App B) k w :
  keeps seen m → seen (w_app w) → (∀ b w', seen (w_app w') → gives Q (k b) w') → gives Q (bind m k) w.
Proof.
  intros Hm Hw Hk. apply gives_bind. eapply wp_mono; [by apply (wp_keeps seen)|]. intros [b|p|] w' H; [by apply Hk|done..].
Qed.

Lemma justified_scoreClean c config w : seen (w_app w) →
  scored c request config repo [] →
  wp (scoreClean repo (req_File request) config (newViolationLedger (req_DryRun request)))
    (yields (just c request config repo)) w.
Proof.
  intros Hw Hs. unfold scoreClean.
  destruct (String.eqb_spec (cfg_EnforcementMode config) EnforcementBlock) as [Hm|Hm]; [|by apply by_clean_score].
  unfold wp, bind, state_modify, modify, state_get, get, access. cbn -[led_OutstandingAfter led_ReplaceFile on_state].
  match goal with |- context [led_OutstandingAfter ?l ?r ?f [] ?s] =>
    pose proof (by_outstanding seen c request config repo s (led_OutstandingAfter l r f [] s) Hs Hm) as Hj;
    destruct (led_OutstandingAfter l r f [] s) end; cbn; [by apply by_clean_score|].
  apply Hj; [done| |done]. by eexists _, _, (w_app w).
Qed.

Lemma justified_scoreDirty c vs config w : seen (w_app w) →
  scored c request config repo vs → vs ≠ [] →
  wp (scoreDirty repo (req_File request) vs config (newViolationLedger (req_DryRun request)))
    (yields (just c request config repo)) w.
Proof.
  intros Hw Hs Hvs. unfold scoreDirty.
  destruct (String.eqb_spec (cfg_EnforcementMode config) EnforcementAdvisory) as [Hm|Hm]; [by apply by_advice|].
  unfold wp, bind, state_modify, modify, state_get, get, access. cbn -[led_OutstandingAfter led_ReplaceFile on_state].
  apply by_violations; [done..|]. by eexists _, _, (w_app w).
Qed.

Lemma gives_score c result content pattern config w : seen (w_app w) →
  scored c request config repo (all_violations result pattern content config) →
  gives (just c request config repo) (score result repo request content pattern config) w.
Proof.
  intros Hw Hs. unfold score. apply gives_bind.
  eapply (wp_mono _ (yields (just c request config repo))); [|by intros [r|p|] w'].
  destruct (all_violations _ _ _ _) eqn:Hvs;
    [by apply justified_scoreClean|by apply justified_scoreDirty].
Qed.

Lemma gives_runValidationAndScore c ctx result path config w : seen (w_app w) →
  pattern_file c path w → proposed_analysis c request repo (Ok result) →
  gives (just c request config repo)
    (runValidationAndScore c ctx (normalized request result) repo request path config) w.
Proof.
  intros Hw Hp Ha. unfold runValidationAndScore. apply gives_bind.
  pose proof (keeps_ReadFile seen path w Hw) as Hw1. unfold wp.
  destruct (ReadFile path w) as [[read|p|] w1] eqn:Hr; cbn in Hw1 |- *; [|done..].
  destruct (LoadPattern _ _) as [pattern|] eqn:Hl; [|done].
  pose proof (governed_by_file _ _ _ _ _ _ Hp Hr Hl) as Hg.
  destruct (scoreContentFunctions _ _ _ _) as [[result' content]|] eqn:Hs; [|done].
  apply gives_on; [apply (keeps_write_temp seen)|done|]. intros [[a cleanup]|err] w2 Hw2; [|done].
  apply gives_cleaning, gives_on; [apply (keeps_validate seen)|done|].
  assert (∀ w, seen (w_app w) → gives (just c request config repo) (score result' repo request content pattern config) w)
    as Hscore.
  { intros w0 Hw0. apply gives_score; [done|]. by exists result, pattern, result', content. }
  intros [[v [err|]]|] w3 Hw3; [destruct (negb _); [done|by apply Hscore]|by apply Hscore|done].
Qed.

Lemma justified_route c config err w :
  proposed_analysis c request repo (Err err) →
  gives (just c request config repo) (ret (routeAnalysisError err config)) w.
Proof.
  intros Ha. unfold gives, wp, routeAnalysisError. cbn.
  destruct (errors_as_check err) as [[[kind m] inner]|] eqn:Hk; [|done].
  case_decide as Hin; [done|].
  assert (error_kind err ≠ Some ErrorKindInput) as Hne by (unfold error_kind; rewrite Hk; congruence).
  destruct (String.eqb_spec (cfg_EnforcementOnError config) EnforcementOnErrorAdvisory) as [He|];
    [apply (by_error_policy _ _ _ _ _ err); [done..|rewrite He; set_solver]|].
  destruct (String.eqb_spec (cfg_EnforcementOnError config) EnforcementOnErrorPass) as [He|];
    [apply (by_error_policy _ _ _ _ _ err); [done..|rewrite He; set_solver]|done].
Qed.

Lemma gives_checkSynchronousLocked c ctx config w : seen (w_app w) →
  gives (just c request config repo) (checkSynchronousLocked c ctx request repo config) w.
Proof.
  intros Hw. unfold checkSynchronousLocked. apply gives_bind.
  eapply (wp_mono _ (λ o w', match o with
                             | Returned (Ok (path, _)) => pattern_file c path w'
                             | _ => True end ∧ seen (w_app w'))).
  { apply wp_seen; [unfold resolvePatternPath; pose proof (keeps_write_temp seen); keeps_tac|done|].
    unfold resolvePatternPath, pattern_file.
    destruct (String.eqb (chk_PatternPath c) "") eqn:He; cbn [negb]; [|done].
    eapply wp_mono; [apply write_temp_spec|]. intros [[[name cl]|e]|p|] w'; try done.
    intros (_ & _ & text & [= <-] & ->). by rewrite lookup_insert_eq. }
  intros [[[path cl]|e]|p|] w1 [Hp Hw1]; [|done..]. apply gives_cleaning, gives_bind.
  unfold writeProposedContent. case_match; [done|].
  eapply wp_mono; [apply wp_seen; [apply (keeps_write_temp seen)|done|apply write_temp_spec]|]. intros [[[src cl']|e]|p|] w2; try done.
  intros [(_ & Hfree & text & [= <-] & Hfiles) Hw2]. apply gives_cleaning, gives_bind.
  pose proof (keeps_analyzeSource seen request repo c ctx src w2 Hw2) as Hw3. unfold wp.
  pose proof (reads_analyzeSource c ctx request repo src w2) as Hreads.
  destruct (analyzeSource c ctx request repo src w2) as [[r|p|] w3] eqn:Ha; cbn in Hw3 |- *; [|done..].
  assert (proposed_analysis c request repo r) as Hr.
  { exists ctx, src, w2, w3. split; [|done]. by rewrite Hfiles, lookup_insert_eq. }
  destruct r as [result|err]; [|by apply justified_route].
  apply gives_runValidationAndScore; [done| |done]. unfold pattern_file in *.
  destruct (String.eqb _ _); [|done]. unfold same_files in Hreads. cbn in Hreads.
  rewrite Hreads, Hfiles, lookup_insert_ne; [done|]. intros ->. congruence.
Qed.

Lemma gives_checkSynchronous c ctx config w : seen (w_app w) →
  gives (just c request config repo) (checkSynchronous c ctx request repo config) w.
Proof.
  intros Hw. unfold checkSynchronous. case_match; [by apply gives_checkSynchronousLocked|].
  apply gives_on; [apply (keeps_LockRepo seen), reaches_lock|done|].
  intros [h|err] w1 Hw1; [|done]. by apply gives_holding, gives_checkSynchronousLocked.
Qed.

(** An early answer of the warm-up guard. *)
Lemma yields_early c config w : seen (w_app w) →
  req_Language request = "csharp" → cfg_EnforcementMode config = EnforcementBlock →
  wp (checkCSharpEarlyOut request repo)
    (yields (λ r, match r with Some (Ok v) => just c request config repo v | _ => True end)) w.
Proof.
  intros Hw Hl Hm. unfold checkCSharpEarlyOut. apply wp_bind. unfold wp at 1, state_access, access.
  destruct (TakeWarmupFailure _ _) as [[message|] s] eqn:Ht; cbn [fst snd chain]; [done|].
  unfold wp, bind, state_get, get, access. cbn.
  destruct (hasOtherFileViolation _ _) eqn:Hh; cbn; [|done]. apply by_other_files; [done..| |done].
  eexists _, _, (w_app w). split; [done|]. unfold on_state. rewrite Ht. reflexivity.
Qed.

Lemma gives_early c config w k : seen (w_app w) →
  req_Language request = "csharp" → cfg_EnforcementMode config = EnforcementBlock →
  (∀ w', seen (w_app w') → gives (just c request config repo) (k None) w') →
  (∀ r w', seen (w_app w') → match r with Ok v => just c request config repo v | Err _ => True end →
     gives (just c request config repo) (k (Some r)) w') →
  gives (just c request config repo) (bind (checkCSharpEarlyOut request repo) k) w.
Proof.
  intros Hw Hl Hm Hnone Hsome. apply gives_bind.
  eapply wp_mono; [apply wp_seen; [apply (keeps_checkCSharpEarlyOut seen), reaches_warmup|done|by apply (yields_early c config)]|].
  intros [[[v|e]|]|p|] w1 [H Hw1]; cbn in H; try done; [by apply Hsome..|by apply Hnone].
Qed.

Lemma gives_checkCSharpWithLock c ctx config w : seen (w_app w) →
  req_Language request = "csharp" → cfg_EnforcementMode config = EnforcementBlock →
  gives (just c request config repo) (checkCSharpWithLock c ctx request repo config) w.
Proof.
  intros Hw Hl Hm. unfold checkCSharpWithLock. pose proof (gives_checkSynchronousLocked c ctx config).
  apply gives_on; [apply (keeps_LockRepo seen), reaches_lock|done|]. intros [h|err] w1 Hw1; [|done].
  apply gives_on; [apply (keeps_state_get seen)|done|]. intros warm w2 Hw2.
  destruct warm; [by apply gives_holding; auto|]. apply gives_early; [done..| |].
  - intros w3 Hw3. apply gives_on; [apply (keeps_BeginWarmup seen), reaches_warmup|done|]. intros begun w4 Hw4.
    destruct begun; [|by apply gives_holding; auto].
    unfold checkCSharpWarmup. case_match eqn:Hb; [|by apply by_warming].
    apply gives_holding, gives_bind. eapply wp_mono; [by apply gives_checkSynchronousLocked|].
    intros [[v|e]|p|] w5 Hv; try done; apply gives_then; by intros.
  - intros r w3 Hw3 Hr. apply gives_then. intros _ w4. by destruct r.
Qed.

(** The check from the moment it has its configuration. *)
Lemma gives_configured c ctx config w : seen (w_app w) →
  gives (just c request config repo)
    (if IsExcluded config (req_File request) then ret (Ok (verdict StatusPass []))
     else if String.eqb (cfg_EnforcementMode config) EnforcementOff then
       let! _ := state_modify (led_ClearRepo (newViolationLedger (req_DryRun request)) repo) in
       ret (Ok (verdict StatusPass []))
     else if String.eqb (req_Language request) "csharp" && String.eqb (cfg_EnforcementMode config) EnforcementBlock
     then checkWithCSharpWarmGuard c ctx request repo config
     else checkSynchronous c ctx request repo config) w.
Proof.
  intros Hw. destruct (IsExcluded _ _) eqn:Hx; [by apply by_exclusion|].
  destruct (String.eqb_spec (cfg_EnforcementMode config) EnforcementOff) as [Hoff|];
    [by apply by_mode_off|].
  destruct (String.eqb_spec (req_Language request) "csharp") as [Hl|]; [|by apply gives_checkSynchronous].
  destruct (String.eqb_spec (cfg_EnforcementMode config) EnforcementBlock) as [Hm|];
    [|by apply gives_checkSynchronous].
  cbn [andb]. unfold checkWithCSharpWarmGuard. apply gives_early; [done..| |by intros [] w1 _ Hr].
  intros w1 Hw1. apply gives_on; [apply (keeps_state_get seen)|done|]. intros warm w2 Hw2.
  destruct warm; [by apply gives_checkSynchronous|by apply gives_checkCSharpWithLock].
Qed.
End seen.

(** The store a check that starts in [w] reads: the one of [w], after what other
    goroutines did to it up to that access. *)
Definition store_read (w : world App) : ConfigStore := app_store (interfere (w_clock w) (w_app w)).

Lemma Check_justified c ctx request w r w' :
  Check c ctx request w = (Returned (Ok r), w') →
  chk_ConfigStore c = true ∧
  ∃ config repo, loadConfig (Some (store_read w)) (req_Repo request) = Ok (config, repo) ∧
    justified (reaches request repo (w_app w)) c request config repo r.
Proof.
  intros H. enough (gives (λ r, chk_ConfigStore c = true ∧ ∃ config repo,
    loadConfig (Some (store_read w)) (req_Repo request) = Ok (config, repo) ∧
    justified (reaches request repo (w_app w)) c request config repo r) (Check c ctx request) w) as Hg.
  { unfold gives, wp in Hg. by rewrite H in Hg. }
  clear H. unfold Check. case_match; [done|]. apply gives_bind. unfold wp, get, access. cbn.
  destruct (loadConfig _ _) as [[config repo]|err] eqn:Hload; [|done].
  destruct (chk_ConfigStore c) eqn:Hstore; [|done]. change (app_store _) with (store_read w) in Hload.
  eapply wp_mono; [apply (gives_configured request repo (w_app w))|].
  - cbn. apply reaches_others, reaches_first.
  - intros [[v|e]|p|] w1; try done. eauto.
Qed.

(** Whatever fails and whatever runs concurrently, every verdict a check
    returns is earned: the store it read holds a valid configuration of the
    repository, and the verdict has one of the listed reasons, a scored analysis of
    exactly the proposed content under the pattern in force among them, and the
    blackboard as it was read after the update of the check. *)
Theorem Check_verdict_justified c ctx request w r w'
    (H : Check c ctx request w = (Returned (Ok r), w')) :
  ∃ config repo, loadConfig (Some (store_read w)) (req_Repo request) = Ok (config, repo) ∧
    justified (reaches request repo (w_app w)) c request config repo r.
Proof. by eapply Check_justified. Qed.

(** C9: fail-closed: a check that passes, and not as a C# warm-up, loaded the
    configuration of the repository from the store as it stood at its first access;
    if that configuration blocks, also on errors, and does not exclude the file, the
    analyzer succeeded on the proposed content and no enabled fitness function is
    violated.  What fails and what else runs is arbitrary. *)
Theorem Check_pass_means_clean c ctx request w r w'
    (H : Check c ctx request w = (Returned (Ok r), w'))
    (Hpass : res_Status r = StatusPass) (Hwarm : res_Warming r = false) :
  ∃ config repo, loadConfig (Some (store_read w)) (req_Repo request) = Ok (config, repo) ∧
    (cfg_EnforcementMode config = EnforcementBlock →
     cfg_EnforcementOnError config = EnforcementOnErrorBlock →
     IsExcluded config (req_File request) = false → scored c request config repo []).
Proof.
  destruct (Check_justified _ _ _ _ _ _ H) as (_ & config & repo & Hload & Hj).
  exists config, repo. split; [done|]. intros Hm He Hx.
  destruct Hj as [|Hoff| | | err status Ha Hk Hin| | | |]; cbn in *; try done; try congruence.
  - by rewrite Hm in Hoff.
  - rewrite He in Hin. set_solver.
Qed.
End verdicts.

(** ** The check computes the reference verdict *)

(** What a check is meant to do to the blackboard and to answer, given the
    violations [vs] of the proposed file. *)
Definition reference_verdict {R : RegexpEngine} (config : Config) (repo file : string)
    (vs : list Violation) (s : State) : ValidationResult :=
  if String.eqb (cfg_EnforcementMode config) EnforcementBlock then
    match sortViolations (filter (λ v, v_File v ≠ file) (Violations repo s) ++ vs) with
    | [] => verdict StatusPass []
    | outstanding => verdict StatusBlock outstanding
    end
  else match vs with [] => verdict StatusPass [] | _ => verdict StatusAdvisory vs end.

Definition reference_ledger {R : RegexpEngine} (config : Config) (repo file : string)
    (vs : list Violation) (dry : bool) (b : blackboard) : blackboard :=
  if dry then b
  else spec_op b (if String.eqb (cfg_EnforcementMode config) EnforcementBlock
                  then OpReplace repo file vs else OpClear repo).

Section reference.
Context {R : RegexpEngine} {O : GoMapOrder} {U : UnicodeTables} {J : JsonErrorText}
        {E : OSEnv} {T : Toolchain}.
#[local] Existing Instances alone kept_alone.

(** An operating system without faults, and temporary names that are free. *)
Context (w0 : world App).
Record calm_os : Prop := mkCalmOS {
  no_faults : ∀ t op path, os_fault t op path = None;
  free_names : ∀ t dir pattern, w_files w0 !! os_temp_name t dir pattern = None ∧
                                os_temp_name t dir pattern ∉ w_dirs w0;
  new_names : ∀ t t' dir pattern dir' pattern', t ≠ t' →
                os_temp_name t dir pattern ≠ os_temp_name t' dir' pattern';
}.

(** A world that differs from the initial one by temporary files only. *)
Record during (temps : list string) (w : world App) : Prop := mkDuring {
  during_app : w_app w = w_app w0;
  during_dirs : w_dirs w = w_dirs w0;
  during_files : ∀ path, path ∉ temps → w_files w !! path = w_files w0 !! path;
  during_temps : ∀ path, path ∈ temps → ∃ t dir pattern, path = os_temp_name t dir pattern ∧ (t < w_clock w)%nat;
}.

Lemma during_tick temps w : during temps w → during temps (tick w).
Proof.
  intros [? ? ? Ht]. constructor; try done. intros path Hp.
  destruct (Ht path Hp) as (t & d & p & -> & Hlt). exists t, d, p. split; [done|]. cbn. lia.
Qed.

Lemma during_start : during [] (tick w0).
Proof. constructor; try done. intros path []%elem_of_nil. Qed.

Context (Hos : calm_os).

Lemma temp_during temps dir pattern text cf wf clf rep w :
  during temps w →
  ∃ name w', write_temp dir pattern (Ok text) cf wf clf rep w = (Returned (Ok (name, Some name)), w') ∧
    w_files w !! name = None ∧ (name ∉ temps) ∧
    w_files w' = <[name := text]> (w_files w) ∧ during (name :: temps) w'.
Proof.
  intros Hd. destruct Hos as [Hf Hfree Hnew]. set (name := os_temp_name (w_clock w) dir pattern).
  assert (name ∉ temps) as Hn.
  { intros Hin. destruct (during_temps _ _ Hd _ Hin) as (t & d & p & Heq & Hlt).
    apply (Hnew (w_clock w) t dir pattern d p); [lia|done]. }
  assert (w_files w !! name = None) as Hnone.
  { rewrite (during_files _ _ Hd) by done. apply Hfree. }
  assert (name ∉ w_dirs w) as Hdirs by (rewrite (during_dirs _ _ Hd); apply Hfree).
  exists name. eexists. split.
  - unfold write_temp, bind, CreateTemp, Write, Close, os_op. rewrite !Hf.
    fold name. rewrite decide_False by (intros [[x Hx]|?]; congruence). cbn.
    by rewrite !Hf.
  - split_and!; [done..| |].
    + cbn. by rewrite insert_insert_eq.
    + destruct Hd as [Happ Hdir Hfiles Htemps]. constructor; cbn; try done.
      * intros path [Hne Hp]%not_elem_of_cons. rewrite insert_insert_eq, lookup_insert_ne by done. auto.
      * intros path [->|Hp]%elem_of_cons; [exists (w_clock w), dir, pattern; split; [done|lia]|].
        destruct (Htemps path Hp) as (t & d & p & -> & Hlt). exists t, d, p. split; [done|lia].
Qed.

#[local] Opaque governance_pattern GovernanceJSON.

(** The world once a temporary file is removed. *)
Definition removed (name : string) (w : world App) : world App :=
  tick (set_files (delete name (w_files w)) w).

Lemma cleaning_calm {A} message name text (m : M App (result goerror A)) r w w1 :
  m w = (Returned r, w1) → w_files w1 !! name = Some text →
  cleaning message (Some name) m w = (Returned r, removed name w1).
Proof.
  intros Hm Hn. unfold cleaning, with_deferred, run_cleanup, Remove, os_op.
  by rewrite Hm, (no_faults Hos), Hn.
Qed.

(** The parts of the check that only look. *)
Definition looks {A} (m : M App A) (Q : A → Prop) (w : world App) : Prop :=
  ∃ a w', m w = (Returned a, w') ∧ Q a ∧ w_app w' = w_app w ∧ w_dirs w' = w_dirs w ∧
    w_files w' = w_files w ∧ (w_clock w ≤ w_clock w')%nat.

Lemma looks_during {A} (m : M App A) Q temps w :
  looks m Q w → during temps w →
  ∃ a w', m w = (Returned a, w') ∧ Q a ∧ during temps w' ∧ w_files w' = w_files w.
Proof.
  intros (a & w' & Hm & HQ & Ha & Hd & Hf & Hc) [Happ Hdirs Hfiles Htemps].
  exists a, w'. split_and!; try done. constructor; try congruence.
  - intros path Hp. rewrite Hf. auto.
  - intros path Hp. destruct (Htemps path Hp) as (t & d & p & -> & Hlt). exists t, d, p. split; [done|lia].
Qed.

Lemma looks_bind {A B} (m : M App A) (k : A → M App B) Q Q' w :
  looks m Q w → (∀ a w', Q a → w_files w' = w_files w → looks (k a) Q' w') → looks (bind m k) Q' w.
Proof.
  intros (a & w1 & Hm & HQ & Ha & Hd & Hf & Hc) Hk.
  destruct (Hk a w1 HQ Hf) as (b & w2 & Hk2 & HQ' & Ha2 & Hd2 & Hf2 & Hc2).
  exists b, w2. unfold bind. rewrite Hm. split_and!; try congruence. lia.
Qed.
Lemma looks_ret {A} (a : A) (Q : A → Prop) w : Q a → looks (ret a) Q w.
Proof. intros Ha. exists a, w. by split_and!. Qed.
Lemma looks_Now w : looks Now (λ _, True) w.
Proof. eexists _, (tick w). split_and!; try done. cbn. lia. Qed.
Lemma looks_ctx_Err ctx w : ctx_done ctx = None → looks (ctx_Err ctx) (λ e, e = None) w.
Proof.
  intros Hc. unfold ctx_Err. eapply looks_bind; [apply looks_Now|]. intros now w' _ _.
  apply looks_ret. unfold ctx_err_at. by rewrite Hc.
Qed.
Lemma looks_Stat path w : looks (Stat path) (λ _, True) w.
Proof.
  unfold looks, Stat, os_op. rewrite (no_faults Hos). eexists _, (tick w). split_and!; try done. cbn. lia.
Qed.
Lemma looks_call {A} (f : external A) (Q : A → Prop) w :
  (∃ a, f (w_clock w) (w_files w) (w_dirs w) = Returned a ∧ Q a) → looks (call f) Q w.
Proof.
  intros (a & Hf & Ha). exists a, (tick w). unfold call. rewrite Hf. split_and!; try done. cbn. lia.
Qed.
Lemma looks_ReadFile path content w :
  w_files w !! path = Some content → looks (ReadFile path) (λ r, r = Ok content) w.
Proof.
  intros Hp. unfold looks, ReadFile, os_op. rewrite (no_faults Hos), Hp.
  eexists _, (tick w). split_and!; try done. cbn. lia.
Qed.

(** A checker with a working analyzer and validator and no time limits. *)
Context (c : Checker) (ctx : context) (request : ValidationRequest) (f : SourceAnalyzer)
        (v : Validator) (result : AnalysisResult).
Record calm_checker : Prop := mkCalmChecker {
  has_analyzer : chk_Analyzers c !! req_Language request = Some (Value f);
  has_validator : chk_Validator c = Value v;
  has_no_pattern : chk_PatternPath c = "";
  has_permits : (0 < chk_ConcurrencyPermits c)%Z;
  has_state : chk_State c = true;
  has_store : chk_ConfigStore c = true;
  no_limit : (chk_AnalyzerTimeout c ≤ 0)%Z;
  no_deadline : ctx_done ctx = None;
  analyzes : ∀ ctx rq t files dirs,
    files !! arq_TempPath rq = Some (req_ProposedContent request) →
    f ctx rq t files dirs = Returned (Ok result);
  validates : ∀ ctx a p t files dirs, ∃ r, v ctx a p t files dirs = Returned (r, None);
  source_name : validSourceExtension (if String.eqb (path_ext (req_File request)) "" then ".go"
                                      else path_ext (req_File request)) = true;
}.
Context (Hc : calm_checker).

Lemma has_sourceAnalyzer :
  sourceAnalyzer c (req_Language request) = Some (λ ctx rq, call (f ctx rq)).
Proof using Hc.
  unfold sourceAnalyzer. pose proof (has_analyzer Hc) as H. unfold SourceAnalyzer in *. by rewrite H.
Qed.

Lemma looks_analyzeSource repo src w :
  w_files w !! src = Some (req_ProposedContent request) →
  looks (analyzeSource c ctx request repo src) (λ r, r = Ok result) w.
Proof.
  intros Hsrc. unfold analyzeSource. rewrite has_sourceAnalyzer.
  eapply looks_bind; [apply looks_ctx_Err, (no_deadline Hc)|]. intros e w1 -> Hf1.
  pose proof (no_limit Hc). destruct (Z.ltb_spec 0 (chk_AnalyzerTimeout c)); [lia|].
  eapply looks_bind; [by apply (looks_ret ctx (λ x, x = ctx))|]. intros x w2 -> Hf2.
  eapply (looks_bind _ _ (λ _, True)).
  { destruct (String.eqb _ _); [|by apply looks_ret]. unfold physicalRepoPath.
    destruct (negb _); [by apply looks_ret|]. eapply looks_bind; [apply looks_Stat|].
    intros [[]|] w3 _ _; by apply looks_ret. }
  intros repoPath w3 _ Hf3. eapply looks_bind.
  { apply (looks_call _ (λ r, r = Ok result)). exists (Ok result). split; [|done].
    apply (analyzes Hc). cbn. by rewrite Hf3, Hf2, Hf1. }
  intros r w4 -> Hf4. eapply looks_bind; [apply looks_ctx_Err, (no_deadline Hc)|].
  intros e w5 -> Hf5. by apply looks_ret.
Qed.

Lemma looks_validate a p w :
  looks (validate c ctx a p) (λ r, ∃ x, r = Some (x, None)) w.
Proof.
  unfold validate. rewrite (has_validator Hc).
  eapply (looks_bind _ _ (λ r, ∃ x, r = (x, None))).
  - apply looks_call. destruct (validates Hc ctx a p (w_clock w) (w_files w) (w_dirs w)) as [r Hr]. eauto.
  - intros r w1 [x ->] _. apply looks_ret. eauto.
Qed.

(** The ledger update a scored check performs. *)
Definition ledger_update (config : Config) (repo : string) (vs : list Violation) : State → State :=
  let l := newViolationLedger (req_DryRun request) in
  if String.eqb (cfg_EnforcementMode config) EnforcementBlock
  then led_ReplaceFile l repo (req_File request) vs else led_ClearRepo l repo.

Lemma ledger_update_refines config repo vs s r file :
  entry (ledger_update config repo vs s) r file =
  reference_ledger config repo (req_File request) vs (req_DryRun request) (entry s) r file.
Proof using Type.
  unfold ledger_update, reference_ledger, led_ReplaceFile, led_ClearRepo. cbn.
  destruct (String.eqb _ _), (req_DryRun request); try done.
  - apply (run_op_refines s (OpReplace repo (req_File request) vs)).
  - apply (run_op_refines s (OpClear repo)).
Qed.

Lemma outstanding_merge repo file vs s dry :
  ledger_wf s → Forall (λ x, v_File x = file) vs →
  led_OutstandingAfter (newViolationLedger dry) repo file vs
    (led_ReplaceFile (newViolationLedger dry) repo file vs s) =
  sortViolations (filter (λ x, v_File x ≠ file) (Violations repo s) ++ vs).
Proof using Type. intros Hs Hv. destruct dry; [done|]. by rewrite <-dry_run_outstanding. Qed.

Lemma sortViolations_nil vs : sortViolations vs = [] → vs = [].
Proof using Type.
  intros H. apply Permutation_nil. symmetry. rewrite <-H. symmetry. apply sortViolations_perm.
Qed.

(** Scoring, run on a world whose ledger is [s]. *)
Lemma score_reference res repo content pattern config (w : world App) :
  let vs := all_violations res pattern content config in
  let s := app_state (w_app w) in
  cfg_EnforcementMode config ∈ [EnforcementBlock; EnforcementAdvisory] →
  ledger_wf s → Forall (λ x, v_File x = req_File request) vs →
  ∃ w', score res repo request content pattern config w
        = (Returned (Ok (reference_verdict config repo (req_File request) vs s)), w') ∧
    w_app w' = on_state (ledger_update config repo vs) (w_app w) ∧
    w_files w' = w_files w ∧ w_dirs w' = w_dirs w.
Proof using Type.
  intros vs s Hmode Hs Hv. unfold score, reference_verdict, ledger_update. fold vs.
  rewrite !elem_of_cons in Hmode.
  destruct Hmode as [Hm|[Hm|[]%elem_of_nil]]; rewrite Hm; cbn [String.eqb].
  - pose proof (outstanding_merge repo (req_File request) vs s (req_DryRun request) Hs Hv) as Ho.
    destruct vs as [|x vs']; [unfold scoreClean|unfold scoreDirty]; rewrite Hm;
      unfold bind, state_modify, modify, state_get, get, access, interfere, alone, no_interference;
      cbn -[led_OutstandingAfter led_ReplaceFile sortViolations filter app] in *; fold s; rewrite Ho.
    + by destruct (sortViolations _); eexists; split_and!.
    + destruct (sortViolations _) eqn:He; [|by eexists; split_and!].
      apply sortViolations_nil in He. by destruct (filter _ _).
  - destruct vs as [|x vs']; [unfold scoreClean|unfold scoreDirty]; rewrite Hm; by eexists; split_and!.
Qed.

(** The scored part of the check, from a world where the pattern was written. *)
Lemma runValidation_reference temps patternPath config repo res' content w :
  during temps w → w_files w !! patternPath = Some GovernanceJSON →
  cfg_EnforcementMode config ∈ [EnforcementBlock; EnforcementAdvisory] → ledger_ok (w_app w0) →
  scoreContentFunctions (normalized request result) request config governance_pattern
    = Some (res', content) →
  encodable (BuildArchitecture res') = true →
  let vs := all_violations res' governance_pattern content config in
  ∃ w', runValidationAndScore c ctx (normalized request result) repo request patternPath config w =
          (Returned (Ok (reference_verdict config repo (req_File request) vs (app_state (w_app w0)))), w') ∧
    w_app w' = on_state (ledger_update config repo vs) (w_app w0) ∧ w_files w' = w_files w.
Proof using Hc Hos.
  intros Hd Hp Hmode Hwf Hscore Hencode vs. unfold runValidationAndScore, bind at 1.
  destruct (looks_during _ _ _ _ (looks_ReadFile _ _ _ Hp) Hd) as (read & w1 & Hr & -> & Hd1 & Hf1).
  rewrite Hr. unfold LoadPattern. rewrite governance_loads, Hscore.
  unfold writeArchitecture, Encode. rewrite Hencode.
  destruct (temp_during temps (chk_TempDir c) "current-architecture-*.json"
    (MarshalIndent (N := id) (json_ArchitectureDocument (BuildArchitecture res')) +:+ newline_text)
    (λ err, infrastructureError "creating temp architecture file" (Some err))
    (λ err, infrastructureError "writing architecture file" (Some err))
    (λ err, infrastructureError "closing architecture file" (Some err)) joined w1 Hd1)
    as (name & w2 & Hw2 & Hfree & Hnew & Hf2 & Hd2).
  unfold bind at 1. rewrite Hw2.
  destruct (looks_during _ _ _ _ (looks_validate name patternPath w2) Hd2)
    as (vr & w3 & Hv & [x ->] & Hd3 & Hf3).
  assert (Forall (λ x, v_File x = req_File request) vs) as Hfiled.
  { by apply (all_violations_filed (normalized request result) request config governance_pattern res' content). }
  destruct (score_reference res' repo content governance_pattern config w3) as (w4 & Hs & Ha4 & Hf4 & _);
    [done|by rewrite (during_app _ _ Hd3)|done|]. rewrite (during_app _ _ Hd3) in Hs, Ha4.
  exists (removed name w4). split_and!; [|done|].
  - eapply cleaning_calm; [unfold bind at 1; rewrite Hv; exact Hs|].
    by rewrite Hf4, Hf3, Hf2, lookup_insert_eq.
  - cbn. by rewrite Hf4, Hf3, Hf2, delete_insert_id, Hf1.
Qed.

Lemma checkLocked_reference config repo res' content w :
  during [] w →
  cfg_EnforcementMode config ∈ [EnforcementBlock; EnforcementAdvisory] → ledger_ok (w_app w0) →
  scoreContentFunctions (normalized request result) request config governance_pattern
    = Some (res', content) →
  encodable (BuildArchitecture res') = true →
  let vs := all_violations res' governance_pattern content config in
  ∃ w', checkSynchronousLocked c ctx request repo config w =
          (Returned (Ok (reference_verdict config repo (req_File request) vs (app_state (w_app w0)))), w') ∧
    w_app w' = on_state (ledger_update config repo vs) (w_app w0) ∧ w_files w' = w_files w.
Proof using Hc Hos.
  intros Hd Hmode Hwf Hscore Hencode vs. unfold checkSynchronousLocked, resolvePatternPath.
  rewrite (has_no_pattern Hc). cbn [negb String.eqb]. unfold bind at 1.
  destruct (temp_during [] (chk_TempDir c) "calm-pattern-*.json" GovernanceJSON
    (λ err, infrastructureError "creating temp pattern file" (Some err))
    (λ err, infrastructureError "writing temp pattern file" (Some err))
    (λ err, infrastructureError "closing temp pattern file" (Some err)) dropped w Hd)
    as (n1 & w1 & Hw1 & Hfree1 & _ & Hf1 & Hd1). rewrite Hw1.
  unfold writeProposedContent. rewrite (source_name Hc). cbn [negb].
  set (ext := if String.eqb _ _ then _ else _).
  destruct (temp_during [n1] (chk_TempDir c) ("calm-check-*" +:+ ext) (req_ProposedContent request)
    (λ err, infrastructureError "creating temp source file" (Some err))
    (λ err, inputError "writing temp source file" (Some err))
    (λ err, infrastructureError "closing temp source file" (Some err)) joined w1 Hd1)
    as (n2 & w2 & Hw2 & Hfree2 & Hne & Hf2 & Hd2).
  assert (w_files w2 !! n2 = Some (req_ProposedContent request)) as Hsrc by by rewrite Hf2, lookup_insert_eq.
  destruct (looks_during _ _ _ _ (looks_analyzeSource repo n2 w2 Hsrc) Hd2)
    as (r & w3 & Hw3 & -> & Hd3 & Hf3).
  assert (n1 ≠ n2) as Hn by (intros ->; apply Hne; left).
  assert (w_files w3 !! n1 = Some GovernanceJSON) as Hp3.
  { rewrite Hf3, Hf2, lookup_insert_ne by congruence. by rewrite Hf1, lookup_insert_eq. }
  destruct (runValidation_reference [n2; n1] n1 config repo res' content w3 Hd3 Hp3 Hmode Hwf Hscore Hencode)
    as (w4 & Hw4 & Ha4 & Hf4).
  fold vs in Hw4, Ha4.
  assert (w_files w4 = <[n2 := req_ProposedContent request]> (<[n1 := GovernanceJSON]> (w_files w)))
    as Hfiles by by rewrite Hf4, Hf3, Hf2, Hf1.
  exists (removed n1 (removed n2 w4)). split_and!; [|done|].
  - eapply cleaning_calm.
    + unfold bind at 1. rewrite Hw2. eapply cleaning_calm; [unfold bind at 1; rewrite Hw3; exact Hw4|].
      by rewrite Hfiles, lookup_insert_eq.
    + cbn. rewrite Hfiles, lookup_delete_ne, lookup_insert_ne by congruence. by rewrite lookup_insert_eq.
  - cbn. rewrite Hfiles, delete_insert_id by (by rewrite lookup_insert_ne; [rewrite <-Hfree2, Hf1, lookup_insert_ne|]).
    by rewrite delete_insert_id.
Qed.

(** C1: the check computes its specification, where it scores the content.  The
    conditions: no operation of the system fails, an analyzer and a validator are
    installed and answer, without time limit and deadline, nothing runs beside; the
    pattern is the embedded one and the caller holds the slot (a positive number of
    permits); the configuration blocks or advises and does not exclude the file, and
    the file is not C# under a blocking configuration, which has the warm-up.  Then
    the check returns; its verdict is the reference verdict on the violations of the
    analyzed content and the blackboard before, the blackboard afterwards is the
    reference one, and the files are as before. *)
Theorem Check_reference config repo res' content
    (Hload : loadConfig (Some (app_store (w_app w0))) (req_Repo request) = Ok (config, repo))
    (Hwf : ledger_ok (w_app w0))
    (Hincluded : IsExcluded config (req_File request) = false)
    (Hmode : cfg_EnforcementMode config ∈ [EnforcementBlock; EnforcementAdvisory])
    (Hwarmup : req_Language request = "csharp" → cfg_EnforcementMode config ≠ EnforcementBlock)
    (Hscore : scoreContentFunctions (normalized request result) request config governance_pattern
              = Some (res', content))
    (Hencode : encodable (BuildArchitecture res') = true) :
  let vs := all_violations res' governance_pattern content config in
  ∃ w', Check c ctx request w0 =
          (Returned (Ok (reference_verdict config repo (req_File request) vs (app_state (w_app w0)))), w') ∧
    (∀ r file, entry (app_state (w_app w')) r file =
       reference_ledger config repo (req_File request) vs (req_DryRun request)
         (entry (app_state (w_app w0))) r file) ∧
    w_files w' = w_files w0.
Proof.
  intros vs.
  destruct (checkLocked_reference config repo res' content (tick w0) during_start Hmode Hwf Hscore Hencode)
    as (w' & Hw' & Ha & Hf).
  exists w'. clear Hscore Hencode.
  split; [|split; [intros r file; rewrite Ha; apply ledger_update_refines|exact Hf]].
  unfold Check. rewrite (has_state Hc), (has_store Hc). cbn [negb]. unfold bind at 1, get, access.
  unfold interfere, alone, no_interference. rewrite Hload. cbn [fst snd]. rewrite Hincluded.
  replace (String.eqb (cfg_EnforcementMode config) EnforcementOff) with false.
  2: { rewrite !elem_of_cons in Hmode. by destruct Hmode as [->|[->|[]%elem_of_nil]]. }
  replace (String.eqb (req_Language request) "csharp" && String.eqb (cfg_EnforcementMode config) EnforcementBlock)
    with false.
  2: { destruct (String.eqb_spec (req_Language request) "csharp") as [Hl|]; [|done].
       by destruct (String.eqb_spec (cfg_EnforcementMode config) EnforcementBlock) as [Hb|]; [destruct (Hwarmup Hl)|]. }
  unfold checkSynchronous. pose proof (has_permits Hc).
  destruct (Z.ltb_spec 0 (chk_ConcurrencyPermits c)); [|lia]. destruct w0. exact Hw'.
Qed.
End reference.

(** ** Examples *)

Module CheckerExamples.
#[local] Existing Instances literal_regexp canonical_map_order canonical_map_order_laws
  basic_unicode basic_unicode_laws alone kept_alone.
#[local] Instance example_json_error : JsonErrorText := id.

(** No faults; temporary files are numbered. *)
#[local] Instance numbered_os : OSEnv := {|
  os_now t := Z.of_nat t;
  os_fault _ _ _ := None;
  os_written _ := 0%nat;
  os_temp_name t dir pattern := "tmp" +:+ itoa (Z.of_nat t);
  os_select _ := true;
|}.

(** An analyzer that finds one function of complexity twelve. *)
Definition busy_result : AnalysisResult :=
  mkAnalysis "main" "go" "tmp" "" [mkFunction "Run" 12 true 30] zero_module
    (mkFile 40 30 1 (f64_of_decimal 75 2)) (mkImport 0 0 [] f64_one) [] ∅ [].
Definition busy : SourceAnalyzer := λ _ _ _ _ _, Returned (Ok busy_result).
Definition crashing : SourceAnalyzer := λ _ _ _ _ _, Panicked "boom".
Definition valid : Validator := λ _ _ _ _ _ _, Returned (mkCalm true "" "", None).
#[local] Instance no_tools : Toolchain := {|
  AnalyzeGoFile _ := λ _ _ _, Returned (Ok busy_result);
  AnalyzePythonFile _ _ _ := λ _ _ _, Returned (Err (ErrNew "running radon"));
  AnalyzeCSharpFile _ _ _ := λ _ _ _, Returned (Ok busy_result);
  AnalyzeCSharpFileWithProjectSource _ _ _ _ _ := λ _ _ _, Returned (Ok busy_result);
  run_command _ _ _ := λ _ _ _, Returned (None, "", "");
  f64_text _ := bytes "0";
  debug_stack := "";
|}.

Definition config : Config :=
  mkConfig EnforcementBlock EnforcementOnErrorBlock (Some defaultFitnessFunctions) None None.
Definition store : ConfigStore :=
  mkStore {["api" := valid_entry config None]} ∅ emptyCallerRepoPolicy 0 "/srv" "" 0 3 ∅.
Definition app : App := mkApp NewState RepoLock.initial store [].
Definition start : world App := mkWorld app ∅ ∅ 0.
Definition checker (f : SourceAnalyzer) (block : bool) : Checker :=
  mkChecker "" "" (Value valid) {["go" := Value f; "csharp" := Value f]} true true None block 0 2.
Definition request (language file : string) (dry : bool) : ValidationRequest :=
  mkRequest "api" file "package main" language dry.

Lemma numbered_calm : calm_os start.
Proof.
  constructor; [done|by intros; cbn; rewrite lookup_empty|].
  intros t t' dir pattern dir' pattern' Hne Heq. apply Hne.
  injection Heq as Heq. change (pretty (Z.of_nat t) = pretty (Z.of_nat t')) in Heq.
  by apply (inj (pretty (A := Z))), Nat2Z.inj in Heq.
Qed.

Lemma checker_calm : calm_checker (checker busy true) Background (request "go" "main.go" false) busy valid busy_result.
Proof.
  constructor; try (vm_compute; reflexivity).
  - by cbn.
  - intros ctx a p t files dirs. by eexists.
Qed.

Definition scored_busy : AnalysisResult * list Violation :=
  default (busy_result, []) (scoreContentFunctions
    (normalized (request "go" "main.go" false) busy_result) (request "go" "main.go" false) config
    governance_pattern).

Lemma Check_reference_witness :
  let vs := all_violations scored_busy.1 governance_pattern scored_busy.2 config in
  length vs = 1%nat ∧
  ∃ w', Check (checker busy true) Background (request "go" "main.go" false) start =
          (Returned (Ok (reference_verdict config "api" "main.go" vs NewState)), w') ∧
    (∀ r file, entry (app_state (w_app w')) r file =
       reference_ledger config "api" "main.go" vs false (entry NewState) r file) ∧
    w_files w' = ∅.
Proof.
  intros vs. split; [vm_compute; reflexivity|].
  apply (Check_reference start numbered_calm (checker busy true) Background (request "go" "main.go" false)
    busy valid busy_result checker_calm config "api" scored_busy.1 scored_busy.2).
  - vm_compute. reflexivity.
  - apply ledger_wf_New.
  - vm_compute. reflexivity.
  - left.
  - discriminate.
  - vm_compute. reflexivity.
  - vm_compute. reflexivity.
Defined.

Lemma Check_keeps_ledger_witness :
  ledger_ok (w_app (Check (checker busy true) Background (request "go" "main.go" false) start).2).
Proof.
  apply (Check_keeps_ledger (checker busy true) Background (request "go" "main.go" false)
           (kept_alone ledger_ok) start). apply ledger_wf_New.
Defined.

Lemma Check_dry_run_witness :
  (Check (checker busy true) Background (request "go" "main.go" true) start).1 =
  (Check (checker busy true) Background (request "go" "main.go" false) start).1.
Proof.
  apply (Check_dry_run (checker busy true) Background (request "go" "main.go" false) start).
  apply ledger_wf_New.
Defined.

(** A C# check that defers, with an analyzer that panics. *)
Definition deferring : world App :=
  (Check (checker crashing false) Background (request "csharp" "a.cs" false) start).2.
Definition deferred_job : job := mkJob (request "csharp" "a.cs" false) "api" config 0.

Lemma deferring_job : app_jobs (w_app deferring) = [deferred_job].
Proof. vm_compute. reflexivity. Qed.

Lemma runDeferredCheck_settles_witness :
  calls (w_app deferring) = {[0%nat := mkCall "api" 0 Holding]} ∧
  calls (w_app (runDeferredCheck (checker crashing false) deferred_job deferring).2) = ∅ ∧
  slot_settled (app_state (w_app (runDeferredCheck (checker crashing false) deferred_job deferring).2)).
Proof.
  assert (calls (w_app deferring) = {[0%nat := mkCall "api" 0 Holding]}) as H by (vm_compute; reflexivity).
  split; [exact H|].
  destruct (runDeferredCheck_settles (checker crashing false) deferred_job ∅ 0 deferring) as (H1 & _ & H2).
  - reflexivity.
  - exact H.
  - vm_compute. discriminate.
  - split; [exact H1|exact H2].
Defined.

Lemma Check_restores_files_witness :
  w_files (Check (checker crashing true) Background (request "go" "main.go" false) start).2 = ∅.
Proof.
  assert (removals_succeed) as Hr by (intros t path; reflexivity).
  apply (Check_restores_files Hr (checker crashing true) Background (request "go" "main.go" false) start).
  vm_compute. discriminate.
Defined.

(** A file without violations. *)
Definition tidy_result : AnalysisResult :=
  mkAnalysis "main" "go" "tmp" "" [mkFunction "Run" 2 true 30] zero_module
    (mkFile 40 30 1 (f64_of_decimal 75 2)) (mkImport 0 0 [] f64_one) [] ∅ [].
Definition tidy : SourceAnalyzer := λ _ _ _ _ _, Returned (Ok tidy_result).
Definition tidy_check : outcome (result goerror ValidationResult) * world App :=
  Check (checker tidy true) Background (request "go" "main.go" false) start.

Lemma tidy_passes : tidy_check.1 = Returned (Ok (verdict StatusPass [])).
Proof. vm_compute. reflexivity. Qed.

Lemma Check_verdict_justified_witness :
  ∃ config repo, loadConfig (Some (store_read start)) "api" = Ok (config, repo) ∧
    justified (reaches (request "go" "main.go" false) repo (w_app start)) (checker tidy true) (request "go" "main.go" false) config repo (verdict StatusPass []).
Proof.
  apply (Check_verdict_justified (checker tidy true) Background (request "go" "main.go" false) start
           (verdict StatusPass []) tidy_check.2).
  apply ConfigStoreExamples.run_eq. exact tidy_passes.
Defined.

Lemma Check_pass_means_clean_witness :
  ∃ config repo, loadConfig (Some (store_read start)) "api" = Ok (config, repo) ∧
    (cfg_EnforcementMode config = EnforcementBlock →
     cfg_EnforcementOnError config = EnforcementOnErrorBlock →
     IsExcluded config "main.go" = false →
     scored (checker tidy true) (request "go" "main.go" false) config repo []).
Proof.
  apply (Check_pass_means_clean (checker tidy true) Background (request "go" "main.go" false) start
           (verdict StatusPass []) tidy_check.2); [|reflexivity|reflexivity].
  apply ConfigStoreExamples.run_eq. exact tidy_passes.
Defined.
End CheckerExamples.
