(* ===== verification/CsprojProofs.v ===== *)
(** * The nearest project file

    [FindNearestCsproj] of [internal/analyzer/csproj.go] (defined in [Checker]):
    the climb through the parent directories ends, and where it looks. *)

From stdpp Require Import base gmap strings list fin_maps.
From Stdlib Require Import ZArith Lia Ascii.
From S2P Require Import Prelude RepoLock.
From S2P Require Import GoStrings GoErrors GoFloat GoJson GoJsonPrint GoOS Fitness Metrics State.
From S2P Require Import RepoName GovConfig Scoring ContentScoring Report Auth ConfigStore Governance.
From S2P Require Import Checker.
Set Default Goal Selector "!".

(** ** Lengths of paths *)

Definition no_slash (e : string) : Prop := Forall (λ a, a ≠ slash) (bytes e).

(** The bytes of the elements of a path, one separator each. *)
Definition weight (l : list string) : nat := foldr (λ e n, S (length (bytes e)) + n)%nat 0%nat l.

Lemma weight_nil : weight [] = 0%nat.
Proof. done. Qed.
Lemma weight_cons e l : weight (e :: l) = (S (length (bytes e)) + weight l)%nat.
Proof. done. Qed.
Lemma weight_app l1 l2 : weight (l1 ++ l2) = (weight l1 + weight l2)%nat.
Proof. induction l1 as [|e l1 IH]; [done|]. cbn [app]. rewrite !weight_cons, IH. lia. Qed.
Lemma weight_rev l : weight (rev l) = weight l.
Proof.
  induction l as [|e l IH]; [done|]. cbn [rev]. rewrite weight_app, IH, !weight_cons, weight_nil. lia.
Qed.

Lemma join_weight l : l ≠ [] → S (length (bytes (join l "/"))) = weight l.
Proof.
  induction l as [|e [|e' l] IH]; intros Hl; [done|rewrite weight_cons, weight_nil; cbn [join]; lia|].
  change (join (e :: e' :: l) "/") with (e +:+ "/" +:+ join (e' :: l) "/").
  rewrite weight_cons, <-IH by done. rewrite !bytes_app, !length_app.
  change (length (bytes "/")) with 1%nat. lia.
Qed.

Lemma split_bytes_spec l : ∀ cur,
  Forall (λ a, a ≠ slash) cur →
  Forall no_slash (split_bytes slash cur l) ∧
  weight (split_bytes slash cur l) = S (length cur + length l).
Proof.
  induction l as [|a l IH]; intros cur Hcur; cbn [split_bytes].
  - split; [constructor; [|constructor]|].
    + unfold no_slash. rewrite bytes_of_bytes. by apply Forall_rev.
    + rewrite weight_cons, weight_nil, bytes_of_bytes, length_rev. cbn [length]. lia.
  - destruct (Ascii.eqb_spec a slash) as [->|Ha].
    + destruct (IH [] (Forall_nil_2 _)) as [Hs Hw]. split.
      * constructor; [|done]. unfold no_slash. rewrite bytes_of_bytes. by apply Forall_rev.
      * rewrite weight_cons, Hw, bytes_of_bytes, length_rev. cbn [length]. lia.
    + destruct (IH (a :: cur)) as [Hs Hw]; [by constructor|]. split; [done|].
      rewrite Hw. cbn [length]. lia.
Qed.

(** What the clean stack holds. *)
Definition clean_elem (e : string) : Prop := e ≠ "" ∧ no_slash e.

Lemma clean_push_spec rooted stack e :
  no_slash e → Forall clean_elem stack →
  Forall clean_elem (clean_push rooted stack e) ∧
  (weight (clean_push rooted stack e) ≤ weight stack + S (length (bytes e)))%nat.
Proof.
  intros He Hs. unfold clean_push.
  destruct (String.eqb_spec e "") as [->|Hne]; cbn [orb]; [split; [done|lia]|].
  destruct (String.eqb e "."); [split; [done|lia]|].
  assert (Forall clean_elem (e :: stack)) as Hpush by (constructor; [done|done]).
  destruct (String.eqb e "..").
  - destruct stack as [|top stack'].
    + destruct rooted; [split; [done|rewrite weight_nil; lia]|]. split; [done|].
      rewrite weight_cons, weight_nil. lia.
    + destruct (String.eqb top ".."); [split; [done|]; rewrite (weight_cons e); lia|].
      inversion Hs; subst. split; [done|]. rewrite weight_cons. lia.
  - split; [done|]. rewrite weight_cons. lia.
Qed.

Lemma clean_fold rooted es : ∀ stack,
  Forall no_slash es → Forall clean_elem stack →
  Forall clean_elem (foldl (clean_push rooted) stack es) ∧
  (weight (foldl (clean_push rooted) stack es) ≤ weight stack + weight es)%nat.
Proof.
  induction es as [|e es IH]; intros stack Hes Hst; cbn [foldl]; [split; [done|lia]|].
  apply Forall_cons in Hes as [He Hes].
  destruct (clean_push_spec rooted stack e) as [Hc Hw]; [done..|].
  destruct (IH (clean_push rooted stack e)) as [Hc' Hw']; [done..|].
  split; [done|]. rewrite weight_cons. lia.
Qed.

Lemma split_slash_head p :
  is_abs p = true → ∃ rest, split p slash = "" :: rest ∧ weight rest = length (bytes p) ∧ Forall no_slash rest.
Proof.
  intros H. destruct p as [|a p]; [done|].
  assert (a = slash) as ->.
  { revert H. clear. intros H. by destruct a as [[] [] [] [] [] [] [] []]. }
  exists (split_bytes slash [] (bytes p)).
  destruct (split_bytes_spec (bytes p) [] (Forall_nil_2 _)) as [Hs Hw].
  split_and!; [done| |done]. rewrite Hw. done.
Qed.

(** Cleaning never lengthens a path, except the empty one. *)
Lemma clean_length p : (length (bytes (path_clean p)) ≤ Nat.max 1 (length (bytes p)))%nat.
Proof.
  unfold path_clean, clean_elems. destruct (is_abs p) eqn:Habs.
  - destruct (split_slash_head p Habs) as (rest & -> & Hw & Hrest). cbn [foldl].
    change (clean_push true [] "") with (@nil string).
    destruct (clean_fold true rest [] Hrest (Forall_nil_2 _)) as [_ Hle].
    set (st := foldl (clean_push true) [] rest) in *. rewrite bytes_app, length_app.
    destruct (decide (rev st = [])) as [->|Hne]; [change (1 + 0 ≤ Nat.max 1 (length (bytes p)))%nat; lia|].
    pose proof (join_weight (rev st) Hne) as Hj. rewrite weight_rev in Hj. rewrite weight_nil in Hle.
    change (length (bytes "/")) with 1%nat. lia.
  - destruct (split_bytes_spec (bytes p) [] (Forall_nil_2 _)) as [Hs Hw].
    destruct (clean_fold false (split p slash) [] Hs (Forall_nil_2 _)) as [_ Hle].
    unfold split in *. set (st := foldl (clean_push false) [] _) in *.
    destruct (String.eqb_spec (join (rev st) "/") "") as [He|He]; [change (1 ≤ Nat.max 1 (length (bytes p)))%nat; lia|].
    assert (rev st ≠ []) as Hne by (intros Hr; by rewrite Hr in He).
    pose proof (join_weight (rev st) Hne) as Hj. rewrite weight_rev in Hj. rewrite weight_nil in Hle.
    cbn [length] in Hw. lia.
Qed.

(** ** Climbing *)

(** A clean path ends in a slash only if it is the root. *)
Lemma clean_last p a l : rev (bytes (path_clean p)) = a :: l → a = slash → path_clean p = "/".
Proof.
  unfold path_clean, clean_elems. intros H Ha.
  assert (∀ es, Forall clean_elem es → es ≠ [] →
    ∃ b k, rev (bytes (join (rev es) "/")) = b :: k ∧ b ≠ slash) as Hjoin.
  { intros es Hes Hne. destruct es as [|e es]; [done|]. apply Forall_cons in Hes as [[Hempty He] _].
    assert (∃ q, join (rev (e :: es)) "/" = q +:+ e) as [q ->].
    { cbn [rev]. generalize (rev es). intros l0. induction l0 as [|x l0 [q IH]]; [by exists ""|].
      exists (x +:+ "/" +:+ q). cbn [app]. destruct (l0 ++ [e]) eqn:Hl; [by destruct l0|].
      change (x +:+ "/" +:+ join (s :: l1) "/" = (x +:+ "/" +:+ q) +:+ e).
      by rewrite IH, !string_app_assoc. }
    rewrite bytes_app, rev_app_distr. destruct (rev (bytes e)) as [|b k] eqn:Hr.
    - apply (f_equal (@rev _)) in Hr. rewrite rev_involutive in Hr. by destruct e.
    - exists b, (k ++ rev (bytes q)). split; [done|]. apply Forall_rev in He. rewrite Hr in He.
      by apply Forall_cons in He as [? _]. }
  destruct (is_abs p) eqn:Habs.
  - destruct (split_slash_head p Habs) as (rest & Hsp & _ & Hrest). rewrite Hsp in *. cbn [foldl] in *.
    change (clean_push true [] "") with (@nil string) in *.
    destruct (clean_fold true rest [] Hrest (Forall_nil_2 _)) as [Hc _].
    set (st := foldl (clean_push true) [] rest) in *. destruct (decide (st = [])) as [->|Hne]; [done|].
    destruct (Hjoin st Hc Hne) as (b & k & Hb & Hbs). rewrite bytes_app, rev_app_distr, Hb in H.
    exfalso. apply Hbs. by injection H as -> _.
  - destruct (split_bytes_spec (bytes p) [] (Forall_nil_2 _)) as [Hs _].
    destruct (clean_fold false (split p slash) [] Hs (Forall_nil_2 _)) as [Hc _].
    set (st := foldl (clean_push false) [] _) in *.
    destruct (String.eqb_spec (join (rev st) "/") "") as [He|He].
    + exfalso. injection H as <- _. by discriminate.
    + assert (st ≠ []) as Hne by (intros Hr; by rewrite Hr in He).
      destruct (Hjoin st Hc Hne) as (b & k & Hb & Hbs). rewrite Hb in H.
      exfalso. apply Hbs. by injection H as -> _.
Qed.

Definition measure (p : string) : nat := if String.eqb p "." then 0%nat else length (bytes p).

Lemma drop_while_length {A} (f : A → bool) l : (length (drop_while f l) ≤ length l)%nat.
Proof. induction l as [|x l IH]; cbn; [lia|]. destruct (f x); cbn; lia. Qed.

(** The parent of a clean path is itself or smaller. *)
Lemma parent_smaller p :
  p = path_clean p ∨ (∃ q, p = path_clean q) → path_dir p ≠ p → (measure (path_dir p) < measure p)%nat.
Proof.
  intros Hclean Hne. assert (∃ q, p = path_clean q) as [q Hq] by (destruct Hclean; eauto).
  unfold measure. destruct (String.eqb_spec p ".") as [->|Hdot]; [by destruct Hne|].
  destruct (rev (bytes p)) as [|a l] eqn:Hr.
  { apply (f_equal (@rev _)) in Hr. rewrite rev_involutive in Hr. destruct p; [|done].
    pose proof (clean_length q). exfalso. apply (f_equal bytes) in Hq. clear -Hq.
    unfold path_clean in Hq. destruct (is_abs q); [done|].
    by destruct (String.eqb_spec (join (clean_elems q) "/") ""); [|destruct (join _ _)]. }
  assert (a ≠ slash) as Ha.
  { intros Hs. apply Hne. rewrite Hq in Hr. pose proof (clean_last q a l Hr Hs) as Hroot.
    rewrite Hq, Hroot. reflexivity. }
  assert (length (bytes p) = S (length l)) as Hl by (rewrite <-length_rev, Hr; done).
  unfold path_dir, drop_while_end. rewrite Hr. cbn [drop_while].
  destruct (Ascii.eqb_spec a slash) as [?|_]; [done|]. cbn [negb].
  set (pre := rev (drop_while _ l)).
  assert (length pre ≤ length l)%nat as Hpre by (unfold pre; rewrite length_rev; apply drop_while_length).
  pose proof (clean_length (of_bytes pre)) as Hc. rewrite bytes_of_bytes in Hc.
  destruct (String.eqb_spec (path_clean (of_bytes pre)) "."); [lia|].
  destruct pre as [|b pre']; [by destruct n|]. cbn [length] in *. lia.
Qed.

(** ** The search *)

Section search.
Context {R : RegexpEngine} {E : OSEnv}.

Definition ancestor (n : nat) (dir : string) : string := Nat.iter n path_dir dir.

(** The outcome of a search that starts in [dir]. *)
Definition found (root dir : string) (o : outcome (result goerror string)) : Prop :=
  match o with
  | Returned (Ok path) =>
      path = "" ∨
      ∃ n name, path = path_join [ancestor n dir; name] ∧ has_suffix name ".csproj" = true ∧
        ∀ m, (m < n)%nat → ancestor m dir ≠ root
  | Returned (Err _) => True
  | _ => False
  end.

Lemma found_up root dir o :
  dir ≠ root → found root (path_dir dir) o → found root dir o.
Proof.
  intros Hne. destruct o as [[path|err]|p|]; try done. intros [->|(n & name & -> & Hn & Hm)]; [by left|].
  right. exists (S n), name. unfold ancestor in *. rewrite Nat.iter_succ_r. split_and!; [done..|].
  intros [|m] Hlt; [done|]. rewrite Nat.iter_succ_r. apply Hm. lia.
Qed.

Lemma nearest_csproj_found fuel root : ∀ dir (w : world App),
  (∃ q, dir = path_clean q) → (measure dir < fuel)%nat →
  found root dir (nearest_csproj fuel root dir w).1.
Proof.
  induction fuel as [|fuel IH]; intros dir w Hclean Hlt; [lia|]. cbn [nearest_csproj].
  unfold bind, ReadDir, os_op. destruct (os_fault _ _ _); [done|]. case_decide; [|done].
  destruct (List.find _ _) as [[name b]|] eqn:Hf.
  - right. exists 0%nat, name. apply List.find_some in Hf as [_ [_ Hs]%andb_true_iff].
    split_and!; [done..|]. intros m. lia.
  - destruct (String.eqb_spec dir root) as [->|Hroot]; [by left|].
    destruct (String.eqb_spec (path_dir dir) dir) as [?|Htop]; [by left|].
    apply found_up; [done|]. apply IH; [unfold path_dir; eauto|].
    pose proof (parent_smaller dir (or_intror Hclean) Htop). lia.
Qed.

(** The search for the project file always ends, with an error, with nothing,
    or with a .csproj file in the directory of the source file or one of its
    ancestors; the climb never goes past the root when it meets it. *)
Theorem FindNearestCsproj_spec csFilePath root (w : world App) :
  found (path_clean root) (path_clean (path_dir csFilePath)) (FindNearestCsproj csFilePath root w).1.
Proof.
  apply nearest_csproj_found; [eauto|]. unfold measure. rewrite <-length_bytes. case_match; lia.
Qed.
End search.

(** A file outside the root is searched for up to the top of the file system. *)
Module CsprojExamples.
#[local] Existing Instances literal_regexp reliable_os.

Definition outside : world App :=
  mkWorld (mkApp NewState RepoLock.initial
             (mkStore ∅ ∅ emptyCallerRepoPolicy 0 "" "" 0 3 ∅) [])
    {["/other/x.csproj" := ""]} {["/"; "/other"; "/repo"]} 0.

(** The search is not confined to the root: for a file that escapes it, a
    project file outside the root is returned. *)
Theorem FindNearestCsproj_escapes_root :
  (FindNearestCsproj (path_join ["/repo"; "../other/a.cs"]) "/repo" outside).1
  = Returned (Ok "/other/x.csproj").
Proof. vm_compute. reflexivity. Qed.
End CsprojExamples.
