(* ===== verification/Server.v ===== *)
(** * The daemon

    [internal/server/server.go], [register.go] and [functions.go]: the HTTP
    routes over the checker and the configuration store, and the validation of
    the serve options.  A handler is a computation from a request to a response;
    a response is its status code and the value it encodes. *)

From stdpp Require Import base gmap strings list fin_maps fin_sets.
From Stdlib Require Import ZArith Lia Ascii.
From S2P Require Import Prelude RepoLock.
From S2P Require Import GoStrings GoErrors GoFloat GoJson GoJsonPrint GoNet GoOS Fitness Metrics.
From S2P Require Import State RateLimit RepoName GovConfig Scoring ContentScoring Report Auth ConfigStore.
From S2P Require Import Governance Checker.
Set Default Goal Selector "!".

(** ** Responses *)

Section data.
Context {R : RegexpEngine}.

Record HealthResponse := mkHealth {
  health_Status : string;
  health_Identity : Identity;
}.

Record PreflightResponse := mkPreflight {
  pre_AuthenticatedCN : string;
  pre_RepoConfigured : bool;
  pre_RepoConfigValid : bool;
  pre_RepoConfigError : string;
  pre_CallerAuthorized : bool;
  pre_EnforcementMode : string;
}.

Record ConfigsRepoResponse := mkConfigsRepo {
  crr_Status : string;
  crr_EnforcementMode : string;
  crr_FitnessFunctions : option (gmap string bool);
  crr_Error : string;
  crr_LastValidAt : option Z;
}.

Record ConfigsResponse := mkConfigs {
  cfr_Version : string;
  cfr_LoadedAt : Z;
  cfr_Repos : gmap string ConfigsRepoResponse;
}.

Record FunctionCatalogEntry := mkCatalogEntry {
  fce_Description : string;
  fce_Threshold : float64;
  fce_Operator : string;
  fce_Unit : string;
  fce_DefaultEnabled : bool;
}.

Inductive payload :=
| PText (message : string)
| PHealth (h : HealthResponse)
| PVerdict (v : ValidationResult)
| PState (repo : string) (violations : list Violation)
| PPreflight (p : PreflightResponse)
| PConfigs (c : ConfigsResponse)
| PFunctions (version : string) (functions : gmap string FunctionCatalogEntry)
| PRegister (repo : string) (created : bool)
| PStatus (status : string).

Record response := mkResponse { resp_Status : Z; resp_Body : payload }.

(** [http.Error]. *)
Definition http_error (message : string) (code : Z) : response := mkResponse code (PText message).

(** A float64 that is not finite cannot be encoded. *)
Definition violation_encodable (v : Violation) : bool := finite (v_Value v) && finite (v_Limit v).
Definition payload_encodable (p : payload) : bool :=
  match p with
  | PVerdict v => forallb violation_encodable (res_Violations v)
  | PState _ vs => forallb violation_encodable vs
  | PFunctions _ fs => forallb (λ kv, finite (fce_Threshold kv.2)) (map_to_list fs)
  | _ => true
  end.

Definition writeJSON (p : payload) : response :=
  if payload_encodable p then mkResponse 200 p else http_error "encoding response failed" 500.

Definition writeCheckError (err : goerror) : response :=
  match errors_as_check err with
  | Some (ErrorKindInput, message, _) => http_error message 400
  | Some (ErrorKindInfrastructure, message, _) => http_error message 503
  | Some (ErrorKindNotFound, message, _) => http_error message 404
  | Some (ErrorKindTimeout, message, _) => http_error message 504
  | None => http_error "check failed" 500
  end.

Definition writeUnauthorized : response := http_error "authentication required" 401.
Definition writeForbidden (message : string) : response := http_error message 403.
Definition method_not_allowed : response := http_error "method not allowed" 405.

Definition isInputError (err : goerror) : bool := bool_decide (error_kind err = Some ErrorKindInput).

Definition writeAuthorizationError {U : UnicodeTables} (err : goerror) : response :=
  if isInputError err then writeCheckError err else writeForbidden (error_string err).

Definition remoteHost (r : http_request) : string :=
  match SplitHostPort (r_RemoteAddr r) with
  | None => r_RemoteAddr r
  | Some (host, _) => host
  end.

(** The daemon's shared state. *)
Record Srv := mkSrv {
  srv_app : App;
  srv_limiter : fixedWindowRateLimiter;
  srv_deferredCanceled : bool;
  srv_shutdownRequested : bool;
}.
Definition put_app (a : App) (s : Srv) : Srv :=
  mkSrv a (srv_limiter s) (srv_deferredCanceled s) (srv_shutdownRequested s).
Definition put_limiter (l : fixedWindowRateLimiter) (s : Srv) : Srv :=
  mkSrv (srv_app s) l (srv_deferredCanceled s) (srv_shutdownRequested s).
Definition put_store (c : ConfigStore) (a : App) : App :=
  mkApp (app_state a) (app_locks a) c (app_jobs a).
End data.

(** Digests of encoded responses: [sha256] over [encoding/json]. *)
Class Digests := {
  configs_digest : Z → gmap string ConfigsRepoResponse → string;
  functions_digest : gmap string FunctionCatalogEntry → string;
}.

Section handlers.
Context {R : RegexpEngine} {O : GoMapOrder} {U : UnicodeTables} {J : JsonErrorText}
        {N : JsonNumberText} {E : OSEnv} {T : Toolchain} {D : Digests}
        {IA : Interference App} {IC : Interference ConfigStore} {IS : Interference Srv}.
Abbreviation HM := (M Srv).

Definition on_app {A} (m : M App A) : HM A := zoom srv_app put_app m.
Definition on_store {A} (m : M ConfigStore A) : HM A := on_app (zoom app_store put_store m).

(** The policy and the store the handlers consult, if there is a store. *)
Definition store_policy (c : Checker) : HM (option CallerRepoPolicy) :=
  on_app (get (λ a, if chk_ConfigStore c then Some (cs_callerPolicy (app_store a)) else None)).
Definition store_of (c : Checker) (a : App) : option ConfigStore :=
  if chk_ConfigStore c then Some (app_store a) else None.

(** ** POST /check *)

Definition maxValidationRequestBytes : Z := 5 * 1024 * 1024.

Definition decodeValidationRequest (r : http_request) : result response ValidationRequest :=
  match r_Body r with
  | Err _ => Err (http_error "invalid check request" 400)
  | Ok raw =>
      if (maxValidationRequestBytes <? Z.of_nat (String.length raw))%Z
      then Err (http_error "request body too large" 413)
      else match unmarshal dec_ValidationRequest zero_request raw with
           | Err _ => Err (http_error "invalid check request" 400)
           | Ok request => Ok request
           end
  end.

Definition resolveCheckCaller (r : http_request) (options : HandlerOptions) : string :=
  let caller := (authenticatedCaller r).1 in
  if String.eqb caller "" && negb (opt_RequireAuthentication options) then remoteHost r else caller.

(** [TryLockRepoN]: the handle of the permit taken, if there was one. *)
Definition TryLockRepoN (repo : string) (n : Z) : M App (option nat) :=
  let! h := access (λ a, let h := fresh (dom (cf_calls (app_locks a)) : gset nat) in
                         (h, lock_action (ATry h repo n) a)) in
  let! taken := access (λ a, let a' := lock_action (ATryReceive h) a in
                             (bool_decide (call_phase <$> cf_calls (app_locks a') !! h = Some Holding), a')) in
  if (taken : bool) then ret (Some h)
  else let! _ := modify (lock_action (ALeave h)) in ret None.

(** The slot of a check: no cap, a permit, or none left. *)
Inductive slot := NoCap | Slot (h : nat) | NoSlot.
Definition acquireConcurrencySlot (repo : string) (n : Z) : M App slot :=
  if (n <=? 0)%Z then ret NoCap
  else
    let! taken := TryLockRepoN repo n in
    match taken with Some h => ret (Slot h) | None => ret NoSlot end.
Definition releaseSlot (s : slot) : M App unit :=
  match s with Slot h => unlockRepo h | _ => ret tt end.

Definition set_Repo (repo : string) (r : ValidationRequest) : ValidationRequest :=
  mkRequest repo (req_File r) (req_ProposedContent r) (req_Language r) (req_DryRun r).

(** [r.Context()]: its end, and the value stored by [withPhysicalRepoPath]. *)
Definition request_context (done : option (Z * sentinel)) (r : http_request) : context :=
  mkContext done (r_physicalRepo r).

Definition check_slotted (c : Checker) (ctx : context) (request : ValidationRequest) (n : Z) :
  M App response :=
  let! s := acquireConcurrencySlot (req_Repo request) n in
  match s with
  | NoSlot => ret (http_error "repository analysis capacity exceeded" 503)
  | _ =>
      with_deferred
        (let! checked := Check c ctx request in
         match checked with
         | Err err => ret (writeCheckError err)
         | Ok v => ret (writeJSON (PVerdict v))
         end) (releaseSlot s) (λ r _, r)
  end.

(** The limiter's answer; no limiter allows everything. *)
Definition rate_allowed (options : HandlerOptions) (caller : string) : HM bool :=
  if negb (opt_RateLimiter options) then ret true
  else
    let! now := Now in
    access (λ s, let '(ok, l) := Allow now caller (srv_limiter s) in (ok, put_limiter l s)).

Definition checkHandler (c : Checker) (options : HandlerOptions) (done : option (Z * sentinel))
    (r : http_request) : HM response :=
  if negb (String.eqb (r_Method r) "POST") then ret method_not_allowed
  else
    let caller := resolveCheckCaller r options in
    let! ok := rate_allowed options caller in
    if negb ok then ret (http_error "rate limit exceeded" 429)
    else
      match decodeValidationRequest r with
      | Err resp => ret resp
      | Ok request =>
          if negb (opt_RequireAuthentication options)
          then on_app (check_slotted c (request_context done r) request (opt_MaxConcurrentAnalysesPerRepo options))
          else
            let! policy := store_policy c in
            match authorizeRepoAccess options policy caller (req_Repo request) with
            | Err err => ret (writeAuthorizationError err)
            | Ok authorizedRepo =>
                let! physicalRepo := if opt_LocalHTTP options
                                     then on_app (localPhysicalRepoPath (req_Repo request) authorizedRepo)
                                     else ret "" in
                let r' := if String.eqb physicalRepo "" then r else withPhysicalRepoPath physicalRepo r in
                on_app (check_slotted c (request_context done r') (set_Repo authorizedRepo request)
                          (opt_MaxConcurrentAnalysesPerRepo options))
            end
      end.

(** ** GET /state *)

(** The caller a handler works for: none without authentication. *)
Definition handler_caller (options : HandlerOptions) (r : http_request) : option string :=
  if opt_RequireAuthentication options then
    let '(caller, ok) := authenticatedCaller r in if ok then Some caller else None
  else Some "".

Definition resolveAuthorizedRepo (c : Checker) (options : HandlerOptions) (caller repo : string) :
  HM (result response string) :=
  if negb (opt_RequireAuthentication options) then ret (Ok repo)
  else
    let! policy := store_policy c in
    match authorizeRepoAccess options policy caller repo with
    | Err err => ret (Err (writeAuthorizationError err))
    | Ok authorizedRepo => ret (Ok authorizedRepo)
    end.

Definition stateHandler (c : Checker) (options : HandlerOptions) (r : http_request) : HM response :=
  if negb (String.eqb (r_Method r) "GET") then ret method_not_allowed
  else match handler_caller options r with
  | None => ret writeUnauthorized
  | Some caller =>
      if String.eqb (r_Repo r) "" then ret (http_error "state requires repo" 400)
      else
        let! resolved := resolveAuthorizedRepo c options caller (r_Repo r) in
        match resolved with
        | Err resp => ret resp
        | Ok targetRepo =>
            let! loaded := on_app (get (λ a, loadConfig (store_of c a) targetRepo)) in
            match loaded with
            | Err err => ret (writeCheckError err)
            | Ok (_, canonicalRepo) =>
                let! violations := on_app (state_get (Violations canonicalRepo)) in
                ret (writeJSON (PState canonicalRepo violations))
            end
        end
  end.

(** ** GET /preflight *)

Definition preflight_facts (caller : string) (authorized : bool) (entry : option ConfigEntry) :
  PreflightResponse :=
  match entry with
  | None => mkPreflight caller false false "" authorized ""
  | Some entry =>
      mkPreflight caller true (ent_Valid entry) (ent_Error entry) authorized
        (if ent_Valid entry then cfg_EnforcementMode (ent_Config entry) else "")
  end.

Definition buildPreflightResponse (c : Checker) (options : HandlerOptions) (caller repo : string) :
  HM PreflightResponse :=
  let! policy := store_policy c in
  let authorized := callerAuthorizedForRepo options policy caller repo in
  let! entry := on_app (get (λ a, store_of c a ≫= Lookup repo)) in
  ret (preflight_facts caller authorized entry).

Definition preflightHandler (c : Checker) (options : HandlerOptions) (r : http_request) : HM response :=
  if negb (String.eqb (r_Method r) "GET") then ret method_not_allowed
  else match handler_caller options r with
  | None => ret writeUnauthorized
  | Some caller =>
      if String.eqb (r_Repo r) "" then ret (http_error "preflight requires repo" 400)
      else match validateRepoName (r_Repo r) with
      | Err err => ret (writeCheckError err)
      | Ok repoName =>
          let! facts := buildPreflightResponse c options caller repoName in
          ret (writeJSON (PPreflight facts))
      end
  end.

(** ** GET /configs *)

Definition cloneFitnessFunctions (functions : option (gmap string bool)) : option (gmap string bool) :=
  functions.

Definition configs_entry (entry : ConfigEntry) : ConfigsRepoResponse :=
  if ent_Valid entry
  then mkConfigsRepo "valid" (cfg_EnforcementMode (ent_Config entry))
         (cloneFitnessFunctions (cfg_FitnessFunctions (ent_Config entry))) (ent_Error entry) None
  else mkConfigsRepo "invalid" "" None (ent_Error entry) (ent_LastValidAt entry).

Definition buildConfigsResponse (loadedAt : Z) (snapshot : gmap string ConfigEntry) : ConfigsResponse :=
  let repos := configs_entry <$> snapshot in
  mkConfigs (configs_digest loadedAt repos) loadedAt repos.

Definition no_store : response :=
  writeCheckError (infrastructureError "config store is not configured" None).

(** The admin gate of /configs and /shutdown: the response that ends the request,
    or none. *)
Definition admin_gate (c : Checker) (options : HandlerOptions) (route : string) (r : http_request) :
  HM (option response) :=
  if negb (opt_RequireAuthentication options) then ret None
  else
    let '(caller, ok) := authenticatedCaller r in
    if negb ok then ret (Some writeUnauthorized)
    else if negb (chk_ConfigStore c) then ret (Some no_store)
    else
      let! policy := store_policy c in
      if negb (callerIsAdmin options policy caller)
      then ret (Some (writeForbidden ("caller " +:+ quote caller +:+ " is not authorized for " +:+ route)))
      else ret None.

Definition configsHandler (c : Checker) (options : HandlerOptions) (r : http_request) : HM response :=
  if negb (String.eqb (r_Method r) "GET") then ret method_not_allowed
  else
    let! stopped := admin_gate c options "/configs" r in
    match stopped with
    | Some resp => ret resp
    | None =>
        if negb (chk_ConfigStore c) then ret no_store
        else
          let! snapshot := on_app (get (λ a, SnapshotState (app_store a))) in
          let '(loadedAt, entries) := snapshot in
          ret (writeJSON (PConfigs (buildConfigsResponse loadedAt entries)))
    end.

(** ** POST /shutdown *)

(** [cancelDeferred] ends the context of the deferred checks, if the handler owns
    it. *)
Definition cancel_deferred (s : Srv) : Srv := mkSrv (srv_app s) (srv_limiter s) true (srv_shutdownRequested s).
Definition request_shutdown (s : Srv) : Srv := mkSrv (srv_app s) (srv_limiter s) (srv_deferredCanceled s) true.

Definition shutdownHandler (c : Checker) (options : HandlerOptions) (cancelDeferred : Srv → Srv)
    (r : http_request) : HM response :=
  if negb (String.eqb (r_Method r) "POST") then ret method_not_allowed
  else
    let! stopped := admin_gate c options "/shutdown" r in
    match stopped with
    | Some resp => ret resp
    | None =>
        let! _ := modify cancelDeferred in
        let! _ := modify request_shutdown in
        ret (writeJSON (PStatus "shutting_down"))
    end.

(** ** POST /register *)

Definition dec_RegisterRequest : decoder RegisterRequest :=
  dec_struct
    [("repo", λ j r, (λ x, mkRegister x (reg_EnforcementMode r) (reg_FitnessFunctions r)) <$> dec_string j (reg_Repo r));
     ("enforcement-mode", λ j r, (λ x, mkRegister (reg_Repo r) x (reg_FitnessFunctions r)) <$> dec_string j (reg_EnforcementMode r));
     ("fitness-functions", λ j r, (λ x, mkRegister (reg_Repo r) (reg_EnforcementMode r) x) <$> dec_map false dec_bool j (reg_FitnessFunctions r))].

(** [json.NewDecoder(body).Decode]: the first value of the stream.  An object or
    an array ends at its bracket; another value must be followed by white space
    or the end. *)
Definition decode_first {A} (d : decoder A) (zero : A) (content : string) : option A :=
  match parse_value (json_fuel content) (bytes content) with
  | None => None
  | Some (j, rest) =>
      let ended := match j, rest with
                   | JObj _, _ | JArr _, _ | _, [] => true
                   | _, a :: _ => is_json_space a
                   end in
      if ended then d j zero else None
  end.

Definition decodeRegisterRequest (r : http_request) : result response RegisterRequest :=
  let invalid := Err (http_error "invalid register request" 400) in
  match r_Body r with
  | Err _ => invalid
  | Ok content =>
      match decode_first dec_RegisterRequest (mkRegister "" "" None) content with
      | None => invalid
      | Some request => Ok request
      end
  end.

Definition decodeRegisterConfig (r : http_request) : result response (string * Config) :=
  let? request := decodeRegisterRequest r in
  match validateRegisterRepoName (reg_Repo request) with
  | Err err => Err (writeCheckError err)
  | Ok repoName =>
      match buildRegisterConfig request with
      | Err err => Err (writeCheckError err)
      | Ok config => Ok (repoName, config)
      end
  end.

Definition writeRegisterResponse (repo : string) (created : bool) : response :=
  mkResponse (if created then 201 else 200) (PRegister repo created).

Definition writeRegisterError (err : goerror) : response :=
  match errors_as_conflict err with
  | Some repo => http_error (error_string (ErrConflict repo)) 409
  | None => writeCheckError err
  end.

Definition registerHandler (c : Checker) (options : HandlerOptions) (done : option (Z * sentinel))
    (r : http_request) : HM response :=
  if negb (String.eqb (r_Method r) "POST") then ret method_not_allowed
  else if opt_DisableRegistration options then ret (writeForbidden "registration disabled")
  else if negb (chk_ConfigStore c) then ret no_store
  else
    let '(caller, ok) := authenticatedCaller r in
    if negb ok then ret writeUnauthorized
    else match decodeRegisterConfig r with
    | Err resp => ret resp
    | Ok (repoName, config) =>
        let! policy := store_policy c in
        let isAdmin := callerIsAdmin options policy caller in
        let! registered := on_store (Register (request_context done r) repoName config caller isAdmin) in
        match registered with
        | Err err => ret (writeRegisterError err)
        | Ok created => ret (writeRegisterResponse repoName created)
        end
    end.

(** ** GET /functions *)

Definition catalog_entry (name : string) (rule : FitnessRule) : FunctionCatalogEntry :=
  mkCatalogEntry (rule_Description rule) (rule_Threshold rule) (rule_Operator rule) (rule_Unit rule)
    (default false (defaultFitnessFunctions !! name)).

Definition loadFunctionCatalog (patternPath : string) :
  HM (result goerror (gmap string FunctionCatalogEntry)) :=
  let! loaded := if negb (String.eqb patternPath "")
                 then (let! read := ReadFile patternPath in ret (LoadPattern (λ _, read) patternPath))
                 else ret (LoadPatternFromBytes "patterns/governance.json" GovernanceJSON) in
  match loaded with
  | Err err => ret (Err err)
  | Ok pattern => ret (Ok (map_imap (λ name rule, Some (catalog_entry name rule)) (pat_FitnessFunctions pattern)))
  end.

Definition buildFunctionsResponse (catalog : gmap string FunctionCatalogEntry) : payload :=
  PFunctions (functions_digest catalog) catalog.

Definition functionsHandler (c : Checker) (r : http_request) : HM response :=
  if negb (String.eqb (r_Method r) "GET") then ret method_not_allowed
  else
    let! catalog := loadFunctionCatalog (chk_PatternPath c) in
    match catalog with
    | Err err => ret (writeCheckError (infrastructureError "loading fitness function catalog" (Some err)))
    | Ok catalog => ret (writeJSON (buildFunctionsResponse catalog))
    end.

(** ** Routes *)

Definition healthHandler (identity : Identity) : HM response :=
  ret (writeJSON (PHealth (mkHealth "ok" identity))).

Definition withAuthenticatedCaller (next : http_request → HM response) (options : HandlerOptions)
    (r : http_request) : HM response :=
  if negb (opt_RequireAuthentication options) then next r
  else match extractCallerName r options with
       | Err _ => ret writeUnauthorized
       | Ok caller => next (with_caller caller r)
       end.

(** The checker of [NewHandlerWithOptions]: a missing state is created, the cap
    comes from the options, and deferred checks get the handler's context, which
    ends when a shutdown cancels it. *)
Definition handler_checker (c : Checker) (options : HandlerOptions) (deferred : context) : Checker :=
  mkChecker (chk_PatternPath c) (chk_TempDir c) (chk_Validator c) (chk_Analyzers c) true
    (chk_ConfigStore c)
    (match chk_DeferredContext c with Some ctx => Some ctx | None => Some deferred end)
    (chk_BlockOnWarmup c) (chk_AnalyzerTimeout c)
    (if (chk_ConcurrencyPermits c =? 0)%Z && (0 <? opt_MaxConcurrentAnalysesPerRepo options)%Z
     then opt_MaxConcurrentAnalysesPerRepo options else chk_ConcurrencyPermits c).

Definition NewHandlerWithOptions (c : Checker) (options : HandlerOptions) (deferred : context)
    (path : string) (done : option (Z * sentinel)) (r : http_request) : HM response :=
  let checker := handler_checker c options deferred in
  let cancelDeferred := match chk_DeferredContext c with None => cancel_deferred | Some _ => λ s, s end in
  let guarded next := withAuthenticatedCaller next options r in
  if String.eqb path "/health" then healthHandler (opt_Identity options)
  else if String.eqb path "/check" then guarded (checkHandler checker options done)
  else if String.eqb path "/state" then guarded (stateHandler checker options)
  else if String.eqb path "/preflight" then guarded (preflightHandler checker options)
  else if String.eqb path "/configs" then guarded (configsHandler checker options)
  else if String.eqb path "/register" then guarded (registerHandler checker options done)
  else if String.eqb path "/functions" then guarded (functionsHandler checker)
  else if String.eqb path "/shutdown" then guarded (shutdownHandler checker options cancelDeferred)
  else ret (http_error "404 page not found" 404).
End handlers.

(** ** Serve options *)

Definition ListenModeMTLS : string := "mtls".
Definition ListenModeLocalHTTP : string := "local-http".
Definition defaultConfigsDir : string := "/app/configs".

Record ServeOptions := mkServe {
  so_ListenMode : string;
  so_Addr : string;
  so_ConfigDir : string;
  so_HandlerOptions : HandlerOptions;
  so_TLS : ServerTLSConfig;
  so_ManagedRoot : string;
  so_RuntimeDir : string;
  so_BlockOnWarmup : bool;
  so_AnalyzerTimeout : Z;
}.

(** [applyServeDefaults] and [applyServeInternalDefaults]; [env] is the value of
    AGENT_FITNESS_FUNCTIONS_CONFIGS_DIR. *)
Definition set_serve (addr dir : string) (o : ServeOptions) : ServeOptions :=
  mkServe (so_ListenMode o) addr dir (so_HandlerOptions o) (so_TLS o) (so_ManagedRoot o)
    (so_RuntimeDir o) (so_BlockOnWarmup o) (so_AnalyzerTimeout o).
Definition applyServeDefaults (env : string) (o : ServeOptions) : ServeOptions :=
  set_serve (if String.eqb (so_Addr o) "" then "localhost:7890" else so_Addr o)
    (if String.eqb (so_ConfigDir o) "" then env else so_ConfigDir o) o.
Definition applyServeInternalDefaults (o : ServeOptions) : ServeOptions :=
  set_serve (so_Addr o) (if String.eqb (so_ConfigDir o) "" then defaultConfigsDir else so_ConfigDir o) o.

Definition resolveListenMode (mode : string) : string :=
  if String.eqb mode "" then ListenModeMTLS else mode.

Definition isLoopbackAddr (addr : string) : bool :=
  match SplitHostPort addr with
  | None => false
  | Some (host, _) =>
      if String.eqb host "localhost" then true
      else match ParseIP host with
           | Some address => IsLoopback address
           | None => false
           end
  end.

Section serve.
Context {U : UnicodeTables}.

Definition validateLocalHTTPServeOptions (o : ServeOptions) : option goerror :=
  if negb (isLoopbackAddr (so_Addr o))
  then Some (ErrNew ("local listen mode requires a loopback bind address, got " +:+ quote (so_Addr o)))
  else if tls_Enabled (so_TLS o)
  then Some (ErrNew "local listen mode cannot be combined with explicit server TLS inputs")
  else if negb (String.eqb (so_ManagedRoot o) "")
  then Some (ErrNew "local listen mode cannot be combined with managed development certificates")
  else if opt_TrustedProxyHeaders (so_HandlerOptions o)
  then Some (ErrNew "local listen mode cannot be combined with trusted proxy headers")
  else None.

Definition validateMTLSServeOptions (o : ServeOptions) : option goerror :=
  if negb (String.eqb (so_ManagedRoot o) "") && tls_Enabled (so_TLS o)
  then Some (ErrNew "managed development certificates cannot be combined with explicit server TLS inputs")
  else match tls_Validate (so_TLS o) with
  | Some err => Some err
  | None =>
      if opt_TrustedProxyHeaders (so_HandlerOptions o) then
        if negb (tls_Enabled (so_TLS o)) && String.eqb (so_ManagedRoot o) ""
        then Some (ErrNew "trusted proxy mode requires TLS")
        else match opt_TrustedProxyClientCNs (so_HandlerOptions o) with
             | [] => Some (ErrNew "trusted proxy mode requires at least one trusted proxy client CN")
             | _ => None
             end
      else None
  end.

Definition validateServeOptions (o : ServeOptions) : option goerror :=
  let mode := resolveListenMode (so_ListenMode o) in
  if String.eqb mode ListenModeMTLS then validateMTLSServeOptions o
  else if String.eqb mode ListenModeLocalHTTP then validateLocalHTTPServeOptions o
  else Some (ErrNew ("unsupported listen mode " +:+ quote (so_ListenMode o))).
End serve.

(** What [runServer] serves: the handler options and the checker. *)
Definition daemonIdentity (build : string * bool) (absolute : option string) (configDir listenMode : string) :
  Identity :=
  mkIdentity build.1 build.2 listenMode (default configDir absolute).

Definition served_options (identity : Identity) (o : ServeOptions) : HandlerOptions :=
  let h := so_HandlerOptions o in
  mkOptions true (opt_TrustedProxyHeaders h) (opt_TrustedProxyClientCNs h) (opt_RateLimiter h)
    (opt_MaxConcurrentAnalysesPerRepo h) (opt_DisableRegistration h) identity
    (String.eqb (resolveListenMode (so_ListenMode o)) ListenModeLocalHTTP).

Definition served_checker {R : RegexpEngine} (o : ServeOptions) : Checker :=
  mkChecker "" "" NilInterface ∅ false true None (so_BlockOnWarmup o) (so_AnalyzerTimeout o)
    (opt_MaxConcurrentAnalysesPerRepo (so_HandlerOptions o)).

(** [awaitShutdown]: what ended the wait, and the error of the graceful
    shutdown. *)
Inductive shutdown_event :=
| ContextDone (err : goerror)
| ShutdownRequested
| ServeReturned (closed : bool) (err : goerror).

Definition shutdown (failed returnErr : option goerror) : option goerror :=
  match failed with Some err => Some err | None => returnErr end.

Definition awaitShutdown (event : shutdown_event) (failed : option goerror) : option goerror :=
  match event with
  | ContextDone err => shutdown failed (Some err)
  | ShutdownRequested => shutdown failed None
  | ServeReturned closed err => if closed then None else Some err
  end.
