(* ===== verification/ServerProofs.v ===== *)
(** * Correctness of the daemon

    What the routes of [Server] guarantee: who is served, what an answer means,
    and that slots are given back. *)

From stdpp Require Import base gmap strings list fin_maps fin_sets.
From Stdlib Require Import ZArith Lia Ascii.
From S2P Require Import Prelude RepoLock.
From S2P Require Import GoStrings GoErrors GoFloat GoJson GoJsonPrint GoNet GoOS Fitness Metrics.
From S2P Require Import State RateLimit RepoName GovConfig Scoring ContentScoring Report Auth ConfigStore.
From S2P Require Import Governance Checker CheckerProofs Server.
Set Default Goal Selector "!".

(** ** Serve options *)

Definition tls_complete (c : ServerTLSConfig) : Prop :=
  tls_CertPath c ≠ "" ∧ tls_KeyPath c ≠ "" ∧ tls_CAPath c ≠ "".
Definition tls_absent (c : ServerTLSConfig) : Prop :=
  tls_CertPath c = "" ∧ tls_KeyPath c = "" ∧ tls_CAPath c = "".

(** The combinations a daemon may be started with. *)
Definition serve_options_ok (o : ServeOptions) : Prop :=
  let h := so_HandlerOptions o in
  if String.eqb (so_ListenMode o) "" || String.eqb (so_ListenMode o) ListenModeMTLS then
    (so_ManagedRoot o = "" ∧ tls_complete (so_TLS o) ∨ tls_absent (so_TLS o)) ∧
    (opt_TrustedProxyHeaders h = true →
     (tls_complete (so_TLS o) ∨ so_ManagedRoot o ≠ "") ∧ opt_TrustedProxyClientCNs h ≠ [])
  else
    so_ListenMode o = ListenModeLocalHTTP ∧ isLoopbackAddr (so_Addr o) = true ∧
    tls_absent (so_TLS o) ∧ so_ManagedRoot o = "" ∧ opt_TrustedProxyHeaders h = false.

Lemma tls_Enabled_absent c : tls_Enabled c = false ↔ tls_absent c.
Proof.
  unfold tls_Enabled, tls_absent.
  destruct (String.eqb_spec (tls_CertPath c) ""), (String.eqb_spec (tls_KeyPath c) ""),
    (String.eqb_spec (tls_CAPath c) ""); cbn; naive_solver.
Qed.
Lemma tls_Validate_ok c : tls_Validate c = None ↔ tls_absent c ∨ tls_complete c.
Proof.
  unfold tls_Validate, tls_Enabled, tls_absent, tls_complete.
  destruct (String.eqb_spec (tls_CertPath c) ""), (String.eqb_spec (tls_KeyPath c) ""),
    (String.eqb_spec (tls_CAPath c) ""); cbn; naive_solver.
Qed.

Lemma tls_Enabled_present c : tls_Enabled c = true → ¬ tls_absent c.
Proof. intros H Ha%tls_Enabled_absent. congruence. Qed.
Lemma tls_complete_present c : tls_complete c → ¬ tls_absent c.
Proof. unfold tls_complete, tls_absent. naive_solver. Qed.

Section serve_spec.
Context {U : UnicodeTables}.

Lemma validateMTLS_ok o :
  validateMTLSServeOptions o = None ↔
  (so_ManagedRoot o = "" ∧ tls_complete (so_TLS o) ∨ tls_absent (so_TLS o)) ∧
  (opt_TrustedProxyHeaders (so_HandlerOptions o) = true →
   (tls_complete (so_TLS o) ∨ so_ManagedRoot o ≠ "") ∧
   opt_TrustedProxyClientCNs (so_HandlerOptions o) ≠ []).
Proof.
  unfold validateMTLSServeOptions. pose proof (tls_Validate_ok (so_TLS o)) as Hv.
  pose proof (tls_complete_present (so_TLS o)) as Hc.
  destruct (tls_Enabled (so_TLS o)) eqn:He.
  - apply tls_Enabled_present in He.
    destruct (String.eqb_spec (so_ManagedRoot o) "") as [Hr|Hr]; cbn [negb andb]; [|naive_solver].
    destruct (tls_Validate (so_TLS o)); [naive_solver|].
    assert (tls_complete (so_TLS o)) by naive_solver.
    destruct (opt_TrustedProxyHeaders _); [|naive_solver].
    destruct (opt_TrustedProxyClientCNs _); naive_solver.
  - apply tls_Enabled_absent in He. rewrite andb_false_r.
    destruct (tls_Validate (so_TLS o)); [naive_solver|]. cbn [negb andb].
    destruct (opt_TrustedProxyHeaders _); [|naive_solver].
    destruct (String.eqb_spec (so_ManagedRoot o) "") as [Hr|Hr]; [naive_solver|].
    destruct (opt_TrustedProxyClientCNs _); naive_solver.
Qed.

Lemma validateLocal_ok o :
  validateLocalHTTPServeOptions o = None ↔
  isLoopbackAddr (so_Addr o) = true ∧ tls_absent (so_TLS o) ∧ so_ManagedRoot o = "" ∧
  opt_TrustedProxyHeaders (so_HandlerOptions o) = false.
Proof.
  unfold validateLocalHTTPServeOptions. rewrite <-tls_Enabled_absent.
  destruct (isLoopbackAddr _), (tls_Enabled _), (String.eqb_spec (so_ManagedRoot o) ""),
    (opt_TrustedProxyHeaders _); cbn; naive_solver.
Qed.

(** The validation of the serve options accepts exactly the safe
    combinations: mutual TLS with all three inputs, a managed root or neither,
    trusted proxy headers only over TLS with a list of proxies; or the local mode
    on a loopback address without TLS, managed certificates or proxy headers. *)
Theorem validateServeOptions_spec o : validateServeOptions o = None ↔ serve_options_ok o.
Proof.
  unfold validateServeOptions, serve_options_ok, resolveListenMode.
  destruct (String.eqb_spec (so_ListenMode o) "") as [Hm|Hm]; cbn [orb]; [apply validateMTLS_ok|].
  destruct (String.eqb_spec (so_ListenMode o) ListenModeMTLS) as [Hm'|Hm']; [apply validateMTLS_ok|].
  destruct (String.eqb_spec (so_ListenMode o) ListenModeLocalHTTP) as [Hl|Hl]; [|naive_solver].
  rewrite validateLocal_ok. naive_solver.
Qed.
End serve_spec.

(** ** Who is served *)

Definition guarded_routes : list string :=
  ["/check"; "/state"; "/preflight"; "/configs"; "/register"; "/functions"; "/shutdown"].

Section routes.
Context {R : RegexpEngine} {O : GoMapOrder} {U : UnicodeTables} {J : JsonErrorText}
        {N : JsonNumberText} {E : OSEnv} {T : Toolchain} {D : Digests}
        {IA : Interference App} {IC : Interference ConfigStore} {IS : Interference Srv}.

Lemma guarded_route c options deferred path done r :
  path ∈ guarded_routes →
  ∃ next, NewHandlerWithOptions c options deferred path done r = withAuthenticatedCaller next options r.
Proof.
  unfold guarded_routes. rewrite !elem_of_cons.
  intros [->|[->|[->|[->|[->|[->|[->|[]%elem_of_nil]]]]]]]; cbn; eauto.
Qed.

(** The identity a started daemon accepts: the user of the machine on a loopback
    listener, or the name a verified peer certificate carries, or one that a
    trusted proxy asserts. *)
Definition authentic (o : ServeOptions) (r : http_request) (caller : string) : Prop :=
  if String.eqb (resolveListenMode (so_ListenMode o)) ListenModeLocalHTTP then
    caller = localCallerName ∧ isLoopbackAddr (so_Addr o) = true ∧
    ∃ host port ip, SplitHostPort (r_RemoteAddr r) = Some (host, port) ∧
      ParseIP host = Some ip ∧ IsLoopback ip = true
  else
    caller ≠ localCallerName ∧ caller ≠ "" ∧
    ∃ t cn rest, r_TLS r = Some t ∧ tls_PeerCertificates t = cn :: rest ∧
      if opt_TrustedProxyHeaders (so_HandlerOptions o) then
        (0 < tls_VerifiedChains t)%nat ∧ normalizeCallerName (r_ClientCN r) = Ok caller ∧
        ∃ proxy allowed, normalizeCallerName cn = Ok proxy ∧
          allowed ∈ opt_TrustedProxyClientCNs (so_HandlerOptions o) ∧ normalizeCallerName allowed = Ok proxy
      else normalizeCallerName cn = Ok caller.

Lemma extracted_authentic identity o r caller :
  validateServeOptions o = None →
  extractCallerName r (served_options identity o) = Ok caller → authentic o r caller.
Proof using U.
  intros Hv He. pose proof (extractCallerName_spec r (served_options identity o)) as Hs.
  rewrite He in Hs. unfold authentic. cbn [opt_LocalHTTP served_options] in Hs.
  destruct (String.eqb_spec (resolveListenMode (so_ListenMode o)) ListenModeLocalHTTP) as [Hm|Hm].
  - destruct Hs as [-> Hs]. split; [done|]. split; [|exact Hs].
    unfold validateServeOptions in Hv. rewrite Hm in Hv.
    by apply validateLocal_ok in Hv as [? _].
  - exact Hs.
Qed.

(** C3: nobody is served without an identity.  A daemon whose options passed the
    validation answers every route but the health check with 401, without
    touching anything, unless the request carries an authentic caller; and then
    the handler sees exactly that caller. *)
Theorem daemon_authenticates identity o c deferred path done r w
    (Hvalid : validateServeOptions o = None) (Hpath : path ∈ guarded_routes) :
  NewHandlerWithOptions c (served_options identity o) deferred path done r w = (Returned writeUnauthorized, w) ∨
  ∃ caller, authentic o r caller ∧ extractCallerName r (served_options identity o) = Ok caller.
Proof.
  destruct (guarded_route c (served_options identity o) deferred path done r Hpath) as [next ->].
  unfold withAuthenticatedCaller. cbn [opt_RequireAuthentication served_options negb].
  destruct (extractCallerName r (served_options identity o)) as [caller|] eqn:He; [right|by left].
  exists caller. split; [by eapply extracted_authentic|done].
Qed.

(** *** Answers of /check *)

(** The part of the world a checker works on, and its way back. *)
Definition app_world (w : world Srv) : world App :=
  mkWorld (srv_app (w_app w)) (w_files w) (w_dirs w) (w_clock w).
Definition srv_world (w : world Srv) (w' : world App) : world Srv :=
  mkWorld (put_app (w_app w') (w_app w)) (w_files w') (w_dirs w') (w_clock w').

Lemma wp_on_app {A} (m : M App A) Q w :
  wp m (λ o w', Q o (srv_world w w')) (app_world w) → wp (on_app m) Q w.
Proof using. unfold wp, on_app, zoom. fold (app_world w). by destruct (m (app_world w)). Qed.

(** [Q] holds of every response with status 200. *)
Definition answers {S} (Q : response → Prop) (o : outcome response) (_ : world S) : Prop :=
  match o with Returned resp => resp_Status resp = 200%Z → Q resp | _ => True end.

Lemma writeCheckError_status err : resp_Status (writeCheckError err) ∈ [400; 404; 500; 503; 504]%Z.
Proof using.
  unfold writeCheckError. destruct (errors_as_check err) as [[[[] m] inner]|]; cbn; set_solver.
Qed.
Lemma writeAuthorizationError_status err : resp_Status (writeAuthorizationError err) ∈ [400; 403]%Z.
Proof using.
  unfold writeAuthorizationError, isInputError, error_kind, writeCheckError.
  destruct (errors_as_check err) as [[[[] m] inner]|]; cbn; set_solver.
Qed.
Lemma writeJSON_status p : resp_Status (writeJSON p) = 200%Z → writeJSON p = mkResponse 200 p.
Proof using. unfold writeJSON. by case_match. Qed.
Lemma decode_status r resp :
  decodeValidationRequest r = Err resp → resp_Status resp ∈ [400; 413]%Z.
Proof using.
  unfold decodeValidationRequest. destruct (r_Body r) as [raw|]; [|intros [= <-]; cbn; set_solver].
  case_match; [intros [= <-]; cbn; set_solver|]. case_match; [done|]. intros [= <-]; cbn; set_solver.
Qed.
Lemma not_200 resp (l : list Z) (P : Prop) :
  resp_Status resp ∈ l → 200%Z ∉ l → resp_Status resp = 200%Z → P.
Proof using. intros H1 H2 H3. by rewrite H3 in H1. Qed.

(** The shared state while a request is served that found it as [a0]: what other
    goroutines make of it, and the permits the handler takes; no handler of /check
    writes to the store. *)
Inductive served (a0 : App) : App → Prop :=
| served_first : served a0 a0
| served_beside_check t a : served a0 a → served a0 (interfere t a)
| served_beside_handler t (s : Srv) : served a0 (srv_app s) → served a0 (srv_app (interfere t s))
| served_lock act a : served a0 a → served a0 (lock_action act a).

Lemma served_undisturbed a0 a
    (HA : ∀ t (a : App), app_store (interfere t a) = app_store a)
    (HS : ∀ t (b : Srv), app_store (srv_app (interfere t b)) = app_store (srv_app b)) :
  served a0 a → app_store a = app_store a0.
Proof. induction 1 as [|t a _ IH|t s _ IH|act a _ IH]; [done|by rewrite HA|by rewrite HS|exact IH]. Qed.
#[local] Instance served_kept a0 : KeptByOthers IA (served a0) := served_beside_check a0.

(** The meaning of an answer to a check: the verdict is justified under the
    configuration that the store has for the repository, when the check read it and
    with the shared state as the check found it, which was served since [a0]. *)
Definition means_verdict (a0 : App) (c : Checker) (request : ValidationRequest) (resp : response) : Prop :=
  chk_ConfigStore c = true ∧
  ∃ v config repo a t, resp = mkResponse 200 (PVerdict v) ∧ served a0 a ∧
    loadConfig (Some (app_store (interfere t a))) (req_Repo request) = Ok (config, repo) ∧
    justified (reaches request repo a) c request config repo v.

Lemma keeps_slot (P : App → Prop) {HP : KeptByOthers IA P} repo n :
  (∀ act a, P a → P (lock_action act a)) → keeps P (acquireConcurrencySlot repo n).
Proof using.
  intros Hl. unfold acquireConcurrencySlot, TryLockRepoN. case_match; [apply keeps_ret|].
  apply keeps_bind; [|by intros [h|]; apply keeps_ret].
  apply keeps_bind; [apply (keeps_access P); intros a; apply Hl|intros h].
  apply keeps_bind; [apply (keeps_access P); intros a; apply Hl|intros [|]; [apply keeps_ret|]].
  apply keeps_bind; [apply (keeps_modify P), Hl|intros ?; apply keeps_ret].
Qed.
Lemma keeps_localPhysicalRepoPath (P : App → Prop) repo canonical :
  keeps P (localPhysicalRepoPath repo canonical).
Proof using.
  unfold localPhysicalRepoPath, physicalRepoPath. apply keeps_bind.
  - case_match; [apply keeps_ret|]. apply keeps_bind; [apply keeps_Stat|].
    intros [[]|]; apply keeps_ret.
  - intros ?. repeat case_match; apply keeps_ret.
Qed.

Lemma answers_check_slotted a0 c ctx request n w :
  served a0 (w_app w) →
  wp (check_slotted c ctx request n) (answers (means_verdict a0 c request)) w.
Proof using.
  intros Hw. unfold check_slotted. apply wp_bind.
  eapply wp_mono; [apply (wp_keeps _ _ _ (keeps_slot (served a0) _ _ (served_lock a0)) Hw)|].
  intros [s|p|] w1 Hw1; cbn [chain]; [|done..].
  assert (wp (with_deferred
    (let! checked := Check c ctx request in
     match checked with
     | Err err => ret (writeCheckError err)
     | Ok v => ret (writeJSON (PVerdict v))
     end) (releaseSlot s) (λ r _, r)) (answers (means_verdict a0 c request)) w1) as Hrun.
  2: { destruct s; [exact Hrun..|by apply wp_ret]. }
  unfold wp, with_deferred, bind.
  destruct (Check c ctx request w1) as [[[v|err]|p|] w2] eqn:Hc; cbn.
  - destruct (releaseSlot s w2) as [[b|p|] w3]; cbn; [|done..].
    intros H%writeJSON_status. rewrite H.
    apply Check_justified in Hc as (Hs & config & repo & Hl & Hj). split; [done|].
    by exists v, config, repo, (w_app w1), (w_clock w1).
  - destruct (releaseSlot s w2) as [[b|p|] w3]; cbn; [|done..].
    eapply not_200; [apply writeCheckError_status|set_solver].
  - by destruct (releaseSlot s w2) as [[b|p'|] w3].
  - done.
Qed.

(** After the rate limiter. *)
Lemma wp_rate_allowed {A} options caller (k : bool → M Srv A) Q w :
  (∀ ok w', w_files w' = w_files w → wp (k ok) Q w') → wp (bind (rate_allowed options caller) k) Q w.
Proof using.
  intros Hk. apply wp_bind. unfold wp at 1, rate_allowed. case_match; [by apply Hk|].
  unfold bind, Now, access. destruct (Allow _ _ _) as [ok l]. cbn. by apply Hk.
Qed.

Lemma served_rate_allowed {A} a0 options caller (k : bool → M Srv A) Q w :
  served a0 (srv_app (w_app w)) → (∀ ok w', served a0 (srv_app (w_app w')) → wp (k ok) Q w') →
  wp (bind (rate_allowed options caller) k) Q w.
Proof using.
  intros Hw Hk. apply wp_bind. unfold wp at 1, rate_allowed. case_match; [by apply Hk|].
  unfold bind, Now, access. destruct (Allow _ _ _) as [ok l]. cbn. apply Hk. by apply served_beside_handler.
Qed.

Lemma served_store_policy {A} a0 c (k : option CallerRepoPolicy → M Srv A) Q w :
  served a0 (srv_app (w_app w)) →
  (∀ w', served a0 (srv_app (w_app w')) →
     wp (k (if chk_ConfigStore c then Some (cs_callerPolicy (app_store (srv_app (w_app w')))) else None)) Q w') →
  wp (bind (store_policy c) k) Q w.
Proof using.
  intros Hw Hk. apply wp_bind, wp_on_app. unfold wp at 1.
  exact (Hk (srv_world w (tick (set_app (interfere (w_clock w) (srv_app (w_app w))) (app_world w))))
    (served_beside_check a0 _ _ Hw)).
Qed.

(** C2: the verdicts of the daemon mean something.  Whatever fails and whatever else
    runs, a 200 answer of /check under authentication is given to an authenticated
    caller, whom the policy of the store the daemon served then authorized for the
    repository, and it is a verdict that is justified, by [justified], for the decoded
    request on that repository, under the configuration that the store served from then
    on had for it, and with the violations of other files that the blackboard then
    held.  Without interference the store is the one at the start
    ([served_undisturbed]). *)
Theorem check_answer_justified c options deferred done r w resp w'
    (Hauth : opt_RequireAuthentication options = true)
    (Hrun : NewHandlerWithOptions c options deferred "/check" done r w = (Returned resp, w'))
    (Hok : resp_Status resp = 200%Z) :
  ∃ caller request a repo, extractCallerName r options = Ok caller ∧
    decodeValidationRequest (with_caller caller r) = Ok request ∧
    served (srv_app (w_app w)) a ∧
    authorizeRepoAccess options (Some (cs_callerPolicy (app_store a))) caller (req_Repo request) = Ok repo ∧
    means_verdict a (handler_checker c options deferred) (set_Repo repo request) resp.
Proof.
  change (NewHandlerWithOptions c options deferred "/check" done r) with
    (withAuthenticatedCaller (checkHandler (handler_checker c options deferred) options done) options r) in Hrun.
  unfold withAuthenticatedCaller in Hrun. rewrite Hauth in Hrun. cbn [negb] in Hrun.
  destruct (extractCallerName r options) as [caller|] eqn:He; [|by injection Hrun as <-].
  set (r1 := with_caller caller r) in *. set (c' := handler_checker c options deferred) in *.
  assert (resolveCheckCaller r1 options = caller) as Hcaller.
  { unfold resolveCheckCaller. rewrite Hauth, andb_false_r. done. }
  enough (wp (checkHandler c' options done r1) (answers (λ resp, ∃ request a repo,
    decodeValidationRequest r1 = Ok request ∧ served (srv_app (w_app w)) a ∧
    authorizeRepoAccess options (Some (cs_callerPolicy (app_store a))) caller (req_Repo request) = Ok repo ∧
    means_verdict a c' (set_Repo repo request) resp)) w) as H.
  { unfold wp in H. rewrite Hrun in H. destruct (H Hok) as (request & a & repo & ?).
    by exists caller, request, a, repo. }
  clear Hrun Hok. unfold checkHandler. rewrite Hcaller, Hauth. cbn [negb].
  destruct (negb (String.eqb _ "POST")); [done|].
  apply (served_rate_allowed (srv_app (w_app w))); [constructor|]. intros ok w1 Hw1. destruct ok; [|done]. cbn [negb].
  destruct (decodeValidationRequest r1) as [request|resp1] eqn:Hd.
  2: { apply wp_ret. cbn. eapply not_200; [by eapply decode_status|set_solver]. }
  apply (served_store_policy (srv_app (w_app w))); [done|]. intros w2 Hw2.
  destruct (authorizeRepoAccess options _ caller (req_Repo request)) as [repo|err] eqn:Ha.
  2: { apply wp_ret. cbn. eapply not_200; [apply writeAuthorizationError_status|set_solver]. }
  assert (wp (if opt_LocalHTTP options then on_app (localPhysicalRepoPath (req_Repo request) repo) else ret "")
    (λ _ w3, served (srv_app (w_app w2)) (srv_app (w_app w3))) w2) as Hpath.
  { destruct (opt_LocalHTTP options); [|apply served_first].
    apply wp_on_app. apply (wp_keeps (served (srv_app (w_app w2)))); [apply keeps_localPhysicalRepoPath|constructor]. }
  apply wp_bind. eapply wp_mono; [exact Hpath|]. intros [physical|p|] w3 Hw3; cbn [chain]; [|done..].
  apply wp_on_app. eapply wp_mono; [by apply (answers_check_slotted (srv_app (w_app w2)))|].
  intros [resp1|p|] w4; cbn; [|done..]. intros H Hs. specialize (H Hs).
  exists request, (srv_app (w_app w2)), repo. split_and!; try done. destruct H as [Hc _]. by rewrite Hc in Ha.
Qed.
End routes.

(** ** The embedded catalog *)

Lemma governance_encodable {R : RegexpEngine} {J : JsonErrorText} {D : Digests} :
  payload_encodable (buildFunctionsResponse
    (map_imap (λ name rule, Some (catalog_entry name rule)) (pat_FitnessFunctions governance_pattern))) = true.
Proof. vm_compute. reflexivity. Qed.

Lemma governance_covers_defaults name :
  defaultFitnessFunctions !! name = Some true → is_Some (pat_FitnessFunctions governance_pattern !! name).
Proof.
  assert (map_Forall (λ name on, on = true → is_Some (pat_FitnessFunctions governance_pattern !! name))
    defaultFitnessFunctions) as H by (apply (bool_decide_eq_true_1 _); vm_compute; reflexivity).
  intros Hn. by apply (H name true).
Qed.

(** ** One request at a time *)

Definition alone_srv {R : RegexpEngine} : Interference Srv := no_interference.

Section quiet.
Context {R : RegexpEngine} {O : GoMapOrder} {U : UnicodeTables} {J : JsonErrorText}
        {N : JsonNumberText} {E : OSEnv} {T : Toolchain} {D : Digests}
        {IC : Interference ConfigStore}.
#[local] Existing Instances alone kept_alone alone_srv.

(** The policy in force. *)
Definition policy_of (c : Checker) (w : world Srv) : option CallerRepoPolicy :=
  if chk_ConfigStore c then Some (cs_callerPolicy (app_store (srv_app (w_app w)))) else None.

(** Nothing but the limiter and the clock moved. *)
Definition untouched (w w' : world Srv) : Prop :=
  srv_app (w_app w') = srv_app (w_app w) ∧ w_files w' = w_files w ∧ w_dirs w' = w_dirs w ∧
  srv_deferredCanceled (w_app w') = srv_deferredCanceled (w_app w) ∧
  srv_shutdownRequested (w_app w') = srv_shutdownRequested (w_app w).

Lemma rate_allowed_run options caller w :
  ∃ ok w', rate_allowed options caller w = (Returned ok, w') ∧ untouched w w'.
Proof using.
  unfold rate_allowed. case_match; [by exists true, w|].
  unfold bind, Now, access. cbn. unfold interfere, alone_srv, no_interference.
  destruct (Allow _ _ _) as [ok l]. eexists ok, _. split; [reflexivity|done].
Qed.

Lemma store_policy_run c w :
  ∃ w', store_policy c w = (Returned (policy_of c w), w') ∧ untouched w w'.
Proof using. eexists. split; [reflexivity|]. by destruct w as [[]]. Qed.

(** A refused check touches nothing.  When the request is not authenticated,
    is not a valid check request or names a repository the policy does not grant
    its caller, /check answers with a client error and no check runs: no lock,
    no blackboard, no file and no configuration changes. *)
Theorem check_refusal_untouched c options deferred done r w
    (Hauth : opt_RequireAuthentication options = true)
    (Hrefused : ∀ caller request,
       extractCallerName r options = Ok caller → decodeValidationRequest r = Ok request →
       is_ok (authorizeRepoAccess options (policy_of c w) caller (req_Repo request)) = false) :
  ∃ resp w', NewHandlerWithOptions c options deferred "/check" done r w = (Returned resp, w') ∧
    resp_Status resp ∈ [400; 401; 403; 405; 413; 429]%Z ∧ untouched w w'.
Proof.
  change (NewHandlerWithOptions c options deferred "/check" done r) with
    (withAuthenticatedCaller (checkHandler (handler_checker c options deferred) options done) options r).
  unfold withAuthenticatedCaller. rewrite Hauth. cbn [negb].
  destruct (extractCallerName r options) as [caller|] eqn:He.
  2: { eexists _, _. split; [reflexivity|]. cbn. split; [set_solver|done]. }
  unfold checkHandler, resolveCheckCaller. rewrite Hauth, andb_false_r. cbn [negb authenticatedCaller with_caller r_caller fst].
  destruct (negb _).
  { eexists _, _. split; [reflexivity|]. cbn. split; [set_solver|done]. }
  unfold bind at 1. destruct (rate_allowed_run options caller w) as (ok & w1 & Hr & Hu). rewrite Hr.
  destruct ok; cbn [negb].
  2: { eexists _, _. split; [reflexivity|]. cbn. split; [set_solver|done]. }
  change (decodeValidationRequest (with_caller caller r)) with (decodeValidationRequest r).
  destruct (decodeValidationRequest r) as [request|resp] eqn:Hd.
  2: { eexists _, _. split; [reflexivity|]. apply decode_status in Hd. split; [set_solver|done]. }
  unfold bind at 1.
  destruct (store_policy_run (handler_checker c options deferred) w1) as (w2 & Hp & Hu2). rewrite Hp.
  assert (policy_of (handler_checker c options deferred) w1 = policy_of c w) as ->
    by (unfold policy_of; cbn; by destruct Hu as [-> _]).
  specialize (Hrefused caller request eq_refl eq_refl).
  destruct (authorizeRepoAccess _ _ _ _) as [repo|err]; [done|].
  eexists _, _. split; [reflexivity|]. pose proof (writeAuthorizationError_status err).
  split; [set_solver|]. unfold untouched in *. naive_solver congruence.
Qed.

(** *** Slots *)

Lemma calls_ATry h repo n a :
  calls a !! h = None →
  ∃ l, calls (lock_action (ATry h repo n) a) = <[h := mkCall repo l Trying]> (calls a).
Proof using.
  intros Hh. unfold lock_action, calls in *. cbn [exec begin_call]. unfold begin_call. rewrite Hh.
  pose proof (calls_ensureRepoLock repo (Z.to_nat (normalizePermits n)) (app_locks a)) as Hc.
  destruct (ensureRepoLock _ _ _) as [l c']. exists l. cbn in *. by rewrite Hc.
Qed.

Lemma calls_ATryReceive h repo l a :
  calls a !! h = Some (mkCall repo l Trying) →
  ∃ p, (p = Holding ∨ p = Leaving) ∧
    calls (lock_action (ATryReceive h) a) = <[h := mkCall repo l p]> (calls a).
Proof using.
  intros Hh. unfold lock_action, calls in *. cbn. rewrite Hh.
  case_decide; [exists Leaving|exists Holding]; cbn; auto.
Qed.

(** What a request for a slot leaves behind. *)
Definition slot_taken (c0 : gmap nat RepoLock.call) (js : list job) (o : outcome slot) (w : world App) : Prop :=
  match o with
  | Returned (Slot h) => c0 !! h = None ∧
      ∃ repo l, handles (<[h := mkCall repo l Holding]> c0) js (w_app w)
  | Returned _ => handles c0 js (w_app w)
  | _ => False
  end.

Lemma acquireConcurrencySlot_taken repo n c0 js w :
  handles c0 js (w_app w) → wp (acquireConcurrencySlot repo n) (slot_taken c0 js) w.
Proof using.
  intros [Hc Hj]. unfold acquireConcurrencySlot. case_match; [done|].
  unfold TryLockRepoN. apply wp_bind, wp_bind. unfold wp at 1, access. cbn [fst snd chain].
  unfold interfere at 1 2, alone, no_interference.
  set (h := fresh _). assert (calls (w_app w) !! h = None) as Hh.
  { apply (not_elem_of_dom (D := gset nat)). apply is_fresh. }
  destruct (calls_ATry h repo n (w_app w) Hh) as [l Hl].
  set (a1 := lock_action (ATry h repo n) (w_app w)) in *.
  assert (app_jobs a1 = js) as Hj1 by exact Hj.
  apply wp_bind. unfold wp at 1. cbn [fst snd chain w_app tick set_app w_clock].
  change (lock_action (ATryReceive h) (interfere (S (w_clock w))
    (lock_action (ATry h repo n) (interfere (w_clock w) (w_app w))))) with (lock_action (ATryReceive h) a1).
  destruct (calls_ATryReceive h repo l a1) as (p & Hp & Hr); [by rewrite Hl, lookup_insert_eq|].
  set (a2 := lock_action (ATryReceive h) a1) in *.
  assert (app_jobs a2 = js) as Hj2 by exact Hj. rewrite Hl, insert_insert_eq, Hc in Hr. rewrite Hc in Hh.
  change (cf_calls (app_locks a2)) with (calls a2). rewrite Hr, lookup_insert_eq. cbn [fmap option_fmap option_map call_phase].
  destruct Hp as [-> | ->].
  - rewrite bool_decide_true by done. unfold wp. cbn. split; [done|]. by exists repo, l.
  - rewrite bool_decide_false by done. unfold wp, bind, modify, access. cbn.
    unfold interfere, alone, no_interference. split; [|exact Hj].
    rewrite (calls_ALeave h repo l) by by rewrite Hr, lookup_insert_eq.
    by rewrite Hr, delete_insert_id.
Qed.

(** How a request leaves the locks: as they were, or with one lock more that the
    one new deferred check owns. *)
Definition slots_settled {A} (warming : A) (c0 : gmap nat RepoLock.call) (js : list job)
    (o : outcome A) (a : App) : Prop :=
  o ≠ Blocked → handles c0 js a ∨
  ∃ j l, o = Returned warming ∧ c0 !! job_lock j = None ∧
    handles (<[job_lock j := mkCall (job_repo j) l Holding]> c0) (js ++ [j]) a.

Definition warming_answer : response := mkResponse 200 (PVerdict (mkResult StatusPass true [])).

(** Releasing one lock under another. *)
Lemma unlockRepo_under h repo l k t cs js w :
  cs !! h = None → <[h := mkCall repo l Holding]> cs !! k = None →
  handles (<[k := t]> (<[h := mkCall repo l Holding]> cs)) js (w_app w) →
  wp (unlockRepo h) (λ o w', o = Returned tt ∧ cs !! k = None ∧ handles (<[k := t]> cs) js (w_app w')) w.
Proof using.
  intros Hh Hk Hw. destruct (decide (k = h)) as [->|Hne]; [by rewrite lookup_insert_eq in Hk|].
  rewrite lookup_insert_ne in Hk by done. rewrite insert_insert_ne in Hw by done.
  eapply wp_mono; [eapply unlockRepo_handles; [|exact Hw]; by rewrite lookup_insert_ne|].
  by intros o w' [-> ?].
Qed.

Lemma check_slotted_settled c ctx request n c0 js w :
  handles c0 js (w_app w) →
  wp (check_slotted c ctx request n) (λ o w', slots_settled warming_answer c0 js o (w_app w')) w.
Proof using.
  intros Hw. unfold check_slotted. apply wp_bind.
  eapply wp_mono; [by apply acquireConcurrencySlot_taken|]. intros [s|p|] w1; [|done..]. cbn [chain slot_taken].
  intros Hs.
  set (body := let! checked := Check c ctx request in
     match checked with
     | Err err => ret (writeCheckError err)
     | Ok v => ret (writeJSON (PVerdict v))
     end).
  assert (∀ cs, handles cs js (w_app w1) →
    wp body (λ o w', slots_settled warming_answer cs js o (w_app w')) w1) as Hbody.
  { intros cs Hcs. apply wp_bind. eapply wp_mono; [by apply (settled_Check c ctx request cs js)|].
    intros [[v|err]|p|] w2 Hset; cbn [chain];
      [| |intros _; destruct (Hset ltac:(done)) as [?|(?&?&?&?)]; [by left|done]|by intros []].
    - intros _. destruct (Hset ltac:(done)) as [?|(j & l & [= ->] & ?)]; [by left|right].
      exists j, l. done.
    - intros _. destruct (Hset ltac:(done)) as [?|(?&?&?&?)]; [by left|done]. }
  destruct s as [|h|]; [..|by left].
  - specialize (Hbody _ Hs). unfold wp, with_deferred in *. cbn [releaseSlot ret].
    destruct (body w1) as [[r|p|] w2]; exact Hbody.
  - destruct Hs as (Hh & repo & l & Hs). specialize (Hbody _ Hs).
    unfold wp, with_deferred in *. cbn [releaseSlot].
    destruct (body w1) as [[r|p|] w2]; cbn [fst snd] in Hbody; [| |by intros []].
    + destruct (Hbody ltac:(done)) as [Hb|(j & l' & [= ->] & Hj & Hb)].
      * destruct (unlockRepo_handles h repo l c0 js w2 Hh Hb) as [Ho Hu].
        destruct (unlockRepo h w2) as [o w3]. cbn [fst snd] in *. subst o. by left.
      * destruct (unlockRepo_under h repo l _ _ c0 _ w2 Hh Hj Hb) as (Ho & ? & Hu).
        destruct (unlockRepo h w2) as [o w3]. cbn [fst snd] in *. subst o. intros _. right. eauto 10.
    + destruct (Hbody ltac:(done)) as [Hb|(? & ? & ? & ?)]; [|done].
      destruct (unlockRepo_handles h repo l c0 js w2 Hh Hb) as [Ho Hu].
      destruct (unlockRepo h w2) as [o w3]. cbn [fst snd] in *. subst o. by left.
Qed.

(** No request leaks a permit.  However a /check request ends short of
    hanging (refused, answered, failed or panicking), every concurrency slot and
    repository lock it took is given back; the only exception is the warming
    answer, which leaves exactly one lock with exactly one new deferred check. *)
Theorem check_request_settles c options deferred done r w :
  let '(o, w') := NewHandlerWithOptions c options deferred "/check" done r w in
  slots_settled warming_answer (calls (srv_app (w_app w))) (app_jobs (srv_app (w_app w))) o (srv_app (w_app w')).
Proof.
  set (c0 := calls _). set (js := app_jobs _).
  assert (handles c0 js (srv_app (w_app w))) as Hw by done. clearbody c0 js.
  enough (wp (NewHandlerWithOptions c options deferred "/check" done r)
    (λ o w', slots_settled warming_answer c0 js o (srv_app (w_app w'))) w) as H.
  { unfold wp in H. by destruct (NewHandlerWithOptions _ _ _ _ _ _ w). }
  change (NewHandlerWithOptions c options deferred "/check" done r) with
    (withAuthenticatedCaller (checkHandler (handler_checker c options deferred) options done) options r).
  assert (∀ r ctx request n w, handles c0 js (srv_app (w_app w)) →
    wp (on_app (check_slotted r ctx request n))
      (λ o w', slots_settled warming_answer c0 js o (srv_app (w_app w'))) w) as Hslot.
  { intros. apply wp_on_app. by apply check_slotted_settled. }
  assert (∀ resp w, handles c0 js (srv_app (w_app w)) →
    wp (ret resp) (λ o w', slots_settled warming_answer c0 js o (srv_app (w_app w'))) w) as Hret
    by (intros; by left).
  unfold withAuthenticatedCaller. enough (∀ r, wp (checkHandler (handler_checker c options deferred) options done r)
    (λ o w', slots_settled warming_answer c0 js o (srv_app (w_app w'))) w) as H.
  { destruct (negb _); [apply H|]. destruct (extractCallerName r options); [apply H|by apply Hret]. }
  clear r. intros r. unfold checkHandler. destruct (negb (String.eqb _ _)); [by apply Hret|].
  apply wp_bind. unfold wp at 1. destruct (rate_allowed_run options (resolveCheckCaller r options) w)
    as (ok & w1 & Hr & Hu1). rewrite Hr. cbn [fst snd chain]. destruct Hu1 as [Ha1 _]. rewrite <-Ha1 in Hw.
  destruct (negb ok); [by apply Hret|]. destruct (decodeValidationRequest r) as [request|]; [|by apply Hret].
  destruct (negb (opt_RequireAuthentication options)); [by apply Hslot|].
  apply wp_bind. unfold wp at 1. destruct (store_policy_run (handler_checker c options deferred) w1)
    as (w2 & Hp & Hu2). rewrite Hp. cbn [fst snd chain]. destruct Hu2 as [Ha2 _]. rewrite <-Ha2 in Hw.
  destruct (authorizeRepoAccess _ _ _ _) as [repo|]; [|by apply Hret]. apply wp_bind.
  assert (∀ m : M App string, keeps (handles c0 js) m → wp (on_app m)
    (chain (λ physical, wp (on_app (check_slotted (handler_checker c options deferred)
      (request_context done (if String.eqb physical "" then r else withPhysicalRepoPath physical r))
      (set_Repo repo request) (opt_MaxConcurrentAnalysesPerRepo options)))
      (λ o w', slots_settled warming_answer c0 js o (srv_app (w_app w'))))
      (λ o w', slots_settled warming_answer c0 js o (srv_app (w_app w')))) w2) as Hphys.
  { intros m Hm. apply wp_on_app. specialize (Hm (app_world w2) Hw). unfold wp at 1.
    destruct (m (app_world w2)) as [[x|p|] w3]; cbn [fst snd chain] in *; [by apply Hslot|by left|by intros []]. }
  destruct (opt_LocalHTTP options); [|exact (Hslot _ _ _ _ _ Hw)].
  apply Hphys. unfold localPhysicalRepoPath. apply keeps_bind;
    [apply (keeps_physicalRepoPath (handles c0 js))|intros repoPath].
  repeat case_match; apply keeps_ret.
Qed.

(** *** Administration *)

(** The caller of a request is an administrator of the daemon. *)
Definition from_admin (c : Checker) (options : HandlerOptions) (r : http_request) (w : world Srv) : bool :=
  match extractCallerName r options with
  | Ok caller => callerIsAdmin options (policy_of c w) caller
  | Err _ => false
  end.

Lemma admin_gate_closed c options route r caller w :
  opt_RequireAuthentication options = true →
  callerIsAdmin options (policy_of c w) caller = false →
  ∃ resp w', admin_gate c options route (with_caller caller r) w = (Returned (Some resp), w') ∧
    resp_Status resp ∈ [401; 403; 503]%Z ∧ untouched w w'.
Proof using.
  intros Hauth Hadmin. unfold admin_gate. rewrite Hauth. cbn [negb authenticatedCaller with_caller r_caller].
  destruct (negb (negb _)). { eexists _, _. split; [reflexivity|]. split; [cbn; set_solver|done]. }
  destruct (negb (chk_ConfigStore c)). { eexists _, _. split; [reflexivity|]. split; [cbn; set_solver|done]. }
  unfold bind. destruct (store_policy_run c w) as (w1 & -> & Hu). rewrite Hadmin.
  eexists _, _. split; [reflexivity|]. split; [cbn; set_solver|done].
Qed.

(** The administrative routes are closed to everybody else.  A request to
    /configs or /shutdown whose caller is not an administrator gets an error and
    changes nothing; in particular the daemon keeps running and no configuration
    is disclosed. *)
Theorem admin_routes_closed c options deferred path done r w
    (Hauth : opt_RequireAuthentication options = true) (Hpath : path ∈ ["/configs"; "/shutdown"])
    (Hadmin : from_admin c options r w = false) :
  ∃ resp w', NewHandlerWithOptions c options deferred path done r w = (Returned resp, w') ∧
    resp_Status resp ∈ [401; 403; 405; 503]%Z ∧ untouched w w'.
Proof.
  set (c' := handler_checker c options deferred).
  assert (NewHandlerWithOptions c options deferred path done r =
    withAuthenticatedCaller (if String.eqb path "/configs" then configsHandler c' options
                             else shutdownHandler c' options (match chk_DeferredContext c with
                                    None => cancel_deferred | Some _ => λ s, s end)) options r) as ->.
  { rewrite !elem_of_cons in Hpath. by destruct Hpath as [->|[->|[]%elem_of_nil]]. }
  unfold withAuthenticatedCaller. rewrite Hauth. cbn [negb]. unfold from_admin in Hadmin.
  destruct (extractCallerName r options) as [caller|].
  2: { eexists _, _. split; [reflexivity|]. split; [cbn; set_solver|done]. }
  change (policy_of c w) with (policy_of c' w) in Hadmin.
  destruct (String.eqb path "/configs"); [unfold configsHandler|unfold shutdownHandler];
    (destruct (negb (String.eqb _ _));
      [by eexists _, _; split; [reflexivity|]; split; [cbn; set_solver|]|]).
  - destruct (admin_gate_closed c' options "/configs" r caller w Hauth Hadmin) as (resp & w' & Hg & ? & ?).
    exists resp, w'. unfold bind at 1. rewrite Hg. split; [done|]. split; [set_solver|done].
  - destruct (admin_gate_closed c' options "/shutdown" r caller w Hauth Hadmin) as (resp & w' & Hg & ? & ?).
    exists resp, w'. unfold bind at 1. rewrite Hg. split; [done|]. split; [set_solver|done].
Qed.

(** *** Preflight *)

(** The preflight answer predicts the check.  For a repository name it
    accepts, "authorized" and "valid" in the answer are exactly the conditions
    under which a check of that repository by that caller passes authorization
    and finds its configuration, and the mode it reports is the mode that check
    runs in. *)
Theorem preflight_predicts_check c options caller repo name w
    (Hstore : chk_ConfigStore c = true) (Hname : validateRepoName repo = Ok name) :
  ∃ p w', buildPreflightResponse c options caller name w = (Returned p, w') ∧ untouched w w' ∧
    (pre_CallerAuthorized p = true ↔ authorizeRepoAccess options (policy_of c w) caller repo = Ok name) ∧
    (pre_RepoConfigValid p = true ↔
       ∃ config, loadConfig (Some (app_store (srv_app (w_app w)))) repo = Ok (config, name) ∧
         pre_EnforcementMode p = cfg_EnforcementMode config).
Proof.
  unfold buildPreflightResponse, bind. destruct (store_policy_run c w) as (w1 & -> & Hu).
  set (entry := store_of c (srv_app (w_app w)) ≫= Lookup name).
  exists (preflight_facts caller (callerAuthorizedForRepo options (policy_of c w) caller name) entry).
  eexists. split; [|split; [|split]].
  - unfold on_app, zoom, get, access, ret, entry. cbn. unfold interfere, alone, no_interference.
    destruct Hu as [-> _]. reflexivity.
  - by destruct Hu as (_ & ? & ? & ? & ?).
  - unfold authorizeRepoAccess, canonicalRepoName. rewrite Hname.
    replace (pre_CallerAuthorized _) with (callerAuthorizedForRepo options (policy_of c w) caller name)
      by by destruct entry.
    by destruct (callerAuthorizedForRepo _ _ _ _).
  - unfold loadConfig, canonicalRepoName. rewrite Hname.
    unfold entry, store_of. rewrite Hstore. cbn [mbind option_bind].
    destruct (Lookup name _) as [e|]; [|cbn; naive_solver]. cbn [preflight_facts pre_RepoConfigValid pre_EnforcementMode].
    destruct (ent_Valid e); cbn [negb]; [|naive_solver]. split; [|done]. intros _. by exists (ent_Config e).
Qed.

(** *** The catalog *)

(** The catalog answers with the embedded rules.  Without a pattern file, GET
    /functions always succeeds and lists exactly the rules of the embedded
    pattern, each with its threshold, operator and unit and whether it is on by
    default; every name that is on by default is in it. *)
Theorem functions_catalog c r w
    (Hpattern : chk_PatternPath c = "") (Hget : r_Method r = "GET") :
  ∃ catalog, functionsHandler c r w = (Returned (mkResponse 200 (PFunctions (functions_digest catalog) catalog)), w) ∧
    (∀ name e, catalog !! name = Some e ↔
       ∃ rule, pat_FitnessFunctions governance_pattern !! name = Some rule ∧
         e = mkCatalogEntry (rule_Description rule) (rule_Threshold rule) (rule_Operator rule) (rule_Unit rule)
               (default false (defaultFitnessFunctions !! name))) ∧
    (∀ name, defaultFitnessFunctions !! name = Some true → is_Some (catalog !! name)).
Proof.
  set (rules := pat_FitnessFunctions governance_pattern).
  set (catalog := map_imap (λ name rule, Some (catalog_entry name rule)) rules).
  assert (∀ name, catalog !! name = catalog_entry name <$> rules !! name) as Hcat.
  { intros name. unfold catalog. rewrite map_lookup_imap. by destruct (rules !! name). }
  exists catalog. split; [|split].
  - unfold functionsHandler, loadFunctionCatalog. rewrite Hpattern, Hget. cbn [String.eqb negb].
    unfold bind at 1 2, ret at 1. rewrite governance_loads. fold rules catalog. unfold ret.
    unfold buildFunctionsResponse, writeJSON. by rewrite governance_encodable.
  - intros name e. rewrite Hcat, fmap_Some. by setoid_rewrite (comm eq e).
  - intros name Hd. rewrite Hcat, fmap_is_Some. by apply governance_covers_defaults.
Qed.
End quiet.

(** ** Examples *)

Module ServerExamples.
Import CheckerExamples.
#[local] Existing Instances literal_regexp canonical_map_order canonical_map_order_laws
  basic_unicode basic_unicode_laws alone kept_alone alone_srv numbered_os no_tools example_json_error.
#[local] Instance plain_json_number : JsonNumberText := id.
#[local] Instance quiet_store : Interference ConfigStore := no_interference.
#[local] Instance no_digests : Digests := {| configs_digest _ _ := ""; functions_digest _ := "" |}.

Definition quoted (s : string) : string := ConfigStoreExamples.q s.
Definition body (language file : string) : string :=
  "{" +:+ quoted "repo" +:+ ":" +:+ quoted "api" +:+ "," +:+
  quoted "file" +:+ ":" +:+ quoted file +:+ "," +:+
  quoted "proposed_content" +:+ ":" +:+ quoted "package main" +:+ "," +:+
  quoted "language" +:+ ":" +:+ quoted language +:+ "}".

Definition identity : Identity := mkIdentity "r1" false "local-http" "/srv".
Definition local_options (cap : Z) : HandlerOptions := mkOptions true false [] false cap false identity true.
Definition mtls_options : HandlerOptions := mkOptions true false [] false 0 false identity false.
Definition from_loopback (method content : string) : http_request :=
  mkHTTP method "127.0.0.1:5000" None "" "" (Ok content) None None.
(** A caller with a certificate. *)
Definition from_peer (method cn content : string) : http_request :=
  mkHTTP method "10.0.0.7:5000" (Some (mkTLS [cn] 1)) "" "" (Ok content) None None.

(** The repository api is configured; only ci may use it, only ops administers. *)
Definition policy : CallerRepoPolicy := mkPolicy {["ci" := {["api"]}]} {["ops"]}.
Definition srv : Srv :=
  mkSrv (mkApp NewState RepoLock.initial
           (mkStore {["api" := valid_entry config None]} ∅ policy 0 "/srv" "" 0 3 ∅) [])
    (NewFixedWindowRateLimiter 10 60) false false.
Definition running : world Srv := mkWorld srv ∅ ∅ 0.
Definition serve (cap : Z) (f : SourceAnalyzer) (r : http_request) : outcome response * world Srv :=
  NewHandlerWithOptions (mkChecker "" "" (Value valid) {["go" := Value f; "csharp" := Value f]} true true None true 0 0)
    (local_options cap) Background "/check" None r running.

Lemma serve_go : (serve 2 tidy (from_loopback "POST" (body "go" "main.go"))).1
  = Returned (mkResponse 200 (PVerdict (verdict StatusPass []))).
Proof. vm_compute. reflexivity. Qed.

(** With a cap of one analysis per repository, the first C# check of a repository
    that blocks takes the only permit as its slot and then waits for the same
    permit as its warm-up lock: the request never ends. *)
Lemma csharp_cap_one_hangs :
  (serve 1 tidy (from_loopback "POST" (body "csharp" "a.cs"))).1 = Blocked.
Proof. vm_compute. reflexivity. Qed.
(** Without a cap the same request is answered. *)
Lemma csharp_no_cap_answers :
  (serve 0 tidy (from_loopback "POST" (body "csharp" "a.cs"))).1
  = Returned (mkResponse 200 (PVerdict (verdict StatusPass []))).
Proof. vm_compute. reflexivity. Qed.

Definition chk (f : SourceAnalyzer) : Checker :=
  mkChecker "" "" (Value valid) {["go" := Value f; "csharp" := Value f]} true true None true 0 0.

Definition local_serve : ServeOptions :=
  mkServe "local-http" "127.0.0.1:7890" "/srv" (local_options 2) (mkServerTLS "" "" "") "" "" true 0.

Lemma daemon_authenticates_witness :
  let r := mkHTTP "POST" "10.0.0.7:5000" None "" "" (Ok "") None None in
  NewHandlerWithOptions (served_checker local_serve) (served_options identity local_serve) Background
    "/shutdown" None r running = (Returned writeUnauthorized, running).
Proof.
  intros r.
  destruct (daemon_authenticates identity local_serve (served_checker local_serve) Background "/shutdown" None r running)
    as [H|(caller & _ & H)].
  - vm_compute. reflexivity.
  - unfold guarded_routes. rewrite !elem_of_cons. auto 10.
  - exact H.
  - vm_compute in H. discriminate H.
Defined.

Lemma check_answer_justified_witness :
  ∃ caller request a repo, extractCallerName (from_loopback "POST" (body "go" "main.go")) (local_options 2) = Ok caller ∧
    decodeValidationRequest (with_caller caller (from_loopback "POST" (body "go" "main.go"))) = Ok request ∧
    served (srv_app (w_app running)) a ∧
    authorizeRepoAccess (local_options 2) (Some (cs_callerPolicy (app_store a))) caller (req_Repo request) = Ok repo ∧
    means_verdict a (handler_checker (chk tidy) (local_options 2) Background) (set_Repo repo request)
      (mkResponse 200 (PVerdict (verdict StatusPass []))).
Proof.
  apply (check_answer_justified (chk tidy) (local_options 2) Background None
    (from_loopback "POST" (body "go" "main.go")) running _
    (serve 2 tidy (from_loopback "POST" (body "go" "main.go"))).2).
  - reflexivity.
  - apply ConfigStoreExamples.run_eq. exact serve_go.
  - reflexivity.
Defined.

(** The caller eve has a certificate but no binding. *)
Lemma eve_caller : extractCallerName (from_peer "POST" "eve" (body "go" "main.go")) mtls_options = Ok "eve".
Proof. vm_compute. reflexivity. Qed.
Lemma go_request : decodeValidationRequest (from_peer "POST" "eve" (body "go" "main.go"))
  = Ok (mkRequest "api" "main.go" "package main" "go" false).
Proof. vm_compute. reflexivity. Qed.

Lemma check_refusal_untouched_witness :
  ∃ resp w', NewHandlerWithOptions (chk tidy) mtls_options Background "/check" None
      (from_peer "POST" "eve" (body "go" "main.go")) running = (Returned resp, w') ∧
    resp_Status resp ∈ [400; 401; 403; 405; 413; 429]%Z ∧ untouched running w'.
Proof.
  apply (check_refusal_untouched (chk tidy) mtls_options Background None
           (from_peer "POST" "eve" (body "go" "main.go")) running).
  - reflexivity.
  - intros caller request Hc Hd. rewrite eve_caller in Hc. injection Hc as <-.
    rewrite go_request in Hd. injection Hd as <-. vm_compute. reflexivity.
Defined.

Lemma admin_routes_closed_witness :
  ∃ resp w', NewHandlerWithOptions (chk tidy) mtls_options Background "/shutdown" None
      (from_peer "POST" "ci" "") running = (Returned resp, w') ∧
    resp_Status resp ∈ [401; 403; 405; 503]%Z ∧ untouched running w'.
Proof.
  apply (admin_routes_closed (chk tidy) mtls_options Background "/shutdown" None (from_peer "POST" "ci" "") running).
  - reflexivity.
  - right. left.
  - vm_compute. reflexivity.
Defined.

Lemma preflight_predicts_check_witness :
  ∃ p w', buildPreflightResponse (chk tidy) mtls_options "ci" "api" running = (Returned p, w') ∧ untouched running w' ∧
    (pre_CallerAuthorized p = true ↔
       authorizeRepoAccess mtls_options (policy_of (chk tidy) running) "ci" "API" = Ok "api") ∧
    (pre_RepoConfigValid p = true ↔
       ∃ config, loadConfig (Some (app_store (srv_app (w_app running)))) "API" = Ok (config, "api") ∧
         pre_EnforcementMode p = cfg_EnforcementMode config).
Proof.
  apply (preflight_predicts_check (chk tidy) mtls_options "ci" "API" "api" running).
  - reflexivity.
  - vm_compute. reflexivity.
Defined.

Lemma functions_catalog_witness :
  ∃ catalog, functionsHandler (chk tidy) (from_loopback "GET" "") running
      = (Returned (mkResponse 200 (PFunctions "" catalog)), running) ∧
    (∀ name, defaultFitnessFunctions !! name = Some true → is_Some (catalog !! name)).
Proof.
  destruct (functions_catalog (chk tidy) (from_loopback "GET" "") running) as (catalog & H1 & _ & H2).
  - reflexivity.
  - reflexivity.
  - exists catalog. split; [exact H1|exact H2].
Defined.
End ServerExamples.
