(* ===== verification/Sarif.v ===== *)
(** * SARIF output

    [internal/sarif]: a verdict as a SARIF 2.1.0 document. *)

From stdpp Require Import base gmap strings list fin_maps.
From Stdlib Require Import ZArith Lia Ascii.
From S2P Require Import Prelude GoStrings GoErrors GoFloat GoJson GoJsonPrint Fitness HistoryEvent.
Set Default Goal Selector "!".

Definition sarif_schema : string :=
  "https://raw.githubusercontent.com/oasis-tcs/sarif-spec/master/Schemata/sarif-schema-2.1.0.json".

Record sarif_rule := mkSarifRule { rl_ID : string; rl_Name : string }.
(** A result with the URI of its location, if it has one. *)
Record sarif_result := mkSarifResult {
  sr_RuleID : string;
  sr_Level : string;
  sr_Message : string;
  sr_Location : option string;
}.
Record sarif_log := mkSarifLog { sl_Rules : list sarif_rule; sl_Results : list sarif_result }.

Definition levelFor (status : string) : string := if String.eqb status "block" then "error" else "warning".

Definition relURI (file repoRoot : string) : string :=
  if String.eqb repoRoot "" then file
  else match path_rel repoRoot file with
       | None => file
       | Some rel => rel
       end.

Definition sarif_text (v : Violation) : string :=
  let text := v_Message v in
  let text := if negb (String.eqb (v_Interface v) "") then text +:+ " (interface: " +:+ v_Interface v +:+ ")"
              else if negb (String.eqb (v_Function v) "") then text +:+ " (function: " +:+ v_Function v +:+ ")"
              else text in
  if negb (f64_eq (v_Value v) f64_zero) || negb (f64_eq (v_Limit v) f64_zero)
  then text +:+ " [value: " +:+ format_f 2 (v_Value v) +:+ ", limit: " +:+ format_f 2 (v_Limit v) +:+ "]"
  else text.

Definition toResult (v : Violation) (status repoRoot : string) : sarif_result :=
  mkSarifResult (v_FitnessFunction v) (levelFor status) (sarif_text v)
    (if String.eqb (v_File v) "" then None else Some (relURI (v_File v) repoRoot)).

Fixpoint unique_rules (seen : list string) (violations : list Violation) : list sarif_rule :=
  match violations with
  | [] => []
  | v :: rest =>
      let f := v_FitnessFunction v in
      if decide (f ∈ seen) then unique_rules seen rest
      else mkSarifRule f f :: unique_rules (f :: seen) rest
  end.
Definition uniqueRules (violations : list Violation) : list sarif_rule := unique_rules [] violations.

Definition Convert (resp : result_view) (repoRoot : string) : sarif_log :=
  let violations := default [] (vr_Violations resp) in
  mkSarifLog (uniqueRules violations) ((λ v, toResult v (vr_Status resp) repoRoot) <$> violations).

(** The JSON of the document, by the field tags. *)
Definition nonempty_field (name value : string) : list (string * json) :=
  if String.eqb value "" then [] else [(name, JStr value)].
Definition json_sarif_rule (r : sarif_rule) : json := JObj ([("id", JStr (rl_ID r))] ++ nonempty_field "name" (rl_Name r)).
Definition json_sarif_result (r : sarif_result) : json :=
  JObj ([("ruleId", JStr (sr_RuleID r)); ("level", JStr (sr_Level r)); ("message", JObj [("text", JStr (sr_Message r))])]
    ++ match sr_Location r with
       | None => []
       | Some uri => [("locations", JArr [JObj [("physicalLocation",
                        JObj [("artifactLocation", JObj [("uri", JStr uri); ("uriBaseId", JStr "%SRCROOT%")])])]])]
       end).
Definition json_sarif_log (l : sarif_log) : json :=
  JObj [("$schema", JStr sarif_schema); ("version", JStr "2.1.0");
        ("runs", JArr [JObj [
           ("tool", JObj [("driver", JObj ([("name", JStr "agent-fitness-functions"); ("informationUri", JStr "https://calm.finos.org")]
             ++ match sl_Rules l with [] => [] | rules => [("rules", JArr (json_sarif_rule <$> rules))] end))]);
           ("results", JArr (json_sarif_result <$> sl_Results l))]])].

(** ** What the document says *)

Lemma unique_rules_spec seen vs : NoDup (rl_ID <$> unique_rules seen vs) ∧
  ∀ f, f ∈ rl_ID <$> unique_rules seen vs ↔ f ∈ v_FitnessFunction <$> vs ∧ f ∉ seen.
Proof.
  revert seen. induction vs as [|v vs IH]; intros seen; cbn [unique_rules]; [split; [constructor|set_solver]|].
  destruct (decide (v_FitnessFunction v ∈ seen)) as [Hin|Hin].
  - destruct (IH seen) as [Hnd Hf]. split; [done|]. intros f. rewrite Hf, fmap_cons, elem_of_cons. split; [naive_solver|].
    intros [[->|] Hn]; naive_solver.
  - destruct (IH (v_FitnessFunction v :: seen)) as [Hnd Hf]. rewrite fmap_cons. cbn [rl_ID]. split.
    + constructor; [|done]. rewrite Hf, elem_of_cons. naive_solver.
    + intros f. rewrite fmap_cons, !elem_of_cons, Hf, elem_of_cons. destruct (decide (f = v_FitnessFunction v)); naive_solver.
Qed.

(** The document reports every violation once, in order, as an error exactly when the
    verdict blocks, and declares exactly the rules it refers to, each once. *)
Theorem Convert_spec resp repoRoot :
  let violations := default [] (vr_Violations resp) in
  let log := Convert resp repoRoot in
  sr_RuleID <$> sl_Results log = v_FitnessFunction <$> violations ∧
  Forall (λ r, sr_Level r = "error" ↔ vr_Status resp = "block") (sl_Results log) ∧
  NoDup (rl_ID <$> sl_Rules log) ∧
  (∀ f, f ∈ rl_ID <$> sl_Rules log ↔ f ∈ sr_RuleID <$> sl_Results log).
Proof.
  intros violations log. unfold log, Convert. cbn [sl_Results sl_Rules]. fold violations.
  assert (sr_RuleID <$> ((λ v, toResult v (vr_Status resp) repoRoot) <$> violations) = v_FitnessFunction <$> violations) as Hids
    by (by rewrite <-list_fmap_compose).
  split; [done|]. split; [|rewrite Hids; destruct (unique_rules_spec [] violations) as [Hnd Hf]; split; [done|]; intros f; rewrite Hf; set_solver].
  apply Forall_fmap, Forall_forall. intros v _. cbn. unfold levelFor. destruct (String.eqb_spec (vr_Status resp) "block"); naive_solver.
Qed.
