(* ===== verification/Client.v ===== *)
(** * The validation client

    [client validate] of [internal/client]: which TLS material and daemon it uses
    ([client.go], [daemon.go]), the request it sends, and how failures are reported
    ([failure.go]).

    The network, the certificate store, the X.509 parser and the starter of the
    daemon are parameters; what is sent and what is started is recorded in the state.
    Parsing the flags and the capture of the history are not modelled: the client
    starts from parsed options.  Package [net/url] is a parameter with its laws. *)

From stdpp Require Import base gmap strings list fin_maps.
From Stdlib Require Import ZArith Lia Ascii.
From S2P Require Import Prelude GoStrings GoErrors GoFloat GoJson GoJsonPrint GoNet GoOS Fitness HistoryEvent Hooks Sarif.
Set Default Goal Selector "!".

(** ** Failures *)

Definition errorKindServerUnreachable : string := "server_unreachable".
Definition errorKindTLSFailure : string := "tls_failure".
Definition errorKindUnauthenticated : string := "unauthenticated".
Definition errorKindUnauthorized : string := "unauthorized".
Definition errorKindNotConfigured : string := "not_configured".
Definition errorKindInvalidRequest : string := "invalid_request".
Definition errorKindServerError : string := "server_error".
Definition errorKindPortConflict : string := "port_conflict".
Definition errorKindTimeout : string := "check_timeout".

(** The typed errors, by [errors.As]. *)
Definition as_usage (e : goerror) : option unit := match e with UsageError _ => Some tt | _ => None end.
Definition as_infra (e : goerror) : option unit := match e with InfraError _ _ _ => Some tt | _ => None end.
Definition as_status (e : goerror) : option (Z * string) := match e with HttpStatusError s b => Some (s, b) | _ => None end.
Definition as_conflict (e : goerror) : option (string * goerror * bool) :=
  match e with DaemonConflictError addr cause mismatch => Some (addr, cause, mismatch) | _ => None end.
(** [context.DeadlineExceeded] is a [net.Error] as well. *)
Definition as_net (e : goerror) : option bool :=
  match e with ErrNet timeout _ _ _ => timeout | ErrSentinel DeadlineExceeded => Some true | _ => None end.
Definition as_tls (e : goerror) : option unit := match e with ErrNet _ true _ _ => Some tt | _ => None end.

Definition found {A} (o : option A) : bool := match o with Some _ => true | None => false end.
Definition IsUsageError (e : goerror) : bool := found (errors_as as_usage e).
Definition IsInfraError (e : goerror) : bool := found (errors_as as_infra e).

Section failures.
Context {U : UnicodeTables} {N : JsonNumberText}.

Definition isTimeoutError (err : goerror) : bool :=
  errors_is err DeadlineExceeded
  || default false (errors_as as_net err)
  || (let msg := error_string err in
      contains msg "deadline exceeded" || contains msg "Client.Timeout exceeded"
      || contains msg "request canceled" || contains msg "timeout").

Definition isSchemeMismatch (err : goerror) : bool :=
  errors_is err ErrSchemeMismatch || contains (error_string err) "an HTTP request to an HTTPS server".

Definition tlsErrorText (message : string) : bool :=
  existsb (contains message) ["tls:"; "x509:"; "certificate"; "CA bundle"].
Definition isTLSError (err : goerror) : bool :=
  found (errors_as as_tls err) || tlsErrorText (error_string err).

Definition serverDetail (body : string) : string :=
  let trimmed := trim_space body in if String.eqb trimmed "" then "" else ": " +:+ trimmed.

Definition httpStatusInfraError (status : Z) (body repo : string) : goerror :=
  let detail := serverDetail body in
  if (status =? 401)%Z then
    InfraError errorKindUnauthenticated
      ("governance server rejected the client certificate (HTTP 401)" +:+ detail)
      "run `agent-fitness-functions doctor`; regenerate dev certs with scripts/generate-dev-certs.sh --force, or set AGENT_FITNESS_FUNCTIONS_ON_ERROR=advisory to unblock"
  else if (status =? 403)%Z then
    InfraError errorKindUnauthorized
      ("client certificate is not authorized for this repository (HTTP 403)" +:+ detail)
      "add this client certificate's CN to caller-repos.json on the server, then redeploy the container; or set AGENT_FITNESS_FUNCTIONS_ON_ERROR=advisory to unblock"
  else if (status =? 404)%Z then
    InfraError errorKindNotConfigured
      ("repository " +:+ quote repo +:+ " is not configured on the governance server (HTTP 404)" +:+ detail)
      ("run `agent-fitness-functions client onboard`, or create configs/" +:+ repo +:+ "/config.json on the server (see docs/runbooks/onboard-new-repository.md); or set AGENT_FITNESS_FUNCTIONS_ON_ERROR=advisory to unblock")
  else if (status =? 400)%Z then
    InfraError errorKindInvalidRequest
      ("governance server rejected the request as invalid (HTTP 400)" +:+ detail)
      "check --repo and --language; run `agent-fitness-functions doctor --repair`, or set AGENT_FITNESS_FUNCTIONS_ON_ERROR=advisory in your repository config to proceed"
  else if (status =? 504)%Z || (status =? 408)%Z then
    InfraError errorKindTimeout
      ("governance check timed out on the server (HTTP " +:+ itoa status +:+ ")" +:+ detail)
      "increase the client timeout with --timeout or AGENT_FITNESS_FUNCTIONS_CLIENT_TIMEOUT (e.g. 15s or 30s), check server load, run `agent-fitness-functions doctor`, or set AGENT_FITNESS_FUNCTIONS_ON_ERROR=advisory to unblock"
  else
    InfraError errorKindServerError
      ("governance server could not produce a verdict (HTTP " +:+ itoa status +:+ ")" +:+ detail)
      "check the server logs; retry, run `agent-fitness-functions doctor --repair`, or set AGENT_FITNESS_FUNCTIONS_ON_ERROR=advisory in your repository config to proceed".

Definition portConflictMessage (addr : string) (cause : goerror) (schemeMismatch : bool) : string :=
  if schemeMismatch
  then "a listener this client cannot speak to on either scheme already owns " +:+ addr
       +:+ " (most likely a governance daemon from an earlier listen-mode generation): " +:+ error_string cause
  else "a daemon that does not trust this repository's dev CA is already listening at " +:+ addr
       +:+ " (most likely another repository's local daemon, or a stale one from before certificate rotation): " +:+ error_string cause.
Definition portConflictInfraError (addr : string) (cause : goerror) (schemeMismatch : bool) : goerror :=
  InfraError errorKindPortConflict (portConflictMessage addr cause schemeMismatch)
    "identify the conflicting daemon with `lsof -i :<port>` and stop it, or rerun with a distinct --addr; only one repository can use the shared default local daemon port at a time".

Definition connectionInfraError (err : goerror) : goerror :=
  match errors_as as_conflict err with
  | Some (addr, cause, schemeMismatch) => portConflictInfraError addr cause schemeMismatch
  | None =>
      if isTimeoutError err then
        InfraError errorKindTimeout ("governance check timed out before server response: " +:+ error_string err)
          "increase client timeout with --timeout or AGENT_FITNESS_FUNCTIONS_CLIENT_TIMEOUT (e.g. 15s or 30s), check server load, run `agent-fitness-functions doctor`, or set AGENT_FITNESS_FUNCTIONS_ON_ERROR=advisory to unblock"
      else if isTLSError err then
        InfraError errorKindTLSFailure ("TLS/certificate failure talking to the governance server: " +:+ error_string err)
          "run `agent-fitness-functions doctor`; regenerate dev certs with scripts/generate-dev-certs.sh --force, or set AGENT_FITNESS_FUNCTIONS_ON_ERROR=advisory to unblock"
      else
        InfraError errorKindServerUnreachable ("cannot reach the governance server: " +:+ error_string err)
          "run `agent-fitness-functions doctor`; the local daemon auto-starts on `client validate` when dev certs and a repo config exist, or set AGENT_FITNESS_FUNCTIONS_ON_ERROR=advisory to unblock"
  end.

Definition classifyValidationError (err : goerror) (repo : string) : option goerror :=
  if IsUsageError err then None
  else match errors_as as_status err with
       | Some (status, body) => Some (httpStatusInfraError status body repo)
       | None => Some (connectionInfraError err)
       end.

Definition infraErrorReport (kind message remediation : string) : json :=
  JObj [("status", JStr "error"); ("error_kind", JStr kind); ("message", JStr message); ("remediation", JStr remediation)].
(** What [reportInfraError] prints. *)
Definition report_text (ierr : goerror) : string :=
  match ierr with
  | InfraError kind message remediation => Marshal (infraErrorReport kind message remediation) +:+ LF
  | _ => ""
  end.
End failures.

(** ** Addresses *)

(** Package [net/url]: parsing, the parts the client reads, and printing. *)
Class URLPackage := {
  URL : Type;
  url_Parse : string → option URL;
  url_Scheme : URL → string;
  url_Hostname : URL → string;
  url_Host : URL → string;
  url_Port : URL → string;
  url_set_Scheme : string → URL → URL;
  url_String : URL → string;
}.
(** A parsed URL with another scheme differs in the scheme only, also once printed. *)
Class URLLaws (P : URLPackage) : Prop := {
  scheme_set s u : url_Scheme (url_set_Scheme s u) = s;
  hostname_set s u : url_Hostname (url_set_Scheme s u) = url_Hostname u;
  parse_printed s a u : url_Parse a = Some u → s = "http" ∨ s = "https" →
    url_Parse (url_String (url_set_Scheme s u)) = Some (url_set_Scheme s u);
}.

Section addresses.
Context {P : URLPackage}.

Definition parseLocalDaemonURL (addr : string) : option URL :=
  match url_Parse addr with
  | None => None
  | Some parsed =>
      if negb (String.eqb (url_Scheme parsed) "http") && negb (String.eqb (url_Scheme parsed) "https") then None
      else
        let host := url_Hostname parsed in
        if String.eqb host "localhost" then Some parsed
        else match ParseIP host with
             | Some ip => if IsLoopback ip then Some parsed else None
             | None => None
             end
  end.
Definition localDaemonScheme (addr : string) : string :=
  match parseLocalDaemonURL addr with Some parsed => url_Scheme parsed | None => "" end.
Definition isLocalHTTPS (addr : string) : bool := String.eqb (localDaemonScheme addr) "https".
Definition isLocalHTTP (addr : string) : bool := String.eqb (localDaemonScheme addr) "http".
Definition alternateSchemeAddr (addr : string) : string :=
  match parseLocalDaemonURL addr with
  | None => ""
  | Some parsed =>
      url_String (url_set_Scheme (if String.eqb (url_Scheme parsed) "http" then "https" else "http") parsed)
  end.
Definition daemonURL (addr path : string) : string := trim_right addr "/" +:+ path.
End addresses.

(** ** TLS material *)

Record clientTLSMode := mkMode {
  tm_managed : bool;
  tm_root : string;
  tm_cert : string;
  tm_key : string;
  tm_ca : string;
}.
Definition zero_mode : clientTLSMode := mkMode false "" "" "" "".

Definition mode_explicit (mode : clientTLSMode) : bool :=
  negb (tm_managed mode)
  && (negb (String.eqb (tm_cert mode) "") || negb (String.eqb (tm_key mode) "") || negb (String.eqb (tm_ca mode) "")).

Definition envClientCert : string := "AGENT_FITNESS_FUNCTIONS_CLIENT_CERT".
Definition envClientKey : string := "AGENT_FITNESS_FUNCTIONS_CLIENT_KEY".
Definition envClientCA : string := "AGENT_FITNESS_FUNCTIONS_CLIENT_CA".
Definition envDevCertDir : string := "AGENT_FITNESS_FUNCTIONS_DEV_CERT_DIR".
Definition envConfigsDir : string := "AGENT_FITNESS_FUNCTIONS_CONFIGS_DIR".

Definition firstNonEmpty (values : list string) : string :=
  match List.find (λ v, negb (String.eqb v "")) values with Some v => v | None => "" end.

Section environment.
Context (getenv : string → string).

Definition hasExplicitClientTLS (certFlag keyFlag caFlag : string) : bool :=
  negb (String.eqb certFlag "") || negb (String.eqb keyFlag "") || negb (String.eqb caFlag "")
  || negb (String.eqb (getenv envClientCert) "") || negb (String.eqb (getenv envClientKey) "")
  || negb (String.eqb (getenv envClientCA) "").

Definition resolveClientTLSMode (certFlag keyFlag caFlag defaultRoot : string) : result goerror clientTLSMode :=
  let selector := getenv envDevCertDir in
  let explicit := hasExplicitClientTLS certFlag keyFlag caFlag in
  if negb (String.eqb selector "") && explicit then
    Err (UsageError (ErrNew "AGENT_FITNESS_FUNCTIONS_DEV_CERT_DIR cannot be combined with explicit client TLS inputs"))
  else if explicit then
    Ok (mkMode false "" (firstNonEmpty [certFlag; getenv envClientCert]) (firstNonEmpty [keyFlag; getenv envClientKey])
          (firstNonEmpty [caFlag; getenv envClientCA]))
  else Ok (mkMode true (if String.eqb selector "" then defaultRoot else selector) "" "" "").

Definition StateRoot : string :=
  if negb (String.eqb (getenv "XDG_STATE_HOME") "") then path_join [getenv "XDG_STATE_HOME"; "agent-fitness-functions"]
  else path_join [getenv "HOME"; ".local"; "state"; "agent-fitness-functions"].
Definition governanceRoot : string := path_join [StateRoot; "governance"].
Definition governanceCertsDir : string := path_join [governanceRoot; "certs"].
Definition governanceConfigsDir : string := path_join [governanceRoot; "configs"].
Definition resolveDevCertDir : string :=
  if negb (String.eqb (getenv envDevCertDir) "") then getenv envDevCertDir else governanceCertsDir.
Definition resolveConfigsDir : string :=
  if negb (String.eqb (getenv envConfigsDir) "") then getenv envConfigsDir else governanceConfigsDir.
End environment.

Record DaemonStartConfig := mkStart {
  dc_Addr : string;
  dc_Local : bool;
  dc_ManagedRoot : string;
  dc_TLSCert : string;
  dc_TLSKey : string;
  dc_TLSCA : string;
  dc_ConfigsDir : string;
  dc_CertDir : string;
  dc_ExplicitClientTLS : bool;
}.

(** ** Talking to the daemon *)

(** The text of a response and how reading it ended. *)
Record http_reply := mkReply { rp_StatusCode : Z; rp_Body : string; rp_Error : option goerror }.

(** Crypto and certificate store: key pairs, pools and the managed versions. *)
Class TLSWorld := {
  Certificate : Type;
  CertPool : Type;
  ManagedVersion : Type;
  LoadX509KeyPair : string → string → external (result goerror Certificate);
  AppendCertsFromPEM : string → option CertPool;
  publishManagedCertificates : string → external (option goerror);
  resolveManagedVersion : string → external (result goerror ManagedVersion);
  loadManagedClient : ManagedVersion → external (result goerror (Certificate * CertPool));
  (* the server certificate, its key and the CA of a version *)
  version_Paths : ManagedVersion → string * string * string;
}.

Section client.
Context {E : OSEnv} {SL : Sleeper} {U : UnicodeTables} {J : JsonErrorText} {N : JsonNumberText} {P : URLPackage} {T : TLSWorld}.

(** An [http.Client], as far as the client configures it. *)
Record http_client := mkClient { hc_Certificate : option Certificate; hc_RootCAs : option CertPool }.
Record sent := mkSent { sent_client : http_client; sent_method : string; sent_url : string; sent_body : string }.

(** The output, and what was sent and started. *)
Record client_state := mkClientState {
  cl_out : streams;
  cl_sent : list sent;
  cl_started : list DaemonStartConfig;
}.
Abbreviation CM := (M client_state).
Definition on_streams {A} (m : HM A) : CM A :=
  zoom cl_out (λ o s, mkClientState o (cl_sent s) (cl_started s)) m.
Definition record_sent (x : sent) : CM unit := λ w,
  (Returned tt, set_app (mkClientState (cl_out (w_app w)) (cl_sent (w_app w) ++ [x]) (cl_started (w_app w))) w).
Definition record_started (x : DaemonStartConfig) : CM unit := λ w,
  (Returned tt, set_app (mkClientState (cl_out (w_app w)) (cl_sent (w_app w)) (cl_started (w_app w) ++ [x])) w).

Context (getenv : string → string).
Context (git : string → list string → external (string * option goerror)).
(** What the network answers to a request at a step, and how a start ends. *)
Context (network : sent → nat → result goerror http_reply).
Context (starter : DaemonStartConfig → external (option goerror)).

(** [io.ReadAll] of a body behind [io.LimitReader]. *)
Definition limited (limit : Z) (s : string) : string :=
  if (Z.of_nat (String.length s) <=? limit)%Z then s else str_take (Z.to_nat limit) s.

(** The same, with the error that ends the body, unless the limit comes first. *)
Definition read_limited (limit : Z) (reply : http_reply) : result goerror string :=
  match rp_Error reply with
  | Some err => if (Z.of_nat (String.length (rp_Body reply)) <? limit)%Z then Err err else Ok (limited limit (rp_Body reply))
  | None => Ok (limited limit (rp_Body reply))
  end.

(** [httpClient.Do]. *)
Definition Do (x : sent) : CM (result goerror http_reply) := λ w,
  let '(o, w') := record_sent x w in (Returned (network x (w_clock w)), tick w').
(** [http.NewRequestWithContext] fails on a URL that does not parse. *)
Definition bad_url (url : string) : goerror := ErrNet None false ("parse " +:+ quote url +:+ ": invalid URL") None.

Record daemonEndpoint := mkEndpoint { ep_addr : string; ep_client : http_client }.

(** *** Probing *)

Definition probeDaemon (httpClient : http_client) (addr : string) : CM (option goerror) :=
  let url := daemonURL addr "/health" in
  match url_Parse url with
  | None => ret (Some (bad_url url))
  | Some _ =>
      let! response := Do (mkSent httpClient "GET" url "") in
      ret (match response with
           | Err err => Some err
           | Ok reply =>
               if (rp_StatusCode reply =? 200)%Z then None
               else
                 let detail := trim_space (limited 1024 (rp_Body reply)) in
                 let text := "health check returned HTTP " +:+ itoa (rp_StatusCode reply) in
                 Some (ErrNew (if String.eqb detail "" then text else text +:+ ": " +:+ detail))
           end)
  end.

Definition localHTTPStart (cfg : DaemonStartConfig) : bool := dc_Local cfg && negb (isLocalHTTPS (dc_Addr cfg)).

Definition addressAlreadyOwned (addr : string) (cfg : DaemonStartConfig) (probeErr : goerror) : option goerror :=
  if found (errors_as as_conflict probeErr) then Some probeErr
  else if isSchemeMismatch probeErr then Some (DaemonConflictError addr probeErr true)
  else if negb (isTLSError probeErr) then None
  else if dc_Local cfg && negb (localHTTPStart cfg) then Some (DaemonConflictError addr probeErr false)
  else Some probeErr.

Definition daemonLogPath (cfg : DaemonStartConfig) : string :=
  if negb (String.eqb (dc_CertDir cfg) "") then path_join [dc_CertDir cfg; "daemon.log"]
  else if dc_Local cfg then path_join [governanceRoot getenv; "daemon.log"]
  else "".

Definition describeDaemonFailure (cfg : DaemonStartConfig) (cause : goerror) : goerror :=
  if String.eqb (dc_ManagedRoot cfg) "" && negb (dc_Local cfg) then
    ErrWrap "" cause (" [addr=" +:+ dc_Addr cfg +:+ " dev-tls=unmanaged"
      +:+ (if dc_ExplicitClientTLS cfg then " (explicit client certs in use)" else "") +:+ "]")
  else
    let named name value := if String.eqb value "" then [] else [name +:+ "=" +:+ value] in
    let fields := ["addr=" +:+ dc_Addr cfg]
      ++ (if localHTTPStart cfg then ["listen-mode=local-http"; "dev-tls=not required"] else [])
      ++ named "dev-cert-dir" (dc_CertDir cfg) ++ named "configs-dir" (dc_ConfigsDir cfg)
      ++ named "log" (daemonLogPath cfg) in
    ErrWrap "" cause (" [" +:+ join fields " " +:+ "]").

(** [waitHealthy] with 5 s and 25 ms between the probes. *)
Definition healthy_timeout : Z := 5000000000.
Definition healthy_poll : Z := 25000000.
Fixpoint wait_healthy (fuel : nat) (deadline : Z) (httpClient : http_client) (addr : string) : CM (option goerror) :=
  match fuel with
  | O => diverge
  | S fuel' =>
      let! now := Now in
      if (now <? deadline)%Z then
        let! probed := probeDaemon httpClient addr in
        match probed with
        | None => ret None
        | Some _ => let! _ := Sleep healthy_poll in wait_healthy fuel' deadline httpClient addr
        end
      else ret (Some (ErrNew ("daemon at " +:+ addr +:+ " did not become healthy within 5s")))
  end.
Definition waitHealthy (httpClient : http_client) (addr : string) : CM (option goerror) :=
  let! now := Now in
  wait_healthy (poll_fuel healthy_timeout healthy_poll) (now + healthy_timeout) httpClient addr.

Definition ensureProbedDaemon (endpoint : daemonEndpoint) (cfg : DaemonStartConfig) (probeErr : option goerror) :
  CM (option goerror) :=
  match probeErr with
  | None => ret None
  | Some probeErr =>
      match addressAlreadyOwned (ep_addr endpoint) cfg probeErr with
      | Some owned => ret (Some owned)
      | None =>
          let! _ := record_started cfg in
          let! failed := call (starter cfg) in
          match failed with
          | Some err => ret (Some (ErrWrap "starting daemon: " err ""))
          | None =>
              let! waited := waitHealthy (ep_client endpoint) (ep_addr endpoint) in
              ret (describeDaemonFailure cfg <$> waited)
          end
      end
  end.

(** *** The TLS material of the client *)

Record clientTLSMaterial := mkMaterial {
  mat_mode : clientTLSMode;
  mat_version : option ManagedVersion;
  mat_certificate : option Certificate;
  mat_roots : option CertPool;
}.

Definition certsGitignoreContent : string := "*" +:+ LF +:+ "!.gitignore" +:+ LF.
Definition ensureCertsIgnoreProtection (certDir : string) : CM (option goerror) :=
  if String.eqb certDir "" then ret None
  else
    let! inside := on_streams (gitOutput git certDir ["rev-parse"; "--is-inside-work-tree"]) in
    match inside with
    | Err _ => ret None
    | Ok _ =>
        let ignorePath := path_join [certDir; ".gitignore"] in
        let! info := Stat ignorePath in
        match info with
        | Ok false => ret None
        | _ =>
            let! failed := on_streams (write_file ignorePath certsGitignoreContent) in
            ret ((λ err, ErrWrap ("writing " +:+ ignorePath +:+ ": ") err "") <$> failed)
        end
    end.

Definition publishManagedRoot (root : string) : CM (option goerror) :=
  let! made := if String.eqb root (governanceCertsDir getenv) then MkdirAll (governanceRoot getenv) else ret None in
  match made with
  | Some err => ret (Some err)
  | None => try! call (publishManagedCertificates root) in ensureCertsIgnoreProtection root
  end.

Definition loadClientTLSMode (mode : clientTLSMode) (publish : bool) : CM (result goerror clientTLSMaterial) :=
  if negb (tm_managed mode) then ret (Ok (mkMaterial mode None None None))
  else if String.eqb (tm_root mode) "" then
    ret (Err (ErrNew "could not determine managed development certificate root"))
  else
    let! published := if publish then publishManagedRoot (tm_root mode) else ret None in
    match published with
    | Some err => ret (Err err)
    | None =>
        let! version := call (resolveManagedVersion (tm_root mode)) in
        match version with
        | Err err => ret (Err err)
        | Ok version =>
            let! loaded := call (loadManagedClient version) in
            match loaded with
            | Err err => ret (Err err)
            | Ok (certificate, roots) => ret (Ok (mkMaterial mode (Some version) (Some certificate) (Some roots)))
            end
        end
    end.

Definition buildTLSConfig (base : http_client) (certPath keyPath caPath : string) : CM (result goerror http_client) :=
  let! certificate := (if String.eqb certPath "" then ret (Ok (hc_Certificate base))
                       else let! loaded := call (LoadX509KeyPair certPath keyPath) in
                            ret (match loaded with
                                 | Err err => Err (ErrWrap "loading client certificate: " err "")
                                 | Ok c => Ok (Some c)
                                 end)) in
  match certificate with
  | Err err => ret (Err err)
  | Ok certificate =>
      if String.eqb caPath "" then ret (Ok (mkClient certificate (hc_RootCAs base)))
      else
        let! read := ReadFile caPath in
        ret (match read with
             | Err err => Err (ErrWrap "reading client CA bundle: " err "")
             | Ok caContent =>
                 match AppendCertsFromPEM caContent with
                 | None => Err (ErrNew "parsing client CA bundle")
                 | Some pool => Ok (mkClient certificate (Some pool))
                 end
             end)
  end.

Definition configureTLS (base : http_client) (certPath keyPath caPath : string) : CM (result goerror http_client) :=
  if String.eqb certPath "" && String.eqb keyPath "" && String.eqb caPath "" then ret (Ok base)
  else if xorb (String.eqb certPath "") (String.eqb keyPath "") then
    ret (Err (UsageError (ErrNew "client validate requires --client-cert and --client-key together")))
  else buildTLSConfig base certPath keyPath caPath.

Definition configureClientTLSMaterial (base : http_client) (material : clientTLSMaterial) :
  CM (result goerror http_client) :=
  let mode := mat_mode material in
  match tm_managed mode, mat_certificate material, mat_roots material with
  | false, None, _ | false, _, None => configureTLS base (tm_cert mode) (tm_key mode) (tm_ca mode)
  | _, certificate, roots => ret (Ok (mkClient certificate roots))
  end.

Definition localHTTPDaemonStartConfig (addr : string) (mode : clientTLSMode) : DaemonStartConfig :=
  mkStart addr true "" "" "" "" (resolveConfigsDir getenv) "" (mode_explicit mode).

Definition daemonStartConfigFromMaterial (addr : string) (material : clientTLSMaterial) : DaemonStartConfig :=
  let mode := mat_mode material in
  if isLocalHTTP addr then localHTTPDaemonStartConfig addr mode
  else if negb (tm_managed mode) then
    mkStart addr false "" "" "" "" "" (tm_root mode) (mode_explicit mode)
  else
    let '(cert, key, ca) := match mat_version material with
                            | Some version => version_Paths version
                            | None => ("", "", "")
                            end in
    mkStart addr true (tm_root mode) cert key ca (resolveConfigsDir getenv) (tm_root mode) (mode_explicit mode).

(** *** The endpoint *)

Definition alternateSchemeClients (base : http_client) (alternate certDir : string) : CM (list http_client) :=
  if negb (isLocalHTTPS alternate) then ret [base]
  else match resolveClientTLSMode getenv "" "" "" certDir with
  | Err _ => ret [base]
  | Ok mode =>
      if negb (tm_managed mode) then ret [base]
      else
        let! material := loadClientTLSMode mode false in
        match material with
        | Err _ => ret [base]
        | Ok material =>
            let! managed := configureClientTLSMaterial base material in
            ret (match managed with Err _ => [base] | Ok managed => [base; managed] end)
        end
  end.

(** The candidates in order: the first that answers, or the last error. *)
Fixpoint try_candidates (candidates : list http_client) (alternate : string) (probeErr : goerror) :
  CM (result goerror http_client) :=
  match candidates with
  | [] => ret (Err probeErr)
  | candidate :: rest =>
      let! probed := probeDaemon candidate alternate in
      match probed with
      | None => ret (Ok candidate)
      | Some err => try_candidates rest alternate err
      end
  end.

Definition resolveDaemonEndpoint (base : daemonEndpoint) (certDir : string) : CM (daemonEndpoint * option goerror) :=
  let! probed := probeDaemon (ep_client base) (ep_addr base) in
  match probed with
  | None => ret (base, None)
  | Some probeErr =>
      if negb (isSchemeMismatch probeErr) then ret (base, Some probeErr)
      else
        let alternate := alternateSchemeAddr (ep_addr base) in
        if String.eqb alternate "" then ret (base, Some probeErr)
        else
          let! candidates := alternateSchemeClients (ep_client base) alternate certDir in
          let! tried := try_candidates candidates alternate probeErr in
          ret (match tried with
               | Ok candidate => (mkEndpoint alternate candidate, None)
               | Err err => (base, Some (DaemonConflictError (ep_addr base) err true))
               end)
  end.

Definition establishDaemon (httpClient : http_client) (addr certFlag keyFlag caFlag : string) :
  CM (result goerror daemonEndpoint) :=
  let certDir := resolveDevCertDir getenv in
  match resolveClientTLSMode getenv certFlag keyFlag caFlag certDir with
  | Err err => ret (Err err)
  | Ok mode =>
      let mode := if tm_managed mode && negb (isLocalHTTPS addr) then zero_mode else mode in
      let! material := loadClientTLSMode mode (tm_managed mode) in
      match material with
      | Err err => ret (Err err)
      | Ok material =>
          let! configured := configureClientTLSMaterial httpClient material in
          match configured with
          | Err err => ret (Err err)
          | Ok configuredClient =>
              let! resolved := resolveDaemonEndpoint (mkEndpoint addr configuredClient) certDir in
              let '(endpoint, probeErr) := resolved in
              match probeErr with
              | None => ret (Ok endpoint)
              | Some _ =>
                  let! failed := ensureProbedDaemon endpoint (daemonStartConfigFromMaterial (ep_addr endpoint) material) probeErr in
                  ret (match failed with Some err => Err err | None => Ok endpoint end)
              end
          end
      end
  end.

(** *** The check *)

Definition json_ValidationRequest (r : ValidationRequest) : json :=
  JObj [("repo", JStr (req_Repo r)); ("file", JStr (req_File r)); ("proposed_content", JStr (req_ProposedContent r));
        ("language", JStr (req_Language r)); ("dry_run", JBool (req_DryRun r))].

(** The body that was sent, and the answer: the context only ends the exchange. *)
Definition postCheckExchange (httpClient : http_client) (addr : string) (request : ValidationRequest) :
  CM (result goerror string) :=
  let body := Marshal (json_ValidationRequest request) in
  let url := daemonURL addr "/check" in
  match url_Parse url with
  | None => ret (Err (ErrWrap "building check request: " (bad_url url) ""))
  | Some _ =>
      let! response := Do (mkSent httpClient "POST" url body) in
      ret (match response with
           | Err err => Err (TransportError err)
           | Ok reply =>
               if negb (rp_StatusCode reply =? 200)%Z
               then Err (HttpStatusError (rp_StatusCode reply) (trim_space (limited 65536 (rp_Body reply))))
               else read_limited 10485760 reply
           end)
  end.

Record validateOptions := mkValidateOptions {
  vo_addr : string;
  vo_file : string;
  vo_repo : string;
  vo_content : string;
  vo_contentFile : string;
  vo_language : string;
  vo_format : string;
  vo_clientCert : string;
  vo_clientKey : string;
  vo_clientCA : string;
  vo_staged : bool;
  vo_dryRun : bool;
}.

Definition resolveContentFromGit (repo file : string) : CM (result goerror string) :=
  let! ran := call (git repo ["show"; ":" +:+ file]) in
  ret (match ran with
       | (output, Some err) =>
           let detail := trim_space output in
           Err (ErrWrap ("reading staged content for " +:+ file +:+ ": ") err (if String.eqb detail "" then "" else ": " +:+ detail))
       | (output, None) => Ok output
       end).
Definition resolveContentFromDisk (repo file : string) : CM (result goerror string) :=
  let! path := (if is_abs file then ret file
                else let! info := Stat file in
                     ret (match info with Ok _ => file | Err _ => path_join [repo; file] end)) in
  let! read := ReadFile path in
  ret (match read with
       | Err err => Err (ErrWrap ("reading " +:+ path +:+ ": ") err "")
       | Ok output => Ok output
       end).
Definition resolveContent (repo file explicitContent contentFile : string) (staged : bool) : CM (result goerror string) :=
  if negb (String.eqb contentFile "") then
    let! read := ReadFile contentFile in
    ret (match read with
         | Err err => Err (ErrWrap ("reading content file " +:+ contentFile +:+ ": ") err "")
         | Ok output => Ok output
         end)
  else if negb (String.eqb explicitContent "") then ret (Ok explicitContent)
  else if staged then resolveContentFromGit repo file
  else resolveContentFromDisk repo file.

Definition reportInfraError (ierr : goerror) : CM (option goerror) :=
  let! _ := on_streams (print_out (report_text ierr)) in ret (Some ierr).
Definition handleValidateFailure (err : goerror) (repo : string) : CM (option goerror) :=
  match classifyValidationError err repo with
  | None => ret (Some err)
  | Some ierr => reportInfraError ierr
  end.

(** A write to the standard output may fail. *)
(** A write that fails has written a part of the text. *)
Definition write_stdout (text : string) : CM (option goerror) :=
  let! failed := os_op "write" "stdout" (λ e w, (Some (e, os_written (w_clock w)), w)) (λ w, (None, w)) in
  match failed with
  | Some (err, n) => let! _ := on_streams (print_out (str_take n text)) in ret (Some err)
  | None => let! _ := on_streams (print_out text) in ret None
  end.
Definition writeValidationResult (format repo body : string) : CM (option goerror) :=
  if negb (String.eqb format "sarif") then write_stdout body
  else match unmarshal dec_result_view (mkResultView "" false None) body with
  | Err err => ret (Some (ErrWrap "decoding check response: " err ""))
  | Ok result => write_stdout (Marshal (json_sarif_log (Convert result repo)) +:+ LF)
  end.

(** [RunCheck] from the parsed options. *)
Definition RunCheck (httpClient : http_client) (opts : validateOptions) : CM (option goerror) :=
  let! established := establishDaemon httpClient (vo_addr opts) (vo_clientCert opts) (vo_clientKey opts) (vo_clientCA opts) in
  match established with
  | Err err => handleValidateFailure err (vo_repo opts)
  | Ok daemon =>
      let! content := resolveContent (vo_repo opts) (vo_file opts) (vo_content opts) (vo_contentFile opts) (vo_staged opts) in
      match content with
      | Err err => ret (Some err)
      | Ok proposedContent =>
          let request := mkRequest (vo_repo opts) (vo_file opts) proposedContent (vo_language opts) (vo_dryRun opts) in
          let! exchanged := postCheckExchange (ep_client daemon) (ep_addr daemon) request in
          match exchanged with
          | Err err => handleValidateFailure err (vo_repo opts)
          | Ok body => writeValidationResult (vo_format opts) (vo_repo opts) body
          end
      end
  end.
End client.
