(* ===== verification/ClientProofs.v ===== *)
(** * What the validation client guarantees

    The verdict it prints is the daemon's, a failure is never taken for one, requests
    stay on the host that was named, and the daemon reads the request that was meant. *)

From stdpp Require Import base gmap strings list fin_maps.
From Stdlib Require Import ZArith Lia Ascii.
From S2P Require Import Prelude GoStrings GoErrors GoFloat GoJson GoJsonPrint GoNet GoOS Fitness HistoryEvent Hooks HooksText Sarif Client Auth Server.
Set Default Goal Selector "!".

Section client.
Context {E : OSEnv} {SL : Sleeper} {U : UnicodeTables} {J : JsonErrorText} {N : JsonNumberText} {P : URLPackage} {T : TLSWorld}.
Context (getenv : string → string).
Context (git : string → list string → external (string * option goerror)).
Context (network : sent → nat → result goerror http_reply).
Context (starter : DaemonStartConfig → external (option goerror)).

Abbreviation CW := (world client_state).
Abbreviation CM := (M client_state).

(** ** Invariants of the state *)

(** Computations over the streams that leave them alone. *)
Definition mute {A} (m : HM A) : Prop := ∀ w, w_app (m w).2 = w_app w.
Lemma mute_bind {A B} (m : HM A) (k : A → HM B) : mute m → (∀ a, mute (k a)) → mute (bind m k).
Proof. intros Hm Hk w. unfold bind. specialize (Hm w). destruct (m w) as [[a| |] w']; cbn in *; [by rewrite Hk|done..]. Qed.
Lemma mute_os_op {A} op path (failed : goerror → world streams → A * world streams) effect :
  (∀ e w, w_app (failed e w).2 = w_app w) → (∀ w, w_app (effect w).2 = w_app w) → mute (os_op op path failed effect).
Proof.
  intros Hf He w. unfold os_op. destruct (os_fault _ _ _) as [e|].
  - specialize (Hf e w). by destruct (failed e w).
  - specialize (He w). by destruct (effect w).
Qed.
Lemma mute_gitOutput dir args : mute (gitOutput git dir args).
Proof. apply mute_bind; [done|]. by intros [output [e|]]. Qed.
Lemma mute_write_file path content : mute (write_file path content).
Proof.
  apply mute_bind; [apply mute_os_op; [done|]; intros w; by destruct (decide _)|]. intros [e|]; [done|].
  apply mute_bind; [by apply mute_os_op|]. intros a. apply mute_bind; [by apply mute_os_op|]. done.
Qed.

(** A value that [m] may return. *)
Definition possible {A} (m : CM A) (a : A) : Prop := ∃ w w', m w = (Returned a, w').
Lemma keeps_bind_possible {A B} (I : client_state → Prop) (m : CM A) (k : A → CM B) :
  keeps I m → (∀ a, possible m a → keeps I (k a)) → keeps I (bind m k).
Proof.
  intros Hm Hk w Hw. unfold bind. specialize (Hm w Hw). destruct (m w) as [[a| |] w'] eqn:Hr; cbn in *; [|done..].
  apply (Hk a); [by exists w, w'|done].
Qed.
Lemma possible_returns {A} (m : CM A) (Q : A → Prop) a : (∀ w, returns m (λ a _, Q a) w) → possible m a → Q a.
Proof. intros H (w & w' & Hr). by apply (H w a w'). Qed.

Section invariant.
(** [I] survives starting a daemon and sending a request to an address in reach. *)
Context (I : client_state → Prop) (reaches : string → Prop).
Hypothesis (Hsend : ∀ x s, reaches (sent_url x) → I s → I (mkClientState (cl_out s) (cl_sent s ++ [x]) (cl_started s))).
Hypothesis (Hstart : ∀ cfg s, I s → I (mkClientState (cl_out s) (cl_sent s) (cl_started s ++ [cfg]))).

Lemma kept_started cfg : keeps I (record_started cfg).
Proof using Hstart. intros w Hw. by apply Hstart. Qed.
Lemma kept_Do x : reaches (sent_url x) → keeps I (Do network x).
Proof using Hsend. intros Hx w Hw. cbn. by apply Hsend. Qed.
Lemma kept_on_streams {A} (m : HM A) : mute m → keeps I (on_streams m).
Proof using.
  intros Hm w Hw. unfold on_streams, zoom. specialize (Hm (mkWorld (cl_out (w_app w)) (w_files w) (w_dirs w) (w_clock w))).
  destruct (m _) as [a w']. cbn in *. rewrite Hm. by destruct (w_app w).
Qed.
Lemma kept_git dir args : keeps I (on_streams (gitOutput git dir args)).
Proof using. apply kept_on_streams, mute_gitOutput. Qed.
Lemma kept_write path content : keeps I (on_streams (write_file path content)).
Proof using. apply kept_on_streams, mute_write_file. Qed.
Hint Resolve kept_started kept_Do kept_git kept_write : governance.

Lemma kept_probe client addr : reaches (daemonURL addr "/health") → keeps I (probeDaemon network client addr).
Proof using Hsend. intros Hr. unfold probeDaemon. keeps_tac. Qed.
Hint Resolve kept_probe : governance.
Lemma kept_wait fuel deadline client addr : reaches (daemonURL addr "/health") → keeps I (wait_healthy network fuel deadline client addr).
Proof using Hsend. intros Hr. induction fuel as [|fuel IH]; cbn [wait_healthy]; keeps_tac. Qed.
Hint Resolve kept_wait : governance.
Lemma kept_ensureProbed endpoint cfg probeErr : reaches (daemonURL (ep_addr endpoint) "/health") →
  keeps I (ensureProbedDaemon getenv network starter endpoint cfg probeErr).
Proof using Hsend Hstart. intros Hr. unfold ensureProbedDaemon, waitHealthy. keeps_tac. Qed.
Lemma kept_load mode publish : keeps I (loadClientTLSMode getenv git mode publish).
Proof using. unfold loadClientTLSMode, publishManagedRoot, ensureCertsIgnoreProtection. keeps_tac. Qed.
Lemma kept_configure base material : keeps I (configureClientTLSMaterial base material).
Proof using. unfold configureClientTLSMaterial, configureTLS, buildTLSConfig. keeps_tac. Qed.
Lemma kept_candidates candidates alternate probeErr : reaches (daemonURL alternate "/health") →
  keeps I (try_candidates network candidates alternate probeErr).
Proof using Hsend. intros Hr. revert probeErr. induction candidates as [|c cs IH]; intros probeErr; cbn [try_candidates]; keeps_tac. Qed.
Hint Resolve kept_ensureProbed kept_load kept_configure kept_candidates : governance.

(** The addresses an exchange may use: the one that was named, or its other scheme. *)
Definition candidate_addr (addr a : string) : Prop := a = addr ∨ a = alternateSchemeAddr addr ∧ a ≠ "".

Lemma resolve_addr base certDir r : possible (resolveDaemonEndpoint getenv git network base certDir) r → candidate_addr (ep_addr base) (ep_addr r.1).
Proof using.
  apply (possible_returns _ (λ r, candidate_addr (ep_addr base) (ep_addr r.1))). intros w. unfold resolveDaemonEndpoint.
  apply returns_bind. intros [probeErr|] w1 _; [|apply returns_ret; by left]. destruct (negb _); [apply returns_ret; by left|].
  destruct (String.eqb_spec (alternateSchemeAddr (ep_addr base)) "") as [|Hne]; [apply returns_ret; by left|].
  apply returns_bind. intros candidates w2 _. apply returns_bind. intros [c|e] w3 _; apply returns_ret; [by right|by left].
Qed.

Context (addr : string) (Hreach : ∀ a, candidate_addr addr a → reaches (daemonURL a "/health")).

Lemma kept_resolve client certDir : keeps I (resolveDaemonEndpoint getenv git network (mkEndpoint addr client) certDir).
Proof using Hsend Hreach.
  assert (reaches (daemonURL addr "/health")) by (apply Hreach; by left).
  unfold resolveDaemonEndpoint. apply keeps_bind; [keeps_tac|]. intros [probeErr|]; [|keeps_tac]. destruct (negb _); [keeps_tac|].
  cbn [ep_addr]. destruct (String.eqb_spec (alternateSchemeAddr addr) "") as [|Hne]; [keeps_tac|].
  assert (reaches (daemonURL (alternateSchemeAddr addr) "/health")) by (apply Hreach; by right).
  unfold alternateSchemeClients. keeps_tac.
Qed.

Lemma kept_establish client cert key ca : keeps I (establishDaemon getenv git network starter client addr cert key ca).
Proof using Hsend Hstart Hreach.
  unfold establishDaemon. destruct (resolveClientTLSMode _ _ _ _ _) as [mode|err]; [|keeps_tac].
  apply keeps_bind; [keeps_tac|]. intros [material|err]; [|keeps_tac]. apply keeps_bind; [keeps_tac|]. intros [configured|err]; [|keeps_tac].
  apply keeps_bind_possible; [apply kept_resolve|]. intros [endpoint probeErr] Hp%resolve_addr. cbn in Hp.
  pose proof (Hreach _ Hp). keeps_tac.
Qed.
End invariant.

Lemma establish_addr client addr cert key ca r :
  possible (establishDaemon getenv git network starter client addr cert key ca) r →
  match r with Ok endpoint => candidate_addr addr (ep_addr endpoint) | Err _ => True end.
Proof using.
  apply (possible_returns _ (λ r, match r with Ok endpoint => candidate_addr addr (ep_addr endpoint) | Err _ => True end)).
  intros w. unfold establishDaemon. destruct (resolveClientTLSMode _ _ _ _ _) as [mode|err]; [|by apply returns_ret].
  apply returns_bind. intros [material|err] w1 _; [|by apply returns_ret]. apply returns_bind. intros [configured|err] w2 _; [|by apply returns_ret].
  apply returns_bind. intros [endpoint probeErr] w3 Hr.
  assert (candidate_addr addr (ep_addr endpoint)) by (apply (resolve_addr (mkEndpoint addr configured) (resolveDevCertDir getenv) (endpoint, probeErr)); by eexists _, _).
  destruct probeErr as [e|]; [|by apply returns_ret]. apply returns_bind. intros [e'|] w4 _; by apply returns_ret.
Qed.

(** ** The output *)

Definition printed (w : CW) : list string := s_stdout (cl_out (w_app w)).
Definition silent {A} (m : CM A) : Prop := ∀ o, keeps (λ s, s_stdout (cl_out s) = o) m.

Lemma silent_establish client addr cert key ca : silent (establishDaemon getenv git network starter client addr cert key ca).
Proof. intros o. by apply (kept_establish _ (λ _, True)). Qed.
Lemma silent_content repo file content contentFile staged : silent (resolveContent git repo file content contentFile staged).
Proof. intros o. unfold resolveContent, resolveContentFromGit, resolveContentFromDisk. keeps_tac. Qed.

Lemma returns_silent {A} (m : CM A) w : silent m → returns m (λ _ w', printed w' = printed w) w.
Proof. intros Hm a w' Hw. specialize (Hm (printed w) w eq_refl). by rewrite Hw in Hm. Qed.

Lemma returns_Do x w : returns (Do network x) (λ r w', r = network x (w_clock w) ∧
  cl_sent (w_app w') = cl_sent (w_app w) ++ [x] ∧ printed w' = printed w) w.
Proof. by intros r w' [= <- <-]. Qed.
Lemma returns_print text w : returns (on_streams (print_out text)) (λ _ w',
  cl_sent (w_app w') = cl_sent (w_app w) ∧ printed w' = printed w ++ [text]) w.
Proof. by intros r w' [= <- <-]. Qed.

(** ** Failures and verdicts *)

(** The kinds of infrastructure failures. *)
Definition error_kinds : list string :=
  [errorKindServerUnreachable; errorKindTLSFailure; errorKindUnauthenticated; errorKindUnauthorized; errorKindNotConfigured;
   errorKindInvalidRequest; errorKindServerError; errorKindPortConflict; errorKindTimeout].

(** A report: an infrastructure error whose text says that it is one. *)
Definition is_report (err : goerror) : Prop := ∃ kind message remediation rest,
  err = InfraError kind message remediation ∧ kind ∈ error_kinds ∧ remediation ≠ "" ∧
  bytes (report_text err) = bytes "{" ++ encode_string "status" ++ bytes ":" ++ encode_string "error" ++ bytes "," ++ rest.

Lemma infra_report kind message remediation : kind ∈ error_kinds → remediation ≠ "" → is_report (InfraError kind message remediation).
Proof.
  intros Hk Hr. eexists kind, message, remediation, _. split; [done|]. split; [done|]. split; [done|].
  cbn [report_text]. unfold Marshal, infraErrorReport. cbn [json_print]. rewrite bytes_app, bytes_of_bytes. unfold enclose.
  cbn [map fst snd gap colon app json_print]. cbn [app mbind list_bind]. rewrite <-?app_assoc. reflexivity.
Qed.

Lemma kind_in i k : error_kinds !! i = Some k → k ∈ error_kinds.
Proof. apply list_elem_of_lookup_2. Qed.

Lemma status_report status body repo : is_report (httpStatusInfraError status body repo).
Proof.
  unfold httpStatusInfraError. repeat (destruct (_ =? _)%Z; cbn [orb]).
  all: apply infra_report; [first [apply (kind_in 2); reflexivity|apply (kind_in 3); reflexivity|apply (kind_in 4); reflexivity
    |apply (kind_in 5); reflexivity|apply (kind_in 6); reflexivity|apply (kind_in 8); reflexivity]|try discriminate].
Qed.
Lemma connection_report err : is_report (connectionInfraError err).
Proof.
  unfold connectionInfraError, portConflictInfraError. destruct (errors_as as_conflict err) as [[[addr cause] mm]|].
  - apply infra_report; [apply (kind_in 7); reflexivity|discriminate].
  - destruct (isTimeoutError err); [apply infra_report; [apply (kind_in 8); reflexivity|discriminate]|].
    destruct (isTLSError err); apply infra_report; try discriminate; [apply (kind_in 1)|apply (kind_in 0)]; reflexivity.
Qed.

Lemma classify_total err repo : match classifyValidationError err repo with
  | None => IsUsageError err = true
  | Some ierr => is_report ierr
  end.
Proof.
  unfold classifyValidationError. destruct (IsUsageError err); [done|].
  destruct (errors_as as_status err) as [[status body]|]; [apply status_report|apply connection_report].
Qed.

(** The request the options stand for, with some content. *)
Definition request_of (opts : validateOptions) (content : string) : ValidationRequest :=
  mkRequest (vo_repo opts) (vo_file opts) content (vo_language opts) (vo_dryRun opts).

(** What the client adds to its output for a verdict: the answer as it came, or the
    SARIF document of it. *)
Definition rendering (opts : validateOptions) (body : string) (before after : list string) : Prop :=
  if String.eqb (vo_format opts) "sarif"
  then ∃ result, unmarshal dec_result_view (mkResultView "" false None) body = Ok result ∧
         after = before ++ [Marshal (json_sarif_log (Convert result (vo_repo opts))) +:+ LF]
  else after = before ++ [body].

(** The daemon answered the very request, and [after] is the output with the answer. *)
Definition answered_with (opts : validateOptions) (w : CW) (after : list string) (w' : CW) : Prop :=
  ∃ x t reply content body, last (cl_sent (w_app w')) = Some x ∧ sent_method x = "POST" ∧
    sent_body x = Marshal (json_ValidationRequest (request_of opts content)) ∧
    network x t = Ok reply ∧ rp_StatusCode reply = 200%Z ∧ read_limited 10485760 reply = Ok body ∧
    rendering opts body (printed w) after.

(** How a run of the client may end.  A write to the standard output that fails may
    have written a part of the answer. *)
Definition explained (opts : validateOptions) (w : CW) (r : option goerror) (w' : CW) : Prop :=
  match r with
  | None => answered_with opts w (printed w') w'
  | Some err => printed w' = printed w ∨ is_report err ∧ printed w' = printed w ++ [report_text err] ∨
      ∃ text n, answered_with opts w (printed w ++ [text]) w' ∧ printed w' = printed w ++ [str_take n text]
  end.

Lemma returns_write_stdout text w : returns (write_stdout text) (λ r w', cl_sent (w_app w') = cl_sent (w_app w) ∧
  match r with
  | None => printed w' = printed w ++ [text]
  | Some _ => ∃ n, printed w' = printed w ++ [str_take n text]
  end) w.
Proof.
  apply returns_bind, returns_os_op; [intros e _; cbn [fst snd]|]; cbn [fst snd].
  { apply returns_bind. eapply returns_weaken; [apply returns_print|]. intros _ w' [H1 H2]. apply returns_ret. split; [done|]. by eexists. }
  apply returns_bind. eapply returns_weaken; [apply returns_print|]. intros _ w' [H1 H2]. by apply returns_ret.
Qed.

Lemma returns_failure err repo w o : printed w = o →
  returns (handleValidateFailure err repo) (λ r w', ∃ e, r = Some e ∧ (printed w' = o ∨ is_report e ∧ printed w' = o ++ [report_text e])) w.
Proof.
  intros Ho. unfold handleValidateFailure. pose proof (classify_total err repo) as H.
  destruct (classifyValidationError err repo) as [ierr|]; [|apply returns_ret; eauto].
  apply returns_bind. intros [] w1 [= <-]. apply returns_ret. exists ierr. split; [done|]. right. split; [done|].
  unfold printed in *. cbn. by rewrite Ho.
Qed.

(** C4: every end of a validation is accounted for: success means that the daemon answered
    200 to the POST of the very request, completely, and what is printed is its answer;
    an error means that nothing was printed, or a report whose status is error, or that
    such an answer could be written in part only.  No failure of certificates, network
    or daemon prints a verdict. *)
Theorem RunCheck_explained httpClient opts w :
  returns (RunCheck getenv git network starter httpClient opts) (explained opts w) w.
Proof.
  unfold RunCheck. apply returns_bind. eapply returns_weaken; [apply returns_silent, silent_establish|].
  intros established w1 H1. destruct established as [daemon|err].
  2: { eapply returns_weaken; [apply (returns_failure _ _ _ _ H1)|]. intros r w' (e & -> & [?|?]); [by left|right; by left]. }
  apply returns_bind. eapply returns_weaken; [apply returns_silent, silent_content|]. intros content w2 H2. rewrite H1 in H2.
  destruct content as [content|err]; [|apply returns_ret; by left].
  apply returns_bind. unfold postCheckExchange. destruct (url_Parse _) as [u|].
  2: { apply returns_ret. eapply returns_weaken; [apply (returns_failure _ _ _ _ H2)|]. intros r w' (e & -> & [?|?]); [by left|right; by left]. }
  set (body := Marshal _). set (x := mkSent _ _ _ body). apply returns_bind. eapply returns_weaken; [apply returns_Do|].
  intros response w3 (-> & Hsent & H3). rewrite H2 in H3. apply returns_ret. fold x in Hsent. fold x.
  destruct (network x (w_clock w2)) as [reply|err] eqn:Hnet.
  2: { eapply returns_weaken; [apply (returns_failure _ _ _ _ H3)|]. intros r w' (e & -> & [?|?]); [by left|right; by left]. }
  destruct (rp_StatusCode reply =? 200)%Z eqn:Hs; cbn [negb].
  2: { eapply returns_weaken; [apply (returns_failure _ _ _ _ H3)|]. intros r w' (e & -> & [?|?]); [by left|right; by left]. }
  destruct (read_limited 10485760 reply) as [answer|err] eqn:He.
  2: { eapply returns_weaken; [apply (returns_failure _ _ _ _ H3)|]. intros r w' (e & -> & [?|?]); [by left|right; by left]. }
  apply Z.eqb_eq in Hs. unfold writeValidationResult.
  assert (∀ text w', cl_sent (w_app w') = cl_sent (w_app w3) → rendering opts answer (printed w) text →
    answered_with opts w text w') as Hok.
  { intros text w' Hs' Hr. exists x, (w_clock w2), reply, content, answer. by rewrite Hs', Hsent, last_snoc. }
  assert (∀ text, rendering opts answer (printed w) (printed w ++ [text]) → returns (write_stdout text) (explained opts w) w3) as Hwrite.
  { intros text Hr. eapply returns_weaken; [apply returns_write_stdout|]. rewrite H3. intros [e|] w4 [H4 H5].
    - destruct H5 as [n H5]. right. right. exists text, n. split; [by apply Hok|done].
    - cbn [explained]. rewrite H5. by apply Hok. }
  destruct (String.eqb (vo_format opts) "sarif") eqn:Hf; cbn [negb].
  - destruct (unmarshal _ _ _) as [result|err] eqn:Hu; [|apply returns_ret; by left].
    apply Hwrite. unfold rendering. rewrite Hf. eauto.
  - apply Hwrite. unfold rendering. by rewrite Hf.
Qed.

(** ** Where requests go *)

(** A request stays on the host: it goes to the address that was named, or, when that is
    the loopback host, to the same host with the other scheme. *)
Definition stays (addr url : string) : Prop :=
  ∃ a path, url = daemonURL a path ∧
    (a = addr ∨ ∃ u u', parseLocalDaemonURL addr = Some u ∧ url_Parse a = Some u' ∧ url_Hostname u' = url_Hostname u).

Lemma candidate_stays {L : URLLaws P} addr a path : candidate_addr addr a → stays addr (daemonURL a path).
Proof.
  intros [->|[-> Hne]]; [exists addr, path; split; [done|by left]|]. eexists _, path. split; [done|]. right.
  unfold alternateSchemeAddr in *. destruct (parseLocalDaemonURL addr) as [u|] eqn:Hu; [|done].
  assert (url_Parse addr = Some u) as Hp.
  { unfold parseLocalDaemonURL in Hu. destruct (url_Parse addr) as [v|]; [|done].
    destruct (negb _ && negb _); [done|]. destruct (String.eqb _ _); [by injection Hu as ->|].
    destruct (ParseIP _) as [ip|]; [|done]. destruct (IsLoopback ip); [by injection Hu as ->|done]. }
  eexists u, _. split; [done|]. split; [eapply parse_printed; [exact Hp|destruct (String.eqb _ _); by auto]|apply hostname_set].
Qed.

(** Whatever happens, the source goes nowhere else: every request of a validation, the
    probes and the check with the content alike, stays on the host that was named; in
    particular an address that is not the loopback host is used as it is, with its
    scheme. *)
Theorem RunCheck_stays {L : URLLaws P} httpClient opts w (H0 : cl_sent (w_app w) = []) x :
  x ∈ cl_sent (w_app (RunCheck getenv git network starter httpClient opts w).2) →
  stays (vo_addr opts) (sent_url x) ∧
  (parseLocalDaemonURL (vo_addr opts) = None → ∃ path, sent_url x = daemonURL (vo_addr opts) path).
Proof.
  set (I := λ s : client_state, Forall (λ x, stays (vo_addr opts) (sent_url x)) (cl_sent s)).
  assert (∀ x s, stays (vo_addr opts) (sent_url x) → I s → I (mkClientState (cl_out s) (cl_sent s ++ [x]) (cl_started s))) as Hsend.
  { intros y s Hy Hs. apply Forall_app. split; [done|by constructor]. }
  assert (keeps I (RunCheck getenv git network starter httpClient opts)) as Hk.
  { assert (∀ text, keeps I (on_streams (print_out text))) by by intros text v Hv.
    assert (∀ err repo, keeps I (handleValidateFailure err repo)) as Hf.
    { intros err repo. unfold handleValidateFailure, reportInfraError. keeps_tac. }
    assert (∀ text, keeps I (write_stdout text)).
    { intros text. unfold write_stdout. apply keeps_bind; [by apply keeps_os_op|]. intros [[e n]|]; keeps_tac. }
    unfold RunCheck. apply keeps_bind_possible.
    { apply (kept_establish I (stays (vo_addr opts)) Hsend); [done|]. intros a Ha. by apply candidate_stays. }
    intros [daemon|err] Hp%establish_addr; [|apply Hf]. apply keeps_bind.
    { unfold resolveContent, resolveContentFromGit, resolveContentFromDisk. keeps_tac. }
    intros [content|err]; [|keeps_tac]. apply keeps_bind.
    - unfold postCheckExchange. destruct (url_Parse _); [|keeps_tac]. apply keeps_bind; [|keeps_tac].
      apply (kept_Do I (stays (vo_addr opts)) Hsend). by apply candidate_stays.
    - intros [body|err]; [|apply Hf]. unfold writeValidationResult. keeps_tac. }
  intros Hx. assert (I (w_app w)) as Hw by (unfold I; rewrite H0; constructor). specialize (Hk w Hw). unfold I in Hk.
  rewrite Forall_forall in Hk. specialize (Hk x Hx). split; [done|].
  intros Hn. destruct Hk as (a & path & -> & [->|(u & u' & Hu & _)]); [by exists path|by rewrite Hn in Hu].
Qed.

(** ** The request on the other side *)

(** C36: the daemon reads what the client means: a request with ASCII text whose body is
    within the limit is decoded by the handler of /check as that very request. *)
Theorem request_understood r request :
  let body := Marshal (json_ValidationRequest request) in
  ascii_text (req_Repo request) = true → ascii_text (req_File request) = true → ascii_text (req_ProposedContent request) = true →
  ascii_text (req_Language request) = true → r_Body r = Ok body →
  (Z.of_nat (String.length body) ≤ maxValidationRequestBytes)%Z →
  decodeValidationRequest r = Ok request.
Proof.
  intros body H1 H2 H3 H4 Hb Hl. unfold decodeValidationRequest. rewrite Hb.
  rewrite (proj2 (Z.ltb_ge _ _)) by exact Hl. unfold unmarshal, body.
  assert (plain (json_ValidationRequest request) = true) as Hp.
  { cbn [json_ValidationRequest plain forallb fst snd]. unfold ascii_text in *. by rewrite H1, H2, H3, H4. }
  rewrite (proj2 (json_print_parse _ Hp)). by destruct request.
Qed.
End client.

(** ** Runs of the client *)

Module ClientExamples.

#[local] Existing Instance basic_unicode.
#[local] Instance errors : JsonErrorText := λ _, "invalid document".
#[local] Instance numbers : JsonNumberText := λ l, l.
(** A step takes 25 ms. *)
#[local] Instance paced_os : OSEnv := {|
  os_now t := (25000000 * Z.of_nat t)%Z;
  os_fault _ _ _ := None;
  os_written _ := 0%nat;
  os_temp_name t dir pattern := path_join [dir; pattern +:+ itoa (Z.of_nat t)];
  os_select _ := true;
|}.
#[local] Instance paced_sleep : Sleeper := λ t d, S (t + Z.to_nat (d / 25000000))%nat.
#[local] Instance paced_laws : SleeperLaws paced_os paced_sleep.
Proof.
  split.
  - intros t t' H. cbn. lia.
  - intros t d. unfold os_wake, paced_sleep. lia.
  - intros t d. unfold os_wake, paced_sleep. cbn [os_now paced_os].
    pose proof (Z.mul_succ_div_gt d 25000000 ltac:(lia)). lia.
Qed.

(** URLs of the form scheme://host[:port][/path]. *)
Record simple_url := mkSimple { su_scheme : string; su_rest : string }.
Definition simple_parse (a : string) : option simple_url :=
  if has_prefix a "http://" then Some (mkSimple "http" (of_bytes (drop 7 (bytes a))))
  else if has_prefix a "https://" then Some (mkSimple "https" (of_bytes (drop 8 (bytes a))))
  else None.
#[local] Instance simple_urls : URLPackage := {|
  URL := simple_url;
  url_Parse := simple_parse;
  url_Scheme := su_scheme;
  url_Hostname u := hd "" (split (hd "" (split (su_rest u) "/"%char)) ":"%char);
  url_Host u := hd "" (split (su_rest u) "/"%char);
  url_Port u := match split (hd "" (split (su_rest u) "/"%char)) ":"%char with [_; port] => port | _ => "" end;
  url_set_Scheme s u := mkSimple s (su_rest u);
  url_String u := su_scheme u +:+ "://" +:+ su_rest u;
|}.
#[local] Instance simple_laws : URLLaws simple_urls.
Proof.
  split; [done|done|]. intros s a u _ Hs. cbn [url_Parse url_String url_set_Scheme simple_urls su_scheme su_rest].
  destruct u as [sch rest]. cbn [su_rest]. unfold simple_parse.
  destruct Hs as [->| ->].
  - rewrite (proj2 (has_prefix_spec _ "http://")) by by eexists. do 2 f_equal. exact (of_bytes_bytes rest).
  - replace (has_prefix ("https" +:+ "://" +:+ rest) "http://") with false by done.
    rewrite (proj2 (has_prefix_spec _ "https://")) by by eexists. do 2 f_equal. exact (of_bytes_bytes rest).
Qed.
#[local] Instance no_certificates : TLSWorld := {|
  Certificate := unit;
  CertPool := unit;
  ManagedVersion := unit;
  LoadX509KeyPair _ _ _ _ _ := Returned (Ok tt);
  AppendCertsFromPEM _ := Some tt;
  publishManagedCertificates _ _ _ _ := Returned None;
  resolveManagedVersion _ _ _ _ := Returned (Ok tt);
  loadManagedClient _ _ _ _ := Returned (Ok (tt, tt));
  version_Paths _ := ("server.crt", "server.key", "ca.crt");
|}.

Definition no_git : string → list string → external (string * option goerror) :=
  λ _ _ _ _ _, Returned ("", Some (ErrNew "exit status 128")).
Definition home (name : string) : string := if String.eqb name "HOME" then "/home/dev" else "".
Definition no_start : DaemonStartConfig → external (option goerror) := λ _ _ _ _, Returned (Some (ErrNew "exec format error")).
Definition options (addr : string) : validateOptions :=
  mkValidateOptions addr "cart.go" "shop" "package cart" "" "go" "json" "" "" "" false false.
Definition client : http_client := mkClient None None.
Definition start : world client_state := mkWorld (mkClientState (mkStreams [] []) [] []) ∅ ∅ 0.

(** A daemon on the loopback host that passes the check, and a network that is down. *)
Definition verdict_text : string := Marshal (JObj [("status", JStr "pass")]).
Definition healthy : sent → nat → result goerror http_reply := λ x _,
  Ok (mkReply 200 (if String.eqb (sent_method x) "POST" then verdict_text else "") None).
Definition down : sent → nat → result goerror http_reply := λ _ _,
  Err (ErrNet (Some false) false "dial tcp: connection refused" None).

Definition local_run : outcome (option goerror) * world client_state :=
  RunCheck home no_git healthy no_start client (options "http://127.0.0.1:7890") start.

Lemma RunCheck_explained_witness : printed local_run.2 = [verdict_text].
Proof.
  assert (local_run = (Returned None, local_run.2)) as Hrun by (vm_compute; reflexivity).
  destruct (RunCheck_explained home no_git healthy no_start client (options "http://127.0.0.1:7890") start None local_run.2 Hrun)
    as (x & t & reply & content & body & _ & Hm & _ & Hn & _ & Hb & Hp).
  unfold healthy in Hn. rewrite Hm in Hn. injection Hn as <-. injection Hb as <-. exact Hp.
Defined.

Definition remote : string := "https://governance.example.com".
Definition remote_run : outcome (option goerror) * world client_state :=
  RunCheck home no_git down no_start client (options remote) start.

Lemma RunCheck_stays_witness : ∃ x path, cl_sent (w_app remote_run.2) = [x] ∧ sent_url x = daemonURL remote path.
Proof.
  eexists. destruct (λ H, RunCheck_stays home no_git down no_start client (options remote) start eq_refl (mkSent client "GET" (daemonURL remote "/health") "") H)
    as [_ Hr]; [vm_compute; by left|].
  destruct Hr as [path Hpath]; [vm_compute; reflexivity|]. exists path. split; [vm_compute; reflexivity|exact Hpath].
Defined.

(** An unreachable remote address has a daemon started for it on this machine. *)
Lemma remote_address_started : (dc_Addr <$> cl_started (w_app remote_run.2)) = [remote].
Proof. vm_compute. reflexivity. Qed.

Definition posted : ValidationRequest := mkRequest "shop" "cart.go" "package cart" "go" false.
Definition request_in : http_request := mkHTTP "POST" "127.0.0.1:5555" None "" ""
  (Ok (Marshal (json_ValidationRequest posted))) None None.
Lemma request_understood_witness : decodeValidationRequest request_in = Ok posted.
Proof. apply (request_understood request_in posted); [reflexivity..|vm_compute; discriminate]. Defined.

(** A repository named by a relative path moves the locations out of it. *)
Lemma relative_repository_location : relURI "cart.go" "shop" = "../cart.go".
Proof. vm_compute. reflexivity. Qed.
End ClientExamples.
