(* ===== verification/Restart.v ===== *)
(** * Replacing the local daemon

    The identity a daemon reports and when it is stale ([client/daemonstatus.go]), and
    the restart engine of [client/restart.go]: the restart lock, the shutdown request with
    its fallback routes, the drain, and the verdict by a fresh identity.

    Sequential model of one client process, over the state of [Client]: what is sent,
    what is started, and the directories.  Other processes and the heartbeat of the lock
    are the subject of [RestartLock]; here the age of a lock directory is an answer of
    the environment. *)

From stdpp Require Import base gmap strings list fin_maps.
From Stdlib Require Import ZArith Lia Ascii.
From S2P Require Import Prelude GoStrings GoErrors GoFloat GoJson GoJsonPrint GoNet GoOS Fitness HistoryEvent Hooks Sarif Client.
Set Default Goal Selector "!".

(** ** Identity *)

Record daemonIdentity := mkDaemonIdentity {
  di_BuildRevision : string;
  di_BuildModified : bool;
  di_ListenMode : string;
  di_ConfigsDir : string;
  di_PID : Z;
  di_Legacy : bool;
}.
Definition zero_identity : daemonIdentity := mkDaemonIdentity "" false "" "" 0 false.
Definition legacy_identity : daemonIdentity := mkDaemonIdentity "" false "" "" 0 true.

Definition localHTTPListenMode : string := "local-http".

Record daemonExpectations := mkExpectations {
  ex_BuildRevision : string;
  ex_BuildModified : bool;
  ex_ListenMode : string;
  ex_ConfigsDir : string;
}.

Definition identity_fields : list (string * (json → daemonIdentity → option daemonIdentity)) :=
    [("build_revision", λ j d, (λ x, mkDaemonIdentity x (di_BuildModified d) (di_ListenMode d) (di_ConfigsDir d) (di_PID d) (di_Legacy d)) <$> dec_string j (di_BuildRevision d));
     ("build_modified", λ j d, (λ x, mkDaemonIdentity (di_BuildRevision d) x (di_ListenMode d) (di_ConfigsDir d) (di_PID d) (di_Legacy d)) <$> dec_bool j (di_BuildModified d));
     ("listen_mode", λ j d, (λ x, mkDaemonIdentity (di_BuildRevision d) (di_BuildModified d) x (di_ConfigsDir d) (di_PID d) (di_Legacy d)) <$> dec_string j (di_ListenMode d));
     ("configs_dir", λ j d, (λ x, mkDaemonIdentity (di_BuildRevision d) (di_BuildModified d) (di_ListenMode d) x (di_PID d) (di_Legacy d)) <$> dec_string j (di_ConfigsDir d));
     ("pid", λ j d, (λ x, mkDaemonIdentity (di_BuildRevision d) (di_BuildModified d) (di_ListenMode d) (di_ConfigsDir d) x (di_Legacy d)) <$> dec_int j (di_PID d))].
Definition dec_daemonIdentity : decoder daemonIdentity := dec_struct identity_fields.

(** The identity in the body of a 200 answer of [GET /health]. *)
Definition identity_of_body {J : JsonErrorText} (body : string) : daemonIdentity :=
  if String.eqb body "" then legacy_identity
  else match unmarshal dec_daemonIdentity zero_identity body with
       | Ok seen => seen
       | Err _ => legacy_identity
       end.

(** ** Staleness *)

Section staleness.
Context {U : UnicodeTables}.
(** [os.Getwd], which [filepath.Abs] needs for a relative path. *)
Context (getwd : option string).

Definition absoluteCleanPath (path : string) : string :=
  if is_abs path then path_clean path
  else match getwd with
       | Some wd => path_join [wd; path]
       | None => path_clean path
       end.

Definition mismatch_text (dimension observed expected : string) : string :=
  "daemon " +:+ dimension +:+ " " +:+ quote observed +:+ " does not match the expected " +:+ quote expected.

Definition valueMismatchReason (dimension observed expected : string) : string :=
  if String.eqb observed "" || String.eqb expected "" || String.eqb observed expected then ""
  else mismatch_text dimension observed expected.

Definition pathMismatchReason (dimension observed expected : string) : string :=
  if String.eqb observed "" || String.eqb expected ""
     || String.eqb (absoluteCleanPath observed) (absoluteCleanPath expected) then ""
  else mismatch_text dimension observed expected.

(** [if reason != "" { reasons = append(reasons, reason) }]. *)
Definition add_reason (reasons : list string) (reason : string) : list string :=
  if String.eqb reason "" then reasons else reasons ++ [reason].

Definition buildStaleness (identity : daemonIdentity) (expect : daemonExpectations) : list string :=
  let reasons := add_reason [] (valueMismatchReason "build revision" (di_BuildRevision identity) (ex_BuildRevision expect)) in
  if negb (String.eqb (ex_BuildRevision expect) "") && di_BuildModified identity && negb (ex_BuildModified expect)
  then reasons ++ ["the daemon binary was built from a modified working tree, so its revision does not describe what is running"]
  else reasons.

Definition daemonStaleness (identity : daemonIdentity) (expect : daemonExpectations) : list string :=
  if di_Legacy identity then ["the daemon is a legacy binary that reports no identity on GET /health"]
  else
    let reasons := buildStaleness identity expect in
    let reasons := add_reason reasons (pathMismatchReason "configs directory" (di_ConfigsDir identity) (ex_ConfigsDir expect)) in
    add_reason reasons (valueMismatchReason "listen mode" (di_ListenMode identity) (ex_ListenMode expect)).
End staleness.

(** [buildinfo.Current] is the pair of the revision and whether the tree was modified. *)
Definition currentDaemonExpectations (getenv : string → string) (build : string * bool) (listenMode : string) :
  daemonExpectations :=
  mkExpectations build.1 build.2 listenMode (resolveConfigsDir getenv).

Definition expectedListenMode {P : URLPackage} (cfg : DaemonStartConfig) : string :=
  if localHTTPStart cfg then localHTTPListenMode else "".

(** ** Timing *)

Record lockTiming := mkLockTiming { lt_wait : Z; lt_staleAge : Z; lt_heartbeat : Z; lt_poll : Z }.
Record restartTiming := mkRestartTiming { rt_lock : lockTiming; rt_drainWait : Z; rt_freshWait : Z; rt_poll : Z }.

Definition second : Z := 1000000000.
Definition millisecond : Z := 1000000.
Definition defaultRestartTiming : restartTiming :=
  mkRestartTiming (mkLockTiming (5 * second) (30 * second) (5 * second) (25 * millisecond))
    (5 * second) (5 * second) (25 * millisecond).

(** ** Shutdown verdicts *)

Inductive shutdownVerdict := shutdownAccepted | shutdownDropped | shutdownWedged | shutdownWrongRoute | shutdownRefused.
#[export] Instance shutdownVerdict_eq : EqDecision shutdownVerdict.
Proof. solve_decision. Defined.

Definition as_rejected (e : goerror) : option (Z * string) :=
  match e with ShutdownRejectedError status body => Some (status, body) | _ => None end.

Section shutdown.
Context {U : UnicodeTables}.

Definition classifyShutdown (err : option goerror) : shutdownVerdict :=
  match err with
  | None => shutdownAccepted
  | Some err =>
      if isSchemeMismatch err || isTLSError err then shutdownWrongRoute
      else if found (errors_as as_rejected err) then shutdownRefused
      else if isTimeoutError err then shutdownWedged
      else shutdownDropped
  end.

Definition shutdownProceeds (verdict : shutdownVerdict) : bool :=
  bool_decide (verdict = shutdownAccepted ∨ verdict = shutdownDropped ∨ verdict = shutdownWedged).

Definition error_text (err : option goerror) : string := match err with Some err => error_string err | None => "<nil>" end.

Definition shutdownNote (verdict : shutdownVerdict) (err : option goerror) : string :=
  match verdict with
  | shutdownWedged =>
      "POST /shutdown timed out — the old daemon completed the connection but never answered (" +:+ error_text err +:+ ")"
  | shutdownDropped =>
      "POST /shutdown was believed only because the connection dropped (" +:+ error_text err +:+ ")"
  | _ => ""
  end.
End shutdown.

(** ** Addresses *)

Section addresses.
Context {P : URLPackage}.

Definition JoinHostPort (host port : string) : string :=
  if contains host ":" then "[" +:+ host +:+ "]:" +:+ port else host +:+ ":" +:+ port.

Definition daemonHostPort (addr : string) : string :=
  match url_Parse addr with
  | None => ""
  | Some parsed =>
      if String.eqb (url_Host parsed) "" then ""
      else if negb (String.eqb (url_Port parsed) "") then url_Host parsed
      else if String.eqb (url_Scheme parsed) "https" then JoinHostPort (url_Hostname parsed) "443"
      else JoinHostPort (url_Hostname parsed) "80"
  end.

Definition daemonPort (addr : string) : string :=
  match url_Parse addr with
  | None => "<port>"
  | Some parsed => if String.eqb (url_Port parsed) "" then "<port>" else url_Port parsed
  end.
End addresses.

(** ** The restart engine *)

Section restart.
Context {E : OSEnv} {SL : Sleeper} {U : UnicodeTables} {J : JsonErrorText} {N : JsonNumberText} {P : URLPackage} {T : TLSWorld}.
Context (getenv : string → string).
Context (git : string → list string → external (string * option goerror)).
Context (network : sent → nat → result goerror http_reply).
Context (starter : DaemonStartConfig → external (option goerror)).
(** Whether a connection to an address succeeds, when a directory was modified, the
    working directory, and the stamp of the running binary. *)
Context (dial : string → nat → bool).
Context (mtime : string → nat → Z).
Context (getwd : option string) (build : string * bool).

Abbreviation CM := (M client_state).

Definition probeDaemonIdentity (client : http_client) (addr : string) : CM (result goerror daemonIdentity) :=
  let url := daemonURL addr "/health" in
  match url_Parse url with
  | None => ret (Err (bad_url url))
  | Some _ =>
      let! response := Do network (mkSent client "GET" url "") in
      ret (match response with
           | Err err => Err err
           | Ok reply =>
               if negb (rp_StatusCode reply =? 200)%Z
               then Err (HttpStatusError (rp_StatusCode reply) (trim_space (limited 1024 (rp_Body reply))))
               else match read_limited 4096 reply with
                    | Err err => Err err
                    | Ok body => Ok (identity_of_body body)
                    end
           end)
  end.

(** *** The lock *)

Definition restartLockPath : string := path_join [governanceRoot getenv; "restart.lock"].

Definition reapStaleLockDir (lockDir : string) (maxAge : Z) : CM unit :=
  let! info := Stat lockDir in
  match info with
  | Err _ => ret tt
  | Ok _ =>
      let! modified := call (λ t _ _, Returned (mtime lockDir t)) in
      let! now := Now in
      if (now - modified <? maxAge)%Z then ret tt
      else let! _ := RemoveEntry lockDir in ret tt
  end.

(** The duration in the message is a whole number of seconds below a minute. *)
Fixpoint acquire_loop (fuel : nat) (deadline : Z) (lockDir : string) (timing : lockTiming) : CM (option goerror) :=
  match fuel with
  | O => diverge
  | S fuel' =>
      let! made := Mkdir lockDir in
      match made with
      | None => ret None
      | Some err =>
          if negb (errors_is err ErrExist) then ret (Some (ErrWrap ("acquiring " +:+ lockDir +:+ ": ") err ""))
          else
            let! _ := reapStaleLockDir lockDir (lt_staleAge timing) in
            let! now := Now in
            if (deadline <? now)%Z then
              ret (Some (ErrNew (lockDir +:+ " held for over " +:+ itoa (lt_wait timing / second)
                +:+ "s; another restart is in progress — wait for it, or remove that directory if no restart is running")))
            else let! _ := Sleep (lt_poll timing) in acquire_loop fuel' deadline lockDir timing
      end
  end.

(** Some error, or the lock: the release that the code returns is [releaseLockDir]. *)
Definition acquireLockDir (lockDir : string) (timing : lockTiming) : CM (option goerror) :=
  let! made := MkdirAll (path_dir lockDir) in
  match made with
  | Some err => ret (Some (ErrWrap ("preparing " +:+ lockDir +:+ ": ") err ""))
  | None =>
      let! now := Now in
      acquire_loop (poll_fuel (lt_wait timing) (lt_poll timing)) (now + lt_wait timing) lockDir timing
  end.

Definition releaseLockDir (lockDir : string) : CM unit := let! _ := RemoveEntry lockDir in ret tt.

(** *** Shutting the old daemon down *)

Definition postShutdown (client : http_client) (addr : string) : CM (option goerror) :=
  let url := daemonURL addr "/shutdown" in
  match url_Parse url with
  | None => ret (Some (bad_url url))
  | Some _ =>
      let! response := Do network (mkSent client "POST" url "") in
      ret (match response with
           | Err err => Some err
           | Ok reply =>
               if (rp_StatusCode reply ÷ 100 =? 2)%Z then None
               else Some (ShutdownRejectedError (rp_StatusCode reply) (trim_space (limited 1024 (rp_Body reply))))
           end)
  end.

Record shutdownRoute := mkRoute { route_client : http_client; route_addr : string }.

(** [alternateSchemeClients] lists the client it was given first. *)
Definition shutdownRoutes (base : http_client) (addr : string) : CM (list shutdownRoute) :=
  let alternate := alternateSchemeAddr addr in
  if String.eqb alternate "" then ret []
  else
    let secure := if isLocalHTTPS alternate then alternate else addr in
    let! candidates := alternateSchemeClients getenv git base secure (resolveDevCertDir getenv) in
    ret (mkRoute base alternate :: ((λ candidate, mkRoute candidate secure) <$> tail candidates)).

Fixpoint tryShutdownRoutes (routes : list shutdownRoute) (lastErr : option goerror) : CM (option goerror) :=
  match routes with
  | [] => ret lastErr
  | route :: routes' =>
      let! err := postShutdown (route_client route) (route_addr route) in
      if shutdownProceeds (classifyShutdown err) then ret err else tryShutdownRoutes routes' err
  end.

Definition shutdownRefusedError (addr : string) (cause : option goerror) : goerror :=
  ErrNew ("the daemon at " +:+ addr +:+ " would not shut down (" +:+ error_text cause
    +:+ "); identify the process that owns the port with `lsof -nP -iTCP:" +:+ daemonPort addr +:+ "` and stop it, then re-run").

Definition requestDaemonShutdown (client : http_client) (addr : string) : CM (result goerror string) :=
  let! err := postShutdown client addr in
  let! err := (if decide (classifyShutdown err = shutdownWrongRoute) then
                 let! routes := shutdownRoutes client addr in tryShutdownRoutes routes err
               else ret err) in
  let verdict := classifyShutdown err in
  ret (if negb (shutdownProceeds verdict) then Err (shutdownRefusedError addr err) else Ok (shutdownNote verdict err)).

Fixpoint drain_loop (fuel : nat) (deadline : Z) (hostPort : string) (timing : restartTiming) : CM unit :=
  match fuel with
  | O => diverge
  | S fuel' =>
      let! now := Now in
      if (now <? deadline)%Z then
        let! connected := call (λ t _ _, Returned (dial hostPort t)) in
        if connected : bool then let! _ := Sleep (rt_poll timing) in drain_loop fuel' deadline hostPort timing
        else ret tt
      else ret tt
  end.

Definition drainDaemonAddress (addr : string) (timing : restartTiming) : CM unit :=
  let hostPort := daemonHostPort addr in
  if String.eqb hostPort "" then ret tt
  else let! now := Now in
       drain_loop (poll_fuel (rt_drainWait timing) (rt_poll timing)) (now + rt_drainWait timing) hostPort timing.

(** *** The verdict *)

Record restartTrace := mkTrace { tr_shutdownNote : string; tr_startErr : option goerror }.

Definition staleRestartError (addr : string) (reasons : list string) (probeErr : option goerror) (trace : restartTrace) :
  goerror :=
  let detail := match probeErr with
                | None => "it is still stale: " +:+ join reasons "; "
                | Some err => "it does not answer GET /health: " +:+ error_string err
                end in
  let detail := if String.eqb (tr_shutdownNote trace) "" then detail
                else detail +:+ " [" +:+ tr_shutdownNote trace +:+ "]" in
  let text := "no current daemon at " +:+ addr +:+ " after restart — " +:+ detail in
  match tr_startErr trace with
  | Some err => ErrWrap (text +:+ "; auto-start reported: ") err ""
  | None => ErrNew text
  end.

(** [reasons] survives a probe that fails. *)
Fixpoint await_loop (fuel : nat) (deadline : Z) (client : http_client) (addr : string) (expect : daemonExpectations)
    (trace : restartTrace) (timing : restartTiming) (reasons : list string) : CM (option goerror) :=
  match fuel with
  | O => diverge
  | S fuel' =>
      let! probed := probeDaemonIdentity client addr in
      let reasons := match probed with Ok seen => daemonStaleness getwd seen expect | Err _ => reasons end in
      match probed, reasons with
      | Ok _, [] => ret None
      | _, _ =>
          let! now := Now in
          if negb (now <? deadline)%Z then
            ret (Some (staleRestartError addr reasons (match probed with Ok _ => None | Err err => Some err end) trace))
          else let! _ := Sleep (rt_poll timing) in await_loop fuel' deadline client addr expect trace timing reasons
      end
  end.

Definition awaitFreshDaemon (client : http_client) (addr : string) (expect : daemonExpectations)
    (trace : restartTrace) (timing : restartTiming) : CM (option goerror) :=
  let! now := Now in
  await_loop (poll_fuel (rt_freshWait timing) (rt_poll timing)) (now + rt_freshWait timing) client addr expect trace timing [].

Definition start_daemon (cfg : DaemonStartConfig) : CM (option goerror) :=
  let! _ := record_started cfg in call (starter cfg).

Definition restart_locked (client : http_client) (addr : string) (cfg : DaemonStartConfig)
    (expect : daemonExpectations) (timing : restartTiming) : CM (option goerror) :=
  let! requested := requestDaemonShutdown client addr in
  match requested with
  | Err err => ret (Some err)
  | Ok note =>
      let! _ := drainDaemonAddress addr timing in
      let! startErr := start_daemon cfg in
      awaitFreshDaemon client addr expect (mkTrace note startErr) timing
  end.

Definition restartLocalDaemonWithTiming (client : http_client) (addr : string) (cfg : DaemonStartConfig)
    (expect : daemonExpectations) (timing : restartTiming) : CM (option goerror) :=
  let! failed := acquireLockDir restartLockPath (rt_lock timing) in
  match failed with
  | Some err => ret (Some err)
  | None =>
      with_deferred (restart_locked client addr cfg expect timing) (releaseLockDir restartLockPath) (λ failed _, failed)
  end.

Definition restartLocalDaemon (client : http_client) (addr : string) (cfg : DaemonStartConfig) (expect : daemonExpectations) :
  CM (option goerror) :=
  restartLocalDaemonWithTiming client addr cfg expect defaultRestartTiming.

(** *** Making sure of a current daemon *)

(** The text for the user, when a reporter was given. *)
Definition replaceStaleDaemon (client : http_client) (addr : string) (cfg : DaemonStartConfig)
    (expect : daemonExpectations) (reasons : list string) (report : option (list string → HM unit)) : CM (option goerror) :=
  let! _ := (match report with Some report => on_streams (report reasons) | None => ret tt end) in
  let! failed := restartLocalDaemon client addr cfg expect in
  ret ((λ err, ErrWrap ("replacing the stale daemon at " +:+ addr +:+ " (" +:+ join reasons "; " +:+ "): ") err "") <$> failed).

Definition occupiedAddressError (addr : string) (cause : goerror) : goerror :=
  ErrNew ("the address " +:+ addr +:+ " is owned by a process that does not answer GET /health as an agent-fitness-functions daemon ("
    +:+ error_string cause +:+ "); identify it with `lsof -nP -iTCP:" +:+ daemonPort addr +:+ "` and stop it, then re-run").

Definition ensureAfterUnreadableIdentity (client : http_client) (addr : string) (cfg : DaemonStartConfig)
    (expect : daemonExpectations) (probeErr : goerror) (report : option (list string → HM unit)) : CM (option goerror) :=
  if isSchemeMismatch probeErr || isTLSError probeErr then
    replaceStaleDaemon client addr cfg expect
      ["the daemon at " +:+ addr +:+ " does not answer GET /health on this client's transport (" +:+ error_string probeErr
       +:+ "), so it predates the current listen mode"] report
  else if found (errors_as as_status probeErr) then ret (Some (occupiedAddressError addr probeErr))
  else
    let! startErr := start_daemon cfg in
    awaitFreshDaemon client addr expect (mkTrace "" startErr) defaultRestartTiming.

Definition ensureDaemon (client : http_client) (addr : string) (cfg : DaemonStartConfig) : CM (option goerror) :=
  let! probed := probeDaemon network client addr in
  ensureProbedDaemon getenv network starter (mkEndpoint addr client) cfg probed.

Definition ensureCurrentDaemonReporting (client : http_client) (addr : string) (cfg : DaemonStartConfig)
    (report : option (list string → HM unit)) : CM (option goerror) :=
  if String.eqb (localDaemonScheme addr) "" then ensureDaemon client addr cfg
  else
    let expect := currentDaemonExpectations getenv build (expectedListenMode cfg) in
    let! probed := probeDaemonIdentity client addr in
    match probed with
    | Err err => ensureAfterUnreadableIdentity client addr cfg expect err report
    | Ok seen =>
        match daemonStaleness getwd seen expect with
        | [] => ret None
        | reasons => replaceStaleDaemon client addr cfg expect reasons report
        end
    end.

Definition ensureCurrentDaemon (client : http_client) (addr : string) (cfg : DaemonStartConfig) : CM (option goerror) :=
  ensureCurrentDaemonReporting client addr cfg None.
End restart.
