(* ===== verification/RestartLock.v ===== *)
(** * The restart lock between processes

    [acquireLockDir], [startLockHeartbeat] and [reapStaleLockDir] of [client/restart.go] as
    a machine: any number of processes that want the lock, one directory with its
    modification time, and a clock.  An action is one system call of one process, a tick
    of its heartbeat, or the passing of time; a run is a sequence of actions.

    Without a holder that dies the lock is exclusive, provided heartbeats and waiters are
    not delayed for too long together.  With one it is not: two waiters may both find the
    same residue stale, and the second removes the lock that the first has just taken. *)

From stdpp Require Import base gmap strings list fin_maps.
From Stdlib Require Import ZArith Lia.
From S2P Require Import Prelude GoStrings GoErrors GoNet GoOS Client Restart.
Set Default Goal Selector "!".

(** ** Processes *)

(** Where a process is: before the next [os.Mkdir], [os.Stat], comparison of the age,
    [os.Remove], look at the deadline or end of the sleep; in the critical section with
    the stamp of its last refresh; or with its heartbeat stopped, before the [os.Remove]
    of the release. *)
Inductive phase :=
| Trying (deadline : Z)
| Stating (deadline : Z)
| Judging (deadline stamp looked : Z)
| Reaping (deadline : Z)
| Checking (deadline : Z)
| Sleeping (deadline wake : Z)
| Held (beat : Z)
| Releasing (beat : Z)
| Finished
| GaveUp
| Crashed.

Record machine := mkMachine {
  m_now : Z;
  m_dir : option Z;
  m_procs : list phase;
}.

Inductive action :=
| Enter
| Advance (i : nat)
| Fault (i : nat)
| Beat (i : nat) (stamp : Z)
| Finish (i : nat)
| Crash (i : nat)
| Pass (d : Z).

Section lock.
Context (timing : lockTiming).

(** The next step of a process on its own. *)
Definition advance (now : Z) (dir : option Z) (p : phase) : phase * option Z :=
  match p with
  | Trying d => match dir with
                | None => (Held now, Some now)
                | Some _ => (Stating d, dir)
                end
  | Stating d => match dir with
                 | None => (Checking d, dir)
                 | Some stamp => (Judging d stamp now, dir)
                 end
  | Judging d stamp _ => if (now - stamp <? lt_staleAge timing)%Z then (Checking d, dir) else (Reaping d, dir)
  | Reaping d => (Checking d, None)
  | Checking d => if (d <? now)%Z then (GaveUp, dir) else (Sleeping d (now + lt_poll timing), dir)
  | Sleeping d wake => if (wake <=? now)%Z then (Trying d, dir) else (p, dir)
  | Releasing _ => (Finished, None)
  | Held _ | Finished | GaveUp | Crashed => (p, dir)
  end.

(** The same step when the system call fails. *)
Definition fail (p : phase) : phase :=
  match p with
  | Trying _ => GaveUp
  | Stating d | Reaping d => Checking d
  | Releasing _ => Finished
  | _ => p
  end.

Definition set_proc (i : nat) (p : phase) (m : machine) : machine :=
  mkMachine (m_now m) (m_dir m) (<[i := p]> (m_procs m)).

(** A tick of the heartbeat stamps the directory, if there is one, with the time at which
    it fired. *)
Definition act (a : action) (m : machine) : option machine :=
  match a with
  | Enter => Some (mkMachine (m_now m) (m_dir m) (m_procs m ++ [Trying (m_now m + lt_wait timing)]))
  | Advance i =>
      p ← m_procs m !! i;
      let '(p', dir') := advance (m_now m) (m_dir m) p in
      Some (mkMachine (m_now m) dir' (<[i := p']> (m_procs m)))
  | Fault i => p ← m_procs m !! i; Some (set_proc i (fail p) m)
  | Beat i stamp =>
      match m_procs m !! i with
      | Some (Held beat) =>
          if (beat <=? stamp)%Z && (stamp <=? m_now m)%Z
          then Some (mkMachine (m_now m) ((λ _, stamp) <$> m_dir m) (<[i := Held stamp]> (m_procs m)))
          else None
      | _ => None
      end
  | Finish i =>
      match m_procs m !! i with
      | Some (Held beat) => Some (set_proc i (Releasing beat) m)
      | _ => None
      end
  | Crash i => p ← m_procs m !! i; Some (set_proc i Crashed m)
  | Pass d => if (0 <=? d)%Z then Some (mkMachine (m_now m + d) (m_dir m) (m_procs m)) else None
  end.

Fixpoint run (actions : list action) (m : machine) : option machine :=
  match actions with
  | [] => Some m
  | a :: actions' => m' ← act a m; run actions' m'
  end.

Definition idle : machine := mkMachine 0 None [].

(** ** Exclusion *)

(** The stamp of a process that has the lock and is alive. *)
Definition owner (p : phase) : option Z :=
  match p with Held beat | Releasing beat => Some beat | _ => None end.
Definition owners (m : machine) : list Z := omap owner (m_procs m).

(** Scheduling: a stamp is at most [gap] old while its holder lives, and a waiter decides
    at most [pause] after it looked. *)
Context (gap pause : Z).
Definition in_time (now : Z) (p : phase) : Prop :=
  match p with
  | Held beat | Releasing beat => (now - beat ≤ gap)%Z
  | Judging _ _ looked => (now - looked ≤ pause)%Z
  | _ => True
  end.
Definition timely (m : machine) : Prop := Forall (in_time (m_now m)) (m_procs m).

(** Nobody dies, and the release does remove the directory. *)
Definition orderly (a : action) (m : machine) : Prop :=
  match a with
  | Crash i => False
  | Fault i => ∀ beat, m_procs m !! i ≠ Some (Releasing beat)
  | _ => True
  end.

Inductive orderly_run : machine → machine → Prop :=
| orderly_done m : orderly_run m m
| orderly_step m a m' m'' :
    orderly_run m m' → orderly a m' → act a m' = Some m'' → timely m'' → orderly_run m m''.

(** What a live process knows: the stamps it saw are recent. *)
Definition honest (now : Z) (p : phase) : Prop :=
  match p with
  | Judging _ stamp looked => (stamp ≤ looked ∧ looked ≤ now ∧ looked - stamp ≤ gap)%Z
  | Held beat | Releasing beat => (beat ≤ now)%Z
  | Reaping _ => False
  | _ => True
  end.

Record lock_inv (m : machine) : Prop := {
  inv_owner : owners m = option_list (m_dir m);
  inv_honest : Forall (honest (m_now m)) (m_procs m);
  inv_timely : timely m;
}.

Context (Hgap : (0 ≤ gap)%Z) (Hpause : (0 ≤ pause)%Z) (Hstale : (gap + pause < lt_staleAge timing)%Z).

Lemma owners_at m i p : m_procs m !! i = Some p →
  owners m = omap owner (take i (m_procs m)) ++ option_list (owner p) ++ omap owner (drop (S i) (m_procs m)).
Proof.
  intros Hi. unfold owners. rewrite <-(take_drop_middle _ _ _ Hi) at 1. rewrite omap_app. cbn.
  by destruct (owner p).
Qed.
Lemma owners_insert procs i p p' : procs !! i = Some p →
  omap owner (<[i := p']> procs) = omap owner (take i procs) ++ option_list (owner p') ++ omap owner (drop (S i) procs).
Proof.
  intros Hi. rewrite insert_take_drop by (by eapply lookup_lt_Some). rewrite omap_app. cbn. by destruct (owner p').
Qed.

(** Replacing a process that has not the lock by another, or the owner by the next. *)
Lemma inv_proc m i p p' dir' : lock_inv m → m_procs m !! i = Some p → honest (m_now m) p' →
  timely (mkMachine (m_now m) dir' (<[i := p']> (m_procs m))) →
  (owner p' = owner p ∧ dir' = m_dir m ∨ option_list (owner p) = option_list (m_dir m) ∧ option_list (owner p') = option_list dir') →
  lock_inv (mkMachine (m_now m) dir' (<[i := p']> (m_procs m))).
Proof.
  intros [Ho Hh Ht] Hi Hp' Ht' Hdir. split; [|by apply Forall_insert|done].
  unfold owners in *. cbn [m_procs m_dir]. rewrite (owners_insert _ _ _ _ Hi).
  pose proof (owners_at m i p Hi) as Hat. unfold owners in Hat. rewrite Ho in Hat.
  destruct Hdir as [[-> ->]|[Hd1 <-]]; [by rewrite <-Hat|].
  rewrite Hd1 in Hat. pose proof (f_equal length Hat) as Hl. rewrite !length_app in Hl.
  rewrite (nil_length_inv (omap owner (take i (m_procs m)))) by lia.
  rewrite (nil_length_inv (omap owner (drop (S i) (m_procs m)))) by lia. by rewrite app_nil_r.
Qed.

Lemma owner_dir m i p beat : lock_inv m → m_procs m !! i = Some p → owner p = Some beat → m_dir m = Some beat.
Proof.
  intros HI Hi Hp. pose proof (owners_at m i p Hi) as Hat. rewrite (inv_owner _ HI), Hp in Hat.
  destruct (m_dir m) as [z|]; [|by destruct (omap owner (take i (m_procs m)))].
  destruct (omap owner (take i (m_procs m))) as [|x l]; cbn in Hat; [by injection Hat as ->|]. by destruct l.
Qed.
Lemma dir_recent m stamp : lock_inv m → m_dir m = Some stamp → (stamp ≤ m_now m ∧ m_now m - stamp ≤ gap)%Z.
Proof.
  intros [Ho Hh Ht] Hd. rewrite Hd in Ho. assert (stamp ∈ owners m) as Hin by (rewrite Ho; by left).
  apply list_elem_of_omap in Hin as (p & Hp & Hs). unfold timely in Ht. rewrite Forall_forall in Hh, Ht.
  specialize (Hh p Hp). specialize (Ht p Hp). destruct p; try done; cbn in *; by simplify_eq.
Qed.

Lemma inv_advance m i p p' dir' : lock_inv m → m_procs m !! i = Some p → advance (m_now m) (m_dir m) p = (p', dir') →
  let m' := mkMachine (m_now m) dir' (<[i := p']> (m_procs m)) in timely m' → lock_inv m'.
Proof using Hgap Hstale.
  intros HI Hi Ha m' Ht'. assert (honest (m_now m) p) as Hhp by (eapply Forall_lookup_1; [apply (inv_honest _ HI)|done]).
  assert (in_time (m_now m) p) as Htp by (eapply Forall_lookup_1; [apply (inv_timely _ HI)|done]).
  apply (inv_proc m i p p' dir' HI Hi); [|done|].
  - destruct p; cbn in Ha, Hhp, Htp; try (injection Ha as <- <-; done); repeat (case_match; simplify_eq); cbn; try done; try lia.
    match goal with H : m_dir _ = Some ?z |- _ => destruct (dir_recent _ z HI H); lia end.

  - destruct p; cbn in Ha, Hhp, Htp; try (injection Ha as <- <-; by left); repeat (case_match; simplify_eq); try (by left); try (by right).
    injection Ha as <- <-. right. by rewrite (owner_dir m i _ beat HI Hi).
Qed.

Lemma inv_act a m m' : lock_inv m → orderly a m → act a m = Some m' → timely m' → lock_inv m'.
Proof using Hgap Hpause Hstale.
  intros HI Hor Hact Ht'. pose proof (inv_owner _ HI) as Ho. pose proof (inv_honest _ HI) as Hh. pose proof (inv_timely _ HI) as Ht.
  assert (∀ i p, m_procs m !! i = Some p → honest (m_now m) p ∧ in_time (m_now m) p) as Hat.
  { intros i p Hi. split; by eapply Forall_lookup_1. }
  destruct a as [|i|i|i stamp|i|i|d]; cbn [act orderly] in *.
  - injection Hact as <-. split; [|by apply Forall_app_2, Forall_singleton|done].
    unfold owners in *. cbn. by rewrite omap_app, app_nil_r.
  - destruct (m_procs m !! i) as [p|] eqn:Hi; [|done]. cbn in Hact. destruct (Hat i p Hi) as [Hhp Htp].
    destruct (advance (m_now m) (m_dir m) p) as [p' dir'] eqn:Ha. injection Hact as <-.
    by apply (inv_advance m i p p' dir').
  - destruct (m_procs m !! i) as [p|] eqn:Hi; [|done]. injection Hact as <-. destruct (Hat i p Hi) as [Hhp Htp].
    apply (inv_proc m i p _ _ HI Hi); [by destruct p|done|]. destruct p; try by left. by destruct (Hor beat).
  - destruct (m_procs m !! i) as [p|] eqn:Hi; [|done]. destruct (Hat i p Hi) as [Hhp Htp]. destruct p; try done.
    destruct (_ && _) eqn:Hb; [|done]. injection Hact as <-. apply andb_prop in Hb as [Hb1%Z.leb_le Hb2%Z.leb_le].
    apply (inv_proc m i _ _ _ HI Hi); [done|done|]. right. by rewrite (owner_dir m i _ beat HI Hi).
  - destruct (m_procs m !! i) as [p|] eqn:Hi; [|done]. destruct (Hat i p Hi) as [Hhp Htp]. destruct p; try done.
    injection Hact as <-. apply (inv_proc m i _ _ _ HI Hi); [done|done|by left].
  - done.
  - destruct (0 <=? d)%Z eqn:Hd; [|done]. apply Z.leb_le in Hd. injection Hact as <-. split; [done| |done].
    cbn. eapply Forall_impl; [exact Hh|]. intros [] Hp; cbn in *; try done; lia.
Qed.

Lemma inv_run m m' : lock_inv m → orderly_run m m' → lock_inv m'.
Proof using Hgap Hpause Hstale. intros HI Hrun. induction Hrun as [|m a m1 m2 Hrun IH Hor Ha Ht]; [done|]. by apply (inv_act a m1 m2 (IH HI) Hor Ha Ht). Qed.

(** C22: at most one process is between taking the restart lock and giving it back, and the
    directory on disk is that process's, with the stamp of its last refresh: in every
    interleaving of any number of processes in which none dies, as long as the age a live
    stamp can reach and the time between a waiter's look and its decision stay below the
    stale age together. *)
Theorem restart_lock_exclusive m : orderly_run idle m →
  length (owners m) ≤ 1 ∧ ∀ i p beat, m_procs m !! i = Some p → owner p = Some beat → m_dir m = Some beat.
Proof using Hgap Hpause Hstale.
  intros Hrun. assert (lock_inv m) as HI by (eapply inv_run; [|exact Hrun]; split; [done|constructor..]).
  split; [rewrite (inv_owner _ HI); by destruct (m_dir m); cbn; lia|]. intros i p beat Hi Hp. by eapply owner_dir.
Qed.
End lock.

(** ** Runs *)

#[export] Instance in_time_dec gap pause now p : Decision (in_time gap pause now p).
Proof. destruct p; cbn; apply _. Defined.

(** A run in which every state is in time. *)
Fixpoint timely_run (timing : lockTiming) (gap pause : Z) (actions : list action) (m : machine) : option machine :=
  match actions with
  | [] => Some m
  | a :: actions' =>
      m' ← act timing a m;
      if decide (Forall (in_time gap pause (m_now m')) (m_procs m')) then timely_run timing gap pause actions' m' else None
  end.

Definition production : lockTiming := rt_lock defaultRestartTiming.

(** Without crashes and failures such a run is orderly. *)
Definition smooth (a : action) : bool := match a with Crash _ | Fault _ => false | _ => true end.
Lemma smooth_run timing gap pause actions m0 m m' : orderly_run timing gap pause m0 m → forallb smooth actions = true →
  timely_run timing gap pause actions m = Some m' → orderly_run timing gap pause m0 m'.
Proof.
  revert m. induction actions as [|a actions IH]; intros m Hrun Hs Hr; cbn in *; [by injection Hr as <-|].
  apply andb_prop in Hs as [Ha Hs]. destruct (act timing a m) as [m1|] eqn:Hact; [|done]. cbn in Hr.
  destruct (decide _) as [Ht|]; [|done]. apply (IH m1); [|done..]. eapply orderly_step; [exact Hrun| |exact Hact|exact Ht]. by destruct a.
Qed.

(** One process takes the lock, refreshes it and releases it; another finds it, waits and
    takes it. *)
Definition handover : list action :=
  [Enter; Enter; Advance 0; Advance 1; Pass (5 * second); Beat 0 (5 * second); Advance 1; Advance 1; Advance 1;
   Finish 0; Advance 0; Pass (25 * millisecond); Advance 1; Advance 1].
Lemma restart_lock_exclusive_witness : ∃ m, timely_run production (10 * second) (15 * second) handover idle = Some m ∧
  m_procs m = [Finished; Held (5 * second + 25 * millisecond)] ∧ length (owners m) ≤ 1.
Proof.
  destruct (timely_run production (10 * second) (15 * second) handover idle) as [m|] eqn:Hrun; [|by vm_compute in Hrun].
  exists m. split; [done|]. split; [by vm_compute in Hrun; injection Hrun as <-|].
  apply (restart_lock_exclusive production (10 * second) (15 * second)); [done..|].
  eapply smooth_run; [apply orderly_done| |exact Hrun]. reflexivity.
Defined.

(** A holder dies; thirty seconds later two processes find its lock, and both see that it
    is stale; one removes it and takes the lock; the other removes that one and takes it
    too.  Nobody is late: the decisions follow the looks at once. *)
Definition two_reapers : list action :=
  [Enter; Advance 0; Crash 0; Pass (30 * second); Enter; Enter;
   Advance 1; Advance 1; Advance 2; Advance 2; Advance 1; Advance 2;
   Advance 1; Advance 1; Pass (25 * millisecond); Advance 1; Advance 1;
   Advance 2; Advance 2; Pass (25 * millisecond); Advance 2; Advance 2].
Lemma stale_lock_reaped_twice : (m_procs <$> timely_run production (1 * second) 0 two_reapers idle) =
  Some [Crashed; Held (30 * second + 25 * millisecond); Held (30 * second + 50 * millisecond)].
Proof. vm_compute. reflexivity. Qed.
