(* ===== verification/RestartProofs.v ===== *)
(** * What the restart engine guarantees

    Success is the observation of a current daemon; only a daemon on this machine is asked
    to stop; every wait ends and the lock is given back; and the daemon this client would
    start is one that it recognizes as current. *)

From stdpp Require Import base gmap strings list fin_maps.
From Stdlib Require Import ZArith Lia Ascii.
From S2P Require Import Prelude GoStrings GoErrors GoFloat GoJson GoJsonPrint GoNet GoOS Fitness HistoryEvent Hooks HooksText Sarif Client ClientProofs Restart.
Set Default Goal Selector "!".

(** ** Staleness *)

Section staleness.
Context {U : UnicodeTables} (getwd : option string).

(** Two sides of a dimension agree unless both state a value and the values differ. *)
Definition agree (same : string → string → Prop) (observed expected : string) : Prop :=
  observed = "" ∨ expected = "" ∨ same observed expected.

(** What a current daemon is. *)
Record current (identity : daemonIdentity) (expect : daemonExpectations) : Prop := {
  cur_legacy : di_Legacy identity = false;
  cur_revision : agree eq (di_BuildRevision identity) (ex_BuildRevision expect);
  cur_modified : ex_BuildRevision expect ≠ "" → di_BuildModified identity = true → ex_BuildModified expect = true;
  cur_configs : agree (λ o e, absoluteCleanPath getwd o = absoluteCleanPath getwd e) (di_ConfigsDir identity) (ex_ConfigsDir expect);
  cur_mode : agree eq (di_ListenMode identity) (ex_ListenMode expect);
}.

Lemma mismatch_nonempty dimension observed expected : mismatch_text dimension observed expected ≠ "".
Proof. unfold mismatch_text. done. Qed.
Lemma value_agrees dimension observed expected : valueMismatchReason dimension observed expected = "" ↔ agree eq observed expected.
Proof.
  unfold valueMismatchReason, agree. pose proof (mismatch_nonempty dimension observed expected).
  destruct (String.eqb_spec observed ""), (String.eqb_spec expected ""), (String.eqb_spec observed expected); cbn [orb]; naive_solver.
Qed.
Lemma path_agrees dimension observed expected : pathMismatchReason getwd dimension observed expected = "" ↔
  agree (λ o e, absoluteCleanPath getwd o = absoluteCleanPath getwd e) observed expected.
Proof.
  unfold pathMismatchReason, agree. pose proof (mismatch_nonempty dimension observed expected).
  destruct (String.eqb_spec observed ""), (String.eqb_spec expected ""),
    (String.eqb_spec (absoluteCleanPath getwd observed) (absoluteCleanPath getwd expected)); cbn [orb]; naive_solver.
Qed.
Lemma add_reason_nil reasons reason : add_reason reasons reason = [] ↔ reasons = [] ∧ reason = "".
Proof.
  unfold add_reason. destruct (String.eqb_spec reason ""); [naive_solver|]. split; [by destruct reasons|naive_solver].
Qed.

(** No reason is given exactly for a current daemon. *)
Lemma staleness_current identity expect : daemonStaleness getwd identity expect = [] ↔ current identity expect.
Proof.
  unfold daemonStaleness. destruct (di_Legacy identity) eqn:Hl; [split; [done|by intros []; congruence]|].
  rewrite !add_reason_nil, path_agrees, value_agrees.
  assert (buildStaleness identity expect = [] ↔ agree eq (di_BuildRevision identity) (ex_BuildRevision expect) ∧
    (ex_BuildRevision expect ≠ "" → di_BuildModified identity = true → ex_BuildModified expect = true)) as ->.
  { unfold buildStaleness. rewrite <-(value_agrees "build revision").
    destruct (String.eqb_spec (ex_BuildRevision expect) ""), (di_BuildModified identity), (ex_BuildModified expect); cbn [negb andb];
      rewrite ?add_reason_nil; try naive_solver.
    split; [by destruct (add_reason _ _)|naive_solver]. }
  split; [intros [[[? ?] ?] ?]; by split|intros []; naive_solver].
Qed.
End staleness.

Section restart.
Context {E : OSEnv} {SL : Sleeper} {U : UnicodeTables} {J : JsonErrorText} {N : JsonNumberText} {P : URLPackage} {T : TLSWorld}.
Context (getenv : string → string).
Context (git : string → list string → external (string * option goerror)).
Context (network : sent → nat → result goerror http_reply).
Context (starter : DaemonStartConfig → external (option goerror)).
Context (dial : string → nat → bool) (mtime : string → nat → Z) (getwd : option string) (build : string * bool).

Abbreviation CW := (world client_state).
Abbreviation CM := (M client_state).
Abbreviation ensure := (ensureCurrentDaemonReporting getenv git network starter dial mtime getwd build).

(** ** The verdict *)

(** The last request was a probe of the address, and its answer was this identity. *)
Definition observed (addr : string) (identity : daemonIdentity) (s : client_state) : Prop :=
  ∃ x t reply body, last (cl_sent s) = Some x ∧ sent_method x = "GET" ∧ sent_url x = daemonURL addr "/health" ∧
    network x t = Ok reply ∧ rp_StatusCode reply = 200%Z ∧ read_limited 4096 reply = Ok body ∧ identity = identity_of_body body.

Lemma returns_identity client addr w :
  returns (probeDaemonIdentity network client addr) (λ r w', ∀ identity, r = Ok identity → observed addr identity (w_app w')) w.
Proof.
  unfold probeDaemonIdentity. destruct (url_Parse _); [|by apply returns_ret]. apply returns_bind.
  eapply returns_weaken; [apply returns_Do|]. intros response w1 (-> & Hs & _). apply returns_ret. intros identity.
  set (x := mkSent _ _ _ _) in *. destruct (network x (w_clock w)) as [reply|err] eqn:Hn; [|done].
  destruct (rp_StatusCode reply =? 200)%Z eqn:Hst; [|done]. apply Z.eqb_eq in Hst. cbn [negb].
  destruct (read_limited 4096 reply) as [body|err] eqn:Hb; [|done]. intros [= <-].
  exists x, (w_clock w), reply, body. by rewrite Hs, last_snoc.
Qed.

Definition fresh (addr : string) (expect : daemonExpectations) (s : client_state) : Prop :=
  ∃ identity, observed addr identity s ∧ current getwd identity expect.

Lemma returns_await_loop fuel deadline client addr expect trace timing reasons w :
  returns (await_loop network getwd fuel deadline client addr expect trace timing reasons)
    (λ r w', r = None → fresh addr expect (w_app w')) w.
Proof.
  revert reasons w. induction fuel as [|fuel IH]; intros reasons w; cbn [await_loop]; [by intros a w'|].
  apply returns_bind. eapply returns_weaken; [apply returns_identity|]. intros [identity|err] w1 Hobs.
  - destruct (daemonStaleness getwd identity expect) as [|r rs] eqn:Hst.
    + apply returns_ret. intros _. exists identity. split; [by apply Hobs|by apply staleness_current].
    + apply returns_bind. intros now w2 _. destruct (negb _); [by apply returns_ret|]. apply returns_bind. intros [] w3 _. apply IH.
  - apply returns_bind. intros now w2 _. destruct (negb _); [by apply returns_ret|]. apply returns_bind. intros [] w3 _. apply IH.
Qed.
Lemma returns_await client addr expect trace timing w :
  returns (awaitFreshDaemon network getwd client addr expect trace timing) (λ r w', r = None → fresh addr expect (w_app w')) w.
Proof. apply returns_bind. intros now w1 _. apply returns_await_loop. Qed.

Lemma returns_restart client addr cfg expect w :
  returns (restartLocalDaemon getenv git network starter dial mtime getwd client addr cfg expect)
    (λ r w', r = None → fresh addr expect (w_app w')) w.
Proof.
  unfold restartLocalDaemon, restartLocalDaemonWithTiming. apply returns_bind. intros [err|] w1 _; [by apply returns_ret|].
  apply returns_deferred. unfold restart_locked. apply returns_bind. intros [note|err] w2 _.
  - apply returns_bind. intros [] w3 _. apply returns_bind. intros startErr w4 _.
    eapply returns_weaken; [apply returns_await|]. intros [err|] w5 Hf; [by intros b w6|].
    apply (returns_keeps (λ s, None = None → fresh addr expect s)); [|exact Hf]. unfold releaseLockDir. keeps_tac.
  - apply returns_ret. by intros b w3.
Qed.
Lemma returns_replace client addr cfg expect reasons report w :
  returns (replaceStaleDaemon getenv git network starter dial mtime getwd client addr cfg expect reasons report)
    (λ r w', r = None → fresh addr expect (w_app w')) w.
Proof.
  unfold replaceStaleDaemon. apply returns_bind. intros [] w1 _. apply returns_bind.
  eapply returns_weaken; [apply returns_restart|]. intros [err|] w2 Hf; by apply returns_ret.
Qed.

(** C19: success means a current daemon: when the client reports that a local daemon is in
    place, the last thing it did was to ask it for its identity, which was answered with
    one that matches this build, this configuration and the expected listen mode. *)
Theorem ensureCurrentDaemon_current client addr cfg report w : localDaemonScheme addr ≠ "" →
  returns (ensure client addr cfg report)
    (λ r w', r = None → fresh addr (currentDaemonExpectations getenv build (expectedListenMode cfg)) (w_app w')) w.
Proof.
  intros Hlocal. unfold ensureCurrentDaemonReporting. destruct (String.eqb_spec (localDaemonScheme addr) "") as [|_]; [done|].
  apply returns_bind. eapply returns_weaken; [apply returns_identity|]. intros [identity|err] w1 Hobs.
  - destruct (daemonStaleness _ _ _) eqn:Hst; [|apply returns_replace].
    apply returns_ret. intros _. exists identity. split; [by apply Hobs|by apply staleness_current].
  - unfold ensureAfterUnreadableIdentity. destruct (_ || _); [apply returns_replace|].
    destruct (found _); [by apply returns_ret|]. apply returns_bind. intros startErr w2 _. apply returns_await.
Qed.

(** ** Whom it disturbs *)

(** A probe of the address, or a shutdown of the daemon at a local address over one of
    the two schemes. *)
Definition permitted (addr : string) (x : sent) : Prop :=
  sent_method x = "GET" ∧ sent_url x = daemonURL addr "/health" ∨
  localDaemonScheme addr ≠ "" ∧ sent_method x = "POST" ∧
    ∃ a, candidate_addr addr a ∧ sent_url x = daemonURL a "/shutdown".

Section permitted.
Context (old : list sent) (addr : string).
Let I (s : client_state) : Prop := Forall (λ x, x ∈ old ∨ permitted addr x) (cl_sent s).

Lemma permitted_Do x : permitted addr x → keeps I (Do network x).
Proof. intros Hx w Hw. unfold I. cbn. apply Forall_app. split; [done|]. constructor; [by right|constructor]. Qed.
Lemma permitted_started cfg : keeps I (record_started cfg).
Proof. by intros w Hw. Qed.
Lemma permitted_streams {A} (m : HM A) : keeps I (on_streams m).
Proof. intros w Hw. unfold on_streams, zoom. by destruct (m _) as [a w']. Qed.
Hint Resolve permitted_started permitted_streams : governance.

Lemma permitted_get client : permitted addr (mkSent client "GET" (daemonURL addr "/health") "").
Proof. by left. Qed.
Hint Resolve permitted_Do permitted_get : governance.
Lemma permitted_identity client : keeps I (probeDaemonIdentity network client addr).
Proof. unfold probeDaemonIdentity. keeps_tac. Qed.
Lemma permitted_probe client : keeps I (probeDaemon network client addr).
Proof. unfold probeDaemon. keeps_tac. Qed.
Hint Resolve permitted_identity permitted_probe : governance.
Lemma permitted_await fuel deadline client expect trace timing reasons :
  keeps I (await_loop network getwd fuel deadline client addr expect trace timing reasons).
Proof. revert reasons. induction fuel as [|fuel IH]; intros reasons; cbn [await_loop]; keeps_tac. Qed.
Lemma permitted_wait fuel deadline client : keeps I (wait_healthy network fuel deadline client addr).
Proof. induction fuel as [|fuel IH]; cbn [wait_healthy]; keeps_tac. Qed.
Lemma permitted_drain fuel deadline hostPort timing : keeps I (drain_loop dial fuel deadline hostPort timing).
Proof. induction fuel as [|fuel IH]; cbn [drain_loop]; keeps_tac. Qed.
Lemma permitted_acquire fuel deadline lockDir timing : keeps I (acquire_loop mtime fuel deadline lockDir timing).
Proof. induction fuel as [|fuel IH]; cbn [acquire_loop]; unfold reapStaleLockDir; keeps_tac. Qed.
Hint Resolve permitted_await permitted_wait permitted_drain permitted_acquire : governance.

Context (Hlocal : localDaemonScheme addr ≠ "").
Lemma permitted_shutdown client a : candidate_addr addr a → keeps I (postShutdown network client a).
Proof using Hlocal.
  intros Ha. unfold postShutdown. destruct (url_Parse _); [|keeps_tac]. apply keeps_bind; [|keeps_tac].
  apply permitted_Do. right. by eauto.
Qed.
Lemma permitted_routes routes lastErr : Forall (λ r, candidate_addr addr (route_addr r)) routes →
  keeps I (tryShutdownRoutes network routes lastErr).
Proof using Hlocal.
  intros Hr. revert lastErr. induction Hr as [|r rs Hr _ IH]; intros lastErr; cbn [tryShutdownRoutes]; [keeps_tac|].
  apply keeps_bind; [by apply permitted_shutdown|]. intros err. keeps_tac.
Qed.
Lemma routes_local client r : possible (shutdownRoutes getenv git client addr) r → Forall (λ r, candidate_addr addr (route_addr r)) r.
Proof using.
  apply (possible_returns _ (λ r, Forall (λ r, candidate_addr addr (route_addr r)) r)). intros w. unfold shutdownRoutes.
  destruct (String.eqb_spec (alternateSchemeAddr addr) "") as [|Hne]; [by apply returns_ret|].
  apply returns_bind. intros candidates w1 _. apply returns_ret. constructor; [by right|].
  apply Forall_fmap, Forall_true. intros c. cbn. destruct (isLocalHTTPS _); [by right|by left].
Qed.
Lemma permitted_request client : keeps I (requestDaemonShutdown getenv git network client addr).
Proof using Hlocal.
  unfold requestDaemonShutdown. apply keeps_bind; [by apply permitted_shutdown; left|]. intros err. apply keeps_bind; [|keeps_tac].
  destruct (decide _); [|keeps_tac]. apply keeps_bind_possible; [|intros routes Hr; by apply permitted_routes, (routes_local client)].
  unfold shutdownRoutes, alternateSchemeClients, loadClientTLSMode, publishManagedRoot, ensureCertsIgnoreProtection,
    configureClientTLSMaterial, configureTLS, buildTLSConfig. keeps_tac.
Qed.
Hint Resolve permitted_request : governance.
Lemma permitted_replace client cfg expect reasons report :
  keeps I (replaceStaleDaemon getenv git network starter dial mtime getwd client addr cfg expect reasons report).
Proof using Hlocal.
  unfold replaceStaleDaemon, restartLocalDaemon, restartLocalDaemonWithTiming, acquireLockDir, restart_locked, drainDaemonAddress,
    start_daemon, awaitFreshDaemon, releaseLockDir. keeps_tac.
Qed.
End permitted.

(** Something that answers [GET /health] as neither a daemon nor an endpoint of another
    transport. *)
Definition foreign (client : http_client) (addr : string) (t : nat) : Prop :=
  ∃ reply, network (mkSent client "GET" (daemonURL addr "/health") "") t = Ok reply ∧ rp_StatusCode reply ≠ 200%Z ∧
    let err := HttpStatusError (rp_StatusCode reply) (trim_space (limited 1024 (rp_Body reply))) in
    isSchemeMismatch err = false ∧ isTLSError err = false.

(** C21: what is not ours is not touched: the only requests are probes of the address and,
    when it is local, shutdowns of the daemon there over one of the two schemes; and when
    something else owns a local address, nothing is stopped, started or locked, and the
    user is told. *)
Theorem ensureCurrentDaemon_spares client addr cfg report w :
  let r := ensure client addr cfg report w in
  (∀ x, x ∈ cl_sent (w_app r.2) → x ∈ cl_sent (w_app w) ∨ permitted addr x) ∧
  (localDaemonScheme addr ≠ "" → is_Some (url_Parse (daemonURL addr "/health")) → foreign client addr (w_clock w) →
   (∃ err, r.1 = Returned (Some err)) ∧ w_files r.2 = w_files w ∧ w_dirs r.2 = w_dirs w ∧
   cl_started (w_app r.2) = cl_started (w_app w) ∧
   cl_sent (w_app r.2) = cl_sent (w_app w) ++ [mkSent client "GET" (daemonURL addr "/health") ""]).
Proof.
  intros r. split.
  - assert (keeps (λ s, Forall (λ x, x ∈ cl_sent (w_app w) ∨ permitted addr x) (cl_sent s)) (ensure client addr cfg report)) as Hk.
    { unfold ensureCurrentDaemonReporting. destruct (String.eqb_spec (localDaemonScheme addr) "") as [|Hlocal].
      - pose proof (permitted_probe (cl_sent (w_app w)) addr). pose proof (permitted_wait (cl_sent (w_app w)) addr).
        pose proof (permitted_started (cl_sent (w_app w)) addr).
        unfold ensureDaemon, ensureProbedDaemon, waitHealthy. cbn [ep_client ep_addr]. keeps_tac.
      - pose proof (permitted_identity (cl_sent (w_app w)) addr). pose proof (permitted_await (cl_sent (w_app w)) addr).
        pose proof (permitted_replace (cl_sent (w_app w)) addr Hlocal). pose proof (permitted_started (cl_sent (w_app w)) addr).
        unfold ensureAfterUnreadableIdentity, start_daemon, awaitFreshDaemon. keeps_tac. }
    intros x Hx. specialize (Hk w ltac:(apply Forall_forall; by left)). rewrite Forall_forall in Hk. by apply Hk.
  - intros Hlocal [u Hu] (reply & Hn & Hs & Hm & Ht). unfold r, ensureCurrentDaemonReporting.
    destruct (String.eqb_spec (localDaemonScheme addr) "") as [|_]; [done|].
    unfold probeDaemonIdentity. rewrite Hu. unfold bind, Do, record_sent, ret. cbn [w_clock w_app]. rewrite Hn.
    apply Z.eqb_neq in Hs. rewrite Hs. cbn [negb]. unfold ensureAfterUnreadableIdentity. rewrite Hm, Ht. cbn [orb errors_as as_status found].
    cbn. eauto 10.
Qed.

(** ** Every wait ends *)

Section termination.
Context {SLaws : SleeperLaws E SL}.
Context (Hstarter : ∀ cfg, answers (starter cfg)) (Hload : ∀ cert key, answers (LoadX509KeyPair cert key))
  (Hresolve : ∀ root, answers (resolveManagedVersion root)) (Hclient : ∀ version, answers (loadManagedClient version)).

Lemma settles_Do x : settles (Do network x).
Proof. intros w. eexists _, _. split; [done|cbn; lia]. Qed.
Lemma settles_started cfg : settles (record_started cfg).
Proof. intros w. eexists _, _. split; [done|cbn; lia]. Qed.
Lemma settles_streams {A} (m : HM A) : settles m → settles (on_streams m).
Proof.
  intros Hm w. unfold settles_at, on_streams, zoom.
  destruct (Hm (mkWorld (cl_out (w_app w)) (w_files w) (w_dirs w) (w_clock w))) as (a & w' & -> & Hle). by eexists _, _.
Qed.
Lemma settles_oracle {A} (f : nat → A) : settles (S := client_state) (call (λ t _ _, Returned (f t))).
Proof. apply settles_call. intros t files dirs. eauto. Qed.
Hint Resolve settles_Do settles_started settles_streams settles_oracle : governance.

Lemma settles_probe client addr : settles (probeDaemon network client addr).
Proof. unfold probeDaemon. settles_tac. Qed.
Lemma settles_identity client addr : settles (probeDaemonIdentity network client addr).
Proof. unfold probeDaemonIdentity. settles_tac. Qed.
Lemma settles_reap lockDir maxAge : settles (reapStaleLockDir mtime lockDir maxAge).
Proof. unfold reapStaleLockDir. settles_tac. Qed.
Hint Resolve settles_probe settles_identity settles_reap : governance.

(** A loop that sleeps for [poll] in every round and has [fuel] rounds before it. *)
Definition enough (fuel : nat) (poll deadline : Z) (w : CW) : Prop :=
  (deadline < os_now (w_clock w) + Z.of_nat (pred fuel) * poll)%Z ∧ fuel ≠ O.

Lemma enough_next fuel poll deadline (w w1 w2 : CW) : (0 < poll)%Z → enough (S fuel) poll deadline w → (os_now (w_clock w) ≤ deadline)%Z →
  w_clock w ≤ w_clock w1 → (os_now (w_clock w1) + poll ≤ os_now (w_clock w2))%Z → enough fuel poll deadline w2.
Proof using SLaws.
  intros Hp [He _] Hd H1 H2. pose proof (now_mono _ _ H1). unfold enough in *. cbn [pred] in *.
  destruct fuel as [|fuel]; [cbn in He; lia|]. cbn [pred]. split; [|done]. rewrite Nat2Z.inj_succ in He. lia.
Qed.
Lemma enough_start wait poll (w w' : CW) : (0 ≤ wait)%Z → (0 < poll)%Z → w_clock w ≤ w_clock w' →
  enough (poll_fuel wait poll) poll (os_now (w_clock w) + wait) w'.
Proof using SLaws.
  intros Hw Hp Hle. pose proof (poll_fuel_enough wait poll Hw Hp). pose proof (now_mono _ _ Hle). split; [lia|done].
Qed.

Lemma settles_wait fuel deadline client addr w : enough fuel healthy_poll deadline w →
  settles_at (wait_healthy network fuel deadline client addr) w.
Proof using SLaws.
  revert w. induction fuel as [|fuel IH]; intros w He; [by destruct He|]. cbn [wait_healthy]. apply settles_now. intros w1 H1.
  destruct (Z.ltb_spec (os_now (w_clock w)) deadline) as [Hlt|]; [|apply settles_ret].
  apply settles_at_bind; [apply settles_probe|]. intros [err|] w2 _ H2; [|apply settles_ret].
  apply settles_sleep. intros w3 _ H3. apply IH. eapply (enough_next fuel healthy_poll deadline w w2); [done|done|lia..].
Qed.
Lemma settles_drain fuel deadline hostPort timing w : (0 < rt_poll timing)%Z → enough fuel (rt_poll timing) deadline w →
  settles_at (drain_loop dial fuel deadline hostPort timing) w.
Proof using SLaws.
  intros Hp. revert w. induction fuel as [|fuel IH]; intros w He; [by destruct He|]. cbn [drain_loop]. apply settles_now. intros w1 H1.
  destruct (Z.ltb_spec (os_now (w_clock w)) deadline) as [Hlt|]; [|apply settles_ret].
  apply settles_at_bind; [apply settles_oracle|]. intros [] w2 _ H2; [|apply settles_ret].
  apply settles_sleep. intros w3 _ H3. apply IH. eapply (enough_next fuel _ deadline w w2); [done|done|lia..].
Qed.
Lemma settles_acquire fuel deadline lockDir timing w : (0 < lt_poll timing)%Z → enough fuel (lt_poll timing) deadline w →
  settles_at (acquire_loop mtime fuel deadline lockDir timing) w.
Proof using SLaws.
  intros Hp. revert w. induction fuel as [|fuel IH]; intros w He; [by destruct He|]. cbn [acquire_loop].
  apply settles_at_bind; [apply settles_Mkdir|]. intros [err|] w1 _ H1; [|apply settles_ret].
  destruct (negb _); [apply settles_ret|]. apply settles_at_bind; [apply settles_reap|]. intros [] w2 _ H2. apply settles_now. intros w3 H3.
  destruct (Z.ltb_spec deadline (os_now (w_clock w2))) as [|Hge]; [apply settles_ret|].
  apply settles_sleep. intros w4 _ H4. apply IH. eapply (enough_next fuel _ deadline w w3); [done|done| |lia|done].
  pose proof (now_mono (w_clock w) (w_clock w2)). lia.
Qed.
Lemma settles_await fuel deadline client addr expect trace timing reasons w : (0 < rt_poll timing)%Z →
  enough fuel (rt_poll timing) deadline w →
  settles_at (await_loop network getwd fuel deadline client addr expect trace timing reasons) w.
Proof using SLaws.
  intros Hp. revert reasons w. induction fuel as [|fuel IH]; intros reasons w He; [by destruct He|]. cbn [await_loop].
  apply settles_at_bind; [apply settles_identity|]. intros probed w1 _ H1.
  assert (∀ rs err, settles_at (let! now := Now in
    if negb (now <? deadline)%Z then ret (Some err)
    else let! _ := Sleep (rt_poll timing) in await_loop network getwd fuel deadline client addr expect trace timing rs) w1) as Hloop.
  { intros rs err. apply settles_now. intros w2 H2. destruct (Z.ltb_spec (os_now (w_clock w1)) deadline) as [Hlt|]; cbn [negb]; [|apply settles_ret].
    apply settles_sleep. intros w3 _ H3. apply IH. eapply (enough_next fuel _ deadline w w2); [done|done| |lia|done].
    pose proof (now_mono (w_clock w) (w_clock w1)). lia. }
  destruct probed as [identity|err]; [|apply Hloop]. destruct (daemonStaleness _ _ _); [apply settles_ret|apply Hloop].
Qed.

Lemma settles_waitHealthy client addr : settles (waitHealthy network client addr).
Proof using SLaws. intros w. apply settles_now. intros w' Hle. by apply settles_wait, enough_start. Qed.
Lemma settles_drainDaemon addr timing : (0 ≤ rt_drainWait timing)%Z → (0 < rt_poll timing)%Z → settles (drainDaemonAddress dial addr timing).
Proof using SLaws.
  intros Hw Hp w. unfold drainDaemonAddress. destruct (String.eqb _ _); [apply settles_ret|].
  apply settles_now. intros w' Hle. by apply settles_drain, enough_start.
Qed.
Lemma settles_acquireLockDir lockDir timing : (0 ≤ lt_wait timing)%Z → (0 < lt_poll timing)%Z → settles (acquireLockDir mtime lockDir timing).
Proof using SLaws.
  intros Hw Hp. apply settles_bind; [apply settles_MkdirAll|]. intros [err|]; [apply settles_ret|]. intros w.
  apply settles_now. intros w' Hle. by apply settles_acquire, enough_start.
Qed.
Lemma settles_awaitFresh client addr expect trace timing : (0 ≤ rt_freshWait timing)%Z → (0 < rt_poll timing)%Z →
  settles (awaitFreshDaemon network getwd client addr expect trace timing).
Proof using SLaws. intros Hw Hp w. apply settles_now. intros w' Hle. by apply settles_await, enough_start. Qed.

Lemma settles_clients base alternate certDir : settles (alternateSchemeClients getenv git base alternate certDir).
Proof using Hload Hresolve Hclient.
  unfold alternateSchemeClients, loadClientTLSMode, configureClientTLSMaterial, configureTLS, buildTLSConfig. settles_tac.
Qed.
Lemma settles_post client addr : settles (postShutdown network client addr).
Proof. unfold postShutdown. settles_tac. Qed.
Lemma settles_routes routes lastErr : settles (tryShutdownRoutes network routes lastErr).
Proof. revert lastErr. induction routes; intros lastErr; cbn [tryShutdownRoutes]; pose proof settles_post; settles_tac. Qed.
Lemma settles_request client addr : settles (requestDaemonShutdown getenv git network client addr).
Proof using Hload Hresolve Hclient.
  pose proof settles_post. pose proof settles_routes. pose proof settles_clients. unfold requestDaemonShutdown, shutdownRoutes. settles_tac.
Qed.

(** The waits of a timing are durations and its polls are pauses. *)
Definition sensible (timing : restartTiming) : Prop :=
  (0 ≤ lt_wait (rt_lock timing) ∧ 0 < lt_poll (rt_lock timing) ∧ 0 ≤ rt_drainWait timing ∧ 0 ≤ rt_freshWait timing ∧ 0 < rt_poll timing)%Z.

Lemma settles_restart client addr cfg expect timing : sensible timing →
  settles (restartLocalDaemonWithTiming getenv git network starter dial mtime getwd client addr cfg expect timing).
Proof using SLaws Hstarter Hload Hresolve Hclient.
  intros (Hlw & Hlp & Hdw & Hfw & Hp). unfold restartLocalDaemonWithTiming. apply settles_bind; [by apply settles_acquireLockDir|].
  intros [err|]; [apply settles_ret|]. apply settles_deferred; [|unfold releaseLockDir; settles_tac].
  apply settles_bind; [apply settles_request|]. intros [note|err]; [|apply settles_ret].
  apply settles_bind; [by apply settles_drainDaemon|]. intros []. apply settles_bind; [unfold start_daemon; settles_tac|].
  intros startErr. by apply settles_awaitFresh.
Qed.

(** C32: making sure of a daemon always comes to an end: whatever the network answers, however
    long the lock is held by others and whatever fails, the call returns, provided that the
    starter, the certificate store and the reporter do and that the clock goes on. *)
Theorem ensureCurrentDaemon_returns client addr cfg report w :
  match report with Some report => ∀ reasons, settles (report reasons) | None => True end →
  ∃ r w', ensure client addr cfg report w = (Returned r, w').
Proof using SLaws Hstarter Hload Hresolve Hclient.
  intros Hreport. assert (sensible defaultRestartTiming) as Hs by done.
  enough (settles (ensure client addr cfg report)) as H by (destruct (H w) as (r & w' & Hr & _); eauto).
  assert (∀ expect reasons, settles (replaceStaleDaemon getenv git network starter dial mtime getwd client addr cfg expect reasons report)) as Hrep.
  { intros expect reasons. unfold replaceStaleDaemon, restartLocalDaemon.
    apply settles_bind; [destruct report; settles_tac|]. intros []. apply settles_bind; [by apply settles_restart|settles_tac]. }
  unfold ensureCurrentDaemonReporting. destruct (String.eqb _ _).
  - pose proof settles_waitHealthy. unfold ensureDaemon, ensureProbedDaemon. settles_tac.
  - apply settles_bind; [apply settles_identity|]. intros [identity|err].
    + destruct (daemonStaleness _ _ _); settles_tac.
    + unfold ensureAfterUnreadableIdentity. destruct (_ || _); [done|]. destruct (found _); [apply settles_ret|].
      apply settles_bind; [unfold start_daemon; settles_tac|]. intros startErr. by apply settles_awaitFresh.
Qed.
End termination.

(** ** The lock is given back *)

Definition same_fs : relation CW := λ w w', w_files w' = w_files w ∧ w_dirs w' = w_dirs w.
#[local] Instance same_fs_preorder : PreOrder same_fs.
Proof. split; [done|]. intros w1 w2 w3 [H1 H2] [H3 H4]. split; congruence. Qed.
Abbreviation leaves_fs := (transits same_fs).

Lemma fs_ret {A} (a : A) : leaves_fs (ret a).
Proof. by intros w. Qed.
Lemma fs_tick w : same_fs w (tick w).
Proof. done. Qed.
Lemma fs_Do x : leaves_fs (Do network x).
Proof. by intros w. Qed.
Lemma fs_call {A} (f : external A) : leaves_fs (call f).
Proof. by intros w. Qed.
Lemma fs_Sleep d : leaves_fs (Sleep d).
Proof. by intros w. Qed.
Lemma fs_Now : leaves_fs Now.
Proof. by intros w. Qed.
Lemma fs_diverge {A} : leaves_fs (diverge (A := A)).
Proof. by intros w. Qed.
Lemma fs_started cfg : leaves_fs (record_started cfg).
Proof. by intros w. Qed.
Lemma fs_ReadFile path : leaves_fs (ReadFile path).
Proof. apply (transits_ReadFile same_fs fs_tick). Qed.
Hint Resolve fs_ret fs_Do fs_call fs_Sleep fs_Now fs_diverge fs_started fs_ReadFile : governance.
Ltac fs_step :=
  match goal with
  | |- transits _ (bind _ _) => apply (transits_bind same_fs); [|intros ?]
  | |- transits _ (match ?x with _ => _ end) => destruct x eqn:?
  | |- transits _ (if ?x then _ else _) => destruct x eqn:?
  | |- transits _ (let '(_, _) := ?x in _) => destruct x eqn:?
  end.
Ltac fs_tac := repeat first [ solve [eauto with governance] | fs_step ].

Lemma fs_post client addr : leaves_fs (postShutdown network client addr).
Proof. unfold postShutdown. fs_tac. Qed.
Lemma fs_routes routes lastErr : leaves_fs (tryShutdownRoutes network routes lastErr).
Proof. revert lastErr. induction routes; intros lastErr; cbn [tryShutdownRoutes]; pose proof fs_post; fs_tac. Qed.
Lemma fs_clients base alternate certDir : leaves_fs (alternateSchemeClients getenv git base alternate certDir).
Proof. unfold alternateSchemeClients, loadClientTLSMode, configureClientTLSMaterial, configureTLS, buildTLSConfig. fs_tac. Qed.
Lemma fs_drain fuel deadline hostPort timing : leaves_fs (drain_loop dial fuel deadline hostPort timing).
Proof. induction fuel; cbn [drain_loop]; fs_tac. Qed.
Lemma fs_await fuel deadline client addr expect trace timing reasons :
  leaves_fs (await_loop network getwd fuel deadline client addr expect trace timing reasons).
Proof. revert reasons. induction fuel; intros reasons; cbn [await_loop]; unfold probeDaemonIdentity; fs_tac. Qed.
Lemma fs_restart_locked client addr cfg expect timing :
  leaves_fs (restart_locked getenv git network starter dial getwd client addr cfg expect timing).
Proof.
  pose proof fs_post. pose proof fs_routes. pose proof fs_clients. pose proof fs_drain. pose proof fs_await.
  unfold restart_locked, requestDaemonShutdown, shutdownRoutes, drainDaemonAddress, start_daemon, awaitFreshDaemon. fs_tac.
Qed.

(** Computations that do not panic. *)
Definition calm {A} (m : CM A) : Prop := ∀ w p w', m w ≠ (Panicked p, w').
Lemma calm_bind {A B} (m : CM A) (k : A → CM B) : calm m → (∀ a, calm (k a)) → calm (bind m k).
Proof. intros Hm Hk w p w'. unfold bind. destruct (m w) as [[a|q|] w1] eqn:Hr; [apply Hk| |done]. by destruct (Hm w q w1). Qed.
Lemma calm_os_op {A} op path (failed : goerror → CW → A * CW) effect : calm (os_op op path failed effect).
Proof. intros w p w'. unfold os_op. destruct (os_fault _ _ _); [by destruct (failed _ _)|by destruct (effect _)]. Qed.
Lemma calm_acquire lockDir timing : calm (acquireLockDir mtime lockDir timing).
Proof.
  apply calm_bind; [apply calm_os_op|]. intros [err|]; [done|]. apply calm_bind; [done|]. intros now.
  generalize (poll_fuel (lt_wait timing) (lt_poll timing)) as fuel. induction fuel as [|fuel IH]; [done|]. cbn [acquire_loop].
  apply calm_bind; [apply calm_os_op|]. intros [err|]; [|done]. destruct (negb _); [done|]. apply calm_bind.
  - apply calm_bind; [apply calm_os_op|]. intros [dir|err']; [|done]. apply calm_bind; [done|]. intros modified.
    apply calm_bind; [done|]. intros now'. destruct (_ <? _)%Z; [done|]. apply calm_bind; [apply calm_os_op|done].
  - intros []. apply calm_bind; [done|]. intros now'. destruct (_ <? _)%Z; [done|]. by apply calm_bind.
Qed.

Section release.
Context (lockDir : string) (Hfaults : ∀ t, os_fault t "remove" lockDir = None).

(** The lock is free, and nothing lies in its place. *)
Definition vacant (w : CW) : Prop :=
  (lockDir ∉ w_dirs w) ∧ (w_files w !! lockDir = None) ∧
  (∀ p, p ∈ w_dirs w → path_dir p ≠ lockDir) ∧ (∀ p, is_Some (w_files w !! p) → path_dir p ≠ lockDir).
(** What the lock directory adds to the tree. *)
Definition locked (w w' : CW) : Prop := w_files w' = w_files w ∧ w_dirs w' = {[lockDir]} ∪ w_dirs w.

Lemma vacant_same w w' : vacant w → same_fs w w' → vacant w'.
Proof using. intros Hv [Hf Hd]. unfold vacant in *. by rewrite Hf, Hd. Qed.
Lemma locked_same w w1 w2 : same_fs w w1 → locked w1 w2 → locked w w2.
Proof using. intros [Hf Hd] [Hf' Hd']. split; congruence. Qed.
Lemma locked_empty w w' : vacant w → locked w w' → children lockDir w' = [].
Proof using.
  intros (_ & _ & Hd & Hf) [Hf' Hd']. unfold children.
  rewrite (filter_none (λ p, path_dir p = lockDir ∧ p ≠ lockDir)), (filter_none (λ p, path_dir p = lockDir)); [done| |].
  - intros p Hp Hpd. apply list_elem_of_fmap in Hp as ([q content] & -> & Hq%elem_of_map_to_list).
    rewrite Hf' in Hq. by apply (Hf q).
  - intros p Hp%elem_of_elements [Hpd Hne]. rewrite Hd' in Hp. apply elem_of_union in Hp as [Hp%elem_of_singleton|Hp]; [done|].
    by apply (Hd p).
Qed.
Lemma release_unlocks w w' : vacant w → locked w w' → same_fs w (releaseLockDir lockDir w').2.
Proof using Hfaults.
  intros Hv Hl. pose proof (locked_empty w w' Hv Hl) as Hc. destruct Hv as (Hd & Hf & _), Hl as [Hlf Hld].
  unfold releaseLockDir, RemoveEntry, bind, os_op. rewrite Hfaults, Hlf, Hf.
  destruct (decide (lockDir ∈ w_dirs w')) as [_|[]]; [|rewrite Hld; apply elem_of_union_l, elem_of_singleton_2; done].
  destruct (decide (children lockDir w' = [])) as [_|]; [|done].
  split; cbn; [done|]. rewrite Hld. apply leibniz_equiv. intros p. rewrite elem_of_difference, elem_of_union, elem_of_singleton. split; [by intros [[?|?] ?]|].
  intros Hp. split; [by right|]. by intros ->.
Qed.

Lemma reap_vacant maxAge w : vacant w → returns (reapStaleLockDir mtime lockDir maxAge) (λ _ w', same_fs w w') w.
Proof using.
  intros (Hd & Hf & _). apply returns_bind, returns_os_op; [intros e _; by apply returns_ret|]. cbn [fst snd].
  rewrite decide_False by done. rewrite decide_False by (by rewrite Hf; intros []). by apply returns_ret.
Qed.
Lemma acquire_locks fuel deadline timing w : vacant w →
  returns (acquire_loop mtime fuel deadline lockDir timing) (λ r w', match r with None => locked w w' | Some _ => same_fs w w' end) w.
Proof using.
  revert w. induction fuel as [|fuel IH]; intros w Hv; [by intros r w'|]. cbn [acquire_loop]. apply returns_bind, returns_os_op.
  - intros e _. cbn [fst snd]. destruct (negb _); [by apply returns_ret|]. assert (vacant (tick w)) as Hv1 by done.
    apply returns_bind. eapply returns_weaken; [by apply reap_vacant|]. intros [] w2 H2. apply returns_bind. intros now w3 [= <- <-].
    destruct (_ <? _)%Z; [by apply returns_ret|]. apply returns_bind. intros [] w4 [= <-].
    assert (same_fs w (mkWorld (w_app (tick w2)) (w_files (tick w2)) (w_dirs (tick w2)) (os_wake (w_clock (tick w2)) (lt_poll timing)))) as H4 by done.
    eapply returns_weaken; [apply IH; by eapply vacant_same|]. intros [err|] w5 H5; [by etrans|by eapply locked_same].
  - destruct Hv as (Hd & Hf & _). destruct (decide _) as [[?|[? ?]]|]; [done|congruence|]. by apply returns_ret.
Qed.
End release.

(** The restart lock is given back: a restart that returns or panics, at whatever point
    and for whatever reason, leaves the files and directories as they were when the lock
    was free and its removal does not fail. *)
Theorem restart_releases_lock client addr cfg expect timing w o w' (lockDir := restartLockPath getenv) :
  vacant lockDir w → path_dir lockDir ∈ w_dirs w → (∀ t, os_fault t "remove" lockDir = None) →
  restartLocalDaemonWithTiming getenv git network starter dial mtime getwd client addr cfg expect timing w = (o, w') →
  o ≠ Blocked → same_fs w w'.
Proof.
  intros Hv Hroot Hfaults. unfold restartLocalDaemonWithTiming. fold lockDir. unfold bind at 1.
  assert (returns (acquireLockDir mtime lockDir (rt_lock timing)) (λ r w1, match r with None => locked lockDir w w1 | Some _ => same_fs w w1 end) w) as Hacq.
  { apply returns_bind, returns_os_op; [intros e _; by apply returns_ret|]. cbn [fst snd].
    assert (same_fs w (tick (set_dirs ({[path_dir lockDir]} ∪ w_dirs w) w))) as H1.
    { split; cbn; [done|]. apply leibniz_equiv. intros p. rewrite elem_of_union, elem_of_singleton. naive_solver. }
    apply returns_bind. intros now w2 [= <- <-]. eapply returns_weaken; [apply acquire_locks; eapply vacant_same; [done|exact H1]|].
    intros [err|] w3 H3; [by etrans|by eapply locked_same]. }
  destruct (acquireLockDir mtime lockDir (rt_lock timing) w) as [[[err|]| |] w1] eqn:Ha.
  - intros [= <- <-] _. exact (Hacq (Some err) w1 Ha).
  - pose proof (Hacq None w1 Ha) as Hl. pose proof (fs_restart_locked client addr cfg expect timing w1) as Hb. unfold with_deferred.
    destruct (restart_locked _ _ _ _ _ _ _ _ _ _ _ w1) as [[r|p|] w2]; cbn in Hb; [| |by intros [= <- <-]].
    + pose proof (release_unlocks lockDir Hfaults w w2 Hv). destruct Hl, Hb.
      destruct (releaseLockDir lockDir w2) as [[]  w3]; intros [= <- <-] _; apply H; split; congruence.
    + pose proof (release_unlocks lockDir Hfaults w w2 Hv). destruct Hl, Hb.
      destruct (releaseLockDir lockDir w2) as [[]  w3]; intros [= <- <-] _; apply H; split; congruence.
  - by destruct (calm_acquire lockDir (rt_lock timing) w message w1).
  - by intros [= <- <-].
Qed.
End restart.
