(* ===== verification/RestartIdentity.v ===== *)
(** * The daemon this client starts is current

    The identity that the server puts into [GET /health] ([server/server.go]) and the
    judgement of the client ([client/daemonstatus.go]) fit together: a daemon that runs
    this build with this configuration is not stale. *)

From stdpp Require Import base gmap strings list fin_maps.
From Stdlib Require Import ZArith Lia Ascii.
From S2P Require Import Prelude GoStrings GoErrors GoFloat GoJson GoJsonPrint GoNet GoOS Fitness HistoryEvent Hooks HooksText Sarif Client ClientProofs Auth Server CsprojProofs Restart RestartProofs.
Set Default Goal Selector "!".

(** ** Cleaning twice *)

(** An element that cleaning a rooted path keeps. *)
Definition proper (e : string) : Prop := e ≠ "" ∧ e ≠ "." ∧ e ≠ ".." ∧ no_slash e.

Lemma push_proper stack e : Forall proper stack → no_slash e → Forall proper (clean_push true stack e).
Proof.
  intros Hs He. unfold clean_push. destruct (String.eqb_spec e "") as [|H1]; [done|]. destruct (String.eqb_spec e ".") as [|H2]; [done|]. cbn [orb].
  destruct (String.eqb_spec e "..") as [|H3]; [|by constructor].
  destruct stack as [|top stack]; [done|]. apply Forall_cons in Hs as [(_ & _ & Ht & _) Hs].
  destruct (String.eqb_spec top ".."); [done|]. done.
Qed.
Lemma fold_proper es : ∀ stack, Forall no_slash es → Forall proper stack → Forall proper (foldl (clean_push true) stack es).
Proof.
  induction es as [|e es IH]; intros stack Hes Hs; cbn [foldl]; [done|]. apply Forall_cons in Hes as [He Hes].
  apply IH; [done|]. by apply push_proper.
Qed.
Lemma fold_proper_id es : ∀ stack, Forall proper es → foldl (clean_push true) stack es = rev es ++ stack.
Proof.
  induction es as [|e es IH]; intros stack Hes; cbn [foldl rev]; [done|]. apply Forall_cons in Hes as [(H1 & H2 & H3 & _) Hes].
  rewrite IH by done. unfold clean_push. destruct (String.eqb_spec e ""), (String.eqb_spec e "."), (String.eqb_spec e ".."); try done.
  cbn [orb]. by rewrite <-app_assoc.
Qed.

Lemma split_rooted es : es ≠ [] → Forall no_slash es → split ("/" +:+ join es "/") slash = "" :: es.
Proof.
  intros Hne Hes. change (split ("/" +:+ join es "/") slash) with ("" :: split_bytes slash [] (bytes (join es "/"))). f_equal.
  induction Hes as [|e es He Hes IH]; [done|]. assert (slash ∉ bytes e) as Hn.
  { intros Hin. unfold no_slash in He. rewrite Forall_forall in He. by destruct (He _ Hin). }
  destruct es as [|e' es].
  - cbn [join]. rewrite split_bytes_plain by done. f_equal. apply of_bytes_bytes.
  - rewrite join_cons by done. rewrite !bytes_app. change (bytes "/") with [slash]. cbn [app].
    rewrite split_bytes_app by done. f_equal; [apply of_bytes_bytes|by apply IH].
Qed.

Lemma clean_rooted p : is_abs p = true → ∃ es, Forall proper es ∧ path_clean p = "/" +:+ join es "/".
Proof.
  intros Hp. unfold path_clean, clean_elems. rewrite Hp. eexists. split; [|done]. apply Forall_rev, fold_proper; [|done].
  destruct (split_slash_head p Hp) as (rest & -> & _ & Hr). constructor; [constructor|done].
Qed.
Lemma clean_clean p : is_abs p = true → is_abs (path_clean p) = true ∧ path_clean (path_clean p) = path_clean p.
Proof.
  intros Hp. destruct (clean_rooted p Hp) as (es & Hes & ->).
  assert (is_abs ("/" +:+ join es "/") = true) as Ha by (apply has_prefix_spec; by eexists).
  split; [done|]. unfold path_clean, clean_elems. rewrite Ha. do 2 f_equal. destruct (decide (es = [])) as [->|Hne]; [done|].
  rewrite split_rooted; [|done|]; [|eapply Forall_impl; [exact Hes|]; by intros e (_ & _ & _ & ?)].
  cbn [foldl]. change (clean_push true [] "") with (@nil string). rewrite fold_proper_id by done. by rewrite app_nil_r, rev_involutive.
Qed.

(** ** The answer of the daemon *)

Definition json_HealthResponse (h : HealthResponse) (pid : Z) (startedAt : string) : json :=
  JObj [("status", JStr (health_Status h)); ("build_revision", JStr (id_BuildRevision (health_Identity h)));
        ("build_modified", JBool (id_BuildModified (health_Identity h))); ("listen_mode", JStr (id_ListenMode (health_Identity h)));
        ("configs_dir", JStr (id_ConfigsDir (health_Identity h))); ("pid", json_int pid); ("started_at", JStr startedAt)].

(** What [healthHandler] writes: an encoder ends the document with a newline. *)
Definition health_body (identity : Identity) (pid : Z) (startedAt : string) : string :=
  Marshal (N := id) (json_HealthResponse (mkHealth "ok" identity) pid startedAt) +:+ LF.

Section identity.
Context {U : UnicodeTables} {J : JsonErrorText}.

Lemma health_body_read identity pid startedAt : (0 < pid < 2 ^ 63)%Z → ascii_text startedAt = true →
  ascii_text (id_BuildRevision identity) = true → ascii_text (id_ListenMode identity) = true → ascii_text (id_ConfigsDir identity) = true →
  identity_of_body (health_body identity pid startedAt) =
  mkDaemonIdentity (id_BuildRevision identity) (id_BuildModified identity) (id_ListenMode identity) (id_ConfigsDir identity) pid false.
Proof.
  intros Hpid Hs Hr Hm Hc. unfold identity_of_body.
  assert (plain (N := id) (json_HealthResponse (mkHealth "ok" identity) pid startedAt) = true) as Hp.
  { unfold json_HealthResponse. change (plain (JObj ?l)) with (forallb (λ kv : string * json, ascii_text kv.1 && plain (N := id) kv.2) l).
    cbn [forallb fst snd health_Status health_Identity]. change (plain (JStr ?s)) with (ascii_text s). change (plain (JBool ?b)) with true.
    by rewrite Hr, Hm, Hc, Hs, (json_int_plain pid) by lia. }
  assert (json_parse (health_body identity pid startedAt) = Some (json_HealthResponse (mkHealth "ok" identity) pid startedAt)) as Hparse
    by exact (json_text_parse (N := id) Compact _ LF Hp eq_refl).
  destruct (String.eqb_spec (health_body identity pid startedAt) "") as [He|_]; [by rewrite He in Hparse|].
  unfold unmarshal. rewrite Hparse. unfold dec_daemonIdentity, json_HealthResponse.
  cbn [dec_struct foldl fst snd health_Status health_Identity].
  assert (select_field identity_fields "status" = None) as -> by (vm_compute; reflexivity).
  assert (select_field identity_fields "started_at" = None) as -> by (vm_compute; reflexivity).
  lazy [select_field List.find String.eqb Ascii.eqb Bool.eqb fst snd identity_fields zero_identity
        di_BuildRevision di_BuildModified di_ListenMode di_ConfigsDir di_PID di_Legacy].
  cbn [dec_string dec_bool fmap option_fmap option_map]. rewrite (dec_json_int pid) by done. reflexivity.
Qed.

(** The two sides fit: what a daemon of this build that serves the configurations of this
    environment answers to [GET /health] is read by the client as the identity of a current
    daemon, whichever mode is expected of it, provided the answer fits the 4096 bytes the
    client reads and its texts are ASCII. *)
Theorem started_daemon_current getenv getwd build pid startedAt mode expected reply
  (configsDir := resolveConfigsDir getenv)
  (body := health_body (Server.daemonIdentity build (Some (path_clean configsDir)) configsDir mode) pid startedAt) :
  is_abs configsDir = true → expected = "" ∨ expected = mode → (0 < pid < 2 ^ 63)%Z →
  ascii_text startedAt = true → ascii_text build.1 = true → ascii_text mode = true → ascii_text (path_clean configsDir) = true →
  rp_Body reply = body → rp_Error reply = None → (Z.of_nat (String.length body) ≤ 4096)%Z →
  ∃ text, read_limited 4096 reply = Ok text ∧
    daemonStaleness getwd (identity_of_body text) (currentDaemonExpectations getenv build expected) = [].
Proof.
  intros Habs Hmode Hpid Hs Hr Hm Hc Hb He Hl. exists body. split.
  { unfold read_limited, limited. by rewrite He, Hb, (proj2 (Z.leb_le _ _) Hl). }
  unfold body. rewrite health_body_read by done. apply staleness_current.
  unfold currentDaemonExpectations. fold configsDir. split; cbn [di_Legacy di_BuildRevision di_BuildModified di_ListenMode di_ConfigsDir
    ex_BuildRevision ex_BuildModified ex_ListenMode ex_ConfigsDir Server.daemonIdentity id_BuildRevision id_BuildModified id_ListenMode id_ConfigsDir default].
  - done.
  - by right; right.
  - done.
  - right; right. change (absoluteCleanPath getwd (path_clean configsDir) = absoluteCleanPath getwd configsDir). unfold absoluteCleanPath.
    destruct (clean_clean configsDir Habs) as [Ha Hcc]. by rewrite Ha, Habs.
  - destruct Hmode as [->| ->]; [by right; left|by right; right].
Qed.
End identity.
