(* ===== verification/RestartExamples.v ===== *)
(** * Runs of the restart engine

    A stale daemon that is replaced, a foreign listener that is left alone, a remote
    address, and the identity of a started daemon. *)

From stdpp Require Import base gmap strings list fin_maps.
From Stdlib Require Import ZArith Lia Ascii.
From S2P Require Import Prelude GoStrings GoErrors GoFloat GoJson GoJsonPrint GoNet GoOS Fitness HistoryEvent Hooks Sarif Client ClientProofs Auth Server Restart RestartProofs RestartIdentity.
Set Default Goal Selector "!".

Module RestartExamples.
Import ClientExamples.

#[local] Existing Instance basic_unicode.
#[local] Existing Instance ClientExamples.errors.
#[local] Existing Instance ClientExamples.numbers.
#[local] Existing Instance ClientExamples.paced_os.
#[local] Existing Instance ClientExamples.paced_sleep.
#[local] Existing Instance ClientExamples.paced_laws.
#[local] Existing Instance ClientExamples.simple_urls.
#[local] Existing Instance ClientExamples.no_certificates.

Definition local : string := "http://127.0.0.1:7890".
Definition here : DaemonStartConfig := localHTTPDaemonStartConfig home local zero_mode.
Definition this_build : string * bool := ("0123456789ab", false).
Definition identity_text (revision : string) : string :=
  health_body (Server.daemonIdentity (revision, false) (Some (path_clean (resolveConfigsDir home))) (resolveConfigsDir home) "local-http")
    4242 "2026-01-02T03:04:05Z".

(** A daemon of another build until it is asked to stop, and then the new one. *)
Definition replaced : sent → nat → result goerror http_reply := λ x t,
  if String.eqb (sent_method x) "POST" then Ok (mkReply 202 "" None)
  else Ok (mkReply 200 (identity_text (if (t <? 3)%nat then "aaaaaaaaaaaa" else "0123456789ab")) None).
Definition gone : string → nat → bool := λ _ _, false.
Definition age : string → nat → Z := λ _ _, 0%Z.

Abbreviation ensured network := (ensureCurrentDaemonReporting home no_git network no_start gone age None this_build client local here None start).

Definition replacement : outcome (option goerror) * world client_state := ensured replaced.
Lemma replaced_run : replacement.1 = Returned None ∧
  ((λ x, (sent_method x, sent_url x)) <$> cl_sent (w_app replacement.2)) =
    [("GET", local +:+ "/health"); ("POST", local +:+ "/shutdown"); ("GET", local +:+ "/health")] ∧
  cl_started (w_app replacement.2) = [here].
Proof. vm_compute. done. Qed.

Lemma ensureCurrentDaemon_current_witness :
  fresh replaced None local (currentDaemonExpectations home this_build (expectedListenMode here)) (w_app replacement.2).
Proof.
  assert (ensured replaced = (Returned None, replacement.2)) as Hrun by (vm_compute; reflexivity).
  assert (localDaemonScheme local ≠ "") as Hlocal by (vm_compute; discriminate).
  pose proof (ensureCurrentDaemon_current home no_git replaced no_start gone age None this_build client local here None start Hlocal) as H.
  unfold returns in H. exact (H None replacement.2 Hrun eq_refl).
Defined.

(** Another server on the port. *)
Definition other_server : sent → nat → result goerror http_reply := λ _ _, Ok (mkReply 404 "not found" None).
Lemma ensureCurrentDaemon_spares_witness : cl_sent (w_app (ensured other_server).2) = [mkSent client "GET" (local +:+ "/health") ""] ∧
  cl_started (w_app (ensured other_server).2) = [].
Proof.
  destruct (ensureCurrentDaemon_spares home no_git other_server no_start gone age None this_build client local here None start) as [_ H].
  destruct H as (_ & _ & _ & Hs & Hx); [vm_compute; discriminate|by eexists| |by split].
  eexists. split; [done|]. split; [done|]. vm_compute. done.
Defined.

Lemma ensureCurrentDaemon_returns_witness : ∃ r w', ensured down = (Returned r, w').
Proof.
  apply (ensureCurrentDaemon_returns home no_git down no_start gone age None this_build).
  all: try done; intros; intros ? ? ?; by eexists.
Defined.

(** The governance root exists and the lock is free. *)
Definition governed : world client_state := mkWorld (w_app start) ∅ {[path_dir (restartLockPath home)]} 0.
Abbreviation restarted := (restartLocalDaemonWithTiming home no_git replaced no_start gone age None client local here
  (currentDaemonExpectations home this_build "local-http") defaultRestartTiming governed).
Lemma restart_releases_lock_witness : w_dirs restarted.2 = {[path_dir (restartLockPath home)]}.
Proof.
  apply (restart_releases_lock home no_git replaced no_start gone age None client local here
    (currentDaemonExpectations home this_build "local-http") defaultRestartTiming governed (restarted).1 (restarted).2).
  - assert (path_dir (path_dir (restartLockPath home)) ≠ restartLockPath home) by (vm_compute; discriminate).
    assert (restartLockPath home ≠ path_dir (restartLockPath home)) by (vm_compute; discriminate).
    unfold vacant, governed. cbn [w_dirs w_files]. split_and!; [by rewrite elem_of_singleton|done| |by intros p [x Hx]].
    intros p Hp. rewrite elem_of_singleton in Hp. by subst p.
  - unfold governed. cbn [w_dirs]. by apply elem_of_singleton.
  - done.
  - by destruct restarted.
  - vm_compute. discriminate.
Defined.

Lemma started_daemon_current_witness : ∃ text,
  read_limited 4096 (mkReply 200 (identity_text "0123456789ab") None) = Ok text ∧
  daemonStaleness None (identity_of_body text) (currentDaemonExpectations home this_build "local-http") = [].
Proof.
  apply (started_daemon_current home None this_build 4242 "2026-01-02T03:04:05Z" "local-http" "local-http"
    (mkReply 200 (identity_text "0123456789ab") None)); try reflexivity; [by right|lia|].
  vm_compute. discriminate.
Defined.
End RestartExamples.
