(* ===== verification/Onboard.v ===== *)
(** * Onboarding

    The steps of [client onboard] in [internal/client/onboard.go]: the tracked and
    the shared configuration file, the caller bindings under their lock, the
    registration with a remote daemon, the start of the local daemon and the wait
    until it acknowledges the repository.

    They run over the world of [GoOS] like the rest of the client ([Client],
    [Restart]); the progress lines they print are left out. *)

From stdpp Require Import base gmap strings list fin_maps.
From Stdlib Require Import ZArith Lia Ascii.
From S2P Require Import Prelude GoStrings GoErrors GoFloat GoJson GoJsonPrint GovConfig GoNet Auth GoOS Hooks ConfigStore Server Client Restart Scaffold Wizard.
Set Default Goal Selector "!".

(** ** The inputs of a run *)

Section data.
Context {R : RegexpEngine} {T : TLSWorld}.

(** The fields of [onboarder] that the steps below use. *)
Record onboarder := mkOnboarder {
  o_repoName : string;
  o_enforcement : string;
  o_addr : string;
  o_configsDir : string;
  o_repoConfigsDir : string;
  o_httpClient : http_client;
  o_tlsMode : clientTLSMode;
  o_tlsMaterial : clientTLSMaterial;
  o_callerCN : string;
  o_selectedFunctions : option (gmap string bool);
  o_localHTTP : bool;
  o_update : bool;
  o_layers : list LayerRule;
}.
End data.

(** [rewriteAuthorized]. *)
Definition rewriteAuthorized {R : RegexpEngine} (updateFlag : bool) (governance : onboardGovernance) : bool :=
  updateFlag || og_update governance.

Definition onboardCallerBindingsPath (configsDir : string) : string :=
  let clean := path_clean configsDir in
  if String.eqb (path_base clean) "configs"
  then path_join [path_dir clean; "caller-repos.json"]
  else path_join [clean; "caller-repos.json"].

(** ** Bindings as documents *)

Definition callerBindingsSection (document : gmap string json) : gmap string json :=
  match document !! "callers" with
  | Some (JObj fs) => members (JObj fs)
  | _ => ∅
  end.
Definition callerRepoList (callers : gmap string json) (callerCN : string) : list string :=
  match callers !! callerCN with
  | Some (JArr raw) => omap (λ item, match item with JStr repo => Some repo | _ => None end) raw
  | _ => []
  end.
Definition containsString (values : list string) (target : string) : bool := existsb (String.eqb target) values.
(** The document with the repository added to the caller's list. *)
Definition bound_document (document : gmap string json) (callerCN repoName : string) : gmap string json :=
  let callers := callerBindingsSection document in
  <["callers" := obj_of (<[callerCN := json_strings (callerRepoList callers callerCN ++ [repoName])]> callers)]> document.

Definition bindingsLockWait : Z := 5 * Restart.second.
Definition bindingsLockStaleAge : Z := 30 * Restart.second.
Definition bindingsLockPoll : Z := 25 * Restart.millisecond.
Definition registrationWait : Z := 5 * Restart.second.
Definition registrationPoll : Z := 150 * Restart.millisecond.

(** [preflightReport], of which these fields decide. *)
Record preflightReport := mkPreflight {
  pr_RepoConfigured : bool;
  pr_RepoConfigValid : bool;
  pr_RepoConfigError : string;
  pr_CallerAuthorized : bool;
}.
Definition zero_preflight : preflightReport := mkPreflight false false "" false.
Definition dec_preflight : decoder preflightReport :=
  dec_struct
    [("authenticated_cn", λ j r, (λ _, r) <$> dec_string j "");
     ("repo_configured", λ j r, (λ x, mkPreflight x (pr_RepoConfigValid r) (pr_RepoConfigError r) (pr_CallerAuthorized r)) <$> dec_bool j (pr_RepoConfigured r));
     ("repo_config_valid", λ j r, (λ x, mkPreflight (pr_RepoConfigured r) x (pr_RepoConfigError r) (pr_CallerAuthorized r)) <$> dec_bool j (pr_RepoConfigValid r));
     ("repo_config_error", λ j r, (λ x, mkPreflight (pr_RepoConfigured r) (pr_RepoConfigValid r) x (pr_CallerAuthorized r)) <$> dec_string j (pr_RepoConfigError r));
     ("caller_authorized", λ j r, (λ x, mkPreflight (pr_RepoConfigured r) (pr_RepoConfigValid r) (pr_RepoConfigError r) x) <$> dec_bool j (pr_CallerAuthorized r));
     ("enforcement_mode", λ j r, (λ _, r) <$> dec_string j "")].
Definition acknowledged (r : preflightReport) : bool :=
  pr_RepoConfigured r && pr_RepoConfigValid r && pr_CallerAuthorized r.

Section onboard.
Context {E : OSEnv} {SL : Sleeper} {R : RegexpEngine} {MO : GoMapOrder} {U : UnicodeTables} {J : JsonErrorText}
        {N : JsonNumberText} {P : URLPackage} {T : TLSWorld}.
Context (getenv : string → string).
Context (git : string → list string → external (string * option goerror)).
Context (network : sent → nat → result goerror http_reply).
Context (starter : DaemonStartConfig → external (option goerror)).
Context (dial : string → nat → bool).
Context (mtime : string → nat → Z).
Context (getwd : option string) (build : string * bool).
Abbreviation CM := (M client_state).

(** ** The configuration *)

Definition fileExists (path : string) : CM bool :=
  let! info := Stat path in ret (match info with Ok directory => negb directory | Err _ => false end).

Definition readConfigExtras (path : string) : CM configExtras :=
  let! content := ReadFile path in ret (extras_of content).

Definition writeScaffoldConfig (o : onboarder) (configPath : string) (extras : configExtras) : CM (option goerror) :=
  match renderGovernanceConfig (o_enforcement o) (o_selectedFunctions o)
          (scaffoldLayers (o_selectedFunctions o) (o_layers o)) extras with
  | Err err => ret (Some err)
  | Ok content =>
      let! made := MkdirAll (path_dir configPath) in
      match made with
      | Some err => ret (Some (ErrWrap "creating config directory: " err ""))
      | None =>
          let! written := WriteFile configPath content in
          ret ((λ err, ErrWrap ("writing " +:+ configPath +:+ ": ") err "") <$> written)
      end
  end.

Definition writeRepoLocalConfig (o : onboarder) (configPath : string) : CM (option goerror) :=
  let! present := fileExists configPath in
  if negb present then writeScaffoldConfig o configPath no_extras
  else if negb (o_update o) then ret None
  else let! extras := readConfigExtras configPath in writeScaffoldConfig o configPath extras.

Definition syncSharedConfig (o : onboarder) (repoLocalConfigPath : string) : CM (option goerror) :=
  let! read := ReadFile repoLocalConfigPath in
  match read with
  | Err err => ret (Some (ErrWrap ("reading " +:+ repoLocalConfigPath +:+ ": ") err ""))
  | Ok content =>
      match Validate content with
      | Some err => ret (Some (ErrWrap (repoLocalConfigPath +:+ " is not a valid governance config: ") err ""))
      | None =>
          let sharedPath := path_join [o_configsDir o; o_repoName o; "config.json"] in
          let! made := MkdirAll (path_dir sharedPath) in
          match made with
          | Some err => ret (Some (ErrWrap "creating shared config directory: " err ""))
          | None =>
              let! written := WriteFile sharedPath content in
              ret ((λ err, ErrWrap ("writing " +:+ sharedPath +:+ ": ") err "") <$> written)
          end
      end
  end.

Definition scaffoldConfig (o : onboarder) : CM (option goerror) :=
  let configPath := path_join [o_repoConfigsDir o; o_repoName o; "config.json"] in
  let! failed := writeRepoLocalConfig o configPath in
  match failed with
  | Some err => ret (Some err)
  | None => syncSharedConfig o configPath
  end.

(** ** Caller bindings *)

(** Some lock is held, or none because the directory is unusable. *)
Fixpoint bindings_loop (fuel : nat) (deadline : Z) (lockDir : string) : CM (result goerror bool) :=
  match fuel with
  | O => diverge
  | S fuel' =>
      let! made := Mkdir lockDir in
      match made with
      | None => ret (Ok true)
      | Some err =>
          if negb (errors_is err ErrExist) then ret (Ok false)
          else
            let! _ := reapStaleLockDir mtime lockDir bindingsLockStaleAge in
            let! now := Now in
            if (deadline <? now)%Z
            then ret (Err (ErrNew ("caller bindings lock " +:+ lockDir +:+ " held for over 5s; remove it if no onboard is running")))
            else let! _ := Sleep bindingsLockPoll in bindings_loop fuel' deadline lockDir
      end
  end.
Definition bindings_lock (path : string) : string := path +:+ ".lock".
Definition acquireBindingsLock (path : string) : CM (result goerror bool) :=
  let! made := MkdirAll (path_dir path) in
  match made with
  | Some _ => ret (Ok false)
  | None =>
      let! now := Now in
      bindings_loop (poll_fuel bindingsLockWait bindingsLockPoll) (now + bindingsLockWait) (bindings_lock path)
  end.
Definition unlockBindings (path : string) (locked : bool) : CM unit :=
  if locked then let! _ := RemoveEntry (bindings_lock path) in ret tt else ret tt.

(** [loadCallerBindings]; a nil map is [None]. *)
Definition loadCallerBindings (path : string) : CM (result goerror (option (gmap string json))) :=
  let! read := ReadFile path in
  match read with
  | Err err =>
      if errors_is err ErrNotExist then ret (Ok (Some ∅))
      else ret (Err (ErrWrap ("reading " +:+ path +:+ ": ") err ""))
  | Ok content =>
      if String.eqb (trim_space content) "" then ret (Ok (Some ∅))
      else match json_parse content ≫= dec_any_map with
      | Some document => ret (Ok document)
      | None => ret (Err (ErrWrap ("parsing " +:+ path +:+ ": ") (ErrNew (json_error_text content)) ""))
      end
  end.

Definition writeCallerBindings (path : string) (document : gmap string json) : CM (option goerror) :=
  let! made := MkdirAll (path_dir path) in
  match made with
  | Some err => ret (Some (ErrWrap "creating caller bindings directory: " err ""))
  | None =>
      let! written := WriteFile path (MarshalIndent (obj_of document) +:+ newline_text) in
      ret ((λ err, ErrWrap ("writing " +:+ path +:+ ": ") err "") <$> written)
  end.

(** The read-modify-write cycle; the callers of a nil document cannot be created. *)
Definition bind_cycle (path callerCN repoName : string) : CM (result goerror bool) :=
  let! loaded := loadCallerBindings path in
  match loaded with
  | Err err => ret (Err err)
  | Ok None => panic "assignment to entry in nil map"
  | Ok (Some document) =>
      if containsString (callerRepoList (callerBindingsSection document) callerCN) repoName then ret (Ok false)
      else
        let! failed := writeCallerBindings path (bound_document document callerCN repoName) in
        ret (match failed with Some err => Err err | None => Ok true end)
  end.
Definition ensureCallerBinding (path callerCN repoName : string) : CM (result goerror bool) :=
  let! lock := acquireBindingsLock path in
  match lock with
  | Err err => ret (Err err)
  | Ok locked => with_deferred (bind_cycle path callerCN repoName) (unlockBindings path locked) (λ r _, r)
  end.

Definition authorizeCaller (o : onboarder) : CM (option goerror) :=
  if o_localHTTP o then ret None
  else if String.eqb (o_callerCN o) "" then ret (Some (ErrNew "client certificate identity is empty"))
  else
    let! bound := ensureCallerBinding (onboardCallerBindingsPath (o_configsDir o)) (o_callerCN o) (o_repoName o) in
    ret (match bound with Ok _ => None | Err err => Some err end).

(** ** The daemon *)

Definition registrationFunctions (o : onboarder) : gmap string bool :=
  match o_selectedFunctions o with Some selected => selected | None => enabledFitnessFunctions end.
Definition json_registerRequestBody (o : onboarder) : json :=
  JObj ([("repo", JStr (o_repoName o))]
    ++ (if String.eqb (o_enforcement o) "" then [] else [("enforcement-mode", JStr (o_enforcement o))])
    ++ [("fitness-functions", obj_of (JBool <$> registrationFunctions o))]).

(** The status line of a response is its code here. *)
Definition handleRegisterResponse (o : onboarder) (reply : http_reply) : option goerror :=
  if (rp_StatusCode reply =? 200)%Z || (rp_StatusCode reply =? 201)%Z then None
  else if (rp_StatusCode reply =? 409)%Z
  then Some (ErrNew ("repository " +:+ quote (o_repoName o) +:+ " is already registered with a different configuration at "
              +:+ o_addr o +:+ "; an admin CN is required to change it: " +:+ trim_space (rp_Body reply)))
  else Some (ErrNew ("POST " +:+ o_addr o +:+ "/register: unexpected status " +:+ itoa (rp_StatusCode reply) +:+ ": "
              +:+ trim_space (rp_Body reply))).

Definition registerRemote (o : onboarder) : CM (option goerror) :=
  let body := Marshal (json_registerRequestBody o) in
  let url := daemonURL (o_addr o) "/register" in
  let failed err := ErrWrap ("POST " +:+ o_addr o +:+ "/register: ") err "" in
  match url_Parse url with
  | None => ret (Some (failed (bad_url url)))
  | Some _ =>
      let! response := Do network (mkSent (o_httpClient o) "POST" url body) in
      ret (match response with
           | Err err => Some (failed err)
           | Ok reply => handleRegisterResponse o reply
           end)
  end.

Definition isHealthy (httpClient : http_client) (addr : string) : CM bool :=
  let! probed := probeDaemon network httpClient addr in
  ret (match probed with None => true | Some _ => false end).

Definition startDaemon (o : onboarder) : CM (option goerror) :=
  let! configured := configureClientTLSMaterial (o_httpClient o) (o_tlsMaterial o) in
  match configured with
  | Err err => ret (Some err)
  | Ok httpClient =>
      if negb (tm_managed (o_tlsMode o)) then
        let! healthy := isHealthy httpClient (o_addr o) in
        ret (if healthy : bool then None
             else Some (ErrNew ("external TLS daemon at " +:+ o_addr o
                          +:+ " became unavailable during onboarding; it will not be auto-started")))
      else
        ensureCurrentDaemonReporting getenv git network starter dial mtime getwd build httpClient (o_addr o)
          (daemonStartConfigFromMaterial getenv (o_addr o) (o_tlsMaterial o)) (Some (λ _, ret tt))
  end.

Definition preflightAcknowledged (o : onboarder) (httpClient : http_client) : CM (preflightReport * bool) :=
  let url := daemonURL (o_addr o) ("/preflight?repo=" +:+ o_repoName o) in
  match url_Parse url with
  | None => ret (zero_preflight, false)
  | Some _ =>
      let! response := Do network (mkSent httpClient "GET" url "") in
      ret (match response with
           | Err _ => (zero_preflight, false)
           | Ok reply =>
               if negb (rp_StatusCode reply =? 200)%Z then (zero_preflight, false)
               else match decode_first dec_preflight zero_preflight (rp_Body reply) with
                    | None => (zero_preflight, false)
                    | Some report => (report, acknowledged report)
                    end
           end)
  end.

Definition show_bool (b : bool) : string := if b then "true" else "false".
Definition unacknowledged (o : onboarder) (report : preflightReport) : goerror :=
  ErrNew ("daemon at " +:+ o_addr o +:+ " did not acknowledge " +:+ quote (o_repoName o)
    +:+ " within 5s (configured=" +:+ show_bool (pr_RepoConfigured report)
    +:+ " valid=" +:+ show_bool (pr_RepoConfigValid report)
    +:+ " authorized=" +:+ show_bool (pr_CallerAuthorized report) +:+ ")"
    +:+ (if String.eqb (pr_RepoConfigError report) "" then "" else "; config rejected: " +:+ pr_RepoConfigError report)
    +:+ "; check the governance configs dir it serves").
Fixpoint registration_loop (fuel : nat) (deadline : Z) (o : onboarder) (httpClient : http_client) : CM (option goerror) :=
  match fuel with
  | O => diverge
  | S fuel' =>
      let! answer := preflightAcknowledged o httpClient in
      let '(report, ok) := answer in
      if (ok : bool) then ret None
      else
        let! now := Now in
        if (deadline <? now)%Z then ret (Some (unacknowledged o report))
        else let! _ := Sleep registrationPoll in registration_loop fuel' deadline o httpClient
  end.
Definition awaitRegistration (o : onboarder) : CM (option goerror) :=
  if negb (tm_managed (o_tlsMode o)) then ret None
  else
    let! configured := configureClientTLSMaterial (o_httpClient o) (o_tlsMaterial o) in
    match configured with
    | Err err => ret (Some err)
    | Ok httpClient =>
        let! now := Now in
        registration_loop (poll_fuel registrationWait registrationPoll) (now + registrationWait) o httpClient
    end.
End onboard.
