(* ===== verification/OnboardProofs.v ===== *)
(** * Correctness of onboarding

    The caller bindings: what [ensureCallerBinding] adds to the policy of the daemon
    and what it leaves as it is.  The configuration files: the tracked file is the
    repository's, the shared one a copy of it that the daemon accepts.  The wait for
    the daemon's acknowledgement. *)

From stdpp Require Import base gmap strings list fin_maps.
From Stdlib Require Import ZArith Lia Ascii.
From S2P Require Import Prelude GoStrings GoErrors GoFloat GoJson GoJsonPrint RepoName GovConfig GoNet Auth GoOS Hooks HooksText HooksProofs HooksSettings ConfigStore Server Scaffold ScaffoldProofs Client Restart RestartProofs Wizard Onboard.
Set Default Goal Selector "!".

(** ** Bindings as a document *)

(** The document of bindings, in the layout that the command writes. *)
Definition bindings_document (d : callerRepoDocument) : gmap string json :=
  let admins := match bind_Admins d with Some l => {["admins" := json_strings l]} | None => ∅ end in
  match bind_Callers d with Some m => <["callers" := obj_of (json_strings <$> m)]> admins | None => admins end.
(** The bindings with one more repository of a caller. *)
Definition with_binding (d : callerRepoDocument) (cn repo : string) : callerRepoDocument :=
  let callers := default ∅ (bind_Callers d) in
  mkBindings (Some (<[cn := default [] (callers !! cn) ++ [repo]]> callers)) (bind_Admins d).
Definition ascii_bindings (d : callerRepoDocument) : Prop :=
  (∀ cn repos, default ∅ (bind_Callers d) !! cn = Some repos → ascii_text cn = true ∧ forallb ascii_text repos = true) ∧
  forallb ascii_text (default [] (bind_Admins d)) = true.

Lemma section_bindings d : callerBindingsSection (bindings_document d) = json_strings <$> default ∅ (bind_Callers d).
Proof.
  unfold callerBindingsSection, bindings_document. destruct (bind_Callers d) as [m|]; cbn [default from_option id].
  - rewrite lookup_insert_eq. destruct (obj_of_object (json_strings <$> m)) as (fs & Hfs & _). rewrite Hfs, <-Hfs. apply members_obj_of.
  - rewrite fmap_empty. destruct (bind_Admins d); [|by rewrite lookup_empty]. by rewrite lookup_singleton_ne.
Qed.
Lemma repos_bindings (m : gmap string (list string)) cn : callerRepoList (json_strings <$> m) cn = default [] (m !! cn).
Proof.
  unfold callerRepoList. rewrite lookup_fmap. destruct (m !! cn) as [l|]; [|done]. cbn.
  induction l as [|s l IH]; [done|]. cbn. by rewrite IH.
Qed.
Lemma bound_bindings d cn repo : bound_document (bindings_document d) cn repo = bindings_document (with_binding d cn repo).
Proof.
  unfold bound_document. rewrite section_bindings, repos_bindings, <-fmap_insert.
  unfold with_binding, bindings_document at 2. cbn [bind_Callers bind_Admins]. unfold bindings_document.
  destruct (bind_Callers d); [by rewrite insert_insert_eq|done].
Qed.

Section documents.
Context {N : JsonNumberText}.

Lemma good_strings l : forallb ascii_text l = true → good (json_strings l).
Proof.
  intros H. apply good_arr, Forall_fmap, Forall_forall. intros s Hs. rewrite forallb_forall in H. apply list_elem_of_In, H in Hs.
  by split.
Qed.
Lemma valid_bindings d : ascii_bindings d → valid (bindings_document d).
Proof.
  intros [Hc Ha]. assert (valid match bind_Admins d with Some l => {["admins" := json_strings l]} | None => ∅ end) as H.
  { destruct (bind_Admins d); [|apply valid_empty]. apply valid_insert; [done|by apply good_strings|apply valid_empty]. }
  unfold bindings_document. destruct (bind_Callers d) as [m|]; [|done]. apply valid_insert; [done| |done].
  apply good_obj. intros cn j. rewrite lookup_fmap. destruct (m !! cn) as [repos|] eqn:Hm; [|done]. intros [= <-].
  destruct (Hc cn repos Hm). split; [done|by apply good_strings].
Qed.
Lemma ascii_with_binding d cn repo : ascii_bindings d → ascii_text cn = true → ascii_text repo = true → ascii_bindings (with_binding d cn repo).
Proof.
  intros [Hc Ha] Hcn Hr. split; [|done]. intros k repos. cbn [with_binding bind_Callers default from_option id].
  destruct (decide (cn = k)) as [<-|]; [|rewrite lookup_insert_ne by done; apply Hc]. rewrite lookup_insert_eq. intros [= <-].
  split; [done|]. rewrite forallb_app. cbn. rewrite Hr. destruct (_ !! cn) as [l|] eqn:Hl; [|done]. cbn. by rewrite (proj2 (Hc cn l Hl)).
Qed.

(** The server reads such a document as the bindings it stands for. *)
Lemma dec_bindings d : dec_callerRepoDocument (obj_of (bindings_document d)) (mkBindings None None) = Some d.
Proof.
  pose proof (λ m : gmap string (list string), dec_map_obj_of [] dec_repos json_strings m) as Hm.
  assert (∀ l, dec_repos (json_strings l) [] = Some l) as Hl by (intros l; unfold dec_repos; by rewrite dec_excludes).
  destruct d as [[m|] [l|]]; unfold bindings_document; cbn [bind_Callers bind_Admins].
  - assert (∀ x y, obj_of (<["callers" := x]> {["admins" := y]}) = JObj [("admins", y); ("callers", x)]) as -> by reflexivity.
    cbn -[dec_list dec_map json_strings]. rewrite dec_excludes. cbn -[dec_list dec_map json_strings]. by rewrite Hm.
  - assert (∀ x, obj_of (<["callers" := x]> ∅) = JObj [("callers", x)]) as -> by reflexivity.
    cbn -[dec_list dec_map json_strings]. by rewrite Hm.
  - assert (∀ y, obj_of {["admins" := y]} = JObj [("admins", y)]) as -> by reflexivity.
    cbn -[dec_list dec_map json_strings]. by rewrite dec_excludes.
  - reflexivity.
Qed.
End documents.

(** ** The policy after a binding *)

Section policy.
Context {U : UnicodeTables} {O : GoMapOrder} {OL : GoMapOrderLaws O} {J : JsonErrorText} {N : JsonNumberText}.

Lemma with_binding_grants d cn repo c r : normalizeCallerName cn = Ok cn → validateRepoName repo = Ok repo →
  grants (with_binding d cn repo) c r ↔ grants d c r ∨ c = cn ∧ r = repo.
Proof using.
  clear OL. intros Hcn Hrepo. unfold grants, with_binding. cbn [bind_Callers default from_option id]. split.
  - intros (raw & repos & rawRepo & Hl & Hn & Hin & Hv). destruct (decide (cn = raw)) as [<-|Hne].
    + rewrite lookup_insert_eq in Hl. injection Hl as <-. assert (c = cn) as -> by congruence.
      apply elem_of_app in Hin as [Hin|Hin%list_elem_of_singleton].
      * left. destruct (_ !! cn) as [l|] eqn:Hl; [|by apply not_elem_of_nil in Hin]. by exists cn, l, rawRepo.
      * subst rawRepo. right. split; [done|congruence].
    + rewrite lookup_insert_ne in Hl by done. left. by exists raw, repos, rawRepo.
  - intros [(raw & repos & rawRepo & Hl & Hn & Hin & Hv)|[-> ->]].
    + destruct (decide (cn = raw)) as [<-|Hne].
      * eexists cn, _, rawRepo. rewrite lookup_insert_eq. split; [done|]. rewrite Hl. split_and!; [done| |done]. apply elem_of_app. by left.
      * exists raw, repos, rawRepo. by rewrite lookup_insert_ne.
    + eexists cn, _, repo. rewrite lookup_insert_eq. split; [done|]. split_and!; [done| |done]. apply elem_of_app. right. by left.
Qed.
Lemma with_binding_valid d cn repo : normalizeCallerName cn = Ok cn → validateRepoName repo = Ok repo →
  bindings_valid d → bindings_valid (with_binding d cn repo).
Proof using.
  clear OL. intros Hcn Hrepo [Hc Ha]. split; [|done]. intros raw repos. cbn [with_binding bind_Callers default from_option id].
  destruct (decide (cn = raw)) as [<-|Hne]; [|rewrite lookup_insert_ne by done; apply Hc].
  rewrite lookup_insert_eq, Hcn. intros [= <-]. split; [done|]. apply Forall_app. split; [|apply Forall_singleton; by rewrite Hrepo].
  destruct (_ !! cn) as [l|] eqn:Hl; [|constructor]. by apply (Hc cn l Hl).
Qed.

Lemma parse_bindings d ws : ascii_bindings d → is_Some (bind_Callers d) → forallb is_json_space (bytes ws) = true →
  parseCallerRepoPolicy (MarshalIndent (obj_of (bindings_document d)) +:+ ws) = buildCallerRepoPolicy d.
Proof using.
  clear OL. intros Ha [m Hm] Hws. unfold parseCallerRepoPolicy, unmarshal. rewrite json_print_parse_space; [|by apply good_plain, good_obj, valid_bindings|done].
  by rewrite dec_bindings, Hm.
Qed.

(** The policy that a daemon reads after the binding. *)
Definition adds_binding (P0 P1 : CallerRepoPolicy) (cn repo : string) : Prop :=
  (∀ c r, Allows P1 c r = true ↔ Allows P0 c r = true ∨ c = cn ∧ r = repo) ∧ (∀ c, IsAdmin P1 c = IsAdmin P0 c).
Lemma binding_added d cn repo P0 : normalizeCallerName cn = Ok cn → validateRepoName repo = Ok repo →
  buildCallerRepoPolicy d = Ok P0 → ∃ P1, buildCallerRepoPolicy (with_binding d cn repo) = Ok P1 ∧ adds_binding P0 P1 cn repo.
Proof using OL.
  intros Hcn Hrepo HP. pose proof (buildCallerRepoPolicy_spec d) as H0. pose proof (buildCallerRepoPolicy_spec (with_binding d cn repo)) as H1.
  rewrite HP in H0. destruct H0 as (Hv & Ha0 & Hi0). destruct (buildCallerRepoPolicy (with_binding d cn repo)) as [P1|e].
  2:{ destruct H1 as [H1 _]. by destruct H1; apply with_binding_valid. }
  destruct H1 as (_ & Ha1 & Hi1). exists P1. split; [done|]. split.
  - intros c r. by rewrite Ha1, Ha0, with_binding_grants.
  - intros c. apply eq_true_iff_eq. by rewrite Hi1, Hi0.
Qed.
Lemma binding_present d cn repo P0 : normalizeCallerName cn = Ok cn → validateRepoName repo = Ok repo →
  buildCallerRepoPolicy d = Ok P0 → containsString (default [] (default ∅ (bind_Callers d) !! cn)) repo = true → Allows P0 cn repo = true.
Proof using OL.
  intros Hcn Hrepo HP Hin. pose proof (buildCallerRepoPolicy_spec d) as H0. rewrite HP in H0. destruct H0 as (_ & Ha & _). apply Ha.
  apply existsb_exists in Hin as (x & Hx%list_elem_of_In & <-%String.eqb_eq).
  destruct (_ !! cn) as [l|] eqn:Hl; [|by apply not_elem_of_nil in Hx]. by exists cn, l, repo.
Qed.
End policy.

(** ** The run under the lock *)

Section bindings.
Context {E : OSEnv} {SL : Sleeper} {SLaws : SleeperLaws E SL} {HF : HonestFaults E} {U : UnicodeTables} {O : GoMapOrder}
  {OL : GoMapOrderLaws O} {J : JsonErrorText} {N : JsonNumberText} {P : URLPackage} {T : TLSWorld}.
Context (mtime : string → nat → Z).
Abbreviation CM := (M client_state).
Abbreviation CW := (world client_state).

(** The bindings that a file holds: none when it is missing or blank. *)
Definition bindings_at (files : gmap string string) (path : string) (d : callerRepoDocument) : Prop :=
  match files !! path with
  | None => bindings_document d = ∅
  | Some content =>
      if String.eqb (trim_space content) "" then bindings_document d = ∅
      else json_parse content ≫= dec_any_map = Some (Some (bindings_document d))
  end.

Lemma bindings_written files path d : ascii_bindings d →
  files !! path = Some (MarshalIndent (obj_of (bindings_document d)) +:+ newline_text) → bindings_at files path d.
Proof using.
  clear. intros Ha Hf. destruct (holds_written files path (bindings_document d)) as (content & Hc & Ht & Hp); [by apply valid_bindings|exact Hf|].
  unfold bindings_at. rewrite Hc. apply String.eqb_neq in Ht. by rewrite Ht.
Qed.

(** Only the entry at a path changes. *)
Definition only (path : string) : relation CW := λ w w', ∀ p, p ≠ path → w_files w' !! p = w_files w !! p.
#[local] Instance only_preorder path : PreOrder (only path).
Proof. split; [by intros w p|]. intros w1 w2 w3 H1 H2 p Hp. by rewrite H2, H1. Qed.
Lemma only_os_op {A} path op target (failed : goerror → CW → A * CW) effect :
  (∀ e w, only path w (failed e w).2) → (∀ w, only path w (effect w).2) → transits (only path) (os_op op target failed effect).
Proof using.
  clear. intros Hf He w. unfold os_op. destruct (os_fault _ _ _) as [e|]; [specialize (Hf e w)|specialize (He w)].
  - by destruct (failed e w).
  - by destruct (effect w).
Qed.
Lemma only_MkdirAll path target : transits (only path) (MkdirAll target).
Proof using. clear. by apply only_os_op. Qed.
Lemma only_Mkdir path target : transits (only path) (Mkdir target).
Proof using. clear. apply only_os_op; [done|]. intros w. by case_decide. Qed.
Lemma only_Stat path target : transits (only path) (Stat target).
Proof using. clear. by apply only_os_op. Qed.
Lemma only_RemoveEntry path : transits (only path) (RemoveEntry path).
Proof using.
  clear. apply only_os_op; [done|]. intros w. destruct (_ !! _); [|by repeat case_decide].
  intros p Hp. cbn. by rewrite lookup_delete_ne.
Qed.
Lemma only_same {A} path (m : CM A) : (∀ w, w_files (m w).2 = w_files w) → transits (only path) m.
Proof using. clear. intros H w p _. by rewrite H. Qed.
Lemma only_reap lockDir maxAge : transits (only lockDir) (reapStaleLockDir mtime lockDir maxAge).
Proof using.
  apply transits_bind; [apply _|apply only_Stat|]. intros [dir|e]; [|by apply only_same].
  apply transits_bind; [apply _|by apply only_same|]. intros modified. apply transits_bind; [apply _|by apply only_same|]. intros now.
  destruct (_ <? _)%Z; [by apply only_same|]. apply transits_bind; [apply _|apply only_RemoveEntry|]. intros e. by apply only_same.
Qed.
Lemma only_lock path : transits (only (bindings_lock path)) (acquireBindingsLock mtime path).
Proof using.
  apply transits_bind; [apply _|apply only_MkdirAll|]. intros [e|]; [by apply only_same|].
  apply transits_bind; [apply _|by apply only_same|]. intros now.
  generalize (poll_fuel bindingsLockWait bindingsLockPoll) as fuel. induction fuel as [|fuel IH]; [by apply only_same|]. cbn [bindings_loop].
  apply transits_bind; [apply _|apply only_Mkdir|]. intros [e|]; [|by apply only_same]. destruct (negb _); [by apply only_same|].
  apply transits_bind; [apply _|apply only_reap|]. intros []. apply transits_bind; [apply _|by apply only_same|]. intros now'.
  destruct (_ <? _)%Z; [by apply only_same|]. apply transits_bind; [apply _|by apply only_same|]. by intros [].
Qed.
Lemma only_unlock path locked : transits (only (bindings_lock path)) (unlockBindings path locked).
Proof using.
  clear. destruct locked; [|by apply only_same]. apply transits_bind; [apply _|apply only_RemoveEntry|]. intros e. by apply only_same.
Qed.
Lemma lock_apart path : path ≠ bindings_lock path.
Proof using.
  clear. intros H. apply (f_equal (λ s, length (bytes s))) in H. unfold bindings_lock in H. rewrite bytes_app, length_app in H. cbn in H. lia.
Qed.

(** *** What the cycle does *)

Lemma load_bindings path d w : bindings_at (w_files w) path d → ∃ r, loadCallerBindings path w = (Returned r, tick w) ∧
  (r = Ok (Some (bindings_document d)) ∨ ∃ err, r = Err err).
Proof using HF.
  intros Hd. unfold loadCallerBindings, bind, ReadFile, os_op, bindings_at in *. destruct (os_fault _ _ _) as [e|] eqn:He.
  - rewrite (honest _ _ _ _ He). cbn. eauto.
  - destruct (w_files w !! path) as [content|].
    + destruct (String.eqb _ _); [rewrite <-Hd; eauto|]. rewrite Hd. eauto.
    + change (errors_is (not_exist "open" path) ErrNotExist) with true. cbn iota. rewrite <-Hd. eauto.
Qed.

(** What the file holds after the cycle: by its result. *)
Definition cycle_result (path cn repo : string) (d : callerRepoDocument) (w : CW) (r : result goerror bool) (w' : CW) : Prop :=
  match r with
  | Ok false => w_files w' = w_files w ∧ containsString (default [] (default ∅ (bind_Callers d) !! cn)) repo = true
  | Ok true => w_files w' = <[path := MarshalIndent (obj_of (bindings_document (with_binding d cn repo))) +:+ newline_text]> (w_files w)
  | Err _ => only path w w'
  end.
Lemma cycle_ends path cn repo d w : bindings_at (w_files w) path d →
  ∃ r w', bind_cycle path cn repo w = (Returned r, w') ∧ w_clock w ≤ w_clock w' ∧ cycle_result path cn repo d w r w'.
Proof using HF.
  intros Hd. destruct (load_bindings path d w Hd) as (r & Hload & Hr). unfold bind_cycle. unfold bind at 1. rewrite Hload.
  destruct Hr as [->|[err ->]]; [|eexists _, _; split; [done|]; split; [cbn; lia|by intros p _]].
  rewrite section_bindings, repos_bindings. destruct (containsString _ _) eqn:Hin.
  { eexists _, _. split; [done|]. split; [cbn; lia|done]. }
  rewrite bound_bindings. unfold writeCallerBindings, bind, MkdirAll, WriteFile, Write, os_op.
  destruct (os_fault (w_clock (tick w)) _ _) as [e|]; [eexists _, _; split; [done|]; split; [cbn; lia|by intros p _]|].
  destruct (os_fault _ "write" _) as [e|]; eexists _, _; (split; [done|]); (split; [cbn; lia|]); [|done].
  intros p Hp. cbn. by rewrite lookup_insert_ne.
Qed.

Lemma settles_bindings_loop fuel deadline lockDir w : enough fuel bindingsLockPoll deadline w →
  settles_at (bindings_loop mtime fuel deadline lockDir) w.
Proof using SLaws.
  revert w. induction fuel as [|fuel IH]; intros w He; [by destruct He|]. cbn [bindings_loop].
  apply settles_at_bind; [apply settles_Mkdir|]. intros [err|] w1 _ H1; [|apply settles_ret].
  destruct (negb _); [apply settles_ret|]. apply settles_at_bind; [apply settles_reap|]. intros [] w2 _ H2. apply settles_now. intros w3 H3.
  destruct (Z.ltb_spec deadline (os_now (w_clock w2))) as [|Hge]; [apply settles_ret|].
  apply settles_sleep. intros w4 _ H4. apply IH. eapply (enough_next fuel _ deadline w w3); [done|done| |lia|done].
  pose proof (now_mono (w_clock w) (w_clock w2)). lia.
Qed.
Lemma settles_lock path : settles (acquireBindingsLock mtime path).
Proof using SLaws.
  apply settles_bind; [apply settles_MkdirAll|]. intros [err|]; [apply settles_ret|]. intros w.
  apply settles_now. intros w' Hle. by apply settles_bindings_loop, enough_start.
Qed.
Lemma settles_unlock path locked : settles (unlockBindings path locked).
Proof using. clear. destruct locked; [|apply settles_ret]. apply settles_bind; [apply settles_RemoveEntry|]. intros e. apply settles_ret. Qed.

(** C14: onboarding grants one binding and nothing else.  For a caller name and a
    repository name in normal form and a bindings file that is missing, blank, or in
    the nested layout that the command itself writes, with ASCII names (a file in the
    flat layout, or one that holds null, is not covered), the call returns, however long
    others hold the lock and whatever fails; no other file than the bindings and its
    lock changes.  If it reports no change, the file is as it was and the policy of
    its bindings already allows the caller; if it reports one, the daemon accepts the
    new file, and the policy it reads allows exactly what the old bindings allowed
    and the new pair, with the same administrators. *)
Theorem ensureCallerBinding_grants (path cn repo : string) (d : callerRepoDocument) (P0 : CallerRepoPolicy) (w : CW)
    (Hd : bindings_at (w_files w) path d) (Hascii : ascii_bindings d) (Hacn : ascii_text cn = true) (Harepo : ascii_text repo = true)
    (Hcn : normalizeCallerName cn = Ok cn) (Hrepo : validateRepoName repo = Ok repo) (HP : buildCallerRepoPolicy d = Ok P0) :
  ∃ r w', ensureCallerBinding mtime path cn repo w = (Returned r, w') ∧
    (∀ p, p ≠ path → p ≠ bindings_lock path → w_files w' !! p = w_files w !! p) ∧
    match r with
    | Ok false => w_files w' !! path = w_files w !! path ∧ Allows P0 cn repo = true
    | Ok true => ∃ content P1, w_files w' !! path = Some content ∧ parseCallerRepoPolicy content = Ok P1 ∧ adds_binding P0 P1 cn repo
    | Err _ => True
    end.
Proof using HF SLaws OL.
  pose proof (lock_apart path) as Hne. pose proof (only_lock path w) as Hl. destruct (settles_lock path w) as (r1 & w1 & H1 & _).
  unfold ensureCallerBinding. unfold bind at 1. rewrite H1 in *. cbn [snd] in Hl. destruct r1 as [locked|err].
  2:{ eexists _, _. split; [done|]. split; [|done]. intros p _ Hp. by apply Hl. }
  destruct (cycle_ends path cn repo d w1) as (r & w2 & H2 & _ & Hr).
  { unfold bindings_at in *. by rewrite (Hl path Hne). }
  destruct (settles_unlock path locked w2) as ([] & w3 & H3 & _). pose proof (only_unlock path locked w2) as Hu. rewrite H3 in Hu. cbn [snd] in Hu.
  exists r, w3. unfold with_deferred. rewrite H2, H3. split; [done|].
  assert (only path w1 w2) as Hpath.
  { destruct r as [[]|]; cbn [cycle_result] in Hr; [intros p Hp; by rewrite Hr, lookup_insert_ne|destruct Hr as [Hr _]; intros p _; by rewrite Hr|done]. }
  split; [intros p Hp Hp'; by rewrite (Hu p Hp'), (Hpath p Hp), (Hl p Hp')|].
  destruct r as [[]|err]; [| |done]; cbn [cycle_result] in Hr.
  - destruct (binding_added d cn repo P0 Hcn Hrepo HP) as (P1 & HP1 & Hadd). eexists _, P1. rewrite (Hu path Hne), Hr, lookup_insert_eq.
    split; [reflexivity|]. split; [|done]. refine (eq_trans _ HP1). apply parse_bindings; [by apply ascii_with_binding|by eexists|done].
  - destruct Hr as [Hr Hin]. rewrite (Hu path Hne), Hr, (Hl path Hne). split; [done|]. by eapply binding_present.
Qed.
End bindings.

(** ** The configuration files *)

Section configuration.
Context {E : OSEnv} {SL : Sleeper} {R : RegexpEngine} {MO : GoMapOrder} {U : UnicodeTables} {J : JsonErrorText}
        {N : JsonNumberText} {P : URLPackage} {T : TLSWorld}.
Abbreviation CM := (M client_state).
Abbreviation CW := (world client_state).

Definition local_config (o : onboarder) : string := path_join [o_repoConfigsDir o; o_repoName o; "config.json"].
Definition shared_config (o : onboarder) : string := path_join [o_configsDir o; o_repoName o; "config.json"].
(** The document that the run writes over an existing file. *)
Definition rendered (o : onboarder) (extras : configExtras) : result goerror string :=
  renderGovernanceConfig (o_enforcement o) (o_selectedFunctions o) (scaffoldLayers (o_selectedFunctions o) (o_layers o)) extras.

(** A file that is written in place holds the content or, when the write fails, a
    part of it. *)
Definition part_of (content : string) (file : option string) : Prop := ∃ n, file = Some (str_take n content).

Lemma write_ends (path content : string) (w : CW) : ∃ r w', WriteFile path content w = (Returned r, w') ∧ only path w w' ∧
  (r = None → w_files w' !! path = Some content) ∧ part_of content (w_files w' !! path).
Proof using.
  clear. unfold WriteFile, Write, os_op. destruct (os_fault _ _ _) as [e|]; eexists _, _; (split; [done|]); cbn; rewrite lookup_insert_eq.
  - split; [intros p Hp; cbn; by rewrite lookup_insert_ne|]. split; [done|by eexists].
  - split; [intros p Hp; cbn; by rewrite lookup_insert_ne|]. split; [done|].
    exists (length (bytes content)). unfold str_take. by rewrite firstn_all, of_bytes_bytes.
Qed.

(** How a rendering or a copy ends: the file is untouched, or it has been written. *)
Definition written (path : string) (made : string → Prop) (w : CW) (r : option goerror) (w' : CW) : Prop :=
  only path w w' ∧
  ((r ≠ None ∧ w_files w' !! path = w_files w !! path) ∨
   ∃ content, made content ∧ part_of content (w_files w' !! path) ∧ (r = None → w_files w' !! path = Some content)).

Lemma placed (path content dir : string) (f g : goerror → goerror) (made : string → Prop) (w : CW) : made content →
  ∃ r w', (let! failed := MkdirAll dir in
           match failed with
           | Some err => ret (Some (f err))
           | None => let! failed := WriteFile path content in ret (g <$> failed)
           end) w = (Returned r, w') ∧ written path made w r w'.
Proof using.
  clear. intros Hmade. unfold bind at 1, MkdirAll, os_op. destruct (os_fault _ _ _) as [e|].
  { eexists _, _. split; [done|]. split; [by intros p|]. by left. }
  cbn [snd]. destruct (write_ends path content (tick (set_dirs ({[dir]} ∪ w_dirs w) w))) as (r & w' & Hw & Ho & Hok & Hpart).
  unfold bind at 1. rewrite Hw. eexists _, _. split; [done|]. split; [exact Ho|]. right. exists content. split; [done|]. split; [done|].
  destruct r; [done|]. intros _. by apply Hok.
Qed.
Lemma scaffold_ends (o : onboarder) path extras (w : CW) :
  ∃ r w', writeScaffoldConfig o path extras w = (Returned r, w') ∧ written path (λ c, rendered o extras = Ok c) w r w'.
Proof using.
  unfold writeScaffoldConfig. fold (rendered o extras). destruct (rendered o extras) as [content|err] eqn:Hc; [by apply placed|].
  eexists _, _. split; [done|]. split; [by intros p|]. by left.
Qed.

Lemma sync_ends (o : onboarder) path (w : CW) :
  ∃ r w', syncSharedConfig o path w = (Returned r, w') ∧
    written (shared_config o) (λ c, w_files w !! path = Some c ∧ Validate c = None) w r w'.
Proof using.
  unfold syncSharedConfig. unfold bind at 1, ReadFile, os_op. destruct (os_fault _ _ _) as [e|].
  { eexists _, _. split; [done|]. split; [by intros p|]. by left. }
  destruct (w_files w !! path) as [content|] eqn:Hc; [|eexists _, _; split; [done|]; split; [by intros p|]; by left].
  destruct (Validate content) as [err|] eqn:Hv; [eexists _, _; split; [done|]; split; [by intros p|]; by left|].
  destruct (placed (shared_config o) content (path_dir (shared_config o)) (λ err, ErrWrap "creating shared config directory: " err "")
    (λ err, ErrWrap ("writing " +:+ shared_config o +:+ ": ") err "") (λ c, Some content = Some c ∧ Validate c = None) (tick w))
    as (r & w' & Hr & Hw); [done|]. by exists r, w'.
Qed.

(** Whether the repository's file is there, as far as [os.Stat] tells. *)
Definition present (path : string) (w : CW) : bool :=
  match os_fault (w_clock w) "stat" path with
  | Some _ => false
  | None => bool_decide (path ∉ w_dirs w) && bool_decide (is_Some (w_files w !! path))
  end.
Lemma fileExists_present path (w : CW) : fileExists path w = (Returned (present path w), tick w).
Proof using.
  clear. unfold fileExists, present, bind, Stat, os_op. destruct (os_fault _ _ _); [done|].
  destruct (decide (path ∈ w_dirs w)); [rewrite bool_decide_false by naive_solver; done|]. rewrite bool_decide_true by done.
  destruct (decide (is_Some _)); [by rewrite bool_decide_true|by rewrite bool_decide_false].
Qed.

Lemma extras_read path (w : CW) : ∃ existing, readConfigExtras path w = (Returned (extras_of existing), tick w) ∧
  ∀ c, existing = Ok c → w_files w !! path = Some c.
Proof using.
  unfold readConfigExtras, bind, ReadFile, os_op. destruct (os_fault _ _ _) as [e|]; [by exists (Err e)|].
  destruct (w_files w !! path) as [c|]; [|by eexists]. exists (Ok c). split; [done|]. by intros c' [= <-].
Qed.

(** The tracked file after its step: kept when it is there and the run has no authority
    to rewrite it, else rendered with what is carried on from it. *)
Lemma local_ends (o : onboarder) path (w : CW) : ∃ r w', writeRepoLocalConfig o path w = (Returned r, w') ∧
  (if present path w && negb (o_update o) then w_files w' = w_files w ∧ r = None
   else ∃ existing, (∀ c, existing = Ok c → w_files w !! path = Some c) ∧
          written path (λ c, rendered o (extras_of existing) = Ok c) w r w').
Proof using.
  unfold writeRepoLocalConfig. unfold bind at 1. rewrite fileExists_present. destruct (present path w) eqn:Hp; cbn [negb andb].
  2:{ destruct (scaffold_ends o path no_extras (tick w)) as (r & w' & Hr & Hw). exists r, w'. split; [done|].
      exists (Err (ErrNew "")). split; [done|exact Hw]. }
  destruct (o_update o); cbn [negb]; [|by eexists _, _].
  destruct (extras_read path (tick w)) as (existing & Hread & Hex). unfold bind at 1. rewrite Hread.
  destruct (scaffold_ends o path (extras_of existing) (tick (tick w))) as (r & w' & Hr & Hw). exists r, w'. split; [exact Hr|].
  exists existing. split; [exact Hex|exact Hw].
Qed.

(** C30: the tracked configuration is the repository's, and the daemon is only given what
    it accepts.  The step returns and changes no other file.  A tracked file that is there
    is kept, byte for byte, unless the run may rewrite it.  The shared file is left alone
    or overwritten with a valid configuration, of which a failed write leaves a part.  On
    success both files hold the same valid document, and where the tracked one was written
    it is the rendering of the run's choices with the extras of the file it replaces. *)
Theorem scaffoldConfig_sync (o : onboarder) (w : CW) (Hne : local_config o ≠ shared_config o) :
  ∃ r w', scaffoldConfig o w = (Returned r, w') ∧
    (∀ p, p ≠ local_config o → p ≠ shared_config o → w_files w' !! p = w_files w !! p) ∧
    (present (local_config o) w = true → o_update o = false → w_files w' !! local_config o = w_files w !! local_config o) ∧
    (w_files w' !! shared_config o = w_files w !! shared_config o ∨
     ∃ content, Validate content = None ∧ part_of content (w_files w' !! shared_config o)) ∧
    (r = None → ∃ content, w_files w' !! local_config o = Some content ∧ w_files w' !! shared_config o = Some content ∧
       Validate content = None ∧
       (present (local_config o) w = false ∨ o_update o = true →
        ∃ existing, (∀ c, existing = Ok c → w_files w !! local_config o = Some c) ∧ rendered o (extras_of existing) = Ok content)).
Proof using.
  destruct (local_ends o (local_config o) w) as (r1 & w1 & H1 & Hlocal). unfold scaffoldConfig. fold (local_config o). unfold bind at 1. rewrite H1.
  assert (only (local_config o) w w1) as Ho1.
  { destruct (_ && _); [destruct Hlocal as [Hf _]; intros p _; by rewrite Hf|by destruct Hlocal as (? & _ & [? _])]. }
  assert (present (local_config o) w = true → o_update o = false → w_files w1 !! local_config o = w_files w !! local_config o) as Hkept.
  { intros Hp Hu. rewrite Hp, Hu in Hlocal. cbn in Hlocal. by destruct Hlocal as [-> _]. }
  destruct r1 as [err|].
  { eexists _, _. split; [done|]. split; [intros p Hp _; by apply Ho1|]. split; [done|]. split; [left; by apply Ho1|done]. }
  destruct (sync_ends o (local_config o) w1) as (r & w2 & H2 & Ho2 & Hw2). exists r, w2. split; [done|].
  split; [intros p Hp Hp'; by rewrite (Ho2 p Hp'), (Ho1 p Hp)|]. split; [intros Hp Hu; by rewrite (Ho2 _ Hne), Hkept|].
  destruct Hw2 as [[Hr Hs]|(content & [Hc Hv] & Hpart & Hok)].
  { split; [left; rewrite Hs; by apply Ho1|done]. }
  split; [right; by exists content|]. intros Hr. exists content. rewrite (Ho2 _ Hne), (Hok Hr), Hc. split_and!; [done..|].
  intros Hauth. destruct (present _ w && negb (o_update o)) eqn:Hb.
  { apply andb_true_iff in Hb as [Hb1 Hb2]. by destruct Hauth as [Ha|Ha]; rewrite Ha in *. }
  destruct Hlocal as (existing & Hex & _ & [[? _]|(content' & Hmade & _ & Hok')]); [done|].
  exists existing. split; [done|]. rewrite (Hok' eq_refl) in Hc. by injection Hc as <-.
Qed.
End configuration.

(** ** Registration with a remote daemon *)

Section registration.
Context {R : RegexpEngine} {MO : GoMapOrder} {OL : GoMapOrderLaws MO} {U : UnicodeTables} {UL : UnicodeLaws U} {J : JsonErrorText}
        {N : JsonNumberText} {T : TLSWorld}.

Lemma decode_first_object {A} (d : decoder A) zero content fs : json_parse content = Some (JObj fs) →
  decode_first d zero content = d (JObj fs) zero.
Proof using.
  unfold json_parse, decode_first. destruct (parse_value _ _) as [[v rest]|]; [|done]. case_bool_decide; [|done]. by intros [= ->].
Qed.

(** The functions of a registration: the five, and those that were named. *)
Lemma registration_enabled (o : onboarder) functionsFlag (m : gmap string bool) : resolveSelectedFunctions functionsFlag = Ok (o_selectedFunctions o) →
  (∀ name, m !! name = from_option Some (defaultFitnessFunctions !! name) (registrationFunctions o !! name)) → ∀ name,
  default false (m !! name) = if String.eqb functionsFlag "" then default false (defaultFitnessFunctions !! name)
                              else bool_decide (name ∈ named functionsFlag).
Proof using.
  clear OL. intros Hf Hm name. rewrite Hm. unfold resolveSelectedFunctions, registrationFunctions in *.
  destruct (String.eqb functionsFlag "").
  - injection Hf as <-. destruct (decide (name ∈ fitnessFunctionKeys)) as [Hin|Hout].
    + unfold fitnessFunctionKeys in Hin. repeat (apply elem_of_cons in Hin as [->|Hin]; [reflexivity|]). by apply elem_of_nil in Hin.
    + unfold enabledFitnessFunctions. rewrite set_all_lookup. by rewrite bool_decide_false.
  - destruct (parseFunctionsFlag functionsFlag) as [sel|] eqn:Hp; [|done]. injection Hf as <-.
    apply parseFunctionsFlag_ok in Hp as (H1 & _ & H3). rewrite <-H3. destruct (sel !! name) eqn:Hs; [done|].
    apply catalog_off. intros [? ?]%H1. congruence.
Qed.
Lemma registration_names (o : onboarder) functionsFlag k : resolveSelectedFunctions functionsFlag = Ok (o_selectedFunctions o) →
  is_Some (registrationFunctions o !! k) → is_Some (defaultFitnessFunctions !! k).
Proof using.
  clear OL. intros Hf Hk. apply catalog_member. unfold resolveSelectedFunctions, registrationFunctions in *.
  destruct (String.eqb functionsFlag "").
  - injection Hf as Hf. rewrite <-Hf in Hk. unfold enabledFitnessFunctions in Hk. rewrite set_all_lookup in Hk. case_bool_decide; [|by destruct Hk].
    apply elem_of_app. by left.
  - destruct (parseFunctionsFlag functionsFlag) as [sel|] eqn:Hp; [|done]. injection Hf as Hf. rewrite <-Hf in Hk.
    apply parseFunctionsFlag_ok in Hp as (_ & H2 & _). by apply H2.
Qed.
Lemma pattern_ascii name : repoNamePattern name = true → ascii_text name = true.
Proof using.
  clear. unfold repoNamePattern, ascii_text. destruct (bytes name) as [|a l]; [done|]. rewrite !andb_true_iff. intros [[Ha Hl] _].
  apply forallb_forall. intros b Hb. apply Z.ltb_lt. assert (isLowercaseLetter (byte_val b) = true ∨ name_char (byte_val b) = true) as H.
  { destruct Hb as [<-|Hb]; [by left|right]. rewrite forallb_forall in Hl. by apply Hl. }
  unfold name_char, isLowercaseLetter in H. lia.
Qed.

(** C34: the remote registration of a run without the wizard means the same on both
    sides.  For a repository name, a mode and a [--functions] text, or none, that the
    command accepts, the request that onboarding posts is accepted by the daemon's
    decoder under that very name: the configuration it registers has the mode and
    exactly the functions of the flag or, without it, the default ones, and the document
    that it stores is read back as that configuration.  (Layers, which only the wizard
    asks for, are no part of a registration.) *)
Theorem remote_registration (o : onboarder) (r : http_request) (repoFlag repoRoot functionsFlag mode : string)
    (Hname : resolveOnboardRepoName repoFlag repoRoot = Ok (o_repoName o))
    (Hf : resolveSelectedFunctions functionsFlag = Ok (o_selectedFunctions o))
    (He : validateEnforcement mode = Ok (o_enforcement o))
    (Hbody : r_Body r = Ok (Marshal (json_registerRequestBody o))) :
  ∃ c, decodeRegisterConfig r = Ok (o_repoName o, c) ∧ cfg_EnforcementMode c = mode ∧
    (∀ name, Enabled c name = if String.eqb functionsFlag "" then default false (defaultFitnessFunctions !! name)
                              else bool_decide (name ∈ named functionsFlag)) ∧
    Parse (MarshalIndent (json_Config c) +:+ newline_text) = Ok c.
Proof using OL UL.
  assert (repoNamePattern (o_repoName o) = true) as Hpat.
  { unfold resolveOnboardRepoName in Hname. unfold onboardRepoNamePattern in *. destruct (repoNamePattern _) eqn:Hp; [by injection Hname as <-|].
    by destruct (negb _). }
  unfold validateEnforcement in He. case_bool_decide as Hmode; [|done]. injection He as He.
  pose proof (λ k, registration_names o functionsFlag k Hf) as Hnames.
  assert (plain (obj_of (JBool <$> registrationFunctions o)) = true) as Hpf by (apply plain_obj; intros k Hk; by apply catalog_ascii, Hnames).
  assert (is_ok (NormalizeFitnessFunctions (Some (registrationFunctions o))) = true) as Hok.
  { apply overlay_total, Forall_forall. intros [k b] Hin%elem_of_map_order. apply Hnames. by exists b. }
  destruct (NormalizeFitnessFunctions (Some (registrationFunctions o))) as [m|] eqn:Hm; [|done].
  pose proof Hm as [Hdom Hlook]%NormalizeFitnessFunctions_ok. cbn [default from_option id] in Hlook.
  pose proof (registration_enabled o functionsFlag m Hf Hlook) as Hen.
  set (c := mkConfig mode EnforcementOnErrorBlock (Some m) None None). exists c.
  assert (mode ≠ "" ∧ ascii_text mode = true ∧ mode ∈ [EnforcementBlock; EnforcementAdvisory; EnforcementOff]) as (Hm1 & Hm2 & Hm3).
  { repeat (apply elem_of_cons in Hmode as [->|Hmode]; [split_and!; [done|reflexivity|apply (bool_decide_unpack _); reflexivity]|]).
    by apply elem_of_nil in Hmode. }
  split; [|split; [done|split]].
  - unfold decodeRegisterConfig, decodeRegisterRequest. rewrite Hbody. unfold json_registerRequestBody. rewrite <-He.
    apply String.eqb_neq in Hm1 as Hm1'. rewrite Hm1'.
    erewrite decode_first_object; [|apply json_print_parse; cbn [app plain forallb fst snd]; rewrite Hpf; apply pattern_ascii in Hpat;
      unfold ascii_text in Hpat, Hm2; by rewrite Hpat, Hm2].
    cbn -[dec_map validateRegisterRepoName buildRegisterConfig]. rewrite dec_map_obj. cbn [fmap option_fmap option_map].
    cbn [reg_Repo]. rewrite validateRegisterRepoName_spec, Hpat. unfold buildRegisterConfig. cbn [reg_EnforcementMode reg_FitnessFunctions].
    rewrite Hm1', bool_decide_true by done. cbn [negb]. by rewrite Hm.
  - exact Hen.
  - rewrite (Parse_document mode m Hm3 Hdom). fold c. assert (Enabled c "layer-sovereignty" = false) as ->; [|done].
    etrans; [apply Hen|]. unfold resolveSelectedFunctions in Hf. destruct (String.eqb functionsFlag ""); [done|].
    destruct (parseFunctionsFlag functionsFlag) as [sel|] eqn:Hp; [|done]. apply parseFunctionsFlag_ok in Hp as (_ & H2 & H3).
    rewrite <-H3. destruct (sel !! "layer-sovereignty") eqn:Hs; [|done]. by destruct (H2 "layer-sovereignty" ltac:(eauto)).
Qed.
End registration.

(** ** The acknowledgement *)

Section acknowledgement.
Context {E : OSEnv} {SL : Sleeper} {SLaws : SleeperLaws E SL} {R : RegexpEngine} {U : UnicodeTables} {P : URLPackage} {T : TLSWorld}.
Context (network : sent → nat → result goerror http_reply).
Context (Hload : ∀ cert key, answers (LoadX509KeyPair cert key)).
Abbreviation CM := (M client_state).
Abbreviation CW := (world client_state).

Definition preflight_request (o : onboarder) (client : http_client) : sent :=
  mkSent client "GET" (daemonURL (o_addr o) ("/preflight?repo=" +:+ o_repoName o)) "".
(** The last request of a run was a preflight of the repository, answered by a daemon
    that has a valid configuration for it and authorizes the caller. *)
Definition was_acknowledged (o : onboarder) (w' : CW) : Prop :=
  ∃ client t reply report before, cl_sent (w_app w') = before ++ [preflight_request o client] ∧
    network (preflight_request o client) t = Ok reply ∧ rp_StatusCode reply = 200%Z ∧
    decode_first dec_preflight zero_preflight (rp_Body reply) = Some report ∧ acknowledged report = true.

Lemma settles_preflight o client : settles (preflightAcknowledged network o client).
Proof using. clear. pose proof (settles_Do network). unfold preflightAcknowledged. settles_tac. Qed.
Lemma preflight_answer o client (w w' : CW) report :
  preflightAcknowledged network o client w = (Returned (report, true), w') → was_acknowledged o w'.
Proof using.
  clear. unfold preflightAcknowledged. destruct (url_Parse _); [|done]. unfold bind, Do, record_sent.
  destruct (network _ _) as [reply|] eqn:Hn; cbn; [|done]. destruct (Z.eqb_spec (rp_StatusCode reply) 200) as [Hs|]; cbn; [|done].
  destruct (decode_first _ _ _) as [rep|] eqn:Hd; [|done]. intros [= -> Hack <-]. cbn. by exists client, (w_clock w), reply, report, (cl_sent (w_app w)).
Qed.

Lemma registration_ends fuel deadline o client (w : CW) : enough fuel registrationPoll deadline w →
  ∃ r w', registration_loop network fuel deadline o client w = (Returned r, w') ∧ w_clock w ≤ w_clock w' ∧
    (r = None → was_acknowledged o w') ∧ (r ≠ None → (deadline < os_now (w_clock w'))%Z).
Proof using SLaws.
  revert w. induction fuel as [|fuel IH]; intros w He; [by destruct He|]. cbn [registration_loop].
  destruct (settles_preflight o client w) as ([report ok] & w1 & H1 & Hle). unfold bind at 1. rewrite H1.
  destruct ok; [eexists _, _; split; [done|]; split; [done|]; split; [|done]; intros _; by eapply preflight_answer|].
  pose proof (now_mono (w_clock w1) (S (w_clock w1)) ltac:(lia)) as Hnext.
  unfold bind at 1, Now. destruct (Z.ltb_spec deadline (os_now (w_clock w1))) as [|Hge].
  { eexists _, _. split; [done|]. split; [cbn; lia|]. split; [done|]. intros _. cbn. lia. }
  unfold bind at 1, Sleep. set (w2 := mkWorld _ _ _ _).
  assert ((os_now (w_clock w1) + registrationPoll ≤ os_now (w_clock w2))%Z ∧ w_clock w1 ≤ w_clock w2) as [Ht Hc].
  { unfold w2. cbn [w_clock tick]. split; [|pose proof (wake_later (S (w_clock w1)) registrationPoll); lia].
    pose proof (wake_time (S (w_clock w1)) registrationPoll). lia. }
  pose proof (now_mono (w_clock w) (w_clock w1) Hle).
  destruct (IH w2) as (r & w' & Hr & Hle' & Hends); [eapply (enough_next fuel _ deadline w w1); [done|done|lia|done|lia]|].
  exists r, w'. split; [done|]. split; [lia|done].
Qed.

(** Onboarding waits for the daemon, and not for ever.  With managed material the wait
    always returns, whatever the daemon answers: with success only when the last answer, of
    a preflight for this repository, says that its configuration is valid and the caller
    authorized; with a failure only when the material cannot be loaded, in which case
    nothing was asked, or after the full five seconds. *)
Theorem awaitRegistration_acknowledged (o : onboarder) (w : CW) (Hm : tm_managed (o_tlsMode o) = true) :
  ∃ r w', awaitRegistration network o w = (Returned r, w') ∧
    match r with
    | None => was_acknowledged o w'
    | Some _ => cl_sent (w_app w') = cl_sent (w_app w) ∨ (os_now (w_clock w) + registrationWait < os_now (w_clock w'))%Z
    end.
Proof using SLaws Hload.
  unfold awaitRegistration. rewrite Hm. cbn [negb].
  assert (settles (configureClientTLSMaterial (o_httpClient o) (o_tlsMaterial o))) as Hs
    by (unfold configureClientTLSMaterial, configureTLS, buildTLSConfig; settles_tac).
  assert (keeps (λ s, cl_sent s = cl_sent (w_app w)) (configureClientTLSMaterial (o_httpClient o) (o_tlsMaterial o))) as Hk
    by (unfold configureClientTLSMaterial, configureTLS, buildTLSConfig; keeps_tac).
  destruct (Hs w) as ([client|err] & w1 & H1 & Hle); unfold bind at 1; rewrite H1; specialize (Hk w eq_refl); rewrite H1 in Hk.
  2:{ eexists _, _. split; [done|]. by left. }
  unfold bind at 1, Now. destruct (registration_ends (poll_fuel registrationWait registrationPoll) (os_now (w_clock w1) + registrationWait) o client (tick w1))
    as (r & w' & Hr & _ & Hok & Hlate); [apply (enough_start registrationWait registrationPoll w1); [done|done|cbn; lia]|].
  exists r, w'. split; [done|]. destruct r; [|by apply Hok]. right. pose proof (now_mono (w_clock w) (w_clock w1) Hle).
  pose proof (Hlate ltac:(done)). lia.
Qed.
End acknowledgement.
