(* ===== verification/OnboardExamples.v ===== *)
(** * Runs of onboarding

    Concrete runs of the configuration, the wizard, the bindings and the registration,
    at which the theorems about them apply, and behaviour of onboarding that its
    comments do not announce. *)

From stdpp Require Import base gmap strings list fin_maps.
From Stdlib Require Import ZArith Lia Ascii.
From S2P Require Import Prelude GoStrings GoErrors GoFloat GoJson GoJsonPrint RepoName GovConfig GoNet Auth GoOS Hooks HooksProofs ConfigStore Server Scaffold ScaffoldProofs Client ClientProofs Restart RestartProofs Wizard WizardProofs Onboard OnboardProofs.
Set Default Goal Selector "!".

Module OnboardExamples.
Import ClientExamples.

#[local] Existing Instances literal_regexp canonical_map_order canonical_map_order_laws basic_unicode basic_unicode_laws.
#[local] Existing Instance ClientExamples.errors.
#[local] Existing Instance ClientExamples.numbers.
#[local] Existing Instance ClientExamples.paced_os.
#[local] Existing Instance ClientExamples.paced_sleep.
#[local] Existing Instance ClientExamples.paced_laws.
#[local] Existing Instance ClientExamples.simple_urls.
#[local] Existing Instance ClientExamples.no_certificates.
#[local] Instance no_faults_honest : HonestFaults paced_os.
Proof. by intros t op p e. Qed.

(** ** Rendered configurations *)

Definition q (s : string) : string := String (byte_of 34) (s +:+ String (byte_of 34) "").
Definition pair (k v : string) : string := q k +:+ ": " +:+ v.
(** A tracked file with an exclude pattern, which lets errors pass. *)
Definition tracked : string :=
  "{" +:+ pair "enforcement-mode" (q "block") +:+ ", " +:+ pair "enforcement-on-error" (q "pass") +:+ ", "
  +:+ pair "exclude-patterns" ("[" +:+ q "vendor" +:+ "]") +:+ "}".

Definition two_named : option (gmap string bool) :=
  match resolveSelectedFunctions "logic-density, temporal-purity" with Ok m => m | Err _ => None end.
(** The result of a computation that succeeds. *)
Lemma settled {A B} (r : result A B) (x : B) : is_ok r = true → r = Ok (match r with Ok b => b | Err _ => x end).
Proof. by destruct r. Qed.
Lemma two_named_selected : resolveSelectedFunctions "logic-density, temporal-purity" = Ok two_named.
Proof. apply settled. vm_compute. reflexivity. Qed.

Lemma onboarded_config_accepted_witness : ∃ content c,
  renderGovernanceConfig "advisory" two_named [] (extras_of (Ok tracked)) = Ok content ∧ Parse content = Ok c ∧
  Enabled c "temporal-purity" = true ∧ Enabled c "interface-width" = false ∧ default [] (cfg_ExcludePatterns c) = ["vendor"].
Proof.
  destruct (onboarded_config_accepted (Ok tracked) "logic-density, temporal-purity" "advisory" "advisory" two_named)
    as (content & c & Hr & Hp & _ & _ & Hx & _ & He); [exact two_named_selected|vm_compute; reflexivity..|].
  exists content, c. rewrite !He, Hx. split; [exact Hr|]. split; [exact Hp|]. vm_compute. done.
Defined.

(** A rewrite does not carry on what the file says about errors. *)
Lemma rewrite_blocks_on_error :
  (match Parse tracked with Ok c => cfg_EnforcementOnError c | Err _ => "" end) = "pass" ∧
  (match renderGovernanceConfig "block" None [] (extras_of (Ok tracked)) with
   | Ok content => match Parse content with Ok c => cfg_EnforcementOnError c | Err _ => "" end
   | Err _ => ""
   end) = "block".
Proof. vm_compute. done. Qed.

(** A selection of the five alone lists five functions, not nine. *)
Lemma five_listed : (dom (scaffoldedFunctions (Some (default ∅ (match resolveSelectedFunctions "logic-density" with Ok m => m | Err _ => None end)))) : gset string)
  = list_to_set fitnessFunctionKeys.
Proof. apply (bool_decide_unpack _). vm_compute. done. Qed.

(** ** The wizard *)

Definition age : string → nat → Z := λ _ _, 0%Z.
Definition missing : goerror := ErrNew "no such file or directory".
(** The answers of a developer who blocks, adds layer-sovereignty with one layer, and
    confirms. *)
Definition layered_answers : stdin :=
  mkStdin ["block"; "6"; ""; "domain"; "domain"; "sql, http"; ""; "y"] "".
Definition layered : onboardGovernance :=
  match resolveWizardOutcome None layered_answers (mkFacts (readRepoLocalGovernance (Err missing))) with
  | Ok g => g
  | Err _ => mkGovernance "" None [] false
  end.
Lemma layered_resolved : resolveWizardOutcome None layered_answers (mkFacts (readRepoLocalGovernance (Err missing))) = Ok layered.
Proof. apply settled. vm_compute. reflexivity. Qed.

Lemma wizard_config_accepted_witness : answered layered_answers ∧ og_enforcement layered = "block" ∧
  ∃ content c, renderGovernanceConfig (og_enforcement layered) (og_functions layered)
      (scaffoldLayers (og_functions layered) (og_layers layered)) (extras_of (Err missing)) = Ok content ∧
    Parse content = Ok c ∧ cfg_EnforcementMode c = "block".
Proof.
  destruct (wizard_config_accepted None layered_answers (Err missing) layered layered_resolved)
    as (Ha & functions & content & c & _ & Hr & Hp & Hm & _); [vm_compute; reflexivity..|].
  assert (og_enforcement layered = "block") as He by (vm_compute; reflexivity).
  split; [exact Ha|]. split; [exact He|]. exists content, c. split; [exact Hr|]. split; [exact Hp|]. exact (eq_trans Hm He).
Defined.

(** The paths of a layer are globs, but the wizard wants regular expressions: with an
    engine that refuses an operator without an operand, as Go's does, it refuses the glob
    of all directories, which the daemon accepts. *)
Definition strict_regexp : RegexpEngine := {|
  regexp := string;
  regexp_compile s := if has_prefix s "*" then Err (ErrNew "missing argument to repetition operator: `*`") else Ok s;
  regexp_match p text := contains text p;
|}.
Definition any_directory : string := "**/domain/*.go".
Lemma wizard_refuses_globs :
  is_ok (compilablePatterns (R := strict_regexp) any_directory) = false ∧
  is_ok (let R := strict_regexp in
         match renderGovernanceConfig "block" (Some {["layer-sovereignty" := true]}) [mkLayer "domain" [any_directory] ["sql"] [] []] no_extras with
         | Ok content => Parse content
         | Err err => Err err
         end) = true.
Proof. vm_compute. done. Qed.

(** The regular expression that the quickstart gives as a path stands, as a glob, for a
    path with a circumflex in it. *)
Lemma documented_path_escaped : globToRegexp "^internal/domain/" = Ok "^\^internal/domain/$".
Proof. vm_compute. reflexivity. Qed.

(** ** Bindings *)

Definition bindings_file : string := "/srv/caller-repos.json".
Definition with_bindings (content : string) : world client_state := mkWorld (w_app start) {[bindings_file := content]} ∅ 0.
Definition old_bindings : callerRepoDocument := mkBindings (Some {["alice" := ["api"]]}) (Some ["ops"]).
Definition old_text : string := MarshalIndent (obj_of (bindings_document old_bindings)) +:+ newline_text.
Definition old_policy : CallerRepoPolicy :=
  match buildCallerRepoPolicy old_bindings with Ok p => p | Err _ => emptyCallerRepoPolicy end.

Lemma old_ascii : ascii_bindings old_bindings.
Proof.
  split; [|reflexivity]. intros cn repos H. cbn in H. apply lookup_singleton_Some in H as [<- <-]. done.
Qed.
Lemma ensureCallerBinding_grants_witness : ∃ content P1,
  w_files (ensureCallerBinding age bindings_file "bob" "tools" (with_bindings old_text)).2 !! bindings_file = Some content ∧
  parseCallerRepoPolicy content = Ok P1 ∧ Allows P1 "alice" "api" = true ∧ Allows P1 "bob" "tools" = true ∧
  Allows P1 "bob" "api" = false ∧ IsAdmin P1 "ops" = true.
Proof.
  assert (buildCallerRepoPolicy old_bindings = Ok old_policy) as HP by (apply settled; vm_compute; reflexivity).
  destruct (ensureCallerBinding_grants age bindings_file "bob" "tools" old_bindings old_policy (with_bindings old_text))
    as (r & w' & Hr & _ & Hres); [apply bindings_written; [exact old_ascii|apply lookup_singleton_eq]|exact old_ascii|reflexivity..|exact HP|].
  assert ((ensureCallerBinding age bindings_file "bob" "tools" (with_bindings old_text)).1 = Returned (Ok true)) as Hchanged by (vm_compute; reflexivity).
  rewrite Hr in Hchanged |- *. injection Hchanged as ->. destruct Hres as (content & P1 & Hc & Hp & Hallows & Hadmin).
  exists content, P1. split; [exact Hc|]. split; [exact Hp|].
  split; [apply Hallows; left; vm_compute; reflexivity|]. split; [apply Hallows; right; by split|]. split; [|rewrite Hadmin; vm_compute; reflexivity].
  destruct (Allows P1 "bob" "api") eqn:H; [|done]. apply Hallows in H as [H|[_ H]]; [vm_compute in H; done|done].
Defined.

(** A bindings file that holds null makes the command panic. *)
Lemma null_bindings_panic :
  match (ensureCallerBinding age bindings_file "bob" "tools" (with_bindings "null")).1 with Panicked _ => True | _ => False end.
Proof. vm_compute. exact I. Qed.

(** In the flat layout, which the daemon still reads, a binding takes the others away. *)
Definition flat_text : string := "{" +:+ pair "alice" ("[" +:+ q "api" +:+ "]") +:+ "}".
Definition allowed_by (content : option string) (cn repo : string) : bool :=
  match content with
  | Some content => match parseCallerRepoPolicy content with Ok p => Allows p cn repo | Err _ => false end
  | None => false
  end.
Lemma flat_bindings_lost :
  let run := ensureCallerBinding age bindings_file "bob" "tools" (with_bindings flat_text) in
  run.1 = Returned (Ok true) ∧ allowed_by (Some flat_text) "alice" "api" = true ∧
  allowed_by (w_files run.2 !! bindings_file) "alice" "api" = false.
Proof. vm_compute. done. Qed.

(** ** Files and daemons *)

Definition material (managed : bool) : clientTLSMaterial := mkMaterial (mkMode managed "" "" "" "") None None None.
Definition run_of (managed update : bool) (g : onboardGovernance) : onboarder :=
  mkOnboarder "shop" (og_enforcement g) "http://127.0.0.1:7890" "/srv/configs" "/repo/shop/configs" client (mkMode managed "" "" "" "")
    (material managed) "bob" (og_functions g) false update (og_layers g).
Definition classic : onboardGovernance := mkGovernance "advisory" two_named [] false.
Definition tracked_repo (content : string) : world client_state :=
  mkWorld (w_app start) {["/repo/shop/configs/shop/config.json" := content]} ∅ 0.

Lemma scaffoldConfig_sync_witness :
  w_files (scaffoldConfig (run_of true false classic) (tracked_repo tracked)).2 !! "/repo/shop/configs/shop/config.json" = Some tracked ∧
  w_files (scaffoldConfig (run_of true false classic) (tracked_repo tracked)).2 !! "/srv/configs/shop/config.json" = Some tracked.
Proof.
  assert ((scaffoldConfig (run_of true false classic) (tracked_repo tracked)).1 = Returned None) as Hnone by (vm_compute; reflexivity).
  assert (local_config (run_of true false classic) = "/repo/shop/configs/shop/config.json") as Hl by (vm_compute; reflexivity).
  assert (shared_config (run_of true false classic) = "/srv/configs/shop/config.json") as Hs by (vm_compute; reflexivity).
  destruct (scaffoldConfig_sync (run_of true false classic) (tracked_repo tracked)) as (r & w' & Hr & _ & Hkept & _ & Hok);
    [by rewrite Hl, Hs|]. rewrite Hl, Hs in *. rewrite Hr in Hnone |- *. injection Hnone as ->.
  destruct (Hok eq_refl) as (content & Hc & Hsh & _). cbn [snd].
  assert (w_files w' !! "/repo/shop/configs/shop/config.json" = Some tracked) as Hk
    by (rewrite Hkept by (vm_compute; reflexivity); apply lookup_singleton_eq).
  rewrite Hk in Hc. injection Hc as <-. by split.
Defined.

(** A tracked file that the daemon rejects is kept although new choices were confirmed
    at the terminal, and the step fails. *)
Lemma confirmed_choices_not_applied :
  let g := wizardGovernance (mkFacts (readRepoLocalGovernance (Ok "{"))) (mkOutcome "block" ∅ true []) in
  let run := scaffoldConfig (run_of true (rewriteAuthorized false g) g) (tracked_repo "{") in
  og_update g = false ∧ (match run.1 with Returned (Some _) => true | _ => false end) = true ∧
  w_files run.2 !! "/repo/shop/configs/shop/config.json" = Some "{" ∧ w_files run.2 !! "/srv/configs/shop/config.json" = None.
Proof. vm_compute. done. Qed.

Definition posted_by (o : onboarder) : http_request :=
  mkHTTP "POST" "127.0.0.1:5555" None "" "" (Ok (Marshal (json_registerRequestBody o))) None None.
Lemma remote_registration_witness : ∃ c, decodeRegisterConfig (posted_by (run_of false false classic)) = Ok ("shop", c) ∧
  Enabled c "temporal-purity" = true ∧ Enabled c "interface-width" = false.
Proof.
  destruct (remote_registration (run_of false false classic) (posted_by (run_of false false classic)) "shop" "" "logic-density, temporal-purity" "advisory")
    as (c & Hd & _ & He & _); [reflexivity|exact two_named_selected|reflexivity..|].
  exists c. split; [exact Hd|]. rewrite !He. vm_compute. split; reflexivity.
Defined.

(** The layers that the wizard asked for are not part of a registration: a remote daemon
    accepts it and stores a document that it rejects. *)
Lemma remote_layers_dropped :
  og_layers layered ≠ [] ∧
  match decodeRegisterConfig (posted_by (run_of false false layered)) with
  | Ok (_, c) => Enabled c "layer-sovereignty" = true ∧ is_ok (Parse (MarshalIndent (json_Config c) +:+ newline_text)) = false
  | Err _ => False
  end.
Proof. vm_compute. done. Qed.

(** A daemon that knows the repository from the third question on. *)
Definition preflight_text (configured : bool) : string :=
  Marshal (JObj [("repo_configured", JBool configured); ("repo_config_valid", JBool configured); ("caller_authorized", JBool true)]).
Definition settling : sent → nat → result goerror http_reply := λ _ t, Ok (mkReply 200 (preflight_text (8 <? t)%nat) None).
Lemma awaitRegistration_acknowledged_witness :
  was_acknowledged settling (run_of true false classic) (awaitRegistration settling (run_of true false classic) start).2.
Proof.
  assert ((awaitRegistration settling (run_of true false classic) start).1 = Returned None) as Hnone by (vm_compute; reflexivity).
  destruct (awaitRegistration_acknowledged settling (λ cert key t files dirs, ex_intro _ (Ok tt) eq_refl) (run_of true false classic) start eq_refl)
    as (r & w' & Hr & Hres). rewrite Hr in Hnone |- *. injection Hnone as ->. exact Hres.
Defined.
End OnboardExamples.
