(* ===== verification/Installer.v ===== *)
(** * The installer

    [internal/installer]: uninstall, upgrade, rollback and the publication of the
    [current] link ([installer.go]), and the pointers of the managed runtimes
    ([runtime.go], [runtime_reconcile.go]).

    The flags come parsed, [getenv] is a function, and the working directory is a
    path.  Standard output is the list of the lines printed; a failing write to it
    is not modelled.  The archive format is a parameter: what [archive/tar] over
    [compress/gzip] yields for the bytes of a file.  So are SHA-256, random names,
    and the order in which Go walks a map. *)

From stdpp Require Import base gmap strings list fin_maps.
From Stdlib Require Import ZArith Lia Ascii.
From S2P Require Import Prelude GoStrings GoErrors GoJson GoOS GoFS GoFSTree CertMaterial CertStore ConfigStore.
Set Default Goal Selector "!".

Definition productDirName : string := "agent-fitness-functions".
Definition verifiedSentinelName : string := ".verified".

(** ** Paths *)

Definition environment : Type := string → string.

Definition StateRoot (getenv : environment) : string :=
  let home := getenv "XDG_STATE_HOME" in
  if negb (String.eqb home "") then path_join [home; productDirName]
  else path_join [getenv "HOME"; ".local"; "state"; productDirName].
Definition cacheRoot (getenv : environment) : string :=
  let home := getenv "XDG_CACHE_HOME" in
  if negb (String.eqb home "") then path_join [home; productDirName]
  else path_join [getenv "HOME"; ".cache"; productDirName].

(** [filepath.Join(base, relative)] for a cleaned absolute [base]; an element [..]
    goes up. *)
Definition descend (base : path) (relative : string) : path :=
  rev (foldl (clean_push true) (rev base) (split relative slash)).
(** The path that a text names for a process in the directory [cwd]. *)
Definition locate (cwd : path) (text : string) : path :=
  descend (if is_abs text then [] else cwd) text.

(** An absolute path in a message. *)
Definition abs_text (p : path) : string := "/" +:+ path_text p.

Definition runtimeRoot (root : path) (tool : string) : path := descend (root ++ ["runtimes"]) tool.
Definition runtimeVersionDir (root : path) (tool version : string) : path :=
  descend (runtimeRoot root tool ++ ["versions"]) version.

(** ** Names *)

(** [validateVersionSegment]. *)
Definition validateVersionSegment {U : UnicodeTables} (version : string) : option goerror :=
  if String.eqb version "" then Some (ErrNew "version must not be empty")
  else if String.eqb version "." || String.eqb version ".."
  then Some (ErrNew ("version " +:+ quote version +:+ " is not a valid path segment"))
  else if contains version "/"
  then Some (ErrNew ("version " +:+ quote version +:+ " must not contain " +:+ quote "/"))
  else None.

(** [archiveNamePattern]: what is between the prefix and the suffix, at least one
    character and no line break. *)
Definition archive_prefix : string := "agent-fitness-functions-".
Definition archive_suffix : string := "-darwin-arm64.tar.gz".
Definition archiveNamePattern (name : string) : option string :=
  let rest := str_drop (String.length archive_prefix) name in
  let version := str_take (String.length rest - String.length archive_suffix) rest in
  if has_prefix name archive_prefix && has_suffix rest archive_suffix
     && negb (String.eqb version "") && negb (contains_byte version (byte_of 10))
  then Some version else None.
Definition parseArchiveVersion {U : UnicodeTables} (archivePath : string) : result goerror string :=
  let base := path_base archivePath in
  match archiveNamePattern base with
  | None => Err (ErrNew ("archive name " +:+ quote base
                         +:+ " does not match agent-fitness-functions-<version>-darwin-arm64.tar.gz"))
  | Some version =>
      match validateVersionSegment version with
      | Some e => Err (ErrWrap ("archive name " +:+ quote base +:+ " has an invalid version segment: ") e "")
      | None => Ok version
      end
  end.

(** The digest that a manifest lists for a file: that of the first line with its
    name. *)
Definition manifest_entry (base line : string) : option string :=
  match fields line with
  | digest :: name :: _ => if String.eqb (trim_prefix name "*") base then Some digest else None
  | _ => None
  end.
Definition manifest_digest (content base : string) : option string :=
  head (omap (manifest_entry base) (split content (byte_of 10))).
(** [strings.EqualFold] of a hexadecimal digest with another text: no letter of
    the digest folds to anything but its other case. *)
Definition lower_bytes (s : string) : list Z := (λ a, ascii_lower (byte_val a)) <$> bytes s.
Definition equal_fold (digest s : string) : bool := bool_decide (lower_bytes digest = lower_bytes s).

(** ** Archives *)

Inductive typeflag := TypeDir | TypeReg | TypeOther.
Record tarEntry := mkTarEntry {
  te_Name : string;
  te_Typeflag : typeflag;
  te_Perm : Z;
  te_Data : string;
  (* an error after the data *)
  te_Err : option goerror;
}.
(** The entries of an archive and the error that ends them unless it is [io.EOF];
    or the error of [gzip.NewReader].  Reading from the open archive does not fail
    otherwise. *)
Class Archives := read_archive : string → result goerror (list tarEntry * option goerror).

Definition unsafeArchiveName (name : string) : bool :=
  String.eqb name "." || String.eqb name ".." || has_prefix name "../" || is_abs name.

(** ** Operations *)

(** Random numbers and the order of a walk over a map, by the step. *)
Record installerOperations := mkInstallerOperations {
  io_random : nat → Z;
  io_order : nat → list (string * string) → list (string * string);
}.

(** The flags of a command: what [flags.Parse] returned, the number of the
    remaining arguments, and the values. *)
Record parsedFlags (A : Type) := mkFlags { fl_err : option goerror; fl_NArg : nat; fl_values : A }.
Arguments mkFlags {A}. Arguments fl_err {A}. Arguments fl_NArg {A}. Arguments fl_values {A}.
Definition usage {A} (flags : parsedFlags A) (positional : string) : option goerror :=
  match fl_err flags with
  | Some e => Some (UsageError e)
  | None => if (0 <? fl_NArg flags)%nat then Some (UsageError (ErrNew positional)) else None
  end.

Section installer.
Context {E : OSEnv} {I : Interference FS} {K : Crash} {U : UnicodeTables} {TT : TextTools} {AR : Archives} {J : JsonErrorText}.
Context (ops : installerOperations).
Abbreviation FM := (M FS).

Definition verifiedSentinelExists (versionDir : path) : FM bool :=
  let! r := Stat_path (versionDir ++ [verifiedSentinelName]) in
  ret (is_ok r).

Definition readCurrentVersion (root : path) : FM (result goerror string) :=
  try! target := Readlink (root ++ ["current"]) in
  ret (Ok (path_base target)).

Definition publishCurrent (root versionDir : path) : FM (result goerror unit) :=
  let relTarget := path_join ["versions"; default "." (last versionDir)] in
  let! now := Now in
  let tmp := root ++ [".current.tmp-" +:+ itoa now] in
  try! _ := must (Symlink relTarget tmp) in
  let! renamed := Rename_path tmp (root ++ ["current"]) in
  match renamed with
  | None => done
  | Some e => let! _ := Remove_path tmp in fails e
  end.

(** *** Versions *)

Fixpoint remove_unverified (versionsDir : path) (entries : list (string * bool)) : FM (result goerror unit) :=
  match entries with
  | [] => done
  | (name, isDir) :: entries' =>
      if negb isDir then remove_unverified versionsDir entries'
      else
        let dir := versionsDir ++ [name] in
        let! verified := verifiedSentinelExists dir in
        try! _ := if (verified : bool) then done
                  else wrapping ("remove unverified partial " +:+ abs_text dir +:+ ": ") (must (RemoveAll_path dir)) in
        remove_unverified versionsDir entries'
  end.
Definition cleanupUnverifiedPartials (versionsDir : path) : FM (result goerror unit) :=
  let! entries := ReadDir_path versionsDir in
  match entries with
  | Err e => if errors_is e ErrNotExist then done else fails (ErrWrap "read versions directory: " e "")
  | Ok entries => remove_unverified versionsDir entries
  end.

Fixpoint prune (versionsDir : path) (keepCurrent keepPrevious : string) (entries : list (string * bool)) :
  FM (result goerror unit) :=
  match entries with
  | [] => done
  | (name, isDir) :: entries' =>
      if negb isDir || String.eqb name keepCurrent || String.eqb name keepPrevious
      then prune versionsDir keepCurrent keepPrevious entries'
      else
        try! _ := wrapping ("prune old version " +:+ name +:+ ": ") (must (RemoveAll_path (versionsDir ++ [name]))) in
        prune versionsDir keepCurrent keepPrevious entries'
  end.
Definition pruneOldVersions (versionsDir : path) (keepCurrent keepPrevious : string) : FM (result goerror unit) :=
  try! entries := wrapping "read versions directory: " (ReadDir_path versionsDir) in
  prune versionsDir keepCurrent keepPrevious entries.

(** *** Extraction *)

Definition extractArchiveFile (entry : tarEntry) (target : path) : FM (result goerror unit) :=
  try! _ := must (MkdirAll_path (removelast target) mode_dir) in
  try! out := CreateTruncate target (te_Perm entry) in
  let! written := if String.eqb (te_Data entry) "" then ret None else File_Write out (te_Data entry) in
  let! closed := File_Close out in
  let copyErr := first_error written (te_Err entry) in
  ret (match option_list copyErr ++ option_list closed with [] => Ok tt | es => Err (ErrJoin es) end).

Definition extractArchiveEntry (entry : tarEntry) (destDir : path) : FM (result goerror unit) :=
  let cleanName := path_clean (te_Name entry) in
  if unsafeArchiveName cleanName then fails (ErrNew ("refusing unsafe archive entry " +:+ quote (te_Name entry)))
  else
    let target := descend destDir cleanName in
    match te_Typeflag entry with
    | TypeDir => must (MkdirAll_path target mode_dir)
    | TypeReg => extractArchiveFile entry target
    | TypeOther => done
    end.
Fixpoint extract_entries (entries : list tarEntry) (ending : option goerror) (destDir : path) : FM (result goerror unit) :=
  match entries with
  | [] => match ending with None => done | Some e => fails (ErrWrap "read archive entry: " e "") end
  | entry :: entries' =>
      try! _ := extractArchiveEntry entry destDir in
      extract_entries entries' ending destDir
  end.
Definition extractArchive (archivePath destDir : path) : FM (result goerror unit) :=
  try! f := Open archivePath in
  let! result :=
    match (if IsDir (h_info f) then Err (wrong_kind "read" archivePath) else read_archive (h_content f)) with
    | Err e => fails (ErrWrap "open gzip stream: " e "")
    | Ok (entries, ending) => extract_entries entries ending destDir
    end in
  let! _ := File_Close f in
  ret result.

(** *** Publication of a version *)

(** [syscall.EXDEV] in the error of [os.Rename]. *)
Definition isCrossDeviceError (e : goerror) : bool :=
  match e with
  | ErrPath op _ (ErrNew message) => String.eqb op "rename" && String.eqb message "invalid cross-device link"
  | _ => false
  end.

(** [filepath.WalkDir] over [src] with the function of the source; every level of
    the tree takes one unit of fuel. *)
Fixpoint copy_entry (fuel : nat) (src dst : path) (isDir : bool) {struct fuel} : FM (result goerror unit) :=
  match fuel with
  | O => diverge
  | S fuel' =>
      if isDir then
        try! _ := must (MkdirAll_path dst mode_dir) in
        try! entries := ReadDir_path src in
        (fix children (l : list (string * bool)) : FM (result goerror unit) :=
           match l with
           | [] => done
           | (name, isDir') :: l' =>
               try! _ := copy_entry fuel' (src ++ [name]) (dst ++ [name]) isDir' in
               children l'
           end) entries
      else
        try! info := Lstat src in
        try! data := ReadFile_path src in
        must (WriteFile_path dst data (fi_perm info))
  end.
Definition copyDirRecursive (src dst : path) : FM (result goerror unit) :=
  try! info := Lstat src in
  copy_entry remove_fuel src dst (IsDir info).

Definition moveDir (src dst : path) : FM (result goerror unit) :=
  let! renamed := Rename_path src dst in
  match renamed with
  | None => done
  | Some e =>
      if negb (isCrossDeviceError e) then fails e
      else
        try! _ := copyDirRecursive src dst in
        must (RemoveAll_path src)
  end.

Definition staging_prefix : string := "install-staging-".
(** The part of [publishVersionDirectory] after the staging directory exists. *)
Definition fill_version (archivePath stagingDir targetDir : path) : FM (result goerror unit) :=
  try! _ := wrapping "extract archive: " (extractArchive archivePath stagingDir) in
  try! _ := wrapping "create versions directory: " (must (MkdirAll_path (removelast targetDir) mode_dir)) in
  try! _ := wrapping "publish version directory: " (moveDir stagingDir targetDir) in
  wrapping "write completion sentinel: " (must (WriteFile_path (targetDir ++ [verifiedSentinelName]) "" mode_public)).
Definition publishVersionDirectory (archivePath targetDir cacheDir : path) : FM (result goerror unit) :=
  try! _ := wrapping "create cache directory: " (must (MkdirAll_path cacheDir mode_dir)) in
  try! stagingDir := wrapping "create staging directory: " (mkdir_temp mkdirTempAttempts (io_random ops) cacheDir staging_prefix) in
  let! result := fill_version archivePath stagingDir targetDir in
  let! _ := RemoveAll_path stagingDir in
  ret result.

(** ** Upgrade *)

Definition sha256File (p : path) : FM (result goerror string) :=
  try! f := wrapping ("open " +:+ abs_text p +:+ ": ") (Open p) in
  let! data := wrapping ("hash " +:+ abs_text p +:+ ": ") (ReadAll_file f) in
  let! _ := File_Close f in
  ret (match data with Ok content => Ok (sha256_hex content) | Err e => Err e end).

Definition verifyArchiveChecksum (cwd : path) (archivePath checksumsPath : string) : FM (result goerror unit) :=
  try! data := wrapping "read checksums manifest: " (ReadFile_path (locate cwd checksumsPath)) in
  let base := path_base archivePath in
  (* an empty digest is not possible: the fields of a line are not empty *)
  match manifest_digest data base with
  | None => fails (ErrNew ("no checksum entry for " +:+ base +:+ " in " +:+ checksumsPath))
  | Some expected =>
      try! actual := sha256File (locate cwd archivePath) in
      if negb (equal_fold actual expected)
      then fails (ErrNew ("checksum verification failed for " +:+ base +:+ ": manifest expects " +:+ expected
                          +:+ ", computed " +:+ actual))
      else done
  end.

Definition resolveUpgradeInput (cwd : path) (flags : parsedFlags (string * string)) :
  FM (result goerror (string * string)) :=
  let '(archivePath, checksumsPath) := fl_values flags in
  match usage flags "upgrade accepts no positional arguments" with
  | Some e => fails e
  | None =>
      if String.eqb archivePath "" || String.eqb checksumsPath ""
      then fails (UsageError (ErrNew "upgrade requires --archive and --checksums"))
      else
        try! _ := wrapping "archive not found: " (Stat_path (locate cwd archivePath)) in
        try! _ := wrapping "checksums manifest not found: " (Stat_path (locate cwd checksumsPath)) in
        try! _ := verifyArchiveChecksum cwd archivePath checksumsPath in
        ret (match parseArchiveVersion archivePath with
             | Ok version => Ok (archivePath, version)
             | Err e => Err e
             end)
  end.

Definition prepareUpgradeDirectory (versionsDir : path) : FM (result goerror unit) :=
  try! _ := wrapping "create versions directory: " (must (MkdirAll_path versionsDir mode_dir)) in
  cleanupUnverifiedPartials versionsDir.

Definition installUpgrade (root archivePath : path) (version : string) (cacheDir : path) : FM (result goerror unit) :=
  let targetDir := root ++ ["versions"; version] in
  let! verified := verifiedSentinelExists targetDir in
  try! _ := if (verified : bool) then done else publishVersionDirectory archivePath targetDir cacheDir in
  let! currentVersion := readCurrentVersion root in
  if String.eqb (match currentVersion with Ok v => v | Err _ => "" end) version then done
  else wrapping "publish current pointer: " (publishCurrent root targetDir).

(** An upgrade of the installation at [root]. *)
Definition upgrade_at (root cacheDir archivePath : path) (version : string) : FM (result goerror string) :=
  let versionsDir := root ++ ["versions"] in
  try! _ := prepareUpgradeDirectory versionsDir in
  let! previous := readCurrentVersion root in
  let previousVersion := match previous with Ok v => v | Err _ => "" end in
  try! _ := installUpgrade root archivePath version cacheDir in
  let keepPrevious := if String.eqb previousVersion "" then version else previousVersion in
  try! _ := pruneOldVersions versionsDir version keepPrevious in
  ret (Ok (if negb (String.eqb previousVersion "") && negb (String.eqb previousVersion version)
           then "upgraded to " +:+ version +:+ " (predecessor retained: " +:+ previousVersion +:+ ")"
           else "upgraded to " +:+ version)).

(** The value is the line printed. *)
Definition RunUpgrade (cwd : path) (flags : parsedFlags (string * string)) (getenv : environment) : FM (result goerror string) :=
  try! input := resolveUpgradeInput cwd flags in
  upgrade_at (locate cwd (StateRoot getenv)) (locate cwd (cacheRoot getenv)) (locate cwd input.1) input.2.

(** ** Rollback *)

Fixpoint verified_others (versionsDir : path) (currentVersion : string) (entries : list (string * bool)) : FM (list string) :=
  match entries with
  | [] => ret []
  | (name, isDir) :: entries' =>
      if negb isDir || String.eqb name currentVersion then verified_others versionsDir currentVersion entries'
      else
        let! verified := verifiedSentinelExists (versionsDir ++ [name]) in
        let! others := verified_others versionsDir currentVersion entries' in
        ret (if (verified : bool) then name :: others else others)
  end.
Definition rollbackPredecessor (versionsDir : path) (currentVersion : string) : FM (result goerror string) :=
  try! entries := wrapping "read versions directory: " (ReadDir_path versionsDir) in
  let! candidates := verified_others versionsDir currentVersion entries in
  match candidates with
  | [] => fails (ErrNew "rollback failed: no predecessor version is retained")
  | [predecessor] => ret (Ok predecessor)
  | _ => fails (ErrNew ("rollback failed: multiple predecessor versions present [" +:+ join candidates " "
                        +:+ "]; refusing to guess"))
  end.

Fixpoint reconcile_pins (root : path) (pins : list (string * string)) : FM (result goerror unit) :=
  match pins with
  | [] => done
  | (tool, version) :: pins' =>
      let toolVersionDir := runtimeVersionDir root tool version in
      let! verified := verifiedSentinelExists toolVersionDir in
      try! _ := if (verified : bool)
                then wrapping ("reconcile " +:+ tool +:+ " runtime pointer: ") (publishCurrent (runtimeRoot root tool) toolVersionDir)
                else done in
      reconcile_pins root pins'
  end.
Definition reconcileRuntimePointers (root restoredVersionDir : path) : FM (result goerror unit) :=
  let pinsPath := restoredVersionDir ++ ["share"; "pins.json"] in
  let! data := ReadFile_path pinsPath in
  match data with
  | Err e => if errors_is e ErrNotExist then done else fails (ErrWrap ("read " +:+ abs_text pinsPath +:+ ": ") e "")
  | Ok data =>
      match unmarshal (dec_map "" dec_string) None data with
      | Err e => fails (ErrWrap ("parse " +:+ abs_text pinsPath +:+ ": ") e "")
      | Ok pins =>
          let! order := (λ w, (Returned (io_order ops (w_clock w) (map_to_list (default ∅ pins))), tick w)) in
          reconcile_pins root order
      end
  end.

(** A rollback of the installation at [root]. *)
Definition rollback_at (root : path) : FM (result goerror string) :=
  try! currentVersion := wrapping "rollback failed: no current installation found: " (readCurrentVersion root) in
  let versionsDir := root ++ ["versions"] in
  try! predecessor := rollbackPredecessor versionsDir currentVersion in
  let predecessorDir := versionsDir ++ [predecessor] in
  try! _ := wrapping "repoint current pointer: " (publishCurrent root predecessorDir) in
  try! _ := wrapping "reconcile managed runtime pointers: " (reconcileRuntimePointers root predecessorDir) in
  ret (Ok ("rolled back to " +:+ predecessor)).
Definition RunRollback (cwd : path) (flags : parsedFlags unit) (getenv : environment) : FM (result goerror string) :=
  match usage flags "rollback accepts no positional arguments" with
  | Some e => fails e
  | None => rollback_at (locate cwd (StateRoot getenv))
  end.

(** [internal publish-current]; the values are the state root and the version. *)
Definition RunPublishCurrent (cwd : path) (flags : parsedFlags (string * string)) : FM (result goerror string) :=
  let '(stateRoot, version) := fl_values flags in
  match usage flags "publish-current accepts no positional arguments" with
  | Some e => fails e
  | None =>
      if String.eqb stateRoot "" || String.eqb version ""
      then fails (UsageError (ErrNew "publish-current requires --state-root and --version"))
      else
        match validateVersionSegment version with
        | Some e => fails (UsageError e)
        | None =>
            if negb (String.eqb (path_base stateRoot) productDirName)
            then fails (UsageError (ErrNew ("refusing to publish current: " +:+ quote stateRoot
                                            +:+ " does not look like a product-owned state root")))
            else
              let root := locate cwd stateRoot in
              let versionDir := root ++ ["versions"; version] in
              let! verified := verifiedSentinelExists versionDir in
              if negb verified then fails (ErrNew ("refusing to publish unverified version directory " +:+ abs_text versionDir))
              else
                try! _ := wrapping "publish current pointer: " (publishCurrent root versionDir) in
                ret (Ok ("published " +:+ version +:+ " as current"))
        end
  end.

(** ** Uninstall *)

Definition validateUninstallRoot (root : path) : FM (result goerror unit) :=
  let! info := Lstat root in
  match info with
  | Err e => if errors_is e ErrNotExist then done else fails e
  | Ok info => if negb (IsDir info) then fails (ErrNew "refusing to uninstall: state root is not a real directory") else done
  end.

Definition owned_names : list string := ["versions"; "current"; "runtimes"].
(** The targets that were removed. *)
Fixpoint remove_owned (root : path) (names : list string) : FM (result goerror (list path)) :=
  match names with
  | [] => ret (Ok [])
  | name :: names' =>
      let target := root ++ [name] in
      let! info := Lstat target in
      match info with
      | Err e => if errors_is e ErrNotExist then remove_owned root names'
                 else fails (ErrWrap "inspect installation artifact: " e "")
      | Ok _ =>
          try! _ := wrapping ("remove " +:+ abs_text target +:+ ": ") (must (RemoveAll_path target)) in
          try! removed := remove_owned root names' in
          ret (Ok (target :: removed))
      end
  end.
Definition removeInstallation (root : path) : FM (result goerror (list string)) :=
  try! removed := remove_owned root owned_names in
  ret (Ok (match removed with
           | [] => ["nothing to remove under " +:+ abs_text root]
           | _ => "uninstall removed:" :: ((λ p, "  " +:+ abs_text p) <$> removed)
           end)).

(** [beforeRemoval] stops the history writer; it does not change the tree here.  The
    value of the flags is [--yes]. *)
Definition RunUninstallBeforeRemoval (cwd : path) (flags : parsedFlags bool) (getenv : environment)
    (beforeRemoval : option (nat → option goerror)) : FM (result goerror (list string)) :=
  match usage flags "uninstall accepts no positional arguments" with
  | Some e => fails e
  | None =>
      if negb (fl_values flags)
      then fails (UsageError (ErrNew "uninstall requires --yes to confirm removal of installer state"))
      else
        let rootText := StateRoot getenv in
        if negb (is_abs rootText) || negb (String.eqb (path_base rootText) productDirName)
        then fails (ErrNew ("refusing to uninstall: resolved state root " +:+ quote rootText
                            +:+ " does not look like a product-owned directory"))
        else
          let root := locate cwd rootText in
          try! _ := validateUninstallRoot root in
          try! _ := match beforeRemoval with
                    | None => done
                    | Some callback =>
                        wrapping "uninstall incomplete: history writer stop unconfirmed: "
                          (must (λ w, (Returned (callback (w_clock w)), tick w)))
                    end in
          removeInstallation root
  end.
Definition RunUninstall (cwd : path) (flags : parsedFlags bool) (getenv : environment) : FM (result goerror (list string)) :=
  RunUninstallBeforeRemoval cwd flags getenv None.
End installer.
