(* ===== verification/InstallerFrame.v ===== *)
(** * Guarded paths

    The frame of the calls on trees: which paths a call leaves alone, whatever fails
    and wherever the process dies, and what it has achieved when it reports
    success. *)

From stdpp Require Import base gmap strings list fin_maps.
From Stdlib Require Import ZArith Lia Ascii.
From S2P Require Import Prelude GoStrings GoErrors GoJson GoOS GoFS GoFSTree CertMaterial CertStore CertFrame.
Set Default Goal Selector "!".

(** What is at the guarded paths is as it was. *)
Definition guarded (G : path → Prop) (a b : FS) : Prop := ∀ q, G q → at_path q b = at_path q a.
#[export] Instance guarded_preorder G : PreOrder (guarded G).
Proof. split; [by intros a q|]. intros a b c H1 H2 q Hq. by rewrite H2, H1. Qed.

(** Not at or below a guarded path; not above one either. *)
Definition clear_of (G : path → Prop) (p : path) : Prop := ∀ q, G q → ¬ q `prefix_of` p.
Definition apart_of (G : path → Prop) (p : path) : Prop := ∀ q, G q → ¬ q `prefix_of` p ∧ ¬ p `prefix_of` q.

(** An error that says that there is nothing is not given for a call that failed for
    another reason. *)
Class Honest (E : OSEnv) : Prop := honest t op p e : os_fault t op p = Some e → errors_is e ErrNotExist = false.

Section guarded.
Context (G : path → Prop).
#[local] Abbreviation T := (guarded G).

Lemma clear_prefix p p' : clear_of G p → p' `prefix_of` p → clear_of G p'.
Proof using. intros H Hp q Hq Hq'. apply (H q Hq). by etrans. Qed.
Lemma apart_clear_of p : apart_of G p → clear_of G p.
Proof using. intros H q Hq. by apply H. Qed.
Lemma apart_below p s : apart_of G p → apart_of G (p ++ s).
Proof using.
  intros H q Hq. destruct (H q Hq) as [H1 H2]. split.
  - intros Hp. destruct (prefix_weak_total q p (p ++ s)) as [?|?]; [done|by apply prefix_app_r|done|done].
  - intros Hp. apply H2. etrans; [|exact Hp]. by apply prefix_app_r.
Qed.

Lemma guarded_shape p v tree next next' : clear_of G p →
  (∀ s, s ≠ [] → v ≫= look s = look p tree ≫= look s) → T (mkFS tree next) (mkFS (put p v tree) next').
Proof using. intros Hp Hv q Hq. rewrite !look_at. cbn [fs_tree]. apply look_put_shape; [by apply Hp|done]. Qed.
Lemma guarded_apart p v tree next next' : apart_of G p → T (mkFS tree next) (mkFS (put p v tree) next').
Proof using. intros Hp q Hq. rewrite !look_at. cbn [fs_tree]. apply look_put_apart; by apply Hp. Qed.

Lemma guarded_create op p n fs fs' : clear_of G p → (∀ i, leaf (Some (n i))) → create op p n fs = Ok fs' → T fs fs'.
Proof using.
  intros Hp Hn. unfold create. destruct fs as [tree next]. cbn [fs_tree fs_next].
  destruct (walk p tree) eqn:Hw; try done. destruct (walk (removelast p) tree) as [[]| |]; try done. intros [= <-].
  apply guarded_shape; [done|]. intros s Hs. assert (look p tree = None) as -> by (unfold look; by rewrite Hw).
  apply (Hn next s Hs).
Qed.
Lemma guarded_change op p f fs fs' : clear_of G p →
  (∀ n v s, f n = Ok v → s ≠ [] → v ≫= look s = look s n) → change_at op p f fs = Ok fs' → T fs fs'.
Proof using.
  intros Hp Hf. unfold change_at. destruct (resolve op p fs) as [n|] eqn:Hr; [|done]. apply resolve_look in Hr.
  cbn. destruct (f n) as [v|] eqn:Hv; [|done]. intros [= <-]. destruct fs as [tree next].
  cbn [fs_tree fs_next]. apply guarded_shape; [done|]. intros s Hs. rewrite (Hf _ _ _ Hv Hs). rewrite look_at in Hr. cbn [fs_tree] in Hr. by rewrite Hr.
Qed.

Context {E : OSEnv} {K : Crash}.

Lemma guards_Stat p : frames T anything (Stat_path p).
Proof using. unfold Stat_path. frame_tac. Qed.
Lemma guards_ReadDir p : frames T anything (ReadDir_path p).
Proof using. unfold ReadDir_path. frame_tac. Qed.
Lemma guards_ReadFile p : frames T anything (ReadFile_path p).
Proof using. unfold ReadFile_path. frame_tac. Qed.
Lemma guards_Mkdir p mode : clear_of G p → frames T anything (Mkdir p mode).
Proof using.
  intros Hp. apply frames_writing; [apply _|]. intros fs fs'. apply guarded_create; [done|]. intros i. apply leaf_empty.
Qed.
Lemma guards_Symlink target p : clear_of G p → frames T anything (Symlink target p).
Proof using.
  intros Hp. apply frames_writing; [apply _|]. intros fs fs'. apply guarded_create; [done|]. intros i. apply leaf_link.
Qed.
Lemma write_shape c op p n v s : write_node c op p n = Ok v → s ≠ [] → v ≫= look s = look s n.
Proof using. destruct s as [|x s]; [done|]. by destruct n; intros [= <-]. Qed.
Lemma guards_File_Write h content : clear_of G (h_path h) → frames T anything (File_Write h content).
Proof using.
  intros Hp w Hw. unfold File_Write.
  assert (∀ c fs fs', change_at "write" (h_path h) (write_node c "write" (h_path h)) fs = Ok fs' → T fs fs') as Hc.
  { intros c fs fs'. apply guarded_change; [done|]. intros n v s. apply write_shape. }
  revert w Hw. intros w. refine (safe_sys T _ _ _ _ (λ _, True) (λ _ _, True) _ _ w).
  - intros e fs _. cbn. split; [|done]. destruct (change_at _ _ _ _) eqn:?; [eauto|done].
  - intros fs _. destruct (change_at _ _ _ _) eqn:?; [eauto|done].
Qed.
Lemma guards_Remove p : clear_of G p → frames T anything (Remove_path p).
Proof using.
  intros Hp. apply frames_writing; [apply _|]. intros fs fs'. apply guarded_change; [done|].
  intros n v [|x t] Hv Ht; [done|]. destruct n as [| |i m es]; [by injection Hv as <-..|].
  destruct (decide (es = ∅)) as [->|]; [|done]. injection Hv as <-. by rewrite look_cons, lookup_empty.
Qed.
Lemma guards_Rename p q : apart_of G p → apart_of G q → frames T anything (Rename_path p q).
Proof using.
  intros Hp Hq. apply frames_writing; [apply _|].
  intros fs fs' (n & i & m & es & _ & _ & _ & ->)%rename_ok. destruct fs as [tree next]. cbn [fs_tree fs_next].
  etrans; [by apply (guarded_apart p None tree next next)|by apply guarded_apart].
Qed.
Lemma guards_CreateTruncate p mode : clear_of G p → frames T (oks (λ h, h_path h = p)) (CreateTruncate p mode).
Proof using.
  intros Hp. apply safe_sys; [apply _|done|]. intros [tree next] _. unfold truncate. cbn [fs_tree fs_next].
  assert (∀ r, create "open" p (λ i, NFile i mode "") (mkFS tree next) = Ok r → T (mkFS tree next) r) as Hc.
  { intros r. apply guarded_create; [done|]. intros i. apply leaf_file. }
  destruct (walk p tree) as [[i m c| |]| |] eqn:Hw; cbn; try done;
    [|destruct (create _ _ _ _) as [fs'|] eqn:Heq; [split; [by apply Hc|done]|done]..].
  split; [|done]. apply guarded_shape; [done|]. intros s Hs.
  assert (look p tree = Some (NFile i m c)) as -> by (unfold look; by rewrite Hw). by destruct s.
Qed.
End guarded.
#[export] Hint Resolve guards_Stat guards_ReadDir guards_ReadFile guards_Mkdir guards_Symlink guards_File_Write guards_Remove : frame.
#[export] Hint Resolve guards_CreateTruncate : frame_facts.
#[export] Hint Resolve apart_clear_of : frame.

(** ** Composite calls *)

Section composite.
Context (G : path → Prop) {E : OSEnv} {K : Crash}.
#[local] Abbreviation T := (guarded G).

Lemma guards_WriteFile p content mode : clear_of G p → frames T anything (WriteFile_path p content mode).
Proof using.
  intros Hp. unfold WriteFile_path. eapply (frames_bind T); [by apply guards_CreateTruncate|].
  intros [h|e] Hh; [|by apply frames_ret; [apply _|]]. cbn [oks] in Hh. frame_tac. apply guards_File_Write. by rewrite Hh.
Qed.
Lemma guards_mkdir_all rp mode : clear_of G (rev rp) → frames T anything (mkdir_all rp mode).
Proof using.
  induction rp as [|x rp IH]; intros Hp; cbn [mkdir_all]; [frame_tac|].
  assert (clear_of G (rev rp)) as Hp'.
  { eapply clear_prefix; [exact Hp|]. cbn [rev]. by apply prefix_app_r. }
  apply (frames_bind_any T); [frame_tac|]. intros [i|e]; [frame_tac|].
  apply (frames_bind_any T); [destruct rp; [frame_tac|by apply IH]|]. intros parent.
  frame_tac.
Qed.
Lemma guards_MkdirAll p mode : clear_of G p → frames T anything (MkdirAll_path p mode).
Proof using. intros Hp. apply guards_mkdir_all. by rewrite rev_involutive. Qed.
Lemma guards_remove_all fuel p : apart_of G p → frames T anything (remove_all fuel p).
Proof using.
  revert p. induction fuel as [|fuel IH]; intros p Hp; cbn [remove_all]; [frame_tac|].
  assert (∀ r : option goerror, frames T anything
    (let! again := Remove_path p in
     ret (match again with None => None | Some e => unless_missing e (first_error r (Some e)) end))) as Hfinish.
  { intros r. frame_tac. }
  apply (frames_bind_any T); [frame_tac|]. intros [unlinkErr|]; [|frame_tac].
  destruct (errors_is _ _); [frame_tac|].
  apply (frames_bind_any T); [frame_tac|]. intros [info|e]; [|frame_tac].
  destruct (IsDir info); cbn [negb]; [|frame_tac]. cbv zeta.
  apply (frames_bind_any T); [frame_tac|]. intros [entries|e]; [|frame_tac].
  apply (frames_bind_any T); [|exact Hfinish].
  generalize (@None goerror). induction entries as [|entry l IHl]; intros failed; [frame_tac|].
  apply (frames_bind_any T); [by apply IH, apart_below|]. intros r. apply IHl.
Qed.
Lemma guards_RemoveAll p : apart_of G p → frames T anything (RemoveAll_path p).
Proof using. apply guards_remove_all. Qed.
Lemma guards_mkdir_temp attempts random dir prefix : clear_of G dir → (∀ n, apart_of G (dir ++ [prefix +:+ itoa n])) →
  frames T (oks (λ p, ∃ n, p = dir ++ [prefix +:+ itoa n])) (mkdir_temp attempts random dir prefix).
Proof using.
  intros Hd Hn. induction attempts as [|attempts IH]; cbn [mkdir_temp]; [by apply frames_ret; [apply _|]|].
  eapply (frames_bind T); [apply (frames_tick T random)|]. intros n _. cbv zeta.
  eapply (frames_bind T); [by apply guards_Mkdir, apart_clear_of|]. intros [e|] _; [|apply frames_ret; [apply _|]; by exists n].
  destruct (errors_is e ErrExist); [exact IH|]. by apply frames_ret; [apply _|].
Qed.
End composite.

(** ** What success means *)

(** Any change is allowed. *)
Definition any_change (a b : FS) : Prop := True.
#[export] Instance any_change_preorder : PreOrder any_change.
Proof. by split. Qed.
Abbreviation achieves P m Q := (safe any_change P m Q).

(** An observation keeps what is known. *)
Lemma achieves_rest {A} (P : FS → Prop) (m : M FS A) : frames eq anything m → achieves P m (λ _, P).
Proof. intros H. eapply safe_weaken; [by apply (safe_observe any_change P), H|done|]. by intros a fs []. Qed.

Section achieved.
Context {E : OSEnv} {K : Crash}.

(** What a guarded path holds is kept. *)
Lemma achieves_kept {A} (q : path) (v : option node) (m : M FS A) :
  frames (guarded (eq q)) anything m → achieves (λ fs, at_path q fs = v) m (λ _ fs, at_path q fs = v).
Proof using. intros H w Hw. split; [done|]. intros a _. destruct (H w I) as [Hq _]. by rewrite (Hq q eq_refl). Qed.
Lemma achieves_frame {A} (P J : FS → Prop) (m : M FS A) (Q : A → FS → Prop) G :
  (∀ a b, guarded G a b → J a → J b) → frames (guarded G) anything m → achieves P m Q →
  achieves (λ fs, J fs ∧ P fs) m (λ a fs, J fs ∧ Q a fs).
Proof using.
  intros HJ Hf H w [Hj Hw]. split; [done|]. intros a Ha. destruct (H w Hw) as [_ HQ]. destruct (Hf w I) as [HG _].
  split; [by eapply HJ|by apply HQ].
Qed.

Lemma parent_dir p x n c : look (p ++ [x]) n = Some c → ∃ i m es, look p n = Some (NDir i m es).
Proof using. rewrite look_app. destruct (look p n) as [[| |i m es]|]; cbn; [done..| |done]. intros _. by exists i, m, es. Qed.
Lemma resolve_missing op p fs e : resolve op p fs = Err e → at_path p fs = None.
Proof using. unfold resolve, at_path. by destruct (walk _ _). Qed.

(** An error that says that there is nothing is right. *)
Definition missing_is_true (p : path) (r : option goerror) (fs : FS) : Prop :=
  match r with None => True | Some e => errors_is e ErrNotExist = true → at_path p fs = None end.
Context {HH : Honest E}.

Lemma achieves_looking {A} op p (f : node → result goerror A) (P : FS → Prop) :
  (∀ n e, f n = Err e → errors_is e ErrNotExist = false) →
  achieves P (reading op p (λ fs, let? n := resolve op p fs in f n))
    (λ r fs, P fs ∧ match r with Ok a => ∃ n, at_path p fs = Some n ∧ f n = Ok a | Err e => missing_is_true p (Some e) fs end).
Proof using HH.
  intros Hf w Hw. split; [done|]. unfold reading, sys. destruct (fs_crash _); [done|].
  destruct (os_fault _ _ _) as [e|] eqn:He; cbn; intros a [= <-]; (split; [done|]).
  - intros Hne. by rewrite (honest _ _ _ _ He) in Hne.
  - change (interfere (w_clock w) (w_app w)) with (w_app w).
    destruct (resolve op p (w_app w)) as [n|e] eqn:Hr; cbn.
    + destruct (f n) as [a|e] eqn:Hn; [exists n; split; [by eapply resolve_look|done]|]. cbn. rewrite (Hf _ _ Hn). done.
    + intros _. by eapply resolve_missing.
Qed.
Lemma achieves_Remove p : p ≠ [] →
  achieves anything (Remove_path p) (λ r fs, match r with None => at_path p fs = None | Some e => missing_is_true p r fs end).
Proof using HH.
  intros Hp w _. split; [done|]. unfold Remove_path, writing, sys, access. destruct (fs_crash _); [done|].
  destruct (os_fault _ _ _) as [e|] eqn:He; cbn.
  - intros a [= <-]. intros Hne. by rewrite (honest _ _ _ _ He) in Hne.
  - change (interfere (w_clock w) (w_app w)) with (w_app w). unfold change_at.
    destruct (resolve "remove" p (w_app w)) as [n|e] eqn:Hr; cbn.
    2: { intros a [= <-] _. by eapply resolve_missing. }
    apply resolve_look in Hr. rewrite look_at in Hr. destruct p as [|x p _] using rev_ind; [done|].
    destruct (parent_dir _ _ _ _ Hr) as (i & m & es & Hd).
    assert (∀ next, at_path (p ++ [x]) (mkFS (put (p ++ [x]) None (fs_tree (w_app w))) next) = None) as Hgone.
    { intros next. rewrite look_at. cbn [fs_tree]. by eapply look_put_eq. }
    destruct n as [| |j k fs0]; cbn; [by intros a [= <-]..|]. destruct (decide (fs0 = ∅)); cbn; intros a [= <-]; [done|done].
Qed.

Lemma achieves_remove_all fuel p : p ≠ [] → achieves anything (remove_all fuel p) (λ r fs, r = None → at_path p fs = None).
Proof using HH.
  intros Hp. destruct fuel as [|fuel]; cbn [remove_all]; [by intros w _; split|].
  assert (∀ (P : FS → Prop) r, achieves P (let! again := Remove_path p in
     ret (match again with None => None | Some e => unless_missing e (first_error r (Some e)) end))
     (λ r fs, r = None → at_path p fs = None)) as Hfinish.
  { intros P r. eapply safe_bind; [apply _|eapply safe_weaken; [by apply achieves_Remove|done|]; intros a fs Ha; exact Ha|].
    intros [e|]; apply safe_ret; try apply _; [|by intros fs ?]. intros fs He. unfold unless_missing.
    destruct (errors_is e ErrNotExist) eqn:Hne; [by intros _; apply He|by destruct r]. }
  eapply safe_bind; [apply _|by apply achieves_Remove|]. intros [e|]; [|by apply safe_ret; [apply _|]].
  destruct (errors_is e ErrNotExist) eqn:Hne; [apply safe_ret; [apply _|]; intros fs H _; by apply H|].
  eapply safe_bind; [apply _|by apply (achieves_looking "lstat" p (λ n, Ok (info_of n)))|].
  intros [info|e']; [|apply safe_ret; [apply _|]; intros fs [_ H]; unfold unless_missing; destruct (errors_is e' _) eqn:?; [intros _; by apply H|done]].
  destruct (IsDir info); cbn [negb]; [|by apply safe_ret; [apply _|]]. cbv zeta.
  eapply safe_bind; [apply _|apply (achieves_looking "open" p (λ n, match n with NDir _ _ _ => Ok (dir_entries n) | _ => Err (wrong_kind "open" p) end)); by intros [] ? [= <-]|].
  intros [entries|e'].
  - eapply safe_bind with (Q := λ _ _, True); [apply _| |intros r; apply Hfinish]. by intros w _; split.
  - destruct (errors_is e' ErrNotExist) eqn:Hne'; [|apply Hfinish]. apply safe_ret; [apply _|]. intros fs [_ H] _. by apply H.
Qed.
Lemma achieves_RemoveAll p : p ≠ [] →
  achieves anything (must (RemoveAll_path p)) (okst (λ _ fs, at_path p fs = None)).
Proof using HH.
  intros Hp. eapply safe_bind; [apply _|by apply achieves_remove_all|]. intros [e|]; apply safe_ret; try apply _; [done|].
  intros fs H. by apply H.
Qed.
End achieved.

Section written.
Context {E : OSEnv} {K : Crash}.

Definition file_at (p : path) (content : string) (fs : FS) : Prop := ∃ i m, at_path p fs = Some (NFile i m content).
Lemma file_put p x i m c tree next di dm des : look p tree = Some (NDir di dm des) →
  file_at (p ++ [x]) c (mkFS (put (p ++ [x]) (Some (NFile i m c)) tree) next).
Proof using. intros H. exists i, m. rewrite look_at. cbn [fs_tree]. by eapply look_put_eq. Qed.
Lemma achieves_CreateTruncate p x mode :
  achieves anything (CreateTruncate (p ++ [x]) mode) (okst (λ h fs, h_path h = p ++ [x] ∧ file_at (p ++ [x]) "" fs)).
Proof using.
  apply safe_sys; [apply _|done|]. intros [tree next] _. split; [done|]. unfold truncate, create. cbn [fs_tree fs_next].
  rewrite removelast_last. destruct (walk (p ++ [x]) tree) as [[i m c| |]| |] eqn:Hw; cbn; try done.
  - split; [done|]. assert (look (p ++ [x]) tree = Some (NFile i m c)) as (di & dm & des & Hd)%parent_dir by (unfold look; by rewrite Hw).
    by eapply file_put.
  - destruct (walk p tree) as [[| |di dm des]| |] eqn:Hp; cbn; try done. split; [done|]. eapply file_put. unfold look. by rewrite Hp.
Qed.
Lemma achieves_File_Write h content c p x : h_path h = p ++ [x] →
  achieves (file_at (p ++ [x]) c) (File_Write h content) (λ r fs, r = None → file_at (p ++ [x]) content fs).
Proof using.
  intros Hh w (i & m & Hi). split; [done|]. unfold File_Write, sys. destruct (fs_crash _); [done|].
  destruct (os_fault _ _ _); [by intros a [= <-]|]. unfold access. rewrite Hh.
  change (interfere (w_clock w) (w_app w)) with (w_app w). unfold change_at.
  destruct (resolve "write" (p ++ [x]) (w_app w)) as [n|] eqn:Hr; [|by intros a [= <-]]. apply resolve_look in Hr. rewrite Hi in Hr. injection Hr as <-. cbn.
  intros a [= <-] _. rewrite look_at in Hi. destruct (parent_dir _ _ _ _ Hi) as (di & dm & des & Hd). by eapply file_put.
Qed.
Lemma achieves_WriteFile p x content mode :
  achieves anything (must (WriteFile_path (p ++ [x]) content mode)) (okst (λ _, file_at (p ++ [x]) content)).
Proof using.
  unfold WriteFile_path. eapply safe_bind with (Q := λ r fs, r = None → file_at (p ++ [x]) content fs); [apply _| |].
  2: { intros [e|]; apply safe_ret; try apply _; [done|]. intros fs H. by apply H. }
  eapply safe_bind; [apply _|apply achieves_CreateTruncate|]. intros [h|e]; [|by apply safe_ret; [apply _|]].
  cbn [okst]. apply safe_pure. intros Hh. eapply safe_bind; [apply _|by apply achieves_File_Write|]. intros r.
  eapply safe_bind; [apply _|by apply achieves_rest, (frames_Close eq)|].
  intros closed. apply safe_ret; [apply _|]. intros fs H. destruct r; [done|]. intros _. by apply H.
Qed.
End written.
