(* ===== verification/InstallerPaths.v ===== *)
(** * Where an archive is extracted to

    A name that passes the guard of the extraction names a place strictly below the
    directory of extraction, whatever dots and slashes it has; the extraction of an
    archive changes nothing else. *)

From stdpp Require Import base gmap strings list fin_maps.
From Stdlib Require Import ZArith Lia Ascii.
From S2P Require Import Prelude GoStrings GoErrors GoJson GoOS GoFS GoFSTree CertMaterial CertStore CertFrame HooksText CsprojProofs RestartIdentity Installer InstallerFrame.
Set Default Goal Selector "!".

(** ** Cleaning a relative name *)

(** The stack of a relative path: proper elements above dots that go up. *)
Definition climbs (stack : list string) : Prop := ∃ es n, stack = es ++ replicate n ".." ∧ Forall proper es.

Lemma push_climbs stack e : climbs stack → no_slash e → climbs (clean_push false stack e).
Proof.
  intros (es & n & -> & Hes) He. unfold clean_push.
  destruct (String.eqb_spec e "") as [|H1]; [by exists es, n|]. destruct (String.eqb_spec e ".") as [|H2]; [by exists es, n|]. cbn [orb].
  destruct (String.eqb_spec e "..") as [->|H3]; [|exists (e :: es), n; split; [done|by constructor]].
  destruct es as [|top es]; cbn [app].
  - destruct n as [|n]; [by exists [], 1%nat|]. cbn [replicate]. by exists [], (S (S n)).
  - apply Forall_cons in Hes as [(_ & _ & Ht & _) Hes]. apply String.eqb_neq in Ht. rewrite Ht. by exists es, n.
Qed.
Lemma fold_climbs es : ∀ stack, climbs stack → Forall no_slash es → climbs (foldl (clean_push false) stack es).
Proof.
  induction es as [|e es IH]; intros stack Hs Hes; [done|]. apply Forall_cons in Hes as [He Hes].
  cbn [foldl]. apply IH; [by apply push_climbs|done].
Qed.
Lemma split_no_slash s : Forall no_slash (split s slash).
Proof. apply (split_bytes_spec (bytes s) []). constructor. Qed.

Lemma join_dots es : has_prefix (join (".." :: es) "/") "../" = true ∨ join (".." :: es) "/" = "..".
Proof. destruct es as [|e es]; [by right|left]. by apply has_prefix_spec; exists (join (e :: es) "/"). Qed.

(** A relative name that is not refused has proper elements only. *)
Lemma safe_name_elements name : unsafeArchiveName (path_clean name) = false →
  ∃ es, es ≠ [] ∧ Forall proper es ∧ path_clean name = join es "/".
Proof.
  unfold unsafeArchiveName. intros [[[H1 H2]%orb_false_iff H3]%orb_false_iff H4]%orb_false_iff.
  unfold path_clean in *. destruct (is_abs name) eqn:Ha.
  { assert (is_abs ("/" +:+ join (clean_elems name) "/") = true) as Hb by (apply has_prefix_spec; by eexists). by rewrite Hb in H4. }
  destruct (String.eqb_spec (join (clean_elems name) "/") "") as [|Hne]; [by rewrite String.eqb_refl in H1|].
  exists (clean_elems name). unfold clean_elems in *. rewrite Ha in *.
  destruct (fold_climbs (split name slash) [] ltac:(by exists [], 0%nat) (split_no_slash name)) as (es & n & Hst & Hes).
  rewrite Hst in *. rewrite rev_app_distr in *.
  destruct n as [|n].
  - cbn [replicate rev app] in *. split; [intros Hnil; by rewrite Hnil in Hne|]. split; [by apply Forall_rev|done].
  - exfalso. assert (rev (replicate (S n) "..") = ".." :: rev (replicate n "..")) as Hr.
    { clear. induction n as [|n IH]; [done|]. cbn [replicate rev] in *. rewrite IH at 1. done. }
    rewrite Hr in *. cbn [app] in *. destruct (join_dots (rev (replicate n "..") ++ rev es)) as [Hp|Hp]; rewrite Hp in *; done.
Qed.

Lemma split_join_slash es : es ≠ [] → Forall no_slash es → split (join es "/") slash = es.
Proof. intros H1 H2. pose proof (split_rooted es H1 H2) as H. change (split ("/" +:+ join es "/") slash) with ("" :: split (join es "/") slash) in H. by injection H. Qed.

Lemma descend_proper base es : es ≠ [] → Forall proper es → descend base (join es "/") = base ++ es.
Proof.
  intros Hne Hes. unfold descend. rewrite split_join_slash; [|done|eapply Forall_impl; [exact Hes|]; by intros e (_ & _ & _ & ?)].
  rewrite fold_proper_id by done. by rewrite rev_app_distr, !rev_involutive.
Qed.
(** The target of an entry is strictly below the destination. *)
Lemma descend_safe dest name : unsafeArchiveName (path_clean name) = false →
  ∃ x s, descend dest (path_clean name) = dest ++ x :: s ∧ Forall proper (x :: s).
Proof.
  intros (es & Hne & Hes & ->)%safe_name_elements. destruct es as [|x s]; [done|]. exists x, s.
  split; [by apply descend_proper|done].
Qed.

(** ** Extraction *)

(** Where an entry goes. *)
Definition entry_target (dest : path) (entry : tarEntry) : path := descend dest (path_clean (te_Name entry)).
Definition entry_safe (entry : tarEntry) : Prop := unsafeArchiveName (path_clean (te_Name entry)) = false.

Section extraction.
Context {E : OSEnv} {K : Crash} {U : UnicodeTables} {AR : Archives}.

Section frame.
Context (G : path → Prop).
#[local] Abbreviation T := (guarded G).

Lemma guards_extractArchiveFile entry target : clear_of G target → frames T anything (extractArchiveFile entry target).
Proof using.
  intros Ht. unfold extractArchiveFile.
  apply (frames_try_any T).
  { apply frames_must; [apply _|]. apply guards_MkdirAll. eapply clear_prefix; [exact Ht|].
    destruct target as [|x target _] using rev_ind; [done|]. rewrite removelast_last. by apply prefix_app_r. }
  intros _. eapply (frames_try_fact T); [by apply guards_CreateTruncate|]. intros h Hh.
  frame_tac. apply guards_File_Write. by rewrite Hh.
Qed.
Lemma guards_extractArchiveEntry entry dest : (entry_safe entry → clear_of G (entry_target dest entry)) →
  frames T anything (extractArchiveEntry entry dest).
Proof using.
  intros Ht. unfold extractArchiveEntry, entry_target, entry_safe in *. cbv zeta.
  destruct (unsafeArchiveName _) eqn:Hu; [frame_tac|]. specialize (Ht eq_refl).
  destruct (te_Typeflag entry); [apply frames_must; [apply _|]; by apply guards_MkdirAll|by apply guards_extractArchiveFile|frame_tac].
Qed.
Lemma guards_extract_entries entries ending dest : Forall (λ e, entry_safe e → clear_of G (entry_target dest e)) entries →
  frames T anything (extract_entries entries ending dest).
Proof using.
  induction 1 as [|entry entries He _ IH]; cbn [extract_entries]; [frame_tac|].
  apply (frames_try_any T); [by apply guards_extractArchiveEntry|]. intros _. apply IH.
Qed.
Lemma entry_below entry dest : entry_safe entry → ∃ x s, entry_target dest entry = dest ++ x :: s.
Proof using. intros H. destruct (descend_safe dest _ H) as (x & s & Hd & _). by exists x, s. Qed.
Lemma guards_extractArchive archive dest : apart_of G dest → frames T anything (extractArchive archive dest).
Proof using.
  intros Hd. unfold extractArchive. apply (frames_try_any T); [frame_tac|]. intros f.
  apply (frames_bind_any T); [|intros r; frame_tac].
  destruct (if IsDir _ then _ else _) as [[entries ending]|e]; [|frame_tac].
  apply guards_extract_entries, Forall_forall. intros entry _ He.
  destruct (entry_below entry dest He) as (x & s & ->). by apply apart_clear_of, apart_below.
Qed.
End frame.

(** ** What was extracted *)

Lemma achieves_extractArchiveFile entry p x :
  achieves anything (extractArchiveFile entry (p ++ [x])) (okst (λ _, file_at (p ++ [x]) (te_Data entry))).
Proof using.
  unfold extractArchiveFile. eapply (safe_try any_change) with (Q := λ _ _, True); [by intros w _; split; [done|intros []]|]. intros _.
  eapply (safe_try any_change); [apply achieves_CreateTruncate|]. intros h. apply safe_pure. intros Hh.
  eapply safe_bind with (Q := λ r fs, r = None → file_at (p ++ [x]) (te_Data entry) fs); [apply _| |].
  { destruct (String.eqb_spec (te_Data entry) "") as [->|_]; [by apply safe_ret; [apply _|]|by apply achieves_File_Write]. }
  intros r. eapply safe_bind; [apply _|by apply achieves_rest, (frames_Close eq)|].
  intros closed. apply safe_ret; [apply _|]. intros fs H. destruct r; [by destruct (te_Err entry), closed|].
  destruct (te_Err entry), closed; [done..|]. by apply H.
Qed.

(** A regular entry whose place no later entry takes is there, with its data. *)
Definition extracted (dest : path) (entries : list tarEntry) (fs : FS) : Prop :=
  ∀ before entry after, entries = before ++ entry :: after → te_Typeflag entry = TypeReg →
    Forall (λ later, ¬ entry_target dest entry `prefix_of` entry_target dest later) after →
    file_at (entry_target dest entry) (te_Data entry) fs.

Lemma achieves_extract_entries entries ending dest :
  achieves anything (extract_entries entries ending dest)
    (okst (λ _ fs, ending = None ∧ Forall entry_safe entries ∧ extracted dest entries fs)).
Proof using.
  induction entries as [|entry entries IH]; cbn [extract_entries].
  { destruct ending; apply safe_ret; try apply _; [done|]. intros fs _. split; [done|]. split; [done|].
    by intros [] ? ? ?. }
  intros w _. split; [done|]. unfold rbind, bind.
  destruct (extractArchiveEntry entry dest w) as [[[[]|e]|s|] w'] eqn:He; [|by intros a [= <-]|done..].
  destruct (extract_entries entries ending dest w') as [o w''] eqn:Hes. intros [[]|e] Ho; [|done]. cbn [fst snd] in *.
  destruct (IH w' I) as [_ HIH]. rewrite Hes in HIH. specialize (HIH _ Ho) as (Hend & Hsafe & Hext). cbn [fst snd] in *.
  assert (entry_safe entry) as Hentry.
  { unfold entry_safe. unfold extractArchiveEntry in He. destruct (unsafeArchiveName _); [|done]. by injection He. }
  split; [done|]. split; [by constructor|].
  intros [|e before] entry' after Heq Hreg Hafter; [|by apply (Hext before entry' after); [by injection Heq|..]].
  injection Heq as <- <-. destruct (entry_below entry dest Hentry) as (x & s & Htarget).
  destruct (exists_last (l := dest ++ x :: s)) as (p & y & Hlast); [by destruct dest|].
  assert (file_at (entry_target dest entry) (te_Data entry) (w_app w')) as (i & m & Hfile).
  { unfold extractArchiveEntry in He. unfold entry_safe in Hentry. rewrite Hentry, Hreg in He.
    fold (entry_target dest entry) in He. rewrite Htarget, Hlast in *.
    destruct (achieves_extractArchiveFile entry p y w I) as [_ Hf]. rewrite He in Hf. exact (Hf (Ok tt) eq_refl). }
  exists i, m. rewrite <-Hfile.
  assert (Forall (λ e, entry_safe e → clear_of (eq (entry_target dest entry)) (entry_target dest e)) entries) as Hclear.
  { eapply Forall_impl; [exact Hafter|]. intros e Hp _ q <-. exact Hp. }
  destruct (guards_extract_entries _ entries ending dest Hclear w' I) as [HG _]. rewrite Hes in HG. by apply (HG _ eq_refl).
Qed.

(** An open file that is not a directory is a regular file. *)
Lemma sees_Open_file p : safe eq anything (Open p)
  (okst (λ h fs, IsDir (h_info h) = false → ∃ i m, at_path p fs = Some (NFile i m (h_content h)))).
Proof using.
  eapply safe_weaken; [apply sees_reading|done|]. intros [h|e] fs H; [|done]. cbn [oks okst] in *.
  destruct (resolve _ _ _) as [n|] eqn:Hr; [|done]. apply resolve_look in Hr.
  destruct n; try done; injection H as <-; cbn; [eauto|done].
Qed.

(** C18: extracting an archive is confined to its destination.  Whatever names, types
    and errors the archive has, whatever calls fail and wherever the process dies,
    nothing changes at a path that is not at, above or below the destination; and an
    extraction that reports success has met no name that leaves the destination and
    no error of the archive, and every regular entry whose place no later entry takes
    is a file with the data of the archive. *)
Theorem extractArchive_confined (archive dest : path) (w : world FS) :
  let r := extractArchive archive dest w in
  guarded (λ q, ¬ q `prefix_of` dest ∧ ¬ dest `prefix_of` q) (w_app w) (w_app r.2) ∧
  (r.1 = Returned (Ok tt) →
     ∃ i m content entries, at_path archive (w_app w) = Some (NFile i m content) ∧ read_archive content = Ok (entries, None) ∧
       Forall entry_safe entries ∧ extracted dest entries (w_app r.2)).
Proof using.
  intros r. subst r. split.
  { apply (guards_extractArchive (λ q, ¬ q `prefix_of` dest ∧ ¬ dest `prefix_of` q)); [|done]. by intros q Hq. }
  assert (achieves (λ fs, fs = w_app w) (extractArchive archive dest) (okst (λ _ fs,
    ∃ i m content entries, at_path archive (w_app w) = Some (NFile i m content) ∧ read_archive content = Ok (entries, None) ∧
      Forall entry_safe entries ∧ extracted dest entries fs))) as H.
  2: { intros Hr. destruct (H w eq_refl) as [_ HQ]. exact (HQ _ Hr). }
  unfold extractArchive. eapply (safe_try any_change); [apply (safe_observe_ok any_change), sees_Open_file|]. intros h.
  eapply safe_weaken with (P := λ _, IsDir (h_info h) = false → ∃ i m, at_path archive (w_app w) = Some (NFile i m (h_content h)));
    [|by intros fs (-> & ?)|intros a fs Ha; exact Ha].
  apply safe_fact. intros Hat. eapply safe_bind with (Q := okst (λ _ fs, ∃ i m content entries,
    at_path archive (w_app w) = Some (NFile i m content) ∧ read_archive content = Ok (entries, None) ∧
    Forall entry_safe entries ∧ extracted dest entries fs)); [apply _| |].
  - destruct (IsDir (h_info h)); [by apply safe_ret; [apply _|]|]. destruct (Hat eq_refl) as (i & m & Hfile).
    destruct (read_archive _) as [[entries ending]|e] eqn:Hread; [|by apply safe_ret; [apply _|]].
    eapply safe_weaken; [apply achieves_extract_entries|done|]. intros [[]|e] fs; [|done]. intros (-> & Hsafe & Hext).
    cbn [okst]. by exists i, m, (h_content h), entries.
  - intros result. eapply safe_bind; [apply _|by apply achieves_rest, (frames_Close eq)|].
    intros closed. by apply safe_ret; [apply _|].
Qed.
End extraction.
