(* ===== verification/InstallerProofs.v ===== *)
(** * The installer: upgrades

    An upgrade never disturbs the version that is served, whatever fails and
    wherever the process dies; one that reports success has published a verified
    archive and kept exactly one predecessor. *)

From stdpp Require Import base gmap strings list fin_maps.
From Stdlib Require Import ZArith Lia Ascii.
From S2P Require Import Prelude GoStrings GoErrors GoJson GoOS GoFS GoFSTree CertMaterial CertStore CertFrame CertSafety Installer InstallerFrame InstallerPaths.
Set Default Goal Selector "!".

(** ** The state of an installation *)

Definition version_dir_of (root : path) (v : string) : path := root ++ ["versions"; v].
Definition current_of (root : path) : path := root ++ ["current"].

(** The completion sentinel is there. *)
Definition verified_at (dir : path) (fs : FS) : Prop :=
  ∃ n, at_path (dir ++ [verifiedSentinelName]) fs = Some n ∧ ∀ i t, n ≠ NLink i t.
(** [current] is a link to the version [v]. *)
Definition points_to (root : path) (v : string) (fs : FS) : Prop :=
  ∃ i t, at_path (current_of root) fs = Some (NLink i t) ∧ path_base t = v.
(** The installation serves a verified version, if [serving] says so. *)
Definition serves (root : path) (serving : option string) (fs : FS) : Prop :=
  ∀ v, serving = Some v → points_to root v fs ∧ verified_at (version_dir_of root v) fs.

(** Directories for scratch are apart from the installation. *)
Definition scratch_apart (root cache : path) : Prop :=
  ∀ n q, q ∈ [root ++ ["versions"]; root ++ ["current"]] →
    ¬ q `prefix_of` cache ++ [staging_prefix +:+ itoa n] ∧ ¬ cache ++ [staging_prefix +:+ itoa n] `prefix_of` q.

(** Looking at a file or link does not fail for passing reasons. *)
Class Observable (E : OSEnv) : Prop := {
  observe_stat t p : os_fault t "stat" p = None;
  observe_link t p : os_fault t "readlink" p = None;
}.

Lemma at_below p q s a b : at_path p a = at_path p b → q = p ++ s → at_path q a = at_path q b.
Proof. intros H ->. rewrite !look_at, !look_app. rewrite !look_at in H. by rewrite H. Qed.
Lemma verified_same dir a b : at_path dir a = at_path dir b → verified_at dir a → verified_at dir b.
Proof. intros H (n & Hn & Hl). exists n. split; [|done]. rewrite <-Hn. symmetry. by eapply at_below. Qed.

Lemma path_base_nonempty p : path_base p ≠ "".
Proof.
  unfold path_base. destruct (String.eqb p ""); [done|]. destruct (last _) as [b|]; [|done]. by destruct (String.eqb_spec b "").
Qed.

Lemma contains_no_slash s : contains s "/" = false → Forall (λ a, a ≠ slash) (bytes s).
Proof.
  induction s as [|a s IH]; [constructor|]. cbn [contains]. intros [H1 H2]%orb_false_iff. constructor; [|by apply IH].
  intros ->. by destruct s.
Qed.
Lemma segment_is_element {U : UnicodeTables} v : validateVersionSegment v = None → element v.
Proof.
  unfold validateVersionSegment. destruct (String.eqb_spec v ""), (String.eqb_spec v "."), (String.eqb_spec v ".."); try done. cbn [orb].
  destruct (contains v "/") eqn:Hc; [done|]. intros _. split; [by apply contains_no_slash|done..].
Qed.
Lemma element_join v : element v → path_join ["versions"; v] = "versions/" +:+ v.
Proof.
  intros Hv. pose proof (under_version [] v Hv) as H. unfold under in H. cbn [app] in H.
  change (path_join ["versions"; v]) with (path_clean ("versions/" +:+ v)). unfold path_clean. rewrite H.
  change (is_abs ("versions/" +:+ v)) with false. done.
Qed.

(** ** Relations that are not transitive *)

(** A step of the weaker kind first; one of the weaker kind last. *)
Lemma safe_left {A B} (T R : relation FS) (P : FS → Prop) (m : M FS A) (Q : A → FS → Prop) (k : A → M FS B) (Q' : B → FS → Prop) :
  (∀ a b, T a b → R a b) → (∀ a b c, T a b → R b c → R a c) →
  safe T P m Q → (∀ a, safe R (Q a) (k a) Q') → safe R P (bind m k) Q'.
Proof.
  intros H1 H2 Hm Hk w Hw. destruct (Hm w Hw) as [HT HQ]. unfold bind.
  destruct (m w) as [[a|p|] w'] eqn:Heq; cbn [fst snd] in *; [|by split; [apply H1|]..].
  destruct (Hk a w' (HQ a eq_refl)) as [HR HQ']. split; [by eapply H2|done].
Qed.
Lemma safe_right {A B} (T R : relation FS) (P : FS → Prop) (m : M FS A) (Q : A → FS → Prop) (k : A → M FS B) (Q' : B → FS → Prop) :
  (∀ a b c, R a b → T b c → R a c) →
  safe R P m Q → (∀ a, safe T (Q a) (k a) Q') → safe R P (bind m k) Q'.
Proof.
  intros H Hm Hk w Hw. destruct (Hm w Hw) as [HR HQ]. unfold bind.
  destruct (m w) as [[a|p|] w'] eqn:Heq; cbn [fst snd] in *; [|by split..].
  destruct (Hk a w' (HQ a eq_refl)) as [HT HQ']. split; [by eapply H|done].
Qed.
Lemma safe_sub {A} (T R : relation FS) (P : FS → Prop) (m : M FS A) (Q : A → FS → Prop) :
  (∀ a b, T a b → R a b) → safe T P m Q → safe R P m Q.
Proof. intros H Hm w Hw. destruct (Hm w Hw). split; [by apply H|done]. Qed.

(** Two facts of the same run. *)
Lemma safe_and {A} (T R : relation FS) (P : FS → Prop) (m : M FS A) (Q Q' : A → FS → Prop) :
  safe T P m Q → safe R P m Q' → safe T P m (λ a fs, Q a fs ∧ Q' a fs).
Proof. intros H1 H2 w Hw. destruct (H1 w Hw), (H2 w Hw). split; [done|]. auto. Qed.
Lemma safe_and_ok {A} (T R : relation FS) (P : FS → Prop) (m : M FS (result goerror A)) (Q Q' : A → FS → Prop) :
  safe T P m (okst Q) → safe R P m (okst Q') → safe T P m (okst (λ a fs, Q a fs ∧ Q' a fs)).
Proof. intros H1 H2. eapply safe_weaken; [by apply (safe_and T R); [exact H1|exact H2]|done|]. by intros [a|e] fs []. Qed.

(** ** Looking *)

Section looking.
Context {E : OSEnv} {K : Crash}.

Lemma sees_verified dir : safe eq anything (verifiedSentinelExists dir) (λ b fs, b = true → verified_at dir fs).
Proof using.
  unfold verifiedSentinelExists. eapply (safe_bind eq); [apply sees_reading|]. intros r. apply safe_ret; [apply _|].
  intros fs H Hok. destruct r as [i|]; [|done]. cbn in H. destruct (resolve _ _ _) as [n|] eqn:Hr; [|done].
  apply resolve_look in Hr. exists n. split; [done|]. intros j t ->. done.
Qed.
Lemma sees_unverified `{!Observable E} dir : safe eq anything (verifiedSentinelExists dir) (λ b fs, b = false → ¬ verified_at dir fs).
Proof using.
  intros w _. unfold verifiedSentinelExists, Stat_path, reading, bind, sys. destruct (fs_crash _); [done|].
  rewrite observe_stat. cbn. split; [done|]. intros b [= <-] Hb (n & Hn & Hl).
  change (interfere (w_clock w) (w_app w)) with (w_app w) in *. unfold resolve, at_path in *.
  destruct (walk _ _) as [n'| |]; [|done..]. injection Hn as ->. cbn in Hb. destruct n; try done. by eapply Hl.
Qed.
Lemma sees_sentinel `{!Observable E} dir :
  safe eq anything (verifiedSentinelExists dir) (λ b fs, if b then verified_at dir fs else ¬ verified_at dir fs).
Proof using.
  eapply safe_weaken; [apply (safe_and eq eq); [apply sees_verified|by apply sees_unverified]|done|].
  intros [] fs [H1 H2]; auto.
Qed.
Lemma sees_current root : safe eq anything (readCurrentVersion root) (okst (λ v, points_to root v)).
Proof using.
  unfold readCurrentVersion. eapply (safe_try eq); [apply sees_Readlink|]. intros t. apply safe_ret; [apply _|].
  intros fs (i & Hi). by exists i, t.
Qed.
Lemma sees_served `{!Observable E} root v (P : FS → Prop) : (∀ fs, P fs → points_to root v fs) →
  safe eq P (readCurrentVersion root) (λ r fs, P fs ∧ r = Ok v).
Proof using.
  intros HP w Hw. destruct (HP _ Hw) as (i & t & Ht & Hb). unfold readCurrentVersion, rbind, bind, Readlink, reading, sys.
  destruct (fs_crash _); [done|]. rewrite observe_link. cbn.
  change (interfere (w_clock w) (w_app w)) with (w_app w).
  assert (resolve "readlink" (root ++ ["current"]) (w_app w) = Ok (NLink i t)) as ->.
  { unfold resolve. unfold at_path, current_of in Ht. destruct (walk _ _); congruence. }
  cbn. split; [done|]. intros r [= <-]. by rewrite Hb.
Qed.
Lemma guards_verified G dir : frames (guarded G) anything (verifiedSentinelExists dir).
Proof using. unfold verifiedSentinelExists. frame_tac. Qed.
Lemma guards_current G root : frames (guarded G) anything (readCurrentVersion root).
Proof using. unfold readCurrentVersion. frame_tac. Qed.
End looking.
#[export] Hint Resolve guards_verified guards_current : frame.

(** ** Moving the link *)

(** Apart from [current], which may become a link to [target], what is guarded is as
    it was. *)
Definition repointed (root : path) (target : string) (G : path → Prop) (a b : FS) : Prop :=
  guarded G a b ∧ (at_path (current_of root) b = at_path (current_of root) a ∨ ∃ i, at_path (current_of root) b = Some (NLink i target)).
#[export] Instance repointed_preorder root target G : PreOrder (repointed root target G).
Proof.
  split; [by intros a; split; [|left]|]. intros a b c [H1 H2] [H3 H4]. split; [by etrans|].
  destruct H4 as [->|?]; [done|by right].
Qed.

Section link.
Context {E : OSEnv} {K : Crash} (root : path) (target : string) (G : path → Prop).
(** The place of the link and of its temporary name are not guarded. *)
Context (HG : ∀ x, x = "current" ∨ has_prefix x ".current.tmp-" = true → apart_of G (root ++ [x])).
#[local] Abbreviation T := (repointed root target G).

Lemma dotted_tmp x : has_prefix (".current.tmp-" +:+ x) ".current.tmp-" = true.
Proof using. by apply HooksText.has_prefix_spec; exists x. Qed.
Lemma sub_repointed a b : guarded (λ q, G q ∨ q = current_of root) a b → T a b.
Proof using. intros H. split; [intros q Hq; apply H; by left|left; apply H; by right]. Qed.
Lemma apart_tmp x : apart_of (λ q, G q ∨ q = current_of root) (root ++ [".current.tmp-" +:+ x]).
Proof using HG.
  intros q [Hq| ->]; [by apply (HG (".current.tmp-" +:+ x)); [right; apply dotted_tmp|]|]. unfold current_of.
  split; intros H%prefix_app_inv%prefix_cons_inv_1; done.
Qed.
Definition has_link (p : path) (fs : FS) : Prop := ∃ i, at_path p fs = Some (NLink i target).

Lemma safe_Symlink x : safe T anything (must (Symlink target (root ++ [".current.tmp-" +:+ x]))) (okst (λ _, has_link (root ++ [".current.tmp-" +:+ x]))).
Proof using HG.
  eapply safe_bind with (Q := λ r fs, r = None → has_link (root ++ [".current.tmp-" +:+ x]) fs); [apply _| |].
  2: { intros [e|]; apply safe_ret; try apply _; [done|]. intros fs H. by apply H. }
  apply safe_writing; [apply _|done|]. intros fs fs' _ Hc. split.
  - apply sub_repointed. eapply guarded_create; [apply apart_clear_of, apart_tmp| |exact Hc]. intros i. apply leaf_link.
  - intros _. unfold create in Hc. rewrite removelast_last in Hc. destruct (walk (_ ++ _) _); try done.
    destruct (walk root _) as [[| |di dm des]| |] eqn:Hd; try done. injection Hc as <-. exists (fs_next fs).
    rewrite look_at. cbn [fs_tree]. eapply (look_put_eq root _ _ _ di dm des). unfold look. by rewrite Hd.
Qed.
Lemma safe_relink x : safe T (has_link (root ++ [".current.tmp-" +:+ x])) (Rename_path (root ++ [".current.tmp-" +:+ x]) (root ++ ["current"]))
  (λ r fs, r = None → has_link (current_of root) fs).
Proof using HG.
  apply safe_writing; [apply _|done|]. intros fs fs' (i & Hi) (n & di & dm & des & Hn & Hd & _ & ->)%rename_ok.
  rewrite Hi in Hn. injection Hn as <-. rewrite removelast_last in Hd.
  assert (look root (fs_tree fs) = Some (NDir di dm des)) as Hd' by (unfold look; by rewrite Hd).
  pose proof (look_put_dir root (".current.tmp-" +:+ x) None (fs_tree fs) di dm des Hd') as Hd''.
  assert (has_link (current_of root) (mkFS (put (root ++ ["current"]) (Some (NLink i target)) (put (root ++ [".current.tmp-" +:+ x]) None (fs_tree fs))) (fs_next fs))) as Hl.
  { exists i. rewrite look_at. cbn [fs_tree]. by eapply look_put_eq. }
  split; [|done]. split; [|by right]. destruct fs as [tree next]. cbn [fs_tree fs_next] in *.
  etrans; [apply (guarded_apart G (root ++ [".current.tmp-" +:+ x]) None tree next next)|apply guarded_apart]; apply HG; [right; apply dotted_tmp|by left].
Qed.
Lemma safe_relink_current dir : target = path_join ["versions"; default "." (last dir)] →
  safe T anything (publishCurrent root dir) (okst (λ _, has_link (current_of root))).
Proof using HG.
  intros Ht. unfold publishCurrent. cbv zeta. rewrite <-Ht.
  eapply safe_bind; [apply _|apply (frames_Now T)|]. intros now. cbv beta.
  eapply (safe_try T); [apply safe_Symlink|]. intros []; cbv beta.
  eapply safe_bind; [apply _|apply safe_relink|]. intros [e|]; cbv beta; [|apply safe_ret; [apply _|]; intros fs H; by apply H].
  eapply safe_bind with (Q := λ _ _, True); [apply _| |intros r; by apply safe_ret; [apply _|]].
  eapply safe_weaken; [eapply (safe_sub _ T); [apply sub_repointed|]; apply guards_Remove, apart_clear_of, apart_tmp|done|done].
Qed.
End link.

(** ** An upgrade of one installation *)

Section upgrade.
Context {E : OSEnv} {K : Crash} {U : UnicodeTables} {TT : TextTools} {AR : Archives}.
Context (ops : installerOperations) (root cache : path) (version : string) (serving : option string).

(** [current] and the version that is served. *)
Definition served (q : path) : Prop := q = current_of root ∨ ∃ v, serving = Some v ∧ q = version_dir_of root v.
#[local] Abbreviation T := (guarded served).
Definition still_verified (fs : FS) : Prop := ∀ v, serving = Some v → verified_at (version_dir_of root v) fs.
Lemma still_verified_stable a b : T a b → still_verified a → still_verified b.
Proof using. intros H Ha v Hv. eapply verified_same; [|by apply Ha]. symmetry. apply H. right. by exists v. Qed.
Lemma safe_still {A} (m : M FS A) : frames T anything m → safe T still_verified m (λ _, still_verified).
Proof using.
  intros H. eapply safe_weaken; [apply (safe_stable T anything still_verified); [apply still_verified_stable|exact H]|done|]. by intros a fs [].
Qed.
Lemma safe_still_ok {A} (m : M FS (result goerror A)) : frames T anything m → safe T still_verified m (okst (λ _, still_verified)).
Proof using. intros H. eapply safe_weaken; [by apply safe_still|done|]. by intros []. Qed.

Lemma root_prefix (s t : path) : root ++ s `prefix_of` root ++ t ↔ s `prefix_of` t.
Proof using. split; [apply prefix_app_inv|apply prefix_app]. Qed.
Lemma apart_top_entry x s : x ≠ "current" → x ≠ "versions" → apart_of served (root ++ x :: s).
Proof using.
  intros H1 H2 q [->|(v & _ & ->)]; unfold current_of, version_dir_of; rewrite !root_prefix;
    (split; intros ?%prefix_cons_inv_1; congruence).
Qed.
Lemma apart_version_dir x s : serving ≠ Some x → apart_of served (root ++ "versions" :: x :: s).
Proof using.
  intros Hx q [->|(v & Hv & ->)]; unfold current_of, version_dir_of; rewrite !root_prefix.
  - split; intros ?%prefix_cons_inv_1; congruence.
  - split; intros H%prefix_cons_inv_2%prefix_cons_inv_1; congruence.
Qed.
Lemma clear_versions_dir : clear_of served (root ++ ["versions"]).
Proof using.
  intros q [->|(v & Hv & ->)]; unfold current_of, version_dir_of; rewrite root_prefix.
  - intros ?%prefix_cons_inv_1. congruence.
  - intros H%prefix_cons_inv_2. by apply prefix_nil_inv in H.
Qed.
Lemma clear_root_entry x : x ≠ "current" → clear_of served (root ++ [x]).
Proof using.
  intros Hx q [->|(v & Hv & ->)]; unfold current_of, version_dir_of; rewrite root_prefix.
  - intros ?%prefix_cons_inv_1. congruence.
  - intros H%prefix_cons_inv_2. by apply prefix_nil_inv in H.
Qed.

(** *** Cleaning up *)

Lemma safe_remove_unverified `{!Observable E} entries :
  safe T still_verified (remove_unverified (root ++ ["versions"]) entries) (okst (λ _, still_verified)).
Proof using.
  induction entries as [|[name isDir] entries IH]; cbn [remove_unverified]; [by apply safe_ret; [apply _|]|].
  destruct isDir; cbn [negb]; [|exact IH]. cbv zeta.
  eapply safe_bind; [apply _|apply (safe_observe T still_verified), sees_unverified|]. intros [].
  - eapply (safe_try T) with (Q := λ _, still_verified); [apply safe_ret; [apply _|]; by intros fs []|]. intros _. exact IH.
  - eapply (safe_try T) with (Q := λ _, still_verified); [|intros _; exact IH].
    apply safe_weaken with (P := λ fs, still_verified fs ∧ ¬ verified_at (version_dir_of root name) fs) (Q := okst (λ _, still_verified)).
    + intros w [Hw Hn]. assert (serving ≠ Some name) as Hs by (intros Hs; apply Hn, Hw, Hs).
      refine (safe_still_ok _ _ w Hw). apply frames_reported; [apply _|]. apply frames_must; [apply _|].
      apply guards_RemoveAll. rewrite <-app_assoc. by apply apart_version_dir.
    + intros fs [H1 H2]. split; [done|]. unfold version_dir_of. specialize (H2 eq_refl). by rewrite <-app_assoc in H2.
    + done.
Qed.
Lemma safe_prepare `{!Observable E} : safe T still_verified (prepareUpgradeDirectory (root ++ ["versions"])) (okst (λ _, still_verified)).
Proof using.
  unfold prepareUpgradeDirectory. eapply (safe_try T).
  { apply safe_still_ok, frames_reported, frames_must, guards_MkdirAll, clear_versions_dir; apply _. }
  intros ?; cbv beta. unfold cleanupUnverifiedPartials. eapply safe_bind; [apply _|apply safe_still; frame_tac|].
  intros [entries|e]; [apply safe_remove_unverified|]. destruct (errors_is e ErrNotExist); by apply safe_ret; [apply _|].
Qed.

(** *** Publishing the version *)

Context (Hscratch : scratch_apart root cache).

Lemma staging_outside n s : ¬ root ++ "versions" :: s `prefix_of` cache ++ [staging_prefix +:+ itoa n] ∧
  ¬ cache ++ [staging_prefix +:+ itoa n] `prefix_of` root ++ "versions" :: s.
Proof using Hscratch.
  destruct (Hscratch n (root ++ ["versions"])) as [H1 H2]; [left|].
  assert (root ++ "versions" :: s = (root ++ ["versions"]) ++ s) as -> by (by rewrite <-app_assoc).
  split; intros H; [apply H1; etrans; [|exact H]; by apply prefix_app_r|].
  destruct (prefix_weak_total (cache ++ [staging_prefix +:+ itoa n]) (root ++ ["versions"]) ((root ++ ["versions"]) ++ s));
    [done|by apply prefix_app_r|done|done].
Qed.
Lemma staging_apart n : apart_of served (cache ++ [staging_prefix +:+ itoa n]).
Proof using Hscratch. intros q [->|(v & _ & ->)]; [apply Hscratch; right; left|apply staging_outside]. Qed.
Lemma cache_clear : clear_of served cache.
Proof using Hscratch.
  eapply clear_prefix; [apply apart_clear_of, (staging_apart 0)|]. by apply prefix_app_r.
Qed.

Lemma guards_copy_entry fuel src dst isDir : apart_of served dst → frames T anything (copy_entry fuel src dst isDir).
Proof using.
  revert src dst isDir. induction fuel as [|fuel IH]; intros src dst isDir Hd; cbn [copy_entry]; [frame_tac|].
  destruct isDir.
  - apply (frames_try_any T); [by apply frames_must, guards_MkdirAll, apart_clear_of; [apply _|]|]. intros _.
    apply (frames_try_any T); [frame_tac|]. intros entries. induction entries as [|[name d] l IHl]; [frame_tac|].
    apply (frames_try_any T); [by apply IH, apart_below|]. intros _. apply IHl.
  - frame_tac. by apply guards_WriteFile, apart_clear_of.
Qed.
Lemma guards_moveDir src dst : apart_of served src → apart_of served dst → frames T anything (moveDir src dst).
Proof using.
  intros Hs Hd. unfold moveDir, copyDirRecursive. apply (frames_bind_any T); [by apply guards_Rename|].
  intros [e|]; [|frame_tac]. destruct (isCrossDeviceError e); cbn [negb]; [|frame_tac].
  apply (frames_try_any T); [|intros _; by apply frames_must, guards_RemoveAll; [apply _|]].
  apply (frames_try_any T); [frame_tac|]. intros info. by apply guards_copy_entry.
Qed.
Lemma guards_publishVersionDirectory archive : serving ≠ Some version →
  frames T anything (publishVersionDirectory ops archive (version_dir_of root version) cache).
Proof using Hscratch.
  intros Hv. unfold publishVersionDirectory.
  assert (apart_of served (version_dir_of root version)) as Hd by (by apply (apart_version_dir version [])).
  apply (frames_try_any T); [by apply frames_reported, frames_must, guards_MkdirAll, cache_clear; apply _|]. intros _.
  eapply (frames_try_fact T); [apply frames_reported_fact, guards_mkdir_temp; [apply _|apply cache_clear|apply staging_apart]|].
  intros staging (n & ->). pose proof (staging_apart n) as Hs. unfold fill_version.
  apply (frames_bind_any T); [|intros r; apply (frames_bind_any T); [by apply guards_RemoveAll|]; intros _; frame_tac].
  apply (frames_try_any T); [by apply frames_reported, guards_extractArchive; [apply _|]|]. intros _.
  apply (frames_try_any T).
  { apply frames_reported, frames_must, guards_MkdirAll; [apply _..|]. unfold version_dir_of.
    change ["versions"; version] with (["versions"] ++ [version]). rewrite app_assoc, removelast_last. apply clear_versions_dir. }
  intros _. apply (frames_try_any T); [by apply frames_reported, guards_moveDir; [apply _| |]|]. intros _.
  apply frames_reported, frames_must, guards_WriteFile, apart_clear_of, apart_below; [apply _..|done].
Qed.

(** A version that was published is verified. *)
Lemma achieves_publishVersionDirectory archive :
  achieves anything (publishVersionDirectory ops archive (version_dir_of root version) cache)
    (okst (λ _, verified_at (version_dir_of root version))).
Proof using Hscratch.
  unfold publishVersionDirectory. eapply (safe_try any_change) with (Q := λ _ _, True); [by intros w _; split; [|intros []]|]. intros _.
  eapply (safe_try any_change) with (Q := λ p _, ∃ n, p = cache ++ [staging_prefix +:+ itoa n]).
  { apply safe_reported; [apply _|]. eapply (safe_sub (guarded (λ _, False))); [done|].
    eapply safe_weaken; [apply guards_mkdir_temp; [intros q []|intros n q []]|done|]. by intros []. }
  intros staging. apply safe_fact. intros (n & ->).
  pose (sentinel := version_dir_of root version ++ [verifiedSentinelName]).
  eapply safe_bind with (Q := okst (λ _, file_at sentinel "")); [apply _| |].
  - unfold fill_version. do 3 (eapply (safe_try any_change) with (Q := λ _ _, True); [by intros w _; split; [|intros []]|]; intros _).
    apply safe_reported; [apply _|]. apply achieves_WriteFile.
  - intros r. eapply safe_bind with (Q := λ _, okst (λ _ fs, file_at sentinel "" fs) r); [apply _| |].
    2: { intros r'. apply safe_ret; [apply _|]. intros fs H. destruct r as [[]|]; [|done]. destruct H as (i & m & H). by exists (NFile i m ""). }
    destruct r as [[]|e]; [|by intros w _; split]. cbn [okst]. intros w (i & m & Hi). split; [done|]. intros r' Hr'. exists i, m.
    destruct (achieves_kept sentinel (Some (NFile i m "")) (RemoveAll_path (cache ++ [staging_prefix +:+ itoa n]))
      ltac:(apply guards_RemoveAll; intros q <-; unfold sentinel, version_dir_of; rewrite <-app_assoc; apply staging_outside) w Hi) as [_ H].
    by apply (H r').
Qed.

(** *** Publishing the link *)

Context (Hversion : validateVersionSegment version = None).

(** What is kept while the link moves: the served version and the new one. *)
Definition kept (q : path) : Prop := (∃ v, serving = Some v ∧ q = version_dir_of root v) ∨ q = version_dir_of root version.
Definition version_target : string := "versions/" +:+ version.
(** [current] is a link to the new version, which is verified. *)
Definition published_version (fs : FS) : Prop := has_link version_target (current_of root) fs ∧ verified_at (version_dir_of root version) fs.
(** What an upgrade may do to the tree. *)
Definition upgraded (a b : FS) : Prop :=
  (∀ v, serving = Some v → at_path (version_dir_of root v) b = at_path (version_dir_of root v) a) ∧
  (at_path (current_of root) b = at_path (current_of root) a ∨ published_version b).

Lemma segment_element : element version.
Proof using Hversion. by apply segment_is_element. Qed.
Lemma segment_join : path_join ["versions"; version] = version_target.
Proof using Hversion. apply element_join, segment_element. Qed.

Lemma kept_apart x : x = "current" ∨ has_prefix x ".current.tmp-" = true → apart_of kept (root ++ [x]).
Proof using.
  intros Hx. assert (x ≠ "versions") as Hne by (intros ->; destruct Hx as [?|?]; done).
  intros q [(v & _ & ->)| ->]; unfold version_dir_of; (split; intros H%prefix_app_inv%prefix_cons_inv_1; congruence).
Qed.
Lemma upgraded_left a b c : T a b → upgraded b c → upgraded a c.
Proof using.
  intros H [H1 H2]. split.
  - intros v Hv. rewrite H1 by done. apply H. right. by exists v.
  - destruct H2 as [->|?]; [left; apply H; by left|by right].
Qed.
Lemma upgraded_sub a b : T a b → upgraded a b.
Proof using. intros H. split; [intros v Hv; apply H; right; by exists v|left; apply H; by left]. Qed.
(** Steps that keep the link, the served version and the new one. *)
Lemma upgraded_right a b c : upgraded a b → guarded (λ q, kept q ∨ q = current_of root) b c → upgraded a c.
Proof using.
  intros [H1 H2] H. assert (∀ q, kept q → at_path q c = at_path q b) as Hk by (intros q Hq; apply H; by left). split.
  - intros v Hv. rewrite Hk by (left; by exists v). by apply H1.
  - assert (at_path (current_of root) c = at_path (current_of root) b) as Hc by (apply H; by right). rewrite Hc.
    destruct H2 as [?|[(i & Hi) Hv]]; [by left|right]. split; [exists i; by rewrite Hc|].
    eapply verified_same; [|exact Hv]. symmetry. apply Hk. by right.
Qed.

Lemma safe_publish_version : safe upgraded (verified_at (version_dir_of root version)) (publishCurrent root (version_dir_of root version))
  (okst (λ _, published_version)).
Proof using Hversion.
  intros w Hv.
  destruct (safe_relink_current root version_target kept kept_apart (version_dir_of root version)
    ltac:(unfold version_dir_of; change ["versions"; version] with (["versions"] ++ [version]); rewrite app_assoc, last_snoc; symmetry; apply segment_join) w I) as [[HG Hc] HQ].
  assert (verified_at (version_dir_of root version) (w_app (publishCurrent root (version_dir_of root version) w).2)) as Hv'.
  { eapply verified_same; [|exact Hv]. symmetry. apply HG. by right. }
  split; [split|].
  - intros v Hs. apply HG. left. by exists v.
  - destruct Hc as [?|?]; [by left|right; by split].
  - intros [[]|e] Hr; [|done]. specialize (HQ _ Hr). cbn [okst] in *. by split.
Qed.

(** *** The whole *)

Context `{!Observable E}.

Lemma safe_installUpgrade archive :
  safe upgraded still_verified (installUpgrade ops root archive version cache)
    (okst (λ _ fs, points_to root version fs ∧ verified_at (version_dir_of root version) fs)).
Proof using All.
  unfold installUpgrade. cbv zeta. change (root ++ ["versions"; version]) with (version_dir_of root version).
  eapply (safe_left T); [apply upgraded_sub|apply upgraded_left|apply (safe_observe T still_verified), sees_sentinel|].
  intros verified. cbv beta. unfold rbind at 1.
  eapply (safe_left T); [apply upgraded_sub|apply upgraded_left| |].
  - assert (safe T (λ fs, still_verified fs ∧ (if verified then verified_at (version_dir_of root version) fs else ¬ verified_at (version_dir_of root version) fs))
      (if verified then done else publishVersionDirectory ops archive (version_dir_of root version) cache)
      (okst (λ _, verified_at (version_dir_of root version)))) as H; [|exact H].
    destruct verified; [apply safe_ret; [apply _|]; by intros fs []|].
    intros w [Hw Hn]. assert (serving ≠ Some version) as Hs by (intros Hs; apply Hn, Hw, Hs).
    destruct (guards_publishVersionDirectory archive Hs w I) as [HT _]. split; [done|].
    apply (achieves_publishVersionDirectory archive w I).
  - intros [[]|e]; cbn [okst]; [|eapply safe_sub; [apply upgraded_sub|]; by apply safe_ret; [apply _|]].
    eapply (safe_left T); [apply upgraded_sub|apply upgraded_left|apply (safe_observe T (verified_at (version_dir_of root version))), sees_current|].
    intros r. cbv beta. destruct (String.eqb_spec (match r with Ok v => v | Err _ => "" end) version) as [Heq|_].
    + eapply safe_sub; [apply upgraded_sub|]. apply safe_ret; [apply _|]. intros fs [Hv Hr].
      destruct r as [v|e]; [rewrite Heq in Hr; by split|]. by destruct (element_empty _ segment_element).
    + unfold wrapping, reported. intros w [Hv _]. destruct (safe_publish_version w Hv) as [HU HQ]. unfold bind.
      destruct (publishCurrent _ _ w) as [[[[]|e]|s|] w']; cbn in *; (split; [done|]); [|by intros a [= <-]|done..].
      intros a [= <-]. destruct (HQ _ eq_refl) as [(i & Hi) Hv']. split; [|done]. exists i, version_target.
      split; [done|]. apply base_version, segment_element.
Qed.

Lemma guards_prune entries keepPrevious : (∀ v, serving = Some v → keepPrevious = v) →
  frames (guarded (λ q, kept q ∨ q = current_of root)) anything (prune (root ++ ["versions"]) version keepPrevious entries).
Proof using.
  intros Hk. induction entries as [|[name isDir] entries IH]; cbn [prune]; [frame_tac|].
  destruct (_ || _ || _) eqn:Hskip; [exact IH|].
  apply orb_false_iff in Hskip as [[_ H1%String.eqb_neq]%orb_false_iff H2%String.eqb_neq].
  apply frames_try_any; [apply _| |intros _; exact IH].
  apply frames_reported, frames_must, guards_RemoveAll; [apply _..|]. rewrite <-app_assoc. cbn [app].
  intros q [[(v & Hv & ->)| ->]| ->]; unfold version_dir_of, current_of; rewrite !root_prefix.
  - apply Hk in Hv as <-. split; intros H%prefix_cons_inv_2%prefix_cons_inv_1; congruence.
  - split; intros H%prefix_cons_inv_2%prefix_cons_inv_1; congruence.
  - split; intros H%prefix_cons_inv_1; congruence.
Qed.

(** What is read as the predecessor is the version that is served. *)
Lemma safe_readPrevious : safe eq (serves root serving) (readCurrentVersion root)
  (λ r fs, (∀ v, serving = Some v → r = Ok v ∧ v ≠ "") ∧ serves root serving fs).
Proof using All.
  clear Hscratch Hversion. intros w Hw. destruct serving as [v|].
  - assert (∀ fs, serves root (Some v) fs → points_to root v fs) as Hp by (intros fs Hfs; by apply Hfs).
    destruct (sees_served root v (serves root (Some v)) Hp w Hw) as [HT HQ]. split; [done|]. intros r Hr.
    destruct (HQ r Hr) as [? ->]. split; [|done]. intros ? [= <-]. split; [done|].
    destruct (Hp _ Hw) as (i & t & _ & <-). apply path_base_nonempty.
  - destruct (sees_current root w I) as [HT _]. split; [done|]. intros r _. split; [done|]. by intros ? ?.
Qed.

Lemma serves_stable a b : T a b → serves root serving a → serves root serving b.
Proof using.
  intros H Ha v Hv. destruct (Ha v Hv) as [(i & t & Ht & Hb) Hver]. split.
  - exists i, t. split; [|done]. rewrite <-Ht. apply H. by left.
  - eapply verified_same; [|exact Hver]. symmetry. apply H. right. by exists v.
Qed.
Lemma serves_verified fs : serves root serving fs → still_verified fs.
Proof using. intros H v Hv. by apply H. Qed.

Lemma safe_upgrade archive : safe upgraded (serves root serving) (upgrade_at ops root cache archive version) (λ _ _, True).
Proof using All.
  unfold upgrade_at. cbv zeta. unfold rbind at 1.
  eapply (safe_left T) with (Q := λ _, serves root serving); [apply upgraded_sub|apply upgraded_left| |].
  { intros w Hw. destruct (safe_prepare w (serves_verified _ Hw)) as [HT _]. split; [exact HT|].
    intros r _. by eapply serves_stable. }
  intros [[]|e]; [|eapply safe_sub; [apply upgraded_sub|]; by apply safe_ret; [apply _|]].
  eapply (safe_left eq); [by intros a b ->; apply upgraded_sub|by intros a b c -> H|apply safe_readPrevious|].
  intros previous. cbv beta. apply safe_pure. intros Hprev.
  set (keepPrevious := if String.eqb _ "" then _ else _).
  assert (∀ v, serving = Some v → keepPrevious = v) as Hk.
  { intros v Hv. unfold keepPrevious. destruct (Hprev v Hv) as [-> Hne]. by destruct (String.eqb_spec v ""). }
  unfold rbind at 1. eapply (safe_right (guarded (λ q, kept q ∨ q = current_of root))); [apply upgraded_right| |].
  { eapply safe_weaken; [apply (safe_installUpgrade archive)|apply serves_verified|]. intros r fs _. exact I. }
  intros [[]|e]; [|by apply safe_ret; [apply _|]].
  apply (frames_try_any (guarded (λ q, kept q ∨ q = current_of root))); [|intros []; frame_tac].
  unfold pruneOldVersions. apply frames_try_any; [apply _|frame_tac|]. intros entries. by apply guards_prune.
Qed.
End upgrade.

(** ** What a successful upgrade leaves *)

(** The only directories of versions are these two. *)
Definition only_versions (root : path) (a b : string) (fs : FS) : Prop :=
  ∀ y i m es, at_path (version_dir_of root y) fs = Some (NDir i m es) → y = a ∨ y = b.

Lemma points_unique root x y fs : points_to root x fs → points_to root y fs → x = y.
Proof. intros (i & t & Ht & <-) (j & u & Hu & <-). rewrite Ht in Hu. by injection Hu as -> ->. Qed.

Section pruned.
Context {E : OSEnv} {K : Crash} {HH : Honest E} (root : path) (a b : string).

Lemma versions_entry y : root ++ ["versions"; y] = (root ++ ["versions"]) ++ [y].
Proof using. by rewrite <-app_assoc. Qed.
Lemma apart_other x y : x ≠ y → apart_of (eq (root ++ ["versions"; y])) ((root ++ ["versions"]) ++ [x]).
Proof using.
  intros Hne q <-. rewrite <-versions_entry. rewrite !root_prefix.
  split; intros H%prefix_cons_inv_2%prefix_cons_inv_1; congruence.
Qed.
Lemma guards_prune_other y entries : (y, true) ∉ entries →
  frames (guarded (eq (root ++ ["versions"; y]))) anything (prune (root ++ ["versions"]) a b entries).
Proof using.
  induction entries as [|[name isDir] entries IH]; cbn [prune]; intros Hy; [frame_tac|].
  apply not_elem_of_cons in Hy as [Hne Hy]. destruct isDir; cbn [negb orb]; [|by apply IH].
  destruct (_ || _); [by apply IH|]. apply frames_try_any; [apply _| |intros _; by apply IH].
  apply frames_reported, frames_must, guards_RemoveAll, apart_other; [apply _..|]. congruence.
Qed.
Lemma achieves_prune y entries : y ≠ a → y ≠ b →
  achieves (λ fs, at_path (root ++ ["versions"; y]) fs = None ∨ (y, true) ∈ entries)
    (prune (root ++ ["versions"]) a b entries) (okst (λ _ fs, at_path (root ++ ["versions"; y]) fs = None)).
Proof using HH.
  intros Ha Hb. induction entries as [|[name isDir] entries IH]; cbn [prune].
  { apply safe_ret; [apply _|]. intros fs [H|H]; [done|by apply not_elem_of_nil in H]. }
  destruct (_ || _ || _) eqn:Hskip.
  { eapply safe_weaken; [exact IH| |done]. intros fs [H|[[= <- <-]|H]%elem_of_cons]; [by left| |by right].
    cbn [negb orb] in Hskip. apply orb_true_iff in Hskip as [?%String.eqb_eq|?%String.eqb_eq]; congruence. }
  eapply (safe_try any_change) with (Q := λ _ fs, at_path (root ++ ["versions"; y]) fs = None ∨ (y, true) ∈ entries); [|intros []; exact IH].
  apply safe_reported; [apply _|]. destruct (decide (name = y)) as [->|Hne].
  - eapply safe_weaken; [apply achieves_RemoveAll; by destruct root|done|]. intros [[]|] fs H; [|done]. left. by rewrite versions_entry.
  - eapply safe_bind with (Q := λ _ fs, at_path (root ++ ["versions"; y]) fs = None ∨ (y, true) ∈ entries); [apply _| |intros [e|]; apply safe_ret; [apply _|done|apply _|done]].
    intros w [Hw|[[= -> _]|H]%elem_of_cons]; [|done|by split; [|right]].
    destruct (achieves_kept (root ++ ["versions"; y]) None (RemoveAll_path ((root ++ ["versions"]) ++ [name]))
      ltac:(by apply guards_RemoveAll, apart_other) w Hw) as [_ H]. split; [done|]. intros r Hr. left. by apply (H r).
Qed.

Lemma dir_entries_spec i m es y c : es !! y = Some c → (y, is_dir_node c) ∈ dir_entries (NDir i m es).
Proof using.
  intros Hy. cbn [dir_entries]. apply list_elem_of_fmap. exists y. rewrite Hy. split; [done|]. cbn [entry_names].
  rewrite sort_strings_perm. apply elem_of_elements, elem_of_dom. by eexists.
Qed.
Lemma achieves_pruneOldVersions : achieves anything (pruneOldVersions (root ++ ["versions"]) a b) (okst (λ _, only_versions root a b)).
Proof using HH.
  unfold pruneOldVersions. eapply (safe_try any_change) with (Q := λ entries fs, ∀ y i m es,
    at_path (root ++ ["versions"; y]) fs = Some (NDir i m es) → (y, true) ∈ entries).
  - apply safe_reported; [apply _|]. eapply safe_weaken; [apply (achieves_looking "open" _ (λ n, match n with NDir _ _ _ => Ok (dir_entries n) | _ => Err (wrong_kind "open" (root ++ ["versions"])) end) anything); by intros [] ? [= <-]|done|].
    intros [entries|e] fs; [|done]. intros [_ (n & Hn & He)] y i m es Hy. destruct n as [| |j k es']; [done..|]. injection He as <-.
    rewrite versions_entry, (at_entry _ _ _ _ _ _ Hn) in Hy. by apply (dir_entries_spec j k) in Hy.
  - intros entries w Hw. split; [done|]. intros [[]|e] Hr; [|done]. cbn [okst]. intros y i m es Hy. unfold version_dir_of in Hy.
    destruct (decide (y = a)) as [|Ha]; [by left|]. destruct (decide (y = b)) as [|Hb]; [by right|]. exfalso.
    destruct (decide ((y, true) ∈ entries)) as [Hin|Hin].
    + destruct (achieves_prune y entries Ha Hb w ltac:(by right)) as [_ H]. specialize (H _ Hr). cbn [okst] in H. congruence.
    + destruct (guards_prune_other y entries Hin w I) as [HG _]. apply Hin, (Hw y i m es). by rewrite <-(HG _ eq_refl).
Qed.
End pruned.

Section success.
Context {E : OSEnv} {K : Crash} {U : UnicodeTables} {TT : TextTools} {AR : Archives}.
Context `{!Observable E, !Honest E} (ops : installerOperations).

Section one.
Context (root cache : path) (version : string) (Hscratch : scratch_apart root cache) (Hversion : validateVersionSegment version = None).
Context (fs0 : FS).

(** The outcome of an upgrade from the tree [fs0]. *)
Definition upgrade_outcome (fs : FS) : Prop :=
  points_to root version fs ∧ verified_at (version_dir_of root version) fs ∧
  ∃ prev, only_versions root version prev fs ∧ (prev = version ∨ points_to root prev fs0).

Lemma points_same v a b : at_path (current_of root) b = at_path (current_of root) a → points_to root v b → points_to root v a.
Proof using. intros H (i & t & Ht & Hb). exists i, t. by rewrite <-H. Qed.

Lemma achieves_upgrade archive :
  achieves (λ fs, fs = fs0) (upgrade_at ops root cache archive version) (okst (λ _, upgrade_outcome)).
Proof using All.
  unfold upgrade_at. cbv zeta.
  eapply (safe_try any_change) with (Q := λ _ fs, at_path (current_of root) fs = at_path (current_of root) fs0).
  { intros w Hw. split; [done|]. intros [[]|e] _; [|done]. destruct (safe_prepare root None w ltac:(by intros v ?)) as [HT _].
    cbn [okst]. rewrite <-Hw. apply HT. by left. }
  intros []. eapply safe_bind; [apply _|apply (safe_observe any_change (λ fs, at_path (current_of root) fs = at_path (current_of root) fs0)), sees_current|].
  intros previous. cbv beta. set (keepPrevious := if String.eqb _ "" then _ else _).
  eapply safe_weaken with (P := λ fs, (keepPrevious = version ∨ points_to root keepPrevious fs0) ∧ True); [| |intros a fs Ha; exact Ha].
  2: { intros fs [Hc Hp]. split; [|done]. unfold keepPrevious. destruct previous as [v|e]; [|by left].
       destruct (String.eqb_spec v ""); [by left|]. right. by eapply points_same. }
  apply safe_pure. intros Hkeep.
  eapply (safe_try any_change) with (Q := λ _ fs, points_to root version fs ∧ verified_at (version_dir_of root version) fs).
  { eapply safe_sub; [|eapply safe_weaken; [apply (safe_installUpgrade ops root cache version None Hscratch Hversion archive)|by intros fs _ v ?|intros a fs Ha; exact Ha]]; done. }
  intros []. eapply (safe_try any_change) with (Q := λ _, upgrade_outcome); [|intros []; by apply safe_ret; [apply _|]].
  intros w [Hp Hv]. split; [done|]. intros [[]|e] Hr; [|done]. cbn [okst].
  assert (frames (guarded (λ q, kept root version None q ∨ q = current_of root)) anything (pruneOldVersions (root ++ ["versions"]) version keepPrevious)) as Hg.
  { unfold pruneOldVersions. apply frames_try_any; [apply _|frame_tac|]. intros entries. by apply guards_prune. }
  destruct (Hg w I) as [HG _]. destruct (achieves_pruneOldVersions root version keepPrevious w I) as [_ HQ]. specialize (HQ _ Hr). cbn [okst] in HQ.
  split; [eapply points_same; [|exact Hp]; symmetry; apply HG; by right|].
  split; [eapply verified_same; [|exact Hv]; symmetry; apply HG; left; by right|]. by exists keepPrevious.
Qed.
End one.

(** ** The command *)

(** The archive is the one that the manifest lists. *)
Definition archive_listed (cwd : path) (archivePath checksumsPath : string) (fs : FS) : Prop :=
  ∃ archive manifest digest, file_at (locate cwd archivePath) archive fs ∧ file_at (locate cwd checksumsPath) manifest fs ∧
    manifest_digest manifest (path_base archivePath) = Some digest ∧ equal_fold (sha256_hex archive) digest = true.

Lemma sees_ReadFile p : safe eq anything (ReadFile_path p) (okst (λ content, file_at p content)).
Proof using.
  eapply safe_weaken; [apply sees_reading|done|]. intros [c|e] fs H; [|done]. cbn [oks okst] in *.
  destruct (resolve _ _ _) as [n|] eqn:Hr; [|done]. apply resolve_look in Hr. destruct n as [i m c'| |]; try done.
  injection H as <-. by exists i, m.
Qed.
Lemma sees_sha256File p : safe eq anything (sha256File p) (okst (λ d fs, ∃ content, file_at p content fs ∧ d = sha256_hex content)).
Proof using.
  unfold sha256File. eapply (safe_try eq); [apply safe_reported; [apply _|]; apply sees_Open_file|]. intros h. cbv beta.
  eapply safe_weaken with (P := λ fs, IsDir (h_info h) = false → file_at p (h_content h) fs);
    [|intros fs H Hd; destruct (H Hd) as (i & m & Hi); by exists i, m|intros a fs Ha; exact Ha].
  eapply safe_bind with (Q := okst (λ content fs, file_at p content fs)); [apply _| |].
  - apply safe_reported; [apply _|]. unfold ReadAll_file. destruct (IsDir (h_info h)); [by apply safe_ret; [apply _|]|].
    eapply safe_weaken; [apply (safe_observe eq (λ fs, false = false → file_at p (h_content h) fs)), (sees_reading "read" (h_path h) (λ _, Ok (h_content h)))|done|].
    intros [c|e] fs [H1 H2]; [|done]. cbn in *. injection H2 as <-. by apply H1.
  - intros r. eapply safe_bind; [apply _|apply safe_rest; frame_tac|]. intros c. apply safe_ret; [apply _|].
    intros fs H. destruct r as [content|]; [|done]. by exists content.
Qed.
Lemma sees_resolveUpgradeInput cwd flags : safe eq anything (resolveUpgradeInput cwd flags)
  (okst (λ input fs, input.1 = (fl_values flags).1 ∧ parseArchiveVersion (fl_values flags).1 = Ok input.2 ∧
           archive_listed cwd (fl_values flags).1 (fl_values flags).2 fs)).
Proof using.
  unfold resolveUpgradeInput. destruct (fl_values flags) as [archivePath checksumsPath]. cbn [fst snd].
  destruct (usage _ _); [by apply safe_ret; [apply _|]|]. destruct (_ || _); [by apply safe_ret; [apply _|]|].
  do 2 (eapply (safe_try eq) with (Q := λ _ _, True); [eapply safe_weaken; [apply (safe_rest anything); unfold Stat_path; frame_tac|done|by intros []]|intros _]).
  eapply (safe_try eq) with (Q := λ _, archive_listed cwd archivePath checksumsPath).
  - unfold verifyArchiveChecksum. eapply (safe_try eq); [apply safe_reported; [apply _|]; apply sees_ReadFile|]. intros manifest. cbv zeta.
    destruct (manifest_digest _ _) as [digest|] eqn:Hd; [|by apply safe_ret; [apply _|]].
    eapply (safe_try eq); [apply (safe_observe_ok eq), sees_sha256File|]. intros actual. cbv beta.
    destruct (equal_fold actual digest) eqn:He; cbn [negb]; apply safe_ret; try apply _; [|done].
    intros fs (Hm & archive & Ha & ->). by exists archive, manifest, digest.
  - intros []. apply safe_ret; [apply _|]. intros fs H. by destruct (parseArchiveVersion archivePath).
Qed.
Lemma parsed_version archivePath V : parseArchiveVersion archivePath = Ok V → validateVersionSegment V = None.
Proof using.
  unfold parseArchiveVersion. destruct (archiveNamePattern _); [|done]. destruct (validateVersionSegment _) eqn:Hv; [done|].
  by intros [= <-].
Qed.

Context (cwd : path) (flags : parsedFlags (string * string)) (getenv : environment).
#[local] Abbreviation root := (locate cwd (StateRoot getenv)).
#[local] Abbreviation scratch := (locate cwd (cacheRoot getenv)).

(** A run of the command is one of the upgrade with the version of the archive, or it
    leaves the tree. *)
Lemma RunUpgrade_cases (w : world FS) :
  w_app (RunUpgrade ops cwd flags getenv w).2 = w_app w ∧ (∀ line, (RunUpgrade ops cwd flags getenv w).1 ≠ Returned (Ok line)) ∨
  ∃ V w1, w_app w1 = w_app w ∧ parseArchiveVersion (fl_values flags).1 = Ok V ∧ validateVersionSegment V = None ∧
    archive_listed cwd (fl_values flags).1 (fl_values flags).2 (w_app w) ∧
    RunUpgrade ops cwd flags getenv w = upgrade_at ops root scratch (locate cwd (fl_values flags).1) V w1.
Proof using.
  unfold RunUpgrade, rbind, bind. destruct (sees_resolveUpgradeInput cwd flags w I) as [Heq HQ].
  destruct (resolveUpgradeInput cwd flags w) as [[[[a V]|e]|s|] w1]; cbn [fst snd] in *; [|by left..].
  destruct (HQ _ eq_refl) as (Ha & HV & Hlisted). cbn [fst snd] in *. subst a. right. exists V, w1.
  split_and!; [done|done|by eapply parsed_version|by rewrite Heq|done].
Qed.

(** C6: an upgrade never disturbs the version that is served.  If the state of files and
    links can be inspected, then whatever other calls fail, whatever the archive
    holds and wherever the process dies, the version that [current] points to is left
    exactly as it was, and [current] still is what it was or is a link to the version
    of the archive, whose directory has its completion sentinel. *)
Theorem upgrade_crash_safe (serving : option string) (w : world FS) :
  scratch_apart root scratch → serves root serving (w_app w) →
  let fs := w_app (RunUpgrade ops cwd flags getenv w).2 in
  (∀ v, serving = Some v → at_path (version_dir_of root v) fs = at_path (version_dir_of root v) (w_app w)) ∧
  (at_path (current_of root) fs = at_path (current_of root) (w_app w) ∨
   ∃ V i, parseArchiveVersion (fl_values flags).1 = Ok V ∧ at_path (current_of root) fs = Some (NLink i ("versions/" +:+ V)) ∧
     verified_at (version_dir_of root V) fs).
Proof using Observable0.
  intros Hscratch Hserves fs. subst fs.
  destruct (RunUpgrade_cases w) as [[-> _]|(V & w1 & Hw & HV & Hseg & _ & ->)]; [by split; [|left]|]. rewrite <-Hw in Hserves |- *.
  destruct (safe_upgrade ops root scratch V serving Hscratch Hseg (locate cwd (fl_values flags).1) w1 Hserves) as [[H1 H2] _].
  split; [done|]. destruct H2 as [?|[(i & Hi) Hv]]; [by left|]. right. by exists V, i.
Qed.

End success.
