(* ===== verification/InstallerRollback.v ===== *)
(** * The installer: rollback and uninstall

    A rollback after an upgrade restores the version that was served before it; an
    uninstall removes what the installer owns and nothing else. *)

From stdpp Require Import base gmap strings list fin_maps.
From Stdlib Require Import ZArith Lia Ascii.
From S2P Require Import Prelude GoStrings GoErrors GoJson GoOS GoFS GoFSTree CertMaterial CertStore CertFrame CertSafety RestartIdentity Installer InstallerFrame InstallerPaths InstallerProofs.
Set Default Goal Selector "!".

(** ** Finding the predecessor *)

Section predecessor.
Context {E : OSEnv} {K : Crash} (root : path).

Definition is_version (x : string) (fs : FS) : Prop := ∃ i m es, at_path (version_dir_of root x) fs = Some (NDir i m es).

Lemma sees_verified_others currentVersion entries :
  safe eq anything (verified_others (root ++ ["versions"]) currentVersion entries)
    (λ l fs, Forall (λ x, (x, true) ∈ entries ∧ x ≠ currentVersion ∧ verified_at (version_dir_of root x) fs) l).
Proof using.
  induction entries as [|[name isDir] entries IH]; cbn [verified_others]; [by apply safe_ret; [apply _|]|].
  destruct (negb isDir || String.eqb name currentVersion) eqn:Hskip.
  - eapply safe_weaken; [exact IH|done|]. intros l fs H. eapply Forall_impl; [exact H|]. intros x (Hx & ? & ?). split; [by right|done].
  - apply orb_false_iff in Hskip as [Hd%negb_false_iff Hn%String.eqb_neq]. subst isDir.
    eapply safe_bind; [apply _|apply sees_verified|]. intros b. cbv beta.
    eapply safe_bind; [apply _|apply (safe_observe eq (λ fs, b = true → verified_at ((root ++ ["versions"]) ++ [name]) fs)), IH|].
    intros l. apply safe_ret; [apply _|]. intros fs [Hb H].
    assert (Forall (λ x, (x, true) ∈ (name, true) :: entries ∧ x ≠ currentVersion ∧ verified_at (version_dir_of root x) fs) l) as H'.
    { eapply Forall_impl; [exact H|]. intros x (Hx & ? & ?). split; [by right|done]. }
    destruct b; [|done]. constructor; [|done]. split; [by left|]. split; [done|]. unfold version_dir_of. rewrite versions_entry. by apply Hb.
Qed.
Lemma sees_rollbackPredecessor currentVersion :
  safe eq anything (rollbackPredecessor (root ++ ["versions"]) currentVersion)
    (okst (λ p fs, is_version p fs ∧ p ≠ currentVersion ∧ verified_at (version_dir_of root p) fs)).
Proof using.
  unfold rollbackPredecessor. eapply (safe_try eq); [apply safe_reported; [apply _|]; apply (safe_weaken eq _ _ _ _ (okst (λ entries fs, ∀ x, (x, true) ∈ entries → is_version x fs)) (sees_reading _ _ _))|].
  - done.
  - intros [entries|e] fs H; [|done]. cbn [oks okst] in *. destruct (resolve _ _ _) as [n|] eqn:Hr; [|done].
    apply resolve_look in Hr. destruct n as [| |i m es]; try done. injection H as <-. intros x Hx.
    apply list_elem_of_fmap in Hx as (y & [= <- Hd] & _). unfold is_version, version_dir_of. rewrite versions_entry.
    destruct (es !! x) as [c|] eqn:Hc; [|done]. rewrite (at_entry _ _ _ _ _ _ Hr), Hc. destruct c; try done. by do 3 eexists.
  - intros entries. cbv beta. eapply safe_bind; [apply _|apply (safe_observe eq (λ fs, ∀ x, (x, true) ∈ entries → is_version x fs)), sees_verified_others|].
    intros [|p [|p' l]]; apply safe_ret; try apply _; try done. intros fs [Hv H]. apply Forall_cons in H as [(Hin & Hne & Hver) _].
    cbn [okst]. split; [by apply Hv|]. by split.
Qed.
End predecessor.

(** ** Rollback *)

(** The tools that the release of a version pins are path elements. *)
Definition plain_pins {J : JsonErrorText} (dir : path) (fs : FS) : Prop :=
  ∀ content pins tool version, file_at (dir ++ ["share"; "pins.json"]) content fs →
    unmarshal (dec_map "" dec_string) None content = Ok (Some pins) → pins !! tool = Some version → proper tool.

Section rollback.
Context {E : OSEnv} {K : Crash} {J : JsonErrorText} (ops : installerOperations).
Context (root : path) (V v : string) (Hv : element v) (Horder : ∀ t l, io_order ops t l ≡ₚ l).

Definition rollback_target : string := "versions/" +:+ v.
Definition versions_of (q : path) : Prop := q = root ++ ["versions"].
#[local] Abbreviation T := (repointed root rollback_target versions_of).

(** Two versions, of which the link points to the first. *)
Record two_versions (fs : FS) : Prop := mkTwoVersions {
  tv_current : points_to root V fs;
  tv_only : only_versions root V v fs;
  tv_distinct : V ≠ v;
  tv_pins : plain_pins (version_dir_of root v) fs;
}.

Lemma versions_apart x : x ≠ "versions" → apart_of versions_of (root ++ [x]).
Proof using. intros Hx q ->. rewrite !root_prefix. split; intros H%prefix_cons_inv_1; congruence. Qed.

Lemma proper_runtime tool s : proper tool → apart_of (λ q, versions_of q ∨ q = current_of root) (runtimeRoot root tool ++ s).
Proof using.
  intros Ht. unfold runtimeRoot. assert (descend (root ++ ["runtimes"]) tool = (root ++ ["runtimes"]) ++ [tool]) as ->.
  { apply (descend_proper _ [tool]); [done|]. by constructor. }
  rewrite <-!app_assoc. cbn [app]. intros q [->| ->]; unfold current_of; rewrite !root_prefix;
    (split; intros H%prefix_cons_inv_1; congruence).
Qed.
Lemma guards_publishCurrent (G : path → Prop) R dir :
  (∀ x, x = "current" ∨ (∃ y, x = ".current.tmp-" +:+ y) → apart_of G (R ++ [x])) →
  frames (guarded G) anything (publishCurrent R dir).
Proof using.
  intros Hcur. assert (apart_of G (R ++ ["current"])) as Hc by (apply Hcur; by left).
  assert (∀ y, apart_of G (R ++ [".current.tmp-" +:+ y])) as Hx by (intros y; apply Hcur; right; by exists y). clear Hcur. unfold publishCurrent. cbv zeta. apply frames_bind_any; [apply _|apply frames_Now, _|]. intros now.
  apply frames_try_any; [apply _|by apply frames_must, guards_Symlink, apart_clear_of; [apply _|]|]. intros _.
  apply frames_bind_any; [apply _|by apply guards_Rename|]. intros [e|]; [|frame_tac].
  apply frames_bind_any; [apply _|by apply guards_Remove, apart_clear_of|]. intros _. frame_tac.
Qed.
Lemma guards_reconcile_pins pins : Forall (λ p, proper p.1) pins →
  frames (guarded (λ q, versions_of q ∨ q = current_of root)) anything (reconcile_pins root pins).
Proof using.
  induction 1 as [|[tool version] pins Ht _ IH]; cbn [reconcile_pins]; [frame_tac|]. cbn [fst] in Ht.
  apply frames_bind_any; [apply _|frame_tac|]. intros b. apply frames_try_any; [apply _| |intros _; exact IH].
  destruct b; [|frame_tac]. apply frames_reported; [apply _|]. apply guards_publishCurrent. intros x _. by apply proper_runtime.
Qed.
Lemma safe_reconcile : safe T (λ fs, plain_pins (version_dir_of root v) fs ∧ has_link rollback_target (current_of root) fs)
  (reconcileRuntimePointers ops root (version_dir_of root v)) (okst (λ _, has_link rollback_target (current_of root))).
Proof using Horder.
  unfold reconcileRuntimePointers. cbv zeta.
  eapply safe_bind; [apply _|apply (safe_observe T (λ fs, plain_pins (version_dir_of root v) fs ∧ has_link rollback_target (current_of root) fs)), sees_ReadFile|].
  intros [data|e]; cbn [okst].
  2: { destruct (errors_is _ _); apply safe_ret; try apply _; [by intros fs [[_ ?] _]|done]. }
  destruct (unmarshal _ _ _) as [pins|e] eqn:Hu; [|by apply safe_ret; [apply _|]].
  eapply safe_bind with (Q := λ order fs, Forall (λ p, proper p.1) order ∧ has_link rollback_target (current_of root) fs); [apply _| |].
  - intros w [[Hp Hl] Hd]. split; [by apply reflexivity|]. intros order [= <-]. split; [|done]. rewrite Horder. apply Forall_forall.
    intros [tool version] Hin%elem_of_map_to_list. destruct pins as [pins|]; [|exact (False_ind _ (lookup_empty_Some _ _ Hin))].
    by apply (Hp data pins tool version).
  - intros order. apply safe_pure. intros Hplain w Hl. destruct (guards_reconcile_pins order Hplain w I) as [HG _]. split.
    + apply sub_repointed. exact HG.
    + intros [[]|e] _; [|done]. destruct Hl as (i & Hi). exists i. rewrite <-Hi. apply HG. by right.
Qed.

Lemma versions_same a b x s : T a b → at_path (root ++ "versions" :: x :: s) b = at_path (root ++ "versions" :: x :: s) a.
Proof using.
  intros [H _]. eapply (at_below (root ++ ["versions"]) _ (x :: s)); [by apply H|]. by rewrite <-app_assoc.
Qed.
Lemma plain_stable a b : T a b → plain_pins (version_dir_of root v) a → plain_pins (version_dir_of root v) b.
Proof using.
  intros HT H content pins tool version (i & m & Hf) Hu Hp. eapply H; [|exact Hu|exact Hp]. exists i, m. rewrite <-Hf.
  unfold version_dir_of. rewrite <-app_assoc. cbn [app]. symmetry. by apply versions_same.
Qed.

(** A rollback moves the link to the other version or leaves it, and keeps the
    versions. *)
Lemma safe_rollback : safe T two_versions (rollback_at ops root)
  (okst (λ _ fs, has_link rollback_target (current_of root) fs)).
Proof using Hv Horder.
  unfold rollback_at. cbv zeta.
  eapply (safe_try T); [apply safe_reported; [apply _|]; apply (safe_observe_ok T two_versions), sees_current|]. intros current. cbv beta.
  eapply (safe_try T) with (Q := λ p fs, p = v ∧ plain_pins (version_dir_of root v) fs).
  { eapply safe_weaken; [apply (safe_observe_ok T (λ fs, two_versions fs ∧ points_to root current fs)), sees_rollbackPredecessor|done|].
    intros [p|e] fs; [|done]. intros [[Htwo Hc] ((i & m & es & Hi) & Hne & _)]. cbn [okst]. split; [|apply Htwo].
    pose proof (points_unique _ _ _ _ Hc (tv_current _ Htwo)) as ->. by destruct (tv_only _ Htwo p i m es Hi). }
  intros p. apply safe_pure. intros ->. assert ((root ++ ["versions"]) ++ [v] = version_dir_of root v) as -> by (by rewrite <-versions_entry).
  eapply (safe_try T) with (Q := λ _ fs, plain_pins (version_dir_of root v) fs ∧ has_link rollback_target (current_of root) fs).
  { apply safe_reported; [apply _|]. eapply safe_weaken; [apply (safe_stable T anything (plain_pins (version_dir_of root v))); [apply plain_stable|]|done|].
    - apply safe_relink_current.
      + intros x Hx. apply versions_apart. intros ->. by destruct Hx.
      + unfold version_dir_of. rewrite versions_entry, last_snoc. cbn [default]. symmetry. by apply element_join.
    - intros [[]|e] fs; [|done]. by intros [? ?]. }
  intros []. eapply (safe_try T) with (Q := λ _, has_link rollback_target (current_of root)).
  { apply safe_reported; [apply _|]. apply safe_reconcile. }
  intros []. by apply safe_ret; [apply _|].
Qed.
End rollback.

(** ** A rollback that nothing hinders *)

Section unhindered.
Context {E : OSEnv} {K : Crash} {J : JsonErrorText} (ops : installerOperations).
Context (Hfault : ∀ t op p, os_fault t op p = None) (Hcrash : ∀ t, fs_crash t = false).

Lemma calm_sys {A} op p failed (effect : FS → A * FS) w :
  sys op p failed effect w = (Returned (effect (w_app w)).1, tick (set_app (effect (w_app w)).2 w)).
Proof using Hfault Hcrash.
  unfold sys. rewrite Hcrash, Hfault. unfold access. change (interfere (w_clock w) (w_app w)) with (w_app w).
  by destruct (effect (w_app w)).
Qed.
(** The value of a call that only looks; the tree after it. *)
Definition views {A} (m : M FS A) (fs : FS) (a : A) : Prop := ∀ w, w_app w = fs → ∃ w', m w = (Returned a, w') ∧ w_app w' = fs.
Lemma views_reading {A} op p (f : FS → result goerror A) fs : views (reading op p f) fs (f fs).
Proof using Hfault Hcrash. intros w <-. unfold reading. rewrite calm_sys. by eexists. Qed.
Lemma views_ret {A} (a : A) fs : views (ret a) fs a.
Proof using. intros w <-. by exists w. Qed.
Lemma views_bind {A B} (m : M FS A) (k : A → M FS B) fs a b : views m fs a → views (k a) fs b → views (bind m k) fs b.
Proof using. intros Hm Hk w Hw. destruct (Hm w Hw) as (w1 & H1 & Hw1). unfold bind. rewrite H1. by apply Hk. Qed.
Lemma views_try {A B} (m : M FS (result goerror A)) (k : A → M FS (result goerror B)) fs a b :
  views m fs (Ok a) → views (k a) fs b → views (rbind m k) fs b.
Proof using. intros Hm Hk. by eapply views_bind. Qed.
Lemma views_wrapping {A} s (m : M FS (result goerror A)) fs a : views m fs (Ok a) → views (wrapping s m) fs (Ok a).
Proof using. intros Hm. eapply views_bind; [exact Hm|]. apply views_ret. Qed.

Lemma resolve_found op p fs n : at_path p fs = Some n → resolve op p fs = Ok n.
Proof using. unfold at_path, resolve. destruct (walk _ _); congruence. Qed.

(** Whether the sentinel is there. *)
Definition sentinel (dir : path) (fs : FS) : bool :=
  match at_path (dir ++ [verifiedSentinelName]) fs with Some (NLink _ _) | None => false | Some _ => true end.
Lemma sentinel_spec dir fs : sentinel dir fs = true ↔ verified_at dir fs.
Proof using.
  unfold sentinel, verified_at. split.
  - destruct (at_path _ _) as [n|]; [|done]. intros H. exists n. split; [done|]. by intros i t ->.
  - intros (n & -> & Hn). destruct n as [|i t|]; try done. by destruct (Hn i t).
Qed.
Lemma views_sentinel dir fs : views (verifiedSentinelExists dir) fs (sentinel dir fs).
Proof using Hfault Hcrash.
  eapply views_bind; [apply views_reading|].
  assert (sentinel dir fs = is_ok (let? n := resolve "stat" (dir ++ [verifiedSentinelName]) fs in
    match n with NLink _ _ => Err (wrong_kind "stat" (dir ++ [verifiedSentinelName])) | _ => Ok (info_of n) end)) as ->; [|apply views_ret].
  unfold sentinel, resolve, at_path. by destruct (walk _ _) as [[]| |].
Qed.

Definition other_verified (root : path) (currentVersion : string) (fs : FS) (entry : string * bool) : option string :=
  if negb entry.2 || String.eqb entry.1 currentVersion then None
  else if sentinel ((root ++ ["versions"]) ++ [entry.1]) fs then Some entry.1 else None.
Lemma views_verified_others root currentVersion fs entries :
  views (verified_others (root ++ ["versions"]) currentVersion entries) fs (omap (other_verified root currentVersion fs) entries).
Proof using Hfault Hcrash.
  induction entries as [|[name isDir] entries IH]; cbn [verified_others]; [apply views_ret|].
  cbn [omap list_omap]. unfold other_verified at 1. cbn [fst snd]. destruct (_ || _); [exact IH|].
  eapply views_bind; [apply views_sentinel|]. eapply views_bind; [exact IH|]. destruct (sentinel _ _); apply views_ret.
Qed.

Lemma single_element {A} (l : list A) x : NoDup l → (∀ y, y ∈ l → y = x) → x ∈ l → l = [x].
Proof using.
  intros Hn Hall Hin. destruct l as [|a [|b l]]; [by apply not_elem_of_nil in Hin|by rewrite (Hall a (list_elem_of_here _ _))|].
  assert (a = x) as -> by (apply Hall; left). assert (b = x) as -> by (apply Hall; right; left).
  apply NoDup_cons in Hn as [Hn _]. destruct Hn. left.
Qed.
Lemma dir_entries_names i m es : (dir_entries (NDir i m es)).*1 = entry_names (NDir i m es).
Proof using. cbn [dir_entries]. rewrite <-list_fmap_compose. apply list_fmap_id. Qed.
Lemma others_sublist root currentVersion fs entries : omap (other_verified root currentVersion fs) entries `sublist_of` entries.*1.
Proof using.
  induction entries as [|[name isDir] entries IH]; cbn; [done|]. unfold other_verified at 1. cbn [fst snd].
  destruct (_ || _); [by constructor|]. destruct (sentinel _ _); by constructor.
Qed.

Lemma views_predecessor root V v fs : two_versions root V v fs → is_version root v fs → verified_at (version_dir_of root v) fs →
  views (rollbackPredecessor (root ++ ["versions"]) V) fs (Ok v).
Proof using Hfault Hcrash.
  intros [_ Honly Hne _] (i & m & es & Hv) Hver. unfold version_dir_of in Hv. rewrite versions_entry in Hv.
  destruct (parent_dir _ _ _ _ Hv) as (j & k & versions & Hd).
  unfold rollbackPredecessor. eapply views_try with (a := dir_entries (NDir j k versions)).
  { apply views_wrapping. pose proof (views_reading "open" (root ++ ["versions"]) (λ fs, let? n := resolve "open" (root ++ ["versions"]) fs in
      match n with NDir _ _ _ => Ok (dir_entries n) | _ => Err (wrong_kind "open" (root ++ ["versions"])) end) fs) as H.
    cbv beta in H. rewrite (resolve_found _ _ _ _ Hd) in H. exact H. }
  eapply views_bind; [apply views_verified_others|].
  assert (∀ y c, versions !! y = Some c → at_path (version_dir_of root y) fs = Some c) as Hy.
  { intros y c Hc. unfold version_dir_of. by rewrite versions_entry, (at_entry _ _ _ _ _ _ Hd). }
  assert (omap (other_verified root V fs) (dir_entries (NDir j k versions)) = [v]) as ->; [|apply views_ret].
  apply single_element.
  - eapply sublist_NoDup; [|apply others_sublist]. rewrite dir_entries_names. cbn [entry_names].
    rewrite sort_strings_perm. apply NoDup_elements.
  - intros y ([name isDir] & Hin & Ho)%list_elem_of_omap. unfold other_verified in Ho. cbn [fst snd] in Ho.
    destruct (negb isDir || String.eqb name V) eqn:Hskip; [done|]. destruct (sentinel _ _); [|done]. injection Ho as <-.
    apply orb_false_iff in Hskip as [Hd'%negb_false_iff Hn%String.eqb_neq]. subst isDir.
    cbn [dir_entries] in Hin. apply list_elem_of_fmap in Hin as (x & [= -> Hc] & _).
    destruct (versions !! x) as [[| |a b c]|] eqn:Hx; try done. by destruct (Honly x a b c (Hy _ _ Hx)).
  - apply list_elem_of_omap. exists (v, true). unfold other_verified. cbn [fst snd negb orb].
    rewrite (at_entry _ _ _ _ _ _ Hd) in Hv. split; [by apply (dir_entries_spec j k) in Hv|].
    destruct (String.eqb_spec v V) as [->|_]; [done|]. rewrite <-versions_entry. change (root ++ ["versions"; v]) with (version_dir_of root v).
    by rewrite (proj2 (sentinel_spec _ _) Hver).
Qed.

Lemma calm_writing op p change w fs' : change (w_app w) = Ok fs' → writing op p change w = (Returned None, tick (set_app fs' w)).
Proof using Hfault Hcrash. intros H. unfold writing. rewrite calm_sys, H. done. Qed.
Lemma walk_at p tree n : look p tree = Some n → walk p tree = Found n.
Proof using. unfold look. destruct (walk _ _); congruence. Qed.
Lemma walk_app p q n : walk (p ++ q) n = match walk p n with Found m => walk q m | r => r end.
Proof using.
  revert n. induction p as [|x p IH]; intros n; [done|]. destruct n as [| |i m es]; [done..|]. cbn. destruct (es !! x); [apply IH|done].
Qed.
Lemma free_missing root x fs i m es : at_path root fs = Some (NDir i m es) → at_path (root ++ [x]) fs = None →
  walk (root ++ [x]) (fs_tree fs) = Missing.
Proof using.
  intros Hr Hx. rewrite look_at in Hr, Hx. rewrite (walk_app root [x]), (walk_at _ _ _ Hr). cbn.
  rewrite look_app, Hr in Hx. cbn in Hx. rewrite look_cons in Hx. by destruct (es !! x).
Qed.

(** The link below [R] can be moved: the temporary names are free and [current] is a
    link or not there. *)
Definition relinks (R : path) (fs : FS) : Prop :=
  ∃ i m es, at_path R fs = Some (NDir i m es) ∧ (∀ now, es !! (".current.tmp-" +:+ itoa now) = None) ∧
    match es !! "current" with Some (NLink _ _) | None => True | Some _ => False end.
Lemma calm_publishCurrent R dir w : relinks R (w_app w) → ∃ w', publishCurrent R dir w = (Returned (Ok tt), w').
Proof using Hfault Hcrash.
  intros (i & m & es & Hroot & Hfree & Hcur). unfold publishCurrent, rbind, bind, Now, must. cbv zeta. set (now := os_now (w_clock w)).
  set (target := path_join _). set (x := ".current.tmp-" +:+ itoa now). set (tmp := R ++ [x]). pose proof (Hfree now) as Htmp. fold x in Htmp.
  set (n := NLink (fs_next (w_app w)) target).
  assert (create "symlink" tmp (λ i, NLink i target) (w_app w) = Ok (mkFS (put tmp (Some n) (fs_tree (w_app w))) (S (fs_next (w_app w))))) as Hc.
  { unfold create, tmp. rewrite (free_missing R x _ i m es Hroot) by (by rewrite (at_entry _ _ _ _ _ _ Hroot)).
    rewrite removelast_last. rewrite look_at in Hroot. by rewrite (walk_at _ _ _ Hroot). }
  unfold Symlink, bind. rewrite (calm_writing _ _ _ (tick w) _ Hc). unfold ret. cbn iota.
  set (w1 := tick (set_app _ (tick w))). set (es1 := partial_alter (λ _, Some n) x es).
  assert (at_path R (w_app w1) = Some (NDir i m es1)) as Hroot1 by (by apply look_put_dir).
  assert (es1 !! "current" = es !! "current") as Hsame by (apply lookup_partial_alter_ne; done).
  assert (∃ fs', rename_change tmp (R ++ ["current"]) (w_app w1) = Ok fs') as (fs' & Hr).
  { assert (at_path tmp (w_app w1) = Some n) as Htmp1 by (unfold tmp; rewrite (at_entry _ _ _ _ _ _ Hroot1); apply lookup_partial_alter_eq).
    unfold rename_change. rewrite (resolve_found _ _ _ _ Htmp1). cbn iota beta. rewrite removelast_last.
    rewrite <-Hsame in Hcur. pose proof (at_entry R "current" _ _ _ _ Hroot1) as He. rewrite (walk_at R (fs_tree (w_app w1)) _ Hroot1).
    destruct (es1 !! "current") as [[| |]|]; try done.
    - rewrite (walk_at (R ++ ["current"]) _ _ He). by eexists.
    - rewrite (free_missing _ _ _ _ _ _ Hroot1 He). by eexists. }
  unfold Rename_path. rewrite (calm_writing _ _ _ w1 _ Hr). by eexists.
Qed.

(** *** The runtimes *)

(** What the release at [dir] pins, if that can be read. *)
Definition readable_pins (dir : path) (pins : gmap string string) (fs : FS) : Prop :=
  walk (dir ++ ["share"; "pins.json"]) (fs_tree fs) = Missing ∧ pins = ∅ ∨
  ∃ content m, file_at (dir ++ ["share"; "pins.json"]) content fs ∧
    unmarshal (dec_map "" dec_string) None content = Ok m ∧ pins = default ∅ m.
Lemma readable_same dir pins a b i m es : at_path dir b = at_path dir a → at_path dir a = Some (NDir i m es) →
  readable_pins dir pins a → readable_pins dir pins b.
Proof using.
  intros Hsame Hd [[Hw ->]|(content & pins' & (k & l & Hf) & Hu & ->)].
  - left. split; [|done]. rewrite walk_app in Hw |- *. rewrite Hd in Hsame. rewrite look_at in Hsame, Hd.
    rewrite (walk_at _ _ _ Hd) in Hw. by rewrite (walk_at _ _ _ Hsame).
  - right. exists content, pins'. split; [|done]. exists k, l. rewrite <-Hf. by eapply at_below.
Qed.
(** The pinned runtime is not provisioned, or its link can be moved. *)
Definition relinkable (root : path) (fs : FS) (tool version : string) : Prop :=
  proper tool ∧ proper version ∧ (sentinel (runtimeVersionDir root tool version) fs = true → relinks (runtimeRoot root tool) fs).

Lemma runtimeRoot_proper root tool : proper tool → runtimeRoot root tool = root ++ ["runtimes"; tool].
Proof using.
  intros Ht. change ["runtimes"; tool] with (["runtimes"] ++ [tool]). rewrite app_assoc.
  apply (descend_proper _ [tool]); [done|]. by constructor.
Qed.
Lemma relinkable_same root a b tool version :
  at_path (runtimeRoot root tool) b = at_path (runtimeRoot root tool) a → relinkable root a tool version → relinkable root b tool version.
Proof using.
  intros Hsame (Ht & Hv & H). split; [done|]. split; [done|]. intros Hs. destruct H as (i & m & es & Hd & H).
  - rewrite <-Hs. unfold sentinel. rewrite (at_below _ (runtimeVersionDir root tool version ++ [verifiedSentinelName])
      ["versions"; version; verifiedSentinelName] b a Hsame); [done|]. unfold runtimeVersionDir.
    assert (descend (runtimeRoot root tool ++ ["versions"]) version = (runtimeRoot root tool ++ ["versions"]) ++ [version]) as ->
      by (apply (descend_proper _ [version]); [done|by constructor]).
    by rewrite <-!app_assoc.
  - exists i, m, es. by rewrite Hsame.
Qed.
Lemma calm_reconcile_pins root pins w : NoDup pins.*1 → Forall (λ p, relinkable root (w_app w) p.1 p.2) pins →
  ∃ w', reconcile_pins root pins w = (Returned (Ok tt), w').
Proof using Hfault Hcrash.
  revert w. induction pins as [|[tool version] pins IH]; intros w Hn Hp; cbn [reconcile_pins]; [by eexists|]. cbv zeta.
  rewrite fmap_cons in Hn. apply NoDup_cons in Hn as [Hnew Hn]. apply Forall_cons in Hp as [Hhead Hp].
  unfold bind at 1. destruct (views_sentinel (runtimeVersionDir root tool version) (w_app w) w eq_refl) as (w1 & -> & Hw1).
  destruct (sentinel _ _) eqn:Hs.
  2: { apply (IH w1); [done|]. by rewrite Hw1. }
  destruct Hhead as (Ht & Hv & Hr). specialize (Hr Hs). cbn [fst] in Hr. rewrite <-Hw1 in Hr.
  destruct (calm_publishCurrent _ (runtimeVersionDir root tool version) w1 Hr) as (w2 & H2).
  unfold rbind, wrapping, reported, bind. rewrite H2. unfold ret. cbn iota. apply IH; [done|].
  apply Forall_forall. intros [tool' version'] Hin. rewrite Forall_forall in Hp. pose proof (Hp _ Hin) as Hp'. cbn [fst snd] in *.
  assert (tool' ≠ tool) as Hne. { intros ->. apply Hnew. apply list_elem_of_fmap. by exists (tool, version'). }
  eapply relinkable_same; [|exact Hp']. rewrite <-Hw1. pose proof (guards_publishCurrent (eq (runtimeRoot root tool')) (runtimeRoot root tool)
    (runtimeVersionDir root tool version)) as Hg.
  destruct (λ H, Hg H w1 I) as [HG _]; [|rewrite H2 in HG; by apply HG].
  intros x _ q <-. rewrite !runtimeRoot_proper, <-app_assoc, !root_prefix by (done || apply Hp').
  split; intros H%prefix_cons_inv_2%prefix_cons_inv_1; congruence.
Qed.

Lemma views_pins dir pins fs : readable_pins dir pins fs → ∃ data, views (ReadFile_path (dir ++ ["share"; "pins.json"])) fs data ∧
  match data with
  | Ok content => ∃ m, unmarshal (dec_map "" dec_string) None content = Ok m ∧ pins = default ∅ m
  | Err e => errors_is e ErrNotExist = true ∧ pins = ∅
  end.
Proof using Hfault Hcrash.
  intros H. eexists. split; [apply views_reading|]. unfold resolve. destruct H as [[-> ->]|(content & m & (i & k & Hf) & Hu & ->)]; [done|].
  rewrite look_at in Hf. rewrite (walk_at _ _ _ Hf). by exists m.
Qed.
Lemma calm_reconcile root dir pins w (Horder : ∀ t l, io_order ops t l ≡ₚ l) : readable_pins dir pins (w_app w) →
  map_Forall (relinkable root (w_app w)) pins → ∃ w', reconcileRuntimePointers ops root dir w = (Returned (Ok tt), w').
Proof using Hfault Hcrash.
  intros Hp Hr. destruct (views_pins _ _ _ Hp) as (data & Hd & Hdata). unfold reconcileRuntimePointers. cbv zeta.
  unfold bind at 1. destruct (Hd w eq_refl) as (w1 & -> & Hw1). destruct data as [content|e].
  2: { destruct Hdata as [-> _]. by eexists. }
  destruct Hdata as (m & -> & ->). unfold bind. apply calm_reconcile_pins; rewrite Horder.
  - apply NoDup_fst_map_to_list.
  - cbn [w_app tick]. rewrite Hw1. apply map_Forall_to_list in Hr. eapply Forall_impl; [exact Hr|]. by intros [tool version].
Qed.

(** The whole rollback. *)
Lemma calm_rollback root V v pins w (Horder : ∀ t l, io_order ops t l ≡ₚ l) : two_versions root V v (w_app w) → is_version root v (w_app w) →
  verified_at (version_dir_of root v) (w_app w) → relinks root (w_app w) →
  readable_pins (version_dir_of root v) pins (w_app w) → map_Forall (relinkable root (w_app w)) pins → element v →
  ∃ w', rollback_at ops root w = (Returned (Ok ("rolled back to " +:+ v)), w').
Proof using Hfault Hcrash.
  intros Htwo (di & dm & des & Hdir) Hver Hlinks Hpins Hruntimes Hv. pose proof (tv_current _ _ _ _ Htwo) as (j & t & Hcur & Hbase).
  assert (views (wrapping "rollback failed: no current installation found: " (readCurrentVersion root)) (w_app w) (Ok V)) as H1.
  { apply views_wrapping. eapply views_try; [|rewrite <-Hbase; apply views_ret].
    pose proof (views_reading "readlink" (root ++ ["current"]) (λ fs, let? n := resolve "readlink" (root ++ ["current"]) fs in
      match n with NLink _ target => Ok target | _ => Err (wrong_kind "readlink" (root ++ ["current"])) end) (w_app w)) as H.
    cbv beta in H. rewrite (resolve_found _ _ _ _ Hcur) in H. exact H. }
  unfold rollback_at. cbv zeta. unfold rbind at 1. unfold bind at 1.
  destruct (H1 w eq_refl) as (w1 & -> & Hw1). unfold rbind at 1. unfold bind at 1.
  destruct (views_predecessor root V v (w_app w) Htwo ltac:(by exists di, dm, des) Hver w1 Hw1) as (w2 & -> & Hw2).
  assert ((root ++ ["versions"]) ++ [v] = version_dir_of root v) as -> by (by rewrite <-versions_entry).
  destruct (calm_publishCurrent root (version_dir_of root v) w2) as (w3 & H3); [by rewrite Hw2|].
  unfold rbind at 1. unfold bind at 1. unfold wrapping at 1, reported. unfold bind at 1. rewrite H3. unfold ret at 1. cbn iota.
  assert (guarded (λ q, q = root ++ ["versions"] ∨ q = root ++ ["runtimes"]) (w_app w) (w_app w3)) as Hkept.
  { rewrite <-Hw2. pose proof (guards_publishCurrent (λ q, q = root ++ ["versions"] ∨ q = root ++ ["runtimes"]) root (version_dir_of root v)) as Hg.
    destruct (λ H, Hg H w2 I) as [HG _]; [|by rewrite H3 in HG].
    intros x Hx q [->| ->]; rewrite !root_prefix; (split; intros H%prefix_cons_inv_1); by destruct Hx as [->|[y ->]]. }
  destruct (calm_reconcile root (version_dir_of root v) pins w3 Horder) as (w4 & H4).
  - eapply readable_same; [|exact Hdir|exact Hpins].
    eapply (at_below (root ++ ["versions"]) _ [v]); [apply Hkept; by left|]. unfold version_dir_of. by rewrite <-app_assoc.
  - eapply map_Forall_impl; [exact Hruntimes|]. intros tool version Hr. eapply relinkable_same; [|exact Hr].
    rewrite runtimeRoot_proper by apply Hr. eapply (at_below (root ++ ["runtimes"]) _ [tool]); [apply Hkept; by right|]. by rewrite <-app_assoc.
  - unfold rbind, wrapping, reported, bind. rewrite H4. by eexists.
Qed.
End unhindered.

(** ** Upgrade and rollback *)

Section there_and_back.
Context {U : UnicodeTables} {TT : TextTools} {AR : Archives} {J : JsonErrorText}.
(** The environments of the two commands. *)
Context {E1 E2 : OSEnv} {K1 K2 : Crash} {HO : Observable E1} {HH : Honest E1}.
Context (ops : installerOperations) (Horder : ∀ t l, io_order ops t l ≡ₚ l).
Context (cwd : path) (flags : parsedFlags (string * string)) (getenv : environment) (v : string).
#[local] Abbreviation root := (locate cwd (StateRoot getenv)).
Context (Hscratch : scratch_apart root (locate cwd (cacheRoot getenv))).

Lemma verified_is_version r x fs : verified_at (version_dir_of r x) fs → is_version r x fs.
Proof using. intros (n & Hn & _). by apply (parent_dir _ verifiedSentinelName (fs_tree fs) n). Qed.

(** The state between the two commands. *)
Lemma between line w w1 : serves root (Some v) (w_app w) → plain_pins (version_dir_of root v) (w_app w) →
  parseArchiveVersion (fl_values flags).1 ≠ Ok v →
  RunUpgrade (E := E1) (K := K1) ops cwd flags getenv w = (Returned (Ok line), w1) →
  at_path (version_dir_of root v) (w_app w1) = at_path (version_dir_of root v) (w_app w) ∧
  ∃ V, two_versions root V v (w_app w1).
Proof using HO HH Hscratch.
  intros Hserves Hpins Hne Hrun. destruct (RunUpgrade_cases (E := E1) (K := K1) ops cwd flags getenv w) as [[_ Hno]|(V & w0 & Hw & HV & Hseg & _ & Heq)].
  { by destruct (Hno line); rewrite Hrun. }
  rewrite Heq in Hrun. rewrite <-Hw in *.
  destruct (achieves_upgrade (E := E1) (K := K1) ops root (locate cwd (cacheRoot getenv)) V Hscratch Hseg (w_app w0) (locate cwd (fl_values flags).1) w0 eq_refl) as [_ H].
  destruct (safe_upgrade (E := E1) (K := K1) ops root (locate cwd (cacheRoot getenv)) V (Some v) Hscratch Hseg (locate cwd (fl_values flags).1) w0 Hserves) as [[H1 _] _].
  rewrite Hrun in H, H1. destruct (H _ eq_refl) as (Hc & _ & prev & Honly & Hprev). cbn [snd] in *.
  specialize (H1 v eq_refl). split; [done|]. exists V. split; [done| |congruence|].
  - destruct (Hserves v eq_refl) as [Hp _]. destruct Hprev as [->|Hp'].
    + intros y i m es Hy. destruct (Honly y i m es Hy); by left.
    + by rewrite (points_unique _ _ _ _ Hp Hp').
  - intros content pins tool version (i & m & Hf) Hu Ht. eapply Hpins; [|exact Hu|exact Ht]. exists i, m. rewrite <-Hf.
    symmetry. by eapply at_below.
Qed.

End there_and_back.

(** ** Uninstall *)

Section uninstall.
Context {E : OSEnv} {K : Crash} {U : UnicodeTables}.

(** Apart from what the installer owns. *)
Definition foreign (root : path) (q : path) : Prop :=
  ∀ x, x ∈ ["versions"; "current"; "runtimes"] → ¬ q `prefix_of` root ++ [x] ∧ ¬ root ++ [x] `prefix_of` q.
Lemma owned_apart root x : x ∈ owned_names → apart_of (foreign root) (root ++ [x]).
Proof using. intros Hx q Hq. by apply Hq. Qed.
Lemma guards_remove_owned root names : names ⊆ owned_names → frames (guarded (foreign root)) anything (remove_owned root names).
Proof using.
  induction names as [|x names IH]; intros Hsub; cbn [remove_owned]; [frame_tac|]. cbv zeta.
  assert (names ⊆ owned_names) as Hsub' by (intros y Hy; apply Hsub; by right). specialize (IH Hsub').
  apply frames_bind_any; [apply _|frame_tac|]. intros [info|e]; [|destruct (errors_is _ _); [exact IH|frame_tac]].
  apply frames_try_any; [apply _| |intros _; apply frames_try_any; [apply _|exact IH|intros l; frame_tac]].
  apply frames_reported, frames_must, guards_RemoveAll, owned_apart; [apply _..|]. apply Hsub. left.
Qed.

(** Gone stays gone. *)
Lemma guards_remove_gone root x names : x ∉ names → frames (guarded (eq (root ++ [x]))) anything (remove_owned root names).
Proof using.
  induction names as [|y names IH]; intros Hx; cbn [remove_owned]; [frame_tac|]. cbv zeta. apply not_elem_of_cons in Hx as [Hne Hx].
  specialize (IH Hx). apply frames_bind_any; [apply _|frame_tac|]. intros [info|e]; [|destruct (errors_is _ _); [exact IH|frame_tac]].
  apply frames_try_any; [apply _| |intros _; apply frames_try_any; [apply _|exact IH|intros l; frame_tac]].
  apply frames_reported, frames_must, guards_RemoveAll; [apply _..|]. intros q <-. rewrite !root_prefix.
  split; intros H%prefix_cons_inv_1; congruence.
Qed.
Lemma achieves_remove_owned `{!Honest E} root names : NoDup names →
  achieves anything (remove_owned root names) (okst (λ _ fs, Forall (λ x, at_path (root ++ [x]) fs = None) names)).
Proof using.
  induction 1 as [|x names Hx _ IH]; cbn [remove_owned].
  { apply safe_ret; [apply _|]. intros fs _. apply Forall_nil_2. }
  cbv zeta. assert (achieves (λ fs, at_path (root ++ [x]) fs = None) (remove_owned root names)
    (okst (λ _ fs, Forall (λ x, at_path (root ++ [x]) fs = None) (x :: names)))) as Hrest.
  { intros w Hw. split; [done|]. intros [l|e] Hr; [|done]. destruct (IH w I) as [_ H1].
    destruct (achieves_kept (root ++ [x]) None _ (guards_remove_gone root x names Hx) w Hw) as [_ H2].
    constructor; [exact (H2 _ Hr)|exact (H1 _ Hr)]. }
  eapply safe_bind; [apply _|by apply (achieves_looking "lstat" (root ++ [x]) (λ n, Ok (info_of n)))|]. intros [info|e].
  - eapply (safe_try any_change) with (Q := λ _ fs, at_path (root ++ [x]) fs = None).
    { apply safe_reported; [apply _|]. eapply safe_weaken; [apply achieves_RemoveAll; by destruct root|done|done]. }
    intros []. eapply (safe_try any_change); [exact Hrest|]. intros l. by apply safe_ret; [apply _|].
  - destruct (errors_is e ErrNotExist) eqn:He; [|by apply safe_ret; [apply _|]].
    eapply safe_weaken; [exact Hrest| |done]. intros fs [_ H]. by apply H.
Qed.

Lemma uninstall_refused root (C : Prop) (r : outcome (result goerror (list string)) * world FS) (w : world FS) :
  w_app r.2 = w_app w → (∀ lines, r.1 ≠ Returned (Ok lines)) →
  guarded (foreign root) (w_app w) (w_app r.2) ∧ (C → w_app r.2 = w_app w ∧ ∀ lines, r.1 ≠ Returned (Ok lines)) ∧
  ((∃ lines, r.1 = Returned (Ok lines)) → ∀ x, x ∈ ["versions"; "current"; "runtimes"] → at_path (root ++ [x]) (w_app r.2) = None).
Proof using. intros -> Hno. split_and!; [done|done|]. intros [lines H]. by destruct (Hno lines). Qed.

(** C27: an uninstall removes what the installer owns and nothing else.  Whatever calls
    fail and wherever the process dies, nothing changes outside the versions, the
    link and the runtimes under the state root; a refused command (a wrong flag, no
    confirmation, a state root that is not the product's, or a history writer that
    could not be stopped) changes nothing at all and does not report success; and a
    command that reports success has left none of the three. *)
Theorem uninstall_confined `{!Honest E} (cwd : path) (flags : parsedFlags bool) (getenv : environment)
    (beforeRemoval : option (nat → option goerror)) (w : world FS) :
  let root := locate cwd (StateRoot getenv) in
  let r := RunUninstallBeforeRemoval cwd flags getenv beforeRemoval w in
  guarded (foreign root) (w_app w) (w_app r.2) ∧
  (fl_err flags ≠ None ∨ (0 < fl_NArg flags)%nat ∨ fl_values flags = false ∨ is_abs (StateRoot getenv) = false ∨
     path_base (StateRoot getenv) ≠ productDirName ∨ (∃ stop, beforeRemoval = Some stop ∧ ∀ t, stop t ≠ None) →
   w_app r.2 = w_app w ∧ ∀ lines, r.1 ≠ Returned (Ok lines)) ∧
  ((∃ lines, r.1 = Returned (Ok lines)) → ∀ x, x ∈ ["versions"; "current"; "runtimes"] → at_path (root ++ [x]) (w_app r.2) = None).
Proof using.
  intros root r. assert (r = RunUninstallBeforeRemoval cwd flags getenv beforeRemoval w) as Hr by done. clearbody r.
  unfold RunUninstallBeforeRemoval in Hr. fold root in Hr. clearbody root.
  destruct (usage flags _) as [e|] eqn:Hu; [by subst r; apply uninstall_refused|].
  unfold usage in Hu. destruct (fl_err flags) eqn:Hf; [done|]. destruct (0 <? fl_NArg flags)%nat eqn:Hn; [done|]. apply Nat.ltb_ge in Hn.
  destruct (fl_values flags) eqn:Hy; cbn [negb] in Hr; [|by subst r; apply uninstall_refused].
  destruct (is_abs (StateRoot getenv)) eqn:Ha; cbn [negb orb] in Hr; [|by subst r; apply uninstall_refused].
  destruct (String.eqb_spec (path_base (StateRoot getenv)) productDirName) as [Hb|Hb]; cbn [negb] in Hr; [|by subst r; apply uninstall_refused].
  set (stopping := match beforeRemoval with None => done | Some callback => _ end) in Hr. unfold rbind, bind in Hr.
  assert (frames eq anything (validateUninstallRoot root)) as Hval by (unfold validateUninstallRoot; frame_tac).
  destruct (Hval w I) as [Hw _]. destruct (validateUninstallRoot root w) as [[[[]|e]|s|] w1]; cbn [snd] in Hw; [|by subst r; apply uninstall_refused..].
  rewrite Hw. clear Hval Hw w.
  assert (frames eq anything stopping) as Hstop by (unfold stopping; destruct beforeRemoval; frame_tac).
  destruct (Hstop w1 I) as [Hw _]. destruct (stopping w1) as [[[[]|e]|s|] w2] eqn:Hs; cbn [snd] in Hw; [|by subst r; apply uninstall_refused..].
  rewrite Hw. subst r. split_and!.
  - assert (frames (guarded (foreign root)) anything (removeInstallation root)) as H; [|by apply H].
    unfold removeInstallation. apply frames_try_any; [apply _|by apply guards_remove_owned|]. intros l. frame_tac.
  - intros [?|[?|[?|[?|[?|(stop & -> & Hno)]]]]]; [done|lia|done..|]. exfalso. unfold stopping, wrapping, reported, must, bind in Hs. cbn in Hs.
    destruct (stop (w_clock w1)) eqn:?; [by injection Hs|]. by apply (Hno (w_clock w1)).
  - intros [lines Hr] x Hx. assert (NoDup owned_names) as Hnd by (by apply (bool_decide_unpack _)).
    unfold removeInstallation, rbind, bind in Hr |- *. destruct (achieves_remove_owned root owned_names Hnd w2 I) as [_ H].
    destruct (remove_owned root owned_names w2) as [[[l|e]|s|] w3]; [|done..]. specialize (H _ eq_refl). cbn [okst] in H.
    rewrite Forall_forall in H. by apply H.
Qed.
End uninstall.
