(* ===== verification/InstallerExamples.v ===== *)
(** * The installer: runs

    A small installation with two versions, an archive and its manifest; the
    hypotheses of the theorems hold for it, and some runs show where the installer
    does not do what its documentation says. *)

From stdpp Require Import base gmap strings list fin_maps.
From Stdlib Require Import ZArith Lia Ascii.
From S2P Require Import Prelude GoStrings GoErrors GoJson GoOS GoFS GoFSTree CertMaterial CertStore CertFrame CertSafety Installer InstallerFrame InstallerPaths InstallerProofs InstallerRollback.
Set Default Goal Selector "!".

Module InstallerExamples.

#[export] Existing Instance basic_unicode.
#[export] Instance plain_json_errors : JsonErrorText := id.
(** A digest that is easy to read, and archives with one tool. *)
#[export] Instance toy_text : TextTools := {| format_utc _ := ""; parses_utc _ := true; sha256_hex s := "d" +:+ s |}.
#[export] Instance toy_archives : Archives := λ content,
  if String.eqb content "torn" then Err (ErrSentinel ErrUnexpectedEOF)
  else Ok ([mkTarEntry "bin/tool" TypeReg 493 ("tool of " +:+ content) None; mkTarEntry "./lib/../share2/" TypeDir 493 "" None], None).

Definition calm_os : OSEnv := {|
  os_now t := Z.of_nat t; os_fault _ _ _ := None; os_written _ := 0%nat; os_temp_name _ _ _ := ""; os_select _ := true;
|}.
#[export] Instance calm_observable : Observable calm_os.
Proof. by split. Qed.
#[export] Instance calm_honest : Honest calm_os.
Proof. by intros t op p e. Qed.
Definition never_dies : Crash := λ _, false.

Definition toy_ops : installerOperations := mkInstallerOperations Z.of_nat (λ _ l, l).
Definition toy_env : environment := λ name,
  if String.eqb name "XDG_STATE_HOME" then "/state" else if String.eqb name "XDG_CACHE_HOME" then "/cache" else "".
Definition toy_root : path := ["state"; productDirName].
Definition release_node (i : nat) (tool : string) : node :=
  NDir i 493 (list_to_map [(verifiedSentinelName, NFile (i + 1) 420 ""); ("tool", NFile (i + 2) 493 tool)]).
Definition archive_name (v : string) : string := archive_prefix +:+ v +:+ archive_suffix.
Definition toy_world (content : string) : world FS := mkWorld (mkFS (NDir 0 493 (list_to_map [
  ("state", NDir 1 493 {[productDirName := NDir 2 493 (list_to_map [
     ("current", NLink 3 "versions/1.0"); ("versions", NDir 4 493 (list_to_map [("1.0", release_node 10 "one"); ("0.9", release_node 20 "old")]))])]});
  ("releases", NDir 5 493 (list_to_map [
     (archive_name "2.0", NFile 6 420 content); ("SHA256SUMS", NFile 7 420 ("D" +:+ content +:+ "  *" +:+ archive_name "2.0"))]))])) 100) ∅ ∅ 0.
Definition toy_flags : parsedFlags (string * string) := mkFlags None 0 ("/releases/" +:+ archive_name "2.0", "releases/SHA256SUMS").
Definition upgrade (w : world FS) := RunUpgrade (E := calm_os) (I := no_interference) (K := never_dies) toy_ops [] toy_flags toy_env w.
Definition rollback (w : world FS) :=
  RunRollback (E := calm_os) (I := no_interference) (K := never_dies) toy_ops [] (mkFlags None 0 tt) toy_env w.

Definition before_upgrade : world FS := toy_world "bits".
Definition after_upgrade : world FS := (upgrade before_upgrade).2.

Lemma toy_root_is : locate [] (StateRoot toy_env) = toy_root.
Proof. vm_compute. reflexivity. Qed.
Lemma toy_scratch_is : locate [] (cacheRoot toy_env) = ["cache"; productDirName].
Proof. vm_compute. reflexivity. Qed.
Lemma toy_scratch : scratch_apart (locate [] (StateRoot toy_env)) (locate [] (cacheRoot toy_env)).
Proof.
  rewrite toy_root_is, toy_scratch_is. intros n q Hq.
  assert (∃ s, q = "state" :: s) as (s & ->).
  { apply elem_of_cons in Hq as [->|Hq]; [by eexists|]. apply list_elem_of_singleton in Hq as ->. by eexists. }
  split; intros H%prefix_cons_inv_1; done.
Qed.
Lemma toy_serves : serves (locate [] (StateRoot toy_env)) (Some "1.0") (w_app before_upgrade).
Proof.
  intros v [= <-]. split.
  - eexists _, _. split; vm_compute; reflexivity.
  - eexists. split; [vm_compute; reflexivity|done].
Qed.
Lemma upgrade_returns : upgrade before_upgrade = (Returned (Ok "upgraded to 2.0 (predecessor retained: 1.0)"), after_upgrade).
Proof.
  unfold after_upgrade. rewrite (surjective_pairing (upgrade before_upgrade)) at 1.
  assert ((upgrade before_upgrade).1 = Returned (Ok "upgraded to 2.0 (predecessor retained: 1.0)")) as -> by (vm_compute; reflexivity).
  reflexivity.
Qed.

Lemma upgrade_crash_safe_witness :
  let fs := w_app (upgrade before_upgrade).2 in
  at_path (version_dir_of (locate [] (StateRoot toy_env)) "1.0") fs =
    at_path (version_dir_of (locate [] (StateRoot toy_env)) "1.0") (w_app before_upgrade) ∧
  (at_path (current_of (locate [] (StateRoot toy_env))) fs = at_path (current_of (locate [] (StateRoot toy_env))) (w_app before_upgrade) ∨
   ∃ V i, parseArchiveVersion (fl_values toy_flags).1 = Ok V ∧
     at_path (current_of (locate [] (StateRoot toy_env))) fs = Some (NLink i ("versions/" +:+ V)) ∧
     verified_at (version_dir_of (locate [] (StateRoot toy_env)) V) fs).
Proof.
  destruct (upgrade_crash_safe (E := calm_os) (K := never_dies) toy_ops [] toy_flags toy_env (Some "1.0") before_upgrade toy_scratch toy_serves) as [H1 H2].
  split; [exact (H1 "1.0" eq_refl)|exact H2].
Defined.

Lemma toy_serving : points_to (locate [] (StateRoot toy_env)) "1.0" (w_app before_upgrade).
Proof. exact (proj1 (toy_serves "1.0" eq_refl)). Qed.


Lemma toy_pins : plain_pins (version_dir_of (locate [] (StateRoot toy_env)) "1.0") (w_app before_upgrade).
Proof.
  intros content pins tool version (i & m & Hf). exfalso.
  assert (at_path (version_dir_of (locate [] (StateRoot toy_env)) "1.0" ++ ["share"; "pins.json"]) (w_app before_upgrade) = None) as Hn
    by (vm_compute; reflexivity).
  rewrite Hn in Hf. done.
Qed.
Lemma toy_free now : at_path (locate [] (StateRoot toy_env) ++ [".current.tmp-" +:+ itoa now]) (w_app after_upgrade) = None.
Proof.
  rewrite toy_root_is.
  assert (entry_names <$> at_path toy_root (w_app after_upgrade) = Some ["current"; "versions"]) as Hn by (vm_compute; reflexivity).
  destruct (at_path toy_root (w_app after_upgrade)) as [n|] eqn:Hroot; [|done]. injection Hn as Hn.
  destruct n as [| |i m es]; [done..|]. rewrite (at_entry _ _ _ _ _ _ Hroot). apply not_elem_of_dom. intros Hd.
  assert ((".current.tmp-" +:+ itoa now) ∈ entry_names (NDir i m es)) as Hin.
  { cbn [entry_names]. rewrite sort_strings_perm. by apply elem_of_elements. }
  rewrite Hn in Hin. apply elem_of_cons in Hin as [?|Hin]; [done|]. by apply list_elem_of_singleton in Hin.
Qed.


Lemma uninstall_confined_witness :
  let r := RunUninstall (E := calm_os) (I := no_interference) (K := never_dies) [] (mkFlags None 0 true) toy_env before_upgrade in
  guarded (foreign (locate [] (StateRoot toy_env))) (w_app before_upgrade) (w_app r.2) ∧
  at_path (locate [] (StateRoot toy_env) ++ ["versions"]) (w_app r.2) = None.
Proof.
  destruct (uninstall_confined (E := calm_os) (K := never_dies) [] (mkFlags None 0 true) toy_env None before_upgrade) as (H1 & _ & H3).
  split; [exact H1|]. apply H3; [|left]. eexists. vm_compute. reflexivity.
Defined.

(** ** Where the installer does something else *)

(** Upgrading again to the version that is current is not a no-op: the retained
    predecessor is removed, and a rollback is no longer possible. *)
Lemma rerun_drops_predecessor :
  let again := upgrade after_upgrade in
  (again.1, entry_names <$> at_path (toy_root ++ ["versions"]) (w_app after_upgrade),
   entry_names <$> at_path (toy_root ++ ["versions"]) (w_app again.2), (rollback again.2).1) =
  (Returned (Ok "upgraded to 2.0"), Some ["1.0"; "2.0"], Some ["2.0"],
   Returned (Err (ErrNew "rollback failed: no predecessor version is retained"))).
Proof. vm_compute. reflexivity. Qed.

(** A sentinel that cannot be inspected for the moment counts as absent: the version
    that is served is removed, and when the archive turns out to be torn, [current]
    is left pointing to nothing. *)
Definition hiccup_os : OSEnv := {|
  os_now t := Z.of_nat t;
  os_fault _ op p := if String.eqb op "stat" && String.eqb p ("state/" +:+ productDirName +:+ "/versions/1.0/.verified")
                     then Some (ErrPath "stat" p (ErrNew "input/output error")) else None;
  os_written _ := 0%nat; os_temp_name _ _ _ := ""; os_select _ := true;
|}.
Lemma hiccup_removes_served :
  let r := RunUpgrade (E := hiccup_os) (I := no_interference) (K := never_dies) toy_ops [] toy_flags toy_env (toy_world "torn") in
  (is_ok (match r.1 with Returned o => o | _ => Err (ErrNew "") end), at_path (toy_root ++ ["current"]) (w_app r.2),
   at_path (toy_root ++ ["versions"; "1.0"]) (w_app r.2)) =
  (false, Some (NLink 3 "versions/1.0"), None).
Proof. vm_compute. reflexivity. Qed.
End InstallerExamples.
